(* ===== verification/_CoqProject ===== *)
-Q . S2P
Prelude.v
Interfaces.v
LimitTypes.v
LimitStore.v
Policy.v
Constraints.v
Sliding.v
SlidingSpec.v
Limiter.v
Budget.v
Float64.v
Effects.v
GatewayDeps.v
Text.v
GatewayError.v
Retry.v
Router.v
Sealed.v
RouteCaps.v
Strategy.v
Health.v
Routing.v
Failover.v
Usage.v
AuditRow.v
Lifecycle.v
Pipeline.v
Accounting.v
McpRegistry.v
RedisKeys.v
McpCache.v
McpBreaker.v
ExpiringKeys.v
Glob.v
Validation.v
Lockout.v
Login.v
LoginSpec.v
Sessions.v
SessionSpec.v
Signature.v
Rbac.v
Scope.v
AllowList.v
ApiKeys.v
ApiKeyHandlers.v
ApiKeyAuth.v
ApiKeySpec.v
ApiKeyAccess.v
LimitHandlers.v
LimitAccess.v
LimitBulk.v
AdminDb.v
AdminUsers.v
AdminRoles.v
AdminSteps.v
AdminQuorum.v
AdminGuard.v
Memory.v
McpSse.v
McpSseSpec.v
McpSessions.v
McpUpstream.v
McpPool.v
McpCredentials.v
AuditBodies.v
AuditBodiesSpec.v
AuditWorker.v
AuditOutboxSpec.v
McpProxy.v
McpProxySpec.v
SpeedWatch.v
Metering.v
Names.v
RequestLog.v
StreamPump.v
StreamPumpSpec.v
