(* ===== verification/Prelude.v ===== *)
(** * ThinkWatch: a verification library for the gateway and its console

    ThinkWatch is a gateway in front of AI models and MCP tool servers, with a console to run it.
    A request presents an API key; the gateway finds out whose it is and what it may do, holds it
    to limits and budgets kept in Redis, picks one of the routes to the model, sends it, retries or
    fails over, streams the answer, and accounts and logs what it used.  A tool call goes to one
    MCP server, with the caller's credential and session.  The console logs people in, issues
    sessions, and lets them manage users, roles, keys and limits, each within the scope of its own
    permissions.  This library models these parts from the Rust sources under [src/crates/] and
    proves what they promise.

    ** How the parts fit

    - Shared ground.  This file: Rust's [Result], loops with [?], list lemmas, the automation.
      [Interfaces], [GatewayDeps], [ExpiringKeys]: other people's code (uuid, serde_json, Redis,
      tw-breaker) as classes of operations, with classes of laws that state their documentation and
      instances that show the laws can hold.  [Effects]: programs as functions from the world found
      to the world left and a result ([prog], and [io] when they can fail).  [Text], [Float64],
      [Glob]: strings, IEEE doubles and wildcard patterns.
    - Limits ([common/src/limits/]).  [LimitTypes] and [LimitStore] are the data and its tables,
      [Policy] what a role's JSON document grants, [Constraints] the merge into the limits of one
      request.  [Sliding] is the sliding-window limiter with its Lua scripts; [SlidingSpec] gives
      the abstract window it implements, [Limiter] its contract.  [Budget] is the calendar budgets,
      [Usage] the calendar counts, [Metering] (with [cost_decimal.rs], [usage_estimate.rs] and
      [cost_tracker.rs]) the tokens and the price a request is charged and the caches of weights.
    - The AI gateway ([gateway/src/]).  [GatewayError] and [Retry]: what an upstream's failure means
      and how long to wait.  [Router], [Names], [Strategy], [Sealed], [RouteCaps], [Health]: the
      table of routes, the names of models, and what is known of each route.  [Routing] picks and
      fails over against the interface [SelectionEnv]; [Failover] proves it against the interface's
      laws and implements the interface with the modelled components.  [AuditRow], [Lifecycle],
      [Pipeline], [Accounting], [RequestLog]: the stages before and after the call, over the
      limiter, the budgets, the usage and the audit log.  [SpeedWatch] judges slow streams;
      [StreamPump] is the pump of a streamed answer, as a machine that an event resumes at each
      [await] and [yield], and [StreamPumpSpec] what a client and the log see of it.
    - The MCP gateway ([mcp-gateway/src/]).  [McpRegistry] names and permits tools, [RedisKeys] and
      [McpCache] keep responses, [McpBreaker] the breakers and the dashboard's mirror of them,
      [McpSessions] the sessions of clients, [McpUpstream] and [McpPool] the requests and the
      connections they go over, [McpCredentials] the header a call carries, [McpSse] the two
      readers of an event stream ([McpSseSpec]: they agree).  [McpProxy] puts them together into
      one [tools/call], over state that others change wherever it waits; [McpProxySpec] proves it.
    - Resources and the audit trail ([common/src/]).  [Memory]: byte budgets, readers of bodies,
      slots for the processor ([resources.rs]).  [AuditBodies] (with [AuditBodiesSpec]): what is
      kept of bodies and details; [AuditWorker]: the queue, its batches, the forwarders and the
      outbox; [AuditOutboxSpec]: where every forwarded entry ends.
    - The console ([auth/src/], [server/src/]).  [Validation] checks input.  [Lockout] and [Login]
      log in ([LoginSpec]); [Sessions] ([SessionSpec]) refresh and revoke; [Signature] checks signed
      requests.  [Rbac] computes permissions, gateway access and limits from roles, [Scope] says
      where a permission counts.  [LimitHandlers], with [LimitAccess] and [LimitBulk], are the calls
      that write limits.  [AdminDb], [AdminUsers] and [AdminRoles] are the tables and handlers of
      users, roles and teams; [AdminSteps] reasons about them, [AdminQuorum] and [AdminGuard] prove
      what no sequence of calls can do.
    - API keys.  [AllowList] intersects lists of patterns, [ApiKeys] is the table with every
      statement on it, [ApiKeyHandlers] the console's handlers, [ApiKeyAuth] the middleware that
      lets a request in (over [Rbac]) and makes the identity [Pipeline] starts from; [ApiKeySpec]
      and [ApiKeyAccess] prove it.

    Definitions keep the names of the functions they model, and each file's comment names its
    sources.  A component's theorems are in its own file, or in one that ends in [Spec] (or is
    named for what it shows) where they are many; concrete runs ([demo_..], the [.._witness]
    lemmas, [Example]s) are beside them and also show what the code leaves open.

    ** What is proved

    - Limits.  Admission decides exactly by the windows, charges all or nothing
      ([admit_decides]), and no window is overfilled in any run ([window_never_overfilled]); the
      handlers write limits only where the caller may ([limits_written_in_scope]).
    - Requests.  Which requests pass the gates, what is charged and what is logged, whatever the
      links do ([preflight_decides]: a refusal charges nothing unless the limiter's answer was
      lost); what a call used is counted once on every counter it should be on, and each alert
      crossed leaves its row ([post_flight_counts]); a silent upstream is billed
      ([silent_upstream_is_billed]); the weights are never stale ([weights_served_fresh]).
    - Routing and streams.  Failover sends only where it may, ends, and answers with what happened
      ([failover_disciplined]); slow streams are judged by their window
      ([stream_judged_by_its_window]); a retry is invisible to the client ([retries_are_silent]),
      an upstream's error fails the request ([reported_error_fails_request], with the one exit
      that [leaves_at_held_opening] shows), and a stream that ends as natural gave the client all
      of its answer ([natural_stream_is_whole]), for any converter, shaper and inspector.
    - Tool calls.  A call reaches one server, the one its name says, on that run's connection,
      credential and session ([call_goes_to_named_server]), and is logged once
      ([sent_calls_are_logged]); headers and sessions are the caller's ([header_is_callers],
      [session_found_is_owners]); answers are shared only where the upstream cannot tell callers
      apart ([shared_answers_same_request]); listed tools route back ([listed_tools_route_back]);
      the two readers of a stream agree ([stream_answers_as_buffered]); the dashboard shows the
      breakers under any names ([registry_mirrors_breakers]).
    - Resources and audit.  Byte budgets balance ([budget_accounts]) and slots never deadlock
      ([slots_never_deadlock]).  Entries keep their order ([entries_kept_in_order]); forwarded ones
      are each counted sent, failed or parked, and retries end ([entries_accounted],
      [retries_end]), for one server whose other statements succeed; secrets are struck out of what
      the audit, gateway and MCP tables keep ([secrets_struck_out], which also says what is not
      struck).
    - Keys.  Who is let in and as whom ([key_admission]); lists of patterns intersect
      ([allowlists_intersect]); a stopped key stays out and a rotated one ends.
    - Console.  A session needs every factor ([session_needs_every_factor]) and a TOTP step lets a
      user in once ([totp_step_single_use]); guesses are bounded ([password_guesses_bounded]); a
      refresh token and a signed request are good once ([refresh_single_use],
      [signature_single_use]) and a revocation holds ([revoked_stay_out]); who may touch whose
      limits ([scope_for_subject_iff]) and who reaches the gateways ([gateway_access_iff]); the
      last super admin stays ([last_super_admin_kept]) and only administrators make administrators
      ([admin_roles_guarded]).

    ** How the code is read

    - Integers are [Z] with their width written out where it can matter (bounds, wrap-around,
      [checked_add]).  Lua's numbers are doubles: the scripts handle integers up to 2^53, which
      doubles hold exactly, and are modelled on [Z]; where Rust computes on [f64] the model does
      too ([Float64], rounding included).  Times are milliseconds, or nanoseconds where the source
      keeps them.
    - Redis and PostgreSQL run one command, script, statement or transaction at a time, and each
      takes the next index of the run: [net] says whether it is done, lost on the way or done with
      its reply lost, [clock] when.  A theorem that needs Redis up, one server alone or a clock
      that behaves says so.  A handler's steps are not interleaved with other handlers' unless a
      comment says so ([Health], [McpProxy], [McpCredentials] and [McpSessions] have interference
      between steps); the theorems about histories interleave whole handlers.  Components with
      different keys or tables have separate stores.
    - A failure is a value of the result; so is a panic, as the error the server answers with.
    - Loops without a structural measure take fuel: 60 for the limiter's search for free room (one
      per bucket), one unit per round for failover, which [rounds_left] bounds from the deadline.
      A theorem says the fuel suffices.
    - [Failover] keeps a log of the attempts and [McpProxy] one of what was sent, which the code
      does not; nothing in the models reads them.
    - [McpBreaker] is for calls that do not overlap; [TTL] rounds up as Redis does; a trailing
      backslash in a LIKE pattern matches nothing; the scope queries take a stored document to have
      the shape its validation admits.
    - Arguments stand for code outside the repository: hashing, encryption, Argon2, TOTP, URL and
      address parsing, DNS, serde's derived readers ([policy_from_value], [decode_constraints]),
      the dialects' converters and readers ([tw_dialect]), the calendar, [powf], random numbers,
      and new identifiers.  The stream shaper ([gateway/src/proxy/shaper.rs]), which is not
      modelled, is any machine in [StreamPump]'s theorems.

    ** Not modelled

    The web interface, the start-up and wiring of the server, SQL of listings and dashboards, the
    conversions between the vendors' protocols ([generate], [shaper] and what calls [tw_dialect]),
    content filters and redaction ([tw_guard]), the OAuth flows of MCP servers, single sign-on, and
    the handlers of settings, models, providers and forwarders: input and output around other
    crates. *)

From Stdlib Require Export Sorting.Sorted.
From stdpp Require Export base decidable gmap sets strings pretty numbers list.

Declare Scope rust_scope.
Delimit Scope rust_scope with rust.
Open Scope Z_scope.

(** ** Results: Rust's [Result<T, E>] *)

Inductive result (E A : Type) : Type :=
| Ok (a : A)
| Err (e : E).
Arguments Ok {E A} a.
Arguments Err {E A} e.

#[export] Instance result_ret E : MRet (result E) := fun A a => Ok a.
#[export] Instance result_bind E : MBind (result E) := fun A B f r =>
  match r with Ok a => f a | Err e => Err e end.
#[export] Instance result_fmap E : FMap (result E) := fun A B f r =>
  match r with Ok a => Ok (f a) | Err e => Err e end.

Definition is_ok {E A} (r : result E A) : bool :=
  match r with Ok _ => true | Err _ => false end.

(** [opt.ok_or(e)]. *)
Definition ok_or {E A} (o : option A) (e : E) : result E A :=
  match o with Some a => Ok a | None => Err e end.

(** Rust's [for x in xs { check(x)?; }]: the first error wins. *)
Fixpoint try_each {E A} (f : A -> result E unit) (l : list A) : result E unit :=
  match l with
  | [] => Ok tt
  | x :: l => match f x with Ok _ => try_each f l | Err e => Err e end
  end.

(** [for (i, x) in xs.iter().enumerate() { check(i, x)?; }] *)
Fixpoint try_each_from {E A} (i : nat) (f : nat -> A -> result E unit) (l : list A)
    : result E unit :=
  match l with
  | [] => Ok tt
  | x :: l => match f i x with Ok _ => try_each_from (S i) f l | Err e => Err e end
  end.
Abbreviation try_enumerate f l := (try_each_from 0 f l).

(** ** Machine integers *)

Definition i32_max : Z := 2147483647.
Definition i32_min : Z := -2147483648.
Definition i64_max : Z := 9223372036854775807.
Definition i64_min : Z := -9223372036854775808.
Definition u64_max : Z := 18446744073709551615.
Definition in_i32 (z : Z) : Prop := i32_min <= z <= i32_max.
Definition in_i64 (z : Z) : Prop := i64_min <= z <= i64_max.
Definition in_u64 (z : Z) : Prop := 0 <= z <= u64_max.

(** Two's-complement truncation of [as i64]. *)
Definition wrap_i64 (z : Z) : Z := (z + 2 ^ 63) mod 2 ^ 64 - 2 ^ 63.
(** [as u64] of an integer. *)
Definition wrap_u64 (z : Z) : Z := z mod 2 ^ 64.
Definition clamp_u64 (z : Z) : Z := Z.max 0 (Z.min z u64_max).
(** [u64::saturating_sub], [u64::saturating_add], [u64::saturating_mul]. *)
Definition sat_sub_u64 (a b : Z) : Z := clamp_u64 (a - b).
Definition sat_add_u64 (a b : Z) : Z := clamp_u64 (a + b).
Definition sat_mul_u64 (a b : Z) : Z := clamp_u64 (a * b).
(** [u64::div_ceil]. *)
Definition div_ceil (a b : Z) : Z := (a + b - 1) / b.

#[export] Instance in_i64_dec z : Decision (in_i64 z).
Proof. unfold in_i64. apply _. Defined.
#[export] Instance in_i32_dec z : Decision (in_i32 z).
Proof. unfold in_i32. apply _. Defined.

(** ** Byte strings *)

Fixpoint strip_prefix (p s : string) : option string :=
  match p, s with
  | EmptyString, _ => Some s
  | String a p, String b s => if decide (a = b) then strip_prefix p s else None
  | String _ _, EmptyString => None
  end.

Definition starts_with (p s : string) : bool :=
  match strip_prefix p s with Some _ => true | None => false end.

Fixpoint strip_suffix (p s : string) : option string :=
  if decide (s = p) then Some EmptyString
  else match s with
       | EmptyString => None
       | String a s => String a <$> strip_suffix p s
       end.

Definition ends_with (p s : string) : bool :=
  match strip_suffix p s with Some _ => true | None => false end.

(** A [BTreeSet<String>]: the sorted, duplicate-free list its iterator yields. *)
Fixpoint btree_insert (x : string) (l : list string) : list string :=
  match l with
  | [] => [x]
  | y :: l' =>
      match String.compare x y with
      | Lt => x :: l
      | Eq => l
      | Gt => y :: btree_insert x l'
      end
  end.
Definition btree_extend (l : list string) (xs : list string) : list string :=
  foldl (fun l x => btree_insert x l) l xs.
Definition str_lt (x y : string) : Prop := String.compare x y = Lt.

(** ** Tactics *)

Create HintDb tw.

(** Case analysis on every [match]/[if] left in a hypothesis or the goal. *)
Ltac split_match :=
  repeat match goal with
  | H : context [match ?x with _ => _ end] |- _ => destruct x eqn:?; simplify_eq
  | |- context [match ?x with _ => _ end] => destruct x eqn:?; simplify_eq
  end.

(** Reflect boolean comparisons on Z into propositions. *)
Ltac zbool :=
  repeat match goal with
  | H : (_ <? _) = true |- _ => apply Z.ltb_lt in H
  | H : (_ <? _) = false |- _ => apply Z.ltb_ge in H
  | H : (_ <=? _) = true |- _ => apply Z.leb_le in H
  | H : (_ <=? _) = false |- _ => apply Z.leb_gt in H
  | H : (_ =? _) = true |- _ => apply Z.eqb_eq in H
  | H : (_ =? _) = false |- _ => apply Z.eqb_neq in H
  | H : (_ && _) = true |- _ => apply andb_true_iff in H; destruct H
  | H : (_ || _) = false |- _ => apply orb_false_iff in H; destruct H
  | H : negb _ = true |- _ => apply negb_true_iff in H
  | H : negb _ = false |- _ => apply negb_false_iff in H
  end.

(** Split a chain of [match]es, reflect the tests and close by arithmetic. *)
Ltac cases := split_match; zbool; try lia; try done.

(** ** Lemmas on results *)

Lemma try_each_ok {E A} (f : A -> result E unit) l :
  try_each f l = Ok tt <-> Forall (fun x => f x = Ok tt) l.
Proof.
  induction l as [|x l IH]; simpl; [done|].
  rewrite Forall_cons_iff. destruct (f x) as [[]|e]; [rewrite IH; clear; tauto|].
  split; [done|]. by intros [? _].
Qed.

Lemma try_each_from_ok {E A} (f : nat -> A -> result E unit) l i :
  try_each_from i f l = Ok tt <-> (forall j x, l !! j = Some x -> f (i + j)%nat x = Ok tt).
Proof.
  revert i. induction l as [|x l IH]; intros i; simpl; [by split|].
  destruct (f i x) as [[]|e] eqn:Hf.
  - rewrite IH. split; intros H j y Hj.
    + destruct j; simplify_eq/=; [by rewrite Nat.add_0_r|].
      rewrite <- Nat.add_succ_comm. by apply H.
    + rewrite Nat.add_succ_comm. by apply (H (S j)).
  - split; [done|]. intros H. specialize (H 0%nat x eq_refl).
    rewrite Nat.add_0_r in H. congruence.
Qed.

(** ** Lemmas on integers *)

Lemma wrap_i64_id z : in_i64 z -> wrap_i64 z = z.
Proof.
  unfold in_i64, wrap_i64, i64_min, i64_max. intros.
  rewrite Z.mod_small by lia. lia.
Qed.

Lemma wrap_i64_range z : in_i64 (wrap_i64 z).
Proof.
  unfold in_i64, wrap_i64, i64_min, i64_max.
  pose proof (Z.mod_pos_bound (z + 2 ^ 63) (2 ^ 64)). lia.
Qed.

Lemma clamp_u64_range z : in_u64 (clamp_u64 z).
Proof. unfold in_u64, clamp_u64, u64_max. lia. Qed.

Lemma div_ceil_spec a b : 0 < b -> b * (div_ceil a b - 1) < a <= b * div_ceil a b.
Proof.
  intros Hb. unfold div_ceil.
  pose proof (Z.div_mod (a + b - 1) b). pose proof (Z.mod_pos_bound (a + b - 1) b). nia.
Qed.

(** ** Lemmas on strings *)

#[local] Arguments String.append !_ _ / : simpl nomatch.

Lemma strip_prefix_Some p s t : strip_prefix p s = Some t <-> s = p +:+ t.
Proof.
  revert s. induction p as [|a p IH]; intros s; simpl; [split; congruence|].
  destruct s as [|b s]; [done|].
  case_decide as Hab; [subst; rewrite IH; split; congruence|].
  split; [done|]. congruence.
Qed.

Lemma str_app_nil_r s : s +:+ "" = s.
Proof. induction s; simpl; congruence. Qed.

Lemma str_app_assoc (a b c : string) : (a +:+ b) +:+ c = a +:+ (b +:+ c).
Proof. induction a; simpl; congruence. Qed.

Lemma str_length_app a b : String.length (a +:+ b) = (String.length a + String.length b)%nat.
Proof. induction a; simpl; congruence. Qed.

Lemma str_app_inj_len a1 a2 b1 b2 :
  String.length a1 = String.length a2 -> a1 +:+ b1 = a2 +:+ b2 -> a1 = a2 /\ b1 = b2.
Proof.
  revert a2. induction a1 as [|x a1 IH]; intros [|y a2] Hl Heq; simplify_eq/=; [done|].
  destruct (IH a2) as [-> ->]; auto.
Qed.

Lemma str_app_cancel_l a b1 b2 : a +:+ b1 = a +:+ b2 -> b1 = b2.
Proof. intros H. by apply str_app_inj_len in H as [_ ?]. Qed.

Lemma str_app_cancel_r a1 a2 b : a1 +:+ b = a2 +:+ b -> a1 = a2.
Proof.
  intros H. apply (str_app_inj_len _ _ b b) in H; [naive_solver|].
  apply (f_equal String.length) in H. rewrite !str_length_app in H. lia.
Qed.

Lemma strip_suffix_Some p s t : strip_suffix p s = Some t <-> s = t +:+ p.
Proof.
  revert t. induction s as [|a s IH]; intros t; simpl.
  - case_decide as Hp; [subst|].
    + destruct t; simpl; naive_solver.
    + split; [done|]. destruct t; simpl; naive_solver.
  - case_decide as Hp; [subst p|].
    + split; [by intros [= <-]|]. intros H.
      assert (t = "") as ->; [|done].
      apply (str_app_cancel_r t "" (String a s)). by rewrite <- H.
    + rewrite fmap_Some. setoid_rewrite IH. split.
      * by intros (x & -> & ->).
      * destruct t as [|b t]; simpl; intros; simplify_eq. by exists t.
Qed.

Lemma starts_with_spec p s : starts_with p s = true <-> exists t, s = p +:+ t.
Proof.
  unfold starts_with. destruct (strip_prefix p s) as [t|] eqn:H.
  - split; [|done]. intros _. exists t. by apply strip_prefix_Some.
  - split; [done|]. intros [t Ht]. apply strip_prefix_Some in Ht. congruence.
Qed.

Lemma ends_with_spec p s : ends_with p s = true <-> exists t, s = t +:+ p.
Proof.
  unfold ends_with. destruct (strip_suffix p s) as [t|] eqn:H.
  - split; [|done]. intros _. exists t. by apply strip_suffix_Some.
  - split; [done|]. intros [t Ht]. apply strip_suffix_Some in Ht. congruence.
Qed.

(** ** Lemmas on sorted sets of strings *)

Lemma elem_of_btree_insert x y l : y ∈ btree_insert x l <-> y = x \/ y ∈ l.
Proof.
  induction l as [|z l IH]; simpl; [set_solver|].
  destruct (String.compare x z) eqn:E; [|set_solver|set_solver].
  apply String.compare_eq_iff in E. set_solver.
Qed.

Lemma elem_of_btree_extend xs l y : y ∈ btree_extend l xs <-> y ∈ l \/ y ∈ xs.
Proof.
  unfold btree_extend. revert l. induction xs as [|x xs IH]; intros l; simpl; [set_solver|].
  rewrite IH, elem_of_btree_insert. set_solver.
Qed.

Lemma btree_insert_sorted x l : Sorted str_lt l -> Sorted str_lt (btree_insert x l).
Proof.
  induction l as [|z l IH]; simpl; [by repeat constructor|].
  intros [Hs Hh]%Sorted_inv. destruct (String.compare x z) eqn:E.
  - by constructor.
  - by repeat constructor.
  - assert (str_lt z x) as Hzx by (unfold str_lt; by rewrite String.compare_antisym, E).
    constructor; [auto|]. destruct l as [|y l]; simpl; [by constructor|].
    inversion Hh; subst. by destruct (String.compare x y); constructor.
Qed.

Lemma btree_extend_sorted xs l : Sorted str_lt l -> Sorted str_lt (btree_extend l xs).
Proof.
  unfold btree_extend. revert l. induction xs as [|x xs IH]; intros l Hl; simpl; [done|].
  by apply IH, btree_insert_sorted.
Qed.

(** ** Lemmas on lists *)

Lemma list_filter_all {A} (P : A -> Prop) `{!forall x, Decision (P x)} (l : list A) :
  (forall x, x ∈ l -> P x) -> filter P l = l.
Proof.
  induction l as [|x l IH]; intros Hl; [done|].
  rewrite filter_cons_True by (apply Hl; set_solver). f_equal. apply IH. set_solver.
Qed.

Lemma NoDup_fmap_elem {A B} (f : A -> B) (l : list A) x y :
  NoDup (f <$> l) -> x ∈ l -> y ∈ l -> f x = f y -> x = y.
Proof.
  intros Hnd [i Hi]%list_elem_of_lookup [j Hj]%list_elem_of_lookup Heq.
  enough (i = j) by congruence. eapply NoDup_lookup; [done| |].
  - by rewrite list_lookup_fmap, Hi.
  - by rewrite list_lookup_fmap, Hj, Heq.
Qed.

Lemma NoDup_fmap_split {A B} (f : A -> B) (l : list A) x :
  NoDup (f <$> l) -> x ∈ l ->
  exists l1 l2, l = l1 ++ x :: l2 /\ forall y, y ∈ l2 -> f y <> f x.
Proof.
  intros Hnd [l1 [l2 ->]]%list_elem_of_split. exists l1, l2. split; [done|].
  rewrite fmap_app, fmap_cons in Hnd. apply NoDup_app in Hnd as (_ & _ & Hnd).
  apply NoDup_cons in Hnd as [Hx _]. intros y Hy Heq. apply Hx. rewrite <- Heq.
  by apply list_elem_of_fmap_2.
Qed.

Lemma NoDup_fmap_omap {A B C} (h : A -> option B) (f : B -> C) (l : list A) :
  NoDup l ->
  (forall x y a b, x ∈ l -> y ∈ l -> h x = Some a -> h y = Some b -> f a = f b -> x = y) ->
  NoDup (f <$> omap h l).
Proof.
  induction 1 as [|x l Hx Hl IH]; intros Hinj; [constructor|]. simpl.
  assert (IH' : NoDup (f <$> omap h l)).
  { apply IH. intros y z a b Hy Hz. apply Hinj; by right. }
  destruct (h x) as [a|] eqn:E; [|done]. rewrite fmap_cons. apply NoDup_cons. split; [|done].
  intros (b & Hab & (y & Hy & Hb)%list_elem_of_omap)%list_elem_of_fmap. apply Hx.
  by rewrite (Hinj x y a b) by (done || left || by right).
Qed.

(** A fold whose every step adds one case to [P]. *)
Lemma foldl_or {A B} (P : B -> Prop) (Q : A -> Prop) (step : B -> A -> B) l acc :
  (forall acc a, P (step acc a) <-> P acc \/ Q a) ->
  P (foldl step acc l) <-> P acc \/ exists a, a ∈ l /\ Q a.
Proof.
  intros Hstep. revert acc. induction l as [|a l IH]; intros acc; simpl.
  - split; [auto|]. intros [?|(a & Hin & _)]; [done|by apply elem_of_nil in Hin].
  - rewrite IH, Hstep. setoid_rewrite elem_of_cons. split.
    + intros [[?|?]|(x & ? & ?)]; [auto|right; by exists a; auto|right; exists x; auto].
    + intros [?|(x & [->|?] & ?)]; [auto|auto|right; by exists x].
Qed.

(** A run that answers [b], named by its end state. *)
Lemma run_ends {A B} (p : A * B) b : p.2 = b -> p = (p.1, b).
Proof. by destruct p; intros <-. Qed.
