(* ===== verification/Interfaces.v ===== *)
(** * Third-party code as interfaces

    ThinkWatch is built on crates and services that are not part of its source: the [uuid]
    and [serde_json] crates, the Redis server its Lua scripts run against.  Each is a class
    here: its operations, and, in a class of laws, the documented behaviour a theorem relies
    on.  The components are written against these classes.  The last part of the file gives a
    concrete instance of each, which the witnesses run on. *)

From Stdlib Require Import DecimalString DecimalZ.
From S2P Require Import Prelude.

(** ** [uuid::Uuid] *)

Class Uuid (U : Type) := {
  uuid_eq_dec :: EqDecision U;
  uuid_nil : U;
  (** [Display]: the hyphenated lower-case form. *)
  uuid_str : U -> string;
}.

Class UuidLaws (U : Type) `{Uuid U} := {
  uuid_str_inj :: Inj (=) (=) uuid_str;
  (** The hyphenated form is always 36 characters. *)
  uuid_str_length u : String.length (uuid_str u) = 36%nat;
}.

(** ** [serde_json::Value] *)

Class JsonValue (V : Type) := {
  json_get : string -> V -> option V;
  json_as_str : V -> option string;
  json_as_array : V -> option (list V);
  json_is_null : V -> bool;
  json_is_object : V -> bool;
}.

(** ** Redis hashes

    A hash is a finite map from field names to stored texts; [HGETALL] lists it in some
    order.  [tonumber] and [tostring] are the conversions between numbers and texts that the
    scripts and [HINCRBY] use.  The server is single threaded: one script runs at a time, so
    a script is a function from the store it finds to the store it leaves.  [HINCRBY] is
    refused ([None], nothing written) when the field does not hold an integer or the sum
    leaves 64 bits. *)

Class Redis (St : Type) := {
  hgetall : string -> St -> list (string * string);
  hdel : string -> list string -> St -> St;
  hincrby : string -> string -> Z -> St -> option St;
  expire : string -> Z -> St -> St;
  tonumber : string -> option Z;
  tostring : Z -> string;
}.

(** The text a hash field holds, if it is there. *)
Definition hget `{Redis St} (k f : string) (s : St) : option string :=
  (fun p => p.2.2) <$> list_find (fun p => p.1 = f) (hgetall k s).

(** The field holds the integer [z]; a missing field counts as 0. *)
Definition holds_int `{Redis St} (k f : string) (s : St) (z : Z) : Prop :=
  hget k f s = None /\ z = 0 \/ hget k f s = Some (tostring z).

Class RedisLaws (St : Type) `{Redis St} := {
  tonumber_tostring z : tonumber (tostring z) = Some z;
  (** A hash has one entry per field. *)
  hgetall_nodup k s : NoDup (hgetall k s).*1;
  hget_hdel k fs s k' f :
    hget k' f (hdel k fs s) = if decide (k' = k /\ f ∈ fs) then None else hget k' f s;
  (** [HINCRBY] starts a missing field at 0 and adds to the integer a field holds; it writes
      nothing else. *)
  hincrby_Some k f n s s' :
    hincrby k f n s = Some s' ->
    exists z, holds_int k f s z /\
      forall k' f', hget k' f' s' =
        if decide (k' = k /\ f' = f) then Some (tostring (z + n)) else hget k' f' s;
  hincrby_succeeds k f n s z :
    holds_int k f s z -> in_i64 (z + n) -> is_Some (hincrby k f n s);
  (** Setting a key's time to live leaves its value. *)
  hget_expire k ttl s k' f : hget k' f (expire k ttl s) = hget k' f s;
}.

(** ** Redis counters: [GET], [INCRBY], [EXPIRE] on plain keys

    [kget] is the value read as an integer, as the client asks for it: a key that holds
    something else is an error. *)

Class RedisKV (St : Type) := {
  kget : string -> St -> result unit (option Z);
  kincrby : string -> Z -> St -> option St;
  kexpire : string -> Z -> St -> St;
}.

Class RedisKVLaws (St : Type) `{RedisKV St} := {
  kincrby_Some k n s s' :
    kincrby k n s = Some s' ->
    exists o, kget k s = Ok o /\
      forall k', kget k' s' = if decide (k' = k) then Ok (Some (default 0 o + n)) else kget k' s;
  kincrby_succeeds k n s o :
    kget k s = Ok o -> in_i64 (default 0 o + n) -> is_Some (kincrby k n s);
  kget_kexpire k ttl s k' : kget k' (kexpire k ttl s) = kget k' s;
}.

(** ** [chrono] dates

    A date is its day number, 0 for 1970-01-01.  [fmt_ymd] and [fmt_ym] are the [%Y-%m-%d] and
    [%Y-%m] texts (the laws are for the dates chrono represents); [iso_week] is the ISO year and week; [weekday] counts from Monday;
    [month_first] is [with_day(1)] and [next_month] adds one month to a first of month. *)

Class Calendar := {
  fmt_ymd : Z -> string;
  fmt_ym : Z -> string;
  iso_week : Z -> Z * Z;
  weekday : Z -> Z;
  month_first : Z -> Z;
  next_month : Z -> Z;
}.

Class CalendarLaws `{Calendar} := {
  fmt_ymd_inj :: Inj (=) (=) fmt_ymd;
  fmt_ym_month d d' : fmt_ym d = fmt_ym d' <-> month_first d = month_first d';
  weekday_range d : 0 <= weekday d < 7;
  weekday_succ d : weekday (d + 1) = (weekday d + 1) mod 7;
  (** Two days are in the same ISO week exactly when they have the same Monday. *)
  iso_week_monday d d' : iso_week d = iso_week d' <-> d - weekday d = d' - weekday d';
  iso_week_range d : 0 <= d -> 0 <= (iso_week d).1 /\ 1 <= (iso_week d).2 <= 53;
  month_first_le d : month_first d <= d;
  (** The month that contains [d] is the days from its first to before the next first. *)
  month_days d d' : month_first d' = month_first d <->
    month_first d <= d' < next_month (month_first d);
  next_month_after d : d < next_month (month_first d) <= d + 31;
}.

(** ** Instances *)

(** Three identifiers, enough for two principals and the nil id. *)
Inductive demo_uuid := UNil | UAlice | UKey1.

#[export] Instance demo_uuid_eq_dec : EqDecision demo_uuid.
Proof. solve_decision. Defined.

Definition demo_uuid_str (u : demo_uuid) : string :=
  match u with
  | UNil => "00000000-0000-0000-0000-000000000000"
  | UAlice => "11111111-2222-4333-8444-555555555555"
  | UKey1 => "66666666-7777-4888-9999-aaaaaaaaaaaa"
  end.

#[export] Instance demo_Uuid : Uuid demo_uuid :=
  {| uuid_nil := UNil; uuid_str := demo_uuid_str |}.

#[export] Instance demo_UuidLaws : UuidLaws demo_uuid.
Proof. split; [intros [] []; done|by intros []]. Qed.

(** JSON trees. *)
#[warnings="-register-all"]
Inductive json :=
| JNull
| JBool (b : bool)
| JNum (z : Z)
| JStr (s : string)
| JArr (l : list json)
| JObj (l : list (string * json)).

#[export] Instance json_eq_dec : EqDecision json.
Proof.
  refine (fix go (x y : json) : Decision (x = y) :=
    match x, y with
    | JNull, JNull => left eq_refl
    | JBool a, JBool b => cast_if (decide (a = b))
    | JNum a, JNum b => cast_if (decide (a = b))
    | JStr a, JStr b => cast_if (decide (a = b))
    | JArr a, JArr b => cast_if (@list_eq_dec _ go a b)
    | JObj a, JObj b => cast_if (@list_eq_dec _ (@prod_eq_dec _ _ _ go) a b)
    | _, _ => right _
    end); try congruence.
Defined.

#[export] Instance json_JsonValue : JsonValue json := {|
  json_get k v := match v with
                  | JObj l => (fun p => p.2.2) <$> list_find (fun p => p.1 = k) l
                  | _ => None
                  end;
  json_as_str v := match v with JStr s => Some s | _ => None end;
  json_as_array v := match v with JArr l => Some l | _ => None end;
  json_is_null v := match v with JNull => true | _ => false end;
  json_is_object v := match v with JObj _ => true | _ => false end;
|}.

(** A store of hashes with the times to live last set. *)
Record hstore := {
  hs_hashes : gmap string (gmap string string);
  hs_ttl : gmap string Z;
}.

Definition hs_empty : hstore := {| hs_hashes := ∅; hs_ttl := ∅ |}.

Definition hs_hash (k : string) (s : hstore) : gmap string string :=
  default ∅ (hs_hashes s !! k).

Definition hs_put (k : string) (h : gmap string string) (s : hstore) : hstore :=
  {| hs_hashes := <[k := h]> (hs_hashes s); hs_ttl := hs_ttl s |}.

Definition dec_of_Z (z : Z) : string := NilEmpty.string_of_int (Z.to_int z).
Definition Z_of_dec (s : string) : option Z := Z.of_int <$> NilEmpty.int_of_string s.

#[export] Instance hstore_Redis : Redis hstore := {|
  hgetall k s := map_to_list (hs_hash k s);
  hdel k fs s := hs_put k (foldr delete (hs_hash k s) fs) s;
  hincrby k f n s :=
    z ← match hs_hash k s !! f with
        | Some v => z ← Z_of_dec v; if decide (v = dec_of_Z z) then Some z else None
        | None => Some 0
        end;
    if decide (in_i64 (z + n)) then Some (hs_put k (<[f := dec_of_Z (z + n)]> (hs_hash k s)) s)
    else None;
  expire k ttl s := {| hs_hashes := hs_hashes s; hs_ttl := <[k := ttl]> (hs_ttl s) |};
  tonumber := Z_of_dec;
  tostring := dec_of_Z;
|}.

Lemma Z_of_dec_of_Z z : Z_of_dec (dec_of_Z z) = Some z.
Proof. unfold Z_of_dec, dec_of_Z. rewrite NilEmpty.isi. simpl. by rewrite DecimalZ.of_to. Qed.

Lemma hget_hs k f (s : hstore) : hget k f s = hs_hash k s !! f.
Proof.
  unfold hget. cbn [hgetall hstore_Redis]. apply option_eq. intros v.
  rewrite <- elem_of_map_to_list, fmap_Some. split.
  - intros ([i [f' v']] & (Hi & Hf & _)%list_find_Some & ->). simpl in *. subst f'.
    by eapply list_elem_of_lookup_2.
  - intros Hin. destruct (list_find (fun p => p.1 = f) (map_to_list (hs_hash k s)))
      as [[i [f' v']]|] eqn:Hf.
    + eexists; split; [done|]. apply list_find_Some in Hf as (Hi & Hf & _).
      apply list_elem_of_lookup_2 in Hi. simpl in *. subst f'.
      apply elem_of_map_to_list in Hin, Hi. congruence.
    + apply list_find_None in Hf. rewrite Forall_forall in Hf. by destruct (Hf (f, v) Hin).
Qed.

Lemma hs_hash_put k h s k' : hs_hash k' (hs_put k h s) = if decide (k' = k) then h else hs_hash k' s.
Proof.
  unfold hs_hash, hs_put; simpl. case_decide; subst.
  - by rewrite lookup_insert_eq.
  - by rewrite lookup_insert_ne by done.
Qed.

Lemma lookup_foldr_delete (h : gmap string string) fs f :
  foldr delete h fs !! f = if decide (f ∈ fs) then None else h !! f.
Proof.
  induction fs as [|g fs IH]; simpl.
  - done.
  - rewrite lookup_delete, IH. repeat case_decide; set_solver.
Qed.

#[export] Instance hstore_RedisLaws : RedisLaws hstore.
Proof.
  split.
  - apply Z_of_dec_of_Z.
  - intros k s. apply NoDup_fst_map_to_list.
  - intros k fs s k' f. rewrite !hget_hs. unfold hdel; simpl. rewrite hs_hash_put.
    destruct (decide (k' = k)) as [->|]; [rewrite lookup_foldr_delete|];
      repeat case_decide; naive_solver.
  - intros k f n s s' Hs. unfold holds_int. rewrite hget_hs. cbn [hincrby hstore_Redis] in Hs.
    apply bind_Some in Hs as (z & Hz & Hs). case_decide; simplify_eq. exists z. split.
    + destruct (hs_hash k s !! f) as [v|] eqn:Hv; [right|left; naive_solver].
      apply bind_Some in Hz as (z' & _ & Hz'). case_decide; by simplify_eq.
    + intros k' f'. rewrite !hget_hs, hs_hash_put.
      destruct (decide (k' = k)) as [->|]; [rewrite lookup_insert|];
        repeat case_decide; naive_solver.
  - intros k f n s z Hz Hi. unfold holds_int in Hz. rewrite hget_hs in Hz.
    cbn [hincrby hstore_Redis]. destruct Hz as [[-> ->]| ->]; simpl; [rewrite decide_True by done; eauto|].
    rewrite Z_of_dec_of_Z. simpl. rewrite decide_True by done. simpl.
    rewrite decide_True by done. eauto.
  - intros. by rewrite !hget_hs.
Qed.

(** Counters by name. *)
#[export] Instance kv_Redis : RedisKV (gmap string Z) := {|
  kget k s := Ok (s !! k);
  kincrby k n s :=
    let z := default 0 (s !! k) + n in
    if decide (in_i64 z) then Some (<[k := z]> s) else None;
  kexpire k ttl s := s;
|}.

#[export] Instance kv_RedisLaws : RedisKVLaws (gmap string Z).
Proof.
  split; cbn [kget kincrby kexpire kv_Redis].
  - intros k n s s' Hs. case_decide; simplify_eq. eexists. split; [done|].
    intros k'. rewrite lookup_insert. repeat case_decide; naive_solver.
  - intros k n s o [= <-] Hi. rewrite decide_True by done. eauto.
  - done.
Qed.

(** A calendar of months of 28 days, in which day 0 is a Thursday as in 1970: it has every
    law, and the months are whole weeks. *)
Definition flat_weekday (d : Z) : Z := (d + 3) mod 7.
#[export] Instance flat_Calendar : Calendar := {|
  fmt_ymd d := dec_of_Z d;
  fmt_ym d := dec_of_Z (d / 28);
  iso_week d := let w := (d + 3) / 7 in
    (if 0 <=? w then 2 * (w / 52) else 2 * (- w / 52) + 1,
     if 0 <=? w then w mod 52 + 1 else (- w) mod 52 + 1);
  weekday := flat_weekday;
  month_first d := d / 28 * 28;
  next_month d := d + 28;
|}.

Lemma dec_of_Z_inj : Inj (=) (=) dec_of_Z.
Proof. intros x y Heq. apply (f_equal Z_of_dec) in Heq. rewrite !Z_of_dec_of_Z in Heq. congruence. Qed.

#[local] Ltac Zify.zify_post_hook ::= Z.to_euclidean_division_equations.

#[export] Instance flat_CalendarLaws : CalendarLaws.
Proof.
  split; cbn [fmt_ymd fmt_ym iso_week weekday month_first next_month flat_Calendar]; unfold flat_weekday.
  - apply dec_of_Z_inj.
  - intros d d'. split; [intros ->%dec_of_Z_inj; done|]. intros Heq. f_equal. lia.
  - intros d. lia.
  - intros d. lia.
  - intros d d'. simpl. split.
    + intros [= H1 H2]. destruct (0 <=? (d + 3) / 7) eqn:E, (0 <=? (d' + 3) / 7) eqn:E'; zbool; lia.
    + intros Heq. assert ((d + 3) / 7 = (d' + 3) / 7) as -> by lia. done.
  - intros d. simpl. destruct (0 <=? (d + 3) / 7) eqn:E; zbool; lia.
  - intros d. lia.
  - intros d d'. lia.
  - intros d. lia.
Qed.
