(* ===== verification/LimitTypes.v ===== *)
(** * Limits: the data model

    [crates/common/src/limits/mod.rs]: the closed enums of the limits engine with their
    database spellings, the window names, the constraint blocks a role or a side table gives,
    and the rows of [rate_limit_rules] and [budget_caps]. *)

From S2P Require Import Prelude Interfaces.

Module RateLimitSubject.
Inductive t := User | ApiKeyLineage.
Definition as_str (x : t) : string :=
  match x with User => "user" | ApiKeyLineage => "api_key_lineage" end.
Definition parse (s : string) : option t :=
  if decide (s = "user") then Some User
  else if decide (s = "api_key_lineage") then Some ApiKeyLineage else None.
#[export] Instance eq_dec : EqDecision t.
Proof. solve_decision. Defined.
End RateLimitSubject.

Module BudgetSubject.
Inductive t := User | ApiKeyLineage.
Definition as_str (x : t) : string :=
  match x with User => "user" | ApiKeyLineage => "api_key_lineage" end.
Definition parse (s : string) : option t :=
  if decide (s = "user") then Some User
  else if decide (s = "api_key_lineage") then Some ApiKeyLineage else None.
#[export] Instance eq_dec : EqDecision t.
Proof. solve_decision. Defined.
End BudgetSubject.

Module Surface.
Inductive t := AiGateway | McpGateway.
Definition as_str (x : t) : string :=
  match x with AiGateway => "ai_gateway" | McpGateway => "mcp_gateway" end.
Definition parse (s : string) : option t :=
  if decide (s = "ai_gateway") then Some AiGateway
  else if decide (s = "mcp_gateway") then Some McpGateway else None.
#[export] Instance eq_dec : EqDecision t.
Proof. solve_decision. Defined.
End Surface.

Module RateMetric.
Inductive t := Requests | Tokens.
Definition as_str (x : t) : string :=
  match x with Requests => "requests" | Tokens => "tokens" end.
Definition parse (s : string) : option t :=
  if decide (s = "requests") then Some Requests
  else if decide (s = "tokens") then Some Tokens else None.
#[export] Instance eq_dec : EqDecision t.
Proof. solve_decision. Defined.
#[export, program] Instance countable : Countable t :=
  inj_countable' (fun x => match x with Requests => true | Tokens => false end)
    (fun b : bool => if b then Requests else Tokens) _.
Next Obligation. by intros []. Qed.
End RateMetric.

Module BudgetPeriod.
Inductive t := Daily | Weekly | Monthly.
Definition as_str (x : t) : string :=
  match x with Daily => "daily" | Weekly => "weekly" | Monthly => "monthly" end.
Definition parse (s : string) : option t :=
  if decide (s = "daily") then Some Daily
  else if decide (s = "weekly") then Some Weekly
  else if decide (s = "monthly") then Some Monthly else None.
#[export] Instance eq_dec : EqDecision t.
Proof. solve_decision. Defined.
#[export, program] Instance countable : Countable t :=
  inj_countable' (fun x => match x with Daily => None | Weekly => Some true | Monthly => Some false end)
    (fun o : option bool => match o with None => Daily | Some true => Weekly | Some false => Monthly end) _.
Next Obligation. by intros []. Qed.
End BudgetPeriod.
Export RateMetric BudgetPeriod Surface RateLimitSubject BudgetSubject (eq_dec).

(** ** Windows *)

Definition window_to_secs (s : string) : option Z :=
  if decide (s = "1m") then Some 60
  else if decide (s = "5m") then Some 300
  else if decide (s = "1h") then Some 3600
  else if decide (s = "5h") then Some 18000
  else if decide (s = "1d") then Some 86400
  else if decide (s = "1w") then Some 604800
  else None.

Definition secs_to_window (secs : Z) : option string :=
  if secs =? 60 then Some "1m"
  else if secs =? 300 then Some "5m"
  else if secs =? 3600 then Some "1h"
  else if secs =? 18000 then Some "5h"
  else if secs =? 86400 then Some "1d"
  else if secs =? 604800 then Some "1w"
  else None.

Definition ALLOWED_WINDOW_SECS : list Z := [60; 300; 3600; 18000; 86400; 604800].

Definition is_allowed_window (secs : Z) : bool :=
  bool_decide (secs ∈ ALLOWED_WINDOW_SECS).

(** ** Constraint blocks *)

Record SurfaceRule := {
  sr_metric : RateMetric.t;
  sr_window_secs : Z;
  sr_max_count : Z;
  sr_enabled : bool;
}.

Record SurfaceBudget := {
  sb_period : BudgetPeriod.t;
  sb_limit_tokens : Z;
  sb_enabled : bool;
}.

Record SurfaceBlock := { blk_rules : list SurfaceRule; blk_budgets : list SurfaceBudget }.
Definition SurfaceBlock_default : SurfaceBlock := {| blk_rules := []; blk_budgets := [] |}.

Record SurfaceConstraints := {
  sc_ai_gateway : option SurfaceBlock;
  sc_mcp_gateway : option SurfaceBlock;
}.
Definition SurfaceConstraints_default : SurfaceConstraints :=
  {| sc_ai_gateway := None; sc_mcp_gateway := None |}.

Definition block (c : SurfaceConstraints) (s : Surface.t) : option SurfaceBlock :=
  match s with
  | Surface.AiGateway => sc_ai_gateway c
  | Surface.McpGateway => sc_mcp_gateway c
  end.

(** [block_mut]: run [f] on the slot of one surface. *)
Definition block_mut (s : Surface.t) (f : option SurfaceBlock -> option SurfaceBlock)
    (c : SurfaceConstraints) : SurfaceConstraints :=
  match s with
  | Surface.AiGateway =>
      {| sc_ai_gateway := f (sc_ai_gateway c); sc_mcp_gateway := sc_mcp_gateway c |}
  | Surface.McpGateway =>
      {| sc_ai_gateway := sc_ai_gateway c; sc_mcp_gateway := f (sc_mcp_gateway c) |}
  end.

Definition push_rule (r : SurfaceRule) (b : SurfaceBlock) : SurfaceBlock :=
  {| blk_rules := blk_rules b ++ [r]; blk_budgets := blk_budgets b |}.
Definition push_budget (x : SurfaceBudget) (b : SurfaceBlock) : SurfaceBlock :=
  {| blk_rules := blk_rules b; blk_budgets := blk_budgets b ++ [x] |}.

#[export] Instance SurfaceRule_eq_dec : EqDecision SurfaceRule.
Proof. solve_decision. Defined.
#[export] Instance SurfaceBudget_eq_dec : EqDecision SurfaceBudget.
Proof. solve_decision. Defined.

(** ** Rows *)

Section Rows.
Context {U : Type}.

(** [expires_at] is in microseconds of Unix time, as Postgres stores it. *)
Record RateLimitRule := {
  rr_id : U;
  rr_subject_kind : RateLimitSubject.t;
  rr_subject_id : U;
  rr_surface : Surface.t;
  rr_metric : RateMetric.t;
  rr_window_secs : Z;
  rr_max_count : Z;
  rr_enabled : bool;
  rr_expires_at : option Z;
  rr_reason : option string;
  rr_created_by : option U;
}.

Record BudgetCap := {
  bc_id : U;
  bc_subject_kind : BudgetSubject.t;
  bc_subject_id : U;
  bc_period : BudgetPeriod.t;
  bc_limit_tokens : Z;
  bc_enabled : bool;
  bc_expires_at : option Z;
  bc_reason : option string;
  bc_created_by : option U;
}.
End Rows.
Arguments RateLimitRule : clear implicits.
Arguments BudgetCap : clear implicits.

(** ** Spellings round-trip *)

Lemma metric_parse_as_str m : RateMetric.parse (RateMetric.as_str m) = Some m.
Proof. by destruct m. Qed.
Lemma period_parse_as_str p : BudgetPeriod.parse (BudgetPeriod.as_str p) = Some p.
Proof. by destruct p. Qed.
Lemma surface_parse_as_str s : Surface.parse (Surface.as_str s) = Some s.
Proof. by destruct s. Qed.
Lemma rl_subject_parse_as_str x : RateLimitSubject.parse (RateLimitSubject.as_str x) = Some x.
Proof. by destruct x. Qed.
Lemma budget_subject_parse_as_str x : BudgetSubject.parse (BudgetSubject.as_str x) = Some x.
Proof. by destruct x. Qed.

Lemma window_to_secs_allowed w n : window_to_secs w = Some n -> is_allowed_window n = true.
Proof. unfold window_to_secs. intros. repeat case_decide; simplify_eq; done. Qed.

Lemma is_allowed_window_spec n : is_allowed_window n = true <-> n ∈ ALLOWED_WINDOW_SECS.
Proof. apply bool_decide_eq_true. Qed.

Lemma allowed_window_cases n : is_allowed_window n = true ->
  n = 60 \/ n = 300 \/ n = 3600 \/ n = 18000 \/ n = 86400 \/ n = 604800.
Proof. rewrite is_allowed_window_spec. unfold ALLOWED_WINDOW_SECS. set_solver. Qed.

Lemma block_block_mut s s' f c :
  block (block_mut s f c) s' = if decide (s' = s) then f (block c s) else block c s'.
Proof. by destruct s, s'. Qed.
