(* ===== verification/LimitStore.v ===== *)
(** * The tables of limits

    The rows of [rate_limit_rules] and [budget_caps] and the statements on them, from
    [crates/common/src/limits/mod.rs]: listing, upserting and deleting the rules and caps of a
    subject.  A table is the list of its rows in some order; what the database itself refuses
    or fails at is left out. *)

From stdpp Require Import sorting.
From S2P Require Import Prelude Interfaces LimitTypes.

(** ** A table with a unique key *)

Section Keyed.
Context {R K : Type} `{EqDecision K} (key : R -> K).

(** [INSERT .. ON CONFLICT (key) DO UPDATE]: [change] updates the row there is. *)
Definition upsert_row (new : R) (change : R -> R) (rows : list R) : list R :=
  if decide (key new ∈ key <$> rows) then (fun r => if decide (key r = key new) then change r else r) <$> rows
  else rows ++ [new].

(** [RETURNING]. *)
Definition row_of (k : K) (rows : list R) : option R := head (filter (fun r => key r = k) rows).
End Keyed.

(** ** Rows as stored *)

Record rule_row {U : Type} := {
  rw_id : U; rw_subject_kind : string; rw_subject_id : U; rw_surface : string; rw_metric : string;
  rw_window_secs : Z; rw_max_count : Z; rw_enabled : bool;
  rw_expires_at : option Z; rw_reason : option string; rw_created_by : option U;
}.
#[global] Arguments rule_row : clear implicits.

Record cap_row {U : Type} := {
  cw_id : U; cw_subject_kind : string; cw_subject_id : U; cw_period : string;
  cw_limit_tokens : Z; cw_enabled : bool;
  cw_expires_at : option Z; cw_reason : option string; cw_created_by : option U;
}.
#[global] Arguments cap_row : clear implicits.

Section Store.
Context {U : Type} `{EqDecision U}.

Record limit_tables := { lt_rules : list (rule_row U); lt_caps : list (cap_row U) }.

Definition row_to_rule (row : rule_row U) : option (RateLimitRule U) :=
  kind ← RateLimitSubject.parse (rw_subject_kind row);
  surface ← Surface.parse (rw_surface row);
  metric ← RateMetric.parse (rw_metric row);
  Some {| rr_id := rw_id row; rr_subject_kind := kind; rr_subject_id := rw_subject_id row;
          rr_surface := surface; rr_metric := metric; rr_window_secs := rw_window_secs row;
          rr_max_count := rw_max_count row; rr_enabled := rw_enabled row;
          rr_expires_at := rw_expires_at row; rr_reason := rw_reason row;
          rr_created_by := rw_created_by row |}.

Definition row_to_cap (row : cap_row U) : option (BudgetCap U) :=
  kind ← BudgetSubject.parse (cw_subject_kind row);
  period ← BudgetPeriod.parse (cw_period row);
  Some {| bc_id := cw_id row; bc_subject_kind := kind; bc_subject_id := cw_subject_id row;
          bc_period := period; bc_limit_tokens := cw_limit_tokens row; bc_enabled := cw_enabled row;
          bc_expires_at := cw_expires_at row; bc_reason := cw_reason row;
          bc_created_by := cw_created_by row |}.

(** ** Listing *)

Definition rule_of (kind : string) (id : U) (r : rule_row U) : Prop :=
  rw_subject_kind r = kind /\ rw_subject_id r = id.
Definition cap_of (kind : string) (id : U) (c : cap_row U) : Prop :=
  cw_subject_kind c = kind /\ cw_subject_id c = id.
#[export] Instance rule_of_dec kind id r : Decision (rule_of kind id r).
Proof. unfold rule_of. apply _. Defined.
#[export] Instance cap_of_dec kind id c : Decision (cap_of kind id c).
Proof. unfold cap_of. apply _. Defined.

Definition text_le (a b : string) : bool := match String.compare a b with Gt => false | _ => true end.
Definition row_le (a b : rule_row U) : Prop :=
  match String.compare (rw_surface a) (rw_surface b) with
  | Lt => True | Gt => False
  | Eq => match String.compare (rw_metric a) (rw_metric b) with
          | Lt => True | Gt => False
          | Eq => rw_window_secs a <= rw_window_secs b
          end
  end.
#[export] Instance row_le_dec : RelDecision row_le.
Proof. intros a b. unfold row_le. repeat case_match; apply _. Defined.
Definition period_le (a b : cap_row U) : Prop := text_le (cw_period a) (cw_period b) = true.
#[export] Instance period_le_dec : RelDecision period_le.
Proof. intros a b. unfold period_le. apply _. Defined.

Definition list_rules (T : limit_tables) (kind : RateLimitSubject.t) (id : U) : list (RateLimitRule U) :=
  omap row_to_rule (merge_sort row_le (filter (rule_of (RateLimitSubject.as_str kind) id) (lt_rules T))).
Definition list_caps (T : limit_tables) (kind : BudgetSubject.t) (id : U) : list (BudgetCap U) :=
  omap row_to_cap (merge_sort period_le (filter (cap_of (BudgetSubject.as_str kind) id) (lt_caps T))).

(** [expires_at IS NULL OR expires_at > now()]. *)
Definition unexpired (now : Z) (expires_at : option Z) : Prop :=
  match expires_at with None => True | Some e => now < e end.
#[export] Instance unexpired_dec now e : Decision (unexpired now e).
Proof. unfold unexpired. destruct e; apply _. Defined.

Definition enabled_rules_of (T : limit_tables) (now : Z) (kind : RateLimitSubject.t) (id : U) : list (RateLimitRule U) :=
  omap row_to_rule (filter (fun r => rule_of (RateLimitSubject.as_str kind) id r /\ rw_enabled r = true /\
                                     unexpired now (rw_expires_at r)) (lt_rules T)).
Definition list_enabled_rules_for_subjects (T : limit_tables) (now : Z) (subjects : list (RateLimitSubject.t * U))
    : list (RateLimitRule U) :=
  s ← subjects; enabled_rules_of T now s.1 s.2.

Definition enabled_caps_of (T : limit_tables) (now : Z) (kind : BudgetSubject.t) (id : U) : list (BudgetCap U) :=
  omap row_to_cap (filter (fun c => cap_of (BudgetSubject.as_str kind) id c /\ cw_enabled c = true /\
                                    unexpired now (cw_expires_at c)) (lt_caps T)).
Definition list_enabled_caps_for_subjects (T : limit_tables) (now : Z) (subjects : list (BudgetSubject.t * U))
    : list (BudgetCap U) :=
  s ← subjects; enabled_caps_of T now s.1 s.2.

(** ** Upserting *)

Record UpsertRule := {
  ur_subject_kind : RateLimitSubject.t; ur_subject_id : U; ur_surface : Surface.t; ur_metric : RateMetric.t;
  ur_window_secs : Z; ur_max_count : Z; ur_enabled : bool;
  ur_expires_at : option Z; ur_reason : option string; ur_created_by : option U;
}.
Record UpsertCap := {
  uc_subject_kind : BudgetSubject.t; uc_subject_id : U; uc_period : BudgetPeriod.t;
  uc_limit_tokens : Z; uc_enabled : bool;
  uc_expires_at : option Z; uc_reason : option string; uc_created_by : option U;
}.

(** The conflict keys. *)
Definition rule_key (r : rule_row U) : string * U * string * string * Z :=
  (rw_subject_kind r, rw_subject_id r, rw_surface r, rw_metric r, rw_window_secs r).
Definition cap_key (c : cap_row U) : string * U * string :=
  (cw_subject_kind c, cw_subject_id c, cw_period c).

Definition new_rule (id : U) (req : UpsertRule) : rule_row U :=
  {| rw_id := id; rw_subject_kind := RateLimitSubject.as_str (ur_subject_kind req);
     rw_subject_id := ur_subject_id req; rw_surface := Surface.as_str (ur_surface req);
     rw_metric := RateMetric.as_str (ur_metric req); rw_window_secs := ur_window_secs req;
     rw_max_count := ur_max_count req; rw_enabled := ur_enabled req;
     rw_expires_at := ur_expires_at req; rw_reason := ur_reason req; rw_created_by := ur_created_by req |}.
Definition change_rule (req : UpsertRule) (r : rule_row U) : rule_row U := new_rule (rw_id r) req.

Definition new_cap (id : U) (req : UpsertCap) : cap_row U :=
  {| cw_id := id; cw_subject_kind := BudgetSubject.as_str (uc_subject_kind req);
     cw_subject_id := uc_subject_id req; cw_period := BudgetPeriod.as_str (uc_period req);
     cw_limit_tokens := uc_limit_tokens req; cw_enabled := uc_enabled req;
     cw_expires_at := uc_expires_at req; cw_reason := uc_reason req; cw_created_by := uc_created_by req |}.
Definition change_cap (req : UpsertCap) (c : cap_row U) : cap_row U := new_cap (cw_id c) req.

(** [id] is the id the database would give a new row. *)
Definition upsert_rule (T : limit_tables) (id : U) (req : UpsertRule)
    : limit_tables * result string (RateLimitRule U) :=
  if negb (is_allowed_window (ur_window_secs req))
  then (T, Err ("window_secs " +:+ pretty (ur_window_secs req) +:+ " not in allowed set"))
  else if ur_max_count req <=? 0 then (T, Err "max_count must be > 0")
  else
    let rules := upsert_row rule_key (new_rule id req) (change_rule req) (lt_rules T) in
    ({| lt_rules := rules; lt_caps := lt_caps T |},
     ok_or (row_of rule_key (rule_key (new_rule id req)) rules ≫= row_to_rule) "rule row decode failed").

Definition upsert_cap (T : limit_tables) (id : U) (req : UpsertCap)
    : limit_tables * result string (BudgetCap U) :=
  if uc_limit_tokens req <=? 0 then (T, Err "limit_tokens must be > 0")
  else
    let caps := upsert_row cap_key (new_cap id req) (change_cap req) (lt_caps T) in
    ({| lt_rules := lt_rules T; lt_caps := caps |},
     ok_or (row_of cap_key (cap_key (new_cap id req)) caps ≫= row_to_cap) "cap row decode failed").

(** ** Deleting: the row must be the subject's *)

Definition delete_rule (T : limit_tables) (id : U) (kind : RateLimitSubject.t) (subject_id : U)
    : limit_tables * bool :=
  let hit r := rw_id r = id /\ rule_of (RateLimitSubject.as_str kind) subject_id r in
  ({| lt_rules := filter (fun r => ~ hit r) (lt_rules T); lt_caps := lt_caps T |},
   (0 <? length (filter hit (lt_rules T)))%nat).
Definition delete_cap (T : limit_tables) (id : U) (kind : BudgetSubject.t) (subject_id : U)
    : limit_tables * bool :=
  let hit c := cw_id c = id /\ cap_of (BudgetSubject.as_str kind) subject_id c in
  ({| lt_rules := lt_rules T; lt_caps := filter (fun c => ~ hit c) (lt_caps T) |},
   (0 <? length (filter hit (lt_caps T)))%nat).
End Store.
#[global] Arguments limit_tables : clear implicits.
#[global] Arguments UpsertRule : clear implicits.
#[global] Arguments UpsertCap : clear implicits.

(** ** What a table with a unique key holds

    The specification: one entry per key, an id and the last request for it. *)

Section KeyedSpec.
Context {R K Q U : Type} `{EqDecision K, EqDecision U}.
Context (key : R -> K) (make : U -> Q -> R) (id_of : R -> U).
Context (key_make : forall i j q, key (make i q) = key (make j q)).
Context (id_make : forall i q, id_of (make i q) = i).

Definition entries : Type := K -> option (U * Q).

Definition spec_upsert (id : U) (q : Q) (st : entries) : entries := fun k =>
  if decide (k = key (make id q)) then Some (default id (fst <$> st k), q) else st k.
Definition spec_delete (id : U) (mine : K -> Prop) `{!forall k, Decision (mine k)} (st : entries) : entries := fun k =>
  match st k with
  | Some (i, q) => if decide (i = id /\ mine k) then None else Some (i, q)
  | None => None
  end.

(** The rows are the entries. *)
Definition holds (rows : list R) (st : entries) : Prop :=
  NoDup (key <$> rows) /\
  (forall row, row ∈ rows <-> exists i q, st (key row) = Some (i, q) /\ row = make i q) /\
  forall k i q, st k = Some (i, q) -> key (make i q) = k.

Lemma holds_row rows st k i q : holds rows st -> st k = Some (i, q) -> make i q ∈ rows.
Proof. intros (_ & Hr & Hk) Hs. apply Hr. exists i, q. by rewrite (Hk _ _ _ Hs). Qed.

Lemma holds_key rows st k : holds rows st -> k ∈ key <$> rows <-> is_Some (st k).
Proof.
  intros Hh. rewrite list_elem_of_fmap. split.
  - intros (row & -> & Hrow). destruct Hh as (_ & Hr & _). apply Hr in Hrow as (i & q & Hs & _). by rewrite Hs.
  - intros [[i q] Hs]. exists (make i q). split; [symmetry; by eapply Hh|]. by eapply holds_row.
Qed.

Lemma holds_upsert rows st id q : holds rows st ->
  holds (upsert_row key (make id q) (fun r => make (id_of r) q) rows) (spec_upsert id q st).
Proof.
  intros Hh. pose proof Hh as (Hnd & Hr & Hk). unfold upsert_row, spec_upsert.
  assert (Hkey : forall k i q', (if decide (k = key (make id q)) then Some (default id (fst <$> st k), q) else st k) = Some (i, q') ->
            key (make i q') = k).
  { intros k i q'. case_decide as Hd; [|apply Hk]. intros [= <- <-]. subst k. apply key_make. }
  case_decide as Hin.
  - assert (Hsame : key <$> ((fun r => if decide (key r = key (make id q)) then make (id_of r) q else r) <$> rows) = key <$> rows).
    { rewrite <- list_fmap_compose. apply list_fmap_ext. intros n r _. unfold compose. case_decide as Hd; [|done].
      rewrite Hd. apply key_make. }
    split; [by rewrite Hsame|]. split; [|exact Hkey]. intros row. rewrite list_elem_of_fmap. split.
    + intros (r & -> & Hrow). destruct (decide (key r = key (make id q))) as [Hd|Hd].
       * exists (id_of r), q. split; [|done]. rewrite (key_make (id_of r) id q), decide_True by reflexivity.
        apply Hr in Hrow as (i & q' & Hs & ->). rewrite <- Hd, Hs, id_make. done.
      * rewrite decide_False by done. by apply Hr.
    + intros (i & q' & Hs & ->). case_decide as Hd.
      * injection Hs as <- <-. apply (holds_key _ _ _ Hh) in Hin as [[i0 q0] Hs0]. rewrite Hd, Hs0. simpl.
        exists (make i0 q0). rewrite decide_True by by eapply Hk. rewrite id_make. split; [done|]. by eapply holds_row.
      * exists (make i q'). rewrite decide_False by done. split; [done|]. by eapply holds_row.
  - assert (Hnone : st (key (make id q)) = None).
    { destruct (st _) eqn:E; [|done]. exfalso. apply Hin, (holds_key _ _ _ Hh). by rewrite E. }
    split.
    { rewrite fmap_app. apply NoDup_app. split; [done|]. split; [|apply NoDup_singleton].
      intros k Hk1 Hk2%list_elem_of_singleton. by subst k. }
    split; [|exact Hkey]. intros row. rewrite elem_of_app, list_elem_of_singleton, Hr. split.
    + intros [(i & q' & Hs & ->)| ->].
      * exists i, q'. case_decide as Hd; [|done]. by rewrite Hd, Hnone in Hs.
      * exists id, q. by rewrite decide_True, Hnone.
    + intros (i & q' & Hs & ->). case_decide as Hd; [|left; by exists i, q'].
      rewrite Hd, Hnone in Hs. injection Hs as <- <-. by right.
Qed.

Lemma holds_delete rows st id (mine : K -> Prop) `{!forall k, Decision (mine k)} : holds rows st ->
  holds (filter (fun r => ~ (id_of r = id /\ mine (key r))) rows) (spec_delete id mine st).
Proof.
  intros (Hnd & Hr & Hk). unfold spec_delete. split; [|split].
  - revert Hnd. clear. induction rows as [|r rows IH]; [done|]. rewrite fmap_cons, NoDup_cons. intros [Hr Hnd].
    rewrite filter_cons. case_decide; [|by apply IH]. rewrite fmap_cons. apply NoDup_cons. split; [|by apply IH].
    intros (r' & Hr' & Hin)%list_elem_of_fmap. apply Hr. rewrite Hr'. apply list_elem_of_fmap_2.
    by apply list_elem_of_filter in Hin as [_ ?].
  - intros row. rewrite list_elem_of_filter, Hr. split.
    + intros [Hne (i & q & Hs & ->)]. exists i, q. rewrite Hs. rewrite id_make in Hne. by rewrite decide_False.
    + intros (i & q & Hs & ->). destruct (st (key (make i q))) as [[i' q']|] eqn:E; [|done].
      case_decide as Hd; [done|]. injection Hs as -> ->. split; [by rewrite id_make|]. by exists i, q.
  - intros k i q. destruct (st k) as [[i' q']|] eqn:E; [|done]. case_decide; [done|]. intros [= -> ->]. by eapply Hk.
Qed.

Lemma row_of_upsert rows st id q : holds rows st ->
  row_of key (key (make id q)) (upsert_row key (make id q) (fun r => make (id_of r) q) rows) =
    Some (make (default id (fst <$> st (key (make id q)))) q).
Proof.
  intros Hh. pose proof (holds_upsert _ _ id q Hh) as Hh'. unfold row_of.
  set (rows' := upsert_row _ _ _ _) in *. set (i := default _ _).
  assert (Hin : make i q ∈ rows').
  { eapply holds_row; [exact Hh'|]. unfold spec_upsert. by rewrite decide_True by reflexivity. }
  destruct (filter _ rows') as [|r rs] eqn:E.
  - exfalso. assert (Hf : make i q ∈ filter (fun r => key r = key (make id q)) rows')
      by (apply list_elem_of_filter; split; [apply key_make|done]). rewrite E in Hf. by apply elem_of_nil in Hf.
  - assert (Hf : r ∈ filter (fun r => key r = key (make id q)) rows') by (rewrite E; left).
    apply list_elem_of_filter in Hf as [Hkr Hr]. simpl. f_equal.
    eapply (NoDup_fmap_elem key rows'); [apply Hh'|done|done|]. rewrite Hkr. apply key_make.
Qed.
End KeyedSpec.

(** ** The two tables, over their history *)

Section History.
Context {U : Type} `{EqDecision U}.

Inductive limit_op :=
  | PutRule (id : U) (req : UpsertRule U)
  | PutCap (id : U) (req : UpsertCap U)
  | DropRule (id : U) (kind : RateLimitSubject.t) (subject_id : U)
  | DropCap (id : U) (kind : BudgetSubject.t) (subject_id : U).

Definition limit_step (T : limit_tables U) (o : limit_op) : limit_tables U :=
  match o with
  | PutRule id req => (upsert_rule T id req).1
  | PutCap id req => (upsert_cap T id req).1
  | DropRule id kind subject_id => (delete_rule T id kind subject_id).1
  | DropCap id kind subject_id => (delete_cap T id kind subject_id).1
  end.
Definition run_ops (os : list limit_op) : limit_tables U := foldl limit_step {| lt_rules := []; lt_caps := [] |} os.

Definition rule_key_t : Type := string * U * string * string * Z.
Definition cap_key_t : Type := string * U * string.
Definition rules_spec : Type := entries (K := rule_key_t) (Q := UpsertRule U) (U := U).
Definition caps_spec : Type := entries (K := cap_key_t) (Q := UpsertCap U) (U := U).

Definition rule_accepted (req : UpsertRule U) : bool := is_allowed_window (ur_window_secs req) && (0 <? ur_max_count req).
Definition cap_accepted (req : UpsertCap U) : bool := 0 <? uc_limit_tokens req.
Definition rule_mine (kind : RateLimitSubject.t) (id : U) (k : rule_key_t) : Prop :=
  k.1.1.1.1 = RateLimitSubject.as_str kind /\ k.1.1.1.2 = id.
Definition cap_mine (kind : BudgetSubject.t) (id : U) (k : cap_key_t) : Prop :=
  k.1.1 = BudgetSubject.as_str kind /\ k.1.2 = id.
#[export] Instance rule_mine_dec kind id k : Decision (rule_mine kind id k).
Proof. unfold rule_mine. apply _. Defined.
#[export] Instance cap_mine_dec kind id k : Decision (cap_mine kind id k).
Proof. unfold cap_mine. apply _. Defined.

(** The last accepted request for each key, with the id its first one got, unless deleted since
    by someone holding the id and its subject. *)
Definition spec_step (S : rules_spec * caps_spec) (o : limit_op) : rules_spec * caps_spec :=
  match o with
  | PutRule id req => if rule_accepted req then (spec_upsert rule_key new_rule id req S.1, S.2) else S
  | PutCap id req => if cap_accepted req then (S.1, spec_upsert cap_key new_cap id req S.2) else S
  | DropRule id kind subject_id => (spec_delete id (rule_mine kind subject_id) S.1, S.2)
  | DropCap id kind subject_id => (S.1, spec_delete id (cap_mine kind subject_id) S.2)
  end.
Definition run_spec (os : list limit_op) : rules_spec * caps_spec :=
  foldl spec_step ((fun _ => None), (fun _ => None)) os.

Definition rule_of_request (i : U) (req : UpsertRule U) : RateLimitRule U :=
  {| rr_id := i; rr_subject_kind := ur_subject_kind req; rr_subject_id := ur_subject_id req;
     rr_surface := ur_surface req; rr_metric := ur_metric req; rr_window_secs := ur_window_secs req;
     rr_max_count := ur_max_count req; rr_enabled := ur_enabled req; rr_expires_at := ur_expires_at req;
     rr_reason := ur_reason req; rr_created_by := ur_created_by req |}.
Definition cap_of_request (i : U) (req : UpsertCap U) : BudgetCap U :=
  {| bc_id := i; bc_subject_kind := uc_subject_kind req; bc_subject_id := uc_subject_id req;
     bc_period := uc_period req; bc_limit_tokens := uc_limit_tokens req; bc_enabled := uc_enabled req;
     bc_expires_at := uc_expires_at req; bc_reason := uc_reason req; bc_created_by := uc_created_by req |}.

Lemma row_to_rule_new i req : row_to_rule (new_rule i req) = Some (rule_of_request i req).
Proof. unfold row_to_rule. simpl. by rewrite rl_subject_parse_as_str, surface_parse_as_str, metric_parse_as_str. Qed.
Lemma row_to_cap_new i req : row_to_cap (new_cap i req) = Some (cap_of_request i req).
Proof. unfold row_to_cap. simpl. by rewrite budget_subject_parse_as_str, period_parse_as_str. Qed.

Definition represents (T : limit_tables U) (S : rules_spec * caps_spec) : Prop :=
  holds rule_key new_rule (lt_rules T) S.1 /\ holds cap_key new_cap (lt_caps T) S.2.

Lemma filter_same {A} (P Q : A -> Prop) `{!forall x, Decision (P x), !forall x, Decision (Q x)} (l : list A) :
  (forall x, P x <-> Q x) -> filter P l = filter Q l.
Proof. intros Hpq. by apply list_filter_iff. Qed.

Lemma represents_step T S o : represents T S -> represents (limit_step T o) (spec_step S o).
Proof.
  intros [Hr Hc]. destruct o as [id req|id req|id kind sid|id kind sid]; cbn [limit_step spec_step].
  - unfold upsert_rule, rule_accepted. destruct (is_allowed_window _); [|done]. cbn [negb andb].
    rewrite Z.ltb_antisym. destruct (_ <=? 0); [done|]. split; [|done]. by apply holds_upsert.
  - unfold upsert_cap, cap_accepted. rewrite Z.ltb_antisym. destruct (_ <=? 0); [done|].
    split; [done|]. by apply holds_upsert.
  - split; [|done]. cbn [delete_rule fst lt_rules].
    rewrite (filter_same _ (fun r => ~ (rw_id r = id /\ rule_mine kind sid (rule_key r)))) by done.
    by apply holds_delete.
  - split; [done|]. cbn [delete_cap fst lt_caps].
    rewrite (filter_same _ (fun r => ~ (cw_id r = id /\ cap_mine kind sid (cap_key r)))) by done.
    by apply holds_delete.
Qed.

Lemma represents_run os : represents (run_ops os) (run_spec os).
Proof.
  unfold run_ops, run_spec. assert (H0 : represents {| lt_rules := []; lt_caps := [] |} ((fun _ => None), (fun _ => None))).
  { by split; (split; [constructor|]; split; [|done]); intros row; (split; [intros Hin; by apply elem_of_nil in Hin|naive_solver]). }
  revert H0. generalize ({| lt_rules := []; lt_caps := [] |} : limit_tables U). 
  generalize (((fun _ => None), (fun _ => None)) : rules_spec * caps_spec). induction os as [|o os IH]; intros S T HTS; [done|].
  by apply IH, represents_step.
Qed.

Lemma listed_rules T S (P : rule_row U -> Prop) `{!forall x, Decision (P x)} r : represents T S ->
  r ∈ omap row_to_rule (filter P (lt_rules T)) <->
  exists k i req, S.1 k = Some (i, req) /\ P (new_rule i req) /\ r = rule_of_request i req.
Proof.
  intros [Hh _]. rewrite list_elem_of_omap. split.
  - intros (row & (Hp & Hin)%list_elem_of_filter & Hr). apply Hh in Hin as (i & req & Hs & ->).
    rewrite row_to_rule_new in Hr. injection Hr as <-. by exists (rule_key (new_rule i req)), i, req.
  - intros (k & i & req & Hs & Hp & ->). exists (new_rule i req). split; [|apply row_to_rule_new].
    apply list_elem_of_filter. split; [done|]. by eapply holds_row.
Qed.

Lemma listed_caps T S (P : cap_row U -> Prop) `{!forall x, Decision (P x)} c : represents T S ->
  c ∈ omap row_to_cap (filter P (lt_caps T)) <->
  exists k i req, S.2 k = Some (i, req) /\ P (new_cap i req) /\ c = cap_of_request i req.
Proof.
  intros [_ Hh]. rewrite list_elem_of_omap. split.
  - intros (row & (Hp & Hin)%list_elem_of_filter & Hr). apply Hh in Hin as (i & req & Hs & ->).
    rewrite row_to_cap_new in Hr. injection Hr as <-. by exists (cap_key (new_cap i req)), i, req.
  - intros (k & i & req & Hs & Hp & ->). exists (new_cap i req). split; [|apply row_to_cap_new].
    apply list_elem_of_filter. split; [done|]. by eapply holds_row.
Qed.

Lemma rl_subject_as_str_inj a b : RateLimitSubject.as_str a = RateLimitSubject.as_str b <-> a = b.
Proof.
  split; [|by intros ->]. intros E. apply (f_equal RateLimitSubject.parse) in E.
  rewrite !rl_subject_parse_as_str in E. by injection E.
Qed.
Lemma budget_subject_as_str_inj a b : BudgetSubject.as_str a = BudgetSubject.as_str b <-> a = b.
Proof.
  split; [|by intros ->]. intros E. apply (f_equal BudgetSubject.parse) in E.
  rewrite !budget_subject_parse_as_str in E. by injection E.
Qed.

Lemma elem_of_enabled_rules T S now kind id r : represents T S ->
  r ∈ enabled_rules_of T now kind id <->
  exists k i req, S.1 k = Some (i, req) /\ ur_subject_kind req = kind /\ ur_subject_id req = id /\
    ur_enabled req = true /\ unexpired now (ur_expires_at req) /\ r = rule_of_request i req.
Proof.
  intros HTS. unfold enabled_rules_of. rewrite (listed_rules T S) by done.
  unfold rule_of. simpl. setoid_rewrite rl_subject_as_str_inj. naive_solver.
Qed.

(** A subject has at most one rule for a surface, metric and window. *)
Lemma enabled_rules_slots T S now kind id : represents T S ->
  NoDup ((fun r => (rr_surface r, rr_metric r, rr_window_secs r)) <$> enabled_rules_of T now kind id).
Proof.
  intros HTS. pose proof HTS as [(Hnd & Hrows & _) _]. unfold enabled_rules_of. apply NoDup_fmap_omap.
  - apply NoDup_filter. by eapply NoDup_fmap_1.
  - intros x y a b [[[Hxk Hxi] _] Hx]%list_elem_of_filter [[[Hyk Hyi] _] Hy]%list_elem_of_filter Ha Hb Hab.
    eapply (NoDup_fmap_elem _ _ _ _ Hnd); [done|done|].
    apply Hrows in Hx as (i & req & _ & ->). apply Hrows in Hy as (j & req' & _ & ->).
    rewrite row_to_rule_new in Ha, Hb. simplify_eq. unfold rule_key. simpl in *. congruence.
Qed.

(** The tables of limits keep, per subject, surface, metric and window (or period), the last
    accepted request: after any history of upserts and deletes, what is listed for a subject is
    exactly those of its entries, each once, that are enabled and not expired; a request with a
    window outside the allowed ones or a limit of zero or less changes nothing; an accepted one is
    answered with what is stored; a delete with the id of another subject's row removes nothing. *)
Theorem limit_tables_keep_last os (T := run_ops os) (S := run_spec os) :
  (forall now kind id r, r ∈ list_enabled_rules_for_subjects T now [(kind, id)] <->
     exists k i req, S.1 k = Some (i, req) /\ ur_subject_kind req = kind /\ ur_subject_id req = id /\
       ur_enabled req = true /\ unexpired now (ur_expires_at req) /\ r = rule_of_request i req) /\
  (forall now kind id c, c ∈ list_enabled_caps_for_subjects T now [(kind, id)] <->
     exists k i req, S.2 k = Some (i, req) /\ uc_subject_kind req = kind /\ uc_subject_id req = id /\
       uc_enabled req = true /\ unexpired now (uc_expires_at req) /\ c = cap_of_request i req) /\
  (forall kind id r, r ∈ list_rules T kind id <->
     exists k i req, S.1 k = Some (i, req) /\ ur_subject_kind req = kind /\ ur_subject_id req = id /\
       r = rule_of_request i req) /\
  (forall id req, (upsert_rule T id req).2 =
     if negb (is_allowed_window (ur_window_secs req))
     then Err ("window_secs " +:+ pretty (ur_window_secs req) +:+ " not in allowed set")
     else if ur_max_count req <=? 0 then Err "max_count must be > 0"
     else Ok (rule_of_request (default id (fst <$> S.1 (rule_key (new_rule id req)))) req)) /\
  NoDup (rule_key <$> lt_rules T) /\ NoDup (cap_key <$> lt_caps T).
Proof.
  pose proof (represents_run os : represents T S) as HTS. split_and!.
  - intros now kind id r. unfold list_enabled_rules_for_subjects. simpl. rewrite app_nil_r.
    by apply elem_of_enabled_rules.
  - intros now kind id c. unfold list_enabled_caps_for_subjects, enabled_caps_of. simpl. rewrite app_nil_r.
    rewrite (listed_caps T S) by done. unfold cap_of. simpl. setoid_rewrite budget_subject_as_str_inj. naive_solver.
  - intros kind id r. unfold list_rules. rewrite merge_sort_Permutation, (listed_rules T S) by done.
    unfold rule_of. simpl. setoid_rewrite rl_subject_as_str_inj. naive_solver.
  - intros id req. unfold upsert_rule. destruct (is_allowed_window _); [|done]. cbn [negb].
    destruct (_ <=? 0); [done|]. cbn [snd]. unfold change_rule.
    erewrite (row_of_upsert rule_key new_rule rw_id); [cbn [mbind option_bind]; by rewrite row_to_rule_new|done|done|apply HTS].
  - apply HTS.
  - apply HTS.
Qed.
End History.
