(* ===== verification/Policy.v ===== *)
(** * Policy documents: what a role grants

    [crates/common/src/limits/mod.rs], "PolicyDocument -> derived data extraction": the
    resources a document grants on each gateway surface, the permissions it holds and the
    limits it carries, read from its JSON. *)

From S2P Require Import Prelude Interfaces LimitTypes.

Inductive ResourceScope := NotGranted | All | Only (items : list string).

Record PolicyRateLimit := { prl_metric : string; prl_window : string; prl_max_count : Z }.
Record PolicyBudget := { pb_period : string; pb_max_tokens : Z }.
Record PolicyConstraints := {
  pc_rate_limits : list PolicyRateLimit;
  pc_budgets : list PolicyBudget;
}.

(** ** Validation *)

Definition validate_rate_limit (i : nat) (rl : PolicyRateLimit) : result string unit :=
  match window_to_secs (prl_window rl) with
  | None => Err ("RateLimits[" +:+ pretty i +:+ "]: Window '" +:+ prl_window rl
                 +:+ "' not in allowed set (1m/5m/1h/5h/1d/1w)")
  | Some secs =>
      if negb (is_allowed_window secs) then
        Err ("RateLimits[" +:+ pretty i +:+ "]: Window '" +:+ prl_window rl +:+ "' not allowed")
      else if prl_max_count rl <=? 0 then
        Err ("RateLimits[" +:+ pretty i +:+ "]: MaxCount must be > 0")
      else match RateMetric.parse (prl_metric rl) with
           | None => Err ("RateLimits[" +:+ pretty i +:+ "]: Metric '" +:+ prl_metric rl
                          +:+ "' unknown (expected requests/tokens)")
           | Some _ => Ok tt
           end
  end.

Definition validate_budget (i : nat) (b : PolicyBudget) : result string unit :=
  if pb_max_tokens b <=? 0 then
    Err ("Budgets[" +:+ pretty i +:+ "]: MaxTokens must be > 0")
  else match BudgetPeriod.parse (pb_period b) with
       | None => Err ("Budgets[" +:+ pretty i +:+ "]: Period '" +:+ pb_period b
                      +:+ "' unknown (expected daily/weekly/monthly)")
       | Some _ => Ok tt
       end.

Definition validate_policy_constraints (c : PolicyConstraints) : result string unit :=
  match try_enumerate validate_rate_limit (pc_rate_limits c) with
  | Err e => Err e
  | Ok _ => try_enumerate validate_budget (pc_budgets c)
  end.

(** ** Extraction *)

Definition action_matches_any (actions : list string) (target : string) : bool :=
  existsb (fun a =>
    bool_decide (a = "*") || bool_decide (a = target) ||
    match strip_suffix "*" a with
    | Some prefix => ends_with ":" prefix && starts_with prefix target
    | None => false
    end) actions.

Definition append_constraints (b : SurfaceBlock) (c : PolicyConstraints) : SurfaceBlock :=
  let b := foldl (fun b rl =>
    match RateMetric.parse (prl_metric rl), window_to_secs (prl_window rl) with
    | Some metric, Some secs =>
        push_rule {| sr_metric := metric; sr_window_secs := secs;
                     sr_max_count := prl_max_count rl; sr_enabled := true |} b
    | _, _ => b
    end) b (pc_rate_limits c) in
  foldl (fun b x =>
    match BudgetPeriod.parse (pb_period x) with
    | Some period =>
        push_budget {| sb_period := period; sb_limit_tokens := pb_max_tokens x;
                       sb_enabled := true |} b
    | None => b
    end) b (pc_budgets c).

Definition block_if_any (b : SurfaceBlock) : option SurfaceBlock :=
  match blk_rules b, blk_budgets b with [], [] => None | _, _ => Some b end.

Section Extract.
Context {V : Type} `{JsonValue V}.

Definition str_or_array (o : option V) : list string :=
  match o with
  | Some v =>
      match json_as_str v with
      | Some s => [s]
      | None => match json_as_array v with Some arr => omap json_as_str arr | None => [] end
      end
  | None => []
  end.

Definition stmt_actions (stmt : V) : list string := str_or_array (json_get "Action" stmt).
Definition stmt_resources (stmt : V) : list string := str_or_array (json_get "Resource" stmt).

Definition statements (doc : V) : option (list V) :=
  json_get "Statement" doc ≫= json_as_array.

Definition stmt_effect (stmt : V) : string :=
  default "" (json_get "Effect" stmt ≫= json_as_str).
Definition is_allow (stmt : V) : bool := bool_decide (stmt_effect stmt = "Allow").

(** The inner loop over a statement's resources; [None] is the early return of [All]. *)
Fixpoint scan_resources (prefix : string) (rs : list string) (items : list string)
    : option (list string) :=
  match rs with
  | [] => Some items
  | r :: rs =>
      if decide (r = "*") then None
      else match strip_prefix prefix r with
           | Some item => scan_resources prefix rs (btree_insert item items)
           | None => scan_resources prefix rs items
           end
  end.

Fixpoint scope_loop (action prefix : string) (stmts : list V) (items : list string)
    (granted : bool) : ResourceScope :=
  match stmts with
  | [] => if granted then Only items else NotGranted
  | stmt :: stmts =>
      if negb (is_allow stmt) then scope_loop action prefix stmts items granted
      else if negb (action_matches_any (stmt_actions stmt) action)
      then scope_loop action prefix stmts items granted
      else match scan_resources prefix (stmt_resources stmt) items with
           | None => All
           | Some items => scope_loop action prefix stmts items true
           end
  end.

Definition extract_resource_scope (doc : V) (action prefix : string) : ResourceScope :=
  match statements doc with
  | None => NotGranted
  | Some stmts => scope_loop action prefix stmts [] false
  end.

Definition extract_model_scope (doc : V) : ResourceScope :=
  extract_resource_scope doc "ai_gateway:use" "model:".
Definition extract_mcp_tool_scope (doc : V) : ResourceScope :=
  extract_resource_scope doc "mcp_gateway:use" "mcp_tool:".

Definition add_action_perms (all_perms : list string) (perms : list string) (action : string)
    : list string :=
  if decide (action = "*") then btree_extend perms all_perms
  else if ends_with ":*" action then
    btree_extend perms
      (filter (fun p => starts_with (String.substring 0 (String.length action - 1) action) p = true)
        all_perms)
  else btree_insert action perms.

Definition extract_permissions (doc : V) (all_perms : list string) : list string :=
  match statements doc with
  | None => []
  | Some stmts =>
      foldl (fun perms stmt =>
        if negb (is_allow stmt) then perms
        else foldl (add_action_perms all_perms) perms (stmt_actions stmt)) [] stmts
  end.

(** [serde_json::from_value::<PolicyConstraints>], derived by serde. *)
Variable decode_constraints : V -> option PolicyConstraints.

Definition stmt_constraints (stmt : V) : option PolicyConstraints :=
  match json_get "Constraints" stmt with
  | Some c => if json_is_null c then None else decode_constraints c
  | None => None
  end.

Definition extract_step (acc : SurfaceBlock * SurfaceBlock) (stmt : V)
    : SurfaceBlock * SurfaceBlock :=
  let '(ai, mcp) := acc in
  if negb (is_allow stmt) then acc
  else match stmt_constraints stmt with
       | None => acc
       | Some c =>
           let actions := stmt_actions stmt in
           (if action_matches_any actions "ai_gateway:use" then append_constraints ai c else ai,
            if action_matches_any actions "mcp_gateway:use" then append_constraints mcp c else mcp)
       end.

Definition extract_surface_constraints (doc : V) : SurfaceConstraints :=
  match statements doc with
  | None => SurfaceConstraints_default
  | Some stmts =>
      let '(ai, mcp) := foldl extract_step (SurfaceBlock_default, SurfaceBlock_default) stmts in
      {| sc_ai_gateway := block_if_any ai; sc_mcp_gateway := block_if_any mcp |}
  end.
End Extract.

(** ** What the extracted scope says *)

(** A statement grants [action]: it allows, and one of its action patterns covers it. *)
Definition grants `{JsonValue V} (action : string) (stmt : V) : Prop :=
  is_allow stmt = true /\ action_matches_any (stmt_actions stmt) action = true.

Lemma action_matches_any_spec actions target :
  action_matches_any actions target = true <->
  exists a, a ∈ actions /\
    (a = "*" \/ a = target \/ exists p t, a = p +:+ ":*" /\ target = p +:+ ":" +:+ t).
Proof.
  unfold action_matches_any. rewrite existsb_exists.
  apply exist_proper. intros a. rewrite list_elem_of_In. apply and_iff_compat_l.
  rewrite !orb_true_iff, !bool_decide_eq_true.
  assert (match strip_suffix "*" a with
          | Some prefix => ends_with ":" prefix && starts_with prefix target
          | None => false
          end = true <-> exists p t, a = p +:+ ":*" /\ target = p +:+ ":" +:+ t) as ->; [|tauto].
  split.
  - destruct (strip_suffix "*" a) as [pre|] eqn:Ha; [|done].
    apply strip_suffix_Some in Ha as ->.
    rewrite andb_true_iff, ends_with_spec, starts_with_spec.
    intros [[p ->] [t ->]]. exists p, t. by rewrite !str_app_assoc.
  - intros (p & t & -> & ->).
    replace (p +:+ ":*") with ((p +:+ ":") +:+ "*") by by rewrite str_app_assoc.
    rewrite (proj2 (strip_suffix_Some "*" _ _) eq_refl).
    apply andb_true_iff. split; [apply ends_with_spec; eauto|].
    apply starts_with_spec. exists t. by rewrite str_app_assoc.
Qed.

Lemma scan_resources_None prefix rs items :
  scan_resources prefix rs items = None <-> "*" ∈ rs.
Proof.
  revert items. induction rs as [|r rs IH]; intros items; simpl; [set_solver|].
  case_decide; [set_solver|]. destruct (strip_prefix prefix r); rewrite IH; set_solver.
Qed.

Lemma scan_resources_Some prefix rs items items' :
  scan_resources prefix rs items = Some items' ->
  (forall x, x ∈ items' <-> x ∈ items \/ prefix +:+ x ∈ rs) /\
  (Sorted str_lt items -> Sorted str_lt items').
Proof.
  revert items. induction rs as [|r rs IH]; intros items; simpl; [set_solver|].
  case_decide; [done|].
  destruct (strip_prefix prefix r) as [item|] eqn:Hp; intros [Hin Hs]%IH.
  - apply strip_prefix_Some in Hp as ->. split; [|by auto using btree_insert_sorted].
    intros x. rewrite Hin, elem_of_btree_insert, elem_of_cons. split; [naive_solver|].
    intros [?|[Heq|?]]; [auto| |auto]. apply str_app_cancel_l in Heq. auto.
  - split; [|done]. intros x. rewrite Hin, elem_of_cons. split; [tauto|].
    intros [?|[<-|?]]; [auto| |auto].
    by rewrite (proj2 (strip_prefix_Some prefix _ x) eq_refl) in Hp.
Qed.

Section ScopeSpec.
Context `{JsonValue V}.
Implicit Types stmts : list V.

Definition scope_spec (action prefix : string) stmts (items : list string) (granted : bool)
    (r : ResourceScope) : Prop :=
  match r with
  | All => exists stmt, stmt ∈ stmts /\ grants action stmt /\ "*" ∈ stmt_resources stmt
  | NotGranted => granted = false /\ forall stmt, stmt ∈ stmts -> ~ grants action stmt
  | Only out =>
      Sorted str_lt out /\
      (granted = true \/ exists stmt, stmt ∈ stmts /\ grants action stmt) /\
      (forall stmt, stmt ∈ stmts -> grants action stmt -> "*" ∉ stmt_resources stmt) /\
      (forall x, x ∈ out <-> x ∈ items \/
         exists stmt, stmt ∈ stmts /\ grants action stmt /\ prefix +:+ x ∈ stmt_resources stmt)
  end.

Lemma scope_spec_skip action prefix stmt stmts items granted r :
  ~ grants action stmt ->
  scope_spec action prefix stmts items granted r ->
  scope_spec action prefix (stmt :: stmts) items granted r.
Proof. destruct r; simpl; set_solver. Qed.

Lemma scope_spec_take action prefix stmt stmts items items' granted r :
  grants action stmt ->
  scan_resources prefix (stmt_resources stmt) items = Some items' ->
  scope_spec action prefix stmts items' true r ->
  scope_spec action prefix (stmt :: stmts) items granted r.
Proof.
  intros Hg Hscan. pose proof (scan_resources_Some _ _ _ _ Hscan) as [Hin _].
  assert ("*" ∉ stmt_resources stmt) as Hstar.
  { rewrite <- (scan_resources_None prefix _ items). congruence. }
  destruct r as [| |out]; simpl; [naive_solver|set_solver|].
  intros (Hs & _ & Hns & Hout). split_and!; [done|set_solver|set_solver|].
  intros x. rewrite Hout, Hin. set_solver.
Qed.

Lemma scope_loop_spec action prefix stmts items granted :
  Sorted str_lt items ->
  scope_spec action prefix stmts items granted (scope_loop action prefix stmts items granted).
Proof.
  revert items granted. induction stmts as [|stmt stmts IH]; intros items granted Hs; simpl.
  { destruct granted; simpl; set_solver. }
  destruct (is_allow stmt) eqn:Ha; simpl; [|apply scope_spec_skip; [intros [??]; congruence|auto]].
  destruct (action_matches_any (stmt_actions stmt) action) eqn:Hm; simpl;
    [|apply scope_spec_skip; [intros [??]; congruence|auto]].
  destruct (scan_resources prefix (stmt_resources stmt) items) as [items'|] eqn:Hscan.
  - eapply scope_spec_take; [done|done|]. apply IH. by eapply scan_resources_Some.
  - simpl. exists stmt. apply scan_resources_None in Hscan. by split_and!; [left| |].
Qed.
End ScopeSpec.

Lemma extract_resource_scope_spec `{JsonValue V} (doc : V) action prefix :
  scope_spec action prefix (default [] (statements doc)) [] false
    (extract_resource_scope doc action prefix).
Proof.
  unfold extract_resource_scope. destruct (statements doc) as [stmts|]; simpl.
  - apply scope_loop_spec. constructor.
  - split; [done|set_solver].
Qed.

(** [extract_resource_scope], on every branch. *)
Theorem extract_resource_scope_correct `{JsonValue V} (doc : V) action prefix :
  scope_spec action prefix (default [] (statements doc)) [] false
    (extract_resource_scope doc action prefix).
Proof. apply extract_resource_scope_spec. Qed.

(** ** Permissions *)

Definition action_covers (all_perms : list string) (action p : string) : Prop :=
  if decide (action = "*") then p ∈ all_perms
  else if ends_with ":*" action then
    p ∈ all_perms /\ exists pre t, action = pre +:+ ":*" /\ p = pre +:+ ":" +:+ t
  else p = action.

Lemma str_substring_app a b : String.substring 0 (String.length a) (a +:+ b) = a.
Proof.
  apply String.prefix_correct. induction a as [|c a IH].
  { change ("" +:+ b) with b. by destruct b. }
  change (String c a +:+ b) with (String c (a +:+ b)). simpl.
  by destruct (Ascii.ascii_dec c c).
Qed.

Lemma elem_of_add_action_perms all perms action p :
  p ∈ add_action_perms all perms action <-> p ∈ perms \/ action_covers all action p.
Proof.
  unfold add_action_perms, action_covers. case_decide.
  { apply elem_of_btree_extend. }
  destruct (ends_with ":*" action) eqn:He; [|rewrite elem_of_btree_insert; tauto].
  rewrite elem_of_btree_extend. apply or_iff_compat_l.
  rewrite list_elem_of_filter, starts_with_spec.
  apply ends_with_spec in He as [pre ->].
  replace (String.substring _ _ _) with (pre +:+ ":").
  2:{ rewrite <- (str_substring_app (pre +:+ ":") "*"), str_app_assoc. f_equal.
      rewrite !str_length_app. simpl. lia. }
  split.
  - intros [[t ->] ?]. split; [done|]. exists pre, t. by rewrite str_app_assoc.
  - intros [? (pre' & t & Heq%str_app_cancel_r & ->)]. subst. split; [|done].
    exists t. by rewrite str_app_assoc.
Qed.

Lemma elem_of_foldl_add_action all actions perms p :
  p ∈ foldl (add_action_perms all) perms actions <->
  p ∈ perms \/ exists a, a ∈ actions /\ action_covers all a p.
Proof.
  revert perms. induction actions as [|a actions IH]; intros perms; simpl; [set_solver|].
  rewrite IH, elem_of_add_action_perms. set_solver.
Qed.

Lemma elem_of_extract_permissions `{JsonValue V} (doc : V) all p :
  p ∈ extract_permissions doc all <->
  exists stmt a, stmt ∈ default [] (statements doc) /\ is_allow stmt = true /\
    a ∈ stmt_actions stmt /\ action_covers all a p.
Proof.
  unfold extract_permissions. destruct (statements doc) as [stmts|]; simpl; [|set_solver].
  assert (forall acc, p ∈ foldl (fun perms stmt => if negb (is_allow stmt) then perms
            else foldl (add_action_perms all) perms (stmt_actions stmt)) acc stmts <->
          p ∈ acc \/ exists stmt a, stmt ∈ stmts /\ is_allow stmt = true /\
            a ∈ stmt_actions stmt /\ action_covers all a p) as Hgen; [|rewrite Hgen; set_solver].
  induction stmts as [|stmt stmts IH]; intros acc; simpl; [set_solver|].
  rewrite IH. setoid_rewrite elem_of_cons.
  destruct (is_allow stmt) eqn:Ha; simpl; [rewrite elem_of_foldl_add_action; naive_solver|].
  split; [naive_solver|]. intros [?|(st & a & [->|?] & ? & ? & ?)]; [auto|congruence|eauto 10].
Qed.

Lemma action_covers_matches all a p :
  p ∈ all -> action_covers all a p <-> action_matches_any [a] p = true.
Proof.
  intros Hp. rewrite action_matches_any_spec. unfold action_covers.
  setoid_rewrite list_elem_of_singleton. case_decide as Hs.
  { subst. naive_solver. }
  destruct (ends_with ":*" a) eqn:He.
  - split; [naive_solver|]. intros (? & -> & [?|[->|?]]); [done| |done].
    split; [done|]. apply ends_with_spec in He as [t ->]. exists t, "*". done.
  - split; [naive_solver|]. intros (? & -> & [?|[->|(pre & t & -> & _)]]); [done|done|].
    exfalso. rewrite (proj2 (ends_with_spec _ _)) in He; [done|eauto].
Qed.

Lemma elem_of_permissions `{JsonValue V} (doc : V) all p :
  p ∈ all ->
  p ∈ extract_permissions doc all <->
  exists stmt, stmt ∈ default [] (statements doc) /\ grants p stmt.
Proof.
  intros Hp. rewrite elem_of_extract_permissions. unfold grants.
  setoid_rewrite (action_covers_matches _ _ _ Hp).
  setoid_rewrite action_matches_any_spec. set_solver.
Qed.

(** The permission list and the gateway's scope check read action patterns alike. *)
Theorem permission_listed_iff_granted `{JsonValue V} (doc : V) all p :
  p ∈ all ->
  p ∈ extract_permissions doc all <->
  exists stmt, stmt ∈ default [] (statements doc) /\ grants p stmt.
Proof. apply elem_of_permissions. Qed.

(** ** Validated constraints are extracted whole *)

Definition rule_ok (r : SurfaceRule) : Prop :=
  is_allowed_window (sr_window_secs r) = true /\ 0 < sr_max_count r.
Definition budget_ok (b : SurfaceBudget) : Prop := 0 < sb_limit_tokens b.
Definition block_ok (b : SurfaceBlock) : Prop :=
  Forall rule_ok (blk_rules b) /\ Forall budget_ok (blk_budgets b).

Lemma append_rules_ok rls b :
  (forall i rl, rls !! i = Some rl -> exists j, validate_rate_limit j rl = Ok tt) ->
  let b' := foldl (fun b rl =>
    match RateMetric.parse (prl_metric rl), window_to_secs (prl_window rl) with
    | Some metric, Some secs =>
        push_rule {| sr_metric := metric; sr_window_secs := secs;
                     sr_max_count := prl_max_count rl; sr_enabled := true |} b
    | _, _ => b
    end) b rls in
  length (blk_rules b') = (length (blk_rules b) + length rls)%nat /\
  blk_budgets b' = blk_budgets b /\
  (Forall rule_ok (blk_rules b) -> Forall rule_ok (blk_rules b')).
Proof.
  revert b. induction rls as [|rl rls IH]; intros b Hok; simpl; [by rewrite Nat.add_0_r|].
  destruct (IH (match RateMetric.parse (prl_metric rl), window_to_secs (prl_window rl) with
    | Some metric, Some secs =>
        push_rule {| sr_metric := metric; sr_window_secs := secs;
                     sr_max_count := prl_max_count rl; sr_enabled := true |} b
    | _, _ => b end)) as (Hl & Hb & Hf).
  { intros i rl' Hi. by apply (Hok (S i)). }
  destruct (Hok 0%nat rl eq_refl) as [j Hj].
  unfold validate_rate_limit in Hj.
  destruct (window_to_secs (prl_window rl)) as [secs|] eqn:Hw; [|done].
  destruct (is_allowed_window secs) eqn:Haw; [simpl in Hj|done].
  destruct (prl_max_count rl <=? 0) eqn:Hm; [done|].
  destruct (RateMetric.parse (prl_metric rl)) as [m|]; [|done].
  split_and!; [rewrite Hl; simpl; rewrite length_app; simpl; lia|done|].
  intros Hr. apply Hf. simpl. apply Forall_app. split; [done|].
  apply Forall_singleton. split; simpl; [done|]. zbool. lia.
Qed.

Lemma append_budgets_ok bs b :
  (forall i x, bs !! i = Some x -> exists j, validate_budget j x = Ok tt) ->
  let b' := foldl (fun b x =>
    match BudgetPeriod.parse (pb_period x) with
    | Some period =>
        push_budget {| sb_period := period; sb_limit_tokens := pb_max_tokens x;
                       sb_enabled := true |} b
    | None => b
    end) b bs in
  length (blk_budgets b') = (length (blk_budgets b) + length bs)%nat /\
  blk_rules b' = blk_rules b /\
  (Forall budget_ok (blk_budgets b) -> Forall budget_ok (blk_budgets b')).
Proof.
  revert b. induction bs as [|x bs IH]; intros b Hok; simpl; [by rewrite Nat.add_0_r|].
  destruct (Hok 0%nat x eq_refl) as [j Hj]. unfold validate_budget in Hj.
  destruct (pb_max_tokens x <=? 0) eqn:Hm; [done|].
  destruct (BudgetPeriod.parse (pb_period x)) as [p|]; [|done].
  destruct (IH (push_budget {| sb_period := p; sb_limit_tokens := pb_max_tokens x;
                               sb_enabled := true |} b)) as (Hl & Hb & Hf).
  { intros i y Hi. by apply (Hok (S i)). }
  split_and!; [rewrite Hl; simpl; rewrite length_app; simpl; lia|done|].
  intros Hr. apply Hf. simpl. apply Forall_app. split; [done|].
  apply Forall_singleton. unfold budget_ok; simpl. zbool. lia.
Qed.

Lemma try_enumerate_each {E A} (f : nat -> A -> result E unit) l i x :
  try_enumerate f l = Ok tt -> l !! i = Some x -> exists j, f j x = Ok tt.
Proof. intros Hl Hi. exists i. by eapply (try_each_from_ok f l 0). Qed.

(** Constraints that pass validation lose nothing when a block is built from them. *)
Theorem validated_constraints_extracted c b :
  validate_policy_constraints c = Ok tt ->
  let b' := append_constraints b c in
  length (blk_rules b') = (length (blk_rules b) + length (pc_rate_limits c))%nat /\
  length (blk_budgets b') = (length (blk_budgets b) + length (pc_budgets c))%nat /\
  (block_ok b -> block_ok b').
Proof.
  unfold validate_policy_constraints, append_constraints. intros Hv.
  destruct (try_enumerate validate_rate_limit (pc_rate_limits c)) as [[]|] eqn:Hr; [|done].
  destruct (append_rules_ok (pc_rate_limits c) b) as (Hl1 & Hb1 & Hf1).
  { intros i rl Hi. by eapply try_enumerate_each. }
  set (b1 := foldl _ b (pc_rate_limits c)) in *.
  destruct (append_budgets_ok (pc_budgets c) b1) as (Hl2 & Hb2 & Hf2).
  { intros i x Hi. by eapply try_enumerate_each. }
  unfold block_ok. rewrite Hl2, Hb1, Hb2 in *. naive_solver.
Qed.

(** ** Witnesses *)

Definition demo_doc : json := JObj [("Statement", JArr [
  JObj [("Effect", JStr "Allow"); ("Action", JStr "ai_gateway:*");
        ("Resource", JArr [JStr "model:gpt-5"; JStr "model:claude"])];
  JObj [("Effect", JStr "Deny"); ("Action", JStr "*"); ("Resource", JStr "*")]])].

Example demo_model_scope : extract_model_scope demo_doc = Only ["claude"; "gpt-5"].
Proof. reflexivity. Qed.
Example demo_tool_scope : extract_mcp_tool_scope demo_doc = NotGranted.
Proof. reflexivity. Qed.

Lemma permission_listed_iff_granted_witness :
  "ai_gateway:use" ∈ extract_permissions demo_doc ["ai_gateway:use"; "mcp_gateway:use"].
Proof.
  apply (permission_listed_iff_granted demo_doc); [set_solver|].
  eexists. split; [left|by vm_compute].
Defined.

Definition demo_constraints : PolicyConstraints := {|
  pc_rate_limits := [{| prl_metric := "requests"; prl_window := "1h"; prl_max_count := 100 |}];
  pc_budgets := [{| pb_period := "monthly"; pb_max_tokens := 5000 |}] |}.

Lemma validated_constraints_extracted_witness :
  block_ok (append_constraints SurfaceBlock_default demo_constraints).
Proof.
  eapply (validated_constraints_extracted demo_constraints SurfaceBlock_default);
    [reflexivity|split; constructor].
Defined.
