(* ===== verification/Constraints.v ===== *)
(** * Merging limits

    [crates/common/src/limits/mod.rs]: the most restrictive merge of the roles' constraints,
    the per-subject overrides from the side tables, and [RequestLimits], the rules and caps
    one request is held to. *)

From S2P Require Import Prelude Interfaces LimitTypes Policy.

(** ** Most restrictive wins *)

(** [.entry(k).and_modify(|v| if n < *v { *v = n }).or_insert(n)] *)
Definition upsert_min `{Countable K} (k : K) (n : Z) (m : gmap K Z) : gmap K Z :=
  match m !! k with
  | Some v => if n <? v then <[k := n]> m else m
  | None => <[k := n]> m
  end.

Abbreviation rule_key := (string * RateMetric.t * Z)%type.
Abbreviation budget_key := (string * BudgetPeriod.t)%type.
Abbreviation mins := (gmap rule_key Z * gmap budget_key Z)%type.

Definition merge_block (key : string) (b : SurfaceBlock) (m : mins) : mins :=
  (foldl (fun m r =>
     if negb (sr_enabled r) || (sr_max_count r <=? 0) then m
     else upsert_min (key, sr_metric r, sr_window_secs r) (sr_max_count r) m) m.1 (blk_rules b),
   foldl (fun m x =>
     if negb (sb_enabled x) || (sb_limit_tokens x <=? 0) then m
     else upsert_min (key, sb_period x) (sb_limit_tokens x) m) m.2 (blk_budgets b)).

Definition merge_surface (m : mins) (p : string * option SurfaceBlock) : mins :=
  match p.2 with None => m | Some b => merge_block p.1 b m end.

Definition merge_input (m : mins) (c : SurfaceConstraints) : mins :=
  foldl merge_surface m [(Surface.as_str Surface.AiGateway, sc_ai_gateway c);
                         (Surface.as_str Surface.McpGateway, sc_mcp_gateway c)].

(** The HashMaps are drained in an unspecified order; [map_to_list] is one such order. *)
Definition drain_rule (acc : SurfaceBlock * SurfaceBlock) (e : rule_key * Z)
    : SurfaceBlock * SurfaceBlock :=
  let '(ai, mcp) := acc in
  let '((key, metric, window_secs), max_count) := e in
  let rule := {| sr_metric := metric; sr_window_secs := window_secs;
                 sr_max_count := max_count; sr_enabled := true |} in
  if decide (key = Surface.as_str Surface.AiGateway)
  then (push_rule rule ai, mcp) else (ai, push_rule rule mcp).

Definition drain_budget (acc : SurfaceBlock * SurfaceBlock) (e : budget_key * Z)
    : SurfaceBlock * SurfaceBlock :=
  let '(ai, mcp) := acc in
  let '((key, period), limit_tokens) := e in
  let b := {| sb_period := period; sb_limit_tokens := limit_tokens; sb_enabled := true |} in
  if decide (key = Surface.as_str Surface.AiGateway)
  then (push_budget b ai, mcp) else (ai, push_budget b mcp).

Definition merge_most_restrictive (inputs : list SurfaceConstraints) : SurfaceConstraints :=
  let '(rule_min, budget_min) := foldl merge_input (∅, ∅) inputs in
  let acc := foldl drain_rule (SurfaceBlock_default, SurfaceBlock_default) (map_to_list rule_min) in
  let '(ai, mcp) := foldl drain_budget acc (map_to_list budget_min) in
  {| sc_ai_gateway := block_if_any ai; sc_mcp_gateway := block_if_any mcp |}.

(** ** Overrides *)

Section Side.
Context {U : Type}.

Definition get_or_insert (f : SurfaceBlock -> SurfaceBlock) (o : option SurfaceBlock)
    : option SurfaceBlock := Some (f (default SurfaceBlock_default o)).

Definition side_rule (out : SurfaceConstraints) (r : RateLimitRule U) : SurfaceConstraints :=
  if negb (rr_enabled r) then out
  else block_mut (rr_surface r)
    (get_or_insert (push_rule {| sr_metric := rr_metric r; sr_window_secs := rr_window_secs r;
                                 sr_max_count := rr_max_count r; sr_enabled := true |})) out.

Definition side_cap (out : SurfaceConstraints) (c : BudgetCap U) : SurfaceConstraints :=
  if negb (bc_enabled c) then out
  else foldl (fun out surface =>
    block_mut surface
      (get_or_insert (push_budget {| sb_period := bc_period c; sb_limit_tokens := bc_limit_tokens c;
                                     sb_enabled := true |})) out)
    out [Surface.AiGateway; Surface.McpGateway].

Definition side_table_as_constraints (rules : list (RateLimitRule U)) (caps : list (BudgetCap U))
    : SurfaceConstraints :=
  foldl side_cap (foldl side_rule SurfaceConstraints_default rules) caps.
End Side.

Definition override_rule (rules : list SurfaceRule) (ov : SurfaceRule) : list SurfaceRule :=
  filter (fun r => ~ (sr_metric r = sr_metric ov /\ sr_window_secs r = sr_window_secs ov)) rules
    ++ [ov].
Definition override_budget (budgets : list SurfaceBudget) (ov : SurfaceBudget)
    : list SurfaceBudget :=
  filter (fun b => sb_period b <> sb_period ov) budgets ++ [ov].

Definition apply_block_overrides (target overrides : option SurfaceBlock) : option SurfaceBlock :=
  match overrides with
  | None => target
  | Some ov =>
      let block := default SurfaceBlock_default target in
      Some {| blk_rules := foldl override_rule (blk_rules block) (blk_rules ov);
              blk_budgets := foldl override_budget (blk_budgets block) (blk_budgets ov) |}
  end.

Definition apply_user_overrides (base overrides : SurfaceConstraints) : SurfaceConstraints :=
  {| sc_ai_gateway := apply_block_overrides (sc_ai_gateway base) (sc_ai_gateway overrides);
     sc_mcp_gateway := apply_block_overrides (sc_mcp_gateway base) (sc_mcp_gateway overrides) |}.

(** ** What one request is held to *)

Section Request.
Context {U : Type} `{Uuid U}.

Record RequestLimits := {
  rq_owner : U;
  rq_key_lineage : option U;
  rq_rules : list (RateLimitRule U);
  rq_caps : list (BudgetCap U);
}.

Definition to_rule (surface : Surface.t) (kind : RateLimitSubject.t) (id : U) (r : SurfaceRule)
    : RateLimitRule U :=
  {| rr_id := uuid_nil; rr_subject_kind := kind; rr_subject_id := id; rr_surface := surface;
     rr_metric := sr_metric r; rr_window_secs := sr_window_secs r;
     rr_max_count := sr_max_count r; rr_enabled := true;
     rr_expires_at := None; rr_reason := None; rr_created_by := None |}.

Definition to_cap (kind : BudgetSubject.t) (id : U) (b : SurfaceBudget) : BudgetCap U :=
  {| bc_id := uuid_nil; bc_subject_kind := kind; bc_subject_id := id;
     bc_period := sb_period b; bc_limit_tokens := sb_limit_tokens b; bc_enabled := true;
     bc_expires_at := None; bc_reason := None; bc_created_by := None |}.

Definition budget_kind (k : RateLimitSubject.t) : BudgetSubject.t :=
  match k with
  | RateLimitSubject.User => BudgetSubject.User
  | RateLimitSubject.ApiKeyLineage => BudgetSubject.ApiKeyLineage
  end.

Definition rq_add (surface : Surface.t) (kind : RateLimitSubject.t) (id : U)
    (constraints : SurfaceConstraints) (out : RequestLimits) : RequestLimits :=
  match block constraints surface with
  | None => out
  | Some b =>
      {| rq_owner := rq_owner out; rq_key_lineage := rq_key_lineage out;
         rq_rules := rq_rules out ++
           (to_rule surface kind id <$> filter (fun r => sr_enabled r = true) (blk_rules b));
         rq_caps := rq_caps out ++
           (to_cap (budget_kind kind) id <$> filter (fun b => sb_enabled b = true) (blk_budgets b)) |}
  end.

Definition for_request (surface : Surface.t) (owner : U) (user : SurfaceConstraints)
    (key : option (U * SurfaceConstraints)) : RequestLimits :=
  let out := {| rq_owner := owner; rq_key_lineage := fst <$> key; rq_rules := []; rq_caps := [] |} in
  let out := rq_add surface RateLimitSubject.User owner user out in
  match key with
  | Some (lineage, constraints) =>
      rq_add surface RateLimitSubject.ApiKeyLineage lineage constraints out
  | None => out
  end.
End Request.
Arguments RequestLimits : clear implicits.

(** ** Validation of a constraints payload *)

Section Validate.
Context {V : Type} `{JsonValue V}.
(** [serde_json::from_value::<SurfaceConstraints>], derived by serde; its error text. *)
Variable decode_surface : V -> result string SurfaceConstraints.

Definition validate_block (surface_name : string) (b : SurfaceBlock) : result string unit :=
  match try_enumerate (fun i r =>
      if negb (is_allowed_window (sr_window_secs r)) then
        Err (surface_name +:+ ".rules[" +:+ pretty i +:+ "]: window_secs "
             +:+ pretty (sr_window_secs r) +:+ " not in allowed set")
      else if sr_max_count r <=? 0 then
        Err (surface_name +:+ ".rules[" +:+ pretty i +:+ "]: max_count must be > 0")
      else Ok tt) (blk_rules b) with
  | Err e => Err e
  | Ok _ =>
      try_enumerate (fun i x =>
        if sb_limit_tokens x <=? 0 then
          Err (surface_name +:+ ".budgets[" +:+ pretty i +:+ "]: limit_tokens must be > 0")
        else Ok tt) (blk_budgets b)
  end.

Definition validate_surface_constraints (value : V) : result string SurfaceConstraints :=
  if negb (json_is_object value) then Err "surface_constraints must be an object"
  else match decode_surface value with
  | Err e => Err ("Invalid surface_constraints JSON: " +:+ e)
  | Ok c =>
      match try_each (fun '(name, b) =>
          match b with None => Ok tt | Some b => validate_block name b end)
          [("ai_gateway", sc_ai_gateway c); ("mcp_gateway", sc_mcp_gateway c)] with
      | Err e => Err e
      | Ok _ => Ok c
      end
  end.
End Validate.

(** ** The merge takes minima *)

Definition is_min (P : Z -> Prop) (v : Z) : Prop := P v /\ forall n, P n -> v <= n.

Section MinMap.
Context `{Countable K}.
Implicit Types (m : gmap K Z) (l : list (K * Z)).

(** [m] holds, for every key of [l], the least value [l] gives it. *)
Definition min_map l m : Prop :=
  forall k v, m !! k = Some v <-> is_min (fun n => (k, n) ∈ l) v.

Lemma min_map_nil : min_map [] ∅.
Proof. intros k v. rewrite lookup_empty. unfold is_min. set_solver. Qed.

Lemma min_map_None l m k : min_map l m -> m !! k = None -> forall n, (k, n) ∉ l.
Proof.
  intros Hm Hk n Hn.
  enough (exists v, is_min (fun n => (k, n) ∈ l) v) as [v Hv] by (apply Hm in Hv; congruence).
  clear Hm Hk. revert n Hn. induction l as [|[k' x] l IH]; intros n Hn; [set_solver|].
  destruct (decide (k' = k)) as [->|Hne]; cycle 1.
  { destruct (IH n) as [v Hv]; [set_solver|]. exists v. unfold is_min in *. set_solver. }
  destruct (decide (k ∈ l.*1)) as [([? y] & -> & Hy)%list_elem_of_fmap|Hno].
  - destruct (IH y Hy) as [v [Hv1 Hv2]]. exists (Z.min x v). split.
    + destruct (Z.min_spec x v) as [[_ ->]|[_ ->]]; set_solver.
    + intros z Hz. apply elem_of_cons in Hz as [Hz|Hz]; [simplify_eq; lia|].
      specialize (Hv2 z Hz). lia.
  - exists x. split; [set_solver|]. intros z Hz. apply elem_of_cons in Hz as [Hz|Hz]; [simplify_eq; lia|].
    destruct Hno. apply list_elem_of_fmap. by exists (k, z).
Qed.

Lemma min_map_upsert l m k n : min_map l m -> min_map (l ++ [(k, n)]) (upsert_min k n m).
Proof.
  intros Hm k' v. unfold upsert_min, is_min. setoid_rewrite elem_of_app.
  setoid_rewrite list_elem_of_singleton.
  destruct (m !! k) as [v0|] eqn:Hk.
  - pose proof (proj1 (Hm k v0) Hk) as [H1 H2]. destruct (n <? v0) eqn:Hlt; zbool.
    + destruct (decide (k' = k)) as [->|Hne].
      * rewrite lookup_insert_eq. split.
        -- intros [= <-]. split; [auto|]. intros z [Hz|[= ->]]; [apply H2 in Hz|]; lia.
        -- intros [[Hv|[= ->]] Hmin]; [|done].
           apply H2 in Hv. specialize (Hmin n (or_intror eq_refl)). lia.
      * rewrite lookup_insert_ne, (Hm k' v) by done. unfold is_min. naive_solver.
    + destruct (decide (k' = k)) as [->|Hne].
      * rewrite Hk. split.
        -- intros [= <-]. split; [auto|]. intros z [Hz|[= ->]]; [apply H2 in Hz|]; lia.
        -- intros [[Hv|[= ->]] Hmin]; f_equal.
           ++ specialize (H2 v Hv). specialize (Hmin v0 (or_introl H1)). lia.
           ++ specialize (Hmin v0 (or_introl H1)). lia.
      * rewrite (Hm k' v). unfold is_min. naive_solver.
  - pose proof (min_map_None _ _ _ Hm Hk) as Hno. destruct (decide (k' = k)) as [->|Hne].
    + rewrite lookup_insert_eq. naive_solver lia.
    + rewrite lookup_insert_ne, (Hm k' v) by done. unfold is_min. naive_solver.
Qed.

Lemma min_map_foldl {A} (key : A -> K) (val : A -> Z) (dead : A -> bool) xs l m :
  min_map l m ->
  min_map (l ++ ((fun x => (key x, val x)) <$> filter (fun x => dead x = false) xs))
    (foldl (fun m x => if dead x then m else upsert_min (key x) (val x) m) m xs).
Proof.
  revert l m. induction xs as [|x xs IH]; intros l m Hm; [by rewrite app_nil_r|].
  destruct (dead x) eqn:Hx.
  - rewrite filter_cons_False by congruence. simpl. rewrite Hx. by apply IH.
  - rewrite filter_cons_True by done. simpl. rewrite Hx, cons_middle, app_assoc.
    by apply IH, min_map_upsert.
Qed.
End MinMap.

(** The limits a constraint set puts on a surface: only enabled, positive entries count. *)
Definition block_rules (c : SurfaceConstraints) (s : Surface.t) : list SurfaceRule :=
  default [] (blk_rules <$> block c s).
Definition block_budgets (c : SurfaceConstraints) (s : Surface.t) : list SurfaceBudget :=
  default [] (blk_budgets <$> block c s).

Definition rule_candidate (inputs : list SurfaceConstraints) (s : Surface.t)
    (metric : RateMetric.t) (window : Z) (n : Z) : Prop :=
  exists c r, c ∈ inputs /\ r ∈ block_rules c s /\ sr_enabled r = true /\ 0 < n /\
    sr_metric r = metric /\ sr_window_secs r = window /\ sr_max_count r = n.
Definition budget_candidate (inputs : list SurfaceConstraints) (s : Surface.t)
    (period : BudgetPeriod.t) (n : Z) : Prop :=
  exists c b, c ∈ inputs /\ b ∈ block_budgets c s /\ sb_enabled b = true /\ 0 < n /\
    sb_period b = period /\ sb_limit_tokens b = n.

(** The same candidates as the merge meets them. *)
Definition rule_dead (r : SurfaceRule) : bool := negb (sr_enabled r) || (sr_max_count r <=? 0).
Definition budget_dead (b : SurfaceBudget) : bool := negb (sb_enabled b) || (sb_limit_tokens b <=? 0).
Definition rule_entries (s : Surface.t) (c : SurfaceConstraints) : list (rule_key * Z) :=
  (fun r => ((Surface.as_str s, sr_metric r, sr_window_secs r), sr_max_count r)) <$>
    filter (fun r => rule_dead r = false) (block_rules c s).
Definition budget_entries (s : Surface.t) (c : SurfaceConstraints) : list (budget_key * Z) :=
  (fun b => ((Surface.as_str s, sb_period b), sb_limit_tokens b)) <$>
    filter (fun b => budget_dead b = false) (block_budgets c s).

Definition mins_ok (inputs : list SurfaceConstraints) (m : mins) : Prop :=
  min_map (inputs ≫= fun c => rule_entries Surface.AiGateway c ++ rule_entries Surface.McpGateway c) m.1 /\
  min_map (inputs ≫= fun c => budget_entries Surface.AiGateway c ++ budget_entries Surface.McpGateway c) m.2.

Lemma merge_surface_ok s c l1 l2 m :
  min_map l1 m.1 -> min_map l2 m.2 ->
  let m' := merge_surface m (Surface.as_str s, block c s) in
  min_map (l1 ++ rule_entries s c) m'.1 /\ min_map (l2 ++ budget_entries s c) m'.2.
Proof.
  intros H1 H2. unfold merge_surface, rule_entries, budget_entries, block_rules, block_budgets.
  simpl. destruct (block c s) as [b|]; simpl.
  - split; [by apply (min_map_foldl _ _ rule_dead)|by apply (min_map_foldl _ _ budget_dead)].
  - by rewrite !app_nil_r.
Qed.

Lemma merge_inputs_ok inputs : mins_ok inputs (foldl merge_input (∅, ∅) inputs).
Proof.
  induction inputs as [|c inputs IH] using rev_ind; [split; apply min_map_nil|].
  rewrite foldl_app. simpl. unfold mins_ok. rewrite !bind_app. simpl. rewrite !app_nil_r, !app_assoc.
  destruct IH as [H1 H2].
  destruct (merge_surface_ok Surface.AiGateway c _ _ _ H1 H2) as [H3 H4].
  apply (merge_surface_ok Surface.McpGateway c _ _ _ H3 H4).
Qed.

Lemma elem_of_rule_entries inputs s metric window n :
  ((Surface.as_str s, metric, window), n) ∈
    (inputs ≫= fun c => rule_entries Surface.AiGateway c ++ rule_entries Surface.McpGateway c) <->
  rule_candidate inputs s metric window n.
Proof.
  rewrite list_elem_of_bind. unfold rule_candidate, rule_entries, rule_dead.
  setoid_rewrite elem_of_app. setoid_rewrite list_elem_of_fmap.
  setoid_rewrite list_elem_of_filter. setoid_rewrite orb_false_iff.
  setoid_rewrite negb_false_iff. setoid_rewrite Z.leb_gt. split.
  - intros (c & [(r & Heq & (?&?) & ?)|(r & Heq & (?&?) & ?)] & Hc); destruct s; simplify_eq/=;
      exists c, r; done.
  - intros (c & r & Hc & Hr & ? & ? & <- & <- & <-). exists c. split; [|done].
    destruct s; [left|right]; by exists r.
Qed.

Lemma elem_of_budget_entries inputs s period n :
  ((Surface.as_str s, period), n) ∈
    (inputs ≫= fun c => budget_entries Surface.AiGateway c ++ budget_entries Surface.McpGateway c) <->
  budget_candidate inputs s period n.
Proof.
  rewrite list_elem_of_bind. unfold budget_candidate, budget_entries, budget_dead.
  setoid_rewrite elem_of_app. setoid_rewrite list_elem_of_fmap.
  setoid_rewrite list_elem_of_filter. setoid_rewrite orb_false_iff.
  setoid_rewrite negb_false_iff. setoid_rewrite Z.leb_gt. split.
  - intros (c & [(r & Heq & (?&?) & ?)|(r & Heq & (?&?) & ?)] & Hc); destruct s; simplify_eq/=;
      exists c, r; done.
  - intros (c & r & Hc & Hr & ? & ? & <- & <-). exists c. split; [|done].
    destruct s; [left|right]; by exists r.
Qed.

Definition side_of (acc : SurfaceBlock * SurfaceBlock) (s : Surface.t) : SurfaceBlock :=
  match s with Surface.AiGateway => acc.1 | Surface.McpGateway => acc.2 end.

(** Whether a drained key lands on surface [s]. *)
Definition lands (s : Surface.t) (key : string) : Prop :=
  match s with
  | Surface.AiGateway => key = Surface.as_str Surface.AiGateway
  | Surface.McpGateway => key <> Surface.as_str Surface.AiGateway
  end.

Lemma drain_rules_spec l acc s :
  blk_budgets (side_of (foldl drain_rule acc l) s) = blk_budgets (side_of acc s) /\
  forall r, r ∈ blk_rules (side_of (foldl drain_rule acc l) s) <->
    r ∈ blk_rules (side_of acc s) \/
    sr_enabled r = true /\ exists key, lands s key /\
      ((key, sr_metric r, sr_window_secs r), sr_max_count r) ∈ l.
Proof.
  revert acc. induction l as [|[[[key m] w] n] l IH]; intros [ai mcp]; simpl; [set_solver|].
  case_decide as Hk; destruct (IH (push_rule {| sr_metric := m; sr_window_secs := w;
      sr_max_count := n; sr_enabled := true |} ai, mcp)) as [Hb1 Hr1];
    destruct (IH (ai, push_rule {| sr_metric := m; sr_window_secs := w;
      sr_max_count := n; sr_enabled := true |} mcp)) as [Hb2 Hr2].
  - rewrite Hb1. split; [by destruct s|]. intros r. rewrite Hr1. setoid_rewrite elem_of_cons.
    destruct s; simpl; [|naive_solver]. rewrite elem_of_app, list_elem_of_singleton.
    clear -Hk. destruct r as [? ? ? []]; simpl; naive_solver.
  - rewrite Hb2. split; [by destruct s|]. intros r. rewrite Hr2. setoid_rewrite elem_of_cons.
    destruct s; simpl; [naive_solver|]. rewrite elem_of_app, list_elem_of_singleton.
    clear -Hk. destruct r as [? ? ? []]; simpl; naive_solver.
Qed.

Lemma drain_budgets_spec l acc s :
  blk_rules (side_of (foldl drain_budget acc l) s) = blk_rules (side_of acc s) /\
  forall b, b ∈ blk_budgets (side_of (foldl drain_budget acc l) s) <->
    b ∈ blk_budgets (side_of acc s) \/
    sb_enabled b = true /\ exists key, lands s key /\ ((key, sb_period b), sb_limit_tokens b) ∈ l.
Proof.
  revert acc. induction l as [|[[key p] n] l IH]; intros [ai mcp]; simpl; [set_solver|].
  case_decide as Hk; destruct (IH (push_budget {| sb_period := p; sb_limit_tokens := n;
      sb_enabled := true |} ai, mcp)) as [Hb1 Hr1];
    destruct (IH (ai, push_budget {| sb_period := p; sb_limit_tokens := n;
      sb_enabled := true |} mcp)) as [Hb2 Hr2].
  - rewrite Hb1. split; [by destruct s|]. intros r. rewrite Hr1. setoid_rewrite elem_of_cons.
    destruct s; simpl; [|naive_solver]. rewrite elem_of_app, list_elem_of_singleton.
    clear -Hk. destruct r as [? ? []]; simpl; naive_solver.
  - rewrite Hb2. split; [by destruct s|]. intros r. rewrite Hr2. setoid_rewrite elem_of_cons.
    destruct s; simpl; [naive_solver|]. rewrite elem_of_app, list_elem_of_singleton.
    clear -Hk. destruct r as [? ? []]; simpl; naive_solver.
Qed.

Lemma block_if_any_rules b : default [] (blk_rules <$> block_if_any b) = blk_rules b.
Proof. by destruct b as [[|] [|]]. Qed.
Lemma block_if_any_budgets b : default [] (blk_budgets <$> block_if_any b) = blk_budgets b.
Proof. by destruct b as [[|] [|]]. Qed.

Lemma merged_block inputs s :
  exists acc,
    acc = foldl drain_budget (foldl drain_rule (SurfaceBlock_default, SurfaceBlock_default)
            (map_to_list (foldl merge_input (∅, ∅) inputs).1))
            (map_to_list (foldl merge_input (∅, ∅) inputs).2) /\
    block_rules (merge_most_restrictive inputs) s = blk_rules (side_of acc s) /\
    block_budgets (merge_most_restrictive inputs) s = blk_budgets (side_of acc s).
Proof.
  eexists. split; [done|]. unfold merge_most_restrictive, block_rules, block_budgets.
  destruct (foldl merge_input (∅, ∅) inputs) as [m1 m2]; simpl.
  destruct (foldl drain_budget _ _) as [ai mcp].
  destruct s; simpl; by rewrite block_if_any_rules, block_if_any_budgets.
Qed.

(** Every key of the minima is the key of one of the two surfaces. *)
Lemma rule_min_key inputs key m w n :
  (foldl merge_input (∅, ∅) inputs).1 !! (key, m, w) = Some n -> exists s, key = Surface.as_str s.
Proof.
  intros [Hin _]%(merge_inputs_ok inputs). apply list_elem_of_bind in Hin as (c & Hin & _).
  apply elem_of_app in Hin as [(r & Heq & _)%list_elem_of_fmap|(r & Heq & _)%list_elem_of_fmap];
    simplify_eq; eauto.
Qed.
Lemma budget_min_key inputs key p n :
  (foldl merge_input (∅, ∅) inputs).2 !! (key, p) = Some n -> exists s, key = Surface.as_str s.
Proof.
  intros [Hin _]%(merge_inputs_ok inputs). apply list_elem_of_bind in Hin as (c & Hin & _).
  apply elem_of_app in Hin as [(r & Heq & _)%list_elem_of_fmap|(r & Heq & _)%list_elem_of_fmap];
    simplify_eq; eauto.
Qed.

Lemma lands_key s s' : lands s (Surface.as_str s') <-> s' = s.
Proof. by destruct s, s'. Qed.

Lemma is_min_proper P Q v : (forall n, P n <-> Q n) -> is_min P v <-> is_min Q v.
Proof. unfold is_min. naive_solver. Qed.

Lemma merge_minimal inputs s :
  (forall r, r ∈ block_rules (merge_most_restrictive inputs) s <->
     sr_enabled r = true /\
     is_min (rule_candidate inputs s (sr_metric r) (sr_window_secs r)) (sr_max_count r)) /\
  (forall b, b ∈ block_budgets (merge_most_restrictive inputs) s <->
     sb_enabled b = true /\ is_min (budget_candidate inputs s (sb_period b)) (sb_limit_tokens b)).
Proof.
  destruct (merged_block inputs s) as (acc & -> & -> & ->).
  destruct (merge_inputs_ok inputs) as [Hr Hb].
  set (m := foldl merge_input (∅, ∅) inputs) in *.
  destruct (drain_budgets_spec (map_to_list m.2)
    (foldl drain_rule (SurfaceBlock_default, SurfaceBlock_default) (map_to_list m.1)) s) as [-> Hbs].
  destruct (drain_rules_spec (map_to_list m.1) (SurfaceBlock_default, SurfaceBlock_default) s)
    as [Hbe Hrs].
  split.
  - intros r. rewrite Hrs. setoid_rewrite elem_of_map_to_list.
    rewrite <- (is_min_proper _ _ _ (fun n => elem_of_rule_entries inputs s _ _ n)), <- (Hr _ _).
    split; [intros [Hin|(? & key & Hl & Hk)]|intros []; right; split; [done|]].
    + destruct s; set_solver.
    + split; [done|]. destruct (rule_min_key _ _ _ _ _ Hk) as [s' ->].
      apply lands_key in Hl as ->. done.
    + exists (Surface.as_str s). by rewrite lands_key.
  - intros b. rewrite Hbs, Hbe. setoid_rewrite elem_of_map_to_list.
    rewrite <- (is_min_proper _ _ _ (fun n => elem_of_budget_entries inputs s _ n)), <- (Hb _ _).
    split; [intros [Hin|(? & key & Hl & Hk)]|intros []; right; split; [done|]].
    + destruct s; set_solver.
    + split; [done|]. destruct (budget_min_key _ _ _ _ Hk) as [s' ->].
      apply lands_key in Hl as ->. done.
    + exists (Surface.as_str s). by rewrite lands_key.
Qed.

(** Per surface, metric and window the merged limit is the least enabled positive limit of
    the inputs, and nothing else is in the merge; likewise the budgets per period. *)
Theorem merge_most_restrictive_minimal inputs s :
  (forall r, r ∈ block_rules (merge_most_restrictive inputs) s <->
     sr_enabled r = true /\
     is_min (rule_candidate inputs s (sr_metric r) (sr_window_secs r)) (sr_max_count r)) /\
  (forall b, b ∈ block_budgets (merge_most_restrictive inputs) s <->
     sb_enabled b = true /\ is_min (budget_candidate inputs s (sb_period b)) (sb_limit_tokens b)).
Proof. apply merge_minimal. Qed.

(** ** Overrides replace what they name *)

Definition same_rule (a b : SurfaceRule) : Prop :=
  sr_metric a = sr_metric b /\ sr_window_secs a = sr_window_secs b.
Definition same_budget (a b : SurfaceBudget) : Prop := sb_period a = sb_period b.
#[export] Instance same_rule_dec a b : Decision (same_rule a b).
Proof. unfold same_rule. apply _. Defined.
#[export] Instance same_budget_dec a b : Decision (same_budget a b).
Proof. unfold same_budget. apply _. Defined.

(** Both override loops are one: drop what has the same key, push the override. *)
Section Override.
Context {A : Type} (same : A -> A -> Prop) `{!forall a b, Decision (same a b)}.

Definition replace_one (l : list A) (ov : A) : list A := filter (fun r => ~ same r ov) l ++ [ov].
Definition no_match (ovs : list A) (r : A) : Prop := Forall (fun o => ~ same r o) ovs.
#[local] Instance no_match_dec ovs r : Decision (no_match ovs r).
Proof. unfold no_match. apply _. Defined.

Lemma replace_all_split ovs l :
  foldl replace_one l ovs = filter (no_match ovs) l ++ foldl replace_one [] ovs.
Proof.
  induction ovs as [|ov ovs IH] using rev_ind.
  - simpl. rewrite app_nil_r. symmetry. apply list_filter_all. intros. constructor.
  - rewrite !foldl_app. simpl. unfold replace_one at 1 3. rewrite IH, filter_app, <- app_assoc.
    f_equal. rewrite list_filter_filter. apply list_filter_iff. intros x.
    unfold no_match. rewrite Forall_app, Forall_singleton. tauto.
Qed.

Lemma elem_of_replace_all ovs r :
  r ∈ foldl replace_one [] ovs <-> exists l1 l2, ovs = l1 ++ r :: l2 /\ no_match l2 r.
Proof.
  induction ovs as [|ov ovs IH] using rev_ind.
  { split; [set_solver|]. by intros ([] & ? & ? & _). }
  rewrite foldl_app. simpl. unfold replace_one. rewrite elem_of_app, list_elem_of_filter, IH.
  rewrite list_elem_of_singleton. split.
  - intros [(Hn & l1 & l2 & -> & Hl2)| ->].
    + exists l1, (l2 ++ [ov]). rewrite <- app_assoc. split; [done|].
      apply Forall_app. split; [done|]. by apply Forall_singleton.
    + exists ovs, []. split; [done|]. constructor.
  - intros (l1 & l2 & Heq & Hl2). destruct l2 as [|x l2 _] using rev_ind.
    + apply app_inj_tail in Heq as [-> ->]. by right.
    + left. rewrite app_comm_cons, app_assoc in Heq. apply app_inj_tail in Heq as [-> ->].
      apply Forall_app in Hl2 as [Hl2 Hx]. rewrite Forall_singleton in Hx. eauto 10.
Qed.

Lemma elem_of_replace_all_base ovs l r :
  r ∈ foldl replace_one l ovs <->
  r ∈ l /\ no_match ovs r \/ exists l1 l2, ovs = l1 ++ r :: l2 /\ no_match l2 r.
Proof.
  rewrite replace_all_split, elem_of_app, list_elem_of_filter, elem_of_replace_all. tauto.
Qed.

Lemma replace_all_idem (same_refl : forall a, same a a) ovs l :
  foldl replace_one (foldl replace_one l ovs) ovs = foldl replace_one l ovs.
Proof.
  rewrite (replace_all_split ovs (foldl replace_one l ovs)).
  rewrite (replace_all_split ovs l). rewrite filter_app, list_filter_filter. f_equal.
  assert (filter (no_match ovs) (foldl replace_one [] ovs) = []) as ->.
  { apply elem_of_nil_inv. intros r. rewrite list_elem_of_filter, elem_of_replace_all.
    intros [Hn (l1 & l2 & -> & _)]. apply Forall_app in Hn as [_ Hn].
    apply Forall_cons in Hn as [Hr _]. by destruct Hr. }
  rewrite app_nil_r. apply list_filter_iff. intros. tauto.
Qed.
End Override.

Lemma override_rule_replace rules ov : override_rule rules ov = replace_one same_rule rules ov.
Proof. unfold override_rule, replace_one, same_rule. f_equal. Qed.
Lemma override_budget_replace budgets ov :
  override_budget budgets ov = replace_one same_budget budgets ov.
Proof. done. Qed.

Lemma block_rules_overrides base ov s :
  block_rules (apply_user_overrides base ov) s =
  foldl (replace_one same_rule) (block_rules base s) (block_rules ov s).
Proof.
  unfold block_rules, apply_user_overrides, apply_block_overrides.
  destruct s; simpl; [destruct (sc_ai_gateway ov), (sc_ai_gateway base)|
    destruct (sc_mcp_gateway ov), (sc_mcp_gateway base)]; simpl; done.
Qed.
Lemma block_budgets_overrides base ov s :
  block_budgets (apply_user_overrides base ov) s =
  foldl (replace_one same_budget) (block_budgets base s) (block_budgets ov s).
Proof.
  unfold block_budgets, apply_user_overrides, apply_block_overrides.
  destruct s; simpl; [destruct (sc_ai_gateway ov), (sc_ai_gateway base)|
    destruct (sc_mcp_gateway ov), (sc_mcp_gateway base)]; simpl; done.
Qed.

(** Applying the same overrides twice is applying them once. *)
Theorem apply_user_overrides_idempotent base ov :
  apply_user_overrides (apply_user_overrides base ov) ov = apply_user_overrides base ov.
Proof.
  assert (forall t o, apply_block_overrides (apply_block_overrides t o) o
                      = apply_block_overrides t o) as Hb.
  { intros t [o|]; [|done]. unfold apply_block_overrides; simpl. do 2 f_equal.
    - apply (replace_all_idem same_rule). by split.
    - apply (replace_all_idem same_budget). done. }
  unfold apply_user_overrides. simpl. by rewrite !Hb.
Qed.

(** ** Side tables *)

Section SideSpec.
Context {U : Type}.
Implicit Types (rules : list (RateLimitRule U)) (caps : list (BudgetCap U)).

Definition row_rule (r : RateLimitRule U) : SurfaceRule :=
  {| sr_metric := rr_metric r; sr_window_secs := rr_window_secs r;
     sr_max_count := rr_max_count r; sr_enabled := true |}.
Definition row_budget (c : BudgetCap U) : SurfaceBudget :=
  {| sb_period := bc_period c; sb_limit_tokens := bc_limit_tokens c; sb_enabled := true |}.

Lemma side_rule_block out r s :
  block_rules (side_rule out r) s =
    block_rules out s ++ (if decide (rr_enabled r = true /\ rr_surface r = s) then [row_rule r] else []) /\
  block_budgets (side_rule out r) s = block_budgets out s.
Proof.
  unfold side_rule, block_rules, block_budgets.
  destruct (rr_enabled r); cbn [negb]; [|by rewrite app_nil_r].
  rewrite block_block_mut. destruct (decide (s = rr_surface r)) as [->|Hs].
  - rewrite decide_True by done. by destruct (block out (rr_surface r)).
  - rewrite decide_False by naive_solver. by rewrite app_nil_r.
Qed.

Lemma side_cap_block out c s :
  block_rules (side_cap out c) s = block_rules out s /\
  block_budgets (side_cap out c) s =
    block_budgets out s ++ (if bc_enabled c then [row_budget c] else []).
Proof.
  unfold side_cap, block_rules, block_budgets.
  destruct (bc_enabled c); simpl; [|by rewrite app_nil_r].
  destruct s, out as [[]  []]; simpl; done.
Qed.

Lemma side_caps_block caps out s :
  block_rules (foldl side_cap out caps) s = block_rules out s /\
  block_budgets (foldl side_cap out caps) s =
    block_budgets out s ++ (row_budget <$> filter (fun c => bc_enabled c = true) caps).
Proof.
  revert out. induction caps as [|c caps IH]; intros out; simpl; [by rewrite app_nil_r|].
  destruct (IH (side_cap out c)) as [-> ->], (side_cap_block out c s) as [-> ->].
  split; [done|]. rewrite <- app_assoc. f_equal. destruct (bc_enabled c) eqn:He.
  - by rewrite filter_cons_True.
  - by rewrite filter_cons_False by congruence.
Qed.

Lemma side_rules_block rules out s :
  block_rules (foldl side_rule out rules) s =
    block_rules out s ++
    (row_rule <$> filter (fun r => rr_enabled r = true /\ rr_surface r = s) rules) /\
  block_budgets (foldl side_rule out rules) s = block_budgets out s.
Proof.
  revert out. induction rules as [|r rules IH]; intros out; simpl; [by rewrite app_nil_r|].
  destruct (IH (side_rule out r)) as [-> ->], (side_rule_block out r s) as [-> ->].
  split; [|done]. rewrite <- app_assoc. f_equal. rewrite filter_cons. by case_decide.
Qed.

Lemma side_table_block rules caps s :
  block_rules (side_table_as_constraints rules caps) s =
    row_rule <$> filter (fun r => rr_enabled r = true /\ rr_surface r = s) rules /\
  block_budgets (side_table_as_constraints rules caps) s =
    row_budget <$> filter (fun c => bc_enabled c = true) caps.
Proof.
  unfold side_table_as_constraints.
  destruct (side_caps_block caps (foldl side_rule SurfaceConstraints_default rules) s) as [-> ->].
  destruct (side_rules_block rules SurfaceConstraints_default s) as [-> ->]. by destruct s.
Qed.

Lemma no_match_singles {A B} (same : A -> A -> Prop) (f : B -> A) l x :
  no_match same (f <$> l) x <-> forall y, y ∈ l -> ~ same x (f y).
Proof. unfold no_match. rewrite Forall_fmap, Forall_forall. done. Qed.

Abbreviation row_key := (fun r : RateLimitRule U => (rr_surface r, rr_metric r, rr_window_secs r)).
Abbreviation active_on s := (fun r : RateLimitRule U => rr_enabled r = true /\ rr_surface r = s).

(** With one row per key, an active row is the last override of its key. *)
Lemma row_is_last rules s row :
  NoDup (row_key <$> rules) -> row ∈ rules -> rr_enabled row = true -> rr_surface row = s ->
  exists l1 l2, row_rule <$> filter (active_on s) rules = l1 ++ row_rule row :: l2 /\
    no_match same_rule l2 (row_rule row).
Proof.
  intros Hnd Hin He Hs. destruct (NoDup_fmap_split _ _ _ Hnd Hin) as (l1 & l2 & -> & Hl2).
  exists (row_rule <$> filter (active_on s) l1), (row_rule <$> filter (active_on s) l2). split.
  - by rewrite filter_app, filter_cons_True, fmap_app, fmap_cons by done.
  - apply no_match_singles. intros y [[_ Hys] Hy]%list_elem_of_filter [Hm Hw]. simpl in *.
    apply (Hl2 y Hy). congruence.
Qed.

(** A rule of the side table's block comes from an active row. *)
Lemma elem_of_side_rules rules s r :
  r ∈ row_rule <$> filter (active_on s) rules <->
  exists row, row ∈ rules /\ rr_enabled row = true /\ rr_surface row = s /\ r = row_rule row.
Proof.
  rewrite list_elem_of_fmap. setoid_rewrite list_elem_of_filter. naive_solver.
Qed.

Lemma override_or_min roles rules caps s metric window n :
  NoDup ((fun r => (rr_surface r, rr_metric r, rr_window_secs r)) <$> rules) ->
  let effective := apply_user_overrides (merge_most_restrictive roles)
                     (side_table_as_constraints rules caps) in
  {| sr_metric := metric; sr_window_secs := window; sr_max_count := n; sr_enabled := true |}
    ∈ block_rules effective s <->
  match list_find (fun r => rr_enabled r = true /\ rr_surface r = s /\
                            rr_metric r = metric /\ rr_window_secs r = window) rules with
  | Some (_, row) => n = rr_max_count row
  | None => is_min (rule_candidate roles s metric window) n
  end.
Proof.
  intros Hnd effective. unfold effective. rewrite block_rules_overrides.
  destruct (side_table_block rules caps s) as [-> _].
  rewrite elem_of_replace_all_base, no_match_singles.
  destruct (merge_minimal roles s) as [Hmin _]. rewrite Hmin. simpl.
  set (r := {| sr_metric := metric; sr_window_secs := window; sr_max_count := n; sr_enabled := true |}).
  assert (forall l1 l2, row_rule <$> filter (active_on s) rules = l1 ++ r :: l2 ->
    exists row, row ∈ rules /\ rr_enabled row = true /\ rr_surface row = s /\ r = row_rule row) as Hrow.
  { intros l1 l2 Heq. apply elem_of_side_rules. rewrite Heq. set_solver. }
  destruct (list_find _ rules) as [[i row]|] eqn:Hf.
  - apply list_find_Some in Hf as (Hi%list_elem_of_lookup_2 & (He & Hs & Hm & Hw) & _). split.
    + intros [[_ Hno]|(l1 & l2 & (y & Hy & _ & Hys & Hyr)%Hrow & _)].
      * destruct (Hno row); [by apply list_elem_of_filter|by split].
      * unfold row_rule, r in Hyr. simplify_eq.
        f_equal. eapply (NoDup_fmap_elem _ _ _ _ Hnd); [done|done|congruence].
    + intros ->. right. replace r with (row_rule row) by (unfold row_rule, r; congruence).
      by eapply row_is_last.
  - apply list_find_None in Hf. rewrite Forall_forall in Hf. split.
    + intros [[[_ Hc] _]|(l1 & l2 & (y & Hy & Hye & Hys & Hyr)%Hrow & _)]; [done|].
      unfold row_rule, r in Hyr. simplify_eq. by destruct (Hf y).
    + intros Hc. left. split; [done|]. intros y [[He Hs] Hy]%list_elem_of_filter [Hm Hw].
      by destruct (Hf y).
Qed.

(** The limit in force for a surface, metric and window.  With an enabled side-table row
    for it (the table has one row per key), that row's count, whether it tightens or
    relaxes the roles; with none, the least of what the roles set. *)
Theorem effective_limit roles rules caps s metric window n :
  NoDup ((fun r => (rr_surface r, rr_metric r, rr_window_secs r)) <$> rules) ->
  let effective := apply_user_overrides (merge_most_restrictive roles)
                     (side_table_as_constraints rules caps) in
  {| sr_metric := metric; sr_window_secs := window; sr_max_count := n; sr_enabled := true |}
    ∈ block_rules effective s <->
  match list_find (fun r => rr_enabled r = true /\ rr_surface r = s /\
                            rr_metric r = metric /\ rr_window_secs r = window) rules with
  | Some (_, row) => n = rr_max_count row
  | None => is_min (rule_candidate roles s metric window) n
  end.
Proof. apply override_or_min. Qed.
End SideSpec.

(** ** One request's limits *)

Section RequestSpec.
Context {U : Type} `{Uuid U}.
Implicit Types (user kc : SurfaceConstraints).

Definition tagged_rules (surface : Surface.t) (kind : RateLimitSubject.t) (id : U)
    (c : SurfaceConstraints) : list (RateLimitRule U) :=
  to_rule surface kind id <$> filter (fun r => sr_enabled r = true) (block_rules c surface).
Definition tagged_caps (surface : Surface.t) (kind : RateLimitSubject.t) (id : U)
    (c : SurfaceConstraints) : list (BudgetCap U) :=
  to_cap (budget_kind kind) id <$> filter (fun b => sb_enabled b = true) (block_budgets c surface).

Lemma rq_add_lists surface kind id c out :
  rq_rules (rq_add surface kind id c out) = rq_rules out ++ tagged_rules surface kind id c /\
  rq_caps (rq_add surface kind id c out) = rq_caps out ++ tagged_caps surface kind id c.
Proof.
  unfold rq_add, tagged_rules, tagged_caps, block_rules, block_budgets.
  destruct (block c surface); simpl; [done|]. by rewrite !app_nil_r.
Qed.

Lemma for_request_lists surface owner user key :
  rq_rules (for_request surface owner user key) =
    tagged_rules surface RateLimitSubject.User owner user ++
    match key with
    | Some (lineage, c) => tagged_rules surface RateLimitSubject.ApiKeyLineage lineage c
    | None => []
    end /\
  rq_caps (for_request surface owner user key) =
    tagged_caps surface RateLimitSubject.User owner user ++
    match key with
    | Some (lineage, c) => tagged_caps surface RateLimitSubject.ApiKeyLineage lineage c
    | None => []
    end.
Proof.
  assert (forall kind id c out, rq_rules (rq_add surface kind id c out) = _) as Hr
    by (intros; apply rq_add_lists).
  assert (forall kind id c out, rq_caps (rq_add surface kind id c out) = _) as Hc
    by (intros; apply rq_add_lists).
  unfold for_request. destruct key as [[lineage c]|]; rewrite ?Hr, ?Hc; simpl; [done|].
  by rewrite !app_nil_r.
Qed.

(** A key's limits narrow its owner's and never widen them: every rule and cap the owner
    is held to stays, on the owner's counters, whatever the key sets; what the key adds is on
    the key lineage's own counters; and no rule or cap comes from elsewhere. *)
Theorem key_limits_only_narrow surface owner user key :
  let plain := for_request surface owner user None in
  let r := for_request surface owner user key in
  rq_rules plain `prefix_of` rq_rules r /\ rq_caps plain `prefix_of` rq_caps r /\
  rq_key_lineage r = fst <$> key /\
  (forall x, x ∈ rq_rules r -> x ∉ rq_rules plain ->
     exists lineage, rq_key_lineage r = Some lineage /\ rr_subject_id x = lineage /\
       rr_subject_kind x = RateLimitSubject.ApiKeyLineage) /\
  (forall x, x ∈ rq_rules plain ->
     rr_subject_id x = owner /\ rr_subject_kind x = RateLimitSubject.User /\ rr_surface x = surface).
Proof.
  intros plain r.
  destruct (for_request_lists surface owner user key) as [Hr Hc].
  destruct (for_request_lists surface owner user None) as [Hp Hpc].
  rewrite app_nil_r in Hp, Hpc. fold plain in Hp, Hpc. fold r in Hr, Hc.
  rewrite Hr, Hc, Hp, Hpc. split_and!; [by apply prefix_app_r|by apply prefix_app_r| | |].
  - unfold r, for_request, rq_add. destruct key as [[lineage c]|]; simpl;
      [destruct (block c surface)|]; by destruct (block user surface).
  - intros x [?|Hx]%elem_of_app Hn; [done|].
    destruct key as [[lineage c]|]; [|set_solver].
    apply list_elem_of_fmap in Hx as (y & -> & _). exists lineage. split; [|done].
    unfold r, for_request, rq_add. by destruct (block c surface), (block user surface).
  - intros x (y & -> & _)%list_elem_of_fmap. done.
Qed.
End RequestSpec.

(** ** Validated payloads are well formed *)

Lemma validate_block_ok name b : validate_block name b = Ok tt <-> block_ok b.
Proof.
  unfold validate_block, block_ok.
  set (f := fun (i : nat) r => _). set (g := fun (i : nat) x => _).
  assert (forall i r, f i r = Ok tt <-> rule_ok r) as Hf.
  { intros i r. unfold f, rule_ok. destruct (is_allowed_window _); simpl; [|naive_solver].
    destruct (sr_max_count r <=? 0) eqn:E; zbool; naive_solver lia. }
  assert (forall i x, g i x = Ok tt <-> budget_ok x) as Hg.
  { intros i x. unfold g, budget_ok. destruct (sb_limit_tokens x <=? 0) eqn:E; zbool; naive_solver lia. }
  rewrite (Forall_lookup rule_ok), (Forall_lookup budget_ok).
  destruct (try_enumerate f (blk_rules b)) as [[]|e] eqn:Hr.
  - rewrite (try_each_from_ok f) in Hr. rewrite (try_each_from_ok g). simpl in *.
    setoid_rewrite Hg. split; [|naive_solver]. intros Hb. split; [|done].
    intros i x Hi. by eapply Hf, Hr.
  - split; [done|]. intros [Hall _]. exfalso.
    enough (try_enumerate f (blk_rules b) = Ok tt) by congruence.
    apply try_each_from_ok. intros j x Hj. apply Hf. eauto.
Qed.

(** A payload is accepted exactly when it is an object that decodes to blocks whose rules
    have an allowed window and a positive count and whose budgets are positive. *)
Theorem validate_surface_constraints_correct `{JsonValue V}
    (decode : V -> result string SurfaceConstraints) value c :
  validate_surface_constraints decode value = Ok c <->
  json_is_object value = true /\ decode value = Ok c /\
  forall s b, block c s = Some b -> block_ok b.
Proof.
  unfold validate_surface_constraints.
  destruct (json_is_object value); simpl; [|naive_solver].
  destruct (decode value) as [c'|e]; [|naive_solver].
  assert ((forall s b, block c' s = Some b -> block_ok b) <->
    match match sc_ai_gateway c' with None => Ok tt | Some b => validate_block "ai_gateway" b end,
          match sc_mcp_gateway c' with None => Ok tt | Some b => validate_block "mcp_gateway" b end
    with Ok _, Ok _ => True | _, _ => False end) as Hb.
  { pose proof (validate_block_ok "ai_gateway") as H1. pose proof (validate_block_ok "mcp_gateway") as H2.
    split.
    - intros Hall. pose proof (Hall Surface.AiGateway) as Ha. pose proof (Hall Surface.McpGateway) as Hm.
      simpl in *. destruct (sc_ai_gateway c'), (sc_mcp_gateway c');
        rewrite ?(proj2 (H1 _)), ?(proj2 (H2 _)); auto.
    - intros Hall s b Hs. destruct s; simpl in Hs; rewrite Hs in Hall.
      + apply H1. destruct (validate_block "ai_gateway" b) as [[]|]; done.
      + apply H2. by destruct (match sc_ai_gateway c' with None => _ | Some b => _ end),
          (validate_block "mcp_gateway" b) as [[]|]. }
  split.
  - intros Hok. assert (c' = c) as ->.
    { destruct (match sc_ai_gateway c' with None => _ | Some b => _ end); [|done].
      destruct (match sc_mcp_gateway c' with None => _ | Some b => _ end); [|done]. congruence. }
    split_and!; [done|done|]. apply Hb. simpl in Hok.
    destruct (match sc_ai_gateway c with None => _ | Some b => _ end); [|done].
    by destruct (match sc_mcp_gateway c with None => _ | Some b => _ end).
  - intros (_ & [= ->] & Hall%Hb).
    destruct (match sc_ai_gateway c with None => _ | Some b => _ end); [|done].
    by destruct (match sc_mcp_gateway c with None => _ | Some b => _ end).
Qed.

(** ** Witnesses *)

Definition demo_rule n : SurfaceRule :=
  {| sr_metric := RateMetric.Requests; sr_window_secs := 60; sr_max_count := n; sr_enabled := true |}.
Definition demo_role n : SurfaceConstraints :=
  {| sc_ai_gateway := Some {| blk_rules := [demo_rule n]; blk_budgets := [] |};
     sc_mcp_gateway := None |}.
Definition demo_row : RateLimitRule demo_uuid :=
  {| rr_id := UNil; rr_subject_kind := RateLimitSubject.User; rr_subject_id := UAlice;
     rr_surface := Surface.AiGateway; rr_metric := RateMetric.Requests; rr_window_secs := 60;
     rr_max_count := 500; rr_enabled := true; rr_expires_at := None; rr_reason := None;
     rr_created_by := None |}.

Lemma effective_limit_witness :
  demo_rule 500 ∈ block_rules (apply_user_overrides (merge_most_restrictive [demo_role 100; demo_role 200])
    (side_table_as_constraints [demo_row] [])) Surface.AiGateway.
Proof.
  apply (effective_limit [demo_role 100; demo_role 200] [demo_row] [] Surface.AiGateway
           RateMetric.Requests 60 500); [by apply NoDup_singleton|reflexivity].
Defined.

Example demo_merge :
  block_rules (merge_most_restrictive [demo_role 100; demo_role 200]) Surface.AiGateway = [demo_rule 100].
Proof. vm_compute. reflexivity. Qed.
