(* ===== verification/Sliding.v ===== *)
(** * The bucketed sliding-window rate limiter

    [crates/common/src/limits/sliding.rs]: the two Lua scripts ([LUA_ADMIT], [LUA_RECORD])
    over a Redis store, the counters and replies around them, and what a refusal promises.
    Lua numbers are doubles; every number the scripts handle (times, counts, limits up to
    2^53) is an integer they hold exactly, so they are [Z] here.  The loop that looks for the
    bucket whose leaving frees the window has fuel 60, one per bucket of a window. *)

From S2P Require Import Prelude Interfaces LimitTypes.

Definition BUCKETS_PER_WINDOW : Z := 60.
(** Rust's [/] on [i32] truncates. *)
Definition bucket_secs (window_secs : Z) : Z := Z.quot window_secs BUCKETS_PER_WINDOW.

Record Counter := {
  ct_key : string;
  ct_bucket_secs : Z;
  ct_max_count : Z;
  ct_charge : Z;
}.

(** ** The scripts *)

Section Scripts.
Context {St : Type} `{Redis St}.

(** What the loop over a hash's fields gathers. *)
Record scan := { scn_counts : gmap Z Z; scn_stale : list string; scn_sum : Z }.
Definition scan_init : scan := {| scn_counts := ∅; scn_stale := []; scn_sum := 0 |}.

Definition scan_field (oldest current : Z) (acc : scan) (p : string * string) : scan :=
  let stale := {| scn_counts := scn_counts acc; scn_stale := scn_stale acc ++ [p.1];
                  scn_sum := scn_sum acc |} in
  match tonumber p.1 with
  | None => stale
  | Some b =>
      if b <? oldest then stale
      else if b <=? current then
        let v := default 0 (tonumber p.2) in
        {| scn_counts := <[b := v]> (scn_counts acc); scn_stale := scn_stale acc;
           scn_sum := scn_sum acc + v |}
      else acc
  end.

(** [while b < current do freed = freed + (counts[b] or 0); if freed >= need then break end; b = b + 1 end] *)
Fixpoint free_loop (fuel : nat) (counts : gmap Z Z) (need current freed b : Z) : Z :=
  match fuel with
  | O => b
  | S fuel =>
      if b <? current then
        let freed := freed + default 0 (counts !! b) in
        if need <=? freed then b else free_loop fuel counts need current freed (b + 1)
      else b
  end.

Record admit_acc := {
  aa_store : St;
  aa_sums : list Z;
  aa_limiting : Z;
  aa_wait_ms : Z;
}.

(** One pass of the first loop: read counter [i] (1-based), prune it, see if it is full. *)
Definition admit_read (now_ms : Z) (acc : admit_acc) (ic : nat * Counter) : admit_acc :=
  let '(i, c) := ic in
  let now_secs := now_ms / 1000 in
  let current := now_secs / ct_bucket_secs c in
  let oldest := current - 59 in
  let sc := foldl (scan_field oldest current) scan_init (hgetall (ct_key c) (aa_store acc)) in
  let store := if decide (scn_stale sc = []) then aa_store acc
               else hdel (ct_key c) (scn_stale sc) (aa_store acc) in
  let sum := scn_sum sc in
  let sums := aa_sums acc ++ [sum] in
  if ct_max_count c <=? sum then
    let need := sum - ct_max_count c + 1 in
    let b := free_loop 60 (scn_counts sc) need current 0 oldest in
    let w := (b + 60) * ct_bucket_secs c * 1000 - now_ms in
    if aa_wait_ms acc <? w then
      {| aa_store := store; aa_sums := sums; aa_limiting := Z.of_nat i + 1; aa_wait_ms := w |}
    else {| aa_store := store; aa_sums := sums; aa_limiting := aa_limiting acc;
            aa_wait_ms := aa_wait_ms acc |}
  else {| aa_store := store; aa_sums := sums; aa_limiting := aa_limiting acc;
          aa_wait_ms := aa_wait_ms acc |}.

(** The charging loop; [None] when [HINCRBY] raises, which ends the script where it is. *)
Fixpoint charge_loop (now_ms : Z) (cs : list Counter) (sums : list Z) (s : St)
    : St * option (list Z) :=
  match cs, sums with
  | c :: cs, sum :: sums =>
      if 0 <? ct_charge c then
        match hincrby (ct_key c) (tostring (now_ms / 1000 / ct_bucket_secs c)) (ct_charge c) s with
        | None => (s, None)
        | Some s =>
            let s := expire (ct_key c) (ct_bucket_secs c * 120) s in
            let '(s, r) := charge_loop now_ms cs sums s in
            (s, cons (sum + ct_charge c) <$> r)
        end
      else let '(s, r) := charge_loop now_ms cs sums s in (s, cons sum <$> r)
  | _, _ => (s, Some [])
  end.

Definition lua_admit (now_ms : Z) (cs : list Counter) (s : St) : St * option (list Z) :=
  let acc := foldl (admit_read now_ms)
    {| aa_store := s; aa_sums := []; aa_limiting := 0; aa_wait_ms := 0 |} (imap pair cs) in
  if 0 <? aa_limiting acc then
    (aa_store acc, Some ([0; aa_limiting acc; aa_wait_ms acc] ++ aa_sums acc))
  else
    let '(s, r) := charge_loop now_ms cs (aa_sums acc) (aa_store acc) in
    (s, app [1; 0; 0] <$> r).

Fixpoint lua_record (now_ms amount : Z) (cs : list (string * Z)) (s : St) : St * option unit :=
  match cs with
  | [] => (s, Some tt)
  | (k, bucket_secs) :: cs =>
      match hincrby k (tostring (now_ms / 1000 / bucket_secs)) amount s with
      | None => (s, None)
      | Some s => lua_record now_ms amount cs (expire k (bucket_secs * 120) s)
      end
  end.
End Scripts.

(** ** Keys and labels *)

Section Keys.
Context {U : Type} `{Uuid U}.

Definition rate_label (rule : RateLimitRule U) : string :=
  let window := match secs_to_window (rr_window_secs rule) with
                | Some w => w
                | None => pretty (rr_window_secs rule) +:+ "s"
                end in
  RateLimitSubject.as_str (rr_subject_kind rule) +:+ ":" +:+
  RateMetric.as_str (rr_metric rule) +:+ "/" +:+ window.

Definition hash_tag (owner : U) : string := "{user:" +:+ uuid_str owner +:+ "}".

Definition counter_key (owner : U) (surface : Surface.t) (kind : RateLimitSubject.t)
    (subject_id : U) (metric : RateMetric.t) (window_secs : Z) : string :=
  "ratelimit:" +:+ hash_tag owner +:+ ":" +:+ Surface.as_str surface +:+ ":" +:+
  RateLimitSubject.as_str kind +:+ ":" +:+ uuid_str subject_id +:+ ":" +:+
  RateMetric.as_str metric +:+ ":" +:+ pretty window_secs.

Record ResolvedRule := {
  rsv_id : U;
  rsv_key : string;
  rsv_bucket_secs : Z;
  rsv_max_count : Z;
}.

Definition ResolvedRule_new (rule : RateLimitRule U) (owner : U) : ResolvedRule :=
  {| rsv_id := rr_id rule;
     rsv_key := counter_key owner (rr_surface rule) (rr_subject_kind rule) (rr_subject_id rule)
                  (rr_metric rule) (rr_window_secs rule);
     rsv_bucket_secs := bucket_secs (rr_window_secs rule);
     rsv_max_count := rr_max_count rule |}.

Definition rule_counter (owner : U) (rule : RateLimitRule U) : Counter :=
  let r := ResolvedRule_new rule owner in
  {| ct_key := rsv_key r; ct_bucket_secs := rsv_bucket_secs r; ct_max_count := rsv_max_count r;
     ct_charge := match rr_metric rule with RateMetric.Requests => 1 | RateMetric.Tokens => 0 end |}.
End Keys.

(** ** Admit and record *)

Record CheckOutcome := {
  co_allowed : bool;
  co_exceeded_index : option nat;
  co_retry_after_secs : Z;
  co_currents : list Z;
}.

Definition CheckOutcome_open : CheckOutcome :=
  {| co_allowed := true; co_exceeded_index := None; co_retry_after_secs := 0; co_currents := [] |}.

Definition retry_after_secs (wait_ms : Z) : Z :=
  Z.max (div_ceil (wrap_u64 (Z.max wait_ms 0)) 1000) 1.

Definition parse_admit_reply (reply : list Z) : CheckOutcome :=
  let allowed := default 1 (reply !! 0%nat) =? 1 in
  let limiting := default 0 (reply !! 1%nat) in
  let wait_ms := Z.max (default 0 (reply !! 2%nat)) 0 in
  {| co_allowed := allowed;
     co_exceeded_index :=
       if negb allowed && (1 <=? limiting) then Some (Z.to_nat (limiting - 1)) else None;
     co_retry_after_secs := if allowed then 0 else retry_after_secs wait_ms;
     co_currents := drop 3 reply |}.

(** How a call to Redis ends: it runs and its reply comes back; it never reaches the server;
    or it runs and the reply is lost. *)
Inductive link := LinkOk | LinkDown | ReplyLost.
#[export] Instance link_eq_dec : EqDecision link.
Proof. solve_decision. Defined.

(** A [fred] error: a script that raised, or a connection that failed. *)
Inductive redis_error := ScriptRaised | ConnectionFailed.

Section Api.
Context {St : Type} `{Redis St}.

Definition run_script {A} (l : link) (script : St -> St * option A) (s : St)
    : St * result redis_error A :=
  match l with
  | LinkDown => (s, Err ConnectionFailed)
  | ReplyLost => ((script s).1, Err ConnectionFailed)
  | LinkOk => let '(s, r) := script s in (s, ok_or r ScriptRaised)
  end.

Definition admit_counters_at (l : link) (cs : list Counter) (now_ms : Z) (s : St)
    : St * result redis_error CheckOutcome :=
  match cs with
  | [] => (s, Ok CheckOutcome_open)
  | _ =>
      let '(s, r) := run_script l (lua_admit now_ms cs) s in
      (s, parse_admit_reply <$> r)
  end.

Definition record_counters_at (l : link) (cs : list (string * Z)) (amount now_ms : Z) (s : St)
    : St * result redis_error unit :=
  if bool_decide (cs = []) || (amount <=? 0) then (s, Ok tt)
  else run_script l (lua_record now_ms amount cs) s.

Context {U : Type} `{Uuid U}.

Definition admit_at (l : link) (rules : list (RateLimitRule U)) (owner : U) (now_ms : Z)
    (fail_open : bool) (s : St) : St * result redis_error CheckOutcome :=
  let '(s, r) := admit_counters_at l (rule_counter owner <$> rules) now_ms s in
  (s, match r with
      | Ok outcome => Ok outcome
      | Err e => if fail_open then Ok CheckOutcome_open else Err e
      end).

Definition record_at (l : link) (rules : list (RateLimitRule U)) (owner : U)
    (metric : RateMetric.t) (amount now_ms : Z) (s : St) : St * result redis_error unit :=
  let counters := (fun r => let r := ResolvedRule_new r owner in (rsv_key r, rsv_bucket_secs r)) <$>
                    filter (fun r => rr_metric r = metric) rules in
  record_counters_at l counters amount now_ms s.

(** The sum over [HashMap<String, i64>] as [hgetall] gives it; a field that is not a number is
    skipped. *)
Definition window_sum (buckets : list (string * Z)) (now_secs bucket_secs : Z) : Z :=
  if bucket_secs <=? 0 then 0
  else
    let current := now_secs / bucket_secs in
    let oldest := current - (BUCKETS_PER_WINDOW - 1) in
    foldr Z.add 0
      ((filter (fun p : Z * Z => oldest <= p.1 <= current)
         (omap (fun p : string * Z => (fun b => (b, p.2)) <$> tonumber p.1) buckets)).*2).

(** Converting the reply fails when a value is not an integer: [None]. *)
Definition read_count (k : string) (bucket_secs now_secs : Z) (s : St) : option Z :=
  buckets ← mapM (fun p : string * string => (fun v => (p.1, v)) <$> tonumber p.2) (hgetall k s);
  Some (window_sum buckets now_secs bucket_secs).
End Api.
