(* ===== verification/SlidingSpec.v ===== *)
(** * What the sliding-window limiter promises

    The abstract view of a counter is a function from bucket ids to counts; the window of a
    time is the sum of 60 consecutive buckets.  The scripts of [Sliding] are shown to compute
    and update that view: a request is refused exactly when some window is full, a refusal
    charges nothing, its wait is the first moment the request would be let through, and no
    run of requests overfills a window. *)
From S2P Require Import Prelude Interfaces LimitTypes Constraints Sliding.

(** ** Sums over consecutive buckets *)

Fixpoint range_sum (f : Z -> Z) (lo : Z) (n : nat) : Z :=
  match n with O => 0 | S n => f lo + range_sum f (lo + 1) n end.

Lemma range_sum_ext f g lo n :
  (forall b, lo <= b < lo + Z.of_nat n -> f b = g b) -> range_sum f lo n = range_sum g lo n.
Proof.
  revert lo. induction n as [|n IH]; intros lo Hfg; simpl; [done|].
  rewrite Hfg, (IH (lo + 1)) by (intros; try apply Hfg; lia). done.
Qed.

Lemma range_sum_app f lo n m :
  range_sum f lo (n + m) = range_sum f lo n + range_sum f (lo + Z.of_nat n) m.
Proof.
  revert lo. induction n as [|n IH]; intros lo; simpl.
  - by rewrite Z.add_0_r.
  - rewrite IH. replace (lo + 1 + Z.of_nat n) with (lo + Z.of_nat (S n)) by lia. lia.
Qed.

Lemma range_sum_nonneg f lo n : (forall b, 0 <= f b) -> 0 <= range_sum f lo n.
Proof. intros Hf. revert lo. induction n; intros lo; simpl; [lia|]. specialize (Hf lo). specialize (IHn (lo + 1)). lia. Qed.

Lemma range_sum_zero f lo n :
  (forall b, lo <= b < lo + Z.of_nat n -> f b = 0) -> range_sum f lo n = 0.
Proof.
  revert lo. induction n as [|n IH]; intros lo Hf; simpl; [done|].
  rewrite Hf, IH by (intros; try apply Hf; lia). done.
Qed.

Lemma range_sum_point f g lo n b0 x :
  (forall b, f b = g b + if decide (b = b0) then x else 0) ->
  range_sum f lo n = range_sum g lo n + if decide (lo <= b0 < lo + Z.of_nat n) then x else 0.
Proof.
  intros Hfg. revert lo. induction n as [|n IH]; intros lo; simpl.
  { rewrite decide_False by lia. lia. }
  rewrite IH, Hfg. repeat case_decide; lia.
Qed.

(** The part of a range that starts at [lo'], for a function that is 0 above [hi]. *)
Lemma range_sum_suffix f lo n lo' n' :
  (forall b, 0 <= f b) -> lo <= lo' ->
  (forall b, lo + Z.of_nat n <= b -> f b = 0) ->
  range_sum f lo' n' <= range_sum f lo n.
Proof.
  intros Hpos Hle Hz.
  set (k := Z.to_nat (lo' - lo)).
  assert (range_sum f lo' n' <= range_sum f lo (k + n')) as Hk.
  { rewrite range_sum_app. replace (lo + Z.of_nat k) with lo' by lia.
    pose proof (range_sum_nonneg f lo k Hpos). lia. }
  destruct (decide (k + n' <= n)%nat).
  - replace n with (k + n' + (n - (k + n')))%nat by lia. rewrite range_sum_app.
    pose proof (range_sum_nonneg f (lo + Z.of_nat (k + n')) (n - (k + n')) Hpos). lia.
  - replace (k + n')%nat with (n + (k + n' - n))%nat in Hk by lia. rewrite range_sum_app in Hk.
    rewrite (range_sum_zero f (lo + Z.of_nat n)) in Hk by (intros; apply Hz; lia). lia.
Qed.

Lemma range_sum_0 f lo : range_sum f lo 0 = 0.
Proof. done. Qed.
Lemma range_sum_S f lo n : range_sum f lo (S n) = f lo + range_sum f (lo + 1) n.
Proof. done. Qed.

#[global] Arguments range_sum : simpl never.

(** ** The counter a hash stands for *)

Section Counters.
Context {St : Type} `{RL : RedisLaws St}.
Implicit Types (s : St) (k f v : string) (b n : Z).

Lemma tostring_inj a b : tostring (St := St) a = tostring b -> a = b.
Proof.
  intros Heq. apply (f_equal (tonumber (St := St))) in Heq.
  rewrite !tonumber_tostring in Heq. congruence.
Qed.

(** A counter's hash holds bucket ids and counts, as the scripts write them. *)
Definition counter_ok k s : Prop :=
  forall f v, hget k f s = Some v -> exists b n, f = tostring b /\ v = tostring n /\ 0 <= n.

Definition bucket k s b : Z :=
  match hget k (tostring b) s with Some v => default 0 (tonumber (St := St) v) | None => 0 end.

Lemma bucket_nonneg k s b : counter_ok k s -> 0 <= bucket k s b.
Proof.
  intros Hok. unfold bucket. destruct (hget k (tostring b) s) as [v|] eqn:Hv; [|lia].
  destruct (Hok _ _ Hv) as (? & n & _ & -> & ?). by rewrite tonumber_tostring.
Qed.

Lemma bucket_holds_int k s b : counter_ok k s -> holds_int k (tostring b) s (bucket k s b).
Proof.
  intros Hok. unfold holds_int, bucket. destruct (hget k (tostring b) s) as [v|] eqn:Hv; [right|auto].
  destruct (Hok _ _ Hv) as (? & n & _ & -> & ?). by rewrite tonumber_tostring.
Qed.

(** *** Reading a hash *)

Definition canonical (p : string * string) : Prop :=
  exists b n, p = (tostring (St := St) b, tostring (St := St) n).

Definition assoc (l : list (string * string)) f : option string :=
  (fun p => p.2.2) <$> list_find (fun p => p.1 = f) l.
Definition lbucket (l : list (string * string)) b : Z :=
  match assoc l (tostring (St := St) b) with
  | Some v => default 0 (tonumber (St := St) v)
  | None => 0
  end.

Lemma assoc_cons f0 v l f : assoc ((f0, v) :: l) f = if decide (f0 = f) then Some v else assoc l f.
Proof.
  unfold assoc. simpl. case_decide; [done|].
  by destruct (list_find (fun p => p.1 = f) l) as [[? []]|].
Qed.

Lemma assoc_None l f : f ∉ l.*1 -> assoc l f = None.
Proof.
  induction l as [|[f0 v] l IH]; [done|]. intros Hf. rewrite assoc_cons.
  rewrite decide_False, IH by set_solver. done.
Qed.

Lemma elem_of_assoc l f v : NoDup l.*1 -> (f, v) ∈ l <-> assoc l f = Some v.
Proof.
  induction l as [|[f0 v0] l IH]; [set_solver|]. intros [Hn Hnd]%NoDup_cons. simpl in Hn.
  rewrite elem_of_cons, IH, assoc_cons by done. case_decide; subst; [|naive_solver].
  rewrite (assoc_None l f) by done. naive_solver.
Qed.

Lemma elem_of_hgetall k f v s : (f, v) ∈ hgetall k s <-> hget k f s = Some v.
Proof. apply elem_of_assoc, hgetall_nodup. Qed.

Lemma lbucket_cons b0 n l b :
  tostring (St := St) b0 ∉ l.*1 ->
  lbucket ((tostring (St := St) b0, tostring (St := St) n) :: l) b =
  lbucket l b + if decide (b = b0) then n else 0.
Proof.
  intros Hn. unfold lbucket. rewrite assoc_cons. repeat case_decide; subst.
  - rewrite tonumber_tostring, assoc_None by done. simpl. lia.
  - by apply tostring_inj in H0.
  - done.
  - destruct (assoc l _); lia.
Qed.

Lemma scan_spec l oldest current acc :
  current = oldest + 59 -> NoDup l.*1 -> Forall canonical l ->
  let sc := foldl (scan_field (St := St) oldest current) acc l in
  scn_sum sc = scn_sum acc + range_sum (lbucket l) oldest 60 /\
  (forall b, oldest <= b <= current -> (forall b', tostring (St := St) b' ∈ l.*1 -> scn_counts acc !! b' = None) ->
     default 0 (scn_counts sc !! b) = default 0 (scn_counts acc !! b) + lbucket l b) /\
  (forall f, f ∈ scn_stale sc <->
     f ∈ scn_stale acc \/ exists b, f = tostring (St := St) b /\ b < oldest /\ f ∈ l.*1).
Proof.
  intros Hc. revert acc. induction l as [|p l IH]; intros acc Hnd Hcan.
  { simpl. split_and!; [|intros; unfold lbucket; simpl; lia|set_solver].
    rewrite range_sum_zero; [lia|done]. }
  apply Forall_cons in Hcan as [(b0 & n & ->) Hcan]. apply NoDup_cons in Hnd as [Hn Hnd]. simpl in Hn.
  destruct (IH (scan_field (St := St) oldest current acc (tostring b0, tostring n)) Hnd Hcan)
    as (Hs & Hcnt & Hst). clear IH.
  cbn [foldl]. rewrite Hs. split_and!.
  - rewrite (range_sum_point _ _ oldest 60 b0 n (fun b => lbucket_cons b0 n l b Hn)).
    unfold scan_field; simpl. rewrite !tonumber_tostring.
    destruct (b0 <? oldest) eqn:E1, (b0 <=? current) eqn:E2; zbool; simpl;
      case_decide; lia.
  - intros b Hb Hfree. rewrite (lbucket_cons b0 n l b Hn), Hcnt.
    + specialize (Hfree b0 (list_elem_of_here _ _)). unfold scan_field; simpl. rewrite !tonumber_tostring.
      destruct (b0 <? oldest) eqn:E1, (b0 <=? current) eqn:E2; zbool; simpl;
        try (rewrite lookup_insert); repeat case_decide; subst; try lia.
      rewrite Hfree. simpl. lia.
    + done.
    + intros b' Hb'. unfold scan_field; simpl. rewrite !tonumber_tostring.
      destruct (b0 <? oldest), (b0 <=? current); simpl; try (apply Hfree; set_solver).
      rewrite lookup_insert_ne; [apply Hfree; set_solver|]. intros ->. done.
  - intros f. rewrite Hst. unfold scan_field; simpl. rewrite !tonumber_tostring.
    setoid_rewrite elem_of_cons.
    destruct (b0 <? oldest) eqn:E1, (b0 <=? current) eqn:E2; zbool; simpl;
      rewrite ?elem_of_app, ?list_elem_of_singleton; try (split; [naive_solver|]).
    all: intros [?|(b & -> & ? & [Heq|?])]; eauto.
    all: try (apply tostring_inj in Heq; subst; eauto; lia).
Qed.

Lemma scan_hash k s oldest current :
  current = oldest + 59 -> counter_ok k s ->
  let sc := foldl (scan_field (St := St) oldest current) scan_init (hgetall k s) in
  scn_sum sc = range_sum (bucket k s) oldest 60 /\
  (forall b, oldest <= b <= current -> default 0 (scn_counts sc !! b) = bucket k s b) /\
  (forall f, f ∈ scn_stale sc <-> exists b v, f = tostring b /\ b < oldest /\ hget k f s = Some v).
Proof.
  intros Hc Hok.
  destruct (scan_spec (hgetall k s) oldest current scan_init Hc (hgetall_nodup k s)) as (Hs & Hcnt & Hst).
  { apply Forall_forall. intros [f v] (b & n & -> & -> & _)%elem_of_hgetall%Hok. by exists b, n. }
  split_and!.
  - exact Hs.
  - intros b Hb. rewrite Hcnt by done. done.
  - intros f. rewrite Hst. setoid_rewrite list_elem_of_fmap. split.
    + intros [Hf|(b & -> & Hb & [? v] & Heq & Hin)]; [by apply elem_of_nil in Hf|].
      simpl in Heq. subst. apply elem_of_hgetall in Hin. eauto.
    + intros (b & v & -> & Hb & Hv). right. exists b. split_and!; [done|done|].
      exists (tostring b, v). split; [done|]. by apply elem_of_hgetall.
Qed.
End Counters.

(** ** The loop that finds when a window frees *)

(** [free_loop] over the abstract counter. *)
Fixpoint free_fn (fuel : nat) (f : Z -> Z) (need current freed b : Z) : Z :=
  match fuel with
  | O => b
  | S fuel =>
      if b <? current then
        if need <=? freed + f b then b else free_fn fuel f need current (freed + f b) (b + 1)
      else b
  end.

Lemma free_loop_fn fuel counts f need current freed b :
  (forall b', b <= b' < current -> default 0 (counts !! b') = f b') ->
  free_loop fuel counts need current freed b = free_fn fuel f need current freed b.
Proof.
  revert freed b. induction fuel as [|fuel IH]; intros freed b Hf; simpl; [done|].
  destruct (b <? current) eqn:E; zbool; [|done]. rewrite Hf by lia.
  destruct (need <=? freed + f b); [done|]. apply IH. intros. apply Hf. lia.
Qed.

(** It stops at the first bucket whose leaving brings what is freed to [need], or at the
    current bucket; [fuel] is enough when it covers the buckets in between. *)
Lemma free_fn_spec fuel f need current freed b :
  b <= current <= b + Z.of_nat fuel -> freed < need ->
  let r := free_fn fuel f need current freed b in
  b <= r <= current /\
  freed + range_sum f b (Z.to_nat (r - b)) < need /\
  (r = current \/ need <= freed + range_sum f b (Z.to_nat (r + 1 - b))).
Proof.
  revert freed b. induction fuel as [|fuel IH]; intros freed b Hb Hn; simpl.
  { rewrite Z.sub_diag, range_sum_0. split_and!; [lia|lia|lia|left; lia]. }
  destruct (b <? current) eqn:E; zbool; cycle 1.
  { rewrite Z.sub_diag, range_sum_0. split_and!; [lia|lia|lia|left; lia]. }
  destruct (need <=? freed + f b) eqn:Ef; zbool.
  - rewrite Z.sub_diag, range_sum_0. replace (Z.to_nat (b + 1 - b)) with 1%nat by lia.
    rewrite range_sum_S, range_sum_0. split_and!; [lia|lia|lia|right; lia].
  - destruct (IH (freed + f b) (b + 1)) as ((?&?) & Hlt & Hge); [lia|lia|].
    set (r := free_fn fuel f need current (freed + f b) (b + 1)) in *. split_and!; [lia|lia| |].
    + replace (Z.to_nat (r - b)) with (S (Z.to_nat (r - (b + 1)))) by lia.
      rewrite range_sum_S. lia.
    + destruct Hge as [?|Hge]; [auto|right].
      replace (Z.to_nat (r + 1 - b)) with (S (Z.to_nat (r + 1 - (b + 1)))) by lia.
      rewrite range_sum_S. lia.
Qed.

(** ** One counter at one time *)

Definition cur (c : Counter) (now_ms : Z) : Z := now_ms / 1000 / ct_bucket_secs c.

Lemma cur_mono c t t' : 0 < ct_bucket_secs c -> t <= t' -> cur c t <= cur c t'.
Proof. intros. unfold cur. repeat (apply Z.div_le_mono; [lia|]). done. Qed.

(** Bucket [b] has left the window once time reaches [(b + 60) * bucket_secs]. *)
Lemma cur_ge_iff c t q : 0 < ct_bucket_secs c -> q <= cur c t <-> q * ct_bucket_secs c * 1000 <= t.
Proof.
  intros Hb. unfold cur. rewrite Z.div_div by lia. split; intros Hq.
  - pose proof (Z.mul_div_le t (1000 * ct_bucket_secs c)). nia.
  - apply Z.div_le_lower_bound; nia.
Qed.

Section Windows.
Context {St : Type} `{RL : RedisLaws St}.
Implicit Types (s : St) (c : Counter) (now_ms t : Z).

Definition window c t s : Z := range_sum (bucket (ct_key c) s) (cur c t - 59) 60.
Definition full c t s : Prop := ct_max_count c <= window c t s.
#[export] Instance full_dec c t s : Decision (full c t s).
Proof. unfold full. apply _. Defined.

(** The bucket whose leaving frees a full window, and the wait until it has left. *)
Definition freeing c t s : Z :=
  free_fn 60 (bucket (ct_key c) s) (window c t s - ct_max_count c + 1) (cur c t) 0 (cur c t - 59).
Definition wait_of c t s : Z := (freeing c t s + 60) * ct_bucket_secs c * 1000 - t.

(** Nothing has been counted in the future of [t]. *)
Definition settled c t s : Prop := forall b, cur c t < b -> bucket (ct_key c) s b = 0.

Lemma freeing_spec c t s :
  full c t s ->
  cur c t - 59 <= freeing c t s <= cur c t /\
  range_sum (bucket (ct_key c) s) (cur c t - 59) (Z.to_nat (freeing c t s - (cur c t - 59)))
    < window c t s - ct_max_count c + 1 /\
  (freeing c t s = cur c t \/
   window c t s - ct_max_count c + 1 <=
     range_sum (bucket (ct_key c) s) (cur c t - 59) (Z.to_nat (freeing c t s + 1 - (cur c t - 59)))).
Proof. intros Hf. unfold full in Hf. apply free_fn_spec; lia. Qed.

Lemma wait_of_pos c t s : 0 < ct_bucket_secs c -> full c t s -> 0 < wait_of c t s.
Proof.
  intros Hb Hf. destruct (freeing_spec c t s Hf) as [[Hlo _] _].
  unfold wait_of. enough (~ (freeing c t s + 60) * ct_bucket_secs c * 1000 <= t) by lia.
  rewrite <- cur_ge_iff by done. lia.
Qed.

Lemma window_shrinks c t t' s :
  0 < ct_bucket_secs c -> counter_ok (ct_key c) s -> settled c t s -> t <= t' ->
  window c t' s <= window c t s.
Proof.
  intros Hb Hok Hs Ht. pose proof (cur_mono c t t' Hb Ht).
  apply range_sum_suffix; [intros; by apply bucket_nonneg|lia|]. intros. apply Hs. lia.
Qed.

(** A full window stays full until the wait is over ... *)
Lemma full_until c t t' s :
  0 < ct_bucket_secs c -> counter_ok (ct_key c) s -> full c t s ->
  t <= t' < t + wait_of c t s -> full c t' s.
Proof.
  intros Hb Hok Hf Ht. destruct (freeing_spec c t s Hf) as ([Hlo Hhi] & Hlt & _).
  unfold wait_of in Ht. set (r := freeing c t s) in *.
  assert (cur c t' < r + 60) as Hc.
  { enough (~ r + 60 <= cur c t') by lia. rewrite cur_ge_iff by done. lia. }
  pose proof (cur_mono c t t' Hb ltac:(lia)) as Hm.
  set (f := bucket (ct_key c) s) in *.
  assert (forall b, 0 <= f b) as Hpos by (intros; by apply bucket_nonneg).
  (* the buckets from [r] to the current one are in both windows *)
  assert (window c t s = range_sum f (cur c t - 59) (Z.to_nat (r - (cur c t - 59)))
                         + range_sum f r (Z.to_nat (cur c t + 1 - r))) as Hw.
  { unfold window. fold f.
    replace 60%nat with (Z.to_nat (r - (cur c t - 59)) + Z.to_nat (cur c t + 1 - r))%nat by lia.
    rewrite range_sum_app. do 2 f_equal. lia. }
  assert (range_sum f r (Z.to_nat (cur c t + 1 - r)) <= range_sum f (cur c t' - 59) 60) as Hin.
  { replace 60%nat with (Z.to_nat (r - (cur c t' - 59)) + (Z.to_nat (cur c t + 1 - r)
      + Z.to_nat (cur c t' - cur c t)))%nat by lia.
    rewrite !range_sum_app. replace (cur c t' - 59 + Z.of_nat (Z.to_nat (r - (cur c t' - 59)))) with r by lia.
    pose proof (range_sum_nonneg f (cur c t' - 59) (Z.to_nat (r - (cur c t' - 59))) Hpos).
    pose proof (range_sum_nonneg f (r + Z.of_nat (Z.to_nat (cur c t + 1 - r))) (Z.to_nat (cur c t' - cur c t)) Hpos).
    lia. }
  unfold full. change (window c t' s) with (range_sum f (cur c t' - 59) 60). lia.
Qed.

(** ... and has room from then on. *)
Lemma room_after c t t' s :
  0 < ct_bucket_secs c -> 0 < ct_max_count c -> counter_ok (ct_key c) s -> settled c t s ->
  full c t s -> t + wait_of c t s <= t' -> ~ full c t' s.
Proof.
  intros Hb Hmax Hok Hs Hf Ht. destruct (freeing_spec c t s Hf) as ([Hlo Hhi] & _ & Hge).
  unfold wait_of in Ht. set (r := freeing c t s) in *.
  assert (r + 60 <= cur c t') as Hc by (apply cur_ge_iff; [done|lia]).
  unfold full. set (f := bucket (ct_key c) s) in *.
  assert (forall b, 0 <= f b) as Hpos by (intros; by apply bucket_nonneg).
  enough (window c t' s <= window c t s - range_sum f (cur c t - 59) (Z.to_nat (r + 1 - (cur c t - 59)))) as Hle.
  { destruct Hge as [Heq|?]; [|lia].
    replace (Z.to_nat (r + 1 - (cur c t - 59))) with 60%nat in Hle by lia.
    unfold window at 2 in Hle. fold f in Hle. lia. }
  unfold window at 2. fold f.
  replace 60%nat with (Z.to_nat (r + 1 - (cur c t - 59)) + Z.to_nat (cur c t - r))%nat by lia.
  rewrite range_sum_app. replace (cur c t - 59 + Z.of_nat (Z.to_nat (r + 1 - (cur c t - 59)))) with (r + 1) by lia.
  enough (window c t' s <= range_sum f (r + 1) (Z.to_nat (cur c t - r))) by lia.
  apply range_sum_suffix; [done|lia|]. intros. apply Hs. lia.
Qed.
End Windows.

(** * The admit script, whole

    The two loops of [LUA_ADMIT] over the abstract counters of [SlidingSpec], and the
    limiter's contract: decision, all or nothing, the wait, and the bound on a window over
    any run. *)

Section Admit.
Context {St : Type} `{RL : RedisLaws St}.
Implicit Types (s : St) (c : Counter) (cs : list Counter) (now t : Z).

(** A counter the callers build: an allowed window, a positive limit, a charge of 0 or 1. *)
Definition static_ok c : Prop :=
  0 < ct_bucket_secs c <= i32_max /\ 0 < ct_max_count c <= i64_max /\ (ct_charge c = 0 \/ ct_charge c = 1).

Definition wf cs s : Prop :=
  NoDup (ct_key <$> cs) /\ Forall (fun c => static_ok c /\ counter_ok (ct_key c) s) cs.

(** [s'] is [s] without buckets that have left their window. *)
Definition pruned now cs s s' : Prop :=
  forall k f, hget k f s' = hget k f s \/
    hget k f s' = None /\
    exists c b, c ∈ cs /\ ct_key c = k /\ f = tostring (St := St) b /\ b < cur c now - 59.

Lemma pruned_bucket now cs s s' c b :
  NoDup (ct_key <$> cs) -> pruned now cs s s' -> c ∈ cs -> cur c now - 59 <= b ->
  bucket (ct_key c) s' b = bucket (ct_key c) s b.
Proof.
  intros Hnd Hp Hc Hb. unfold bucket.
  destruct (Hp (ct_key c) (tostring b)) as [->|(_ & c' & b' & Hc' & Hk & Hb'%tostring_inj & Hlt)]; [done|].
  assert (c' = c) as -> by (by eapply NoDup_fmap_elem). lia.
Qed.

Lemma pruned_frame now cs s s' k f :
  pruned now cs s s' -> k ∉ ct_key <$> cs -> hget k f s' = hget k f s.
Proof.
  intros Hp Hk. destruct (Hp k f) as [->|(_ & c & b & Hc & <- & _)]; [done|].
  destruct Hk. by apply list_elem_of_fmap_2.
Qed.

Lemma pruned_counter_ok now cs s s' k : pruned now cs s s' -> counter_ok k s -> counter_ok k s'.
Proof. intros Hp Hok f v Hv. destruct (Hp k f) as [Heq|[Heq _]]; [apply Hok|]; congruence. Qed.

Lemma pruned_settled now cs s s' c t : pruned now cs s s' -> settled c t s -> settled c t s'.
Proof.
  intros Hp Hs b Hb. specialize (Hs b Hb). unfold bucket in *.
  destruct (Hp (ct_key c) (tostring b)) as [->|[-> _]]; done.
Qed.

Lemma window_ext c t s s' :
  (forall b, cur c t - 59 <= b <= cur c t -> bucket (ct_key c) s' b = bucket (ct_key c) s b) ->
  window c t s' = window c t s.
Proof. intros Hb. apply range_sum_ext. intros. apply Hb. lia. Qed.

Lemma free_fn_ext fuel f g need current freed b :
  (forall b', b <= b' < current -> f b' = g b') ->
  free_fn fuel f need current freed b = free_fn fuel g need current freed b.
Proof.
  revert freed b. induction fuel as [|fuel IH]; intros freed b Hf; simpl; [done|].
  destruct (b <? current) eqn:E; zbool; [|done]. rewrite Hf by lia.
  destruct (need <=? freed + g b); [done|]. apply IH. intros. apply Hf. lia.
Qed.

Lemma wait_of_ext c t s s' :
  (forall b, cur c t - 59 <= b <= cur c t -> bucket (ct_key c) s' b = bucket (ct_key c) s b) ->
  wait_of c t s' = wait_of c t s.
Proof.
  intros Hb. unfold wait_of, freeing. rewrite (window_ext c t s s' Hb).
  erewrite free_fn_ext; [done|]. intros. apply Hb. lia.
Qed.

(** ** The reading loop *)

(** What one pass does to its accumulator, over the abstract counter. *)
Lemma admit_read_step now acc i c :
  counter_ok (ct_key c) (aa_store acc) ->
  exists s', pruned now [c] (aa_store acc) s' /\
  admit_read now acc (i, c) =
    let hit := bool_decide (full c now (aa_store acc)) && (aa_wait_ms acc <? wait_of c now (aa_store acc)) in
    {| aa_store := s';
       aa_sums := aa_sums acc ++ [window c now (aa_store acc)];
       aa_limiting := if hit then Z.of_nat i + 1 else aa_limiting acc;
       aa_wait_ms := if hit then wait_of c now (aa_store acc) else aa_wait_ms acc |}.
Proof.
  intros Hok. unfold admit_read. fold (cur c now).
  destruct (scan_hash (ct_key c) (aa_store acc) (cur c now - 59) (cur c now)) as (Hs & Hcnt & Hst);
    [lia|done|].
  set (sc := foldl _ scan_init (hgetall (ct_key c) (aa_store acc))) in *.
  set (s' := if decide (scn_stale sc = []) then _ else _).
  exists s'. split.
  - intros k f. unfold s'. case_decide; [by left|]. rewrite hget_hdel. case_decide as Hk; [|by left].
    right. split; [done|]. destruct Hk as [-> (b & v & -> & Hb & _)%Hst].
    exists c, b. by split_and!; [left| | |].
  - rewrite Hs. fold (window c now (aa_store acc)).
    rewrite (free_loop_fn 60 (scn_counts sc) (bucket (ct_key c) (aa_store acc))) by (intros; apply Hcnt; lia).
    fold (freeing c now (aa_store acc)). fold (wait_of c now (aa_store acc)).
    unfold full. destruct (ct_max_count c <=? window c now (aa_store acc)) eqn:E; zbool.
    + rewrite bool_decide_eq_true_2 by done. simpl. by destruct (aa_wait_ms acc <? _).
    + rewrite bool_decide_eq_false_2 by lia. done.
Qed.

(** The accumulator after the counters [cs]. *)
Record read_inv now s cs (acc : admit_acc) : Prop := {
  ri_pruned : pruned now cs s (aa_store acc);
  ri_sums : aa_sums acc = (fun c => window c now s) <$> cs;
  ri_waits : forall c, c ∈ cs -> full c now s -> wait_of c now s <= aa_wait_ms acc;
  ri_limiting :
    aa_limiting acc = 0 /\ aa_wait_ms acc = 0 \/
    exists i c, cs !! i = Some c /\ full c now s /\
      aa_limiting acc = Z.of_nat i + 1 /\ aa_wait_ms acc = wait_of c now s;
}.

Lemma read_loop_inv now s cs :
  wf cs s ->
  read_inv now s cs (foldl (admit_read now)
    {| aa_store := s; aa_sums := []; aa_limiting := 0; aa_wait_ms := 0 |} (imap pair cs)).
Proof.
  induction cs as [|c cs IH] using rev_ind; intros [Hnd Hwf].
  { split; simpl; [by left|done|set_solver|by left]. }
  rewrite fmap_app in Hnd. apply NoDup_app in Hnd as (Hnd & Hdis & _).
  apply Forall_app in Hwf as [Hwf [[Hst Hok] _]%Forall_cons].
  destruct (IH (conj Hnd Hwf)) as [Hp Hsums Hw Hl]. clear IH.
  rewrite imap_app, foldl_app. cbn [imap foldl]. rewrite Nat.add_0_r.
  set (acc := foldl _ _ (imap pair cs)) in *.
  assert (ct_key c ∉ ct_key <$> cs) as Hfresh by set_solver.
  assert (forall b, bucket (ct_key c) (aa_store acc) b = bucket (ct_key c) s b) as Hb.
  { intros b. unfold bucket. by rewrite (pruned_frame now cs s). }
  destruct (admit_read_step now acc (length cs) c) as (s' & Hp' & ->).
  { by eapply pruned_counter_ok. }
  cbv zeta.
  rewrite (window_ext c now s) by (intros; apply Hb).
  rewrite (wait_of_ext c now s) by (intros; apply Hb).
  assert (full c now (aa_store acc) <-> full c now s) as Hfull
    by (unfold full; by rewrite (window_ext c now s) by (intros; apply Hb)).
  rewrite (bool_decide_ext _ _ Hfull). clear Hfull.
  pose proof (wait_of_pos c now s ltac:(apply Hst)) as Hpos.
  split; simpl.
  - intros k f. destruct (Hp' k f) as [->|(Hn & c' & b & Hc' & Hrest)].
    + destruct (Hp k f) as [->|(Hn & c' & b & Hc' & Hrest)]; [by left|right].
      split; [done|]. exists c', b. split; [set_solver|done].
    + right. split; [done|]. exists c', b. split; [set_solver|done].
  - by rewrite Hsums, fmap_app.
  - intros c' [Hc'|Hc']%elem_of_app Hf.
    + specialize (Hw c' Hc' Hf). destruct (bool_decide _ && _) eqn:E; zbool; lia.
    + apply list_elem_of_singleton in Hc' as ->. rewrite bool_decide_eq_true_2 by done. simpl.
      destruct (aa_wait_ms acc <? _) eqn:E; zbool; lia.
  - destruct (bool_decide (full c now s)) eqn:Hf; simpl; [apply bool_decide_eq_true in Hf|].
    1: destruct (aa_wait_ms acc <? wait_of c now s) eqn:E.
    + right. exists (length cs), c. by rewrite list_lookup_middle.
    + destruct Hl as [?|(i & c' & Hi & ?)]; [by left|right].
      exists i, c'. split; [by apply lookup_app_l_Some|done].
    + destruct Hl as [?|(i & c' & Hi & ?)]; [by left|right].
      exists i, c'. split; [by apply lookup_app_l_Some|done].
Qed.

(** ** The charging loop *)

Lemma incr_bucket k b0 n s :
  counter_ok k s -> 0 <= n -> in_i64 (bucket k s b0 + n) ->
  exists s', hincrby k (tostring b0) n s = Some s' /\
    (forall b, bucket k s' b = bucket k s b + if decide (b = b0) then n else 0) /\
    (forall k', counter_ok k' s -> counter_ok k' s') /\
    (forall k' f, k' <> k -> hget k' f s' = hget k' f s).
Proof.
  intros Hok Hn Hi. pose proof (bucket_holds_int k s b0 Hok) as Hz.
  destruct (hincrby_succeeds _ _ _ _ _ Hz Hi) as [s' Hs']. exists s'. split; [done|].
  apply hincrby_Some in Hs' as (z & Hz' & Hget).
  assert (z = bucket k s b0) as ->.
  { unfold bucket. destruct Hz' as [[-> ->]| ->]; [done|]. by rewrite tonumber_tostring. }
  split_and!.
  - intros b. unfold bucket at 1. rewrite Hget. destruct (decide (b = b0)) as [->|Hne].
    + rewrite decide_True by done. rewrite tonumber_tostring. simpl. lia.
    + rewrite decide_False by (intros [_ ?%tostring_inj]; done). unfold bucket. lia.
  - intros k' Hok' f v. rewrite Hget. case_decide as Hd; [|apply Hok'].
    destruct Hd as [-> ->]. intros [= <-]. exists b0, (bucket k s b0 + n).
    pose proof (bucket_nonneg k s b0 Hok). split_and!; [done|done|lia].
  - intros k' f Hne. rewrite Hget, decide_False by naive_solver. done.
Qed.

Lemma expire_same_counter k ttl s :
  (forall k' b, bucket k' (expire k ttl s) b = bucket k' s b) /\
  (forall k', counter_ok k' (expire k ttl s) <-> counter_ok k' s).
Proof. unfold bucket, counter_ok. setoid_rewrite hget_expire. done. Qed.

Lemma bucket_frame k s s' b :
  (forall f, hget k f s' = hget k f s) -> bucket k s' b = bucket k s b.
Proof. intros Hf. unfold bucket. by rewrite Hf. Qed.

Lemma charge_loop_spec now cs sums s :
  NoDup (ct_key <$> cs) -> length sums = length cs ->
  (forall c, c ∈ cs -> counter_ok (ct_key c) s /\ (ct_charge c = 0 \/ ct_charge c = 1) /\
     in_i64 (bucket (ct_key c) s (cur c now) + ct_charge c)) ->
  exists s', charge_loop now cs sums s = (s', Some (zip_with (fun c x => x + ct_charge c) cs sums)) /\
    (forall k, counter_ok k s -> counter_ok k s') /\
    (forall k f, k ∉ ct_key <$> cs -> hget k f s' = hget k f s) /\
    (forall c b, c ∈ cs ->
       bucket (ct_key c) s' b = bucket (ct_key c) s b + if decide (b = cur c now) then ct_charge c else 0).
Proof.
  revert sums s. induction cs as [|c cs IH]; intros [|x sums] s Hnd Hlen Hcs; simplify_eq/=.
  { exists s. split_and!; [done|done|done|set_solver]. }
  apply NoDup_cons in Hnd as [Hn Hnd].
  destruct (Hcs c) as (Hok & Hch & Hi); [set_solver|].
  destruct (0 <? ct_charge c) eqn:E; zbool.
  - destruct (incr_bucket (ct_key c) (cur c now) (ct_charge c) s Hok) as (s1 & Hs1 & Hb1 & Hok1 & Hf1);
      [lia|done|].
    unfold cur in Hs1 at 1. rewrite Hs1.
    set (s2 := expire (ct_key c) (ct_bucket_secs c * 120) s1).
    destruct (expire_same_counter (ct_key c) (ct_bucket_secs c * 120) s1) as [Hb2 Hok2].
    fold s2 in Hb2, Hok2.
    destruct (IH sums s2 Hnd) as (s' & Hloop & Hok' & Hf' & Hb').
    { done. }
    { intros c' Hc'. destruct (Hcs c') as (Hokc & ? & Hic); [set_solver|].
      assert (ct_key c' <> ct_key c) by (intros Heq; apply Hn; rewrite <- Heq; by apply list_elem_of_fmap_2).
      rewrite Hok2, Hb2, (bucket_frame _ s s1) by auto. auto. }
    exists s'. rewrite Hloop. simpl. split_and!.
    + done.
    + intros k Hk. apply Hok', Hok2, Hok1, Hk.
    + intros k f Hk. apply not_elem_of_cons in Hk as [? ?].
      rewrite Hf' by done. unfold s2. rewrite hget_expire. by apply Hf1.
    + intros c' b [->|Hc']%elem_of_cons.
      * rewrite (bucket_frame _ s2 s') by (intros; by apply Hf'). by rewrite Hb2.
      * rewrite Hb' by done. rewrite Hb2. f_equal. apply bucket_frame. intros. apply Hf1.
        intros Heq. apply Hn. rewrite <- Heq. by apply list_elem_of_fmap_2.
  - assert (ct_charge c = 0) as Hz by lia.
    destruct (IH sums s Hnd) as (s' & Hloop & Hok' & Hf' & Hb'); [done|intros; apply Hcs; set_solver|].
    exists s'. rewrite Hloop. simpl. rewrite Hz, Z.add_0_r. split_and!; [done|done| |].
    + intros k f Hk. apply Hf'. set_solver.
    + intros c' b [->|Hc']%elem_of_cons; [|by apply Hb'].
      rewrite Hz, (bucket_frame _ s s') by (intros; by apply Hf'). case_decide; lia.
Qed.

(** ** The script's contract *)

(** The window's current bucket is within 64 bits of room when the window is not full. *)
Lemma room_in_i64 c now s :
  static_ok c -> counter_ok (ct_key c) s -> ~ full c now s ->
  in_i64 (bucket (ct_key c) s (cur c now) + ct_charge c).
Proof.
  intros (? & ? & ?) Hok Hf. pose proof (bucket_nonneg (ct_key c) s (cur c now) Hok).
  assert (bucket (ct_key c) s (cur c now) <= window c now s) as Hle.
  { unfold window. change 60%nat with (59 + 1)%nat. rewrite range_sum_app.
    replace (cur c now - 59 + Z.of_nat 59) with (cur c now) by lia.
    rewrite (range_sum_S _ (cur c now) 0), range_sum_0.
    pose proof (range_sum_nonneg (bucket (ct_key c) s) (cur c now - 59) 59
      ltac:(intros; by apply bucket_nonneg)). lia. }
  unfold full in Hf. unfold in_i64, i64_min, i64_max in *. lia.
Qed.

Definition charged now cs s s' : Prop :=
  forall c b, c ∈ cs -> cur c now - 59 <= b ->
    bucket (ct_key c) s' b = bucket (ct_key c) s b + if decide (b = cur c now) then ct_charge c else 0.

Lemma lua_admit_room now cs s :
  wf cs s -> (forall c, c ∈ cs -> ~ full c now s) ->
  exists s', lua_admit now cs s = (s', Some ([1; 0; 0] ++ ((fun c => window c now s + ct_charge c) <$> cs))) /\
    charged now cs s s' /\ (forall k, counter_ok k s -> counter_ok k s') /\
    (forall k f, k ∉ ct_key <$> cs -> hget k f s' = hget k f s) /\
    (forall c b, c ∈ cs -> bucket (ct_key c) s b = 0 -> b <> cur c now -> bucket (ct_key c) s' b = 0).
Proof.
  intros Hwf Hroom. pose proof (read_loop_inv now s cs Hwf) as [Hp Hsums _ Hl].
  unfold lua_admit. set (acc := foldl _ _ (imap pair cs)) in *.
  destruct Hl as [[Hl _]|(i & c & Hi & Hf & _)]; cycle 1.
  { apply list_elem_of_lookup_2 in Hi. by destruct (Hroom c Hi). }
  rewrite Hl. simpl. destruct Hwf as [Hnd Hall]. rewrite Forall_forall in Hall.
  destruct (charge_loop_spec now cs (aa_sums acc) (aa_store acc)) as (s' & Hloop & Hok' & Hf' & Hb').
  { done. }
  { by rewrite Hsums, length_fmap. }
  { intros c Hc. destruct (Hall c Hc) as [Hst Hok]. split_and!.
    - by eapply pruned_counter_ok.
    - apply Hst.
    - rewrite (pruned_bucket now cs s) by (done || lia). by apply room_in_i64, Hroom. }
  rewrite Hloop. exists s'. split_and!.
  - do 3 f_equal. rewrite Hsums, zip_with_fmap_r, zip_with_diag. done.
  - intros c b Hc Hb. rewrite Hb' by done. f_equal. by eapply pruned_bucket.
  - intros k Hk. by eapply Hok', pruned_counter_ok.
  - intros k f Hk. rewrite Hf' by done. by eapply pruned_frame.
  - intros c b Hc Hb Hne. rewrite Hb', decide_False, Z.add_0_r by done.
    unfold bucket in *. by destruct (Hp (ct_key c) (tostring b)) as [->|[-> _]].
Qed.

Lemma lua_admit_full now cs s :
  wf cs s -> (exists c, c ∈ cs /\ full c now s) ->
  exists s' i c, cs !! i = Some c /\ full c now s /\
    (forall c', c' ∈ cs -> full c' now s -> wait_of c' now s <= wait_of c now s) /\
    lua_admit now cs s = (s', Some ([0; Z.of_nat i + 1; wait_of c now s] ++ ((fun c => window c now s) <$> cs))) /\
    pruned now cs s s'.
Proof.
  intros Hwf (c0 & Hc0 & Hf0). pose proof (read_loop_inv now s cs Hwf) as [Hp Hsums Hw Hl].
  unfold lua_admit. set (acc := foldl _ _ (imap pair cs)) in *.
  destruct Hl as [[_ Hz]|(i & c & Hi & Hf & Hl & Hwait)].
  { specialize (Hw c0 Hc0 Hf0). destruct Hwf as [_ Hall]. rewrite Forall_forall in Hall.
    destruct (Hall c0 Hc0) as [(? & _) _]. pose proof (wait_of_pos c0 now s ltac:(lia) Hf0). lia. }
  exists (aa_store acc), i, c. rewrite Hl, Hwait, Hsums in *.
  destruct (0 <? Z.of_nat i + 1) eqn:E; zbool; [|lia]. by split_and!.
Qed.
End Admit.
