(* ===== verification/Limiter.v ===== *)
(** * The rate limiter's contract

    The theorems on [sliding::admit_counters_at], [admit_at], [record_at] and [read_count]:
    the decision and its charges, the wait a refusal announces, the bound on every window
    over any run of requests, the independence of counters, and the two failure policies. *)

From S2P Require Import Prelude Interfaces LimitTypes Constraints Sliding SlidingSpec.
From S2P Require Import SlidingSpec.

Section Contract.
Context {St : Type} `{RL : RedisLaws St}.
Implicit Types (s : St) (c : Counter) (cs : list Counter) (now t : Z).

Lemma any_full_dec cs now s : {exists c, c ∈ cs /\ full c now s} + {forall c, c ∈ cs -> ~ full c now s}.
Proof.
  destruct (decide (Exists (fun c => full c now s) cs)) as [He|Hn].
  - left. by apply Exists_exists in He.
  - right. intros c Hc Hf. apply Hn, Exists_exists. eauto.
Qed.

(** What an admitted or refused request leaves of the live buckets. *)
Definition charged_if (allowed : bool) now cs s s' : Prop :=
  forall c b, c ∈ cs -> cur c now - 59 <= b ->
    bucket (ct_key c) s' b =
    bucket (ct_key c) s b + if allowed && bool_decide (b = cur c now) then ct_charge c else 0.

Lemma admit_room now cs s :
  wf cs s -> (forall c, c ∈ cs -> ~ full c now s) ->
  exists s' o, admit_counters_at LinkOk cs now s = (s', Ok o) /\ co_allowed o = true /\
    co_exceeded_index o = None /\ co_retry_after_secs o = 0 /\
    co_currents o = ((fun c => window c now s + ct_charge c) <$> cs) /\
    charged_if true now cs s s' /\ (forall k, counter_ok k s -> counter_ok k s') /\
    (forall k f, k ∉ ct_key <$> cs -> hget k f s' = hget k f s) /\
    (forall c b, c ∈ cs -> bucket (ct_key c) s b = 0 -> b <> cur c now -> bucket (ct_key c) s' b = 0).
Proof.
  intros Hwf Hroom. destruct cs as [|c0 cs0].
  { exists s, CheckOutcome_open. split_and!; try done; intros ??; set_solver. }
  set (cs := c0 :: cs0) in *.
  destruct (lua_admit_room now cs s Hwf Hroom) as (s' & Heq & Hch & Hok & Hf & Hz).
  exists s', (parse_admit_reply ([1; 0; 0] ++ ((fun c => window c now s + ct_charge c) <$> cs))).
  split_and!; try done.
  - unfold admit_counters_at, cs, run_script. fold cs. by rewrite Heq.
  - intros c b Hc Hb. rewrite Hch by done. simpl. by case_decide; case_bool_decide.
Qed.

Lemma admit_full now cs s :
  wf cs s -> (exists c, c ∈ cs /\ full c now s) ->
  exists s' o i c, cs !! i = Some c /\ full c now s /\
    (forall c', c' ∈ cs -> full c' now s -> wait_of c' now s <= wait_of c now s) /\
    admit_counters_at LinkOk cs now s = (s', Ok o) /\ co_allowed o = false /\
    co_exceeded_index o = Some i /\ co_retry_after_secs o = retry_after_secs (wait_of c now s) /\
    co_currents o = ((fun c => window c now s) <$> cs) /\
    charged_if false now cs s s' /\ pruned now cs s s'.
Proof.
  intros Hwf Hfull. destruct (lua_admit_full now cs s Hwf Hfull) as (s' & i & c & Hi & Hf & Hmax & Heq & Hp).
  destruct cs as [|c0 cs0]; [done|]. set (cs := c0 :: cs0) in *.
  assert (0 < wait_of c now s) as Hpos.
  { destruct Hwf as [_ Hall]. rewrite Forall_forall in Hall.
    destruct (Hall c) as [[? _] _]; [by eapply list_elem_of_lookup_2|]. apply wait_of_pos; [lia|done]. }
  exists s', (parse_admit_reply ([0; Z.of_nat i + 1; wait_of c now s] ++ ((fun c => window c now s) <$> cs))), i, c.
  split_and!; try done.
  - unfold admit_counters_at, cs, run_script. fold cs. by rewrite Heq.
  - unfold parse_admit_reply. simpl. destruct (1 <=? Z.of_nat i + 1) eqn:E; zbool; [|lia].
    simpl. f_equal. lia.
  - unfold parse_admit_reply. simpl. by rewrite Z.max_l by lia.
  - intros c' b Hc Hb. simpl. rewrite Z.add_0_r. eapply pruned_bucket; [apply Hwf|done..].
Qed.

(** C1: a request is admitted exactly when every window has room.  WasAdmitted, it adds its
    charge to the current bucket of every counter; refused, it changes no live bucket of any
    counter (all or nothing), and it names a counter that is full. *)
Theorem admit_decides now cs s :
  wf cs s ->
  exists s' o, admit_counters_at LinkOk cs now s = (s', Ok o) /\
    (co_allowed o = true <-> forall c, c ∈ cs -> window c now s < ct_max_count c) /\
    charged_if (co_allowed o) now cs s s' /\
    co_currents o = ((fun c => window c now s + if co_allowed o then ct_charge c else 0) <$> cs) /\
    (co_allowed o = false <-> exists i c, co_exceeded_index o = Some i /\ cs !! i = Some c /\
       ct_max_count c <= window c now s).
Proof.
  intros Hwf. destruct (any_full_dec cs now s) as [Hf|Hr].
  - destruct (admit_full now cs s Hwf Hf) as (s' & o & i & c & Hi & Hfc & _ & Heq & Ha & He & _ & Hcur & Hch & _).
    exists s', o. rewrite Ha. split_and!; [done| |done| |].
    + split; [done|]. intros Hall. specialize (Hall c (list_elem_of_lookup_2 _ _ _ Hi)).
      unfold full in Hfc. lia.
    + rewrite Hcur. apply list_fmap_ext. intros. simpl. lia.
    + split; [|done]. intros _. eauto.
  - destruct (admit_room now cs s Hwf Hr) as (s' & o & Heq & Ha & He & _ & Hcur & Hch & _).
    exists s', o. rewrite Ha. split_and!; [done| |done|done|].
    + split; [|done]. intros _ c Hc. specialize (Hr c Hc). unfold full in Hr. lia.
    + split; [done|]. intros (i & c & He' & _). congruence.
Qed.

(** ** Retry-After *)

Lemma wait_of_bound c now s : static_ok c -> full c now s -> wait_of c now s <= 60000 * i32_max.
Proof.
  intros ([Hb Hb'] & _) Hf. destruct (freeing_spec c now s Hf) as [[_ Hhi] _].
  pose proof (proj1 (cur_ge_iff c now (cur c now) Hb) ltac:(lia)). unfold wait_of. nia.
Qed.

Lemma retry_after_secs_bounds w :
  0 < w < 2 ^ 64 -> 1000 * (retry_after_secs w - 1) < w <= 1000 * retry_after_secs w.
Proof.
  intros Hw. unfold retry_after_secs, wrap_u64. rewrite (Z.max_l w 0) by lia.
  rewrite Z.mod_small by lia. pose proof (div_ceil_spec w 1000 ltac:(lia)). lia.
Qed.

(** The wait a refusal announces is right.  On the store the refusal leaves, with nothing
    counted in between, the same request is admitted at every moment from [Retry-After]
    seconds on, and refused at every moment up to one second before that. *)
Theorem retry_after_exact now cs s s' o :
  wf cs s -> (forall c, c ∈ cs -> settled c now s) ->
  admit_counters_at LinkOk cs now s = (s', Ok o) -> co_allowed o = false ->
  (forall t, now + 1000 * co_retry_after_secs o <= t ->
     co_allowed <$> (admit_counters_at LinkOk cs t s').2 = Ok true) /\
  (forall t, now <= t <= now + 1000 * (co_retry_after_secs o - 1) ->
     co_allowed <$> (admit_counters_at LinkOk cs t s').2 = Ok false).
Proof.
  intros Hwf Hset Heq Hden. destruct (any_full_dec cs now s) as [Hf|Hr]; cycle 1.
  { destruct (admit_room now cs s Hwf Hr) as (? & ? & Heq' & ? & _). congruence. }
  destruct (admit_full now cs s Hwf Hf) as (s1 & o1 & i & c & Hi & Hfc & Hmax & Heq' & _ & _ & Hretry & _ & Hch & Hp).
  assert (s1 = s' /\ o1 = o) as [-> ->] by (split; congruence). clear Heq Heq'.
  apply list_elem_of_lookup_2 in Hi. destruct Hwf as [Hnd Hall]. pose proof Hall as Hall'.
  rewrite Forall_forall in Hall'.
  assert (wf cs s') as Hwf'.
  { split; [done|]. eapply Forall_impl; [done|]. intros c' [? ?]. split; [done|].
    by eapply pruned_counter_ok. }
  assert (forall c' t, c' ∈ cs -> now <= t -> window c' t s' = window c' t s) as Hwin.
  { intros c' t Hc' Ht. destruct (Hall' c' Hc') as [[? _] _]. pose proof (cur_mono c' now t ltac:(lia) Ht).
    apply window_ext. intros b Hb. eapply pruned_bucket; [done..|lia]. }
  destruct (Hall' c Hi) as [Hst Hok]. pose proof (wait_of_pos c now s ltac:(apply Hst) Hfc) as Hpos.
  pose proof (wait_of_bound c now s Hst Hfc) as Hbound.
  destruct (retry_after_secs_bounds (wait_of c now s)) as [Hlo Hhi].
  { unfold i32_max in Hbound. lia. }
  rewrite Hretry. split; intros t Ht.
  - destruct (admit_room t cs s' Hwf') as (s2 & o2 & -> & Ha2 & _); [|simpl; by rewrite Ha2].
    intros c' Hc' Hf'. destruct (Hall' c' Hc') as [[? [? _]] Hok']. unfold full in Hf'.
    rewrite Hwin in Hf' by (done || lia). destruct (decide (full c' now s)) as [Hfn|Hrn].
    + eapply (room_after c' now t s); [lia|lia|done|by apply Hset|done| |exact Hf'].
      specialize (Hmax c' Hc' Hfn). lia.
    + apply Hrn. unfold full. pose proof (window_shrinks c' now t s ltac:(lia) Hok' (Hset c' Hc') ltac:(lia)). lia.
  - destruct (admit_full t cs s' Hwf') as (s2 & o2 & ? & ? & _ & _ & _ & -> & Ha2 & _);
      [|simpl; by rewrite Ha2].
    exists c. split; [done|]. unfold full. rewrite Hwin by (done || lia).
    apply (full_until c now t s); [apply Hst|done|done|lia].
Qed.
End Contract.

(** ** Any run of requests *)

Section Runs.
Context {St : Type} `{RL : RedisLaws St}.
Implicit Types (s : St) (c : Counter) (cs : list Counter) (now t : Z).

Definition store_ok s : Prop := forall k, counter_ok k s.

(** What can happen to the store while counter [c] is in use: any request is checked, with or
    without [c] among its counters, over a link that works or fails; tokens are recorded on
    other counters; Redis drops fields (a key expires or is evicted).  Time does not go back. *)
Inductive step c : Z * St -> Z * St -> Prop :=
| step_admit l cs t t' s :
    t <= t' -> NoDup (ct_key <$> cs) -> Forall static_ok cs ->
    (forall c', c' ∈ cs -> ct_key c' = ct_key c -> c' = c) ->
    step c (t, s) (t', (admit_counters_at l cs t' s).1)
| step_record l rs amount t t' s :
    t <= t' -> ct_key c ∉ rs.*1 ->
    step c (t, s) (t', (record_counters_at l rs amount t' s).1)
| step_lose t t' s s' :
    t <= t' -> (forall k f, hget k f s' = hget k f s \/ hget k f s' = None) ->
    step c (t, s) (t', s').

Record run_inv c (st : Z * St) : Prop := {
  rn_store : store_ok st.2;
  rn_settled : settled c st.1 st.2;
  rn_bound : window c st.1 st.2 <= ct_max_count c;
}.

Lemma wf_of_store cs s : store_ok s -> NoDup (ct_key <$> cs) -> Forall static_ok cs -> wf cs s.
Proof. intros Hok Hnd Hall. split; [done|]. eapply Forall_impl; [done|]. simpl. auto. Qed.

Lemma settled_later c t t' s : 0 < ct_bucket_secs c -> t <= t' -> settled c t s -> settled c t' s.
Proof. intros Hb Ht Hs b Hlt. apply Hs. pose proof (cur_mono c t t' Hb Ht). lia. Qed.

Lemma inv_later c t t' s : 0 < ct_bucket_secs c -> t <= t' -> run_inv c (t, s) -> run_inv c (t', s).
Proof.
  intros Hb Ht [Hok Hs Hw]. split; simpl in *; [done|by eapply settled_later|].
  pose proof (window_shrinks c t t' s Hb (Hok _) Hs Ht). lia.
Qed.

(** Losing fields or touching other keys keeps the invariant. *)
Lemma inv_lose c t s s' :
  (forall k f, hget k f s' = hget k f s \/ hget k f s' = None) ->
  run_inv c (t, s) -> run_inv c (t, s').
Proof.
  intros Hl [Hok Hs Hw]. simpl in *.
  assert (forall b, 0 <= bucket (ct_key c) s' b <= bucket (ct_key c) s b) as Hle.
  { intros b. pose proof (bucket_nonneg (ct_key c) s b (Hok _)). unfold bucket in *.
    destruct (Hl (ct_key c) (tostring b)) as [->| ->]; lia. }
  split; simpl.
  - intros k f v Hv. apply (Hok k f v). destruct (Hl k f); congruence.
  - intros b Hb. specialize (Hle b). rewrite (Hs b Hb) in Hle. lia.
  - enough (window c t s' <= window c t s) by lia. unfold window. generalize 60%nat (cur c t - 59).
    induction n as [|n IH]; intros lo; [done|]. rewrite !range_sum_S. specialize (IH (lo + 1)).
    specialize (Hle lo). lia.
Qed.

Lemma inv_frame c t s s' :
  store_ok s' -> (forall f, hget (ct_key c) f s' = hget (ct_key c) f s) ->
  run_inv c (t, s) -> run_inv c (t, s').
Proof.
  intros Hok' Hf [Hok Hs Hw]. simpl in *. split; simpl; [done| |].
  - intros b Hb. rewrite (bucket_frame _ s) by done. by apply Hs.
  - rewrite (window_ext c t s); [done|]. intros. by apply bucket_frame.
Qed.

Lemma charged_window cs t s s' c :
  charged_if true t cs s s' -> c ∈ cs -> window c t s' = window c t s + ct_charge c.
Proof.
  intros Hch Hc. unfold window.
  rewrite (range_sum_ext (bucket (ct_key c) s')
    (fun b => bucket (ct_key c) s b + if decide (b = cur c t) then ct_charge c else 0)).
  - rewrite (range_sum_point _ (bucket (ct_key c) s) (cur c t - 59) 60 (cur c t) (ct_charge c)) by done.
    rewrite decide_True by lia. done.
  - intros b Hb. rewrite (Hch c b Hc) by lia. simpl. by case_decide; case_bool_decide.
Qed.

Lemma admit_inv c cs t s :
  static_ok c -> NoDup (ct_key <$> cs) -> Forall static_ok cs ->
  (forall c', c' ∈ cs -> ct_key c' = ct_key c -> c' = c) ->
  run_inv c (t, s) -> run_inv c (t, (admit_counters_at LinkOk cs t s).1).
Proof.
  intros Hst Hnd Hall Hsame Hinv. pose proof Hinv as [Hok Hs Hw]. simpl in *.
  pose proof (wf_of_store cs s Hok Hnd Hall) as Hwf.
  destruct (any_full_dec cs t s) as [Hf|Hr].
  - destruct (admit_full t cs s Hwf Hf) as (s' & o & _ & _ & _ & _ & _ & -> & _ & _ & _ & _ & _ & Hp).
    eapply inv_lose; [|done]. intros k f. destruct (Hp k f) as [?|[? _]]; auto.
  - destruct (admit_room t cs s Hwf Hr) as (s' & o & -> & _ & _ & _ & _ & Hch & Hok' & Hfr & Hz). simpl.
    destruct (decide (ct_key c ∈ ct_key <$> cs)) as [Hin|Hout].
    + apply list_elem_of_fmap in Hin as (c' & Heq & Hc'). symmetry in Heq.
      rewrite (Hsame c' Hc' Heq) in Hc'. clear c' Heq. split; simpl.
      * intros k. apply Hok', Hok.
      * intros b Hb. apply Hz; [done|by apply Hs|lia].
      * rewrite (charged_window cs t s s' c Hch Hc'). specialize (Hr c Hc').
        destruct Hst as (_ & _ & ?). unfold full in Hr. lia.
    + eapply inv_frame; [intros k; apply Hok', Hok| |done]. intros. by apply Hfr.
Qed.

Lemma record_inv c rs amount t s :
  0 < amount -> ct_key c ∉ rs.*1 -> run_inv c (t, s) ->
  run_inv c (t, (lua_record t amount rs s).1).
Proof.
  intros Ha. revert s. induction rs as [|[k bs] rs IH]; intros s Hk Hinv; simpl; [done|].
  destruct (hincrby k (tostring (t / 1000 / bs)) amount s) as [s1|] eqn:Hs1; [|done].
  apply hincrby_Some in Hs1 as (z & Hz & Hget). apply IH; [set_solver|].
  eapply inv_frame; [| |exact Hinv].
  - intros k' f v. rewrite hget_expire, Hget. destruct Hinv as [Hok _ _].
    case_decide as Hd; [|apply Hok]. destruct Hd as [-> ->]. intros [= <-].
    eexists _, _. split_and!; [done|done|]. destruct Hz as [[_ ->]|Hz]; [lia|].
    destruct (Hok _ _ _ Hz) as (? & n & _ & ->%tostring_inj & ?). lia.
  - intros f. rewrite hget_expire, Hget, decide_False; [done|]. intros [Heq _]. subst. set_solver.
Qed.

Lemma step_inv c st st' : static_ok c -> step c st st' -> run_inv c st -> run_inv c st'.
Proof.
  intros Hst Hstep Hinv. destruct Hstep as [l cs t t' s Ht Hnd Hall Hsame|l rs amount t t' s Ht Hk|t t' s s' Ht Hl];
    apply (inv_later c t t') in Hinv; try done; try apply Hst.
  - pose proof (admit_inv c cs t' s Hst Hnd Hall Hsame Hinv) as Hinv'.
    destruct cs as [|c0 cs]; [done|]. destruct l; try done.
    unfold admit_counters_at, run_script in *. by destruct (lua_admit t' (c0 :: cs) s).
  - unfold record_counters_at. destruct (bool_decide (rs = []) || (amount <=? 0)) eqn:E; [done|].
    zbool. pose proof (record_inv c rs amount t' s ltac:(done) Hk Hinv) as Hinv'.
    unfold run_script. destruct l; try done. by destruct (lua_record t' amount rs s).
  - by eapply inv_lose.
Qed.

Lemma run_inv_empty c t0 s0 :
  static_ok c -> (forall k f, hget k f s0 = None) -> run_inv c (t0, s0).
Proof.
  intros Hst Hempty.
  assert (forall b, bucket (ct_key c) s0 b = 0) as Hb by (intros; unfold bucket; by rewrite Hempty).
  split; simpl.
  - intros k f v. by rewrite Hempty.
  - intros b _. apply Hb.
  - unfold window. rewrite range_sum_zero by auto. destruct Hst as (_ & ? & _). lia.
Qed.

(** C32: over any run from an empty store, whatever requests are checked, recorded or lost in
    between, a counter that only [admit] charges never holds more than its limit in any
    window from the current moment on. *)
Theorem window_never_overfilled c t0 s0 t s :
  static_ok c -> (forall k f, hget k f s0 = None) ->
  rtc (step c) (t0, s0) (t, s) ->
  forall t', t <= t' -> window c t' s <= ct_max_count c.
Proof.
  intros Hst Hempty Hrun t' Ht'. pose proof (run_inv_empty c t0 s0 Hst Hempty) as Hinit.
  enough (run_inv c (t, s)) as Hinv by (apply (inv_later c t t' s); [apply Hst|done|done]).
  clear t' Ht'. remember (t0, s0) as st0. remember (t, s) as st. clear Heqst0 Heqst Hempty.
  induction Hrun as [|st1 st2 st3 Hstep _ IH]; [done|]. by eapply IH, step_inv.
Qed.
End Runs.

(** ** Keys *)

Section KeySpec.
Context {U : Type} `{UL : UuidLaws U}.

Lemma hash_tag_length (o : U) : String.length (hash_tag o) = 43%nat.
Proof. unfold hash_tag. rewrite !str_length_app, uuid_str_length. done. Qed.

Lemma hash_tag_inj (o o' : U) : hash_tag o = hash_tag o' -> o = o'.
Proof.
  unfold hash_tag. intros Heq%str_app_cancel_l. apply str_app_cancel_r in Heq. by apply (inj uuid_str).
Qed.

Lemma counter_key_inj (o o' : U) s s' k k' i i' m m' w w' :
  counter_key o s k i m w = counter_key o' s' k' i' m' w' ->
  o = o' /\ s = s' /\ k = k' /\ i = i' /\ m = m' /\ w = w'.
Proof.
  unfold counter_key. intros Heq%str_app_cancel_l.
  apply str_app_inj_len in Heq as [->%hash_tag_inj Heq]; [|by rewrite !hash_tag_length].
  apply str_app_cancel_l in Heq.
  assert (s = s') as -> by (destruct s, s'; [done|discriminate|discriminate|done]).
  apply str_app_cancel_l, str_app_cancel_l in Heq.
  assert (k = k') as -> by (destruct k, k'; [done|discriminate|discriminate|done]).
  apply str_app_cancel_l, str_app_cancel_l in Heq.
  apply str_app_inj_len in Heq as [->%(inj uuid_str) Heq]; [|by rewrite !uuid_str_length].
  apply str_app_cancel_l in Heq.
  assert (m = m') as -> by (destruct m, m'; [done|discriminate|discriminate|done]).
  apply str_app_cancel_l, str_app_cancel_l in Heq. by apply (inj pretty) in Heq as ->.
Qed.

(** Two counters share a Redis key only when they are the same counter: same owner,
    surface, subject, metric and window. *)
Theorem counter_key_injective (o o' : U) s s' k k' i i' m m' w w' :
  counter_key o s k i m w = counter_key o' s' k' i' m' w' ->
  o = o' /\ s = s' /\ k = k' /\ i = i' /\ m = m' /\ w = w'.
Proof. apply counter_key_inj. Qed.

(** Redis Cluster: every counter of one owner carries the owner's hash tag. *)
Lemma counter_key_tagged (o : U) s k i m w :
  exists rest, counter_key o s k i m w = "ratelimit:" +:+ hash_tag o +:+ ":" +:+ rest.
Proof. unfold counter_key. eauto. Qed.
End KeySpec.

(** ** A request's counters *)

Section RequestCounters.
Context {St : Type} `{RL : RedisLaws St} {U : Type} `{UL : UuidLaws U}.
Implicit Types (s : St) (owner : U) (user : SurfaceConstraints).

(** Constraints as validation and the override merge leave them. *)
Definition rules_ok (rs : list SurfaceRule) : Prop :=
  Forall (fun r => is_allowed_window (sr_window_secs r) = true /\ 0 < sr_max_count r <= i64_max) rs /\
  NoDup ((fun r => (sr_metric r, sr_window_secs r)) <$> rs).

Lemma rule_counter_static owner r :
  is_allowed_window (rr_window_secs r) = true -> 0 < rr_max_count r <= i64_max ->
  static_ok (rule_counter owner r).
Proof.
  intros Hw Hm. unfold static_ok, rule_counter, bucket_secs; simpl.
  apply allowed_window_cases in Hw as [->|[->|[->|[->|[->| ->]]]]];
    (split; [by vm_compute|]); (split; [done|]); destruct (rr_metric r); auto.
Qed.

Lemma tagged_static owner surface kind id c :
  rules_ok (block_rules c surface) ->
  Forall static_ok (rule_counter owner <$> tagged_rules surface kind id c).
Proof.
  intros [Hall _]. rewrite Forall_forall in Hall. apply Forall_forall.
  intros x (r & -> & (y & -> & [_ Hy]%list_elem_of_filter)%list_elem_of_fmap)%list_elem_of_fmap.
  apply rule_counter_static; simpl; by apply Hall.
Qed.

Lemma tagged_nodup owner surface kind id c :
  rules_ok (block_rules c surface) ->
  NoDup (ct_key <$> (rule_counter owner <$> tagged_rules surface kind id c)).
Proof.
  intros [_ Hnd]. unfold tagged_rules. rewrite <- !list_fmap_compose.
  induction (block_rules c surface) as [|r rs IH]; [constructor|].
  apply NoDup_cons in Hnd as [Hn Hnd]. rewrite filter_cons. case_decide; [|by apply IH].
  simpl. constructor; [|by apply IH]. intros (x & Heq & [_ Hx]%list_elem_of_filter)%list_elem_of_fmap.
  apply counter_key_inj in Heq as (_ & _ & _ & _ & Hm & Hw). simpl in *.
  apply Hn. rewrite Hm, Hw. by apply (list_elem_of_fmap_2 (fun r => (sr_metric r, sr_window_secs r))).
Qed.

Lemma for_request_wf surface owner user key s :
  rules_ok (block_rules user surface) ->
  (forall lineage c, key = Some (lineage, c) -> rules_ok (block_rules c surface)) ->
  store_ok s ->
  wf (rule_counter owner <$> rq_rules (for_request surface owner user key)) s.
Proof.
  intros Hu Hk Hs. destruct (for_request_lists surface owner user key) as [-> _].
  apply wf_of_store; [done| |].
  - rewrite !fmap_app. apply NoDup_app. destruct key as [[lineage c]|].
    + split_and!; [by apply tagged_nodup| |by eapply tagged_nodup, Hk].
      intros k (x & -> & (r & -> & (y & -> & _)%list_elem_of_fmap)%list_elem_of_fmap)%list_elem_of_fmap.
      intros (x' & Heq & (r' & -> & (y' & -> & _)%list_elem_of_fmap)%list_elem_of_fmap)%list_elem_of_fmap.
      by apply counter_key_inj in Heq as (_ & _ & ? & _).
    + split_and!; [by apply tagged_nodup|set_solver|constructor].
  - rewrite fmap_app. apply Forall_app. split; [by apply tagged_static|].
    destruct key as [[lineage c]|]; [by eapply tagged_static, Hk|constructor].
Qed.

Lemma wf_prefix cs ks s : wf (cs ++ ks) s -> wf cs s.
Proof.
  intros [Hnd Hall]. rewrite fmap_app in Hnd. apply NoDup_app in Hnd as [Hnd _].
  apply Forall_app in Hall as [Hall _]. by split.
Qed.

Lemma allowed_iff_room cs now s s' o :
  wf cs s -> admit_counters_at LinkOk cs now s = (s', Ok o) ->
  co_allowed o = true <-> forall c, c ∈ cs -> window c now s < ct_max_count c.
Proof.
  intros Hwf Heq. destruct (any_full_dec cs now s) as [Hf|Hr].
  - destruct (admit_full now cs s Hwf Hf) as (s1 & o1 & i & c & Hi & Hfc & _ & Heq' & Ha & _).
    assert (o1 = o) as -> by congruence. rewrite Ha. split; [done|]. intros Hall.
    specialize (Hall c (list_elem_of_lookup_2 _ _ _ Hi)). unfold full in Hfc. lia.
  - destruct (admit_room now cs s Hwf Hr) as (s1 & o1 & Heq' & Ha & _).
    assert (o1 = o) as -> by congruence. rewrite Ha. split; [|done]. intros _ c Hc.
    specialize (Hr c Hc). unfold full in Hr. lia.
Qed.

Lemma admit_total cs now s :
  wf cs s -> exists s' o, admit_counters_at LinkOk cs now s = (s', Ok o).
Proof.
  intros Hwf. destruct (any_full_dec cs now s) as [Hf|Hr].
  - destruct (admit_full now cs s Hwf Hf) as (s' & o & ? & ? & _ & _ & _ & Heq & _). eauto.
  - destruct (admit_room now cs s Hwf Hr) as (s' & o & Heq & _). eauto.
Qed.

(** A request its owner's limits alone would refuse is refused with any key: the key's
    limits can only refuse more. *)
Theorem key_never_widens surface owner user key now s :
  wf (rule_counter owner <$> rq_rules (for_request surface owner user key)) s ->
  co_allowed <$> (admit_at LinkOk (rq_rules (for_request surface owner user key)) owner now false s).2
    = Ok true ->
  co_allowed <$> (admit_at LinkOk (rq_rules (for_request surface owner user None)) owner now false s).2
    = Ok true.
Proof.
  unfold admit_at. intros Hwf.
  destruct (for_request_lists surface owner user key) as [Hr _].
  destruct (for_request_lists surface owner user None) as [Hp _]. rewrite app_nil_r in Hp.
  rewrite <- Hp in Hr. rewrite Hr, fmap_app in *. clear Hr Hp.
  pose proof (wf_prefix _ _ _ Hwf) as Hwf'.
  destruct (admit_total _ now s Hwf) as (s1 & o1 & Heq1).
  destruct (admit_total _ now s Hwf') as (s2 & o2 & Heq2). rewrite Heq1, Heq2.
  cbn [snd fmap result_fmap].
  intros [= Ha]. f_equal. apply (allowed_iff_room _ _ _ _ _ Hwf' Heq2).
  intros c Hc. apply (proj1 (allowed_iff_room _ _ _ _ _ Hwf Heq1) Ha). set_solver.
Qed.

(** When Redis cannot be asked or does not answer, [fail_open] decides: open, the request
    goes through with nothing counted by this call's answer; closed, the error is returned.
    A call that never reached Redis leaves the store as it was. *)
Theorem admit_failure_policy l (rules : list (RateLimitRule U)) owner now fail_open s :
  l <> LinkOk -> rules <> [] ->
  (admit_at l rules owner now fail_open s).2 =
    (if fail_open then Ok CheckOutcome_open else Err ConnectionFailed) /\
  (l = LinkDown -> (admit_at l rules owner now fail_open s).1 = s).
Proof.
  intros Hl Hr. unfold admit_at, admit_counters_at.
  destruct rules as [|r rules]; [done|]. simpl. destruct l; by destruct fail_open.
Qed.
End RequestCounters.

(** ** The console's reading *)

Section ReadCount.
Context {St : Type} `{RL : RedisLaws St}.

Lemma read_list_spec (l : list (string * string)) oldest current :
  current = oldest + 59 -> NoDup l.*1 -> Forall (canonical (St := St)) l ->
  exists l', mapM (fun p : string * string => (fun v => (p.1, v)) <$> tonumber (St := St) p.2) l = Some l' /\
    foldr Z.add 0 ((filter (fun p : Z * Z => oldest <= p.1 <= current)
      (omap (fun p : string * Z => (fun b => (b, p.2)) <$> tonumber (St := St) p.1) l')).*2) =
    range_sum (lbucket (St := St) l) oldest 60.
Proof.
  intros Hc. induction l as [|p l IH]; intros Hnd Hcan.
  { exists []. split; [done|]. by rewrite range_sum_zero. }
  apply Forall_cons in Hcan as [(b0 & n & ->) Hcan]. apply NoDup_cons in Hnd as [Hn Hnd]. simpl in Hn.
  destruct (IH Hnd Hcan) as (l' & Hm & Hs). exists ((tostring b0, n) :: l'). split.
  { simpl. rewrite tonumber_tostring. simpl. by rewrite Hm. }
  rewrite (range_sum_point _ _ oldest 60 b0 n (fun b => lbucket_cons b0 n l b Hn)), <- Hs.
  simpl. rewrite tonumber_tostring. simpl. rewrite filter_cons.
  repeat case_decide; simpl in *; try lia; [apply Z.add_comm|symmetry; apply Z.add_0_r].
Qed.

(** The count the console reads is the sum the limiter compares with its limit. *)
Theorem read_count_is_window c (s : St) now_ms :
  0 < ct_bucket_secs c -> counter_ok (ct_key c) s ->
  read_count (ct_key c) (ct_bucket_secs c) (now_ms / 1000) s = Some (window c now_ms s).
Proof.
  intros Hb Hok. unfold read_count, window_sum.
  destruct (read_list_spec (hgetall (ct_key c) s) (cur c now_ms - 59) (cur c now_ms))
    as (l' & Hm & Hs); [lia|apply hgetall_nodup| |].
  { apply Forall_forall. intros [f v] (b & n & -> & -> & _)%elem_of_hgetall%Hok. by exists b, n. }
  rewrite Hm. simpl. destruct (ct_bucket_secs c <=? 0) eqn:E; zbool; [lia|].
  f_equal. exact Hs.
Qed.
End ReadCount.

(** ** Witnesses: a limit of two requests per minute, met twice in the first second *)

Definition demo_counter : Counter :=
  {| ct_key := "k"; ct_bucket_secs := 1; ct_max_count := 2; ct_charge := 1 |}.
Definition demo_once : hstore := (admit_counters_at LinkOk [demo_counter] 0 hs_empty).1.
Definition demo_twice : hstore := (admit_counters_at LinkOk [demo_counter] 0 demo_once).1.

Example demo_refused :
  co_retry_after_secs <$> (admit_counters_at LinkOk [demo_counter] 500 demo_twice).2 = Ok 60.
Proof. vm_compute. reflexivity. Qed.

Lemma demo_static : static_ok demo_counter.
Proof. unfold static_ok, i32_max, i64_max; simpl. lia. Qed.
Lemma hs_empty_get k f : hget k f hs_empty = None.
Proof. rewrite hget_hs. done. Qed.

Lemma demo_nodup : NoDup (ct_key <$> [demo_counter]).
Proof. apply NoDup_singleton. Qed.
Lemma demo_all : Forall static_ok [demo_counter].
Proof. apply Forall_singleton, demo_static. Qed.
Lemma demo_same c' : c' ∈ [demo_counter] -> ct_key c' = ct_key demo_counter -> c' = demo_counter.
Proof. set_solver. Qed.

Lemma demo_twice_inv : run_inv demo_counter (0, demo_twice).
Proof.
  do 2 (apply (admit_inv demo_counter [demo_counter] 0);
    [apply demo_static|apply demo_nodup|apply demo_all|apply demo_same|]).
  apply run_inv_empty; [apply demo_static|apply hs_empty_get].
Qed.

Lemma demo_wf : wf [demo_counter] demo_twice.
Proof. apply wf_of_store; [apply demo_twice_inv|apply demo_nodup|apply demo_all]. Qed.

Lemma admit_decides_witness :
  exists s' o, admit_counters_at LinkOk [demo_counter] 500 demo_twice = (s', Ok o) /\
    charged_if (co_allowed o) 500 [demo_counter] demo_twice s'.
Proof.
  destruct (admit_decides 500 [demo_counter] demo_twice demo_wf) as (s' & o & Heq & _ & Hch & _).
  exists s', o. exact (conj Heq Hch).
Defined.

Lemma retry_after_exact_witness :
  co_allowed <$> (admit_counters_at LinkOk [demo_counter] 60000
    (admit_counters_at LinkOk [demo_counter] 0 demo_twice).1).2 = Ok true.
Proof.
  assert (exists o, admit_counters_at LinkOk [demo_counter] 0 demo_twice =
    ((admit_counters_at LinkOk [demo_counter] 0 demo_twice).1, Ok o) /\ co_allowed o = false /\
    co_retry_after_secs o = 60) as (o & Heq & Hden & Hr)
    by (eexists; split; [vm_compute; reflexivity|split; reflexivity]).
  apply (retry_after_exact 0 [demo_counter] demo_twice _ o demo_wf); [|exact Heq|exact Hden|].
  - intros c ->%list_elem_of_singleton. apply demo_twice_inv.
  - rewrite Hr. lia.
Defined.

Lemma window_never_overfilled_witness : window demo_counter 1000 demo_once <= 2.
Proof.
  apply (window_never_overfilled demo_counter 0 hs_empty 0 demo_once);
    [apply demo_static|apply hs_empty_get| |lia].
  apply rtc_once. apply (step_admit demo_counter LinkOk [demo_counter] 0 0 hs_empty);
    [lia|apply demo_nodup|apply demo_all|apply demo_same].
Defined.

(** Any text equal to a counter's key is the key of that counter only. *)
Lemma counter_key_injective_witness :
  UAlice = UAlice /\ Surface.AiGateway = Surface.AiGateway /\ RateLimitSubject.User = RateLimitSubject.User /\
  UAlice = UAlice /\ RateMetric.Tokens = RateMetric.Tokens /\ 60 = 60.
Proof.
  apply (counter_key_injective UAlice UAlice Surface.AiGateway Surface.AiGateway RateLimitSubject.User
    RateLimitSubject.User UAlice UAlice RateMetric.Tokens RateMetric.Tokens 60 60). reflexivity.
Defined.

Definition demo_limits n : SurfaceConstraints :=
  {| sc_ai_gateway := Some {| blk_rules := [demo_rule n]; blk_budgets := [] |}; sc_mcp_gateway := None |}.

Lemma demo_limits_ok n : 0 < n <= i64_max -> rules_ok (block_rules (demo_limits n) Surface.AiGateway).
Proof.
  intros Hn. split; [apply Forall_singleton; by split|apply NoDup_singleton].
Qed.

Lemma demo_key_ok lineage c :
  Some (UKey1, demo_limits 10) = Some (lineage, c) -> rules_ok (block_rules c Surface.AiGateway).
Proof. intros [= <- <-]. apply demo_limits_ok. by vm_compute. Qed.

Lemma key_never_widens_witness :
  co_allowed <$> (admit_at LinkOk (rq_rules (for_request Surface.AiGateway UAlice (demo_limits 100) None))
                    UAlice 0 false hs_empty).2 = Ok true.
Proof.
  apply (key_never_widens Surface.AiGateway UAlice (demo_limits 100) (Some (UKey1, demo_limits 10)) 0 hs_empty).
  - apply for_request_wf; [apply demo_limits_ok; by vm_compute|apply demo_key_ok|].
    intros k f v Hv. by rewrite hs_empty_get in Hv.
  - vm_compute. reflexivity.
Defined.

Lemma admit_failure_policy_witness :
  (admit_at LinkDown [demo_row] UAlice 0 true hs_empty).2 = Ok CheckOutcome_open.
Proof. apply (admit_failure_policy LinkDown [demo_row] UAlice 0 true hs_empty); discriminate. Defined.

Lemma read_count_is_window_witness :
  read_count "k" 1 0 demo_twice = Some (window demo_counter 0 demo_twice).
Proof. apply (read_count_is_window demo_counter demo_twice 0); [simpl; lia|apply demo_twice_inv]. Defined.
