(* ===== verification/Budget.v ===== *)
(** * Natural-period budgets

    [crates/common/src/limits/budget.rs]: threshold crossings, calendar buckets and their
    ends, and the reads and adds on the period counters.  A time is nanoseconds of Unix time,
    as [DateTime<Utc>] keeps it. *)

From Stdlib Require Import DecimalString DecimalN DecimalFacts.
From S2P Require Import Prelude Interfaces LimitTypes Sliding.

(** ** Threshold crossings *)

Definition ALERT_THRESHOLDS_PCT : list Z := [50; 80; 95; 100].

Definition threshold (limit pct : Z) : Z := wrap_i64 (Z.quot (limit * pct) 100).

Definition crossed_thresholds (prev new limit : Z) : list Z :=
  if (limit <=? 0) || (new <=? prev) then []
  else filter (fun pct => prev < threshold limit pct /\ threshold limit pct <= new) ALERT_THRESHOLDS_PCT.

(** ** Calendar buckets *)

Definition ns_per_day : Z := 86400 * 1000000000.
Definition date_naive (now : Z) : Z := now / ns_per_day.

(** [{:0w}] of a number that is not negative. *)
Fixpoint pad_uint (w : nat) (u : Decimal.uint) : Decimal.uint :=
  match w with
  | O => u
  | S w' => if (Decimal.nb_digits u <? w)%nat then pad_uint w' (Decimal.D0 u) else u
  end.
Definition fmt_pad (w : nat) (n : Z) : string :=
  NilEmpty.string_of_uint (pad_uint w (N.to_uint (Z.to_N n))).

Section Periods.
Context `{Calendar}.

Definition bucket_id (period : string) (now : Z) : string :=
  if decide (period = "daily") then fmt_ymd (date_naive now)
  else if decide (period = "weekly") then
    let iso := iso_week (date_naive now) in
    fmt_pad 4 iso.1 +:+ "-W" +:+ fmt_pad 2 iso.2
  else if decide (period = "monthly") then fmt_ym (date_naive now)
  else fmt_ym (date_naive now).

Definition period_end (period : BudgetPeriod.t) (now : Z) : Z :=
  let today := date_naive now in
  let first_day_after :=
    match period with
    | BudgetPeriod.Daily => today + 1
    | BudgetPeriod.Weekly => today + (7 - weekday today)
    | BudgetPeriod.Monthly => next_month (month_first today)
    end in
  first_day_after * ns_per_day.

(** [num_milliseconds] drops what is below a millisecond. *)
Definition secs_until_period_end (period : BudgetPeriod.t) (now : Z) : Z :=
  retry_after_secs (Z.quot (period_end period now - now) 1000000).

Definition period_ttl_secs (period : string) : Z :=
  if decide (period = "daily") then 2 * 86400
  else if decide (period = "weekly") then 2 * 7 * 86400
  else if decide (period = "monthly") then 2 * 31 * 86400
  else 31 * 86400.

Definition build_key {U} `{Uuid U} (subject_kind : string) (subject_id : U) (period : string) (now : Z)
    : string :=
  "budget:" +:+ subject_kind +:+ ":" +:+ uuid_str subject_id +:+ ":" +:+ period +:+ ":" +:+
  bucket_id period now.
End Periods.

(** ** Reads and adds *)

Section Spend.
Context `{Calendar} {St : Type} `{RedisKV St} {U : Type} `{Uuid U}.

Record CapStatus := {
  cs_cap_id : U;
  cs_subject_kind : BudgetSubject.t;
  cs_subject_id : U;
  cs_current : Z;
  cs_limit : Z;
}.

Record BudgetCrossing := {
  cx_cap_id : U;
  cx_subject_kind : string;
  cx_subject_id : U;
  cx_period : string;
  cx_threshold_pct : Z;
  cx_limit_tokens : Z;
  cx_current_tokens : Z;
}.

Definition cap_key (cap : BudgetCap U) (now : Z) : string :=
  build_key (BudgetSubject.as_str (bc_subject_kind cap)) (bc_subject_id cap)
    (BudgetPeriod.as_str (bc_period cap)) now.

Definition cap_status (cap : BudgetCap U) (current : Z) : CapStatus :=
  {| cs_cap_id := bc_id cap; cs_subject_kind := bc_subject_kind cap;
     cs_subject_id := bc_subject_id cap; cs_current := current; cs_limit := bc_limit_tokens cap |}.

(** One [GET] over link [l]. *)
Definition spend (l : link) (cap : BudgetCap U) (now : Z) (s : St) : result redis_error Z :=
  match l with
  | LinkOk => match kget (cap_key cap now) s with
              | Ok v => Ok (default 0 v)
              | Err _ => Err ScriptRaised
              end
  | _ => Err ConnectionFailed
  end.

(** [read_spend] and [current_spend]: one read per cap, the first error ends it.  [links i] is
    how the [i]-th command's connection does. *)
Fixpoint read_spend (links : nat -> link) (caps : list (BudgetCap U)) (now : Z) (s : St)
    : result redis_error (list CapStatus) :=
  match caps with
  | [] => Ok []
  | cap :: caps =>
      v ← spend (links 0%nat) cap now s;
      rest ← read_spend (fun i => links (S i)) caps now s;
      Ok (cap_status cap v :: rest)
  end.

(** [LUA_INCR_AND_EXPIRE]. *)
Definition lua_incr_and_expire (key : string) (amount ttl : Z) (s : St) : St * option Z :=
  match kincrby key amount s with
  | None => (s, None)
  | Some s =>
      match kget key s with
      | Ok (Some n) => (kexpire key ttl s, Some n)
      | _ => (kexpire key ttl s, None)
      end
  end.

Definition crossings_of (cap : BudgetCap U) (weighted_tokens new_total : Z) : list BudgetCrossing :=
  (fun pct => {| cx_cap_id := bc_id cap;
     cx_subject_kind := BudgetSubject.as_str (bc_subject_kind cap);
     cx_subject_id := bc_subject_id cap;
     cx_period := BudgetPeriod.as_str (bc_period cap);
     cx_threshold_pct := pct;
     cx_limit_tokens := bc_limit_tokens cap;
     cx_current_tokens := new_total |}) <$>
  crossed_thresholds (new_total - weighted_tokens) new_total (bc_limit_tokens cap).

Fixpoint add_loop (links : nat -> link) (caps : list (BudgetCap U)) (weighted_tokens now : Z) (s : St)
    : St * (list CapStatus * list BudgetCrossing) :=
  match caps with
  | [] => (s, ([], []))
  | cap :: caps =>
      let '(s, r) := run_script (links 0%nat)
        (lua_incr_and_expire (cap_key cap now) weighted_tokens
           (period_ttl_secs (BudgetPeriod.as_str (bc_period cap)))) s in
      let '(s', (out, crossings)) := add_loop (fun i => links (S i)) caps weighted_tokens now s in
      match r with
      | Err _ => (s', (out, crossings))
      | Ok new_total =>
          (s', (cap_status cap new_total :: out,
                crossings_of cap weighted_tokens new_total ++ crossings))
      end
  end.

(** It logs an error and goes on, so its [Result] is always [Ok]. *)
Definition add_weighted_tokens (links : nat -> link) (caps : list (BudgetCap U))
    (weighted_tokens now : Z) (s : St)
    : St * result redis_error (list CapStatus * list BudgetCrossing) :=
  if bool_decide (caps = []) || (weighted_tokens <=? 0) then (s, Ok ([], []))
  else let '(s, r) := add_loop links caps weighted_tokens now s in (s, Ok r).
End Spend.
Arguments CapStatus : clear implicits.
Arguments BudgetCrossing : clear implicits.

(** ** Each alert fires once *)

Lemma threshold_value limit pct :
  0 < limit <= i64_max -> 0 <= pct <= 100 -> threshold limit pct = limit * pct / 100.
Proof.
  intros Hl Hp. unfold threshold. rewrite Z.quot_div_nonneg by nia.
  apply wrap_i64_id. unfold in_i64, i64_min, i64_max in *.
  split; [apply Z.le_trans with 0; [lia|apply Z.div_pos; nia]|].
  apply Z.div_le_upper_bound; nia.
Qed.

(** The alerts of a run of adds to one period's counter, from [spent]. *)
Fixpoint alerts (limit spent : Z) (adds : list Z) : list Z :=
  match adds with
  | [] => []
  | a :: adds => crossed_thresholds spent (spent + a) limit ++ alerts limit (spent + a) adds
  end.

Definition fires (pct : Z) (l : list Z) : nat := length (filter (fun x => x = pct) l).

Lemma fires_app pct l l' : fires pct (l ++ l') = (fires pct l + fires pct l')%nat.
Proof. unfold fires. by rewrite filter_app, length_app. Qed.

Lemma fires_filter pct (P : Z -> Prop) `{!forall x, Decision (P x)} :
  pct ∈ ALERT_THRESHOLDS_PCT ->
  fires pct (filter P ALERT_THRESHOLDS_PCT) = if decide (P pct) then 1%nat else 0%nat.
Proof.
  intros Hp. unfold fires. rewrite list_filter_filter.
  unfold ALERT_THRESHOLDS_PCT in *. rewrite !elem_of_cons, elem_of_nil in Hp.
  destruct Hp as [->|[->|[->|[->|[]]]]]; rewrite !filter_cons, filter_nil;
    repeat case_decide; simpl; try done; exfalso; naive_solver.
Qed.

Lemma fires_crossed prev new limit pct :
  0 < limit -> prev < new -> pct ∈ ALERT_THRESHOLDS_PCT ->
  fires pct (crossed_thresholds prev new limit) =
  if decide (prev < threshold limit pct <= new) then 1%nat else 0%nat.
Proof.
  intros Hl Hlt Hp. unfold crossed_thresholds.
  destruct ((limit <=? 0) || (new <=? prev)) eqn:E.
  { apply orb_true_iff in E as [E|E]; zbool; lia. }
  by rewrite fires_filter.
Qed.

Lemma fires_alerts limit pct spent adds :
  0 < limit -> Forall (fun a => 0 < a) adds -> pct ∈ ALERT_THRESHOLDS_PCT ->
  fires pct (alerts limit spent adds) =
  if decide (spent < threshold limit pct <= foldl Z.add spent adds) then 1%nat else 0%nat.
Proof.
  intros Hl Hall Hp. revert spent. induction Hall as [|a adds Ha Hall IH]; intros spent; simpl.
  { rewrite decide_False by lia. done. }
  rewrite fires_app, fires_crossed, IH by (done || lia).
  assert (spent + a <= foldl Z.add (spent + a) adds) as Hmono.
  { clear -Hall. generalize (spent + a). induction Hall as [|x xs Hx _ IHx]; intros z; simpl; [lia|].
    specialize (IHx (z + x)). lia. }
  repeat case_decide; lia.
Qed.

(** Over the adds of one period, whatever their sizes and number, each alert threshold
    fires exactly once if the spend reaches it and never otherwise (a threshold that rounds
    down to 0 tokens never fires). *)
Theorem alerts_fire_once limit pct adds :
  0 < limit <= i64_max -> Forall (fun a => 0 < a) adds -> pct ∈ ALERT_THRESHOLDS_PCT ->
  fires pct (alerts limit 0 adds) =
  if decide (0 < limit * pct / 100 <= foldl Z.add 0 adds) then 1%nat else 0%nat.
Proof.
  intros Hl Hall Hp. rewrite fires_alerts by (done || lia). rewrite threshold_value; [done|done|].
  unfold ALERT_THRESHOLDS_PCT in Hp. set_unfold in Hp. lia.
Qed.

(** ** Periods end where their bucket changes *)

Lemma pad_uint_value w u : N.of_uint (pad_uint w u) = N.of_uint u.
Proof.
  revert u. induction w as [|w IH]; intros u; cbn [pad_uint]; [done|].
  destruct (Decimal.nb_digits u <? S w)%nat; [|done]. by rewrite IH.
Qed.

Lemma fmt_pad_inj w a b : 0 <= a -> 0 <= b -> fmt_pad w a = fmt_pad w b -> a = b.
Proof.
  intros Ha Hb Heq. unfold fmt_pad in Heq. apply (f_equal NilEmpty.uint_of_string) in Heq.
  rewrite !NilEmpty.usu in Heq. injection Heq as Heq. apply (f_equal N.of_uint) in Heq.
  rewrite !pad_uint_value, !DecimalN.Unsigned.of_to in Heq. lia.
Qed.

Lemma fmt_pad_week n : 1 <= n <= 53 -> String.length (fmt_pad 2 n) = 2%nat.
Proof.
  intros Hn.
  assert (n ∈ seqZ 1 53) as Hin by (apply elem_of_seqZ; lia). clear Hn.
  revert n Hin. apply Forall_forall. vm_compute. by repeat constructor.
Qed.

Section PeriodSpec.
Context `{CL : CalendarLaws}.

Lemma weekday_add d k : 0 <= k -> weekday d + k < 7 -> weekday (d + k) = weekday d + k.
Proof.
  intros Hk. pattern k. apply natlike_ind; [|clear k Hk; intros k Hk IH Hlt|done].
  - intros. by rewrite !Z.add_0_r.
  - replace (d + Z.succ k) with (d + k + 1) by lia. rewrite weekday_succ, IH by lia.
    pose proof (weekday_range d). rewrite Z.mod_small; lia.
Qed.

Lemma week_text_inj d d' :
  0 <= d -> 0 <= d' ->
  fmt_pad 4 (iso_week d).1 +:+ "-W" +:+ fmt_pad 2 (iso_week d).2 =
  fmt_pad 4 (iso_week d').1 +:+ "-W" +:+ fmt_pad 2 (iso_week d').2 ->
  iso_week d = iso_week d'.
Proof.
  intros Hd Hd' Heq. destruct (iso_week_range d Hd) as [Hy Hw], (iso_week_range d' Hd') as [Hy' Hw'].
  rewrite <- !str_app_assoc in Heq. apply str_app_inj_len in Heq as [Heq1 Heq2].
  - apply str_app_cancel_r in Heq1. apply fmt_pad_inj in Heq1, Heq2; try lia.
    destruct (iso_week d), (iso_week d'); simpl in *; congruence.
  - apply (f_equal String.length) in Heq. rewrite !str_length_app, !fmt_pad_week in Heq by lia.
    rewrite !str_length_app. lia.
Qed.

Lemma period_end_day p now :
  exists e, period_end p now = e * ns_per_day /\ date_naive now < e <= date_naive now + 31 /\
    (forall d, date_naive now <= d < e -> forall t, date_naive t = d -> 0 <= now ->
       bucket_id (BudgetPeriod.as_str p) t = bucket_id (BudgetPeriod.as_str p) now) /\
    (forall t, date_naive t = e -> 0 <= now ->
       bucket_id (BudgetPeriod.as_str p) t <> bucket_id (BudgetPeriod.as_str p) now).
Proof.
  set (d0 := date_naive now). pose proof (weekday_range d0) as Hwr.
  unfold period_end. fold d0. eexists. split; [done|]. unfold bucket_id. fold d0.
  assert (0 <= now -> 0 <= d0) as Hd0 by (intros; apply Z.div_pos; unfold ns_per_day; lia).
  destruct p; simpl.
  - split_and!; [lia|lia| |].
    + intros d Hd t Ht _. rewrite Ht. by replace d with d0 by lia.
    + intros t Ht _ Heq. apply (inj fmt_ymd) in Heq. lia.
  - split_and!; [lia|lia| |].
    + intros d Hd t Ht Hn. rewrite Ht. replace d with (d0 + (d - d0)) by lia.
      assert (iso_week (d0 + (d - d0)) = iso_week d0) as ->; [|done].
      apply iso_week_monday. rewrite weekday_add by lia. lia.
    + intros t Ht Hn Heq. apply week_text_inj in Heq; [|specialize (Hd0 Hn); lia|auto].
      apply iso_week_monday in Heq. rewrite Ht in Heq.
      pose proof (weekday_range (d0 + (7 - weekday d0))). lia.
  - pose proof (next_month_after d0). split_and!; [lia|lia| |].
    + intros d Hd t Ht _. rewrite Ht. apply fmt_ym_month, month_days.
      pose proof (month_first_le d0). lia.
    + intros t Ht _ Heq. apply fmt_ym_month, month_days in Heq. lia.
Qed.

(** A budget period's end is the first moment whose counter is another one: the bucket is
    the same from now until then, different then, and the wait is at most 31 days. *)
Theorem period_end_is_boundary p now :
  0 <= now ->
  now < period_end p now <= now + 31 * ns_per_day /\
  (forall t, now <= t < period_end p now ->
     bucket_id (BudgetPeriod.as_str p) t = bucket_id (BudgetPeriod.as_str p) now) /\
  bucket_id (BudgetPeriod.as_str p) (period_end p now) <> bucket_id (BudgetPeriod.as_str p) now.
Proof.
  intros Hn. destruct (period_end_day p now) as (e & -> & He & Hin & Hout).
  assert (forall t, date_naive t * ns_per_day <= t < (date_naive t + 1) * ns_per_day) as Hday.
  { intros t. unfold date_naive, ns_per_day. pose proof (Z.div_mod t (86400 * 1000000000)).
    pose proof (Z.mod_pos_bound t (86400 * 1000000000)). lia. }
  pose proof (Hday now). unfold ns_per_day in *. split_and!; [nia|nia| |].
  - intros t Ht. pose proof (Hday t). apply (Hin (date_naive t)); [|done|done]. nia.
  - apply Hout; [|done]. unfold date_naive, ns_per_day. by rewrite Z.div_mul.
Qed.

(** The seconds a refused request is told to wait.  They are never a second too many; they
    cover the time left up to the fraction of a millisecond that is dropped. *)
Theorem secs_until_period_end_bounds p now :
  0 <= now ->
  let left := period_end p now - now in
  1000000000 * (secs_until_period_end p now - 1) < left /\
  left < 1000000000 * secs_until_period_end p now + 1000000.
Proof.
  intros Hn left. destruct (period_end_day p now) as (e & Hpe & He & _).
  assert (0 < left <= 31 * ns_per_day) as Hleft.
  { unfold left. rewrite Hpe. unfold date_naive, ns_per_day in *.
    pose proof (Z.div_mod now (86400 * 1000000000)). pose proof (Z.mod_pos_bound now (86400 * 1000000000)). nia. }
  unfold secs_until_period_end. fold left. unfold ns_per_day in Hleft.
  rewrite Z.quot_div_nonneg by lia.
  pose proof (Z.div_mod left 1000000 ltac:(lia)). pose proof (Z.mod_pos_bound left 1000000 ltac:(lia)).
  set (ms := left / 1000000) in *. unfold retry_after_secs, wrap_u64.
  rewrite (Z.max_l ms 0), Z.mod_small by lia. pose proof (div_ceil_spec ms 1000 ltac:(lia)). lia.
Qed.
End PeriodSpec.

(** The dropped fraction: 1000.5 ms before midnight the answer is one second. *)
Example wait_drops_fraction :
  secs_until_period_end BudgetPeriod.Daily (ns_per_day - 1000500000) = 1.
Proof. vm_compute. reflexivity. Qed.

(** ** Adding spend *)

Section SpendSpec.
Context `{Calendar} {St : Type} `{KL : RedisKVLaws St} {U : Type} `{UL : UuidLaws U}.
Implicit Types (s : St) (cap : BudgetCap U) (caps : list (BudgetCap U)).

(** Two caps share a counter only when they are on the same subject and period. *)
Lemma cap_key_inj cap cap' now :
  cap_key cap now = cap_key cap' now ->
  bc_subject_kind cap = bc_subject_kind cap' /\ bc_subject_id cap = bc_subject_id cap' /\
  bc_period cap = bc_period cap'.
Proof.
  unfold cap_key, build_key. intros Heq%str_app_cancel_l.
  assert (bc_subject_kind cap = bc_subject_kind cap') as Hk.
  { destruct (bc_subject_kind cap), (bc_subject_kind cap'); [done|discriminate|discriminate|done]. }
  rewrite Hk in Heq. apply str_app_cancel_l, str_app_cancel_l in Heq.
  apply str_app_inj_len in Heq as [Hid%(inj uuid_str) Heq]; [|by rewrite !uuid_str_length].
  apply str_app_cancel_l in Heq.
  assert (bc_period cap = bc_period cap') as Hp
    by (destruct (bc_period cap), (bc_period cap'); done || discriminate).
  done.
Qed.

Lemma incr_and_expire_spec k w ttl s o :
  kget k s = Ok o -> in_i64 (default 0 o + w) ->
  exists s', lua_incr_and_expire k w ttl s = (s', Some (default 0 o + w)) /\
    forall k', kget k' s' = if decide (k' = k) then Ok (Some (default 0 o + w)) else kget k' s.
Proof.
  intros Ho Hi. destruct (kincrby_succeeds k w s o Ho Hi) as [s1 Hs1].
  unfold lua_incr_and_expire. rewrite Hs1. apply kincrby_Some in Hs1 as (o' & Ho' & Hget).
  assert (o' = o) as -> by congruence.
  rewrite (Hget k), decide_True by done. eexists. split; [done|].
  intros k'. rewrite kget_kexpire. apply Hget.
Qed.

(** What a call leaves on a counter, by how its link did. *)
Definition after_add (l : link) (w : Z) (o : option Z) : option Z :=
  match l with LinkDown => o | _ => Some (default 0 o + w) end.

Lemma run_incr_spec l k w ttl s o :
  kget k s = Ok o -> in_i64 (default 0 o + w) ->
  exists s' r, run_script l (lua_incr_and_expire k w ttl) s = (s', r) /\
    r = (match l with LinkOk => Ok (default 0 o + w) | _ => Err ConnectionFailed end) /\
    forall k', kget k' s' = if decide (k' = k) then Ok (after_add l w o) else kget k' s.
Proof.
  intros Ho Hi. destruct (incr_and_expire_spec k w ttl s o Ho Hi) as (s1 & Heq & Hget).
  unfold run_script. destruct l; rewrite ?Heq; simpl; eexists _, _; (split; [done|]); (split; [done|]).
  - done.
  - intros k'. case_decide; congruence.
  - done.
Qed.

Lemma add_loop_spec links caps w now s :
  NoDup ((fun cap => cap_key cap now) <$> caps) ->
  (forall cap, cap ∈ caps -> exists o, kget (cap_key cap now) s = Ok o /\ in_i64 (default 0 o + w)) ->
  exists s' out cx, add_loop links caps w now s = (s', (out, cx)) /\
    (forall k, k ∉ (fun cap => cap_key cap now) <$> caps -> kget k s' = kget k s) /\
    (forall i cap o, caps !! i = Some cap -> kget (cap_key cap now) s = Ok o ->
       kget (cap_key cap now) s' = Ok (after_add (links i) w o)) /\
    (forall st, st ∈ out <-> exists i cap o, caps !! i = Some cap /\ links i = LinkOk /\
       kget (cap_key cap now) s = Ok o /\ st = cap_status cap (default 0 o + w)) /\
    (forall x, x ∈ cx <-> exists i cap o, caps !! i = Some cap /\ links i = LinkOk /\
       kget (cap_key cap now) s = Ok o /\ x ∈ crossings_of cap w (default 0 o + w)).
Proof.
  revert links s. induction caps as [|cap caps IH]; intros links s Hnd Hcaps.
  { exists s, [], []. split_and!; [done|done|done|set_solver|set_solver]. }
  apply NoDup_cons in Hnd as [Hn Hnd].
  destruct (Hcaps cap) as (o & Ho & Hi); [set_solver|].
  destruct (run_incr_spec (links 0%nat) (cap_key cap now) w
    (period_ttl_secs (BudgetPeriod.as_str (bc_period cap))) s o Ho Hi) as (s1 & r & Hrun & Hr & Hget).
  assert (forall cap', cap' ∈ caps -> kget (cap_key cap' now) s1 = kget (cap_key cap' now) s) as Hother.
  { intros cap' Hc'. rewrite Hget, decide_False; [done|]. intros Heq. apply Hn. simpl. rewrite <- Heq.
    by apply (list_elem_of_fmap_2 (fun cap => cap_key cap now)). }
  destruct (IH (fun i => links (S i)) s1 Hnd) as (s' & out & cx & Hloop & Hfr & Hc & Hout & Hcx).
  { intros cap' Hc'. rewrite Hother by done. apply Hcaps. set_solver. }
  assert (forall i cap', caps !! i = Some cap' -> kget (cap_key cap' now) s1 = kget (cap_key cap' now) s)
    as Hoi by (intros; by eapply Hother, list_elem_of_lookup_2).
  exists s', (match links 0%nat with LinkOk => cap_status cap (default 0 o + w) :: out | _ => out end),
    (match links 0%nat with LinkOk => crossings_of cap w (default 0 o + w) ++ cx | _ => cx end).
  split_and!.
  - simpl. rewrite Hrun, Hloop, Hr. by destruct (links 0%nat).
  - intros k Hk. rewrite Hfr by set_solver. rewrite Hget, decide_False by set_solver. done.
  - intros [|i] cap' o' Hi' Ho'; simplify_eq/=.
    + rewrite Hfr, Hget, decide_True by done. congruence.
    + apply Hc; [done|]. by rewrite (Hoi i cap' Hi').
  - intros st. transitivity ((links 0%nat = LinkOk /\ st = cap_status cap (default 0 o + w)) \/ st ∈ out).
    { destruct (links 0%nat); set_solver. }
    rewrite Hout. split.
    + intros [[? ->]|(i & cap' & o' & Hi' & ? & Ho' & ->)]; [by exists 0%nat, cap, o|].
      exists (S i), cap', o'. by rewrite <- (Hoi i cap' Hi').
    + intros ([|i] & cap' & o' & Hi' & ? & Ho' & ->); simplify_eq/=; [left; split; congruence|].
      right. exists i, cap', o'. by rewrite (Hoi i cap' Hi').
  - intros x. transitivity ((links 0%nat = LinkOk /\ x ∈ crossings_of cap w (default 0 o + w)) \/ x ∈ cx).
    { destruct (links 0%nat); set_solver. }
    rewrite Hcx. split.
    + intros [[? ?]|(i & cap' & o' & Hi' & ? & Ho' & ?)]; [by exists 0%nat, cap, o|].
      exists (S i), cap', o'. by rewrite <- (Hoi i cap' Hi').
    + intros ([|i] & cap' & o' & Hi' & ? & Ho' & ?); simplify_eq/=; [left; split; congruence|].
      right. exists i, cap', o'. by rewrite (Hoi i cap' Hi').
Qed.

(** Adding a call's tokens.  Every cap whose command reached Redis has its own counter
    raised by exactly that amount, even when the reply was lost; a cap whose command did not
    is unchanged and does not stop the others; no other key changes; a status and the
    crossings of its step are reported for exactly the caps that answered. *)
Theorem add_weighted_tokens_counts links caps w now s :
  0 < w -> caps <> [] ->
  NoDup ((fun cap => (bc_subject_kind cap, bc_subject_id cap, bc_period cap)) <$> caps) ->
  (forall cap, cap ∈ caps -> exists o, kget (cap_key cap now) s = Ok o /\ in_i64 (default 0 o + w)) ->
  exists s' out cx, add_weighted_tokens links caps w now s = (s', Ok (out, cx)) /\
    (forall k, k ∉ (fun cap => cap_key cap now) <$> caps -> kget k s' = kget k s) /\
    (forall i cap o, caps !! i = Some cap -> kget (cap_key cap now) s = Ok o ->
       kget (cap_key cap now) s' = Ok (after_add (links i) w o)) /\
    (forall st, st ∈ out <-> exists i cap o, caps !! i = Some cap /\ links i = LinkOk /\
       kget (cap_key cap now) s = Ok o /\ st = cap_status cap (default 0 o + w)) /\
    (forall x, x ∈ cx <-> exists i cap o, caps !! i = Some cap /\ links i = LinkOk /\
       kget (cap_key cap now) s = Ok o /\ x ∈ crossings_of cap w (default 0 o + w)).
Proof.
  intros Hw Hne Hnd Hcaps.
  destruct (add_loop_spec links caps w now s) as (s' & out & cx & Hloop & Hrest); [|done|].
  { clear -Hnd UL. induction caps as [|cap caps IH]; [constructor|].
    apply NoDup_cons in Hnd as [Hn Hnd]. constructor; [|by apply IH].
    intros (cap' & (Hk & Hi & Hp)%cap_key_inj & Hin)%list_elem_of_fmap. apply Hn.
    rewrite Hk, Hi, Hp.
    by apply (list_elem_of_fmap_2 (fun cap => (bc_subject_kind cap, bc_subject_id cap, bc_period cap))). }
  exists s', out, cx. split; [|done]. unfold add_weighted_tokens.
  rewrite bool_decide_eq_false_2 by done. destruct (w <=? 0) eqn:E; zbool; [lia|].
  simpl. by rewrite Hloop.
Qed.
End SpendSpec.

(** ** Witnesses *)

Definition demo_cap : BudgetCap demo_uuid :=
  {| bc_id := UNil; bc_subject_kind := BudgetSubject.User; bc_subject_id := UAlice;
     bc_period := BudgetPeriod.Daily; bc_limit_tokens := 1000; bc_enabled := true;
     bc_expires_at := None; bc_reason := None; bc_created_by := None |}.

Lemma alerts_fire_once_witness : fires 80 (alerts 1000 0 [300; 600; 50]) = 1%nat.
Proof.
  rewrite (alerts_fire_once 1000 80 [300; 600; 50]); [reflexivity|by vm_compute|by repeat constructor|].
  unfold ALERT_THRESHOLDS_PCT. set_solver.
Defined.

Lemma period_end_is_boundary_witness :
  0 < period_end BudgetPeriod.Weekly 0 <= 0 + 31 * ns_per_day.
Proof. apply (period_end_is_boundary BudgetPeriod.Weekly 0). lia. Defined.

Lemma secs_until_period_end_bounds_witness :
  1000000000 * (secs_until_period_end BudgetPeriod.Daily 0 - 1) < period_end BudgetPeriod.Daily 0 - 0.
Proof. apply (secs_until_period_end_bounds BudgetPeriod.Daily 0). lia. Defined.

Lemma add_weighted_tokens_counts_witness :
  exists s' out cx, add_weighted_tokens (fun _ => LinkOk) [demo_cap] 600 0 (∅ : gmap string Z) = (s', Ok (out, cx)) /\
    kget (cap_key demo_cap 0) s' = Ok (Some 600).
Proof.
  destruct (add_weighted_tokens_counts (fun _ => LinkOk) [demo_cap] 600 0 (∅ : gmap string Z))
    as (s' & out & cx & Heq & _ & Hc & _).
  - lia.
  - discriminate.
  - apply NoDup_singleton.
  - intros cap ->%list_elem_of_singleton. exists None. split; [vm_compute; reflexivity|by vm_compute].
  - exists s', out, cx. split; [exact Heq|]. apply (Hc 0%nat demo_cap None); [reflexivity|vm_compute; reflexivity].
Defined.
