(* ===== verification/Float64.v ===== *)
(** * [f64]: IEEE 754 binary64

    The routing weights, latencies and error rates of the gateway are [f64] (and Lua numbers,
    which are doubles).  They are the Standard Library's [spec_float] at 53 bits of precision
    here: every operation rounds as the hardware does, so a statement about a sum or a
    comparison is a statement about the sum the program computes.  [powf] and the random
    source are not specified bit for bit by the platform; the files that use them take them
    as arguments. *)

From Stdlib Require Import SpecFloat.
From S2P Require Import Prelude.

Abbreviation f64 := spec_float.

Definition f64_add : f64 -> f64 -> f64 := SFadd 53 1024.
Definition f64_sub : f64 -> f64 -> f64 := SFsub 53 1024.
Definition f64_mul : f64 -> f64 -> f64 := SFmul 53 1024.
Definition f64_div : f64 -> f64 -> f64 := SFdiv 53 1024.
Definition f64_ltb : f64 -> f64 -> bool := SFltb.
Definition f64_leb : f64 -> f64 -> bool := SFleb.

(** [z as f64], rounding to nearest. *)
Definition f64_of_Z (z : Z) : f64 := binary_normalize 53 1024 z 0 false.

Definition f64_zero : f64 := S754_zero false.
Definition f64_one : f64 := f64_of_Z 1.
Definition f64_hundred : f64 := f64_of_Z 100.
(** The literals [0.2], [0.8] and [1.2]: the nearest doubles. *)
Definition f64_0_2 : f64 := f64_div f64_one (f64_of_Z 5).
Definition f64_0_8 : f64 := f64_div (f64_of_Z 4) (f64_of_Z 5).
Definition f64_1_2 : f64 := f64_div (f64_of_Z 6) (f64_of_Z 5).

(** [f64::max]: the other operand when one is NaN. *)
Definition f64_max (x y : f64) : f64 :=
  match x, y with
  | S754_nan, _ => y
  | _, S754_nan => x
  | _, _ => if f64_ltb x y then y else x
  end.

(** [f64::clamp]: NaN stays NaN. *)
Definition f64_clamp (x lo hi : f64) : f64 :=
  if f64_ltb x lo then lo else if f64_ltb hi x then hi else x.

(** [Iterator::sum] over [f64] folds from negative zero. *)
Definition f64_sum (l : list f64) : f64 := foldl f64_add (S754_zero true) l.

(** [math.floor] of a number that is not negative. *)
Definition f64_floor_nonneg (x : f64) : Z :=
  match x with
  | S754_finite false m e => Z.shiftl (Zpos m) e
  | _ => 0
  end.

(** The whole number nearest to [d * x] for a finite [x], ties to even; what
    [Duration::mul_f64] gives, in nanoseconds, when the product of the seconds is exact. *)
Definition f64_scale (d : Z) (x : f64) : Z :=
  match x with
  | S754_finite s m e =>
      let p := d * cond_Zopp s (Zpos m) in
      if 0 <=? e then p * 2 ^ e
      else
        let q := 2 ^ (- e) in
        let lo := p / q in
        let r := p mod q in
        if (2 * r <? q) || ((2 * r =? q) && Z.even lo) then lo else lo + 1
  | _ => 0
  end.

(** ** Adding zero *)

Definition is_zero (x : f64) : Prop := exists s, x = S754_zero s.
Definition is_nan (x : f64) : Prop := x = S754_nan.

(** Equal as the comparisons see it: the same value, or zeros of either sign. *)
Definition feq (x y : f64) : Prop := x = y \/ is_zero x /\ is_zero y.

#[export] Instance feq_equiv : Equivalence feq.
Proof.
  split; red; unfold feq, is_zero; [auto | naive_solver |].
  intros x y z [->|[Hx Hy]] [->|[Hy' Hz]]; auto.
Qed.

(** The comparisons do not tell the zeros apart. *)
#[export] Instance f64_ltb_proper : Proper (feq ==> feq ==> eq) f64_ltb.
Proof.
  intros x x' [->|[[s ->] [s' ->]]] y y' [->|[[t ->] [t' ->]]]; try done.
Qed.
#[export] Instance f64_leb_proper : Proper (feq ==> feq ==> eq) f64_leb.
Proof.
  intros x x' [->|[[s ->] [s' ->]]] y y' [->|[[t ->] [t' ->]]]; try done.
Qed.

#[export] Instance f64_add_proper : Proper (feq ==> feq ==> feq) f64_add.
Proof.
  intros x x' [->|[[s ->] [s' ->]]] y y' [->|[[t ->] [t' ->]]]; try reflexivity.
  - destruct x' as [[]| | |]; destruct t, t'; try reflexivity; right; split; eexists; reflexivity.
  - destruct y' as [[]| | |]; destruct s, s'; try reflexivity; right; split; eexists; reflexivity.
  - destruct s, s', t, t'; try reflexivity; right; split; eexists; reflexivity.
Qed.

(** Adding a positive zero changes nothing the comparisons see. *)
Lemma f64_add_zero x : feq (f64_add x f64_zero) x.
Proof. destruct x as [[]|[]| |]; try reflexivity; right; split; eexists; reflexivity. Qed.

Lemma f64_zero_feq : feq f64_zero (S754_zero true).
Proof. right; split; eexists; reflexivity. Qed.

Lemma f64_sum_feq l : feq (f64_sum l) (foldl f64_add f64_zero l).
Proof.
  unfold f64_sum. generalize f64_zero_feq. generalize (S754_zero true) as a, f64_zero as b.
  induction l as [|w l IH]; intros a b Hab; simpl; [by symmetry|].
  apply IH. by rewrite Hab.
Qed.

(** ** Signs and NaN *)

(** A number that is not NaN and not below zero. *)
Definition nonneg (x : f64) : Prop := f64_leb f64_zero x = true.

Lemma nonneg_cases x :
  nonneg x <-> is_zero x \/ x = S754_infinity false \/ exists m e, x = S754_finite false m e.
Proof.
  unfold nonneg, is_zero.
  destruct x as [s|[]| |[] m e]; simpl; split; try done; naive_solver.
Qed.

Lemma nonneg_not_nan x : nonneg x -> ~ is_nan x.
Proof. by intros H ->. Qed.

Lemma shr_1_nonneg r : 0 <= shr_m r -> 0 <= shr_m (shr_1 r).
Proof. destruct r as [m r s]; destruct m as [|[]|[]]; simpl; lia. Qed.

Lemma iter_shr_nonneg p r : 0 <= shr_m r -> 0 <= shr_m (SpecFloat.iter_pos shr_1 p r).
Proof. revert r; induction p; intros r Hr; simpl; auto using shr_1_nonneg. Qed.

Lemma shr_fexp_nonneg m e l : 0 <= m -> 0 <= shr_m (shr_fexp 53 1024 m e l).1.
Proof.
  intros Hm. unfold shr_fexp, shr.
  assert (0 <= shr_m (shr_record_of_loc m l)) by by destruct l as [|[]].
  destruct (_ - e); simpl; auto using iter_shr_nonneg.
Qed.

(** Rounding a magnitude gives a number of the sign asked for, never NaN. *)
Lemma round_aux_nonneg m e l : 0 <= m -> nonneg (binary_round_aux 53 1024 false m e l).
Proof.
  intros Hm. unfold binary_round_aux.
  pose proof (shr_fexp_nonneg m e l Hm) as H1.
  destruct (shr_fexp 53 1024 m e l) as [r e1]; cbn [fst] in H1.
  set (m1 := round_nearest_even _ _).
  assert (Hm1 : 0 <= m1).
  { subst m1. unfold round_nearest_even.
    destruct (loc_of_shr_record r) as [|[]]; try lia. destruct (Z.even _); lia. }
  pose proof (shr_fexp_nonneg m1 e1 loc_Exact Hm1) as H2.
  destruct (shr_fexp 53 1024 m1 e1 loc_Exact) as [r2 e2]; cbn [fst] in H2.
  destruct (shr_m r2); [done| |lia]. destruct (_ <=? _); done.
Qed.

Lemma normalize_nonneg m e : 0 <= m -> nonneg (binary_normalize 53 1024 m e false).
Proof.
  intros Hm. destruct m as [|m|m]; [done| |lia]. simpl. unfold binary_round.
  destruct (shl_align _ _ _). by apply round_aux_nonneg.
Qed.

Lemma f64_of_Z_nonneg z : 0 <= z -> nonneg (f64_of_Z z).
Proof. apply normalize_nonneg. Qed.

Lemma f64_add_nonneg x y : nonneg x -> nonneg y -> nonneg (f64_add x y).
Proof.
  rewrite !nonneg_cases.
  intros [[s ->]|[->|(m & e & ->)]] [[t ->]|[->|(m' & e' & ->)]]; rewrite <-nonneg_cases;
    try done; try (by destruct s, t).
  apply normalize_nonneg. simpl. lia.
Qed.

Lemma f64_sum_nonneg l : Forall nonneg l -> nonneg (f64_sum l).
Proof.
  unfold f64_sum. assert (H0 : nonneg (S754_zero true)) by done. revert H0.
  generalize (S754_zero true) as a.
  induction l as [|w l IH]; intros a Ha Hl; simpl; [done|].
  apply Forall_cons in Hl as [Hw Hl]. apply IH; [|done]. by apply f64_add_nonneg.
Qed.

(** For numbers that are not NaN, [<=] is the negation of the reversed [<]. *)
Lemma f64_leb_ltb x y : ~ is_nan x -> ~ is_nan y -> f64_leb x y = negb (f64_ltb y x).
Proof.
  intros Hx Hy. unfold f64_leb, f64_ltb, SFleb, SFltb.
  destruct x as [s|[]| |[] m e], y as [t|[]| |[] m' e'];
    try (by destruct Hx); try (by destruct Hy); simpl; try done.
  - rewrite (Z.compare_antisym e' e). destruct (e' ?= e); simpl; try done.
    change (Pos.compare_cont Eq m m') with (Pos.compare m m').
    change (Pos.compare_cont Eq m' m) with (Pos.compare m' m).
    rewrite (Pos.compare_antisym m' m). by destruct (Pos.compare m' m).
  - rewrite (Z.compare_antisym e' e). destruct (e' ?= e); simpl; try done.
    change (Pos.compare_cont Eq m m') with (Pos.compare m m').
    change (Pos.compare_cont Eq m' m) with (Pos.compare m' m).
    rewrite (Pos.compare_antisym m' m). by destruct (Pos.compare m' m).
Qed.
