(* ===== verification/Effects.v ===== *)
(** * Programs that act on the world

    An [async] function of the gateway reads and writes what it shares with other requests:
    Redis, the clock, the upstreams.  A step is a function from the world it finds to the
    world it leaves and its result; other requests may have acted in between, so nothing is
    assumed to stay as it was from one step to the next. *)

From S2P Require Import Prelude.

Definition prog (W A : Type) : Type := W -> W * A.

#[export] Instance prog_ret W : MRet (prog W) := fun A a w => (w, a).
#[export] Instance prog_bind W : MBind (prog W) := fun A B f p w =>
  let '(w, a) := p w in f a w.
#[export] Instance prog_fmap W : FMap (prog W) := fun A B f p w =>
  let '(w, a) := p w in (w, f a).

(** [for x in l { out.push(f(x).await) }] *)
Fixpoint collect {W A B} (f : A -> prog W B) (l : list A) : prog W (list B) :=
  match l with
  | [] => mret []
  | x :: l => y ← f x; ys ← collect f l; mret (y :: ys)
  end.

Section Programs.
Context {W A B : Type}.

Lemma prog_bind_run (p : prog W A) (f : A -> prog W B) w :
  (p ≫= f) w = f (p w).2 (p w).1.
Proof. unfold mbind, prog_bind. by destruct (p w). Qed.

Lemma collect_cons (f : A -> prog W B) x l w :
  collect f (x :: l) w =
    ((collect f l (f x w).1).1, (f x w).2 :: (collect f l (f x w).1).2).
Proof.
  cbn [collect]. unfold mbind, prog_bind. destruct (f x w) as [w1 y]. simpl.
  by destruct (collect f l w1).
Qed.

Lemma collect_length (f : A -> prog W B) l w : length (collect f l w).2 = length l.
Proof.
  revert w. induction l as [|x l IH]; intros w; [done|].
  rewrite collect_cons. simpl. by rewrite IH.
Qed.
End Programs.

(** Steps that can fail: [?] ends the handler with the error, keeping what was done. *)
Definition io (W E A : Type) : Type := W -> W * result E A.

#[export] Instance io_ret W E : MRet (io W E) := fun A a w => (w, Ok a).
#[export] Instance io_bind W E : MBind (io W E) := fun A B f p w =>
  match p w with (w, Ok a) => f a w | (w, Err e) => (w, Err e) end.

Definition throw {W E A} (e : E) : io W E A := fun w => (w, Err e).
Definition lift {W E A} (r : result E A) : io W E A := fun w => (w, r).
(** The step's result as a value: [match f().await { Ok(..) .. Err(..) .. }]. *)
Definition attempt {W E A} (p : io W E A) : io W E (result E A) := fun w =>
  let '(w, r) := p w in (w, Ok r).
(** [let _ = f().await]. *)
Definition ignore {W E A} (p : io W E A) : io W E unit := fun w => ((p w).1, Ok tt).

Section Fallible.
Context {W E A B : Type}.

Lemma io_bind_run (p : io W E A) (f : A -> io W E B) w :
  (p ≫= f) w = match (p w).2 with Ok a => f a (p w).1 | Err e => ((p w).1, Err e) end.
Proof. unfold mbind, io_bind. by destruct (p w) as [w1 []]. Qed.

Lemma io_bind_Ok (p : io W E A) (f : A -> io W E B) w w' b :
  (p ≫= f) w = (w', Ok b) <-> exists w1 a, p w = (w1, Ok a) /\ f a w1 = (w', Ok b).
Proof. unfold mbind, io_bind. destruct (p w) as [w1 []]; naive_solver. Qed.

Lemma throw_Ok (e : E) w w' (a : A) : (throw e : io W E A) w = (w', Ok a) <-> False.
Proof. done. Qed.

Lemma mret_Ok (a a' : A) (w w' : W) : (mret a : io W E A) w = (w', Ok a') <-> w' = w /\ a' = a.
Proof. unfold mret, io_ret. naive_solver. Qed.
End Fallible.
