(* ===== verification/GatewayDeps.v ===== *)
(** * What the AI gateway's routing uses of other code

    The circuit breaker's state machine ([tw-breaker], a crate of another repository), the
    text keys and sorted sets of the Redis server, parsing a UUID, and the number conversions
    of Lua.  Operations, laws, and an instance of each for the witnesses. *)

From Stdlib Require Import Ascii.
From S2P Require Import Prelude Interfaces Float64.

(** ** [uuid::Uuid::parse_str] *)

Fixpoint has_char (c : Ascii.ascii) (s : string) : bool :=
  match s with
  | EmptyString => false
  | String d s => bool_decide (c = d) || has_char c s
  end.

(** [str::split_once]: the text before and after the first [c]. *)
Fixpoint split_once (c : ascii) (s : string) : option (string * string) :=
  match s with
  | EmptyString => None
  | String d s =>
      if decide (d = c) then Some (EmptyString, s)
      else '(a, b) ← split_once c s; Some (String d a, b)
  end.

Lemma split_once_app c a b : has_char c a = false -> split_once c (a +:+ String c b) = Some (a, b).
Proof.
  induction a as [|d a IH]; simpl.
  - intros _. change ("" +:+ String c b) with (String c b). simpl. by rewrite decide_True.
  - intros [Hd Ha]%orb_false_iff. change (String d a +:+ String c b) with (String d (a +:+ String c b)).
    simpl. apply bool_decide_eq_false in Hd. rewrite decide_False by congruence.
    by rewrite (IH Ha).
Qed.

Lemma has_char_app c a b : has_char c (a +:+ b) = has_char c a || has_char c b.
Proof.
  induction a as [|d a IH]; [done|]. change (String d a +:+ b) with (String d (a +:+ b)). simpl.
  by rewrite IH, orb_assoc.
Qed.

Class UuidParse (U : Type) `{Uuid U} := { uuid_parse : string -> option U }.
Class UuidParseLaws (U : Type) `{UuidParse U} := {
  uuid_parse_str u : uuid_parse (uuid_str u) = Some u;
  (** Hexadecimal digits and hyphens only. *)
  uuid_str_no_space u : has_char " "%char (uuid_str u) = false;
}.

(** ** [tw_breaker] *)

Module BState.
Inductive t := Closed | HalfOpen | Open.
#[global] Instance t_eq_dec : EqDecision t.
Proof. solve_decision. Defined.
End BState.

Inductive Trip := ErrorRate (percent min_samples : Z) | Consecutive (n : Z).
(** [cooldown] in nanoseconds. *)
Record Policy := { pol_trip : Trip; pol_cooldown : Z; pol_probes : Z }.
Record Tally := { tally_total : Z; tally_errors : Z }.

(** [br_record] is [Breaker::record]: the outcome, the window's tally, the policy and the time
    in milliseconds; it answers with the state changed to, if it changed. *)
Class TwBreaker (B : Type) := {
  br_eq_dec :: EqDecision B;
  br_default : B;
  br_record : bool -> Tally -> Policy -> Z -> B -> B * option BState.t;
  br_state_at : Policy -> Z -> B -> BState.t;
  br_to_json : B -> string;
  br_from_json : string -> option B;
}.

Class TwBreakerLaws (B : Type) `{TwBreaker B} := {
  br_roundtrip b : br_from_json (br_to_json b) = Some b;
  br_json_nonempty b : br_to_json b <> "";
  br_from_empty : br_from_json "" = None;
  br_default_closed p t : br_state_at p t br_default = BState.Closed;
}.

(** ** Redis text keys *)

Class RedisText (St : Type) := {
  tget : string -> St -> option string;
  (** [SET key value EX seconds]. *)
  tset : string -> string -> Z -> St -> St;
  tdel : string -> St -> St;
}.
Class RedisTextLaws (St : Type) `{RedisText St} := {
  tget_tset k v ttl s k' : tget k' (tset k v ttl s) = if decide (k' = k) then Some v else tget k' s;
  tget_tdel k s k' : tget k' (tdel k s) = if decide (k' = k) then None else tget k' s;
}.

(** ** Redis sorted sets

    [zview] is the set as [ZRANGE 0 -1 WITHSCORES] lists it, lowest score first. *)

Class RedisZset (St : Type) := {
  zview : string -> St -> list (Z * string);
  zremrangebyscore : string -> Z -> St -> St;
  (** [ZREMRANGEBYRANK key 0 (n - 1)]. *)
  zremlowest : string -> nat -> St -> St;
  zadd : string -> Z -> string -> St -> St;
  zexpire : string -> Z -> St -> St;
  zdel : string -> St -> St;
}.

Class RedisZsetLaws (St : Type) `{RedisZset St} := {
  zview_nodup k s : NoDup (zview k s).*2;
  zview_zremrangebyscore k hi s k' :
    zview k' (zremrangebyscore k hi s) =
      if decide (k' = k) then filter (fun p => hi < p.1) (zview k s) else zview k' s;
  zview_zremlowest k n s k' :
    zview k' (zremlowest k n s) = if decide (k' = k) then drop n (zview k s) else zview k' s;
  (** A member already there moves to its new score. *)
  zview_zadd k sc m s :
    zview k (zadd k sc m s) ≡ₚ (sc, m) :: filter (fun p => p.2 <> m) (zview k s);
  zview_zadd_frame k sc m s k' : k' <> k -> zview k' (zadd k sc m s) = zview k' s;
  zview_zexpire k ttl s k' : zview k' (zexpire k ttl s) = zview k' s;
  zview_zdel k s k' : zview k' (zdel k s) = if decide (k' = k) then [] else zview k' s;
}.

(** ** Instances *)

#[export] Instance demo_UuidParse : UuidParse demo_uuid :=
  {| uuid_parse s :=
       if decide (s = demo_uuid_str UNil) then Some UNil
       else if decide (s = demo_uuid_str UAlice) then Some UAlice
       else if decide (s = demo_uuid_str UKey1) then Some UKey1 else None |}.
#[export] Instance demo_UuidParseLaws : UuidParseLaws demo_uuid.
Proof. by split; intros []. Qed.

(** A breaker that opens at the tally its policy names and closes on the first success after
    its cooldown. *)
Inductive demo_breaker := DClosed | DOpen (since : Z).
#[export] Instance demo_breaker_eq_dec : EqDecision demo_breaker.
Proof. solve_decision. Defined.

Definition demo_state_at (p : Policy) (now : Z) (b : demo_breaker) : BState.t :=
  match b with
  | DClosed => BState.Closed
  | DOpen t => if t + pol_cooldown p / 1000000 <=? now then BState.HalfOpen else BState.Open
  end.

Definition demo_trips (p : Policy) (t : Tally) : bool :=
  match pol_trip p with
  | ErrorRate pct n => (n <=? tally_total t) && (pct * tally_total t <=? 100 * tally_errors t)
  | Consecutive n => n <=? tally_errors t
  end.

Definition demo_record (ok : bool) (t : Tally) (p : Policy) (now : Z) (b : demo_breaker)
    : demo_breaker * option BState.t :=
  match b, ok with
  | DClosed, true => (DClosed, None)
  | DClosed, false => if demo_trips p t then (DOpen now, Some BState.Open) else (DClosed, None)
  | DOpen since, true =>
      if since + pol_cooldown p / 1000000 <=? now then (DClosed, Some BState.Closed)
      else (DOpen since, None)
  | DOpen since, false =>
      if since + pol_cooldown p / 1000000 <=? now then (DOpen now, Some BState.Open)
      else (DOpen since, None)
  end.

#[export] Instance demo_TwBreaker : TwBreaker demo_breaker := {|
  br_default := DClosed;
  br_record := demo_record;
  br_state_at := demo_state_at;
  br_to_json b := match b with DClosed => "c" | DOpen t => String "o" (dec_of_Z t) end;
  br_from_json s :=
    match s with
    | String c s' =>
        if decide (c = "c"%char) then Some DClosed
        else if decide (c = "o"%char) then DOpen <$> Z_of_dec s' else None
    | EmptyString => None
    end |}.

#[export] Instance demo_TwBreakerLaws : TwBreakerLaws demo_breaker.
Proof.
  split; try done.
  - intros [|t]; simpl; [done|]. by rewrite Z_of_dec_of_Z.
  - by intros [|t].
Qed.

(** Text keys and sorted sets as maps; times to live are left to the environment. *)
Record demo_store := { ds_text : gmap string string; ds_zset : gmap string (list (Z * string)) }.
Definition ds_empty : demo_store := {| ds_text := ∅; ds_zset := ∅ |}.

#[export] Instance demo_RedisText : RedisText demo_store := {|
  tget k s := ds_text s !! k;
  tset k v _ s := {| ds_text := <[k := v]> (ds_text s); ds_zset := ds_zset s |};
  tdel k s := {| ds_text := delete k (ds_text s); ds_zset := ds_zset s |} |}.
#[export] Instance demo_RedisTextLaws : RedisTextLaws demo_store.
Proof. split; intros; simpl; case_decide; subst; by simplify_map_eq. Qed.

Fixpoint zinsert (p : Z * string) (l : list (Z * string)) : list (Z * string) :=
  match l with
  | [] => [p]
  | q :: l' => if q.1 <=? p.1 then q :: zinsert p l' else p :: l
  end.

Definition ds_zview (k : string) (s : demo_store) : list (Z * string) :=
  let l := default [] (ds_zset s !! k) in if decide (NoDup l.*2) then l else [].
Definition ds_zput (k : string) (l : list (Z * string)) (s : demo_store) : demo_store :=
  {| ds_text := ds_text s; ds_zset := <[k := l]> (ds_zset s) |}.

#[export] Instance demo_RedisZset : RedisZset demo_store := {|
  zview := ds_zview;
  zremrangebyscore k hi s := ds_zput k (filter (fun p => hi < p.1) (ds_zview k s)) s;
  zremlowest k n s := ds_zput k (drop n (ds_zview k s)) s;
  zadd k sc m s := ds_zput k (zinsert (sc, m) (filter (fun p => p.2 <> m) (ds_zview k s))) s;
  zexpire _ _ s := s;
  zdel k s := ds_zput k [] s |}.

Lemma zinsert_perm p l : zinsert p l ≡ₚ p :: l.
Proof.
  induction l as [|q l IH]; simpl; [done|]. case_match; [|done].
  rewrite IH. apply Permutation_swap.
Qed.

Lemma ds_zview_nodup k s : NoDup (ds_zview k s).*2.
Proof. unfold ds_zview. case_decide; [done|constructor]. Qed.

Lemma ds_zview_put k l s k' :
  NoDup l.*2 -> ds_zview k' (ds_zput k l s) = if decide (k' = k) then l else ds_zview k' s.
Proof.
  intros Hl. unfold ds_zview, ds_zput; simpl. destruct (decide (k' = k)) as [->|Hk].
  - rewrite lookup_insert_eq. simpl. by rewrite decide_True.
  - by rewrite lookup_insert_ne by done.
Qed.

Lemma nodup_snd_filter (P : Z * string -> Prop) `{!forall x, Decision (P x)} l :
  NoDup l.*2 -> NoDup (filter P l).*2.
Proof.
  intros Hl. eapply sublist_NoDup; [apply Hl|]. apply fmap_sublist, sublist_filter.
Qed.

#[export] Instance demo_RedisZsetLaws : RedisZsetLaws demo_store.
Proof.
  split; simpl; intros.
  - apply ds_zview_nodup.
  - rewrite ds_zview_put; [done|]. apply nodup_snd_filter, ds_zview_nodup.
  - rewrite ds_zview_put; [done|]. eapply sublist_NoDup; [apply (ds_zview_nodup k s)|].
    apply fmap_sublist, sublist_drop.
  - rewrite ds_zview_put, decide_True; [apply zinsert_perm|done|].
    + rewrite zinsert_perm. csimpl. constructor.
      * intros Hin. apply list_elem_of_fmap in Hin as (p & -> & Hp).
        by apply list_elem_of_filter in Hp as [Hp _].
      * apply nodup_snd_filter, ds_zview_nodup.
  - rewrite ds_zview_put, decide_False; [done|done|].
    rewrite zinsert_perm. csimpl. constructor.
    + intros Hin. apply list_elem_of_fmap in Hin as (p & -> & Hp).
      by apply list_elem_of_filter in Hp as [Hp _].
    + apply nodup_snd_filter, ds_zview_nodup.
  - done.
  - rewrite ds_zview_put; [done|constructor].
Qed.
