(* ===== verification/Text.v ===== *)
(** * Text

    What the source uses of [char] and [str]: the ASCII classes, lower case, [trim].  A [str]
    is its UTF-8 bytes. *)

From Stdlib Require Import Ascii DecimalString DecimalN.
From S2P Require Import Prelude Interfaces GatewayDeps.

(** ** ASCII characters *)

Definition in_range (lo hi c : ascii) : bool :=
  ((nat_of_ascii lo <=? nat_of_ascii c) && (nat_of_ascii c <=? nat_of_ascii hi))%nat.
Definition is_ascii_lowercase (c : ascii) : bool := in_range "a" "z" c.
Definition is_ascii_uppercase (c : ascii) : bool := in_range "A" "Z" c.
Definition is_ascii_digit (c : ascii) : bool := in_range "0" "9" c.
Definition is_ascii_alphanumeric (c : ascii) : bool :=
  is_ascii_uppercase c || is_ascii_lowercase c || is_ascii_digit c.
Definition ascii_char (c : ascii) : bool := (nat_of_ascii c <? 128)%nat.

Fixpoint str_all (P : ascii -> bool) (s : string) : bool :=
  match s with EmptyString => true | String c s => P c && str_all P s end.
Fixpoint str_any (P : ascii -> bool) (s : string) : bool :=
  match s with EmptyString => false | String c s => P c || str_any P s end.
Definition is_ascii (s : string) : bool := str_all ascii_char s.

Definition to_ascii_lower (c : ascii) : ascii :=
  let n := nat_of_ascii c in
  if (65 <=? n)%nat && (n <=? 90)%nat then ascii_of_nat (n + 32) else c.
Fixpoint to_ascii_lowercase (s : string) : string :=
  match s with
  | EmptyString => EmptyString
  | String c s => String (to_ascii_lower c) (to_ascii_lowercase s)
  end.

(** ** [str::trim] *)

Fixpoint bytes_string (l : list nat) : string :=
  match l with [] => EmptyString | b :: l => String (ascii_of_nat b) (bytes_string l) end.

(** The UTF-8 forms of the characters [char::is_whitespace] accepts. *)
Definition whitespace : list string :=
  bytes_string <$>
    ([[9]; [10]; [11]; [12]; [13]; [32]; [194; 133]; [194; 160]; [225; 154; 128]] ++
     ((fun b => [226; 128; b]) <$> [128; 129; 130; 131; 132; 133; 134; 135; 136; 137; 138; 168; 169; 175]) ++
     [[226; 129; 159]; [227; 128; 128]])%nat.

(** [s] without one of these characters at the end [strip] works on. *)
Definition strip_one (strip : string -> string -> option string) (s : string) : option string :=
  foldr (fun w r => match strip w s with Some s' => Some s' | None => r end) None whitespace.
Fixpoint strip_all (strip : string -> string -> option string) (fuel : nat) (s : string) : string :=
  match fuel with
  | O => s
  | S fuel => match strip_one strip s with Some s' => strip_all strip fuel s' | None => s end
  end.
(** A text has at most as many characters as bytes, so its length is fuel enough
    ([trim_done]). *)
Definition trim (s : string) : string :=
  let s := strip_all strip_prefix (String.length s) s in
  strip_all strip_suffix (String.length s) s.

(** ** Unsigned integers: [from_str] and [{}]

    An optional plus sign, then decimal digits, up to [max]. *)

Fixpoint digits (acc : Z) (s : string) : option Z :=
  match s with
  | EmptyString => Some acc
  | String c s =>
      if is_ascii_digit c then digits (10 * acc + (Z.of_nat (nat_of_ascii c) - 48)) s else None
  end.
Definition parse_uint (max : Z) (s : string) : option Z :=
  let s := default s (strip_prefix "+" s) in
  if bool_decide (s = "") then None
  else n ← digits 0 s; if n <=? max then Some n else None.

(** [i64::from_str]. *)
Definition udigits (s : string) : option Z := if bool_decide (s = "") then None else digits 0 s.
Definition parse_i64 (s : string) : option Z :=
  z ← match s with
      | String c r =>
          if decide (c = "-"%char) then Z.opp <$> udigits r
          else if decide (c = "+"%char) then udigits r else udigits s
      | EmptyString => None
      end;
  if bool_decide (in_i64 z) then Some z else None.

(** ** Lemmas *)

Lemma str_all_app P a b : str_all P (a +:+ b) = str_all P a && str_all P b.
Proof.
  induction a as [|c a IH]; [done|]. change (String c a +:+ b) with (String c (a +:+ b)). simpl.
  by rewrite IH, andb_assoc.
Qed.

Lemma to_ascii_lower_idem c : to_ascii_lower (to_ascii_lower c) = to_ascii_lower c.
Proof. by destruct c as [[] [] [] [] [] [] [] []]. Qed.

Lemma to_ascii_lowercase_idem s : to_ascii_lowercase (to_ascii_lowercase s) = to_ascii_lowercase s.
Proof. induction s as [|c s IH]; simpl; [done|]. by rewrite to_ascii_lower_idem, IH. Qed.

Lemma to_ascii_lowercase_app a b :
  to_ascii_lowercase (a +:+ b) = to_ascii_lowercase a +:+ to_ascii_lowercase b.
Proof.
  induction a as [|c a IH]; [done|].
  change (String c a +:+ b) with (String c (a +:+ b)). simpl. by rewrite IH.
Qed.

Lemma to_ascii_lowercase_no_upper s : str_any is_ascii_uppercase (to_ascii_lowercase s) = false.
Proof.
  induction s as [|c s IH]; simpl; [done|]. rewrite IH, orb_false_r.
  by destruct c as [[] [] [] [] [] [] [] []].
Qed.

Lemma strip_one_Some strip s s' :
  strip_one strip s = Some s' -> exists w, w ∈ whitespace /\ strip w s = Some s'.
Proof.
  unfold strip_one. induction whitespace as [|w ws IH]; simpl; [done|].
  destruct (strip w s) eqn:E; [intros [= ->]; exists w; split; [left|done]|].
  intros (w' & Hw & ?)%IH. exists w'. split; [by right|done].
Qed.

Lemma strip_one_None strip s :
  strip_one strip s = None -> forall w, w ∈ whitespace -> strip w s = None.
Proof.
  unfold strip_one. induction whitespace as [|w ws IH]; simpl; [set_solver|].
  destruct (strip w s) eqn:E; [done|]. intros Hn w' [->|Hw]%elem_of_cons; [done|auto].
Qed.

Lemma whitespace_nonempty w : w ∈ whitespace -> (0 < String.length w)%nat.
Proof.
  assert (Hf : Forall (fun w => (0 < String.length w)%nat) whitespace).
  { repeat (apply Forall_cons; split; [apply Nat.leb_le; reflexivity|]). apply Forall_nil. exact I. }
  rewrite Forall_forall in Hf. apply Hf.
Qed.

(** A strip that removes what it found ends within the length of its text. *)
Lemma strip_all_done strip fuel s :
  (forall w s s', strip w s = Some s' -> (String.length s = String.length w + String.length s')%nat) ->
  (String.length s <= fuel)%nat -> strip_one strip (strip_all strip fuel s) = None.
Proof.
  intros Hstrip. revert s. induction fuel as [|fuel IH]; intros s Hl.
  - simpl. destruct (strip_one strip s) as [s'|] eqn:E; [|done].
    apply strip_one_Some in E as (w & Hw & E). apply Hstrip in E.
    pose proof (whitespace_nonempty w Hw). lia.
  - simpl. destruct (strip_one strip s) as [s'|] eqn:E; [|done].
    apply strip_one_Some in E as (w & Hw & E). apply Hstrip in E.
    pose proof (whitespace_nonempty w Hw). apply IH. lia.
Qed.

Lemma strip_suffix_length w s s' :
  strip_suffix w s = Some s' -> (String.length s = String.length w + String.length s')%nat.
Proof. intros ->%strip_suffix_Some. rewrite str_length_app. lia. Qed.

Lemma strip_prefix_length w s s' :
  strip_prefix w s = Some s' -> (String.length s = String.length w + String.length s')%nat.
Proof. intros ->%strip_prefix_Some. by rewrite str_length_app. Qed.

Lemma strip_all_none strip fuel s : strip_one strip s = None -> strip_all strip fuel s = s.
Proof. intros Hn. destruct fuel; simpl; by rewrite ?Hn. Qed.

(** What [trim] removed at either end is whitespace. *)
Lemma strip_all_suffix fuel s : exists t, s = strip_all strip_suffix fuel s +:+ t.
Proof.
  revert s. induction fuel as [|fuel IH]; intros s; simpl; [exists ""; by rewrite str_app_nil_r|].
  destruct (strip_one strip_suffix s) as [s'|] eqn:E; [|exists ""; by rewrite str_app_nil_r].
  apply strip_one_Some in E as (w & _ & ->%strip_suffix_Some).
  destruct (IH s') as [t Ht]. exists (t +:+ w). by rewrite <- str_app_assoc, <- Ht.
Qed.

Lemma strip_all_prefix fuel s : exists t, s = t +:+ strip_all strip_prefix fuel s.
Proof.
  revert s. induction fuel as [|fuel IH]; intros s; simpl; [by exists ""|].
  destruct (strip_one strip_prefix s) as [s'|] eqn:E; [|by exists ""].
  apply strip_one_Some in E as (w & _ & ->%strip_prefix_Some).
  destruct (IH s') as [t Ht]. exists (w +:+ t). by rewrite str_app_assoc, <- Ht.
Qed.

(** No whitespace is left at either end: a text that starts with none keeps starting with none
    when its end is cut off. *)
Lemma trim_done s : strip_one strip_prefix (trim s) = None /\ strip_one strip_suffix (trim s) = None.
Proof.
  unfold trim. set (s1 := strip_all strip_prefix (String.length s) s).
  assert (H1 : strip_one strip_prefix s1 = None).
  { apply strip_all_done; [apply strip_prefix_length|done]. }
  split; [|apply strip_all_done; [apply strip_suffix_length|done]].
  destruct (strip_one strip_prefix (strip_all strip_suffix (String.length s1) s1)) as [u|] eqn:E; [|done].
  apply strip_one_Some in E as (w & Hw & E%strip_prefix_Some).
  destruct (strip_all_suffix (String.length s1) s1) as [t Ht]. rewrite E, str_app_assoc in Ht.
  pose proof (strip_one_None _ _ H1 w Hw) as Hn.
  assert (Hy : strip_prefix w s1 = Some (u +:+ t)) by by apply strip_prefix_Some.
  congruence.
Qed.

Lemma trim_fix s : strip_one strip_prefix s = None -> strip_one strip_suffix s = None -> trim s = s.
Proof. intros Hp Hq. unfold trim. by rewrite !strip_all_none by (by rewrite ?strip_all_none). Qed.

Lemma trim_idem s : trim (trim s) = trim s.
Proof. apply trim_fix; apply trim_done. Qed.

(** ** Numbers read back *)

Lemma digits_acc (u : Decimal.uint) p :
  digits (Zpos p) (NilEmpty.string_of_uint u) = Some (Zpos (Pos.of_uint_acc u p)).
Proof.
  revert p. induction u as [|u IH|u IH|u IH|u IH|u IH|u IH|u IH|u IH|u IH|u IH]; intros p; [done|..];
    cbn [Pos.of_uint_acc]; rewrite <- IH; cbn [NilEmpty.string_of_uint digits];
    (match goal with |- context [is_ascii_digit ?c] => change (is_ascii_digit c) with true end);
    cbv iota; f_equal; vm_compute Z.sub; lia.
Qed.

Lemma digits_of_uint (u : Decimal.uint) : digits 0 (NilEmpty.string_of_uint u) = Some (Z.of_uint u).
Proof. unfold Z.of_uint. induction u; [reflexivity|exact IHu|..]; exact (digits_acc u _). Qed.

Lemma dec_of_Z_nonneg z : 0 <= z -> dec_of_Z z = NilEmpty.string_of_uint (N.to_uint (Z.to_N z)).
Proof. unfold dec_of_Z. destruct z as [|p|p]; [done|done|lia]. Qed.

Lemma digits_dec z : 0 <= z -> digits 0 (dec_of_Z z) = Some z.
Proof.
  intros Hz. rewrite dec_of_Z_nonneg by done. rewrite digits_of_uint. f_equal.
  unfold Z.of_uint. rewrite <- (Z2N.id z) at 2 by done. f_equal.
  rewrite <- DecimalN.Unsigned.of_to. done.
Qed.

(** A decimal text starts with a digit. *)
Lemma dec_head z : 0 <= z -> exists c s, dec_of_Z z = String c s /\ is_ascii_digit c = true.
Proof.
  intros Hz. pose proof (digits_dec z Hz) as Hd. destruct (dec_of_Z z) as [|c s] eqn:E.
  - exfalso. rewrite dec_of_Z_nonneg in E by done. destruct z as [|p|p]; [done| |lia].
    assert (Hp : N.of_uint (N.to_uint (Npos p)) = Npos p) by apply DecimalN.Unsigned.of_to.
    simpl in E, Hp. destruct (Pos.to_uint p); try discriminate E. discriminate Hp.
  - exists c, s. split; [done|]. simpl in Hd. by destruct (is_ascii_digit c).
Qed.

Lemma parse_uint_dec m z : 0 <= z <= m -> parse_uint m (dec_of_Z z) = Some z.
Proof.
  intros Hz. destruct (dec_head z) as (c & s & Hs & Hc); [lia|]. unfold parse_uint. rewrite Hs.
  assert (strip_prefix "+" (String c s) = None) as ->.
  { simpl. rewrite decide_False; [done|]. by intros <-. }
  simpl default. rewrite <- Hs. rewrite bool_decide_false by (by rewrite Hs).
  rewrite digits_dec by lia. simpl. by rewrite (proj2 (Z.leb_le z m)) by lia.
Qed.

Lemma parse_i64_dec z : 0 <= z <= i64_max -> parse_i64 (dec_of_Z z) = Some z.
Proof.
  intros Hz. destruct (dec_head z) as (c & s & Hs & Hc); [lia|]. unfold parse_i64. rewrite Hs.
  rewrite decide_False by (by intros ->). rewrite decide_False by (by intros ->). rewrite <- Hs.
  unfold udigits. rewrite bool_decide_false by (by rewrite Hs). rewrite digits_dec by lia. simpl.
  rewrite bool_decide_true; [done|]. unfold in_i64, i64_min in *. lia.
Qed.
