(* ===== verification/GatewayError.v ===== *)
(** * The AI gateway's error and what it means for a route

    [crates/gateway/src/error.rs]: the variants, their HTTP status and tag, and the
    retry hints; with the two readings of an error that routing makes:
    [proxy::routing::fails] (is the upstream at fault?) and [proxy::retry::transient] (may
    the same request be answered a little later?). *)

From S2P Require Import Prelude.

(** Durations are whole nanoseconds. *)
Inductive GatewayError :=
  | ProviderError (msg : string)
  | ProviderHttpError (status : Z) (message : string) (retry_after : option Z)
  | ProviderTimeout (msg : string)
  | ProviderInvalidResponse (msg : string)
  | TransformError (msg : string)
  | NetworkError (msg : string)
  | UpstreamRateLimited (retry_after_secs : option Z)
  | UpstreamAuthError (status : Z) (message : string)
  | LocalRateLimited (label : string) (retry_after_secs : Z) (retry : bool)
  | PolicyBlocked (msg : string)
  | SealedHistoryRefused (status : Z) (provider said : string)
  | SealedHistoryUnavailable (provider model : string)
  | UpstreamTooSlow (provider : string) (rate min secs : Z).

#[export] Instance GatewayError_eq_dec : EqDecision GatewayError.
Proof. solve_decision. Defined.

Definition status_code (e : GatewayError) : Z :=
  match e with
  | ProviderError _ => 502
  | ProviderHttpError status _ _ => status
  | ProviderTimeout _ => 504
  | ProviderInvalidResponse _ => 502
  | TransformError _ => 400
  | NetworkError _ => 502
  | UpstreamRateLimited _ | LocalRateLimited _ _ _ => 429
  | UpstreamAuthError _ _ => 401
  | PolicyBlocked _ => 403
  | SealedHistoryRefused status _ _ => status
  | SealedHistoryUnavailable _ _ => 409
  | UpstreamTooSlow _ _ _ _ => 503
  end.

Definition error_tag (e : GatewayError) : string :=
  match e with
  | ProviderError _ => "ProviderError"
  | ProviderHttpError _ _ _ => "ProviderHttpError"
  | ProviderTimeout _ => "ProviderTimeout"
  | ProviderInvalidResponse _ => "ProviderInvalidResponse"
  | TransformError _ => "TransformError"
  | NetworkError _ => "NetworkError"
  | UpstreamRateLimited _ => "UpstreamRateLimited"
  | LocalRateLimited _ _ _ => "LocalRateLimited"
  | UpstreamAuthError _ _ => "UpstreamAuthError"
  | PolicyBlocked _ => "PolicyBlocked"
  | SealedHistoryRefused _ _ _ => "SealedHistoryRefused"
  | SealedHistoryUnavailable _ _ => "SealedHistoryUnavailable"
  | UpstreamTooSlow _ _ _ _ => "UpstreamTooSlow"
  end.

Definition u32_max : Z := 2 ^ 32 - 1.

(** [u32::try_from(secs).unwrap_or(u32::MAX).max(1)] on a [u64]. *)
Definition clamp_secs (secs : Z) : Z := Z.max (if secs <=? u32_max then secs else u32_max) 1.

Definition rate_limited (label : string) (secs : Z) : GatewayError :=
  LocalRateLimited label (clamp_secs secs) true.
Definition budget_exhausted (label : string) (secs : Z) : GatewayError :=
  LocalRateLimited label (clamp_secs secs) false.
Definition UNAVAILABLE_RETRY_SECS : Z := 30.
Definition limiter_unavailable (label : string) : GatewayError :=
  LocalRateLimited label UNAVAILABLE_RETRY_SECS true.

Definition HARD_CAP_SECS : Z := 3600.
Definition GatewayError_retry_after_secs (e : GatewayError) : option Z :=
  match e with
  | UpstreamRateLimited secs => (fun s => Z.min s HARD_CAP_SECS) <$> secs
  | LocalRateLimited _ secs _ => Some secs
  | _ => None
  end.

Definition should_retry (e : GatewayError) : option bool :=
  match e with LocalRateLimited _ _ false => Some false | _ => None end.

(** ** [proxy::routing]: is the upstream at fault? *)

Definition fails (tag : string) (status : Z) : bool :=
  if String.eqb tag "ProviderHttpError" then (500 <=? status) || (status =? 408)
  else if String.eqb tag "TransformError" || String.eqb tag "PolicyBlocked"
       || String.eqb tag "LocalRateLimited" || String.eqb tag "SealedHistoryRefused"
       || String.eqb tag "SealedHistoryUnavailable" then false
  else true.

Definition is_upstream_failure (e : GatewayError) : bool := fails (error_tag e) (status_code e).

(** ** [proxy::retry]: did it fail for the moment? *)

Definition transient (tag : string) (status : Z) : bool :=
  if String.eqb tag "ProviderHttpError" then
    (status =? 500) || (status =? 502) || (status =? 503) || (status =? 504) || (status =? 529)
  else String.eqb tag "NetworkError" || String.eqb tag "transport".

Definition is_transient (e : GatewayError) : bool := transient (error_tag e) (status_code e).

(** ** Lemmas *)

Lemma transient_fails e : is_transient e = true -> is_upstream_failure e = true.
Proof.
  destruct e; simpl; try done. unfold is_transient, is_upstream_failure, transient, fails; simpl. lia.
Qed.

Lemma clamp_secs_bounds s : 1 <= clamp_secs s <= u32_max.
Proof. unfold clamp_secs. assert (u32_max = 4294967295) as Hu by done. case_match; zbool; lia. Qed.

(** The errors the gateway refuses with by itself say when to come back. *)
Definition refused_locally (e : GatewayError) : Prop :=
  exists label secs retry, e = LocalRateLimited label secs retry /\ 1 <= secs <= u32_max.

Lemma rate_limited_local l s : refused_locally (rate_limited l s).
Proof. repeat eexists; apply clamp_secs_bounds. Qed.
Lemma limiter_unavailable_local l : refused_locally (limiter_unavailable l).
Proof. repeat eexists; unfold UNAVAILABLE_RETRY_SECS, u32_max; lia. Qed.

(** Which errors move a request on to another route and count against the route that gave
    them: exactly an HTTP answer of at least 500 or 408, an upstream's rate limit or refused
    credential, a timeout, a broken connection, an unreadable or otherwise failed answer, and a
    stream too slow.  An upstream's other 4xx, a request the gateway could not translate or
    refuses, and a sealed history never do.  Only such failures are sent again: a broken connection and an
    HTTP 500, 502, 503, 504 or 529. *)
Theorem upstream_failure_exactly e :
  (is_upstream_failure e = true <->
     match e with
     | ProviderHttpError status _ _ => status >= 500 \/ status = 408
     | TransformError _ | PolicyBlocked _ | LocalRateLimited _ _ _
     | SealedHistoryRefused _ _ _ | SealedHistoryUnavailable _ _ => False
     | _ => True
     end) /\
  (is_transient e = true -> is_upstream_failure e = true) /\
  (is_transient e = true <->
     match e with
     | ProviderHttpError status _ _ => status ∈ [500; 502; 503; 504; 529]
     | NetworkError _ => True
     | _ => False
     end).
Proof.
  split; [|split; [apply transient_fails|]].
  - destruct e; simpl; try done. unfold is_upstream_failure, fails; simpl. lia.
  - destruct e; simpl; try done. unfold is_transient, transient; simpl.
    rewrite !elem_of_cons, elem_of_nil. lia.
Qed.
