(* ===== verification/Retry.v ===== *)
(** * Sending again after a transient failure

    [crates/gateway/src/proxy/retry.rs]: which waits the upstream's word and the backoff give,
    and the [Budget] that decides whether another attempt starts.  Instants and durations are
    nanoseconds; [checked_add] fails past the largest [Instant] (an [i64] of seconds). *)

From S2P Require Import Prelude Float64 GatewayError.

Definition ms : Z := 1000000.
Definition sec : Z := 1000000000.

Definition instant_max : Z := i64_max * sec + (sec - 1).
Definition checked_add (t d : Z) : option Z := if t + d <=? instant_max then Some (t + d) else None.

(** [proxy::REQUEST_TIMEOUT] and the margin kept before it. *)
Definition REQUEST_TIMEOUT : Z := 120 * sec.
Definition TIMEOUT_MARGIN : Z := 2 * sec.
Definition request_hard_deadline (arrived : Z) : Z :=
  arrived + Z.max (REQUEST_TIMEOUT - TIMEOUT_MARGIN) 0.

Definition MIN_SAID_WAIT : Z := 250 * ms.

(** How long the upstream said to wait. *)
Definition said_to_wait (e : GatewayError) : option Z :=
  match e with
  | ProviderHttpError _ _ retry_after =>
      match retry_after with
      | Some d => if d =? 0 then None else Some (Z.max d MIN_SAID_WAIT)
      | None => None
      end
  | _ => None
  end.

(** [2u64 << n.clamp(1, 4).saturating_sub(1)] seconds. *)
Definition backoff (n : Z) : Z := Z.shiftl 2 (Z.max (Z.min (Z.max n 1) 4 - 1) 0) * sec.

Record Budget := {
  bud_deadline : option Z;
  bud_hard : option Z;
  bud_retries : Z;
}.

Definition Budget_new (arrived wait : Z) : Budget :=
  {| bud_deadline := if wait =? 0 then None else checked_add arrived wait;
     bud_hard := None;
     bud_retries := 0 |}.

Definition within (hard : Z) (b : Budget) : Budget :=
  {| bud_deadline := bud_deadline b; bud_hard := Some hard; bud_retries := bud_retries b |}.

Definition hard_deadline (b : Budget) : option Z := bud_hard b.

Definition budget_open (now : Z) (b : Budget) : bool :=
  match bud_deadline b with Some d => now <? d | None => false end.

(** [backoff(..).mul_f64(jitter)]: a backoff is a power of two of seconds, so its product with
    a double is exact and only the conversion to nanoseconds rounds. *)
Definition wait_at (now : Z) (said : option Z) (jitter : f64) (took : Z) (b : Budget) : option Z :=
  deadline ← bud_deadline b;
  let wait := match said with
              | Some d => d
              | None => f64_scale (backoff (bud_retries b + 1)) jitter
              end in
  resumes ← checked_add now wait;
  if deadline <? resumes then None
  else match bud_hard b with
       | Some hard =>
           t ← checked_add resumes took;
           if hard <? t then None else Some wait
       | None => Some wait
       end.

(** [Budget::wait] reads the clock and draws the jitter. *)
Definition wait (now : Z) (jitter : f64) (said : option Z) (took : Z) (b : Budget) : option Z :=
  wait_at now said jitter took b.

Definition wait_after_taking (now : Z) (jitter : f64) (e : GatewayError) (took : Z) (b : Budget)
    : option Z :=
  if negb (is_transient e) then None else wait now jitter (said_to_wait e) took b.

Definition wait_after (now : Z) (jitter : f64) (e : GatewayError) (b : Budget) : option Z :=
  wait_after_taking now jitter e 0 b.

Definition wait_after_outcome (now : Z) (jitter : f64) (tag : string) (status : Z) (b : Budget)
    : option Z :=
  if negb (transient tag status) then None else wait now jitter None 0 b.

(** The retry counter is a [u32]; a request's retries are bounded by its deadline, far below
    the width. *)
Definition sent (b : Budget) : Budget :=
  {| bud_deadline := bud_deadline b; bud_hard := bud_hard b; bud_retries := bud_retries b + 1 |}.

Definition retries (b : Budget) : Z := bud_retries b.

(** ** How long a backoff lasts *)

Lemma digits2_pos_bounds p :
  2 ^ (Zpos (SpecFloat.digits2_pos p) - 1) <= Zpos p < 2 ^ Zpos (SpecFloat.digits2_pos p).
Proof.
  induction p as [p IH|p IH|]; cbn [SpecFloat.digits2_pos]; [| |done];
    rewrite Pos2Z.inj_succ, Z.pow_succ_r by lia;
    replace (Z.succ (Zpos (SpecFloat.digits2_pos p)) - 1)
      with (Z.succ (Zpos (SpecFloat.digits2_pos p) - 1)) by lia;
    rewrite Z.pow_succ_r by lia; lia.
Qed.

(** Rounding to the nearest whole number stays between whole bounds. *)
Lemma f64_scale_bounds d m e lo hi :
  e < 0 -> lo * 2 ^ (- e) <= d * Zpos m <= hi * 2 ^ (- e) ->
  lo <= f64_scale d (SpecFloat.S754_finite false m e) <= hi.
Proof.
  intros He [Hlo Hhi]. unfold f64_scale. simpl. assert ((0 <=? e) = false) as -> by lia.
  set (q := 2 ^ (- e)) in *. assert (Hq : 0 < q) by (apply Z.pow_pos_nonneg; lia).
  set (p := d * Zpos m) in *. pose proof (Z.div_mod p q ltac:(lia)) as Hdm.
  pose proof (Z.mod_pos_bound p q Hq) as Hmod.
  assert (lo <= p / q) by (apply Z.div_le_lower_bound; lia).
  destruct (decide (p mod q = 0)) as [Hz|Hnz].
  - rewrite Hz. assert ((2 * 0 <? q) = true) as -> by lia. simpl. nia.
  - assert (p / q < hi) by nia. case_match; lia.
Qed.

(** What [random_range(0.8..=1.2)] gives: a double in that range. *)
Definition jitter_ok (j : f64) : Prop :=
  SpecFloat.valid_binary 53 1024 j = true /\ f64_leb f64_0_8 j = true /\ f64_leb j f64_1_2 = true.

Lemma f64_leb_finite m e m' e' :
  f64_leb (SpecFloat.S754_finite false m e) (SpecFloat.S754_finite false m' e') =
  match e ?= e' with Lt => true | Gt => false | Eq => (m <=? m')%positive end.
Proof.
  unfold f64_leb, SpecFloat.SFleb; simpl. by destruct (e ?= e').
Qed.

Lemma f64_0_8_finite : f64_0_8 = SpecFloat.S754_finite false 7205759403792794 (-53).
Proof. by vm_compute. Qed.
Lemma f64_1_2_finite : f64_1_2 = SpecFloat.S754_finite false 5404319552844595 (-52).
Proof. by vm_compute. Qed.

Lemma jitter_cases j :
  jitter_ok j -> exists m e, j = SpecFloat.S754_finite false m e /\
    (e = -53 /\ 7205759403792794 <= Zpos m < 2 ^ 53 \/
     e = -52 /\ 2 ^ 52 <= Zpos m <= 5404319552844595).
Proof.
  unfold jitter_ok. rewrite f64_0_8_finite, f64_1_2_finite. intros (Hv & Hlo & Hhi).
  destruct j as [[]|[]| |[] m e]; try done. exists m, e. split; [done|].
  rewrite f64_leb_finite in Hlo, Hhi.
  unfold SpecFloat.valid_binary, SpecFloat.bounded, SpecFloat.canonical_mantissa, SpecFloat.fexp,
    SpecFloat.emin in Hv. apply andb_true_iff in Hv as [Hc%Z.eqb_eq _].
  pose proof (digits2_pos_bounds m) as Hd. set (n := SpecFloat.digits2_pos m) in *. clearbody n.
  destruct (Z.compare_spec (-53) e) as [<-|He|He]; [| |done].
  - left. assert (n = 53%positive) as -> by (clear -Hc; lia).
    apply Pos.leb_le in Hlo. lia.
  - destruct (Z.compare_spec e (-52)) as [->|He'|He']; [|lia|done].
    right. assert (n = 53%positive) as -> by (clear -Hc; lia).
    apply Pos.leb_le, Pos2Z.pos_le_pos in Hhi. replace (53 - 1) with 52 in Hd by reflexivity.
    split; [reflexivity|]. split; [apply Hd|apply Hhi].
Qed.

Lemma backoff_cases n :
  backoff n = 2 * sec \/ backoff n = 4 * sec \/ backoff n = 8 * sec \/ backoff n = 16 * sec.
Proof.
  unfold backoff. set (k := Z.max (Z.min (Z.max n 1) 4 - 1) 0).
  assert (k = 0 \/ k = 1 \/ k = 2 \/ k = 3) as Hk by lia. clearbody k.
  destruct Hk as [->|[->|[->| ->]]]; [left|right; left|do 2 right; left|do 3 right]; reflexivity.
Qed.

(** A backoff is spread by at most a fifth. *)
Lemma backoff_jitter n j :
  jitter_ok j -> 8 * backoff n <= 10 * f64_scale (backoff n) j <= 12 * backoff n.
Proof.
  intros Hj. destruct (jitter_cases j Hj) as (m & e & -> & Hcase).
  assert (Hb : exists k, backoff n = 10 * k /\ 0 < k).
  { pose proof (backoff_cases n) as Hin. unfold sec in Hin. exists (backoff n / 10).
    by destruct Hin as [-> |[-> |[-> | ->]]]. }
  destruct Hb as (k & -> & Hk).
  assert (8 * k <= f64_scale (10 * k) (SpecFloat.S754_finite false m e) <= 12 * k); [|lia].
  apply f64_scale_bounds; [lia|].
  destruct Hcase as [[-> Hm]|[-> Hm]];
    [replace (2 ^ - -53) with 9007199254740992 by reflexivity
    |replace (2 ^ - -52) with 4503599627370496 by reflexivity]; nia.
Qed.

(** ** What a granted wait promises *)

Lemma wait_at_Some now said j took b w :
  wait_at now said j took b = Some w <->
  w = default (f64_scale (backoff (bud_retries b + 1)) j) said /\
  (exists d, bud_deadline b = Some d /\ now + w <= d) /\ now + w <= instant_max /\
  (forall h, bud_hard b = Some h -> now + w + took <= h /\ now + w + took <= instant_max).
Proof.
  unfold wait_at, checked_add. destruct (bud_deadline b) as [d|]; simpl; [|naive_solver].
  assert (Heq : (match said with Some d => d | None => f64_scale (backoff (bud_retries b + 1)) j end)
    = default (f64_scale (backoff (bud_retries b + 1)) j) said) by by destruct said.
  rewrite Heq. set (v := default _ _).
  destruct (now + v <=? instant_max) eqn:E1; simpl; zbool.
  - destruct (d <? now + v) eqn:E2; zbool.
    + split; [done|]. intros (-> & (d' & [= <-] & ?) & _). lia.
    + destruct (bud_hard b) as [h|]; simpl.
      * destruct (now + v + took <=? instant_max) eqn:E3; simpl; zbool.
        -- destruct (h <? now + v + took) eqn:E4; zbool; split.
           ++ done.
           ++ intros (-> & _ & _ & Hh). specialize (Hh h eq_refl). lia.
           ++ intros [= <-]. split_and!; eauto with lia. by intros h' [= <-].
           ++ by intros (-> & _).
        -- split; [done|]. intros (-> & _ & _ & Hh). specialize (Hh h eq_refl). lia.
      * split; [|by intros (-> & _)]. intros [= <-]. split_and!; eauto with lia. done.
  - split; [done|]. intros (-> & _ & ? & _). lia.
Qed.

Lemma said_min e d : said_to_wait e = Some d -> MIN_SAID_WAIT <= d.
Proof. destruct e; simpl; try done. repeat case_match; try done. intros [= <-]. lia. Qed.

Lemma granted_min now j e took b w :
  jitter_ok j -> wait_after_taking now j e took b = Some w ->
  MIN_SAID_WAIT <= w /\ exists d, bud_deadline b = Some d /\ now + w <= d.
Proof.
  intros Hj. unfold wait_after_taking, wait. destruct (is_transient e); simpl; [|done].
  intros (-> & Hd & _)%wait_at_Some. split; [|done].
  destruct (said_to_wait e) as [d|] eqn:Es; simpl; [by apply said_min in Es|].
  pose proof (backoff_jitter (bud_retries b + 1) j Hj) as Hb.
  pose proof (backoff_cases (bud_retries b + 1)) as Hin.
  unfold MIN_SAID_WAIT, ms, sec in *. lia.
Qed.

(** When a failed attempt is followed by another: exactly when the failure is transient,
    and the wait ends by the request's deadline, and, under a hard deadline, another attempt
    as long as the last one still fits before it.  The wait is the upstream's own word but at
    least 250 ms, or a backoff of 2, 4, 8, then 16 seconds, give or take a fifth. *)
Theorem retry_wait_exact now j e took b w (Hj : jitter_ok j) :
  (wait_after_taking now j e took b = Some w <->
    is_transient e = true /\
    w = default (f64_scale (backoff (retries b + 1)) j) (said_to_wait e) /\
    (exists d, bud_deadline b = Some d /\ now + w <= d) /\ now + w <= instant_max /\
    (forall h, hard_deadline b = Some h -> now + w + took <= h /\ now + w + took <= instant_max)) /\
  (wait_after_taking now j e took b = Some w ->
    match said_to_wait e with
    | Some d => MIN_SAID_WAIT <= w
    | None => 8 * backoff (retries b + 1) <= 10 * w <= 12 * backoff (retries b + 1)
    end) /\
  backoff (retries b + 1) =
    (if retries b <? 1 then 2 else if retries b =? 1 then 4 else if retries b =? 2 then 8 else 16) * sec.
Proof.
  split; [|split].
  - unfold wait_after_taking, wait. destruct (is_transient e); simpl; [|naive_solver].
    rewrite wait_at_Some. naive_solver.
  - unfold wait_after_taking, wait. destruct (is_transient e); simpl; [|done].
    intros (-> & _)%wait_at_Some. destruct (said_to_wait e) eqn:Es; simpl.
    + by apply said_min in Es.
    + by apply backoff_jitter.
  - unfold backoff, retries. set (r := bud_retries b).
    repeat case_match; zbool.
    + by replace (Z.max (Z.min (Z.max (r + 1) 1) 4 - 1) 0) with 0 by lia.
    + by replace (Z.max (Z.min (Z.max (r + 1) 1) 4 - 1) 0) with 1 by lia.
    + by replace (Z.max (Z.min (Z.max (r + 1) 1) 4 - 1) 0) with 2 by lia.
    + by replace (Z.max (Z.min (Z.max (r + 1) 1) 4 - 1) 0) with 3 by lia.
Qed.

(** ** Witness *)

Definition demo_overloaded : GatewayError := ProviderHttpError 503 "down" (Some 0).

(** A second after it arrived, an overloaded upstream that says nothing: two seconds' wait. *)
Lemma retry_wait_exact_witness :
  wait_after_taking sec f64_one demo_overloaded 0 (Budget_new 0 (30 * sec)) = Some (2 * sec) /\
  8 * backoff 1 <= 10 * (2 * sec) <= 12 * backoff 1.
Proof.
  assert (jitter_ok f64_one) as Hj by by vm_compute.
  assert (wait_after_taking sec f64_one demo_overloaded 0 (Budget_new 0 (30 * sec)) = Some (2 * sec))
    as Hw by by vm_compute.
  split; [exact Hw|].
  exact (proj1 (proj2 (retry_wait_exact sec f64_one demo_overloaded 0 (Budget_new 0 (30 * sec))
                         (2 * sec) Hj)) Hw).
Defined.
