(* ===== verification/Router.v ===== *)
(** * Model names to upstream routes

    [crates/gateway/src/protocol.rs] (the wire dialects and which to try for a model) and
    [crates/gateway/src/router.rs] (the routing table: exact model names, then the longest
    registered prefix).  A [HashMap] is a finite map whose iteration order is not fixed:
    [order] is any listing of it, and the lookups are proved not to depend on it. *)

From Stdlib Require Import Ascii.
From S2P Require Import Prelude GatewayDeps Text.

(** ** Wire dialects *)

Module Protocol.
Inductive t := OpenAiChat | OpenAiResponses | AnthropicMessages | GoogleGenerate | BedrockNative.
#[export] Instance t_eq_dec : EqDecision t.
Proof. solve_decision. Defined.

Definition as_str (p : t) : string :=
  match p with
  | OpenAiChat => "openai_chat"
  | OpenAiResponses => "openai_responses"
  | AnthropicMessages => "anthropic_messages"
  | GoogleGenerate => "google_generate"
  | BedrockNative => "bedrock_native"
  end.

Definition parse (s : string) : option t :=
  if String.eqb s "openai_chat" then Some OpenAiChat
  else if String.eqb s "openai_responses" then Some OpenAiResponses
  else if String.eqb s "anthropic_messages" then Some AnthropicMessages
  else if String.eqb s "google_generate" then Some GoogleGenerate
  else if String.eqb s "bedrock_native" then Some BedrockNative
  else None.

Definition default_for_provider_type (provider_type : string) : t :=
  if String.eqb provider_type "anthropic" then AnthropicMessages
  else if String.eqb provider_type "google" then GoogleGenerate
  else if String.eqb provider_type "bedrock" then BedrockNative
  else OpenAiChat.

Fixpoint contains (needle s : string) : bool :=
  starts_with needle s || match s with EmptyString => false | String _ s => contains needle s end.

(** The loop over the fallbacks: each is pushed unless it is already there. *)
Definition push_new (out : list t) (p : t) : list t :=
  if decide (p ∈ out) then out else out ++ [p].

Definition candidates_for (provider_type upstream_model : string) : list t :=
  let default := default_for_provider_type provider_type in
  match default with
  | BedrockNative | GoogleGenerate => [default]
  | _ =>
      let model := to_ascii_lowercase upstream_model in
      let native :=
        if contains "claude" model || starts_with "anthropic" model then AnthropicMessages
        else if contains "gemini" model || starts_with "google" model then GoogleGenerate
        else OpenAiChat in
      foldl push_new [native] [OpenAiChat; OpenAiResponses; default]
  end.

Lemma push_new_spec out p :
  NoDup out -> NoDup (push_new out p) /\ out `prefix_of` push_new out p /\ p ∈ push_new out p.
Proof.
  intros Hout. unfold push_new. case_decide; [done|]. split_and!.
  - apply NoDup_app. split_and!; [done| |apply NoDup_singleton]. set_solver.
  - by eexists.
  - set_solver.
Qed.

(** The dialects to try for an upstream model: never the same one twice; the provider's own
    dialect is always among them, and a provider whose transport is fixed (Bedrock, Gemini) has
    no other; every other provider is also asked in both OpenAI dialects, the model family's
    dialect first.  A dialect's stored name reads back as the dialect. *)
Theorem protocol_candidates ty model :
  NoDup (candidates_for ty model) /\
  default_for_provider_type ty ∈ candidates_for ty model /\
  (default_for_provider_type ty ∈ [BedrockNative; GoogleGenerate] ->
     candidates_for ty model = [default_for_provider_type ty]) /\
  (default_for_provider_type ty ∉ [BedrockNative; GoogleGenerate] ->
     OpenAiChat ∈ candidates_for ty model /\ OpenAiResponses ∈ candidates_for ty model /\
     (contains "claude" (to_ascii_lowercase model) = true ->
        candidates_for ty model !! 0%nat = Some AnthropicMessages)) /\
  forall p, parse (as_str p) = Some p.
Proof.
  unfold candidates_for. set (d := default_for_provider_type ty).
  set (lower := to_ascii_lowercase model). set (native := if _ || _ then AnthropicMessages else _).
  assert (Hnat : contains "claude" lower = true -> native = AnthropicMessages).
  { subst native. intros ->. done. }
  clearbody native d.
  split; [|split; [|split; [|split; [|by intros []]]]].
  - destruct d; simpl; [| | |by apply NoDup_singleton..];
      destruct native; apply (bool_decide_unpack _); by vm_compute.
  - destruct d; [| | |by left..]; destruct native; apply (bool_decide_unpack _); by vm_compute.
  - rewrite !elem_of_cons, elem_of_nil. intros [-> |[-> |[]]]; done.
  - rewrite !elem_of_cons, elem_of_nil. intros Hd. destruct d; try (destruct Hd; by eauto).
    all: split_and!; [| |intros Hc; by rewrite (Hnat Hc)].
    all: destruct native; apply (bool_decide_unpack _); by vm_compute.
Qed.
End Protocol.

(** ** Session affinity *)

Module AffinityMode.
Inductive t := NoAffinity | Provider | Route.
#[export] Instance t_eq_dec : EqDecision t.
Proof. solve_decision. Defined.
Definition as_str (m : t) : string :=
  match m with NoAffinity => "none" | Provider => "provider" | Route => "route" end.
Definition parse_or_default (s : string) : t :=
  if String.eqb s "none" then NoAffinity else if String.eqb s "route" then Route else Provider.

Lemma as_str_inj m m' : as_str m = as_str m' -> m = m'.
Proof. by destruct m, m'. Qed.
End AffinityMode.

(** ** The table *)

Section Router.
(** [U]: identifiers; [Up]: where a provider's requests go ([transport::Upstream]); [Rs]: a
    model's reasoning setting; [St]: the routing strategy. *)
Context {U Up Rs Strat : Type}.

Record RouteEntry := {
  re_upstream : Up;
  re_provider_id : U;
  re_route_id : U;
  re_provider_name : string;
  re_upstream_model : option string;
  re_weight : Z;
  re_label : option string;
  re_rpm_cap : option Z;
  re_tpm_cap : option Z;
  re_protocol : Protocol.t;
  re_alternates : list Protocol.t;
}.

Record ModelRoutingConfig := {
  mrc_strategy : option Strat;
  mrc_affinity_mode : option AffinityMode.t;
  mrc_affinity_ttl_secs : option Z;
  mrc_max_output_tokens : option Z;
  mrc_reasoning : option Rs;
}.
Definition ModelRoutingConfig_default : ModelRoutingConfig :=
  {| mrc_strategy := None; mrc_affinity_mode := None; mrc_affinity_ttl_secs := None;
     mrc_max_output_tokens := None; mrc_reasoning := None |}.

Record ModelRouter := {
  mr_routes : gmap string (list RouteEntry);
  mr_configs : gmap string ModelRoutingConfig;
}.
Definition ModelRouter_new : ModelRouter := {| mr_routes := ∅; mr_configs := ∅ |}.

Definition set_model_config (model_id : string) (cfg : ModelRoutingConfig) (r : ModelRouter)
    : ModelRouter :=
  {| mr_routes := mr_routes r; mr_configs := <[model_id := cfg]> (mr_configs r) |}.

Definition register_route (model_id : string) (entry : RouteEntry) (r : ModelRouter)
    : ModelRouter :=
  {| mr_routes := <[model_id := default [] (mr_routes r !! model_id) ++ [entry]]> (mr_routes r);
     mr_configs := mr_configs r |}.

(** The scan for the longest pattern that starts the name and passes [keep]. *)
Definition longest_step {A} (keep : A -> bool) (name : string) (best : option (string * A))
    (p : string * A) : option (string * A) :=
  if starts_with p.1 name && keep p.2 then
    match best with
    | Some (cur, _) => if (String.length cur <? String.length p.1)%nat then Some p else best
    | None => Some p
    end
  else best.

Definition longest_match {A} (keep : A -> bool) (name : string) (l : list (string * A))
    : option A :=
  snd <$> foldl (longest_step keep name) None l.

(** [sort_by_key(|e| Reverse(e.weight))], which is stable. *)
Fixpoint insert_by_weight (e : RouteEntry) (l : list RouteEntry) : list RouteEntry :=
  match l with
  | [] => [e]
  | x :: l' => if re_weight x <? re_weight e then e :: l else x :: insert_by_weight e l'
  end.
Definition sort_by_weight (l : list RouteEntry) : list RouteEntry :=
  foldl (fun acc e => insert_by_weight e acc) [] l.
Definition sort_routes (r : ModelRouter) : ModelRouter :=
  {| mr_routes := sort_by_weight <$> mr_routes r; mr_configs := mr_configs r |}.

(** How each map is iterated. *)
Variable order : forall {A}, gmap string A -> list (string * A).

Definition config_for (model_id : string) (r : ModelRouter) : ModelRoutingConfig :=
  match mr_configs r !! model_id with
  | Some c => c
  | None => default ModelRoutingConfig_default
              (longest_match (fun _ => true) model_id (order (mr_configs r)))
  end.

Definition nonempty {A} (l : list A) : bool := match l with [] => false | _ => true end.

Definition route (model : string) (r : ModelRouter) : option (list RouteEntry) :=
  match mr_routes r !! model with
  | Some (e :: es) => Some (e :: es)
  | _ => longest_match nonempty model (order (mr_routes r))
  end.

Definition provider_id_for (model : string) (r : ModelRouter) : option U :=
  entries ← route model r; re_provider_id <$> head entries.

Definition list_models (r : ModelRouter) : list string := btree_extend [] (order (mr_routes r)).*1.

(** *** The lookup does not depend on the iteration order *)

(** [p] is a longest pattern of [l] that starts [name] and passes [keep]. *)
Definition is_longest {A} (keep : A -> bool) (name : string) (l : list (string * A))
    (p : string * A) : Prop :=
  p ∈ l /\ starts_with p.1 name = true /\ keep p.2 = true /\
  forall q, q ∈ l -> starts_with q.1 name = true -> keep q.2 = true ->
    (String.length q.1 <= String.length p.1)%nat.

Lemma longest_fold {A} (keep : A -> bool) name l :
  match foldl (longest_step keep name) None l with
  | Some p => is_longest keep name l p
  | None => forall q, q ∈ l -> starts_with q.1 name = true -> keep q.2 = true -> False
  end.
Proof.
  induction l as [|q l IH] using rev_ind; [set_solver|].
  rewrite foldl_app. simpl. set (best := foldl _ None l) in *. unfold longest_step.
  destruct (starts_with q.1 name && keep q.2) eqn:Eq.
  - apply andb_true_iff in Eq as [Eq1 Eq2].
    destruct best as [[cur a]|].
    + destruct IH as (Hin & Hs & Hk & Hmax). simpl in *.
      destruct (Nat.ltb_spec (String.length cur) (String.length q.1)) as [Hlt|Hge].
      * split_and!; [set_solver|done|done|]. intros q' [Hq'|Hq'%list_elem_of_singleton]%elem_of_app ??.
        -- specialize (Hmax q' Hq'). simpl in *. naive_solver lia.
        -- by subst.
      * split_and!; [set_solver|done|done|]. intros q' [Hq'|Hq'%list_elem_of_singleton]%elem_of_app ??.
        -- by apply Hmax.
        -- by subst.
    + split_and!; [set_solver|done|done|].
      intros q' [Hq'|Hq'%list_elem_of_singleton]%elem_of_app ??; [naive_solver|by subst].
  - assert (Hq : starts_with q.1 name = true -> keep q.2 = true -> False)
      by (intros H1 H2; by rewrite H1, H2 in Eq).
    destruct best as [p|].
    + destruct IH as (Hin & Hs & Hk & Hmax). split_and!; [set_solver|done|done|].
      intros q' [Hq'|Hq'%list_elem_of_singleton]%elem_of_app ??; [by apply Hmax|].
      subst. naive_solver.
    + intros q' [Hq'|Hq'%list_elem_of_singleton]%elem_of_app ??; [by eapply IH|]. subst. auto.
Qed.

(** Two patterns of the same length that start the same name are the same pattern. *)
Lemma starts_with_length p q name :
  starts_with p name = true -> starts_with q name = true ->
  String.length p = String.length q -> p = q.
Proof.
  intros [t Ht]%starts_with_spec [u Hu]%starts_with_spec Hl.
  rewrite Ht in Hu. by apply str_app_inj_len in Hu as [? _].
Qed.

Lemma longest_match_spec {A} (keep : A -> bool) name (m : gmap string A) l v :
  l ≡ₚ map_to_list m ->
  longest_match keep name l = Some v <->
    exists p, m !! p = Some v /\ starts_with p name = true /\ keep v = true /\
      forall q w, m !! q = Some w -> starts_with q name = true -> keep w = true ->
        (String.length q <= String.length p)%nat.
Proof.
  intros Hl. unfold longest_match. pose proof (longest_fold keep name l) as Hf.
  assert (Hin : forall q w, (q, w) ∈ l <-> m !! q = Some w)
    by (intros; rewrite Hl; apply elem_of_map_to_list).
  destruct (foldl _ None l) as [[p0 v0]|]; simpl.
  - destruct Hf as (Hp & Hs & Hk & Hmax). simpl in *. apply Hin in Hp. split.
    + intros [= ->]. exists p0. split_and!; [done..|].
      intros q w Hq ??. apply (Hmax (q, w)); [by apply Hin|done|done].
    + intros (p1 & Hp1 & Hs1 & Hk1 & Hmax1). f_equal.
      assert (p0 = p1) as ->.
      { apply (starts_with_length p0 p1 name); [done|done|].
        apply Nat.le_antisymm; [by eapply Hmax1|].
        apply (Hmax (p1, v)); [by apply Hin|done|done]. }
      congruence.
  - split; [done|]. intros (p1 & Hp1 & Hs1 & Hk1 & _). exfalso.
    apply (Hf (p1, v)); [by apply Hin|done|done].
Qed.

(** *** Sorting *)

Definition by_weight (l : list RouteEntry) : Prop :=
  StronglySorted (fun a b => re_weight b <= re_weight a) l.

Lemma insert_perm e l : insert_by_weight e l ≡ₚ e :: l.
Proof.
  induction l as [|x l IH]; simpl; [done|]. case_match; [done|].
  rewrite IH. apply Permutation_swap.
Qed.

Lemma insert_sorted e l : by_weight l -> by_weight (insert_by_weight e l).
Proof.
  unfold by_weight. induction 1 as [|x l Hl IH Hx]; simpl; [repeat constructor|].
  destruct (re_weight x <? re_weight e) eqn:E; zbool.
  - constructor; [by constructor|]. constructor; [lia|]. eapply Forall_impl; [apply Hx|]. simpl. lia.
  - constructor; [done|]. rewrite insert_perm. constructor; [lia|done].
Qed.

Lemma sort_fold acc l :
  by_weight acc ->
  by_weight (foldl (fun acc e => insert_by_weight e acc) acc l) /\
  foldl (fun acc e => insert_by_weight e acc) acc l ≡ₚ acc ++ l.
Proof.
  revert acc. induction l as [|e l IH]; intros acc Hacc; simpl; [by rewrite app_nil_r|].
  destruct (IH (insert_by_weight e acc)) as [Hs Hp]; [by apply insert_sorted|].
  split; [done|]. rewrite Hp, insert_perm. simpl. by rewrite Permutation_middle.
Qed.

Lemma sort_by_weight_spec l : by_weight (sort_by_weight l) /\ sort_by_weight l ≡ₚ l.
Proof. apply (sort_fold [] l). constructor. Qed.

Lemma sort_nonempty l : nonempty (sort_by_weight l) = nonempty l.
Proof.
  destruct (sort_by_weight_spec l) as [_ Hp]. destruct l as [|x l]; [done|].
  destruct (sort_by_weight (x :: l)); [|done]. apply Permutation_nil_l in Hp. done.
Qed.

(** *** What a lookup finds *)

(** The routes [model] is sent to: those registered for it, or, when there are none, those of
    the longest registered name that starts it. *)
Definition routed (r : ModelRouter) (model : string) (es : list RouteEntry) : Prop :=
  nonempty es = true /\
  (mr_routes r !! model = Some es \/
   nonempty (default [] (mr_routes r !! model)) = false /\
   exists p, mr_routes r !! p = Some es /\ starts_with p model = true /\
     forall q es', mr_routes r !! q = Some es' -> starts_with q model = true ->
       nonempty es' = true -> (String.length q <= String.length p)%nat).

Context (Horder : forall A (m : gmap string A), order m ≡ₚ map_to_list m).

Lemma route_spec r model es : route model r = Some es <-> routed r model es.
Proof.
  unfold route, routed.
  pose proof (longest_match_spec nonempty model (mr_routes r) _ es (Horder _ _)) as Hl.
  destruct (mr_routes r !! model) as [[|e0 es0]|] eqn:E; simpl.
  - rewrite Hl. split.
    + intros (p & ? & ? & ? & Hmax). split; [done|]. right. eauto.
    + intros [Hne [[= <-]|[_ (p & ? & ? & Hmax)]]]; [done|]. eauto 10.
  - split.
    + intros [= <-]. auto.
    + intros [Hne [[= <-]|[? _]]]; done.
  - rewrite Hl. split.
    + intros (p & ? & ? & ? & Hmax). split; [done|]. right. eauto.
    + intros [Hne [?|[_ (p & ? & ? & Hmax)]]]; [done|]. eauto 10.
Qed.

Lemma lookup_sorted r model :
  mr_routes (sort_routes r) !! model = sort_by_weight <$> mr_routes r !! model.
Proof. apply lookup_fmap. Qed.

Lemma routed_sorted r model es : routed r model es -> routed (sort_routes r) model (sort_by_weight es).
Proof.
  unfold routed. rewrite lookup_sorted, sort_nonempty.
  intros [Hne Hor]. split; [done|]. destruct Hor as [->|[He (p & Hp & Hs & Hmax)]]; [by left|].
  right. split.
  - destruct (mr_routes r !! model); simpl in *; [by rewrite sort_nonempty|done].
  - exists p. rewrite lookup_sorted, Hp. split_and!; [done..|].
    intros q es'. rewrite lookup_sorted. destruct (mr_routes r !! q) eqn:Eq; [|done].
    intros [= <-] ?. rewrite sort_nonempty. eauto.
Qed.

Lemma route_nonempty model r es : route model r = Some es -> es <> [].
Proof. rewrite route_spec. intros [Hne _] ->. done. Qed.
End Router.

#[global] Arguments RouteEntry : clear implicits.
#[global] Arguments ModelRouter : clear implicits.
#[global] Arguments ModelRoutingConfig : clear implicits.

Section Lookups.
Context {U Up Rs Strat : Type}.
Implicit Types (r : ModelRouter U Up Rs Strat) (order : forall A, gmap string A -> list (string * A)).

Definition lists_map (order : forall A, gmap string A -> list (string * A)) : Prop :=
  forall A (m : gmap string A), order A m ≡ₚ map_to_list m.

(** A model is sent to the routes registered for its name, or, when there are none, to
    those of the longest registered name that is a prefix of it; whichever way the table's hash
    map is iterated.  Sorting the table changes the order of a model's routes, heaviest first,
    and nothing else. *)
Theorem route_longest_prefix order r model es (Ho : lists_map order) :
  (route order model r = Some es <-> routed r model es) /\
  route order model (sort_routes r) = sort_by_weight <$> route order model r /\
  by_weight (sort_by_weight es) /\ sort_by_weight es ≡ₚ es.
Proof.
  split; [by apply route_spec|]. split; [|apply sort_by_weight_spec].
  destruct (route order model r) as [es0|] eqn:E; simpl.
  - apply route_spec; [done|]. apply routed_sorted. by apply (route_spec order Ho).
  - destruct (route order model (sort_routes r)) as [es1|] eqn:E1; [|done]. exfalso.
    apply (route_spec order Ho) in E1 as [Hne Hor].
    assert (Hsome : exists es, routed r model es); [|destruct Hsome as [es' Hes'];
      apply (route_spec order Ho) in Hes'; congruence].
    rewrite lookup_sorted in Hor. destruct Hor as [Hor|[He (p & Hp & Hs & Hmax)]].
    + destruct (mr_routes r !! model) as [es2|] eqn:E2; [|done]. injection Hor as <-.
      exists es2. rewrite sort_nonempty in Hne. split; [done|by left].
    + rewrite lookup_sorted in Hp. destruct (mr_routes r !! p) as [es2|] eqn:E2; [|done].
      injection Hp as <-. rewrite sort_nonempty in Hne. exists es2. split; [done|]. right. split.
      * destruct (mr_routes r !! model); simpl in *; [by rewrite sort_nonempty in He|done].
      * exists p. split_and!; [done..|]. intros q es3 Hq Hsq Hneq.
        apply (Hmax q (sort_by_weight es3)); [by rewrite lookup_sorted, Hq|done|].
        by rewrite sort_nonempty.
Qed.

(** Registering a route adds it to its model's routes and leaves every other model's. *)
Lemma register_route_lookup (model_id : string) e r m :
  mr_routes (register_route model_id e r) !! m =
    if decide (m = model_id) then Some (default [] (mr_routes r !! m) ++ [e])
    else mr_routes r !! m.
Proof.
  simpl. case_decide as Hm; subst; [by rewrite lookup_insert_eq|by rewrite lookup_insert_ne].
Qed.
End Lookups.

(** ** Witness *)

Definition demo_entry (id w : Z) : RouteEntry Z unit :=
  {| re_upstream := tt; re_provider_id := id; re_route_id := id; re_provider_name := "p";
     re_upstream_model := Some "m"; re_weight := w; re_label := None; re_rpm_cap := None;
     re_tpm_cap := None; re_protocol := Protocol.OpenAiChat; re_alternates := [] |}.

Definition demo_router : ModelRouter Z unit unit unit :=
  register_route "gpt-" (demo_entry 1 10)
    (register_route "gpt-4" (demo_entry 3 30) (register_route "gpt-4" (demo_entry 2 20) ModelRouter_new)).

Lemma route_longest_prefix_witness :
  route (fun A m => map_to_list m) "gpt-4o" demo_router = Some [demo_entry 2 20; demo_entry 3 30] /\
  routed demo_router "gpt-4o" [demo_entry 2 20; demo_entry 3 30].
Proof.
  assert (route (fun A m => map_to_list m) "gpt-4o" demo_router = Some [demo_entry 2 20; demo_entry 3 30])
    as Hr by by vm_compute.
  split; [exact Hr|].
  assert (lists_map (fun A m => map_to_list m)) as Ho by (intros A m; reflexivity).
  exact (proj1 (proj1 (route_longest_prefix (fun A m => map_to_list m) demo_router "gpt-4o"
    [demo_entry 2 20; demo_entry 3 30] Ho)) Hr).
Defined.
