(* ===== verification/Sealed.v ===== *)
(** * Conversations whose history an upstream sealed

    [crates/gateway/src/proxy/sealed.rs]: which provider holds a conversation's encrypted
    history ([Conversation], [Holder], in a Redis text key), where a request that carries some
    may go ([sealed_decide]), and how a refusal is told ([explain_refusal]).  What a request carries
    sealed and how an upstream words a refusal are [tw_dialect]'s. *)

From Stdlib Require Import Ascii.
From S2P Require Import Prelude Interfaces Float64 GatewayDeps GatewayError.

Definition BINDING_TTL_SECS : Z := 30 * 24 * 60 * 60.

(** What a request carries sealed: [tw_dialect::sealed::Sealed]. *)
Inductive SealedKind := SReasoning | SContent.

Section Sealed.
Context {U : Type} `{UuidParse U}.

Record Holder := { ho_provider_id : U; ho_provider_name : string }.

Definition encode (h : Holder) : string :=
  uuid_str (ho_provider_id h) +:+ " " +:+ ho_provider_name h.

Definition parse (value : string) : option Holder :=
  '(id, name) ← split_once " "%char value;
  id ← uuid_parse id;
  Some {| ho_provider_id := id; ho_provider_name := name |}.

Definition conversation_of (user_id session_id : option string) : option string :=
  u ← user_id; s ← session_id; Some ("sealed_holder:" +:+ u +:+ ":" +:+ s).

Section Store.
Context {St : Type} `{RedisText St}.

(** [up]: whether Redis answers.  A conversation is its key. *)
Definition holder (up : bool) (key : string) (s : St) : option Holder :=
  value ← (if up then tget key s else None); parse value.

Definition answered_by (up : bool) (key : string) (provider_id : U) (provider_name : string) (s : St)
    : St :=
  if up then
    tset key (encode {| ho_provider_id := provider_id; ho_provider_name := provider_name |})
      BINDING_TTL_SECS s
  else s.
End Store.

Inductive Pin := Only (id : U) | First (id : U).
Definition pin_provider (p : Pin) : U := match p with Only id | First id => id end.

Definition sealed_decide (sealed : option SealedKind) (h : option Holder) (providers : list U)
    (model : string) : result GatewayError (option Pin) :=
  match sealed, h with
  | Some sealed, Some h =>
      let routed := bool_decide (ho_provider_id h ∈ providers) in
      match sealed, routed with
      | SContent, true => Ok (Some (Only (ho_provider_id h)))
      | SContent, false => Err (SealedHistoryUnavailable (ho_provider_name h) model)
      | SReasoning, true => Ok (Some (First (ho_provider_id h)))
      | SReasoning, false => Ok None
      end
  | _, _ => Ok None
  end.

(** [D]: [tw_dialect::ir::Dialect]; [words d said]: [tw_dialect::sealed::refused]. *)
Context {D : Type} (is_responses : D -> bool) (words : D -> string -> bool).

Definition refused (wire : D) (said : string) : bool := is_responses wire && words wire said.

Definition explain_refusal (wire : D) (provider label : string) (e : GatewayError) : GatewayError :=
  match e with
  | ProviderHttpError status message _ =>
      if (400 <=? status) && (status <? 500) && refused wire message then
        let said := default message (m ← strip_prefix label message; strip_prefix ": " m) in
        SealedHistoryRefused status provider said
      else e
  | e => e
  end.

Lemma encode_parse `{!UuidParseLaws U} h : parse (encode h) = Some h.
Proof.
  unfold parse, encode. change (" " +:+ ho_provider_name h) with (String " "%char (ho_provider_name h)).
  rewrite split_once_app by apply uuid_str_no_space. simpl.
  rewrite uuid_parse_str. by destruct h.
Qed.
End Sealed.
#[global] Arguments Pin : clear implicits.
#[global] Arguments Holder : clear implicits.

Section Claims.
Context {U : Type} `{UuidParseLaws U} {St : Type} `{RedisTextLaws St}.

(** The provider that answers a conversation is the one its next turn finds: whatever its
    name holds, the stored value reads back, the other conversations keep theirs, and a Redis
    that cannot be reached changes nothing and remembers nothing. *)
Theorem holder_roundtrip up key id name (s : St) key' :
  holder up key' (answered_by up key id name s) =
    if up then
      if decide (key' = key) then Some {| ho_provider_id := id; ho_provider_name := name |}
      else holder true key' s
    else None.
Proof.
  unfold holder, answered_by. destruct up; [|done]. rewrite tget_tset.
  case_decide; simpl; [apply encode_parse|done].
Qed.

Context {D : Type} (is_responses : D -> bool) (words : D -> string -> bool).

(** Sealed content goes to its holder or nowhere: with a holder known, the request is
    pinned to it exactly when one of its routes is the holder's, and refused with 409
    otherwise; sealed reasoning only prefers its holder.  Nothing sealed, or no holder known,
    routes as any other request.  An upstream's refusal of sealed history keeps its status and
    is then nobody's failure: it neither moves the request on nor trips a breaker. *)
Theorem sealed_routing sealed (h : Holder U) providers model
    (wire : D) provider label status message retry :
  sealed_decide None (Some h) providers model = Ok None /\
  sealed_decide sealed None providers model = Ok None /\
  (sealed_decide (Some SContent) (Some h) providers model =
     if bool_decide (ho_provider_id h ∈ providers) then Ok (Some (Only (ho_provider_id h)))
     else Err (SealedHistoryUnavailable (ho_provider_name h) model)) /\
  (forall p, sealed_decide sealed (Some h) providers model = Ok (Some p) ->
     pin_provider p = ho_provider_id h /\ pin_provider p ∈ providers) /\
  status_code (SealedHistoryUnavailable (ho_provider_name h) model) = 409 /\
  let e' := explain_refusal is_responses words wire provider label
              (ProviderHttpError status message retry) in
  status_code e' = status /\
  (e' <> ProviderHttpError status message retry <->
     400 <= status < 500 /\ is_responses wire = true /\ words wire message = true) /\
  (e' <> ProviderHttpError status message retry ->
     is_upstream_failure e' = false /\ is_transient e' = false).
Proof.
  split; [done|]. split; [by destruct sealed|]. split; [unfold sealed_decide; by case_bool_decide|].
  split.
  { intros p. unfold sealed_decide. destruct sealed as [[]|]; [| |done];
      case_bool_decide; try done; intros [= <-]; done. }
  split; [done|]. simpl. unfold refused.
  destruct ((400 <=? status) && (status <? 500) && (is_responses wire && words wire message)) eqn:E.
  - apply andb_true_iff in E as [Es [Hr Hw]%andb_true_iff].
    split; [done|]. split; [|done]. split; [intros _; split; [lia|done]|done].
  - split; [done|]. split; [|done]. split; [done|]. intros (Hs & Hr & Hw).
    rewrite Hr, Hw in E. lia.
Qed.
End Claims.

(** ** Witness *)

(** A name with spaces in it survives. *)
Lemma holder_roundtrip_witness :
  holder true "k" (answered_by true "k" UKey1 "Azure EU west" ds_empty) =
    Some {| ho_provider_id := UKey1; ho_provider_name := "Azure EU west" |}.
Proof. rewrite (holder_roundtrip true "k" UKey1 "Azure EU west" ds_empty "k"). reflexivity. Defined.
