(* ===== verification/RouteCaps.v ===== *)
(** * Per-route capacity caps

    [crates/gateway/src/route_caps.rs]: a route's requests and weighted tokens per minute,
    counted by the sliding-window limiter under the route's own keys; and [CappedRoutes], what
    a selection skipped and the 429 it ends with when nothing else could take the request. *)

From S2P Require Import Prelude Interfaces LimitTypes Constraints Sliding SlidingSpec.
From S2P Require Import SlidingSpec Limiter GatewayError Router.

Definition WINDOW_SECS : Z := 60.

Module Caps.
Section Caps.
Context {U : Type} `{Uuid U}.

Definition hash_tag (route_id : U) : string := "{route:" +:+ uuid_str route_id +:+ "}".

Definition counter_key (route_id : U) (metric : RateMetric.t) : string :=
  "ratelimit:" +:+ hash_tag route_id +:+ ":ai_gateway:route:" +:+ uuid_str route_id +:+ ":" +:+
  RateMetric.as_str metric +:+ ":" +:+ pretty WINDOW_SECS.

Record RouteCaps := { rc_route_id : U; rc_rpm : option Z; rc_tpm : option Z }.

Definition RouteCaps_of {Up : Type} (entry : RouteEntry U Up) : RouteCaps :=
  {| rc_route_id := re_route_id entry; rc_rpm := re_rpm_cap entry; rc_tpm := re_tpm_cap entry |}.

Definition cap_counter (route_id : U) (metric : RateMetric.t) (charge cap : Z)
    : RateMetric.t * Counter :=
  (metric, {| ct_key := counter_key route_id metric; ct_bucket_secs := bucket_secs WINDOW_SECS;
              ct_max_count := cap; ct_charge := charge |}).

Definition counters (caps : RouteCaps) : list (RateMetric.t * Counter) :=
  omap (fun '(metric, cap, charge) => cap_counter (rc_route_id caps) metric charge <$> cap)
    [(RateMetric.Requests, rc_rpm caps, 1); (RateMetric.Tokens, rc_tpm caps, 0)].

Inductive Admission := WasAdmitted | Capped (label : string) (retry_after_secs : Z).

Definition label (metric : RateMetric.t) : string := "route:" +:+ RateMetric.as_str metric +:+ "/1m".

Section Store.
Context {St : Type} `{Redis St}.

Definition admit_at (l : link) (caps : RouteCaps) (fail_closed : bool) (now_ms : Z) (s : St)
    : St * result GatewayError Admission :=
  let cs := counters caps in
  if decide (cs = []) then (s, Ok WasAdmitted)
  else
    let '(s, r) := admit_counters_at l cs.*2 now_ms s in
    (s, match r with
        | Ok outcome =>
            if co_allowed outcome then Ok WasAdmitted
            else
              let metric := default RateMetric.Requests
                (i ← co_exceeded_index outcome; fst <$> cs !! i) in
              Ok (Capped (label metric) (co_retry_after_secs outcome))
        | Err _ =>
            if fail_closed then Err (limiter_unavailable "rate_limiter_unavailable")
            else Ok WasAdmitted
        end).

Definition record_tokens_at (l : link) (caps : RouteCaps) (weighted_tokens now_ms : Z) (s : St) : St :=
  if bool_decide (rc_tpm caps = None) || (weighted_tokens <=? 0) then s
  else
    (record_counters_at l
       [(counter_key (rc_route_id caps) RateMetric.Tokens, bucket_secs WINDOW_SECS)]
       weighted_tokens now_ms s).1.
End Store.

Record CappedRoutes := { cr_routes : list U; cr_soonest : option (string * Z) }.
Definition CappedRoutes_default : CappedRoutes := {| cr_routes := []; cr_soonest := None |}.

Definition add (route_id : U) (lbl : string) (secs : Z) (c : CappedRoutes) : CappedRoutes :=
  {| cr_routes := cr_routes c ++ [route_id];
     cr_soonest :=
       match cr_soonest c with
       | None => Some (lbl, secs)
       | Some (_, best) => if secs <? best then Some (lbl, secs) else cr_soonest c
       end |}.

Definition refusal (c : CappedRoutes) : option GatewayError :=
  (fun '(lbl, secs) => rate_limited lbl secs) <$> cr_soonest c.
End Caps.
#[global] Arguments RouteCaps : clear implicits.
#[global] Arguments CappedRoutes : clear implicits.

(** ** What was skipped *)

Section Skipped.
Context {U : Type} `{Uuid U}.

Definition add_all (c : CappedRoutes U) (l : list (U * string * Z)) : CappedRoutes U :=
  foldl (fun c '(id, lbl, secs) => add id lbl secs c) c l.

Lemma add_all_spec l :
  cr_routes (add_all CappedRoutes_default l) = l.*1.*1 /\
  match cr_soonest (add_all CappedRoutes_default l) with
  | None => l = []
  | Some (lbl, secs) => (exists id, (id, lbl, secs) ∈ l) /\ Forall (fun p => secs <= p.2) l
  end.
Proof.
  induction l as [|[[id lbl] secs] l [IHr IHs]] using rev_ind; [done|].
  unfold add_all in *. rewrite foldl_app. simpl. split.
  { rewrite IHr. by rewrite !fmap_app. }
  destruct (cr_soonest _) as [[lbl0 best]|]; simpl.
  - destruct IHs as [[id0 Hin] Hall]. destruct (secs <? best) eqn:E; zbool.
    + split; [exists id; set_solver|]. apply Forall_app. split; [|by repeat constructor].
      eapply Forall_impl; [apply Hall|]. simpl. lia.
    + split; [exists id0; set_solver|]. apply Forall_app. split; [done|by repeat constructor].
  - subst l. split; [exists id; set_solver|by repeat constructor].
Qed.

Lemma refusal_local c e : refusal (U := U) c = Some e -> refused_locally e.
Proof. unfold refusal. destruct (cr_soonest c) as [[]|]; [|done]. intros [= <-]. apply rate_limited_local. Qed.
End Skipped.

(** ** What admission decides *)

Section Contract.
Context {U : Type} `{UuidLaws U} {St : Type} `{RedisLaws St}.

(** Caps as the configuration allows them: positive [u32]s. *)
Definition caps_ok (caps : RouteCaps U) : Prop :=
  (forall n, rc_rpm caps = Some n -> 0 < n <= u32_max) /\
  (forall n, rc_tpm caps = Some n -> 0 < n <= u32_max).

Lemma key_metric_inj (u u' : U) m m' : counter_key u m = counter_key u' m' -> u = u' /\ m = m'.
Proof.
  unfold counter_key. intros Heq%str_app_cancel_l.
  apply str_app_inj_len in Heq as [Hu Heq];
    [|unfold hash_tag; by rewrite !str_length_app, !uuid_str_length].
  unfold hash_tag in Hu. apply str_app_cancel_l, str_app_cancel_r, (inj uuid_str) in Hu as <-.
  split; [done|]. apply str_app_cancel_l, str_app_cancel_l, str_app_cancel_l in Heq.
  by destruct m, m'.
Qed.

Lemma counters_elem caps m c :
  (m, c) ∈ counters (U := U) caps <->
  exists n charge, (m, c) = cap_counter (rc_route_id caps) m charge n /\
    (m = RateMetric.Requests /\ charge = 1 /\ rc_rpm caps = Some n \/
     m = RateMetric.Tokens /\ charge = 0 /\ rc_tpm caps = Some n).
Proof.
  unfold counters. rewrite list_elem_of_omap. split.
  - intros ([[m0 cap] ch] & Hin & Heq). rewrite !elem_of_cons, elem_of_nil in Hin.
    destruct Hin as [[= -> -> ->]|[[= -> -> ->]|[]]];
      apply fmap_Some in Heq as (n & Hn & Heq); injection Heq as -> ->; eauto 10.
  - intros (n & ch & Heq & [(-> & -> & Hn)|(-> & -> & Hn)]).
    + exists (RateMetric.Requests, rc_rpm caps, 1). split; [by left|]. by rewrite Hn, Heq.
    + exists (RateMetric.Tokens, rc_tpm caps, 0). split; [by right; left|]. by rewrite Hn, Heq.
Qed.

Lemma counters_wf caps (s : St) : caps_ok caps -> store_ok s -> wf (counters caps).*2 s.
Proof.
  intros [Hr Ht] Hs. apply wf_of_store; [done| |].
  - unfold counters. destruct (rc_rpm caps), (rc_tpm caps); simpl; repeat constructor; try set_solver.
  - apply Forall_forall. intros c ([m c'] & -> & Hin)%list_elem_of_fmap.
    apply counters_elem in Hin as (n & ch & [= ->] & Hcase). simpl. unfold static_ok; simpl.
    assert (u32_max = 4294967295 /\ i64_max = 9223372036854775807) as [Hu Hi] by done.
    assert (bucket_secs WINDOW_SECS = 1) as -> by done.
    assert (i32_max = 2147483647) as -> by done.
    destruct Hcase as [(_ & -> & Hn)|(_ & -> & Hn)]; [specialize (Hr n Hn)|specialize (Ht n Hn)]; lia.
Qed.

(** The window behind one of the caps. *)
Definition used (u : U) (m : RateMetric.t) (now : Z) (s : St) : Z :=
  window (cap_counter u m 0 1).2 now s.

(** The configured cap of a metric. *)
Definition cap_of (caps : RouteCaps U) (m : RateMetric.t) : option Z :=
  match m with RateMetric.Requests => rc_rpm caps | RateMetric.Tokens => rc_tpm caps end.

Lemma full_used caps m c now (s : St) :
  (m, c) ∈ counters caps ->
  exists n, cap_of caps m = Some n /\ (full c now s <-> n <= used (rc_route_id caps) m now s) /\
    window c now s = used (rc_route_id caps) m now s /\ ct_key c = counter_key (rc_route_id caps) m /\
    ct_charge c = match m with RateMetric.Requests => 1 | RateMetric.Tokens => 0 end.
Proof.
  intros (n & ch & [= ->] & [(-> & -> & Hn)|(-> & -> & Hn)])%counters_elem; exists n; done.
Qed.

Lemma cap_counter_elem caps m n :
  cap_of caps m = Some n ->
  (m, (cap_counter (rc_route_id caps) m
         (match m with RateMetric.Requests => 1 | RateMetric.Tokens => 0 end) n).2) ∈ counters caps.
Proof. intros Hn. apply counters_elem. exists n. destruct m; eauto 10. Qed.

Lemma window_same c t s s' :
  (forall b, cur c t - 59 <= b -> bucket (ct_key c) s' b = bucket (ct_key c) s b) ->
  window c t s' = window (St := St) c t s.
Proof. intros Hb. symmetry. apply window_ext. intros b Hlo. symmetry. apply Hb. lia. Qed.

(** A route takes a request exactly when neither of its caps is reached.  The request is
    then counted, once, against the request cap; otherwise neither cap's window changes and the
    answer names a cap that is reached and a wait of at least a second.  Without caps Redis is
    not asked; when Redis fails, the configured policy decides. *)
Theorem route_cap_admission l caps fail_closed now (s : St) :
  caps_ok caps -> store_ok s ->
  let '(s', r) := admit_at l caps fail_closed now s in
  let u := rc_route_id caps in
  let room := forall m n, cap_of caps m = Some n -> used u m now s < n in
  (rc_rpm caps = None -> rc_tpm caps = None -> s' = s /\ r = Ok WasAdmitted) /\
  (l = LinkOk ->
    (r = Ok WasAdmitted /\ room /\
       (forall n, rc_rpm caps = Some n ->
          used u RateMetric.Requests now s' = used u RateMetric.Requests now s + 1) /\
       (forall n, rc_tpm caps = Some n ->
          used u RateMetric.Tokens now s' = used u RateMetric.Tokens now s) \/
     (exists m n secs, r = Ok (Capped (label m) secs) /\ cap_of caps m = Some n /\
        n <= used u m now s /\ 1 <= secs /\
        forall m n, cap_of caps m = Some n -> used u m now s' = used u m now s))) /\
  (l <> LinkOk -> is_Some (rc_rpm caps) \/ is_Some (rc_tpm caps) ->
    r = if fail_closed then Err (limiter_unavailable "rate_limiter_unavailable") else Ok WasAdmitted).
Proof.
  intros Hcaps Hs. pose proof (counters_wf caps s Hcaps Hs) as Hwf. unfold admit_at.
  destruct (decide (counters caps = [])) as [Hnil|Hcons].
  - assert (Hnone : rc_rpm caps = None /\ rc_tpm caps = None).
    { unfold counters in Hnil. by destruct (rc_rpm caps), (rc_tpm caps). }
    destruct Hnone as [Hr Ht]. split_and!; [done| |].
    + intros ->. left. split_and!; [done| |by rewrite Hr|by rewrite Ht].
      intros [] n Hn; simpl in Hn; congruence.
    + rewrite Hr, Ht. by intros _ [[]|[]].
  - assert (Hsome : rc_rpm caps = None -> rc_tpm caps = None -> False).
    { intros Hr Ht. apply Hcons. unfold counters. by rewrite Hr, Ht. }
    destruct l.
    + destruct (any_full_dec (counters caps).*2 now s) as [Hf|Hr].
      * destruct (admit_full now _ s Hwf Hf) as
          (s' & o & i & c & Hi & Hfc & _ & -> & Ha & He & Hret & _ & Hch & _).
        rewrite Ha, He. simpl. split_and!; [naive_solver| |done]. intros _. right.
        apply list_lookup_fmap_Some in Hi as ([m c'] & -> & Hi). simpl in *. rewrite Hi. simpl.
        pose proof (list_elem_of_lookup_2 _ _ _ Hi) as Hin.
        destruct (full_used caps m c' now s Hin) as (n & Hn & Hfull & _). exists m, n, (co_retry_after_secs o).
        split_and!; [done|done|by apply Hfull| |].
        -- rewrite Hret. unfold retry_after_secs. lia.
        -- intros m0 n0 Hn0. apply (window_same (cap_counter (rc_route_id caps) m0 0 1).2). intros b Hb.
           pose proof (cap_counter_elem caps m0 n0 Hn0) as Hin0.
           pose proof (Hch _ b (list_elem_of_fmap_2 snd _ _ Hin0) Hb) as Heq.
           simpl in *. rewrite Heq. lia.
      * destruct (admit_room now _ s Hwf Hr) as (s' & o & -> & Ha & _ & _ & _ & Hch & _).
        rewrite Ha. simpl. split_and!; [naive_solver| |done]. intros _. left.
        assert (Hroom : forall m n, cap_of caps m = Some n -> used (rc_route_id caps) m now s < n).
        { intros m n Hn. pose proof (cap_counter_elem caps m n Hn) as Hin.
          destruct (full_used caps m _ now s Hin) as (n' & Hn' & Hfull & _).
          assert (n' = n) as -> by congruence.
          specialize (Hr _ (list_elem_of_fmap_2 snd _ _ Hin)). rewrite Hfull in Hr. lia. }
        split_and!; [done|done| |]; intros n Hn.
        -- pose proof (cap_counter_elem caps RateMetric.Requests n Hn) as Hin.
           pose proof (charged_window _ now s s' _ Hch (list_elem_of_fmap_2 snd _ _ Hin)) as Hw.
           exact Hw.
        -- pose proof (cap_counter_elem caps RateMetric.Tokens n Hn) as Hin.
           pose proof (charged_window _ now s s' _ Hch (list_elem_of_fmap_2 snd _ _ Hin)) as Hw.
           simpl in Hw. rewrite Z.add_0_r in Hw. exact Hw.
    + destruct (counters caps) as [|p ps] eqn:E; [done|]. simpl.
      split_and!; [naive_solver|done|by destruct fail_closed].
    + destruct (counters caps) as [|p ps] eqn:E; [done|]. simpl.
      split_and!; [naive_solver|done|by destruct fail_closed].
Qed.
End Contract.

(** ** Witness *)

Definition demo_caps : RouteCaps demo_uuid :=
  {| rc_route_id := UKey1; rc_rpm := Some 1; rc_tpm := None |}.
Definition demo_after_one : hstore := (admit_at LinkOk demo_caps false 0 hs_empty).1.

(** One request a minute: the first is counted, the second is refused until the minute is over. *)
Example second_is_capped :
  (admit_at LinkOk demo_caps false 0 hs_empty).2 = Ok WasAdmitted /\
  (admit_at LinkOk demo_caps false 1000 demo_after_one).2 = Ok (Capped "route:requests/1m" 59).
Proof. split; by vm_compute. Qed.

Lemma route_cap_admission_witness :
  used UKey1 RateMetric.Requests 0 demo_after_one = used UKey1 RateMetric.Requests 0 hs_empty + 1.
Proof.
  assert (caps_ok demo_caps) as Hc.
  { split; intros n Hn; [|done]. injection Hn as <-. unfold u32_max. lia. }
  assert (store_ok hs_empty) as Hs by (intros k f v Hv; by rewrite hs_empty_get in Hv).
  pose proof (route_cap_admission LinkOk demo_caps false 0 hs_empty Hc Hs) as Hspec.
  unfold demo_after_one. destruct (admit_at LinkOk demo_caps false 0 hs_empty) as [s' r] eqn:E.
  assert (r = Ok WasAdmitted) as Hr by (apply (f_equal snd) in E; simpl in E; rewrite <- E; by vm_compute).
  destruct Hspec as (_ & Hok & _). destruct (Hok eq_refl) as [(_ & _ & Hq & _)|(m & n & secs & Hr' & _)].
  - exact (Hq 1 eq_refl).
  - rewrite Hr in Hr'. discriminate.
Defined.
End Caps.
