(* ===== verification/Strategy.v ===== *)
(** * Routing strategies

    [crates/gateway/src/strategy.rs]: from what is known of each candidate route to a weight
    per candidate.  [powf] is the platform's, whose last bits Rust leaves open: an argument here. *)

From S2P Require Import Prelude Float64.

Module RoutingStrategy.
Inductive t := Weighted | Latency | Health | LatencyHealth.
#[export] Instance t_eq_dec : EqDecision t.
Proof. solve_decision. Defined.

Definition default : t := LatencyHealth.

Definition as_str (s : t) : string :=
  match s with
  | Weighted => "weighted"
  | Latency => "latency"
  | Health => "health"
  | LatencyHealth => "latency_health"
  end.

Definition from_str (s : string) : result unit t :=
  if String.eqb s "weighted" then Ok Weighted
  else if String.eqb s "latency" then Ok Latency
  else if String.eqb s "health" then Ok Health
  else if String.eqb s "latency_health" then Ok LatencyHealth
  else Err tt.

Lemma from_as_str s : from_str (as_str s) = Ok s.
Proof. by destruct s. Qed.
End RoutingStrategy.

Record RouteSignal := {
  sig_configured_weight : Z;
  sig_ewma_latency_ms : option f64;
  sig_success_rate : option f64;
}.

Section Weights.
Context (powf : f64 -> f64 -> f64).

Definition latency_factor (ewma_ms : option f64) (k : f64) : f64 :=
  let ms := f64_max (default f64_one ewma_ms) f64_one in
  f64_div f64_one (powf ms k).

Definition health_factor (success_rate : option f64) (k : f64) : f64 :=
  let r := f64_clamp (default f64_one success_rate) f64_zero f64_one in
  powf r k.

Definition weight_of (strategy : RoutingStrategy.t) (k : f64) (s : RouteSignal) : f64 :=
  let configured := f64_of_Z (sig_configured_weight s) in
  match strategy with
  | RoutingStrategy.Weighted => configured
  | RoutingStrategy.Latency => f64_mul (latency_factor (sig_ewma_latency_ms s) k) configured
  | RoutingStrategy.Health => f64_mul (health_factor (sig_success_rate s) k) configured
  | RoutingStrategy.LatencyHealth =>
      f64_mul (f64_mul (latency_factor (sig_ewma_latency_ms s) k)
                 (health_factor (sig_success_rate s) k)) configured
  end.

Definition compute_weights (strategy : RoutingStrategy.t) (signals : list RouteSignal) (k : f64)
    : list f64 :=
  weight_of strategy k <$> signals.

Lemma compute_weights_length strategy signals k :
  length (compute_weights strategy signals k) = length signals.
Proof. apply length_fmap. Qed.
End Weights.

(** The operator's weights are used as they are under the manual strategy. *)
Lemma weighted_is_configured powf signals k :
  compute_weights powf RoutingStrategy.Weighted signals k = f64_of_Z ∘ sig_configured_weight <$> signals.
Proof. done. Qed.
