(* ===== verification/Health.v ===== *)
(** * Per-route health

    [crates/gateway/src/health.rs]: the samples of a route's recent requests (a sorted set),
    its circuit breaker (a text key holding [tw-breaker]'s JSON) and its lifetime counter (a
    hash), with the two Lua scripts that update them and the reads the selection makes.  The
    three keys of a route have different names, so the sorted sets, texts and hashes of Redis
    are three stores here.  Times are milliseconds. *)

From Stdlib Require Import Ascii SpecFloat.
From S2P Require Import Prelude Interfaces Float64 Sliding GatewayDeps GatewayError.

Definition SAMPLE_CAP : Z := 1000.

(** ** Sample members: [seq:latency:error] *)

Definition is_digit (c : ascii) : bool :=
  let n := nat_of_ascii c in (48 <=? n)%nat && (n <=? 57)%nat.
Fixpoint all_chars (f : ascii -> bool) (s : string) : bool :=
  match s with EmptyString => true | String c s => f c && all_chars f s end.
Definition nonempty_str (s : string) : bool := negb (String.eqb s "").

(** Lua's [m:match('^(%d+):(%-?[%d.]+):(%d)$')]. *)
Definition lua_match (m : string) : option (string * string * string) :=
  '(seq, rest) ← split_once ":"%char m;
  '(lat, err) ← split_once ":"%char rest;
  let body := match lat with String "-"%char b => b | _ => lat end in
  if nonempty_str seq && all_chars is_digit seq && nonempty_str body &&
     all_chars (fun c => is_digit c || bool_decide (c = "."%char)) body &&
     (String.length err =? 1)%nat && all_chars is_digit err
  then Some (seq, lat, err) else None.

(** Rust's [m.splitn(3, ':')]. *)
Definition splitn3 (m : string) : option string * option string * option string :=
  match split_once ":"%char m with
  | None => (Some m, None, None)
  | Some (a, rest) =>
      match split_once ":"%char rest with
      | None => (Some a, Some rest, None)
      | Some (b, c) => (Some a, Some b, Some c)
      end
  end.

(** Reading a number from text: Lua's [tonumber] and Rust's [str::parse::<f64>].  Both read the
    decimal digits of a whole number as that number. *)
Class NumText := { lua_tonumber : string -> option f64; parse_f64 : string -> option f64 }.
Class NumTextLaws `{NumText} := {
  lua_tonumber_nat n : 0 <= n <= u32_max -> lua_tonumber (pretty n) = Some (f64_of_Z n);
  parse_f64_nat n : 0 <= n <= u32_max -> parse_f64 (pretty n) = Some (f64_of_Z n);
}.

Definition sample_member (seq latency_ms : Z) (is_error : bool) : string :=
  pretty seq +:+ ":" +:+ pretty latency_ms +:+ ":" +:+ (if is_error then "1" else "0").

Record RouteHealth := {
  rh_state : BState.t;
  rh_total : Z;
  rh_errors : Z;
  rh_error_pct : f64;
  rh_ewma_latency_ms : option f64;
  rh_lifetime_requests : Z;
}.
Definition RouteHealth_default : RouteHealth :=
  {| rh_state := BState.Closed; rh_total := 0; rh_errors := 0; rh_error_pct := f64_zero;
     rh_ewma_latency_ms := None; rh_lifetime_requests := 0 |}.

Record CircuitBreakerConfig := {
  cb_enabled : bool;
  cb_error_pct : Z;
  cb_min_samples : Z;
  cb_window_secs : Z;
  cb_open_secs : Z;
}.

Definition policy (c : CircuitBreakerConfig) : Policy :=
  {| pol_trip := ErrorRate (cb_error_pct c) (cb_min_samples c);
     pol_cooldown := cb_open_secs c * 1000000000;
     pol_probes := 1 |}.
(** The setting is bounded well below the [u32] product's width. *)
Definition ttl_secs (c : CircuitBreakerConfig) : Z := Z.max (cb_open_secs c * 4) 60.

Definition health (state : BState.t) (total errors : Z) (ewma : f64) (lifetime : Z) : RouteHealth :=
  {| rh_state := state; rh_total := total; rh_errors := errors;
     rh_error_pct := if 0 <? total
       then f64_div (f64_mul (f64_of_Z errors) f64_hundred) (f64_of_Z total) else f64_zero;
     rh_ewma_latency_ms := if (0 <? total) && f64_ltb f64_zero ewma then Some ewma else None;
     rh_lifetime_requests := lifetime |}.

(** [alpha * l + (1.0 - alpha) * ewma] *)
Definition ewma_step (l ewma : f64) : f64 :=
  f64_add (f64_mul f64_0_2 l) (f64_mul (f64_sub f64_one f64_0_2) ewma).

Section Keys.
Context {U : Type} `{Uuid U}.
Definition samples_key (route_id : U) : string := "route_health:{" +:+ uuid_str route_id +:+ "}:samples".
Definition state_key (route_id : U) : string := "route_health:{" +:+ uuid_str route_id +:+ "}:state".
Definition counters_key (route_id : U) : string :=
  "route_health:{" +:+ uuid_str route_id +:+ "}:counters".
End Keys.

(** ** The tally, in Lua and in Rust *)

Section Tally.
Context `{NumText}.

Record tally_acc := { ta_total : Z; ta_errs : Z; ta_ewma : f64 }.
Definition tally_init : tally_acc := {| ta_total := 0; ta_errs := 0; ta_ewma := f64_zero |}.

Definition tally_add (lat : f64) (err : bool) (acc : tally_acc) : tally_acc :=
  let total := ta_total acc + 1 in
  {| ta_total := total;
     ta_errs := if err then ta_errs acc + 1 else ta_errs acc;
     ta_ewma := if total =? 1 then lat else ewma_step lat (ta_ewma acc) |}.

Definition lua_tally_step (acc : tally_acc) (m : string) : tally_acc :=
  match lua_match m with
  | Some (_, lat_str, err_str) =>
      tally_add (default f64_zero (lua_tonumber lat_str)) (String.eqb err_str "1") acc
  | None => acc
  end.
Definition lua_tally : list string -> tally_acc := foldl lua_tally_step tally_init.

Definition snapshot_tally_step (acc : tally_acc) (m : string) : tally_acc :=
  let '(_, lat, err) := splitn3 m in
  match lat ≫= parse_f64, err with
  | Some lat, Some err => tally_add lat (String.eqb err "1") acc
  | _, _ => acc
  end.
Definition snapshot_tally : list string -> tally_acc := foldl snapshot_tally_step tally_init.
End Tally.

(** ** The scripts and the tracker *)

Section Tracker.
Context {B : Type} `{TwBreaker B} `{NumText}.
Context {Zs Ts Hs : Type} `{RedisZset Zs} `{RedisText Ts} `{Redis Hs}.
Context {U : Type} `{Uuid U}.

Record hstores := { hz : Zs; ht : Ts; hh : Hs }.

Definition with_z (z : Zs) (s : hstores) : hstores := {| hz := z; ht := ht s; hh := hh s |}.
Definition with_t (t : Ts) (s : hstores) : hstores := {| hz := hz s; ht := t; hh := hh s |}.
Definition with_h (h : Hs) (s : hstores) : hstores := {| hz := hz s; ht := ht s; hh := h |}.

(** The sample trim and insert of [LUA_RECORD]. *)
Definition add_sample (k : string) (now window_start ttl : Z) (member : string) (z : Zs) : Zs :=
  let z := zremrangebyscore k window_start z in
  let oversize := Z.of_nat (length (zview k z)) - SAMPLE_CAP in
  let z := if 0 <? oversize then zremlowest k (Z.to_nat oversize) z else z in
  zexpire k ttl (zadd k now member z).

(** [ZRANGEBYSCORE key lo +inf]. *)
Definition members_from (k : string) (lo : Z) (z : Zs) : list string :=
  (filter (fun p : Z * string => lo <= p.1) (zview k z)).*2.

(** A raised [HINCRBY] ends the script where it is. *)
Definition lua_record_sample (route_id : U) (now window_start : Z) (member : string) (ttl : Z)
    (s : hstores) : hstores * option (string * Z * Z * Z * Z) :=
  let s := with_z (add_sample (samples_key route_id) now window_start ttl member (hz s)) s in
  match hincrby (counters_key route_id) "lifetime_requests" 1 (hh s) with
  | None => (s, None)
  | Some h =>
      let s := with_h h s in
      let lifetime := default 0 (hget (counters_key route_id) "lifetime_requests" h ≫= tonumber) in
      let t := lua_tally (members_from (samples_key route_id) window_start (hz s)) in
      let state := default "" (tget (state_key route_id) (ht s)) in
      (s, Some (state, ta_total t, ta_errs t,
                f64_floor_nonneg (f64_mul (ta_ewma t) f64_hundred), lifetime))
  end.

Definition lua_cas (route_id : U) (read next : string) (ttl : Z) (recovered : bool) (s : hstores)
    : hstores * option Z :=
  let current := default "" (tget (state_key route_id) (ht s)) in
  if negb (String.eqb current read) then (s, Some 0)
  else
    let s := if String.eqb next "" then with_t (tdel (state_key route_id) (ht s)) s
             else with_t (tset (state_key route_id) next ttl (ht s)) s in
    let s := if recovered then with_z (zdel (samples_key route_id) (hz s)) s else s in
    (s, Some 1).

Definition parse_breaker (raw : string) : B := default br_default (br_from_json raw).

(** [u32::try_from(n.max(0)).unwrap_or(u32::MAX)] *)
Definition to_u32 (n : Z) : Z := Z.min (Z.max n 0) u32_max.

(** [record]: the sample, then, when the outcome changes the breaker, the compare-and-set.
    [others] is what other replicas do to the stores between the two scripts. *)
Definition record_health (l1 l2 : link) (others : hstores -> hstores) (route_id : U)
    (seq latency_ms : Z) (is_error : bool) (cfg : CircuitBreakerConfig) (now : Z) (s : hstores)
    : hstores * RouteHealth :=
  let window_start := now - cb_window_secs cfg * 1000 in
  let member := sample_member seq latency_ms is_error in
  let '(s, r) := run_script l1 (lua_record_sample route_id now window_start member (ttl_secs cfg)) s in
  match r with
  | Err _ => (s, RouteHealth_default)
  | Ok (raw, total, errs, ewma_x100, lifetime) =>
      let total := to_u32 total in
      let errors := to_u32 errs in
      let ewma := f64_div (f64_of_Z ewma_x100) f64_hundred in
      let lifetime := Z.max lifetime 0 in
      if negb (cb_enabled cfg) then (s, health BState.Closed total errors ewma lifetime)
      else
        let p := policy cfg in
        let before := parse_breaker raw in
        let '(breaker, change) :=
          br_record (negb is_error) {| tally_total := total; tally_errors := errors |} p now before in
        if decide (breaker = before) then
          (s, health (br_state_at p now breaker) total errors ewma lifetime)
        else
          let recovered := match change with Some BState.Closed => true | _ => false end in
          let next := if decide (breaker = br_default) then "" else br_to_json breaker in
          let '(s, written) :=
            run_script l2 (lua_cas route_id raw next (ttl_secs cfg) recovered) (others s) in
          let breaker := match written with
                         | Ok w => if w =? 1 then breaker else parse_breaker raw
                         | Err _ => parse_breaker raw
                         end in
          (s, health (br_state_at p now breaker) total errors ewma lifetime)
  end.

(** [up]: whether Redis answers the read. *)
Definition state (up : bool) (route_id : U) (cfg : CircuitBreakerConfig) (now : Z) (s : hstores)
    : BState.t :=
  if negb (cb_enabled cfg) then BState.Closed
  else
    let raw := if up then tget (state_key route_id) (ht s) else None in
    br_state_at (policy cfg) now (parse_breaker (default "" raw)).

(** The digits of a [u64]. *)
Definition parse_u64 (v : string) : option Z :=
  n ← tonumber (St := Hs) v; if (0 <=? n) && (n <=? u64_max) then Some n else None.

Definition snapshot (up_state up_life up_samples : bool) (route_id : U) (cfg : CircuitBreakerConfig)
    (now : Z) (s : hstores) : RouteHealth :=
  let st := state up_state route_id cfg now s in
  let lifetime_raw := if up_life then hget (counters_key route_id) "lifetime_requests" (hh s) else None in
  let lifetime := default 0 (lifetime_raw ≫= parse_u64) in
  let window_start := now - cb_window_secs cfg * 1000 in
  let members := if up_samples then members_from (samples_key route_id) window_start (hz s) else [] in
  let t := snapshot_tally members in
  health st (ta_total t) (ta_errs t) (ta_ewma t) lifetime.

Definition snapshot_many (up : U -> bool) (ids : list U) (cfg : CircuitBreakerConfig) (now : U -> Z)
    (s : hstores) : list (U * RouteHealth) :=
  (fun id => (id, snapshot (up id) (up id) (up id) id cfg (now id) s)) <$> ids.

(** [del_hash] stands for [DEL] of a hash key. *)
Definition forget (del_hash : string -> Hs -> Hs) (up : bool) (route_id : U) (s : hstores) : hstores :=
  if up then
    {| hz := zdel (samples_key route_id) (hz s); ht := tdel (state_key route_id) (ht s);
       hh := del_hash (counters_key route_id) (hh s) |}
  else s.
End Tracker.
#[global] Arguments hstores : clear implicits.

(** ** Samples are read back as they were written *)

Lemma all_chars_app f a b : all_chars f (a +:+ b) = all_chars f a && all_chars f b.
Proof.
  induction a as [|c a IH]; [done|].
  change (String c a +:+ b) with (String c (a +:+ b)). simpl. by rewrite IH, andb_assoc.
Qed.

Lemma pretty_N_char_digit x : is_digit (pretty_N_char x) = true.
Proof. unfold pretty_N_char. repeat case_match; reflexivity. Qed.

Lemma pretty_N_go_digits x s :
  all_chars is_digit s = true -> all_chars is_digit (pretty_N_go x s) = true.
Proof.
  revert s. induction (N.lt_wf_0 x) as [x _ IH]. intros s Hs.
  destruct (decide (0 < x)%N) as [Hx|Hx].
  - rewrite pretty_N_go_step by done. apply IH; [by apply N.div_lt|].
    simpl. by rewrite pretty_N_char_digit.
  - assert (x = 0%N) as -> by lia. by rewrite pretty_N_go_0.
Qed.

Lemma pretty_N_go_nonempty x c s : exists c' s', pretty_N_go x (String c s) = String c' s'.
Proof.
  revert c s. induction (N.lt_wf_0 x) as [x _ IH]. intros c s.
  destruct (decide (0 < x)%N) as [Hx|Hx].
  - rewrite pretty_N_go_step by done. apply IH. by apply N.div_lt.
  - assert (x = 0%N) as -> by lia. rewrite pretty_N_go_0. eauto.
Qed.

Lemma pretty_digits (n : Z) :
  0 <= n -> all_chars is_digit (pretty n) = true /\ exists c s, pretty n = String c s.
Proof.
  intros Hn. destruct n as [|p|p]; [split; [done|]; by repeat eexists| |lia].
  assert (pretty (Zpos p) = pretty (Npos p)) as -> by done.
  assert (pretty (Npos p) = pretty_N_go (Npos p) "") as ->.
  { unfold pretty, pretty_N. by rewrite decide_False. }
  split; [by apply pretty_N_go_digits|]. rewrite pretty_N_go_step by done. apply pretty_N_go_nonempty.
Qed.

Lemma split_digits c a b :
  all_chars is_digit a = true -> is_digit c = false -> split_once c (a +:+ String c b) = Some (a, b).
Proof.
  intros Ha Hc. induction a as [|d a IH]; simpl in *.
  - change ("" +:+ String c b) with (String c b). simpl. by rewrite decide_True.
  - apply andb_true_iff in Ha as [Hd Ha].
    change (String d a +:+ String c b) with (String d (a +:+ String c b)). simpl.
    rewrite decide_False by congruence. by rewrite IH.
Qed.

(** A sample as the tracker writes it. *)
Definition sample_ok (m : string) : Prop :=
  exists seq lat err, 0 <= seq /\ 0 <= lat <= u32_max /\ m = sample_member seq lat err.

Lemma sample_cuts seq lat err :
  0 <= seq -> 0 <= lat ->
  split_once ":"%char (sample_member seq lat err) =
    Some (pretty seq, pretty lat +:+ ":" +:+ (if err then "1" else "0")) /\
  split_once ":"%char (pretty lat +:+ ":" +:+ (if err then "1" else "0")) =
    Some (pretty lat, if err then "1" else "0").
Proof.
  intros [Hs _]%pretty_digits [Hl _]%pretty_digits. unfold sample_member.
  split; by apply split_digits.
Qed.

Section Agreement.
Context `{NumTextLaws}.

Lemma lua_match_sample seq lat err :
  0 <= seq -> 0 <= lat ->
  lua_match (sample_member seq lat err) = Some (pretty seq, pretty lat, if err then "1" else "0").
Proof.
  intros Hs Hl. unfold lua_match. destruct (sample_cuts seq lat err Hs Hl) as [-> Hc]. simpl.
  rewrite Hc. simpl.
  destruct (pretty_digits seq Hs) as [Hds (c1 & s1 & Es)], (pretty_digits lat Hl) as [Hdl (c2 & s2 & El)].
  rewrite Hds, Es. simpl.
  assert (Hbody : (match pretty lat with String "-"%char b => b | _ => pretty lat end) = pretty lat).
  { rewrite El in *. simpl in Hdl. apply andb_true_iff in Hdl as [Hc2 _].
    destruct c2 as [[] [] [] [] [] [] [] []]; done. }
  rewrite Hbody. replace (nonempty_str (pretty lat)) with true by by rewrite El.
  assert (all_chars (fun c => is_digit c || bool_decide (c = "."%char)) (pretty lat) = true) as ->.
  { clear -Hdl. induction (pretty lat) as [|c s IH]; [done|]. simpl in *.
    apply andb_true_iff in Hdl as [-> Hs]. by rewrite IH. }
  by destruct err.
Qed.

Lemma tally_steps_agree m acc :
  sample_ok m -> lua_tally_step acc m = snapshot_tally_step acc m /\
  ta_total (snapshot_tally_step acc m) = ta_total acc + 1 /\
  (ta_errs (snapshot_tally_step acc m) = ta_errs acc \/
   ta_errs (snapshot_tally_step acc m) = ta_errs acc + 1).
Proof.
  intros (seq & lat & err & Hs & Hl & ->). unfold lua_tally_step, snapshot_tally_step, splitn3.
  rewrite lua_match_sample by lia. destruct (sample_cuts seq lat err) as [-> Hc]; [lia..|].
  rewrite Hc. simpl. rewrite lua_tonumber_nat, parse_f64_nat by done. simpl.
  split; [by destruct err|]. split; [done|]. destruct err; simpl; auto.
Qed.

Lemma tallies_fold l acc :
  Forall sample_ok l ->
  foldl lua_tally_step acc l = foldl snapshot_tally_step acc l /\
  ta_total (foldl lua_tally_step acc l) = ta_total acc + Z.of_nat (length l) /\
  ta_errs acc <= ta_errs (foldl lua_tally_step acc l) <= ta_errs acc + Z.of_nat (length l).
Proof.
  revert acc. induction l as [|m l IH]; intros acc Hl; [simpl; split_and!; try done; lia|].
  apply Forall_cons in Hl as [Hm Hl].
  destruct (tally_steps_agree m acc Hm) as (Heq & Ht & He).
  destruct (IH (lua_tally_step acc m) Hl) as (IH1 & IH2 & IH3). cbn [foldl length].
  rewrite <- Heq in *. split_and!; [done|lia|lia|lia].
Qed.

Lemma tallies_agree l :
  Forall sample_ok l ->
  lua_tally l = snapshot_tally l /\ ta_total (lua_tally l) = Z.of_nat (length l) /\
  0 <= ta_errs (lua_tally l) <= ta_total (lua_tally l).
Proof.
  intros Hl. destruct (tallies_fold l tally_init Hl) as (Heq & Ht & He).
  unfold lua_tally, snapshot_tally. rewrite Ht. simpl in *. split_and!; [done|lia..].
Qed.
End Agreement.

(** ** The window after a sample *)

Section Contract.
Context {B : Type} `{TwBreakerLaws B} `{NumTextLaws}.
Context {Zs Ts Hs : Type} `{RedisZsetLaws Zs} `{RedisTextLaws Ts} `{RedisLaws Hs}.
Context {U : Type} `{UuidLaws U}.
Implicit Types (s : hstores Zs Ts Hs) (z : Zs).

Definition samples_ok k z : Prop := Forall sample_ok (zview k z).*2.

Lemma filter_samples (P : Z * string -> Prop) `{!forall x, Decision (P x)} l :
  Forall sample_ok l.*2 -> Forall sample_ok (filter P l).*2.
Proof.
  rewrite !Forall_forall. intros Hl m (p & -> & [_ Hp]%list_elem_of_filter)%list_elem_of_fmap.
  by apply Hl, list_elem_of_fmap_2.
Qed.

Lemma trim_spec k window_start z :
  samples_ok k z ->
  let z1 := zremrangebyscore k window_start z in
  let oversize := Z.of_nat (length (zview k z1)) - SAMPLE_CAP in
  let z2 := if 0 <? oversize then zremlowest k (Z.to_nat oversize) z1 else z1 in
  samples_ok k z2 /\ Z.of_nat (length (zview k z2)) <= SAMPLE_CAP /\
  Forall (fun p => window_start < p.1) (zview k z2) /\
  forall k', k' <> k -> zview k' z2 = zview k' z.
Proof.
  intros Hok z1 oversize z2. unfold samples_ok in *.
  assert (Hv1 : zview k z1 = filter (fun p => window_start < p.1) (zview k z)).
  { unfold z1. by rewrite zview_zremrangebyscore, decide_True. }
  assert (Hall : Forall (fun p => window_start < p.1) (zview k z1)).
  { rewrite Hv1. apply Forall_forall. by intros p [Hp _]%list_elem_of_filter. }
  assert (Hok1 : Forall sample_ok (zview k z1).*2) by (rewrite Hv1; by apply filter_samples).
  assert (Hf1 : forall k', k' <> k -> zview k' z1 = zview k' z).
  { intros k' Hk. unfold z1. by rewrite zview_zremrangebyscore, decide_False. }
  unfold z2. destruct (0 <? oversize) eqn:E; zbool; [|split_and!; [done|lia|done|done]].
  rewrite zview_zremlowest, decide_True by done. rewrite fmap_drop. split_and!.
  - by apply Forall_drop.
  - rewrite length_drop. unfold SAMPLE_CAP in *. lia.
  - by apply Forall_drop.
  - intros k' Hk. rewrite zview_zremlowest, decide_False by done. by apply Hf1.
Qed.

Lemma add_sample_spec k now window_start ttl member z :
  samples_ok k z -> sample_ok member ->
  let z' := add_sample k now window_start ttl member z in
  samples_ok k z' /\ Z.of_nat (length (zview k z')) <= SAMPLE_CAP + 1 /\
  (now, member) ∈ zview k z' /\
  Forall (fun p => window_start < p.1 \/ p = (now, member)) (zview k z') /\
  forall k', k' <> k -> zview k' z' = zview k' z.
Proof.
  intros Hok Hm z'. destruct (trim_spec k window_start z Hok) as (Hok2 & Hlen & Hall & Hf).
  unfold z', add_sample. set (z2 := if _ <? _ then _ else _) in *.
  assert (Hp : zview k (zexpire k ttl (zadd k now member z2)) ≡ₚ
               (now, member) :: filter (fun p => p.2 <> member) (zview k z2)).
  { by rewrite zview_zexpire, zview_zadd. }
  unfold samples_ok. split_and!.
  - rewrite Hp. csimpl. constructor; [done|]. by apply filter_samples.
  - rewrite Hp. simpl. pose proof (length_filter (fun p => p.2 <> member) (zview k z2)). lia.
  - rewrite Hp. by left.
  - rewrite Hp. constructor; [by right|]. apply Forall_forall. intros p [_ Hin]%list_elem_of_filter.
    rewrite Forall_forall in Hall. left. by apply Hall.
  - intros k' Hk. rewrite zview_zexpire, zview_zadd_frame by done. by apply Hf.
Qed.

(** Recording a completion counts it, and the window it reports is the one every reader
    sees: the Lua script's tally of the samples is the tally [snapshot] makes of the same
    store in Rust, request by request, with the same moving average; the errors are at most the
    total, the total at least one and at most one past the cap; and the breaker text it reports
    is the stored one, untouched. *)
Theorem recorded_window_is_snapshot (id : U) now cfg seq lat err s s1 raw total errs x life :
  samples_ok (samples_key id) (hz s) -> 0 <= seq -> 0 <= lat <= u32_max -> 0 <= cb_window_secs cfg ->
  let window_start := now - cb_window_secs cfg * 1000 in
  lua_record_sample id now window_start (sample_member seq lat err) (ttl_secs cfg) s =
    (s1, Some (raw, total, errs, x, life)) ->
  samples_ok (samples_key id) (hz s1) /\ 1 <= total <= SAMPLE_CAP + 1 /\ 0 <= errs <= total /\
  ht s1 = ht s /\ raw = default "" (tget (state_key id) (ht s)) /\
  (forall up1 up2, let h := snapshot (B := B) up1 up2 true id cfg now s1 in
     rh_total h = total /\ rh_errors h = errs /\
     rh_error_pct h = f64_div (f64_mul (f64_of_Z errs) f64_hundred) (f64_of_Z total) /\
     x = f64_floor_nonneg (f64_mul (ta_ewma (snapshot_tally
           (members_from (samples_key id) window_start (hz s1)))) f64_hundred)).
Proof.
  intros Hok Hseq Hlat Hwin window_start. unfold lua_record_sample.
  assert (Hm : sample_ok (sample_member seq lat err)) by (by exists seq, lat, err).
  set (k := samples_key id) in *.
  destruct (add_sample_spec k now window_start (ttl_secs cfg) _ (hz s) Hok Hm)
    as (Hok' & Hlen & Hin & _ & _).
  cbn [hz hh ht with_z with_h].
  destruct (hincrby _ _ _ _) as [h|]; [|done].
  set (z' := add_sample _ _ _ _ _ _) in *. cbn [hz hh ht with_z with_h].
  set (ms := members_from k window_start z').
  assert (Hms : Forall sample_ok ms) by by apply filter_samples.
  destruct (tallies_agree ms Hms) as (Heq & Ht & He).
  intros [= <- <- <- <- <- <-]. cbn [hz hh ht].
  assert (Hbound : 1 <= Z.of_nat (length ms) <= SAMPLE_CAP + 1).
  { split.
    - assert (sample_member seq lat err ∈ ms) as Hmem.
      { apply (list_elem_of_fmap_2 snd _ (now, _)). apply list_elem_of_filter. split; [|done].
        simpl. unfold window_start. lia. }
      destruct ms; [by apply elem_of_nil in Hmem|]. simpl. lia.
    - unfold ms, members_from. rewrite length_fmap.
      pose proof (length_filter (fun p => window_start <= p.1) (zview k z')). lia. }
  split_and!; [done|lia|lia|lia|lia|done|done|].
  intros up1 up2. unfold snapshot, health. cbv zeta. cbn [rh_total rh_errors rh_error_pct hz].
  change (hz (with_h h (with_z z' s))) with z'. fold k window_start ms. rewrite <- Heq. assert ((0 <? ta_total (lua_tally ms)) = true) as -> by lia. done.
Qed.

(** ** The breaker's compare-and-set *)

Lemma parse_breaker_json b :
  parse_breaker (B := B) (if decide (b = br_default) then "" else br_to_json b) = b.
Proof.
  unfold parse_breaker. case_decide; [by rewrite br_from_empty|by rewrite br_roundtrip].
Qed.

Lemma lua_cas_lost (id : U) read next ttl recovered s :
  default "" (tget (state_key id) (ht s)) <> read ->
  lua_cas id read next ttl recovered s = (s, Some 0).
Proof. intros Hne. unfold lua_cas. by apply String.eqb_neq in Hne as ->. Qed.

Lemma lua_cas_won (id : U) read next ttl recovered s :
  default "" (tget (state_key id) (ht s)) = read ->
  exists s', lua_cas id read next ttl recovered s = (s', Some 1) /\
    default "" (tget (state_key id) (ht s')) = next /\ hh s' = hh s /\
    (forall k, k <> state_key id -> tget k (ht s') = tget k (ht s)) /\
    (forall k, zview k (hz s') =
       if recovered && bool_decide (k = samples_key id) then [] else zview k (hz s)).
Proof.
  intros Heq. unfold lua_cas. apply String.eqb_eq in Heq as Heq'. rewrite Heq'. simpl.
  eexists. split; [reflexivity|].
  destruct (String.eqb_spec next "") as [->|Hn], recovered; cbn [hz ht hh with_t with_z];
    rewrite ?tget_tset, ?tget_tdel, ?decide_True by done; (split; [done|]); (split; [done|]);
    (split; [intros k Hk; by rewrite ?tget_tset, ?tget_tdel, decide_False by done|]);
    intros k; simpl; try done; rewrite zview_zdel; case_bool_decide; by case_decide.
Qed.

(** The breaker shared by the replicas moves one step at a time.  A completion that leaves
    the breaker as it was writes nothing more; one that changes it writes the new breaker only
    over the text it read, so when another replica wrote in between nothing is written and
    the other's state stands.  Written, it reads back as computed, it is what is reported, the
    window is emptied exactly when the breaker closed, and no other route is touched.  After
    such a write, a second write based on the same reading is refused. *)
Theorem breaker_moves_one_step l2 others (id : U) seq lat err cfg now s s1 raw total errs x life (b : B) change :
  cb_enabled cfg = true ->
  lua_record_sample id now (now - cb_window_secs cfg * 1000) (sample_member seq lat err)
    (ttl_secs cfg) s = (s1, Some (raw, total, errs, x, life)) ->
  br_record (negb err) {| tally_total := to_u32 total; tally_errors := to_u32 errs |}
    (policy cfg) now (parse_breaker raw) = (b, change) ->
  let '(s', r) := record_health LinkOk l2 others id seq lat err cfg now s in
  let text st := default "" (tget (state_key id) (ht st)) in
  (b = parse_breaker raw -> s' = s1) /\
  (b <> parse_breaker raw -> text (others s1) <> raw -> s' = others s1 /\
     rh_state r = br_state_at (policy cfg) now (parse_breaker (B := B) raw)) /\
  (b <> parse_breaker raw -> text (others s1) = raw -> l2 = LinkOk ->
     parse_breaker (text s') = b /\ rh_state r = br_state_at (policy cfg) now b /\
     (forall k, zview k (hz s') =
        if bool_decide (change = Some BState.Closed /\ k = samples_key id) then []
        else zview k (hz (others s1))) /\
     (forall k, k <> state_key id -> tget k (ht s') = tget k (ht (others s1))) /\
     (text s' <> raw -> forall next ttl rec, lua_cas id raw next ttl rec s' = (s', Some 0))).
Proof.
  intros Hen Hscript Hrec. unfold record_health. unfold run_script at 1. rewrite Hscript. simpl.
  rewrite Hen. simpl. rewrite Hrec. destruct (decide (b = parse_breaker raw)) as [->|Hne].
  { simpl. by split_and!. }
  set (recovered := match change with Some BState.Closed => true | _ => false end).
  set (next := if decide (b = br_default) then "" else br_to_json b).
  destruct (decide (default "" (tget (state_key id) (ht (others s1))) = raw)) as [Heq|Hlost].
  - destruct (lua_cas_won id raw next (ttl_secs cfg) recovered (others s1) Heq)
      as (s' & Hcas & Htext & _ & Hframe & Hz).
    destruct l2; unfold run_script; rewrite ?Hcas; simpl; (split; [done|]); (split; [done|]);
      intros _ _ Hl; [|discriminate..].
    split_and!.
    + rewrite Htext. apply parse_breaker_json.
    + done.
    + intros k. rewrite Hz. unfold recovered.
      destruct change as [[]|]; simpl; repeat case_bool_decide; naive_solver.
    + done.
    + intros Hch next' ttl' rec'. by apply lua_cas_lost.
  - pose proof (lua_cas_lost id raw next (ttl_secs cfg) recovered (others s1) Hlost) as Hcas.
    destruct l2; unfold run_script; rewrite ?Hcas; simpl; (split; [done|]); (split; [done|]); done.
Qed.

(** A disabled breaker, or one Redis cannot be asked about, reads as closed. *)
Lemma state_closed up (id : U) cfg now s :
  cb_enabled cfg = false \/ up = false -> state (B := B) up id cfg now s = BState.Closed.
Proof.
  unfold state. intros [->| ->]; [done|]. destruct (cb_enabled cfg); [|done]. simpl.
  unfold parse_breaker. rewrite br_from_empty. apply br_default_closed.
Qed.
End Contract.

(** ** Witnesses *)

(** Reading whole decimal numbers only. *)
Fixpoint digits_value (acc : N) (s : string) : N :=
  match s with
  | EmptyString => acc
  | String c s => digits_value (acc * 10 + (N_of_ascii c - 48)) s
  end.
Definition demo_number (s : string) : option f64 :=
  if nonempty_str s && all_chars is_digit s then Some (f64_of_Z (Z.of_N (digits_value 0 s))) else None.
#[export] Instance demo_NumText : NumText := {| lua_tonumber := demo_number; parse_f64 := demo_number |}.

Lemma pretty_N_char_value x : (x < 10)%N -> (N_of_ascii (pretty_N_char x) - 48 = x)%N.
Proof.
  intros Hx. assert (x ∈ [0; 1; 2; 3; 4; 5; 6; 7; 8; 9]%N) as Hin.
  { rewrite !elem_of_cons. lia. }
  repeat (apply elem_of_cons in Hin as [->|Hin]; [reflexivity|]). by apply elem_of_nil in Hin.
Qed.

Lemma digits_value_go x s : digits_value 0 (pretty_N_go x s) = digits_value x s.
Proof.
  revert s. induction (N.lt_wf_0 x) as [x _ IH]. intros s.
  destruct (decide (0 < x)%N) as [Hx|Hx].
  - rewrite pretty_N_go_step by done. rewrite IH by by apply N.div_lt. simpl.
    rewrite pretty_N_char_value by by apply N.mod_lt. f_equal.
    pose proof (N.div_mod x 10 ltac:(lia)). lia.
  - assert (x = 0%N) as -> by lia. by rewrite pretty_N_go_0.
Qed.

Lemma demo_number_pretty n : 0 <= n -> demo_number (pretty n) = Some (f64_of_Z n).
Proof.
  intros Hn. unfold demo_number. destruct (pretty_digits n Hn) as [Hd (c & s & Es)].
  replace (nonempty_str (pretty n)) with true by by rewrite Es. rewrite Hd. cbn [andb]. do 2 f_equal.
  destruct n as [|p|p]; [done| |lia].
  assert (pretty (Zpos p) = pretty_N_go (Npos p) "") as -> by reflexivity.
  by rewrite digits_value_go.
Qed.

#[export] Instance demo_NumTextLaws : NumTextLaws.
Proof. split; intros n Hn; apply demo_number_pretty; lia. Qed.

Definition demo_cfg : CircuitBreakerConfig :=
  {| cb_enabled := true; cb_error_pct := 50; cb_min_samples := 1; cb_window_secs := 60;
     cb_open_secs := 30 |}.
Abbreviation demo_stores := (hstores demo_store demo_store hstore).
Definition demo_health_empty : demo_stores := {| hz := ds_empty; ht := ds_empty; hh := hs_empty |}.
Definition demo_record_one : demo_stores * RouteHealth :=
  record_health (B := demo_breaker) LinkOk LinkOk id UKey1 0 120 true demo_cfg 1000000 demo_health_empty.

(** One failed request trips the breaker; thirty seconds later the route reads as half-open, with
    nothing written. *)
Example trips_then_cools :
  rh_state demo_record_one.2 = BState.Open /\
  state (B := demo_breaker) true UKey1 demo_cfg 1029999 demo_record_one.1 = BState.Open /\
  state (B := demo_breaker) true UKey1 demo_cfg 1030000 demo_record_one.1 = BState.HalfOpen.
Proof. split_and!; by vm_compute. Qed.

Definition demo_script : demo_stores * option (string * Z * Z * Z * Z) :=
  lua_record_sample UKey1 1000000 940000 (sample_member 0 120 true) 120 demo_health_empty.

Lemma recorded_window_is_snapshot_witness :
  rh_total (snapshot (B := demo_breaker) true true true UKey1 demo_cfg 1000000 demo_script.1) = 1.
Proof.
  assert (demo_script = (demo_script.1, Some ("", 1, 1, 12000, 1))) as Hs.
  { rewrite (surjective_pairing demo_script) at 1. f_equal. }
  assert (samples_ok (samples_key UKey1) (hz demo_health_empty)) as Hok by exact (List.Forall_nil _).
  pose proof (recorded_window_is_snapshot (B := demo_breaker) UKey1 1000000 demo_cfg 0 120 true
    demo_health_empty demo_script.1 "" 1 1 12000 1 Hok ltac:(lia) ltac:(unfold u32_max; lia)
    ltac:(simpl; lia) Hs) as (_ & _ & _ & _ & _ & Hsnap).
  exact (proj1 (Hsnap true true)).
Defined.

Lemma breaker_moves_one_step_witness :
  rh_state demo_record_one.2 = BState.Open.
Proof.
  assert (demo_script = (demo_script.1, Some ("", 1, 1, 12000, 1))) as Hs.
  { rewrite (surjective_pairing demo_script) at 1. f_equal. }
  pose proof (breaker_moves_one_step (B := demo_breaker) LinkOk id UKey1 0 120 true demo_cfg 1000000
    demo_health_empty demo_script.1 "" 1 1 12000 1 (DOpen 1000000) (Some BState.Open) eq_refl Hs
    ltac:(by vm_compute)) as Hstep.
  unfold demo_record_one. destruct (record_health _ _ _ _ _ _ _ _ _ _) as [s' r].
  destruct Hstep as (_ & _ & Hwon).
  exact (proj1 (proj2 (Hwon ltac:(by vm_compute) ltac:(by vm_compute) eq_refl))).
Defined.
