(* ===== verification/Routing.v ===== *)
(** * Selecting a route

    [crates/gateway/src/proxy/routing.rs]: one pick (health, affinity, the sealed-history pin,
    the strategy's weighted draw), a pick under its caps, and the failover loop with its
    retries.  What a request meets outside this file is the interface [SelectionEnv]: the
    health tracker ([Health.v]), the route caps ([RouteCaps.v]), the affinity keys in Redis,
    the clock, the random source, and the attempt itself, which sends to the upstream and
    reads its answer ([generate::send], [generate::read_whole]). *)
From Stdlib Require Import SpecFloat.
From S2P Require Import Prelude Interfaces Float64 Effects GatewayDeps GatewayError Retry Router Sealed RouteCaps Strategy Health.

(** ** The interface *)

(** [W]: the world; [Up]: an upstream; [A]: an answer with its ledger; [Ef]: a changed effort. *)
Class SelectionEnv (W U Up A Ef : Type) := {
  env_snapshot : U -> CircuitBreakerConfig -> prog W RouteHealth;
  env_record : U -> Z -> bool -> CircuitBreakerConfig -> prog W unit;
  env_admit : Caps.RouteCaps U -> bool -> prog W (result GatewayError Caps.Admission);
  (** Text keys, best effort: a Redis that fails reads as absent and writes nothing. *)
  env_get : string -> prog W (option string);
  env_set : string -> string -> Z -> prog W unit;
  env_del : string -> prog W unit;
  (** [random_range(0.0..total)] and [random_range(0.8..=1.2)]. *)
  env_rand_below : f64 -> prog W f64;
  env_jitter : prog W f64;
  env_instant : prog W Z;
  env_sleep : Z -> prog W unit;
  (** [None]: still no answer at the hard deadline. *)
  env_attempt : RouteEntry U Up -> string -> option Z ->
    prog W (option (result GatewayError (A * option Ef)));
}.

Section Routing.
Context {W U Up A Ef Rs : Type} `{UuidParse U} `{!SelectionEnv W U Up A Ef}.
Context (powf : f64 -> f64 -> f64).
Abbreviation Entry := (RouteEntry U Up).

(** ** Affinity *)

Inductive AffinityHit := HitProvider (id : U) | HitRoute (id : U).

Definition affinity_key (mode : AffinityMode.t) (uid model : string) : string :=
  "affinity:" +:+ AffinityMode.as_str mode +:+ ":" +:+ uid +:+ ":" +:+ model.

Definition check_affinity (user_id : option string) (model : string) (mode : AffinityMode.t)
    (entries : list Entry) : prog W (option AffinityHit) :=
  match mode, user_id with
  | AffinityMode.NoAffinity, _ | _, None => mret None
  | _, Some uid =>
      val ← env_get (affinity_key mode uid model);
      mret (id ← val ≫= uuid_parse;
            match mode with
            | AffinityMode.Provider =>
                if existsb (fun e => bool_decide (re_provider_id e = id)) entries
                then Some (HitProvider id) else None
            | AffinityMode.Route =>
                if existsb (fun e => bool_decide (re_route_id e = id)) entries
                then Some (HitRoute id) else None
            | AffinityMode.NoAffinity => None
            end)
  end.

Definition set_affinity (user_id : option string) (model : string) (mode : AffinityMode.t)
    (entry : Entry) (ttl_secs : Z) : prog W unit :=
  match mode with
  | AffinityMode.NoAffinity => mret tt
  | _ =>
      if ttl_secs =? 0 then mret tt
      else match user_id with
           | None => mret tt
           | Some uid =>
               let id := match mode with
                         | AffinityMode.Route => re_route_id entry
                         | _ => re_provider_id entry
                         end in
               env_set (affinity_key mode uid model) (uuid_str id) ttl_secs
           end
  end.

Definition forget_one (uid model : string) (mode : AffinityMode.t) (id : U) : prog W unit :=
  let key := affinity_key mode uid model in
  held ← env_get key;
  if decide (held = Some (uuid_str id)) then env_del key else mret tt.

Definition forget_affinity (user_id : option string) (model : string) (provider_id route_id : U)
    : prog W unit :=
  match user_id with
  | None => mret tt
  | Some uid =>
      _ ← forget_one uid model AffinityMode.Provider provider_id;
      forget_one uid model AffinityMode.Route route_id
  end.

(** ** What a request is routed by *)

(** The gateway-wide defaults, as the settings hold them; the lifetime is clamped to a day. *)
Record RoutingDefaults := {
  rd_strategy : string;
  rd_affinity_mode : string;
  rd_affinity_ttl_secs : Z;
}.

Definition resolve_routing_config (cfg : ModelRoutingConfig Rs RoutingStrategy.t)
    (d : RoutingDefaults) : RoutingStrategy.t * AffinityMode.t * Z :=
  (match mrc_strategy cfg with
   | Some s => s
   | None => match RoutingStrategy.from_str (rd_strategy d) with
             | Ok s => s
             | Err _ => RoutingStrategy.default
             end
   end,
   match mrc_affinity_mode cfg with
   | Some m => m
   | None => AffinityMode.parse_or_default (rd_affinity_mode d)
   end,
   match mrc_affinity_ttl_secs cfg with
   | Some t => t
   | None => Z.max 0 (Z.min (rd_affinity_ttl_secs d) 86400)
   end).

Record SelectionCtx := {
  sc_model_id : string;
  sc_user_id : option string;
  sc_strategy : RoutingStrategy.t;
  sc_affinity_mode : AffinityMode.t;
  sc_affinity_ttl_secs : Z;
  sc_latency_k : f64;
  sc_breaker : CircuitBreakerConfig;
  sc_fail_closed : bool;
  sc_pin : option (Pin U);
}.

Definition build_selection_ctx (cfg : ModelRoutingConfig Rs RoutingStrategy.t) (d : RoutingDefaults)
    (latency_k : f64) (breaker : CircuitBreakerConfig) (fail_closed : bool) (model_id : string)
    (user_id : option string) (pin : option (Pin U)) : SelectionCtx :=
  let '(strategy, mode, ttl) := resolve_routing_config cfg d in
  {| sc_model_id := model_id; sc_user_id := user_id; sc_strategy := strategy;
     sc_affinity_mode := mode; sc_affinity_ttl_secs := ttl; sc_latency_k := latency_k;
     sc_breaker := breaker; sc_fail_closed := fail_closed; sc_pin := pin |}.

(** ** One pick *)

Definition pinned_only (pin : option (Pin U)) : bool :=
  match pin with Some (Only _) => true | _ => false end.

Definition is_excluded (tried capped : list U) (ctx : SelectionCtx) (entry : Entry)
    (h : RouteHealth) : bool :=
  (bool_decide (rh_state h = BState.Open) && negb (pinned_only (sc_pin ctx)))
  || bool_decide (re_provider_id entry ∈ tried) || bool_decide (re_route_id entry ∈ capped).

(** [(1.0 - error_pct / 100.0).clamp(0.0, 1.0)] *)
Definition success_rate (h : RouteHealth) : option f64 :=
  if 0 <? rh_total h then
    Some (f64_clamp (f64_sub f64_one (f64_div (rh_error_pct h) f64_hundred)) f64_zero f64_one)
  else None.

Definition signal (entry : Entry) (h : RouteHealth) : RouteSignal :=
  {| sig_configured_weight := re_weight entry; sig_ewma_latency_ms := rh_ewma_latency_ms h;
     sig_success_rate := success_rate h |}.

Definition pin_to_holder (group : list Entry) (excluded : list bool) (pin : option (Pin U))
    : list bool :=
  match pin with
  | None => excluded
  | Some pin =>
      let holder := pin_provider pin in
      let eligible := existsb (fun '(e, x) => negb x && bool_decide (re_provider_id e = holder))
                        (zip group excluded) in
      match pin with
      | First _ =>
          if negb eligible then excluded
          else zip_with (fun e x => x || bool_decide (re_provider_id e <> holder)) group excluded
      | Only _ => zip_with (fun e x => x || bool_decide (re_provider_id e <> holder)) group excluded
      end
  end.

Definition affinity_match (hit : AffinityHit) (e : Entry) : bool :=
  match hit with
  | HitProvider pid => bool_decide (re_provider_id e = pid)
  | HitRoute rid => bool_decide (re_route_id e = rid)
  end.

(** The walk: the first candidate whose running total passes the draw. *)
Fixpoint weighted_walk {X} (pick acc : f64) (l : list (X * f64)) : option X :=
  match l with
  | [] => None
  | (x, w) :: l =>
      let acc := f64_add acc w in
      if f64_ltb pick acc then Some x else weighted_walk pick acc l
  end.

Definition mask (excluded : list bool) (weights : list f64) : list f64 :=
  zip_with (fun (x : bool) w => if x then f64_zero else w) excluded weights.

Definition first_where {X} (f : X -> bool) (l : list X) : option X := head (filter (fun x => f x = true) l).

Definition pick_with_strategy (group : list Entry) (tried capped : list U) (ctx : SelectionCtx)
    : prog W (option Entry) :=
  match group with
  | [] => mret None
  | _ =>
      healths ← collect (fun e => env_snapshot (re_route_id e) (sc_breaker ctx)) group;
      affinity ← check_affinity (sc_user_id ctx) (sc_model_id ctx) (sc_affinity_mode ctx) group;
      let excluded := zip_with (is_excluded tried capped ctx) group healths in
      let signals := zip_with signal group healths in
      let weights := compute_weights powf (sc_strategy ctx) signals (sc_latency_k ctx) in
      let excluded := pin_to_holder group excluded (sc_pin ctx) in
      let stuck := hit ← affinity;
                   fst <$> first_where (fun '(e, x) => negb x && affinity_match hit e)
                             (zip group excluded) in
      match stuck with
      | Some entry => mret (Some entry)
      | None =>
          let masked := mask excluded weights in
          let total := f64_sum masked in
          if f64_leb total f64_zero then
            mret (fst <$> first_where (fun '(e, x) => negb x) (zip group excluded))
          else
            pick ← env_rand_below total;
            mret (weighted_walk pick f64_zero (zip group masked))
      end
  end.

(** ** A pick under its caps *)

(** [n] passes; the capped routes are part of what is returned. *)
Fixpoint pick_admitted (n : nat) (group : list Entry) (tried : list U) (capped : Caps.CappedRoutes U)
    (ctx : SelectionCtx) : prog W (Caps.CappedRoutes U * result GatewayError (option Entry)) :=
  match n with
  | O => mret (capped, Ok None)
  | S n =>
      picked ← pick_with_strategy group tried (Caps.cr_routes capped) ctx;
      match picked with
      | None => mret (capped, Ok None)
      | Some entry =>
          admission ← env_admit (Caps.RouteCaps_of entry) (sc_fail_closed ctx);
          match admission with
          | Err e => mret (capped, Err e)
          | Ok Caps.WasAdmitted => mret (capped, Ok (Some entry))
          | Ok (Caps.Capped lbl secs) =>
              pick_admitted n group tried (Caps.add (re_route_id entry) lbl secs capped) ctx
          end
      end
  end.

(** ** Failover *)

Record SelectionRecord := {
  sr_picked_route_id : U;
  sr_started_at : Z;
  sr_picked_latency_ms : option Z;
  sr_retries : Z;
  sr_effort : option Ef;
  sr_counted : bool;
  sr_too_slow : option Z;
}.

Definition as_latency_ms (elapsed : Z) : Z := Z.min (elapsed / ms) u32_max.

(** Stamp what a finished request says about its route. *)
Definition finalize_health (breaker : CircuitBreakerConfig) (sel : SelectionRecord) (success : bool)
    : prog W unit :=
  if sr_counted sel then mret tt
  else
    now ← env_instant;
    let total_latency_ms := as_latency_ms (now - sr_started_at sel) in
    env_record (sr_picked_route_id sel) (default total_latency_ms (sr_picked_latency_ms sel))
      (negb success) breaker.

(** An attempt that was sent, with how it ended: for the theorems, the code keeps no such log. *)
Inductive ended := EndedOk | EndedTimeout | EndedErr (e : GatewayError).
Record sent_to := { se_retry : Z; se_entry : Entry; se_end : ended }.

Record failover := {
  fo_last_error : option GatewayError;
  fo_tried : list U;
  fo_capped : Caps.CappedRoutes U;
  fo_transient : list U;
  fo_last_took : Z;
  fo_budget : Budget;
  fo_log : list sent_to;
}.

Inductive round_end :=
  | RoundAnswered (entry : Entry) (answer : A) (r : SelectionRecord) (log : list sent_to)
  | RoundRefused (e : GatewayError) (log : list sent_to)
  | RoundExhausted (attempted : bool) (st : failover).

Definition refused_with_an_answer (e : GatewayError) : bool :=
  match e with ProviderHttpError _ _ _ | SealedHistoryRefused _ _ _ => true | _ => false end.

Definition timeout_error (entry : Entry) : GatewayError :=
  ProviderTimeout (re_provider_name entry +:+
    " did not answer within the gateway's request timeout").

(** One round: at most [n] attempts, each on a candidate picked among those left. *)
Fixpoint failover_round (n : nat) (candidates : list Entry) (ctx : SelectionCtx)
    (caller_model : string) (started_at : Z) (attempted : bool) (st : failover) : prog W round_end :=
  match n with
  | O => mret (RoundExhausted attempted st)
  | S n =>
      '(capped, picked) ← pick_admitted (length candidates) candidates (fo_tried st) (fo_capped st) ctx;
      match picked with
      | Err e => mret (RoundRefused e (fo_log st))
      | Ok None =>
          mret (RoundExhausted attempted
            {| fo_last_error := fo_last_error st; fo_tried := fo_tried st; fo_capped := capped;
               fo_transient := fo_transient st; fo_last_took := fo_last_took st;
               fo_budget := fo_budget st; fo_log := fo_log st |})
      | Ok (Some entry) =>
          let tried := fo_tried st ++ [re_provider_id entry] in
          let upstream_model := default caller_model (re_upstream_model entry) in
          let logged end_ := fo_log st ++
            [{| se_retry := retries (fo_budget st); se_entry := entry; se_end := end_ |}] in
          attempt_started_at ← env_instant;
          result ← env_attempt entry upstream_model (hard_deadline (fo_budget st));
          now ← env_instant;
          let last_took := now - attempt_started_at in
          let attempt_latency_ms := as_latency_ms last_took in
          match result with
          | None =>
              _ ← env_record (re_route_id entry) attempt_latency_ms true (sc_breaker ctx);
              mret (RoundRefused (default (timeout_error entry) (fo_last_error st))
                      (logged EndedTimeout))
          | Some (Ok (answer, effort)) =>
              _ ← set_affinity (sc_user_id ctx) (sc_model_id ctx) (sc_affinity_mode ctx) entry
                    (sc_affinity_ttl_secs ctx);
              mret (RoundAnswered entry answer
                {| sr_picked_route_id := re_route_id entry; sr_started_at := started_at;
                   sr_picked_latency_ms := Some attempt_latency_ms;
                   sr_retries := retries (fo_budget st); sr_effort := effort;
                   sr_counted := false; sr_too_slow := None |} (logged EndedOk))
          | Some (Err e) =>
              if is_upstream_failure e then
                _ ← env_record (re_route_id entry) attempt_latency_ms true (sc_breaker ctx);
                let transient := filter (fun p => p <> re_provider_id entry) (fo_transient st) ++
                                 (if is_transient e then [re_provider_id entry] else []) in
                failover_round n candidates ctx caller_model started_at true
                  {| fo_last_error := Some e; fo_tried := tried; fo_capped := capped;
                     fo_transient := transient; fo_last_took := last_took;
                     fo_budget := fo_budget st; fo_log := logged (EndedErr e) |}
              else
                _ ← (if refused_with_an_answer e
                     then env_record (re_route_id entry) attempt_latency_ms false (sc_breaker ctx)
                     else mret tt);
                mret (RoundRefused e (logged (EndedErr e)))
          end
      end
  end.

(** Whether another round starts, and after what wait.  The clock is read and the jitter drawn
    only for a transient error. *)
Definition next_wait (attempted : bool) (st : failover) : prog W (option Z) :=
  match fo_last_error st with
  | Some e =>
      if attempted && negb (bool_decide (fo_transient st = [])) && is_transient e then
        jitter ← env_jitter;
        now ← env_instant;
        mret (wait_after_taking now jitter e (fo_last_took st) (fo_budget st))
      else mret None
  | None => mret None
  end.

Definition next_round (candidates : list Entry) (st : failover) : failover :=
  {| fo_last_error := fo_last_error st;
     fo_tried := filter (fun p => p ∉ fo_transient st) (re_provider_id <$> candidates);
     fo_capped := Caps.CappedRoutes_default;
     fo_transient := fo_transient st;
     fo_last_took := fo_last_took st;
     fo_budget := sent (fo_budget st);
     fo_log := fo_log st |}.

Definition all_failed (model : string) : GatewayError :=
  ProviderError ("All routes failed for model: " +:+ model).

Definition final_error (ctx : SelectionCtx) (st : failover) : GatewayError :=
  match fo_last_error st with
  | Some e => e
  | None => default (all_failed (sc_model_id ctx)) (Caps.refusal (fo_capped st))
  end.

Definition answered : Type := Entry * A * SelectionRecord.

(** The outer loop; [None] only when [fuel] runs out. *)
Fixpoint failover_rounds (fuel : nat) (candidates : list Entry) (ctx : SelectionCtx)
    (caller_model : string) (started_at : Z) (st : failover)
    : prog W (option (result GatewayError answered * list sent_to)) :=
  match fuel with
  | O => mret None
  | S fuel =>
      round ← failover_round (length candidates) candidates ctx caller_model started_at false st;
      match round with
      | RoundAnswered entry answer r log => mret (Some (Ok (entry, answer, r), log))
      | RoundRefused e log => mret (Some (Err e, log))
      | RoundExhausted attempted st =>
          wait ← next_wait attempted st;
          match wait with
          | None => mret (Some (Err (final_error ctx st), fo_log st))
          | Some wait =>
              _ ← env_sleep wait;
              failover_rounds fuel candidates ctx caller_model started_at (next_round candidates st)
          end
      end
  end.

Definition failover_init (budget : Budget) : failover :=
  {| fo_last_error := None; fo_tried := []; fo_capped := Caps.CappedRoutes_default;
     fo_transient := []; fo_last_took := 0; fo_budget := budget; fo_log := [] |}.

Definition select_route_with_failover (fuel : nat) (routes : list Entry) (ctx : SelectionCtx)
    (caller_model : string) (budget : Budget)
    : prog W (option (result GatewayError answered * list sent_to)) :=
  started_at ← env_instant;
  failover_rounds fuel routes ctx caller_model started_at (failover_init budget).

(** ** Streams *)

Definition no_provider (model : string) : GatewayError :=
  ProviderError ("No provider found for model: " +:+ model).

Definition select_route_for_stream (routes : list Entry) (ctx : SelectionCtx)
    : prog W (result GatewayError (Entry * SelectionRecord)) :=
  started_at ← env_instant;
  '(capped, picked) ← pick_admitted (length routes) routes [] Caps.CappedRoutes_default ctx;
  mret (match picked with
        | Err e => Err e
        | Ok (Some entry) =>
            Ok (entry,
                {| sr_picked_route_id := re_route_id entry; sr_started_at := started_at;
                   sr_picked_latency_ms := None; sr_retries := 0; sr_effort := None;
                   sr_counted := false; sr_too_slow := None |})
        | Ok None => Err (default (no_provider (sc_model_id ctx)) (Caps.refusal capped))
        end).

Record Resend := {
  rs_route_id : U;
  rs_caps : Caps.RouteCaps U;
  rs_breaker : CircuitBreakerConfig;
  rs_fail_closed : bool;
  rs_pinned_only : bool;
  rs_budget : Budget;
}.

Definition Resend_new (entry : Entry) (ctx : SelectionCtx) (budget : Budget) : Resend :=
  {| rs_route_id := re_route_id entry; rs_caps := Caps.RouteCaps_of entry;
     rs_breaker := sc_breaker ctx; rs_fail_closed := sc_fail_closed ctx;
     rs_pinned_only := match sc_pin ctx with
                       | Some (Only p) => bool_decide (p = re_provider_id entry)
                       | _ => false
                       end;
     rs_budget := budget |}.

Definition resend_admit (failed_ms : Z) (r : Resend) : prog W (Resend * bool) :=
  h ← env_snapshot (rs_route_id r) (rs_breaker r);
  if bool_decide (rh_state h = BState.Open) && negb (rs_pinned_only r) then mret (r, false)
  else
    admission ← env_admit (rs_caps r) (rs_fail_closed r);
    match admission with
    | Ok Caps.WasAdmitted =>
        _ ← env_record (rs_route_id r) failed_ms true (rs_breaker r);
        mret ({| rs_route_id := rs_route_id r; rs_caps := rs_caps r; rs_breaker := rs_breaker r;
                 rs_fail_closed := rs_fail_closed r; rs_pinned_only := rs_pinned_only r;
                 rs_budget := sent (rs_budget r) |}, true)
    | Ok (Caps.Capped _ _) | Err _ => mret (r, false)
    end.
End Routing.

(** * What a pick promises

    The weighted draw on doubles, the pin and the exclusions of [Routing.v]: a pick is always
    an eligible candidate, and there is a pick whenever there is an eligible candidate. *)

(** ** The walk *)

Section Walk.
Context {X : Type}.
Implicit Types (l : list (X * f64)) (pick acc : f64).

(** A zero weight is never drawn. *)
Lemma walk_nonzero pick acc l x :
  f64_ltb pick acc = false -> weighted_walk pick acc l = Some x ->
  exists i w, l !! i = Some (x, w) /\ w <> f64_zero.
Proof.
  revert acc. induction l as [|[y w] l IH]; intros acc Hacc; simpl; [done|].
  destruct (f64_ltb pick (f64_add acc w)) eqn:E.
  - intros [= ->]. exists 0%nat, w. split; [done|]. intros ->.
    rewrite (f64_add_zero acc) in E. congruence.
  - intros (i & w' & Hi & Hw)%IH; [|done]. by exists (S i), w'.
Qed.

(** A draw below the total always lands. *)
Lemma walk_lands pick acc l :
  f64_ltb pick acc = false -> f64_ltb pick (foldl f64_add acc l.*2) = true ->
  is_Some (weighted_walk pick acc l).
Proof.
  revert acc. induction l as [|[y w] l IH]; intros acc Hacc; simpl; [congruence|].
  intros Hlt. destruct (f64_ltb pick (f64_add acc w)) eqn:E; [by eexists|]. by apply IH.
Qed.

Lemma first_where_Some (f : X -> bool) (l : list X) x :
  first_where f l = Some x -> x ∈ l /\ f x = true.
Proof.
  unfold first_where. intros Hh. assert (x ∈ filter (fun x => f x = true) l) as Hin.
  { destruct (filter _ l); [done|]. injection Hh as ->. by left. }
  by apply list_elem_of_filter in Hin as [? ?].
Qed.

Lemma first_where_None (f : X -> bool) (l : list X) x :
  first_where f l = None -> x ∈ l -> f x = false.
Proof.
  unfold first_where. intros Hh Hx. destruct (f x) eqn:E; [|done].
  assert (x ∈ filter (fun x => f x = true) l) as Hin by by apply list_elem_of_filter.
  destruct (filter _ l); [by apply elem_of_nil in Hin|done].
Qed.
End Walk.

Lemma draw_not_below_zero pick : nonneg pick -> f64_ltb pick f64_zero = false.
Proof.
  intros Hp. pose proof (f64_leb_ltb f64_zero pick ltac:(done) (nonneg_not_nan _ Hp)) as He.
  unfold nonneg in Hp. rewrite Hp in He. by destruct (f64_ltb pick f64_zero).
Qed.

(** ** The interface's laws *)

Class SelectionLaws {W U Up A Ef} `{SelectionEnv W U Up A Ef} (clock : W -> Z) := {
  rand_nonneg total w : nonneg (env_rand_below total w).2;
  rand_below total w :
    f64_ltb f64_zero total = true -> f64_ltb (env_rand_below total w).2 total = true;
  jitter_in_range w : jitter_ok (env_jitter w).2;
  (** The clock is monotone and every operation takes what time it takes. *)
  instant_reads w : clock w <= (env_instant w).2 <= clock (env_instant w).1;
  sleep_waits d w : clock w + d <= clock (env_sleep d w).1;
  snapshot_time id cfg w : clock w <= clock (env_snapshot id cfg w).1;
  record_time id l e cfg w : clock w <= clock (env_record id l e cfg w).1;
  admit_time caps fc w : clock w <= clock (env_admit caps fc w).1;
  get_time k w : clock w <= clock (env_get k w).1;
  set_time k v ttl w : clock w <= clock (env_set k v ttl w).1;
  rand_time total w : clock w <= clock (env_rand_below total w).1;
  jitter_time w : clock w <= clock (env_jitter w).1;
  attempt_time e m h w : clock w <= clock (env_attempt e m h w).1;
}.

Section Pick.
Context {W U Up A Ef : Type} `{UuidParse U} `{!SelectionEnv W U Up A Ef}
  {clock : W -> Z} `{!SelectionLaws clock}.
Context (powf : f64 -> f64 -> f64).
Abbreviation Entry := (RouteEntry U Up).
Implicit Types (group : list Entry) (ctx : SelectionCtx (U := U)) (w : W).

(** The health of each candidate, as the pick reads it. *)
Definition healths group ctx w : list RouteHealth :=
  (collect (fun e => env_snapshot (re_route_id e) (sc_breaker ctx)) group w).2.

(** Candidate [i] may be picked: its breaker is not open (unless it alone can read the
    history), its provider was not tried, it is not at a cap, and the pin allows it. *)
Definition eligible group tried capped ctx w (i : nat) (e : Entry) : Prop :=
  exists h, group !! i = Some e /\ healths group ctx w !! i = Some h /\
    is_excluded tried capped ctx e h = false.

Definition pin_allows group tried capped ctx w (e : Entry) : Prop :=
  match sc_pin ctx with
  | None => True
  | Some (Only p) => re_provider_id e = p
  | Some (First p) =>
      (exists j e', eligible group tried capped ctx w j e' /\ re_provider_id e' = p) ->
      re_provider_id e = p
  end.

Lemma zip_with_false {Y} (f : Entry -> Y -> bool) group (l : list Y) i :
  zip_with f group l !! i = Some false <->
  exists e y, group !! i = Some e /\ l !! i = Some y /\ f e y = false.
Proof. rewrite lookup_zip_with_Some. naive_solver. Qed.

Lemma pin_to_holder_false group ex pin i e :
  length ex = length group -> group !! i = Some e ->
  pin_to_holder group ex pin !! i = Some false <->
  ex !! i = Some false /\
  match pin with
  | None => True
  | Some (Only p) => re_provider_id e = p
  | Some (First p) =>
      (exists j e', group !! j = Some e' /\ ex !! j = Some false /\ re_provider_id e' = p) ->
      re_provider_id e = p
  end.
Proof.
  intros Hlen Hi. assert (Hnarrow : forall p,
    zip_with (fun e x => x || bool_decide (re_provider_id e <> p)) group ex !! i = Some false <->
    ex !! i = Some false /\ re_provider_id e = p).
  { intros p. rewrite zip_with_false. split.
    - intros (e' & x & He' & Hx & [-> Hd%bool_decide_eq_false]%orb_false_iff).
      assert (e' = e) as -> by congruence. split; [done|].
      destruct (decide (re_provider_id e = p)); [done|]. by destruct Hd.
    - intros [Hx Hp]. exists e, false. split_and!; [done..|]. simpl. by rewrite bool_decide_eq_false_2 by auto. }
  destruct pin as [[p|p]|]; simpl; [by apply Hnarrow| |naive_solver].
  set (elig := existsb _ _). assert (Helig : elig = true <->
    exists j e', group !! j = Some e' /\ ex !! j = Some false /\ re_provider_id e' = p).
  { unfold elig. rewrite existsb_exists. split.
    - intros ([e' x] & Hin & [Hx Hp%bool_decide_eq_true]%andb_true_iff).
      apply list_elem_of_In, list_elem_of_lookup in Hin as [j Hj].
      apply lookup_zip_Some in Hj as [Hj1 Hj2]. exists j, e'. by destruct x.
    - intros (j & e' & Hj1 & Hj2 & Hp). exists (e', false). split.
      + apply list_elem_of_In, list_elem_of_lookup. exists j. by apply lookup_zip_Some.
      + simpl. by apply bool_decide_eq_true. }
  destruct elig; simpl.
  - rewrite Hnarrow. naive_solver.
  - split; [|naive_solver]. intros Hx. split; [done|]. intros Hex. apply Helig in Hex. done.
Qed.

(** The exclusions as they stand when the draw is made. *)
Definition final_excluded group tried capped ctx w : list bool :=
  pin_to_holder group (zip_with (is_excluded tried capped ctx) group (healths group ctx w)) (sc_pin ctx).

Lemma healths_length group ctx w : length (healths group ctx w) = length group.
Proof. apply collect_length. Qed.

Lemma final_excluded_length group tried capped ctx w :
  length (final_excluded group tried capped ctx w) = length group.
Proof.
  unfold final_excluded, pin_to_holder.
  assert (Hl : length (zip_with (is_excluded tried capped ctx) group (healths group ctx w)) = length group)
    by (rewrite length_zip_with, healths_length; lia).
  destruct (sc_pin ctx) as [[]|]; [| |done].
  - rewrite length_zip_with, Hl. lia.
  - destruct (existsb _ _); simpl; [|done]. rewrite length_zip_with, Hl. lia.
Qed.

Lemma final_excluded_false group tried capped ctx w i e :
  group !! i = Some e ->
  final_excluded group tried capped ctx w !! i = Some false <->
  eligible group tried capped ctx w i e /\ pin_allows group tried capped ctx w e.
Proof.
  intros Hi. unfold final_excluded. rewrite (pin_to_holder_false _ _ _ i e); [|by rewrite length_zip_with, healths_length; lia|done].
  assert (Hel : forall j e', group !! j = Some e' ->
    zip_with (is_excluded tried capped ctx) group (healths group ctx w) !! j = Some false <->
    eligible group tried capped ctx w j e').
  { intros j e' Hj. rewrite zip_with_false. unfold eligible. naive_solver. }
  rewrite (Hel i e Hi). unfold pin_allows. destruct (sc_pin ctx) as [[p|p]|]; [done| |done].
  split; intros [He Hp]; (split; [done|]); intros (j & e' & Hj).
  - apply Hp. exists j, e'. destruct Hj as [(h & Hj & Hh & Hx) Hpr].
    split_and!; [done| |done]. apply (Hel j e' Hj). by exists h.
  - apply Hp. exists j, e'. destruct Hj as (Hj & Hx & Hpr). split; [|done]. by apply (Hel j e' Hj).
Qed.

(** What a pick returns, and when it returns nothing. *)
Definition weights_of group ctx w : list f64 :=
  compute_weights powf (sc_strategy ctx) (zip_with signal group (healths group ctx w)) (sc_latency_k ctx).

Lemma mask_lookup ex ws i x :
  mask ex ws !! i = Some x -> x <> f64_zero -> ex !! i = Some false.
Proof.
  unfold mask. intros (b & v & -> & Hb & Hv)%lookup_zip_with_Some Hx. by destruct b.
Qed.

Lemma mask_nonneg ex ws : Forall nonneg ws -> Forall nonneg (mask ex ws).
Proof.
  intros Hws. apply Forall_lookup. intros i x (b & v & -> & Hb & Hv)%lookup_zip_with_Some.
  rewrite Forall_lookup in Hws. destruct b; [done|by eapply Hws].
Qed.

Lemma pick_spec group tried capped ctx w :
  let '(_, r) := pick_with_strategy powf group tried capped ctx w in
  match r with
  | Some e => exists i, group !! i = Some e /\ final_excluded group tried capped ctx w !! i = Some false
  | None => Forall nonneg (weights_of group ctx w) ->
      forall i e, group !! i = Some e -> final_excluded group tried capped ctx w !! i <> Some false
  end.
Proof.
  destruct group as [|e0 es]; [done|]. set (group := e0 :: es).
  unfold pick_with_strategy, group at 1. fold group. rewrite !prog_bind_run.
  clearbody group. clear e0 es.
  set (w1 := (collect _ _ _).1). fold (healths group ctx w).
  set (aff := (check_affinity _ _ _ _ _).2). set (w2 := (check_affinity _ _ _ _ _).1).
  cbv zeta. fold (final_excluded group tried capped ctx w). fold (weights_of group ctx w).
  set (ex := final_excluded group tried capped ctx w).
  assert (Hzip : forall e x, (e, x) ∈ zip group ex -> x = false ->
    exists i, group !! i = Some e /\ ex !! i = Some false).
  { intros e x [i [Hi1 Hi2]%lookup_zip_Some]%list_elem_of_lookup ->. eauto. }
  destruct (aff ≫= _) as [e|] eqn:Estuck; simpl.
  { apply bind_Some in Estuck as (hit & _ & Hf). apply fmap_Some in Hf as ([e' x] & Hf & ->).
    apply first_where_Some in Hf as [Hin [Hx _]%andb_true_iff]. simpl.
    eapply Hzip; [done|]. by destruct x. }
  set (masked := mask ex (weights_of group ctx w)).
  destruct (f64_leb (f64_sum masked) f64_zero) eqn:Etot; simpl.
  { destruct (first_where _ _) as [[e x]|] eqn:Efst; simpl.
    - apply first_where_Some in Efst as [Hin Hx]. eapply Hzip; [done|]. by destruct x.
    - intros _ i e Hi Hex. apply (first_where_None _ _ (e, false)) in Efst; [done|].
      apply list_elem_of_lookup. exists i. by apply lookup_zip_Some. }
  rewrite prog_bind_run. simpl. set (pick := (env_rand_below _ _).2).
  pose proof (draw_not_below_zero pick ltac:(apply rand_nonneg)) as Hpick.
  destruct (weighted_walk pick f64_zero (zip group masked)) as [e|] eqn:Ew; simpl.
  - apply walk_nonzero in Ew as (i & v & [Hi Hv]%lookup_zip_Some & Hne); [|done].
    exists i. split; [done|]. by eapply mask_lookup.
  - intros Hnn. exfalso.
    assert (Hsum : nonneg (f64_sum masked)) by by apply f64_sum_nonneg, mask_nonneg.
    assert (Hpos : f64_ltb f64_zero (f64_sum masked) = true).
    { pose proof (f64_leb_ltb (f64_sum masked) f64_zero (nonneg_not_nan _ Hsum) ltac:(done)) as He.
      rewrite Etot in He. by destruct (f64_ltb f64_zero (f64_sum masked)). }
    pose proof (rand_below (f64_sum masked) w2 Hpos) as Hlt. fold pick in Hlt.
    assert (Hlen : length masked = length group).
    { unfold masked, mask. rewrite length_zip_with. unfold ex. rewrite final_excluded_length.
      unfold weights_of. rewrite compute_weights_length, length_zip_with, healths_length. lia. }
    destruct (walk_lands pick f64_zero (zip group masked)) as [e He]; [done| |congruence].
    rewrite snd_zip by lia. by rewrite (f64_sum_feq masked) in Hlt.
Qed.

(** One pick.  The candidate picked is never one whose breaker is open (unless its provider
    alone can read the conversation's history), whose provider was already tried, or that is at
    a cap; a request pinned to a provider only gets that provider, one that prefers a provider
    gets it while it has an eligible route.  Nothing is picked only when no candidate is
    eligible, as long as the strategy's weights are numbers.  A draw on sums of doubles never
    lands on an excluded candidate, and always lands. *)
Theorem pick_is_eligible group tried capped ctx w :
  let '(_, r) := pick_with_strategy powf group tried capped ctx w in
  match r with
  | Some e => e ∈ group /\ re_provider_id e ∉ tried /\ re_route_id e ∉ capped /\
      (exists i h, group !! i = Some e /\ healths group ctx w !! i = Some h /\
         (rh_state h = BState.Open -> exists p, sc_pin ctx = Some (Only p) /\ re_provider_id e = p)) /\
      pin_allows group tried capped ctx w e
  | None => Forall nonneg (weights_of group ctx w) ->
      forall i e, eligible group tried capped ctx w i e -> ~ pin_allows group tried capped ctx w e
  end.
Proof.
  pose proof (pick_spec group tried capped ctx w) as Hs.
  destruct (pick_with_strategy powf group tried capped ctx w) as [w' [e|]].
  - destruct Hs as (i & Hi & Hex). apply (final_excluded_false _ _ _ _ _ i e Hi) in Hex as [He Hp].
    destruct He as (h & _ & Hh & Hx). unfold is_excluded in Hx.
    apply orb_false_iff in Hx as [[Hb Ht%bool_decide_eq_false]%orb_false_iff Hc%bool_decide_eq_false].
    split_and!; [by eapply list_elem_of_lookup_2|done|done| |done].
    exists i, h. split_and!; [done|done|]. intros Hopen. rewrite Hopen in Hb. simpl in Hb.
    unfold pin_allows in Hp. unfold pinned_only in Hb. destruct (sc_pin ctx) as [[p|p]|]; try done. eauto.
  - intros Hnn i e He Hp. assert (group !! i = Some e) as Hi by by destruct He as (h & ? & _).
    apply (Hs Hnn i e Hi). by apply (final_excluded_false _ _ _ _ _ i e Hi).
Qed.
End Pick.
