(* ===== verification/Failover.v ===== *)
(** * What failover promises

    The invariant of [select_route_with_failover]'s loops ([Routing.v]), over every world that
    meets the interface's laws: where a request may be sent after what, what its answer is, and
    that the loops end. *)
From Stdlib Require Import SpecFloat.
From Stdlib Require Import Ascii.
From S2P Require Import Prelude Interfaces Sliding Float64 Effects GatewayDeps GatewayError Retry Router Sealed RouteCaps Strategy Health Routing.

Section Failover.
Context {W U Up A Ef : Type} `{UuidParse U} `{!SelectionEnv W U Up A Ef}
  {clock : W -> Z} `{!SelectionLaws clock}.
Context (powf : f64 -> f64 -> f64).
(** Admission is refused only by the gateway itself ([Caps.route_cap_admission]). *)
Context (admit_err : forall caps fc (w : W) e, (env_admit caps fc w).2 = Err e -> refused_locally e).
Abbreviation Entry := (RouteEntry U Up).
Abbreviation Sent := (sent_to (U := U) (Up := Up)).
Abbreviation Log := (list Sent).
Implicit Types (candidates : list Entry) (ctx : SelectionCtx (U := U)) (w : W) (log : Log).

(** ** Time only moves forward *)

Definition forward {X} (p : prog W X) : Prop := forall w, clock w <= clock (p w).1.

Lemma forward_ret {X} (x : X) : forward (mret x).
Proof. intros w. simpl. lia. Qed.
Lemma forward_bind {X Y} (p : prog W X) (f : X -> prog W Y) :
  forward p -> (forall x, forward (f x)) -> forward (p ≫= f).
Proof. intros Hp Hf w. rewrite prog_bind_run. specialize (Hp w). specialize (Hf (p w).2 (p w).1). lia. Qed.
Lemma forward_instant : forward env_instant.
Proof. intros w. pose proof (instant_reads w). lia. Qed.
Lemma forward_collect {X Y} (f : X -> prog W Y) l : (forall x, forward (f x)) -> forward (collect f l).
Proof.
  intros Hf w. revert w. induction l as [|x l IH]; intros w; [simpl; lia|].
  rewrite collect_cons. simpl. specialize (Hf x w). specialize (IH (f x w).1). lia.
Qed.
Lemma forward_snapshot id cfg : forward (env_snapshot (W := W) (U := U) id cfg).
Proof. intros w. apply snapshot_time. Qed.
Lemma forward_record id l e cfg : forward (env_record (W := W) (U := U) id l e cfg).
Proof. intros w. apply record_time. Qed.
Lemma forward_admit caps fc : forward (env_admit (W := W) (U := U) caps fc).
Proof. intros w. apply admit_time. Qed.
Lemma forward_get k : forward (env_get (W := W) k).
Proof. intros w. apply get_time. Qed.
Lemma forward_set k v ttl : forward (env_set (W := W) k v ttl).
Proof. intros w. apply set_time. Qed.
Lemma forward_rand t : forward (env_rand_below (W := W) t).
Proof. intros w. apply rand_time. Qed.
Lemma forward_jitter : forward (env_jitter (W := W)).
Proof. intros w. apply jitter_time. Qed.
Lemma forward_attempt e m h : forward (env_attempt (W := W) e m h).
Proof. intros w. apply attempt_time. Qed.

Create HintDb forward.
#[local] Hint Resolve forward_ret forward_bind forward_instant forward_collect forward_snapshot
  forward_record forward_admit forward_get forward_set forward_rand forward_jitter
  forward_attempt : forward.

Lemma forward_affinity u m mode (es : list Entry) : forward (check_affinity u m mode es).
Proof. unfold check_affinity. destruct mode, u; auto with forward. Qed.
Lemma forward_set_affinity u m mode (e : Entry) ttl : forward (set_affinity u m mode e ttl).
Proof.
  unfold set_affinity. destruct mode; [apply forward_ret| |];
    (destruct (ttl =? 0); [apply forward_ret|]; destruct u; auto with forward).
Qed.
#[local] Hint Resolve forward_affinity forward_set_affinity : forward.

Lemma forward_pick candidates tried capped ctx : forward (pick_with_strategy powf candidates tried capped ctx).
Proof.
  unfold pick_with_strategy. destruct candidates as [|e es]; [apply forward_ret|].
  apply forward_bind; [auto with forward|]. intros hs. apply forward_bind; [auto with forward|].
  intros aff. cbv zeta. case_match; [apply forward_ret|]. case_match; [apply forward_ret|].
  auto with forward.
Qed.

(** ** A pick under its caps *)

Definition pin_ok ctx (e : Entry) : Prop := forall p, sc_pin ctx = Some (Only p) -> re_provider_id e = p.

Lemma pick_admitted_spec n candidates tried capped ctx w :
  let '(w', (_, r)) := pick_admitted powf n candidates tried capped ctx w in
  clock w <= clock w' /\
  match r with
  | Ok (Some e) => e ∈ candidates /\ re_provider_id e ∉ tried /\ pin_ok ctx e
  | Ok None => True
  | Err e => refused_locally e
  end.
Proof.
  revert capped w. induction n as [|n IH]; intros capped w; cbn [pick_admitted]; [simpl; lia|].
  rewrite prog_bind_run.
  pose proof (pick_spec powf candidates tried (Caps.cr_routes capped) ctx w) as Hpick.
  pose proof (forward_pick candidates tried (Caps.cr_routes capped) ctx w) as Hfwd.
  destruct (pick_with_strategy _ _ _ _ _ w) as [w1 [e|]]; simpl in *; [|lia].
  destruct Hpick as (i & Hi & Hex). apply (final_excluded_false _ _ _ _ _ i e Hi) in Hex as [He Hp].
  assert (Hgood : e ∈ candidates /\ re_provider_id e ∉ tried /\ pin_ok ctx e).
  { destruct He as (h & _ & _ & Hx). unfold is_excluded in Hx.
    apply orb_false_iff in Hx as [[_ Ht%bool_decide_eq_false]%orb_false_iff _].
    split_and!; [by eapply list_elem_of_lookup_2|done|]. intros p Hpin. unfold pin_allows in Hp.
    by rewrite Hpin in Hp. }
  rewrite prog_bind_run. pose proof (admit_time (Caps.RouteCaps_of e) (sc_fail_closed ctx) w1) as Ht.
  destruct (env_admit (Caps.RouteCaps_of e) (sc_fail_closed ctx) w1) as [w2 [[|lbl secs]|err]] eqn:Eadm;
    simpl in *.
  - split; [lia|done].
  - specialize (IH (Caps.add (re_route_id e) lbl secs capped) w2).
    destruct (pick_admitted _ _ _ _ _ _ _) as [w3 [capped' r]]. destruct IH as [Hc Hr].
    split; [lia|done].
  - split; [lia|]. eapply admit_err. by rewrite Eadm.
Qed.

(** ** The log *)

Definition failed (ev : Sent) : Prop :=
  exists e, se_end ev = EndedErr e /\ is_upstream_failure e = true.
Definition to_provider (p : U) (ev : Sent) : Prop := re_provider_id (se_entry ev) = p.

(** The last time [p] was asked it failed for the moment. *)
Definition last_transient log (p : U) : Prop :=
  exists l1 ev l2 e, log = l1 ++ ev :: l2 /\ to_provider p ev /\
    (forall ev', ev' ∈ l2 -> ~ to_provider p ev') /\ se_end ev = EndedErr e /\ is_transient e = true.

(** [ev] may follow [log]: the request goes to a candidate the pin allows, only after upstream
    failures, to no provider twice in a round, and, when sent again, to a provider whose last
    failure was transient. *)
Definition may_follow candidates ctx log (ev : Sent) : Prop :=
  se_entry ev ∈ candidates /\ pin_ok ctx (se_entry ev) /\ Forall failed log /\
  (forall ev', ev' ∈ log -> se_retry ev' = se_retry ev ->
     ~ to_provider (re_provider_id (se_entry ev)) ev') /\
  (0 < se_retry ev -> last_transient log (re_provider_id (se_entry ev))).

Inductive disciplined candidates ctx : Log -> Prop :=
  | disciplined_nil : disciplined candidates ctx []
  | disciplined_snoc log ev :
      disciplined candidates ctx log -> may_follow candidates ctx log ev ->
      disciplined candidates ctx (log ++ [ev]).

Lemma last_transient_snoc log ev p :
  last_transient log p -> re_provider_id (se_entry ev) <> p -> last_transient (log ++ [ev]) p.
Proof.
  intros (l1 & ev0 & l2 & e & -> & Hp & Hl2 & He) Hne. exists l1, ev0, (l2 ++ [ev]), e.
  rewrite <- app_assoc. split_and!; [done|done| |apply He..].
  intros ev' [Hin| ->%list_elem_of_singleton]%elem_of_app; [by apply Hl2|done].
Qed.

(** ** The loop's invariant *)

(** What the last event says the answer is, should no other attempt follow. *)
Definition last_failure log : option GatewayError :=
  match last log with
  | Some ev => match se_end ev with EndedErr e => Some e | _ => None end
  | None => None
  end.

Record inv candidates ctx (st : failover (U := U) (Up := Up)) : Prop := {
  inv_log : disciplined candidates ctx (fo_log st);
  inv_failed : Forall failed (fo_log st);
  inv_transient p : p ∈ fo_transient st -> last_transient (fo_log st) p;
  inv_tried ev : ev ∈ fo_log st -> se_retry ev = retries (fo_budget st) ->
    re_provider_id (se_entry ev) ∈ fo_tried st;
  inv_retry ev : ev ∈ fo_log st -> se_retry ev <= retries (fo_budget st);
  inv_again e : 0 < retries (fo_budget st) -> e ∈ candidates -> re_provider_id e ∉ fo_tried st ->
    re_provider_id e ∈ fo_transient st;
  inv_zero : 0 <= retries (fo_budget st);
  inv_last : fo_last_error st = last_failure (fo_log st);
}.

Lemma inv_may_follow candidates ctx st e end_ :
  inv candidates ctx st -> e ∈ candidates -> re_provider_id e ∉ fo_tried st -> pin_ok ctx e ->
  may_follow candidates ctx (fo_log st)
    {| se_retry := retries (fo_budget st); se_entry := e; se_end := end_ |}.
Proof.
  intros Hinv He Ht Hp. split_and!; [done|done|apply Hinv| |]; simpl.
  - intros ev' Hin Hr Hto. apply Ht. rewrite <- Hto. by eapply inv_tried.
  - intros Hr. eapply inv_transient; [done|]. by eapply inv_again.
Qed.

(** After a failed attempt the invariant holds again. *)
Lemma inv_step candidates ctx st e err capped took :
  inv candidates ctx st -> e ∈ candidates -> re_provider_id e ∉ fo_tried st -> pin_ok ctx e ->
  is_upstream_failure err = true ->
  inv candidates ctx
    {| fo_last_error := Some err; fo_tried := fo_tried st ++ [re_provider_id e]; fo_capped := capped;
       fo_transient := filter (fun p => p <> re_provider_id e) (fo_transient st) ++
                       (if is_transient err then [re_provider_id e] else []);
       fo_last_took := took; fo_budget := fo_budget st;
       fo_log := fo_log st ++ [{| se_retry := retries (fo_budget st); se_entry := e;
                                  se_end := EndedErr err |}] |}.
Proof.
  intros Hinv He Ht Hp Hf. set (ev := {| se_retry := _; se_entry := e; se_end := _ |}).
  split; cbn [fo_log fo_transient fo_budget fo_tried fo_last_error].
  - apply disciplined_snoc; [apply Hinv|]. by apply inv_may_follow.
  - apply Forall_app. split; [apply Hinv|]. repeat constructor. by exists err.
  - intros p [[Hne Hin]%list_elem_of_filter|Hin]%elem_of_app.
    + apply last_transient_snoc; [by eapply inv_transient|done].
    + destruct (is_transient err) eqn:Et; [|by apply elem_of_nil in Hin].
      apply list_elem_of_singleton in Hin as ->.
      exists (fo_log st), ev, [], err. split_and!; try done. intros ev' Hin. by apply elem_of_nil in Hin.
  - intros ev' [Hin| ->%list_elem_of_singleton]%elem_of_app Hr.
    + apply elem_of_app. left. by eapply inv_tried.
    + apply elem_of_app. right. by apply list_elem_of_singleton.
  - intros ev' [Hin| ->%list_elem_of_singleton]%elem_of_app; [by eapply inv_retry|simpl; lia].
  - intros e' Hr He' Hn. rewrite elem_of_app, list_elem_of_singleton in Hn.
    apply elem_of_app. left. apply list_elem_of_filter. split; [naive_solver|].
    apply (inv_again _ _ _ Hinv); [done|done|naive_solver].
  - apply Hinv.
  - unfold last_failure. by rewrite last_snoc.
Qed.

(** A new round starts from the providers that failed for the moment. *)
Lemma inv_next candidates ctx st : inv candidates ctx st -> inv candidates ctx (next_round candidates st).
Proof.
  intros Hinv. split; simpl; try apply Hinv.
  - intros ev Hin Hr. pose proof (inv_retry _ _ _ Hinv ev Hin) as Hle.
    unfold sent, retries in *. simpl in *. lia.
  - intros ev Hin. pose proof (inv_retry _ _ _ Hinv ev Hin) as Hle.
    unfold sent, retries in *. simpl in *. lia.
  - intros e _ He Hn. destruct (decide (re_provider_id e ∈ fo_transient st)); [done|].
    destruct Hn. apply list_elem_of_filter. split; [done|]. by apply list_elem_of_fmap_2.
  - pose proof (inv_zero _ _ _ Hinv). unfold sent, retries in *. simpl. lia.
Qed.

(** ** The answer *)

(** What a refused or failed request is told: the last attempt's failure, or the gateway's own
    refusal; a timeout only when nothing failed before it. *)
Definition told (model : string) log (e : GatewayError) : Prop :=
  match last log with
  | None => refused_locally e \/ e = all_failed model
  | Some ev =>
      match se_end ev with
      | EndedErr e' => e = e' \/ refused_locally e
      | EndedTimeout =>
          e = timeout_error (se_entry ev) \/ exists ev', ev' ∈ log /\ se_end ev' = EndedErr e
      | EndedOk => False
      end
  end.

Lemma last_failure_elem log e : last_failure log = Some e -> exists ev, ev ∈ log /\ se_end ev = EndedErr e.
Proof.
  unfold last_failure. destruct (last log) as [ev|] eqn:El; [|done].
  destruct (se_end ev) eqn:Ee; try done. intros [= ->]. exists ev. split; [|done].
  by apply last_Some_elem_of.
Qed.

Lemma refused_told model candidates ctx st e :
  inv candidates ctx st -> refused_locally e -> told model (fo_log st) e.
Proof.
  intros Hinv He. unfold told. destruct (last (fo_log st)) as [ev|] eqn:El; [|by left].
  apply last_Some_elem_of in El. pose proof (inv_failed _ _ _ Hinv) as Hf.
  rewrite Forall_forall in Hf. destruct (Hf ev El) as (e' & -> & _). by right.
Qed.

Lemma final_error_told candidates ctx st :
  inv candidates ctx st -> told (sc_model_id ctx) (fo_log st) (final_error ctx st).
Proof.
  intros Hinv. unfold told, final_error. rewrite (inv_last _ _ _ Hinv). unfold last_failure.
  destruct (last (fo_log st)) as [ev|] eqn:El.
  - apply last_Some_elem_of in El. pose proof (inv_failed _ _ _ Hinv) as Hf.
    rewrite Forall_forall in Hf. destruct (Hf ev El) as (e' & -> & _). by left.
  - destruct (Caps.refusal (fo_capped st)) as [e|] eqn:Er; simpl; [|by right].
    left. by eapply Caps.refusal_local.
Qed.

Definition round_ok candidates ctx (b : Budget) (r : round_end (U := U) (Up := Up) (A := A) (Ef := Ef)) : Prop :=
  match r with
  | RoundAnswered e a rec log =>
      disciplined candidates ctx log /\ exists l ev, log = l ++ [ev] /\ se_end ev = EndedOk /\
        se_entry ev = e /\ Forall failed l /\ sr_retries rec = se_retry ev /\
        sr_picked_route_id rec = re_route_id e
  | RoundRefused e log => disciplined candidates ctx log /\ told (sc_model_id ctx) log e
  | RoundExhausted _ st => inv candidates ctx st /\ fo_budget st = b
  end.

Lemma ended_disciplined candidates ctx st e end_ :
  inv candidates ctx st -> e ∈ candidates -> re_provider_id e ∉ fo_tried st -> pin_ok ctx e ->
  disciplined candidates ctx (fo_log st ++
    [{| se_retry := retries (fo_budget st); se_entry := e; se_end := end_ |}]).
Proof. intros Hinv ???. apply disciplined_snoc; [apply Hinv|by apply inv_may_follow]. Qed.

Lemma inv_capped candidates ctx st capped :
  inv candidates ctx st ->
  inv candidates ctx
    {| fo_last_error := fo_last_error st; fo_tried := fo_tried st; fo_capped := capped;
       fo_transient := fo_transient st; fo_last_took := fo_last_took st;
       fo_budget := fo_budget st; fo_log := fo_log st |}.
Proof. intros []. by split. Qed.

Lemma round_spec n candidates ctx model started attempted st w :
  inv candidates ctx st ->
  let '(w', r) := failover_round powf n candidates ctx model started attempted st w in
  clock w <= clock w' /\ round_ok candidates ctx (fo_budget st) r.
Proof.
  revert attempted st w. induction n as [|n IH]; intros attempted st w Hinv; cbn [failover_round].
  { simpl. split; [lia|]. done. }
  rewrite prog_bind_run.
  pose proof (pick_admitted_spec (length candidates) candidates (fo_tried st) (fo_capped st) ctx w) as Hp.
  destruct (pick_admitted _ _ _ _ _ _ _) as [w1 [capped [[e|]|err]]]; destruct Hp as [Hc1 Hp]; simpl.
  2: { split; [lia|]. split; [by apply inv_capped|done]. }
  2: { split; [lia|]. split; [apply Hinv|by eapply refused_told]. }
  destruct Hp as (He & Ht & Hpin).
  rewrite prog_bind_run. pose proof (forward_instant w1) as Hc2. set (w2 := (env_instant w1).1) in *.
  rewrite prog_bind_run. pose proof (attempt_time e (default model (re_upstream_model e))
    (hard_deadline (fo_budget st)) w2) as Hc3.
  destruct (env_attempt _ _ _ w2) as [w3 result]; simpl in Hc3 |- *.
  rewrite prog_bind_run. pose proof (forward_instant w3) as Hc4. set (w4 := (env_instant w3).1) in *.
  set (took := _ - _).
  destruct result as [[[answer effort]|err]|]; rewrite ?prog_bind_run; simpl.
  - pose proof (forward_set_affinity (sc_user_id ctx) (sc_model_id ctx) (sc_affinity_mode ctx) e
      (sc_affinity_ttl_secs ctx) w4) as Hc5.
    split; [lia|]. split; [by apply ended_disciplined|].
    eexists _, _. split; [reflexivity|]. split_and!; try done. apply Hinv.
  - destruct (is_upstream_failure err) eqn:Ef0.
    + rewrite prog_bind_run. pose proof (record_time (re_route_id e) (as_latency_ms took) true (sc_breaker ctx) w4) as Hc5.
      set (w5 := (env_record _ _ _ _ w4).1) in *. set (st' := {| fo_last_error := Some err |}).
      assert (Hinv' : inv candidates ctx st') by by apply inv_step.
      specialize (IH true st' w5 Hinv').
      destruct (failover_round _ _ _ _ _ _ _ _ _) as [w6 r]. destruct IH as [Hc6 Hr].
      split; [lia|exact Hr].
    + rewrite prog_bind_run. split.
      * destruct (refused_with_an_answer err); simpl; [|lia].
        pose proof (record_time (re_route_id e) (as_latency_ms took) false (sc_breaker ctx) w4). lia.
      * split; [by apply ended_disciplined|]. unfold told. rewrite last_snoc. by left.
  - pose proof (record_time (re_route_id e) (as_latency_ms took) true (sc_breaker ctx) w4) as Hc5.
    split; [lia|]. split; [by apply ended_disciplined|]. unfold told. rewrite last_snoc. simpl.
    rewrite (inv_last _ _ _ Hinv). destruct (last_failure (fo_log st)) as [err|] eqn:El; simpl; [|by left].
    right. apply last_failure_elem in El as (ev & Hev & Hend). exists ev. split; [set_solver|done].
Qed.

(** ** Rounds *)

Lemma next_wait_spec attempted (st : failover (U := U) (Up := Up)) w :
  let '(w', r) := next_wait attempted st w in
  clock w <= clock w' /\
  match r with
  | Some wait => MIN_SAID_WAIT <= wait /\
      exists now d, clock w <= now <= clock w' /\ bud_deadline (fo_budget st) = Some d /\ now + wait <= d
  | None => True
  end.
Proof.
  unfold next_wait. destruct (fo_last_error st) as [e|]; [|simpl; lia].
  destruct (_ && is_transient e); [|simpl; lia].
  rewrite !prog_bind_run. pose proof (jitter_in_range w) as Hj. pose proof (forward_jitter w) as Hc1.
  set (w1 := (env_jitter w).1) in *. pose proof (instant_reads w1) as Hi. simpl.
  split; [lia|].
  destruct (wait_after_taking _ _ _ _ _) as [wt|] eqn:Ew; [|done].
  apply granted_min in Ew as [Hmin (d & Hd & Hle)]; [|done].
  split; [done|]. exists (env_instant w1).2, d. split; [lia|done].
Qed.

Definition outcome_ok candidates ctx
    (r : result GatewayError (answered (U := U) (Up := Up) (A := A) (Ef := Ef)) * Log) : Prop :=
  disciplined candidates ctx r.2 /\
  match r.1 with
  | Ok (e, a, rec) => exists l ev, r.2 = l ++ [ev] /\ se_end ev = EndedOk /\ se_entry ev = e /\
      Forall failed l /\ sr_retries rec = se_retry ev /\ sr_picked_route_id rec = re_route_id e
  | Err e => told (sc_model_id ctx) r.2 e
  end.

Lemma rounds_spec fuel candidates ctx model started st w :
  inv candidates ctx st ->
  match (failover_rounds powf fuel candidates ctx model started st w).2 with
  | Some r => outcome_ok candidates ctx r
  | None => True
  end.
Proof.
  revert st w. induction fuel as [|fuel IH]; intros st w Hinv; cbn [failover_rounds]; [done|].
  rewrite prog_bind_run.
  pose proof (round_spec (length candidates) candidates ctx model started false st w Hinv) as Hr.
  destruct (failover_round _ _ _ _ _ _ _ _ _) as [w1 [e a rec log|e log|at_ st1]]; destruct Hr as [_ Hr]; simpl.
  - done.
  - done.
  - destruct Hr as [Hinv1 _]. rewrite prog_bind_run.
    destruct (next_wait at_ st1 w1) as [w2 [wt|]]; simpl.
    + rewrite prog_bind_run. apply IH. by apply inv_next.
    + split; [apply Hinv1|]. by eapply final_error_told.
Qed.

Lemma rounds_total fuel candidates ctx model started st w :
  inv candidates ctx st -> (0 < fuel)%nat ->
  (forall d, bud_deadline (fo_budget st) = Some d -> d - clock w < MIN_SAID_WAIT * Z.of_nat fuel) ->
  is_Some (failover_rounds powf fuel candidates ctx model started st w).2.
Proof.
  revert st w. induction fuel as [|fuel IH]; intros st w Hinv Hf Hd; [lia|]. cbn [failover_rounds].
  rewrite prog_bind_run.
  pose proof (round_spec (length candidates) candidates ctx model started false st w Hinv) as Hr.
  destruct (failover_round _ _ _ _ _ _ _ _ _) as [w1 [e a rec log|e log|at_ st1]];
    destruct Hr as [Hc1 Hr]; simpl; [by eexists..|].
  destruct Hr as [Hinv1 Hb]. rewrite prog_bind_run. pose proof (next_wait_spec at_ st1 w1) as Hw.
  destruct (next_wait at_ st1 w1) as [w2 [wt|]]; simpl; [|by eexists].
  destruct Hw as (Hc2 & Hmin & now & d & Hnow & Hdl & Hle). rewrite Hb in Hdl. specialize (Hd d Hdl).
  pose proof (sleep_waits wt w2) as Hs. rewrite prog_bind_run.
  assert (HM : MIN_SAID_WAIT = 250000000) by done. rewrite HM in *.
  apply IH; [by apply inv_next|nia|].
  intros d'. simpl. rewrite Hb, Hdl. intros [= <-]. nia.
Qed.

Lemma inv_init candidates ctx budget :
  retries budget = 0 -> inv candidates ctx (failover_init budget).
Proof.
  intros Hb. split; simpl; rewrite ?Hb; try done; try constructor.
  all: try (intros; by match goal with H : _ ∈ [] |- _ => apply elem_of_nil in H end). all: lia.
Qed.
End Failover.

(** ** The contract *)

Section Contract.
Context {W U Up A Ef : Type} `{UuidParse U} `{!SelectionEnv W U Up A Ef}
  {clock : W -> Z} `{!SelectionLaws clock}.
Context (powf : f64 -> f64 -> f64).

(** Fuel for every round a deadline leaves room for: a round every 250 ms. *)
Definition enough (fuel : nat) (budget : Budget) (w : W) : Prop :=
  (0 < fuel)%nat /\
  forall d, bud_deadline budget = Some d -> d - clock w < MIN_SAID_WAIT * Z.of_nat fuel.

Lemma select_spec fuel (routes : list (RouteEntry U Up)) ctx model budget w :
  (forall caps fc (w : W) e, (env_admit caps fc w).2 = Err e -> refused_locally e) ->
  retries budget = 0 -> enough fuel budget w ->
  exists w' r, select_route_with_failover powf fuel routes ctx model budget w = (w', Some r) /\
    outcome_ok routes ctx r.
Proof.
  intros Hadm Hb [Hf Hd]. unfold select_route_with_failover. rewrite prog_bind_run.
  pose proof (inv_init routes ctx budget Hb) as Hinv. pose proof (instant_reads w) as Hc.
  set (w1 := (env_instant w).1) in *.
  pose proof (rounds_spec powf Hadm fuel routes ctx model (env_instant w).2 _ w1 Hinv) as Hr.
  destruct (rounds_total powf Hadm fuel routes ctx model (env_instant w).2 (failover_init budget) w1)
    as [r Hs]; [done|done|intros d Hd'; specialize (Hd d Hd'); simpl in *; lia|].
  rewrite Hs in Hr. destruct (failover_rounds _ _ _ _ _ _ _ _) as [w' o]. simpl in Hs, Hr. subst o.
  by exists w', r.
Qed.

(** C10: A buffered request always ends, with the retries its deadline allows, and is sent only
    where it may go: to its own candidates, to nobody but the pinned provider when the pin is
    strict, onward only after upstream failures (a refusal of the request itself ends it), to
    no provider twice in a round, and, sent again after a wait, only to a provider whose last
    failure was transient.  An answer is the last attempt's; an error is the last failure, the
    gateway's own refusal, or, cut at the hard deadline, an earlier failure or a timeout. *)
Theorem failover_disciplined fuel (routes : list (RouteEntry U Up)) ctx model budget w :
  (forall caps fc (w : W) e, (env_admit caps fc w).2 = Err e -> refused_locally e) ->
  retries budget = 0 -> enough fuel budget w ->
  exists w' r log, select_route_with_failover powf fuel routes ctx model budget w = (w', Some (r, log)) /\
    disciplined routes ctx log /\
    (forall l ev l', log = l ++ ev :: l' -> se_entry ev ∈ routes /\ pin_ok ctx (se_entry ev) /\
       Forall failed l /\ (0 < se_retry ev -> last_transient l (re_provider_id (se_entry ev))) /\
       forall ev', ev' ∈ l -> se_retry ev' = se_retry ev ->
         re_provider_id (se_entry ev') <> re_provider_id (se_entry ev)) /\
    match r with
    | Ok (e, _, rec) => exists l ev, log = l ++ [ev] /\ se_end ev = EndedOk /\ se_entry ev = e /\
        sr_retries rec = se_retry ev /\ sr_picked_route_id rec = re_route_id e
    | Err e => told (sc_model_id ctx) log e
    end.
Proof.
  intros Hadm Hb Hen. destruct (select_spec fuel routes ctx model budget w Hadm Hb Hen)
    as (w' & [r log] & Heq & Hd & Hr). simpl in Hd, Hr.
  exists w', r, log. split; [done|]. split; [done|]. split.
  - clear -Hd. induction Hd as [|log ev0 Hd IH Hm]; intros l ev l' Heq; [by destruct l|].
    destruct l' as [|ev1 l' _] using rev_ind.
    + apply app_inj_tail in Heq as [-> ->].
      destruct Hm as (? & ? & ? & Hn & ?). split_and!; try done.
    + rewrite app_comm_cons, app_assoc in Heq. apply app_inj_tail in Heq as [-> _]. by eapply IH.
  - destruct r as [[[e a] rec]|e]; [|done]. destruct Hr as (l & ev & ? & ? & ? & _ & ? & ?). eauto 10.
Qed.

(** A stream is sent to one route, picked like any other: one of its candidates, allowed by
    the pin.  Without one it is refused by the gateway itself, or told there is none.  After a
    transient failure it goes out again only while its route's breaker is not open (or its
    provider alone can read the history) and the route is under its caps, and the attempt
    that failed is then on the route's record and the retry counted. *)
Theorem stream_selection (routes : list (RouteEntry U Up)) ctx w (r : Resend (U := U)) failed_ms w0 :
  (forall caps fc (w : W) e, (env_admit caps fc w).2 = Err e -> refused_locally e) ->
  match (select_route_for_stream powf routes ctx w).2 with
  | Ok (e, rec) => e ∈ routes /\ pin_ok ctx e /\ sr_picked_route_id rec = re_route_id e /\ sr_retries rec = 0
  | Err e => refused_locally e \/ e = no_provider (sc_model_id ctx)
  end /\
  let '(_, (r', go)) := resend_admit failed_ms r w0 in
  (go = true -> (rh_state (env_snapshot (rs_route_id r) (rs_breaker r) w0).2 = BState.Open ->
                   rs_pinned_only r = true) /\
     (exists w1, (env_admit (rs_caps r) (rs_fail_closed r) w1).2 = Ok Caps.WasAdmitted) /\
     retries (rs_budget r') = retries (rs_budget r) + 1) /\
  (go = false -> r' = r).
Proof.
  intros Hadm. split.
  - unfold select_route_for_stream. rewrite !prog_bind_run.
    pose proof (pick_admitted_spec powf Hadm (length routes) routes [] Caps.CappedRoutes_default ctx
      (env_instant w).1) as Hp.
    destruct (pick_admitted _ _ _ _ _ _ _) as [w1 [capped [[e|]|err]]]; destruct Hp as [_ Hp]; simpl.
    + destruct Hp as (? & _ & ?). done.
    + destruct (Caps.refusal capped) as [e|] eqn:Er; simpl; [left; by eapply Caps.refusal_local|by right].
    + by left.
  - unfold resend_admit. rewrite prog_bind_run. set (h := (env_snapshot _ _ w0).2).
    destruct (bool_decide (rh_state h = BState.Open) && negb (rs_pinned_only r)) eqn:Eb; [done|].
    rewrite prog_bind_run. set (w1 := (env_snapshot _ _ w0).1).
    destruct (env_admit (rs_caps r) (rs_fail_closed r) w1) as [w2 [[|]|]] eqn:Ea; simpl; try done.
    rewrite prog_bind_run. simpl. split; [|done]. intros _. split_and!.
    + intros Ho. rewrite bool_decide_eq_true_2 in Eb by done. by destruct (rs_pinned_only r).
    + exists w1. by rewrite Ea.
    + done.
Qed.
End Contract.

(** ** Witness: two routes, a bad minute, and an answer on the second round *)

(** The clock and the number of attempts so far. *)
Definition demo_world : Type := Z * nat.

#[export] Instance failover_demo_env : SelectionEnv demo_world demo_uuid unit unit unit := {|
  env_snapshot _ _ w := (w, RouteHealth_default);
  env_record _ _ _ _ w := (w, tt);
  env_admit _ _ w := (w, Ok Caps.WasAdmitted);
  env_get _ w := (w, None);
  env_set _ _ _ w := (w, tt);
  env_del _ w := (w, tt);
  env_rand_below _ w := (w, f64_zero);
  env_jitter w := (w, f64_one);
  env_instant w := (w, w.1);
  env_sleep d w := ((w.1 + Z.max d 0, w.2), tt);
  env_attempt _ _ _ w :=
    ((w.1 + sec, S w.2),
     Some (if (w.2 <? 2)%nat then Err (ProviderHttpError 503 "down" None) else Ok (tt, None))) |}.

#[export] Instance failover_demo_laws : SelectionLaws (fst : demo_world -> Z).
Proof. split; intros; simpl; try done; unfold sec; lia. Qed.

Definition demo_route (p : demo_uuid) (weight : Z) : RouteEntry demo_uuid unit :=
  {| re_upstream := tt; re_provider_id := p; re_route_id := p; re_provider_name := "p";
     re_upstream_model := None; re_weight := weight; re_label := None; re_rpm_cap := None;
     re_tpm_cap := None; re_protocol := Protocol.OpenAiChat; re_alternates := [] |}.

Definition demo_ctx : SelectionCtx (U := demo_uuid) :=
  {| sc_model_id := "m"; sc_user_id := None; sc_strategy := RoutingStrategy.Weighted;
     sc_affinity_mode := AffinityMode.NoAffinity; sc_affinity_ttl_secs := 0; sc_latency_k := f64_one;
     sc_breaker := demo_cfg; sc_fail_closed := false; sc_pin := None |}.

Definition demo_routes : list (RouteEntry demo_uuid unit) := [demo_route UAlice 1; demo_route UKey1 3].

Definition demo_selection : demo_world * option _ :=
  select_route_with_failover (fun x _ => x) 200 demo_routes demo_ctx "m" (Budget_new 0 (30 * sec)) (0, 0%nat).

(** Three attempts: both routes, then, two seconds later, the first again. *)
Example demo_selection_log :
  option_map (fun r => map (fun ev => (se_retry ev, re_provider_id (se_entry ev))) r.2) demo_selection.2 =
    Some [(0, UAlice); (0, UKey1); (1, UAlice)].
Proof. by vm_compute. Qed.

Lemma demo_admit_err caps fc (w : demo_world) e :
  (env_admit (U := demo_uuid) caps fc w).2 = Err e -> refused_locally e.
Proof. done. Qed.

Lemma demo_enough : enough (clock := fst) 200 (Budget_new 0 (30 * sec)) ((0, 0%nat) : demo_world).
Proof.
  split; [lia|]. intros d Hd. vm_compute in Hd. injection Hd as <-. by vm_compute.
Qed.

Lemma failover_disciplined_witness :
  exists w' r log, demo_selection = (w', Some (r, log)) /\ disciplined demo_routes demo_ctx log.
Proof.
  destruct (failover_disciplined (fun x _ => x) 200 demo_routes demo_ctx "m" (Budget_new 0 (30 * sec))
    (0, 0%nat) demo_admit_err eq_refl demo_enough) as (w' & r & log & Heq & Hd & _).
  exists w', r, log. exact (conj Heq Hd).
Defined.

Definition demo_resend : Resend (U := demo_uuid) := Resend_new (demo_route UAlice 1) demo_ctx (Budget_new 0 sec).

Lemma stream_selection_witness :
  exists rec, (select_route_for_stream (fun x _ => x) demo_routes demo_ctx ((0, 0%nat) : demo_world)).2 =
    Ok (demo_route UAlice 1, rec) /\ demo_route UAlice 1 ∈ demo_routes.
Proof.
  pose proof (proj1 (stream_selection (fun x _ => x) demo_routes demo_ctx (0, 0%nat) demo_resend 5
    ((0, 0%nat) : demo_world) demo_admit_err)) as Hs.
  eexists. split; [reflexivity|]. exact (proj1 Hs).
Defined.

Lemma pick_is_eligible_witness :
  exists e, (pick_with_strategy (fun x _ => x) demo_routes [UAlice] [] demo_ctx ((0, 0%nat) : demo_world)).2
    = Some e /\ re_provider_id e ∉ [UAlice].
Proof.
  pose proof (pick_is_eligible (fun x _ => x) demo_routes [UAlice] [] demo_ctx ((0, 0%nat) : demo_world)) as Hp.
  destruct (pick_with_strategy _ _ _ _ _ _) as [w1 o] eqn:Eo.
  assert (exists e, o = Some e) as [e ->].
  { apply (f_equal snd) in Eo. simpl in Eo. rewrite <- Eo. vm_compute. by eexists. }
  exists e. exact (conj eq_refl (proj1 (proj2 Hp))).
Defined.

(** * Failover ends

    How many rounds a deadline leaves room for, and how many times a request is sent at most. *)

Section Ends.
Context {W U Up A Ef : Type} `{UuidParse U} `{!SelectionEnv W U Up A Ef}
  {clock : W -> Z} `{!SelectionLaws clock}.
Context (powf : f64 -> f64 -> f64).
Implicit Types (candidates routes : list (RouteEntry U Up)) (w : W).

Definition round_log (r : round_end (U := U) (Up := Up) (A := A) (Ef := Ef)) : list (sent_to (U := U) (Up := Up)) :=
  match r with
  | RoundAnswered _ _ _ log | RoundRefused _ log => log
  | RoundExhausted _ st => fo_log st
  end.

(** A round sends the request to each of [n] candidates at most once. *)
Lemma round_sends n candidates ctx model started attempted st w :
  (length (round_log (failover_round powf n candidates ctx model started attempted st w).2) <= length (fo_log st) + n)%nat.
Proof.
  revert attempted st w. induction n as [|n IH]; intros attempted st w; cbn [failover_round]; [simpl; lia|].
  rewrite prog_bind_run. destruct (pick_admitted _ _ _ _ _ _ _) as [w1 [capped [[e|]|err]]]; simpl; [|lia..].
  rewrite !prog_bind_run. destruct (env_attempt _ _ _ _) as [w3 result]. simpl. rewrite ?prog_bind_run. simpl.
  destruct result as [[[answer effort]|err]|]; [| |]; cycle 1.
  - destruct (is_upstream_failure err); rewrite ?prog_bind_run; simpl.
    + etransitivity; [apply IH|]. simpl. rewrite length_app. simpl. lia.
    + rewrite length_app. simpl. lia.
  - rewrite ?prog_bind_run. simpl. rewrite length_app. simpl. lia.
  - rewrite ?prog_bind_run. simpl. rewrite length_app. simpl. lia.
Qed.

Lemma rounds_send fuel candidates ctx model started st w r log :
  (failover_rounds powf fuel candidates ctx model started st w).2 = Some (r, log) ->
  (length log <= length (fo_log st) + fuel * length candidates)%nat.
Proof.
  revert st w. induction fuel as [|fuel IH]; intros st w; cbn [failover_rounds]; [done|]. rewrite prog_bind_run.
  pose proof (round_sends (length candidates) candidates ctx model started false st w) as Hr.
  destruct (failover_round _ _ _ _ _ _ _ _ _) as [w1 [e a rec l|e l|at_ st1]]; simpl in *; [intros [= <- <-]; lia..|].
  rewrite prog_bind_run. destruct (next_wait at_ st1 w1) as [w2 [wt|]]; simpl; [|intros [= <- <-]; lia].
  rewrite prog_bind_run. intros Hlog. apply IH in Hlog. simpl in Hlog. lia.
Qed.

(** Fuel that is enough gives what any more gives. *)
Lemma rounds_fuel fuel fuel' candidates ctx model started st w : (fuel <= fuel')%nat ->
  is_Some (failover_rounds powf fuel candidates ctx model started st w).2 ->
  failover_rounds powf fuel' candidates ctx model started st w = failover_rounds powf fuel candidates ctx model started st w.
Proof.
  revert fuel' st w. induction fuel as [|fuel IH]; intros fuel' st w Hle; [by intros []|]. destruct fuel' as [|fuel']; [lia|].
  cbn [failover_rounds]. rewrite !prog_bind_run.
  destruct (failover_round _ _ _ _ _ _ _ _ _) as [w1 [e a rec l|e l|at_ st1]]; simpl; [done..|]. rewrite !prog_bind_run.
  destruct (next_wait at_ st1 w1) as [w2 [wt|]]; simpl; [|done]. rewrite !prog_bind_run. apply IH. lia.
Qed.

(** The rounds a budget leaves room for: one, and one more every 250 ms until its deadline. *)
Definition rounds_left (budget : Budget) w : nat :=
  match bud_deadline budget with
  | None => 1
  | Some d => S (Z.to_nat ((d - clock w) / MIN_SAID_WAIT))
  end.

Lemma rounds_left_enough budget w : enough (clock := clock) (rounds_left budget w) budget w.
Proof.
  unfold enough, rounds_left. split; [destruct (bud_deadline _); lia|]. intros d ->.
  assert (HM : MIN_SAID_WAIT = 250000000) by done. rewrite HM.
  pose proof (Z.div_mod (d - clock w) 250000000 ltac:(lia)). pose proof (Z.mod_pos_bound (d - clock w) 250000000 ltac:(lia)). lia.
Qed.

(** The two loops of a buffered request end, however its attempts go and whatever waits their
    errors ask for, provided each attempt itself ends: in at most one round for every 250 ms its
    deadline leaves, and one without a deadline; it is sent at most once per candidate and round;
    and running the loops any longer changes nothing. *)
Theorem failover_ends (routes : list (RouteEntry U Up)) ctx model budget w :
  (forall caps fc w e, (env_admit caps fc w).2 = Err e -> refused_locally e) -> retries budget = 0 ->
  let n := rounds_left budget w in
  exists w' r log, (length log <= n * length routes)%nat /\
    forall fuel, (n <= fuel)%nat -> select_route_with_failover powf fuel routes ctx model budget w = (w', Some (r, log)).
Proof.
  intros Hadm Hb n.
  destruct (select_spec powf n routes ctx model budget w Hadm Hb (rounds_left_enough budget w)) as (w' & [r log] & E & _).
  exists w', r, log. unfold select_route_with_failover in *. rewrite prog_bind_run in E. split.
  - pose proof (rounds_send n routes ctx model (env_instant w).2 (failover_init budget) (env_instant w).1 r log) as Hl.
    rewrite E in Hl. exact (Hl eq_refl).
  - intros fuel Hf. rewrite prog_bind_run. rewrite <- E. apply rounds_fuel; [done|]. rewrite E. by eexists.
Qed.
End Ends.

(** Two routes and half a minute: at most 121 rounds and 242 sends; it takes three. *)
Lemma failover_ends_witness :
  exists w' r log, (length log <= 242)%nat /\
    forall fuel, (121 <= fuel)%nat ->
      select_route_with_failover (fun x _ => x) fuel demo_routes demo_ctx "m" (Budget_new 0 (30 * sec)) (0, 0%nat) = (w', Some (r, log)).
Proof.
  exact (failover_ends (clock := fst) (fun x _ => x) demo_routes demo_ctx "m" (Budget_new 0 (30 * sec)) (0, 0%nat) demo_admit_err eq_refl).
Defined.

(** * The components behind the selection

    The interface [SelectionEnv] that failover is proved against, implemented by the modelled
    components: the health tracker over its Redis stores, the route caps over the limiter's
    store, the affinity keys over text keys.  Left as arguments are the network ([net], how each
    call to Redis ends), the other replicas ([others]), the draws, and the upstream. *)

Section Gateway.
Context {B : Type} `{TwBreaker B} `{NumText}.
Context {Zs Ts Hs St : Type} `{RedisZset Zs} `{RedisText Ts} `{Redis Hs} `{Redis St}.
Context {U : Type} `{UuidParse U} {Up A Ef : Type}.

(** [gw_clock] in nanoseconds; [gw_calls] numbers the calls to Redis and the draws. *)
Record gateway := {
  gw_health : hstores Zs Ts Hs;
  gw_limits : St;
  gw_keys : Ts;
  gw_clock : Z;
  gw_calls : nat;
}.

Context (net : nat -> link) (others : nat -> hstores Zs Ts Hs -> hstores Zs Ts Hs).
Context (wall_ms : Z -> Z) (draw : nat -> f64 -> f64) (jitter : nat -> f64).
Context (upstream : RouteEntry U Up -> string -> option Z ->
                    prog gateway (option (result GatewayError (A * option Ef)))).

Definition gw_with_health (h : hstores Zs Ts Hs) (w : gateway) : gateway :=
  {| gw_health := h; gw_limits := gw_limits w; gw_keys := gw_keys w; gw_clock := gw_clock w;
     gw_calls := S (gw_calls w) |}.
Definition gw_with_limits (s : St) (w : gateway) : gateway :=
  {| gw_health := gw_health w; gw_limits := s; gw_keys := gw_keys w; gw_clock := gw_clock w;
     gw_calls := S (gw_calls w) |}.
Definition gw_with_keys (t : Ts) (w : gateway) : gateway :=
  {| gw_health := gw_health w; gw_limits := gw_limits w; gw_keys := t; gw_clock := gw_clock w;
     gw_calls := S (gw_calls w) |}.
Definition gw_at (t : Z) (w : gateway) : gateway :=
  {| gw_health := gw_health w; gw_limits := gw_limits w; gw_keys := gw_keys w; gw_clock := t;
     gw_calls := S (gw_calls w) |}.

(** Whether this call to Redis comes back. *)
Definition gw_up (w : gateway) : bool := match net (gw_calls w) with LinkOk => true | _ => false end.

#[export] Instance gateway_env : SelectionEnv gateway U Up A Ef := {|
  env_snapshot id cfg w :=
    (gw_with_health (gw_health w) w,
     snapshot (B := B) (gw_up w) (gw_up w) (gw_up w) id cfg (wall_ms (gw_clock w)) (gw_health w));
  env_record id lat err cfg w :=
    (gw_with_health
       (record_health (B := B) (net (gw_calls w)) (net (S (gw_calls w))) (others (gw_calls w)) id
          (Z.of_nat (gw_calls w)) lat err cfg (wall_ms (gw_clock w)) (gw_health w)).1 w, tt);
  env_admit caps fail_closed w :=
    let '(s, r) := Caps.admit_at (net (gw_calls w)) caps fail_closed (wall_ms (gw_clock w)) (gw_limits w) in
    (gw_with_limits s w, r);
  env_get k w := (gw_with_keys (gw_keys w) w, if gw_up w then tget k (gw_keys w) else None);
  env_set k v ttl w := (gw_with_keys (if gw_up w then tset k v ttl (gw_keys w) else gw_keys w) w, tt);
  env_del k w := (gw_with_keys (if gw_up w then tdel k (gw_keys w) else gw_keys w) w, tt);
  env_rand_below total w := (gw_with_health (gw_health w) w, draw (gw_calls w) total);
  env_jitter w := (gw_with_health (gw_health w) w, jitter (gw_calls w));
  env_instant w := (w, gw_clock w);
  env_sleep d w := (gw_at (gw_clock w + Z.max d 0) w, tt);
  env_attempt := upstream |}.

Context (draw_nonneg : forall i total, nonneg (draw i total)).
Context (draw_below : forall i total, f64_ltb f64_zero total = true -> f64_ltb (draw i total) total = true).
Context (jitter_range : forall i, jitter_ok (jitter i)).
Context (upstream_time : forall e m h w, gw_clock w <= gw_clock (upstream e m h w).1).

#[export] Instance gateway_laws : SelectionLaws gw_clock.
Proof.
  split; intros; simpl; try lia; auto.
  destruct (Caps.admit_at _ _ _ _ _). simpl. lia.
Qed.

(** Admission refuses only by the gateway's own policy. *)
Lemma gateway_admit_err caps fc (w : gateway) e : (env_admit caps fc w).2 = Err e -> refused_locally e.
Proof.
  simpl. unfold Caps.admit_at. case_decide; [done|].
  destruct (admit_counters_at _ _ _ _) as [s [o|err]]; simpl.
  - by destruct (co_allowed o).
  - destruct fc; [|done]. intros [= <-]. apply limiter_unavailable_local.
Qed.

(** Failover over the composed gateway: it ends, and its log is disciplined. *)
Lemma gateway_failover powf fuel (routes : list (RouteEntry U Up)) ctx model budget w :
  retries budget = 0 -> enough (clock := gw_clock) fuel budget w ->
  exists w' r, select_route_with_failover powf fuel routes ctx model budget w = (w', Some r) /\
    outcome_ok routes ctx r.
Proof. apply select_spec. apply gateway_admit_err. Qed.
End Gateway.
