(* ===== verification/Usage.v ===== *)
(** * Calendar usage per API key and per user

    [crates/common/src/limits/usage.rs]: the day and month hashes of each key and each user,
    the script that adds to a request's four hashes at once, and the reads.  A user's counts
    are proved to be the sum over the user's keys. *)

From S2P Require Import Prelude Interfaces LimitTypes Sliding SlidingSpec Budget.

Definition DAY_TTL_SECS : Z := 2 * 86400.
Definition MONTH_TTL_SECS : Z := 2 * 31 * 86400.

Record UsageCounts := {
  uc_requests_today : Z;
  uc_tokens_today : Z;
  uc_requests_month : Z;
  uc_tokens_month : Z;
}.

Section Usage.
Context `{Calendar} {U : Type} `{Uuid U}.

Inductive UsageSubject := SubjUser | SubjApiKeyLineage (lineage : U).

#[export] Instance UsageSubject_eq_dec : EqDecision UsageSubject.
Proof. solve_decision. Defined.

Definition usage_key (owner : U) (subject : UsageSubject) (period : string) (now : Z) : string :=
  let '(kind, id) := match subject with
                     | SubjUser => ("user", owner)
                     | SubjApiKeyLineage lineage => ("api_key_lineage", lineage)
                     end in
  "usage:{user:" +:+ uuid_str owner +:+ "}:" +:+ kind +:+ ":" +:+ uuid_str id +:+ ":" +:+
  period +:+ ":" +:+ bucket_id period now.

(** The day's hash and the month's. *)
Definition keys (owner : U) (subject : UsageSubject) (now : Z) : list string :=
  (fun period => usage_key owner subject period now) <$> ["daily"; "monthly"].

Context {St : Type} `{Redis St}.

(** [LUA_ADD] from the [i]-th key (counted from 1 as Lua does) on. *)
Fixpoint lua_add (i : nat) (ks : list string) (field : string) (amount : Z) (s : St)
    : St * option unit :=
  match ks with
  | [] => (s, Some tt)
  | k :: ks =>
      match hincrby k field amount s with
      | None => (s, None)
      | Some s =>
          let ttl := if (i mod 2 =? 1)%nat then DAY_TTL_SECS else MONTH_TTL_SECS in
          lua_add (S i) ks field amount (expire k ttl s)
      end
  end.

Definition usage_add (l : link) (owner lineage : U) (field : string) (amount now : Z) (s : St)
    : St * result redis_error unit :=
  if amount <=? 0 then (s, Ok tt)
  else
    run_script l (lua_add 1 (keys owner (SubjApiKeyLineage lineage) now ++ keys owner SubjUser now)
                    field amount) s.

Definition record_request (l : link) (owner lineage : U) (now : Z) (s : St) :=
  usage_add l owner lineage "requests" 1 now s.

Definition record_tokens (l : link) (owner lineage : U) (weighted_tokens now : Z) (s : St) :=
  usage_add l owner lineage "tokens" weighted_tokens now s.

(** One field of [HMGET], as an [Option<i64>]; a value that is no integer is an error. *)
Definition hfield (k field : string) (s : St) : result redis_error (option Z) :=
  match hget k field s with
  | None => Ok None
  | Some v => match tonumber (St := St) v with Some n => Ok (Some n) | None => Err ScriptRaised end
  end.

Definition hmget2 (l : link) (k : string) (s : St) : result redis_error (Z * Z) :=
  match l with
  | LinkOk => a ← hfield k "requests" s; b ← hfield k "tokens" s; Ok (default 0 a, default 0 b)
  | _ => Err ConnectionFailed
  end.

Definition usage_read (l1 l2 : link) (owner : U) (subject : UsageSubject) (now : Z) (s : St)
    : result redis_error UsageCounts :=
  d ← hmget2 l1 (usage_key owner subject "daily" now) s;
  m ← hmget2 l2 (usage_key owner subject "monthly" now) s;
  Ok {| uc_requests_today := d.1; uc_tokens_today := d.2;
        uc_requests_month := m.1; uc_tokens_month := m.2 |}.
End Usage.
#[global] Arguments UsageSubject : clear implicits.

(** ** Keys *)

Section Keys.
Context `{Calendar} {U : Type} `{UuidLaws U}.

Definition is_period (p : string) : Prop := p = "daily" \/ p = "monthly".

Lemma usage_key_inj (o o' : U) s s' p p' t t' :
  is_period p -> is_period p' -> usage_key o s p t = usage_key o' s' p' t' ->
  o = o' /\ s = s' /\ p = p' /\ bucket_id p t = bucket_id p t'.
Proof.
  intros Hp Hp'. unfold usage_key.
  assert (Htail : forall (a b : string), p +:+ ":" +:+ a = p' +:+ ":" +:+ b -> p = p' /\ a = b).
  { intros a b Heq. destruct Hp as [-> | ->], Hp' as [-> | ->]; try discriminate;
      (split; [done|]); by do 2 apply str_app_cancel_l in Heq. }
  destruct s as [|i], s' as [|i'];
    intros Heq%str_app_cancel_l; apply str_app_inj_len in Heq as [->%(inj uuid_str) Heq];
    rewrite ?uuid_str_length; try done; apply str_app_cancel_l in Heq; try discriminate;
    apply str_app_cancel_l, str_app_cancel_l in Heq;
    apply str_app_inj_len in Heq as [Hi Heq]; rewrite ?uuid_str_length; try done;
    apply str_app_cancel_l, Htail in Heq as [-> Hb]; try done.
  apply (inj uuid_str) in Hi as ->. done.
Qed.
End Keys.

(** ** Counting *)

Section Counting.
Context `{Calendar} {U : Type} `{UuidLaws U} {St : Type} `{RedisLaws St}.
Implicit Types (s : St).

(** Every field of a usage hash holds an integer. *)
Definition all_ints s : Prop := forall k f v, hget k f s = Some v -> exists z, v = tostring (St := St) z.

Definition field_value (k f : string) s : Z := default 0 (hget k f s ≫= tonumber (St := St)).

Lemma hincrby_field k f n s s' :
  all_ints s -> hincrby k f n s = Some s' ->
  all_ints s' /\ forall k' f', field_value k' f' s' =
    field_value k' f' s + if decide (k' = k /\ f' = f) then n else 0.
Proof.
  intros Hints (z & Hz & Hget)%hincrby_Some. split.
  - intros k' f' v. rewrite Hget. case_decide; [intros [= <-]; eauto|apply Hints].
  - intros k' f'. unfold field_value. rewrite Hget. case_decide as Hd; [|lia].
    destruct Hd as [-> ->]. simpl. rewrite tonumber_tostring. simpl.
    destruct Hz as [[-> ->]| ->]; simpl; [lia|]. rewrite tonumber_tostring. simpl. lia.
Qed.

Lemma expire_field k ttl s : all_ints s ->
  all_ints (expire k ttl s) /\ forall k' f', field_value k' f' (expire k ttl s) = field_value k' f' s.
Proof.
  intros Hi. split; [intros k' f' v; rewrite hget_expire; apply Hi|].
  intros k' f'. unfold field_value. by rewrite hget_expire.
Qed.

(** How often a key is among those a request adds to. *)
Definition occurrences (k : string) (ks : list string) : Z := Z.of_nat (length (filter (fun x => x = k) ks)).

Lemma lua_add_counts i ks f n s s' :
  all_ints s -> lua_add i ks f n s = (s', Some tt) ->
  all_ints s' /\ forall k' f', field_value k' f' s' =
    field_value k' f' s + if decide (f' = f) then occurrences k' ks * n else 0.
Proof.
  revert i s. induction ks as [|k ks IH]; intros i s Hints; cbn [lua_add].
  - intros [= ->]. split; [done|]. intros k' f'. unfold occurrences. simpl. case_decide; lia.
  - destruct (hincrby k f n s) as [s1|] eqn:E; [|done]. intros Hrest.
    apply hincrby_field in E as [Hints1 Hv1]; [|done].
    destruct (expire_field k (if (i mod 2 =? 1)%nat then DAY_TTL_SECS else MONTH_TTL_SECS) s1 Hints1)
      as [Hints2 Hv2].
    apply IH in Hrest as [Hints' Hv]; [|done]. split; [done|]. intros k' f'.
    rewrite Hv, Hv2, Hv1. unfold occurrences. rewrite filter_cons.
    destruct (decide (k = k')) as [->|Hk]; repeat case_decide; simpl; naive_solver lia.
Qed.

Lemma lua_add_frame i ks f n s k f' : k ∉ ks -> hget k f' (lua_add i ks f n s).1 = hget k f' s.
Proof.
  revert i s. induction ks as [|k0 ks IH]; intros i s Hk; cbn [lua_add]; [done|].
  apply not_elem_of_cons in Hk as [Hk0 Hk].
  destruct (hincrby k0 f n s) as [s1|] eqn:E; [|done]. apply hincrby_Some in E as (z & _ & Hget).
  rewrite IH, hget_expire, Hget, decide_False by (done || by intros [-> _]). done.
Qed.

(** Fields with room for the amount let the script reach its end. *)
Lemma lua_add_total i ks f n s :
  all_ints s -> NoDup ks -> (forall k, k ∈ ks -> in_i64 (field_value k f s + n)) ->
  (lua_add i ks f n s).2 = Some tt.
Proof.
  revert i s. induction ks as [|k ks IH]; intros i s Hints Hnd Hfit; cbn [lua_add]; [done|].
  apply NoDup_cons in Hnd as [Hk Hnd].
  assert (Hholds : holds_int k f s (field_value k f s)).
  { unfold holds_int, field_value. destruct (hget k f s) as [v|] eqn:E; [|by left]. right.
    destruct (Hints _ _ _ E) as [z ->]. simpl. by rewrite tonumber_tostring. }
  destruct (hincrby_succeeds k f n s _ Hholds (Hfit k (list_elem_of_here _ _))) as [s1 E]. rewrite E.
  apply hincrby_field in E as [Hints1 Hv1]; [|done].
  destruct (expire_field k (if (i mod 2 =? 1)%nat then DAY_TTL_SECS else MONTH_TTL_SECS) s1 Hints1)
    as [Hints2 Hv2].
  apply IH; [done|done|]. intros k' Hk'. rewrite Hv2, Hv1, decide_False by (intros [-> _]; done).
  rewrite Z.add_0_r. apply Hfit. by right.
Qed.

Definition count (o : U) (subj : UsageSubject U) (period field : string) (now : Z) s : Z :=
  field_value (usage_key o subj period now) field s.

Lemma occurrences_nodup k ks : NoDup ks -> occurrences k ks = if decide (k ∈ ks) then 1 else 0.
Proof.
  unfold occurrences. induction 1 as [|x ks Hx Hnd IH]; [by case_decide as Hk; [apply elem_of_nil in Hk|]|].
  rewrite filter_cons. repeat case_decide; subst; simpl; try set_solver; try lia.
Qed.

Definition request_keys (o l : U) (now : Z) : list string :=
  keys o (SubjApiKeyLineage l) now ++ keys o SubjUser now.

Lemma request_keys_nodup o l now : NoDup (request_keys o l now).
Proof.
  unfold request_keys, keys. simpl.
  assert (Hd : is_period "daily") by by left. assert (Hm : is_period "monthly") by by right.
  assert (Hne : forall (s : UsageSubject U) p (s' : UsageSubject U) p', is_period p -> is_period p' -> (s, p) <> (s', p') ->
    usage_key o s p now <> usage_key o s' p' now).
  { intros s p s' p' Hp Hp' Hd' (_ & -> & -> & _)%usage_key_inj; done. }
  repeat (apply NoDup_cons; split; [rewrite ?not_elem_of_cons; split_and?;
    try (by apply Hne); apply not_elem_of_nil|]).
  apply NoDup_nil_2.
Qed.

(** A request made with key [l] of [o] at [now] counts on this hash. *)
Definition counts_here (o l : U) (now : Z) (o' : U) (subj : UsageSubject U) (period : string)
    (now' : Z) : Prop :=
  o' = o /\ (subj = SubjUser \/ subj = SubjApiKeyLineage l) /\ bucket_id period now' = bucket_id period now.

Lemma request_keys_elem o l now o' subj p now' :
  is_period p ->
  usage_key o' subj p now' ∈ request_keys o l now <-> counts_here o l now o' subj p now'.
Proof.
  intros Hp. assert (Hd : is_period "daily") by by left. assert (Hm : is_period "monthly") by by right.
  unfold request_keys, keys, counts_here. simpl. rewrite !elem_of_cons, elem_of_nil. split.
  - intros Hk. repeat destruct Hk as [Hk|Hk]; try done;
      apply usage_key_inj in Hk as (-> & -> & -> & ?); auto.
  - intros (-> & Hs & Hb).
    assert (Hsame : usage_key o subj p now' = usage_key o subj p now) by (unfold usage_key; by rewrite Hb).
    rewrite Hsame. destruct Hs as [-> | ->], Hp as [-> | ->]; auto.
Qed.

#[export] Instance counts_here_dec o l now o' subj p now' : Decision (counts_here o l now o' subj p now').
Proof. unfold counts_here. apply _. Defined.

Lemma add_counts o l f n now s s' :
  all_ints s -> lua_add 1 (request_keys o l now) f n s = (s', Some tt) ->
  all_ints s' /\ forall o' subj p f' now', is_period p ->
    count o' subj p f' now' s' = count o' subj p f' now' s +
      if decide (f' = f /\ counts_here o l now o' subj p now') then n else 0.
Proof.
  intros Hints Hadd. apply lua_add_counts in Hadd as [Hints' Hv]; [|done]. split; [done|].
  intros o' subj p f' now' Hp. unfold count. rewrite Hv. f_equal.
  rewrite occurrences_nodup by apply request_keys_nodup.
  pose proof (request_keys_elem o l now o' subj p now' Hp) as Hin.
  repeat case_decide; naive_solver lia.
Qed.

(** One accounted call.  When Redis runs it, a call made with a key adds its amount, once, to
    that key's and its owner's counts of its field, for the day and the month it was made in,
    and to nothing else: no other key, user, field or period.  An amount of zero or less writes
    nothing, and reads give what was counted. *)
Theorem usage_add_exact o l f n now s s' :
  all_ints s -> usage_add LinkOk o l f n now s = (s', Ok tt) ->
  all_ints s' /\
  (forall o' subj p f' now', is_period p ->
    count o' subj p f' now' s' = count o' subj p f' now' s +
      if decide (0 < n /\ f' = f /\ counts_here o l now o' subj p now') then n else 0) /\
  (forall o' subj now', usage_read LinkOk LinkOk o' subj now' s' =
    Ok {| uc_requests_today := count o' subj "daily" "requests" now' s';
          uc_tokens_today := count o' subj "daily" "tokens" now' s';
          uc_requests_month := count o' subj "monthly" "requests" now' s';
          uc_tokens_month := count o' subj "monthly" "tokens" now' s' |}).
Proof.
  intros Hints Hadd.
  assert (Hread : forall s0, all_ints s0 -> forall k, hmget2 LinkOk k s0 =
    Ok (field_value k "requests" s0, field_value k "tokens" s0)).
  { intros s0 Hi k. unfold hmget2, hfield, field_value.
    destruct (hget k "requests" s0) as [v1|] eqn:E1, (hget k "tokens" s0) as [v2|] eqn:E2; simpl;
      repeat match goal with E : hget k ?f s0 = Some ?v |- _ =>
        let z := fresh "z" in destruct (Hi k f v E) as [z ->]; clear E; rewrite !tonumber_tostring; simpl
      end; done. }
  assert (Hreads : forall s0, all_ints s0 -> forall o' subj now', usage_read LinkOk LinkOk o' subj now' s0 =
    Ok {| uc_requests_today := count o' subj "daily" "requests" now' s0;
          uc_tokens_today := count o' subj "daily" "tokens" now' s0;
          uc_requests_month := count o' subj "monthly" "requests" now' s0;
          uc_tokens_month := count o' subj "monthly" "tokens" now' s0 |}).
  { intros s0 Hi o' subj now'. unfold usage_read. by rewrite !(Hread s0 Hi). }
  unfold usage_add in Hadd. destruct (n <=? 0) eqn:En; zbool.
  - injection Hadd as <-. split; [done|]. split; [|by apply Hreads].
    intros o' subj p f' now' _. rewrite decide_False by lia. lia.
  - unfold run_script in Hadd. fold (request_keys o l now) in Hadd.
    destruct (lua_add 1 _ f n s) as [s1 [[]|]] eqn:E; [|done]. simpl in Hadd. injection Hadd as <-.
    apply add_counts in E as [Hints' Hc]; [|done]. split; [done|]. split; [|by apply Hreads].
    intros o' subj p f' now' Hp. rewrite (Hc o' subj p f' now' Hp). repeat case_decide; naive_solver lia.
Qed.

(** ** A user is the sum of the user's keys *)

(** The script reaches its end: no field overflows half way. *)
Definition runs_whole (o l : U) (f : string) (n now : Z) s : Prop :=
  (lua_add 1 (request_keys o l now) f n s).2 = Some tt.

(** A run of accounted calls over any links, whatever came of their replies. *)
Inductive accounted : St -> list (U * U) -> St -> Prop :=
  | accounted_nil s : accounted s [] s
  | accounted_snoc s calls s1 s2 lk o l f n now r :
      accounted s calls s1 -> runs_whole o l f n now s1 ->
      usage_add lk o l f n now s1 = (s2, r) -> accounted s (calls ++ [(o, l)]) s2.

Lemma usage_add_store lk o l f n now s s' r :
  runs_whole o l f n now s -> usage_add lk o l f n now s = (s', r) ->
  s' = s \/ lua_add 1 (request_keys o l now) f n s = (s', Some tt).
Proof.
  unfold runs_whole, usage_add. fold (request_keys o l now). intros Hrun.
  destruct (n <=? 0); [intros [= <- _]; by left|].
  destruct lk; cbn [run_script]; [|intros [= <- _]; by left|];
    destruct (lua_add 1 _ f n s) as [s1 u]; simpl in *; subst u; intros [= <- _]; by right.
Qed.

Lemma sum_indicator (ls : list U) (l : U) n :
  NoDup ls -> l ∈ ls -> foldr Z.add 0 ((fun x => if decide (x = l) then n else 0) <$> ls) = n.
Proof.
  induction 1 as [|x ls Hx Hnd IH]; [by intros ?%elem_of_nil|]. rewrite fmap_cons. cbn [foldr].
  intros [->|Hin]%elem_of_cons.
  - rewrite decide_True by done.
    assert (foldr Z.add 0 ((fun x0 => if decide (x0 = x) then n else 0) <$> ls) = 0) as ->; [|lia].
    clear -Hx. induction ls as [|y ls IH]; [done|]. rewrite fmap_cons. cbn [foldr]. rewrite decide_False by set_solver.
    rewrite IH by set_solver. done.
  - rewrite decide_False by (intros ->; done). rewrite IH by done. lia.
Qed.

Lemma sum_add (f g : U -> Z) ls :
  foldr Z.add 0 ((fun x => f x + g x) <$> ls) = foldr Z.add 0 (f <$> ls) + foldr Z.add 0 (g <$> ls).
Proof. induction ls as [|x ls IH]; [done|]. rewrite !fmap_cons. cbn [foldr]. lia. Qed.

(** A user's requests and tokens, today and this month, are the sum over the user's keys: over
    any run of accounted calls from empty counts, whatever other users do in between, which
    calls reach Redis and which replies are lost. *)
Theorem user_usage_is_sum_of_keys s0 calls s o ls p f now :
  all_ints s0 -> (forall o subj p f now, count o subj p f now s0 = 0) ->
  accounted s0 calls s -> is_period p -> NoDup ls -> (forall l, (o, l) ∈ calls -> l ∈ ls) ->
  count o SubjUser p f now s = foldr Z.add 0 ((fun l => count o (SubjApiKeyLineage l) p f now s) <$> ls).
Proof.
  intros Hints Hzero Hrun Hp Hnd. assert (Hboth : all_ints s /\ ((forall l, (o, l) ∈ calls -> l ∈ ls) ->
    count o SubjUser p f now s = foldr Z.add 0 ((fun l => count o (SubjApiKeyLineage l) p f now s) <$> ls))).
  2: { by destruct Hboth. }
  induction Hrun as [s|s calls s1 s2 lk o' l f' n now' r Hrun IH Hwhole Hadd].
  - split; [done|]. intros _. rewrite Hzero.
    induction ls as [|x ls IH]; [done|]. rewrite fmap_cons. cbn [foldr]. rewrite Hzero.
    apply NoDup_cons in Hnd as [_ Hnd]. rewrite <- IH by done. done.
  - destruct (IH Hints Hzero) as [Hi1 Hsum]. apply usage_add_store in Hadd as [->|Hadd]; [| |done].
    { split; [done|]. intros Hcov. apply Hsum. intros l' Hl'. apply Hcov. set_solver. }
    apply add_counts in Hadd as [Hi2 Hc]; [|done].
    split; [done|]. intros Hcov.
    assert (Hc1 : forall subj, count o subj p f now s2 = count o subj p f now s1 +
      if decide (f = f' /\ counts_here o' l now' o subj p now) then n else 0) by (intros; by apply Hc).
    rewrite Hc1, Hsum by (intros l' Hl'; apply Hcov; set_solver).
    rewrite (list_fmap_ext (fun x => count o (SubjApiKeyLineage x) p f now s2) (fun x => count o (SubjApiKeyLineage x) p f now s1 +
      (if decide (f = f' /\ counts_here o' l now' o SubjUser p now)
       then (if decide (x = l) then n else 0) else 0))).
    2: { intros i x _. cbv beta. rewrite Hc1. f_equal. unfold counts_here. repeat case_decide; naive_solver. }
    rewrite sum_add. f_equal. destruct (decide (f = f' /\ counts_here o' l now' o SubjUser p now)) as [(_ & -> & _)|Hd].
    + rewrite sum_indicator; [done|done|]. apply Hcov. set_solver.
    + clear. induction ls as [|x ls IH]; [done|]. rewrite fmap_cons. cbn [foldr]. by rewrite <- IH.
Qed.
End Counting.

(** ** Witnesses *)

Lemma hs_empty_ints : all_ints hs_empty.
Proof. intros k f v Hv. vm_compute in Hv. discriminate. Qed.

Definition demo_usage : hstore := (usage_add LinkOk UAlice UKey1 "tokens" 40 0 hs_empty).1.

Lemma usage_add_exact_witness :
  count UAlice SubjUser "monthly" "tokens" 0 demo_usage = count UAlice SubjUser "monthly" "tokens" 0 hs_empty + 40.
Proof.
  assert (usage_add LinkOk UAlice UKey1 "tokens" 40 0 hs_empty = (demo_usage, Ok tt)) as Hadd.
  { unfold demo_usage. apply run_ends. vm_compute. reflexivity. }
  destruct (usage_add_exact UAlice UKey1 "tokens" 40 0 hs_empty demo_usage hs_empty_ints Hadd) as (_ & Hc & _).
  rewrite (Hc UAlice SubjUser "monthly" "tokens" 0 (or_intror eq_refl)). reflexivity.
Defined.

Definition demo_usage2 : hstore := (usage_add ReplyLost UAlice UKey1 "tokens" 40 0 hs_empty).1.

Lemma user_usage_is_sum_of_keys_witness :
  count UAlice SubjUser "daily" "tokens" 0 demo_usage2 =
    foldr Z.add 0 ((fun l => count UAlice (SubjApiKeyLineage l) "daily" "tokens" 0 demo_usage2) <$> [UKey1]).
Proof.
  apply (user_usage_is_sum_of_keys hs_empty [(UAlice, UKey1)] demo_usage2 UAlice [UKey1] "daily" "tokens" 0
    hs_empty_ints).
  - intros o subj p f now. reflexivity.
  - apply (accounted_snoc hs_empty [] hs_empty demo_usage2 ReplyLost UAlice UKey1 "tokens" 40 0
      (Err ConnectionFailed)); [constructor|reflexivity|].
    unfold demo_usage2. apply run_ends. vm_compute. reflexivity.
  - by left.
  - apply NoDup_singleton.
  - intros l Hl. apply list_elem_of_singleton in Hl. injection Hl as ->. by left.
Defined.
