(* ===== verification/AuditRow.v ===== *)
(** * Audit rows

    [crates/common/src/audit/types.rs] and [actors.rs]: the row the request stages log, its
    builder, and the two actors that start one.  A row's random [id], its [created_at] and
    its memory reservation are left out: no stage reads or sets them. *)

From S2P Require Import Prelude Interfaces.
From S2P Require Import GatewayDeps.

Inductive LogType := LogAccess | LogApp | LogAudit | LogGateway | LogMcp.

Definition LogType_as_str (t : LogType) : string :=
  match t with
  | LogAccess => "access" | LogApp => "app" | LogAudit => "audit"
  | LogGateway => "gateway" | LogMcp => "mcp"
  end.

(** The JSON that [json!] builds for a row's detail. *)
Inductive jval :=
  | JStr (s : string) | JNum (z : Z) | JBool (b : bool) | JObj (fields : list (string * jval))
  | JArr (items : list jval) | JNull.

Record AuditEntry := {
  ae_log_type : LogType;
  ae_user_id : option string;
  ae_user_email : option string;
  ae_api_key_id : option string;
  ae_api_key_lineage_id : option string;
  ae_action : string;
  ae_resource : option string;
  ae_resource_id : option string;
  ae_detail : option jval;
  ae_ip_address : option string;
  ae_user_agent : option string;
  ae_trace_id : option string;
  ae_session_id : option string;
  ae_request_body : option string;
  ae_response_body : option string;
  ae_body_capture_status : option string;
  ae_request_body_bytes : option Z;
  ae_response_body_bytes : option Z;
}.

(** The columns that say who acted, which an actor fills. *)
Record actor_columns := {
  ac_user_id : option string;
  ac_user_email : option string;
  ac_api_key_id : option string;
  ac_api_key_lineage_id : option string;
  ac_ip_address : option string;
  ac_session_id : option string;
}.

(** [AuditEntry::new(action)], then the log type and the actor's columns. *)
Definition AuditEntry_new (t : LogType) (a : actor_columns) (action : string) : AuditEntry :=
  {| ae_log_type := t; ae_user_id := ac_user_id a; ae_user_email := ac_user_email a;
     ae_api_key_id := ac_api_key_id a; ae_api_key_lineage_id := ac_api_key_lineage_id a;
     ae_action := action; ae_resource := None; ae_resource_id := None; ae_detail := None;
     ae_ip_address := ac_ip_address a; ae_user_agent := None; ae_trace_id := None;
     ae_session_id := ac_session_id a; ae_request_body := None; ae_response_body := None;
     ae_body_capture_status := None; ae_request_body_bytes := None; ae_response_body_bytes := None |}.

Definition with_trace_id (id : string) (e : AuditEntry) : AuditEntry :=
  {| ae_log_type := ae_log_type e; ae_user_id := ae_user_id e; ae_user_email := ae_user_email e;
     ae_api_key_id := ae_api_key_id e; ae_api_key_lineage_id := ae_api_key_lineage_id e;
     ae_action := ae_action e; ae_resource := ae_resource e; ae_resource_id := ae_resource_id e;
     ae_detail := ae_detail e; ae_ip_address := ae_ip_address e; ae_user_agent := ae_user_agent e;
     ae_trace_id := Some id; ae_session_id := ae_session_id e; ae_request_body := ae_request_body e;
     ae_response_body := ae_response_body e; ae_body_capture_status := ae_body_capture_status e;
     ae_request_body_bytes := ae_request_body_bytes e;
     ae_response_body_bytes := ae_response_body_bytes e |}.

Definition with_detail (d : jval) (e : AuditEntry) : AuditEntry :=
  {| ae_log_type := ae_log_type e; ae_user_id := ae_user_id e; ae_user_email := ae_user_email e;
     ae_api_key_id := ae_api_key_id e; ae_api_key_lineage_id := ae_api_key_lineage_id e;
     ae_action := ae_action e; ae_resource := ae_resource e; ae_resource_id := ae_resource_id e;
     ae_detail := Some d; ae_ip_address := ae_ip_address e; ae_user_agent := ae_user_agent e;
     ae_trace_id := ae_trace_id e; ae_session_id := ae_session_id e; ae_request_body := ae_request_body e;
     ae_response_body := ae_response_body e; ae_body_capture_status := ae_body_capture_status e;
     ae_request_body_bytes := ae_request_body_bytes e;
     ae_response_body_bytes := ae_response_body_bytes e |}.

Definition with_resource (r : string) (t : LogType) (e : AuditEntry) : AuditEntry :=
  {| ae_log_type := t; ae_user_id := ae_user_id e; ae_user_email := ae_user_email e;
     ae_api_key_id := ae_api_key_id e; ae_api_key_lineage_id := ae_api_key_lineage_id e;
     ae_action := ae_action e; ae_resource := Some r; ae_resource_id := ae_resource_id e;
     ae_detail := ae_detail e; ae_ip_address := ae_ip_address e; ae_user_agent := ae_user_agent e;
     ae_trace_id := ae_trace_id e; ae_session_id := ae_session_id e; ae_request_body := ae_request_body e;
     ae_response_body := ae_response_body e; ae_body_capture_status := ae_body_capture_status e;
     ae_request_body_bytes := ae_request_body_bytes e;
     ae_response_body_bytes := ae_response_body_bytes e |}.

Definition with_resource_id (id : string) (e : AuditEntry) : AuditEntry :=
  {| ae_log_type := ae_log_type e; ae_user_id := ae_user_id e; ae_user_email := ae_user_email e;
     ae_api_key_id := ae_api_key_id e; ae_api_key_lineage_id := ae_api_key_lineage_id e;
     ae_action := ae_action e; ae_resource := ae_resource e; ae_resource_id := Some id;
     ae_detail := ae_detail e; ae_ip_address := ae_ip_address e; ae_user_agent := ae_user_agent e;
     ae_trace_id := ae_trace_id e; ae_session_id := ae_session_id e; ae_request_body := ae_request_body e;
     ae_response_body := ae_response_body e; ae_body_capture_status := ae_body_capture_status e;
     ae_request_body_bytes := ae_request_body_bytes e;
     ae_response_body_bytes := ae_response_body_bytes e |}.

Definition with_user_agent (ua : option string) (e : AuditEntry) : AuditEntry :=
  {| ae_log_type := ae_log_type e; ae_user_id := ae_user_id e; ae_user_email := ae_user_email e;
     ae_api_key_id := ae_api_key_id e; ae_api_key_lineage_id := ae_api_key_lineage_id e;
     ae_action := ae_action e; ae_resource := ae_resource e; ae_resource_id := ae_resource_id e;
     ae_detail := ae_detail e; ae_ip_address := ae_ip_address e; ae_user_agent := ua;
     ae_trace_id := ae_trace_id e; ae_session_id := ae_session_id e; ae_request_body := ae_request_body e;
     ae_response_body := ae_response_body e; ae_body_capture_status := ae_body_capture_status e;
     ae_request_body_bytes := ae_request_body_bytes e;
     ae_response_body_bytes := ae_response_body_bytes e |}.

Definition with_user_id (id : string) (e : AuditEntry) : AuditEntry :=
  {| ae_log_type := ae_log_type e; ae_user_id := Some id; ae_user_email := ae_user_email e;
     ae_api_key_id := ae_api_key_id e; ae_api_key_lineage_id := ae_api_key_lineage_id e;
     ae_action := ae_action e; ae_resource := ae_resource e; ae_resource_id := ae_resource_id e;
     ae_detail := ae_detail e; ae_ip_address := ae_ip_address e; ae_user_agent := ae_user_agent e;
     ae_trace_id := ae_trace_id e; ae_session_id := ae_session_id e; ae_request_body := ae_request_body e;
     ae_response_body := ae_response_body e; ae_body_capture_status := ae_body_capture_status e;
     ae_request_body_bytes := ae_request_body_bytes e;
     ae_response_body_bytes := ae_response_body_bytes e |}.

(** A background task: nobody acts. *)
Definition SystemActor_audit (action : string) : AuditEntry :=
  AuditEntry_new LogAudit {| ac_user_id := None; ac_user_email := None; ac_api_key_id := None;
    ac_api_key_lineage_id := None; ac_ip_address := None; ac_session_id := None |} action.

Section Actors.
Context {U : Type} `{UuidParse U}.

(** A malformed id drops its column; a well-formed one is written in canonical form. *)
Definition id_column (id : option string) : option string :=
  uuid_str <$> (id ≫= uuid_parse (U := U)).

Record GatewayActor := {
  ga_user_id : option string;
  ga_user_email : option string;
  ga_api_key_id : option string;
  ga_api_key_lineage_id : option string;
  ga_ip : option string;
  ga_session_id : option string;
}.

Definition GatewayActor_audit (a : GatewayActor) (action : string) : AuditEntry :=
  AuditEntry_new LogGateway
    {| ac_user_id := id_column (ga_user_id a); ac_user_email := ga_user_email a;
       ac_api_key_id := id_column (ga_api_key_id a);
       ac_api_key_lineage_id := id_column (ga_api_key_lineage_id a);
       ac_ip_address := ga_ip a; ac_session_id := ga_session_id a |} action.

Record McpActor := {
  ma_user_id : U;
  ma_user_email : string;
  ma_ip : option string;
}.

Definition McpActor_audit (a : McpActor) (action : string) : AuditEntry :=
  AuditEntry_new LogMcp
    {| ac_user_id := Some (uuid_str (ma_user_id a)); ac_user_email := Some (ma_user_email a);
       ac_api_key_id := None; ac_api_key_lineage_id := None; ac_ip_address := ma_ip a;
       ac_session_id := None |} action.

(** Who acts before a session exists: the address always, the rest as far as it is known. *)
Record AnonymousActor := {
  an_ip : option string;
  an_user_agent : option string;
  an_user_email : option string;
  an_user_id : option U;
}.

Definition AnonymousActor_audit (a : AnonymousActor) (action : string) : AuditEntry :=
  with_user_agent (an_user_agent a)
    (AuditEntry_new LogAudit
      {| ac_user_id := uuid_str <$> an_user_id a; ac_user_email := an_user_email a;
         ac_api_key_id := None; ac_api_key_lineage_id := None; ac_ip_address := an_ip a;
         ac_session_id := None |} action).
End Actors.
#[global] Arguments McpActor : clear implicits.
#[global] Arguments AnonymousActor : clear implicits.
