(* ===== verification/Lifecycle.v ===== *)
(** * The request lifecycle

    [crates/common/src/lifecycle/]: the [Surface] trait, the states a request moves through,
    the gates before the call ([check_budget], [check_access], [check_limits]) and the stages
    after it ([run_post_invoke]).  The gates act on the limiter's hashes, the budget counters
    and the audit log; metrics and tracing are left out. *)

From S2P Require Import Prelude Interfaces LimitTypes Constraints Sliding Budget Effects AuditRow.
From S2P Require Import SlidingSpec Limiter.

(** ** How a stream ended *)

Inductive StreamOutcome :=
  | Natural
  | UpstreamError (error_type message : string) (status_code : Z)
  | ClientCancelled.

Definition is_natural (o : StreamOutcome) : bool :=
  match o with Natural => true | _ => false end.

Definition logged_status_and_detail (o : StreamOutcome) : Z * option jval :=
  match o with
  | Natural => (200, None)
  | UpstreamError error_type message status_code =>
      (status_code, Some (JObj [("error_type", JStr error_type); ("error_message", JStr message);
                                ("stream_outcome", JStr "upstream_error")]))
  | ClientCancelled => (499, Some (JObj [("stream_outcome", JStr "client_cancelled")]))
  end.

Definition metric_label (o : StreamOutcome) : string :=
  match o with
  | Natural => "natural" | UpstreamError _ _ _ => "upstream_error" | ClientCancelled => "cancelled"
  end.

(** ** The states of a request *)

Section States.
Context {I R C : Type}.

Record Raw := {
  raw_identity : I;
  raw_trace_id : string;
  raw_started_at : Z;
  raw_client_ip : option string;
}.

Record AccessChecked := {
  acc_identity : I;
  acc_trace_id : string;
  acc_started_at : Z;
  acc_client_ip : option string;
  acc_access_candidate : string;
}.

Record LimitCheckRecord := { lc_currents : list Z }.

Record Authorized := {
  auth_identity : I;
  auth_trace_id : string;
  auth_started_at : Z;
  auth_client_ip : option string;
  auth_limit_check : LimitCheckRecord;
  auth_access_candidate : string;
}.

Inductive CapturedView :=
  | Buffered (response : R)
  | Streaming (outcome : StreamOutcome) (captured : C).

Definition is_success (v : CapturedView) : bool :=
  match v with Buffered _ => true | Streaming outcome _ => is_natural outcome end.

Record Invoked := {
  inv_identity : I;
  inv_trace_id : string;
  inv_started_at : Z;
  inv_client_ip : option string;
  inv_limit_check : LimitCheckRecord;
  inv_access_candidate : string;
  inv_view : CapturedView;
}.

Record Emitted := { em_response : option R }.
End States.
Arguments Raw : clear implicits.
Arguments AccessChecked : clear implicits.
Arguments Authorized : clear implicits.
Arguments CapturedView : clear implicits.
Arguments Invoked : clear implicits.
Arguments Emitted : clear implicits.

(** ** The trait

    [I], [R] and [C] are its [Identity], [Response] and [StreamCaptured].  What the stages
    after the call act on, [PostInvokeDeps] and what its handles reach, is the world [W]. *)

Class Surface (I R C W : Type) := {
  audit_entry : I -> string -> AuditEntry;
  rate_limited_response : string -> Z -> R;
  rate_limiter_unavailable_response : R;
  is_access_allowed : I -> string -> bool;
  access_denied_response : string -> R;
  budget_exceeded_response : string -> Z -> R;
  budget_unavailable_response : R;
  hook_record_outcome : Invoked I R C -> prog W unit;
  hook_write_cache : Invoked I R C -> prog W unit;
  hook_record_usage : Invoked I R C -> prog W unit;
  hook_emit_audit : Invoked I R C -> prog W unit;
}.

(** ** The gates *)

(** [Iterator::max_by_key]: the last of the greatest. *)
Definition max_by_key {A} (f : A -> Z) (l : list A) : option A :=
  foldl (fun best x => match best with
                       | Some b => if f b <=? f x then Some x else Some b
                       | None => Some x
                       end) None l.

Section Gates.
Context {I R C W : Type} `{Surface I R C W}.
Context `{Calendar} {U : Type} `{Uuid U} {Hs Ks : Type} `{Redis Hs} `{RedisKV Ks}.

(** What the gates reach: the limiter's hashes and the budgets' counters in Redis, and the
    rows handed to the audit logger. *)
Record gates := {
  g_hashes : Hs;
  g_counters : Ks;
  g_audit : list AuditEntry;
}.

Definition log (e : AuditEntry) (w : gates) : gates :=
  {| g_hashes := g_hashes w; g_counters := g_counters w; g_audit := g_audit w ++ [e] |}.

Definition budget_label (cap : BudgetCap U) : string :=
  BudgetSubject.as_str (bc_subject_kind cap) +:+ ":budget/" +:+ BudgetPeriod.as_str (bc_period cap).

Definition spent_cap (caps : list (BudgetCap U)) (statuses : list (CapStatus U)) (now : Z)
    : option (BudgetCap U * CapStatus U * Z) :=
  max_by_key snd
    ((fun '(cap, status) => (cap, status, secs_until_period_end (bc_period cap) now)) <$>
     filter (fun '(_, status) => cs_limit status <= cs_current status) (zip caps statuses)).

(** [links i] is how the [i]-th read goes; [t_read] and [now] are the two readings of the
    clock, [current_spend]'s and the stage's own. *)
Definition check_budget (state : Raw I) (caps : list (BudgetCap U)) (links : nat -> link)
    (t_read now : Z) (fail_closed : bool) : prog gates (result R (Raw I)) := fun w =>
  if bool_decide (caps = []) then (w, Ok state) else
  match read_spend links caps t_read (g_counters w) with
  | Err _ =>
      if fail_closed then
        (log (with_trace_id (raw_trace_id state) (audit_entry (raw_identity state) "budget_unavailable")) w,
         Err budget_unavailable_response)
      else (w, Ok state)
  | Ok statuses =>
      match spent_cap caps statuses now with
      | Some (cap, status, retry_after_secs) =>
          let label := budget_label cap in
          (log (with_detail (JObj [("limit", JStr label); ("current", JNum (cs_current status));
                                   ("max", JNum (cs_limit status));
                                   ("retry_after_secs", JNum retry_after_secs)])
                 (with_trace_id (raw_trace_id state) (audit_entry (raw_identity state) "budget_exceeded"))) w,
           Err (budget_exceeded_response label retry_after_secs))
      | None => (w, Ok state)
      end
  end.

Definition check_access (state : Raw I) (candidate : string) : prog gates (result R (AccessChecked I)) :=
  fun w =>
  if negb (is_access_allowed (raw_identity state) candidate) then
    (log (with_detail (JObj [("subject", JStr candidate)])
           (with_trace_id (raw_trace_id state) (audit_entry (raw_identity state) "access_denied"))) w,
     Err (access_denied_response candidate))
  else
    (w, Ok {| acc_identity := raw_identity state; acc_trace_id := raw_trace_id state;
              acc_started_at := raw_started_at state; acc_client_ip := raw_client_ip state;
              acc_access_candidate := candidate |}).

Definition authorize (state : AccessChecked I) (currents : list Z) : Authorized I :=
  {| auth_identity := acc_identity state; auth_trace_id := acc_trace_id state;
     auth_started_at := acc_started_at state; auth_client_ip := acc_client_ip state;
     auth_limit_check := {| lc_currents := currents |};
     auth_access_candidate := acc_access_candidate state |}.

Definition check_limits (state : AccessChecked I) (rules : list (RateLimitRule U)) (owner : U)
    (l : link) (now_ms : Z) (fail_closed : bool) : prog gates (result R (Authorized I)) := fun w =>
  if bool_decide (rules = []) then (w, Ok (authorize state [])) else
  let '(s, r) := admit_at l rules owner now_ms (negb fail_closed) (g_hashes w) in
  let w := {| g_hashes := s; g_counters := g_counters w; g_audit := g_audit w |} in
  match r with
  | Err _ =>
      (log (with_trace_id (acc_trace_id state) (audit_entry (acc_identity state) "rate_limiter_unavailable")) w,
       Err rate_limiter_unavailable_response)
  | Ok outcome =>
      if negb (co_allowed outcome) then
        let label := default "rate limit"
          (rate_label <$> (co_exceeded_index outcome ≫= fun i => rules !! i)) in
        (log (with_detail (JObj [("limit", JStr label);
                                 ("retry_after_secs", JNum (co_retry_after_secs outcome))])
               (with_trace_id (acc_trace_id state) (audit_entry (acc_identity state) "rate_limited"))) w,
         Err (rate_limited_response label (co_retry_after_secs outcome)))
      else (w, Ok (authorize state (co_currents outcome)))
  end.
End Gates.
#[global] Arguments gates : clear implicits.

(** ** After the call *)

Section PostInvoke.
Context {I R C W : Type} `{Surface I R C W}.

Definition record_outcome (invoked : Invoked I R C) : prog W (Invoked I R C) :=
  _ ← hook_record_outcome invoked; mret invoked.

Definition write_cache (invoked : Invoked I R C) : prog W (Invoked I R C) :=
  if is_success (inv_view invoked) then _ ← hook_write_cache invoked; mret invoked
  else mret invoked.

Definition record_usage (invoked : Invoked I R C) : prog W (Invoked I R C) :=
  _ ← hook_record_usage invoked; mret invoked.

Definition emit_audit (invoked : Invoked I R C) : prog W (Emitted R) :=
  _ ← hook_emit_audit invoked;
  mret {| em_response := match inv_view invoked with
                         | Buffered response => Some response
                         | Streaming _ _ => None
                         end |}.

Definition run_post_invoke (invoked : Invoked I R C) : prog W (Emitted R) :=
  invoked ← record_outcome invoked;
  invoked ← write_cache invoked;
  invoked ← record_usage invoked;
  emit_audit invoked.
End PostInvoke.

(** ** What the gates promise *)

Lemma max_by_key_spec {A} (f : A -> Z) l :
  match max_by_key f l with
  | Some x => x ∈ l /\ forall y, y ∈ l -> f y <= f x
  | None => l = []
  end.
Proof.
  unfold max_by_key. induction l as [|z l IH] using rev_ind; [done|].
  rewrite foldl_app. cbn [foldl]. destruct (foldl _ None l) as [b|].
  - destruct IH as [Hb Hmax]. destruct (f b <=? f z) eqn:E; zbool.
    + split; [set_solver|]. intros y [Hy| ->%list_elem_of_singleton]%elem_of_app; [|done].
      specialize (Hmax y Hy). lia.
    + split; [set_solver|]. intros y [Hy| ->%list_elem_of_singleton]%elem_of_app; [auto|lia].
  - subst. split; [set_solver|]. intros y ->%list_elem_of_singleton. done.
Qed.

Section GateSpecs.
Context {I R C W : Type} `{SF : Surface I R C W}.
Context `{CalendarLaws} {U : Type} `{UuidLaws U} {Hs Ks : Type} `{RedisLaws Hs} `{RedisKV Ks}.
Implicit Types (w : gates Hs Ks) (caps : list (BudgetCap U)) (rules : list (RateLimitRule U)).

(** What [read_spend] read of each cap. *)
Definition reads links caps t (s : Ks) (vs : list Z) : Prop :=
  length vs = length caps /\
  forall i cap v, caps !! i = Some cap -> vs !! i = Some v -> spend (links i) cap t s = Ok v.

Lemma read_spend_spec links caps t (s : Ks) :
  match read_spend links caps t s with
  | Ok sts => exists vs, reads links caps t s vs /\ sts = zip_with cap_status caps vs
  | Err e => exists i cap, caps !! i = Some cap /\ spend (links i) cap t s = Err e
  end.
Proof.
  revert links. induction caps as [|cap caps IH]; intros links; cbn [read_spend].
  { exists []. split; [split; [done|]|done]. intros i c v Hc. by rewrite lookup_nil in Hc. }
  destruct (spend (links 0%nat) cap t s) as [v|e] eqn:E; cbn [mbind result_bind].
  2: { by exists 0%nat, cap. }
  specialize (IH (fun i => links (S i))).
  destruct (read_spend (fun i => links (S i)) caps t s) as [sts|e]; cbn [mbind result_bind].
  - destruct IH as (vs & [Hlen Hvs] & ->). exists (v :: vs). split; [|done]. split; [simpl; lia|].
    intros [|i] c x Hc Hx; simpl in *; [congruence|]. by eapply (Hvs i).
  - destruct IH as (i & c & Hi & He). by exists (S i), c.
Qed.

Definition cap_wait (now : Z) (cap : BudgetCap U) : Z := secs_until_period_end (bc_period cap) now.

Lemma spent_cap_spec caps vs now :
  length vs = length caps ->
  match spent_cap caps (zip_with cap_status caps vs) now with
  | Some (cap, status, wait) =>
      wait = cap_wait now cap /\
      exists i v, caps !! i = Some cap /\ vs !! i = Some v /\ bc_limit_tokens cap <= v /\
        status = cap_status cap v /\
        forall j cap' v', caps !! j = Some cap' -> vs !! j = Some v' -> bc_limit_tokens cap' <= v' ->
          cap_wait now cap' <= wait
  | None => forall i cap v, caps !! i = Some cap -> vs !! i = Some v -> v < bc_limit_tokens cap
  end.
Proof.
  intros Hlen. unfold spent_cap.
  set (l := (fun '(cap, status) => (cap, status, secs_until_period_end (bc_period cap) now)) <$> _).
  assert (Hin : forall x, x ∈ l <-> exists i cap v, caps !! i = Some cap /\ vs !! i = Some v /\
    bc_limit_tokens cap <= v /\ x = (cap, cap_status cap v, cap_wait now cap)).
  { intros x. subst l. rewrite list_elem_of_fmap. split.
    - intros ([cap st] & -> & [Hf Hz]%list_elem_of_filter).
      apply list_elem_of_lookup in Hz as [i Hi]. apply lookup_zip_with_Some in Hi as (c & s' & [= <- <-] & Hc & Hst).
      apply lookup_zip_with_Some in Hst as (c' & v & -> & Hc' & Hv). rewrite Hc in Hc'. simplify_eq.
      by exists i, c', v.
    - intros (i & cap & v & Hc & Hv & Hle & ->). exists (cap, cap_status cap v). split; [done|].
      apply list_elem_of_filter. split; [done|]. apply list_elem_of_lookup. exists i.
      apply lookup_zip_with_Some. exists cap, (cap_status cap v). split_and!; [done|done|].
      apply lookup_zip_with_Some. by exists cap, v. }
  pose proof (max_by_key_spec snd l) as Hmax. destruct (max_by_key snd l) as [[[cap st] wait]|].
  - destruct Hmax as [(i & c & v & Hc & Hv & Hle & [= -> -> ->])%Hin Hmax]. split; [done|].
    exists i, v. split_and!; try done. intros j cap' v' Hc' Hv' Hle'.
    apply (Hmax (cap', cap_status cap' v', cap_wait now cap')), Hin. by exists j, cap', v'.
  - intros i cap v Hc Hv. destruct (decide (bc_limit_tokens cap <= v)); [|lia]. exfalso.
    assert ((cap, cap_status cap v, cap_wait now cap) ∈ l) as Hx by (apply Hin; by exists i, cap, v).
    rewrite Hmax in Hx. by apply elem_of_nil in Hx.
Qed.

(** The row and the answer of a refusal for a spent cap. *)
Definition budget_row (state : Raw I) (cap : BudgetCap U) (spent wait : Z) : AuditEntry :=
  with_detail (JObj [("limit", JStr (budget_label cap)); ("current", JNum spent);
                     ("max", JNum (bc_limit_tokens cap)); ("retry_after_secs", JNum wait)])
    (with_trace_id (raw_trace_id state) (audit_entry (raw_identity state) "budget_exceeded")).

Definition unreadable_row (state : Raw I) : AuditEntry :=
  with_trace_id (raw_trace_id state) (audit_entry (raw_identity state) "budget_unavailable").

(** What [check_budget] does with what it could read. *)
Definition budget_verdict (state : Raw I) caps links t_read now (fail_closed : bool) w
    (out : gates Hs Ks * result R (Raw I)) : Prop :=
  (exists vs, reads links caps t_read (g_counters w) vs /\
     (forall i cap v, caps !! i = Some cap -> vs !! i = Some v -> v < bc_limit_tokens cap) /\
     out = (w, Ok state)) \/
  (exists vs i cap v, reads links caps t_read (g_counters w) vs /\
     caps !! i = Some cap /\ vs !! i = Some v /\ bc_limit_tokens cap <= v /\
     (forall j cap' v', caps !! j = Some cap' -> vs !! j = Some v' -> bc_limit_tokens cap' <= v' ->
        cap_wait now cap' <= cap_wait now cap) /\
     out = (log (budget_row state cap v (cap_wait now cap)) w,
            Err (budget_exceeded_response (budget_label cap) (cap_wait now cap)))) \/
  (exists i cap e, caps !! i = Some cap /\ spend (links i) cap t_read (g_counters w) = Err e /\
     out = if fail_closed then (log (unreadable_row state) w, Err budget_unavailable_response)
           else (w, Ok state)).

Lemma check_budget_verdict (state : Raw I) caps links t_read now fail_closed w :
  budget_verdict state caps links t_read now fail_closed w
    (check_budget state caps links t_read now fail_closed w).
Proof.
  unfold check_budget. case_bool_decide as Hnil.
  { left. exists []. subst. split_and!; [split; [done|]| |done]; intros i c v Hc; by rewrite lookup_nil in Hc. }
  pose proof (read_spend_spec links caps t_read (g_counters w)) as Hr.
  destruct (read_spend links caps t_read (g_counters w)) as [sts|e].
  - destruct Hr as (vs & Hvs & ->). pose proof (spent_cap_spec caps vs now (proj1 Hvs)) as Hsp.
    destruct (spent_cap _ _ _) as [[[cap st] wait]|].
    + destruct Hsp as (-> & i & v & Hc & Hv & Hle & -> & Hmax). right. left. by exists vs, i, cap, v.
    + left. by exists vs.
  - destruct Hr as (i & cap & Hi & He). right. right. exists i, cap, e. by destruct fail_closed.
Qed.

(** [check_budget] refuses a request exactly when a cap it reads is spent, naming the spent cap
    whose period ends last and that period's end; unspent caps let it through.  A read that fails
    never counts as unspent: it lets the request through or refuses it as [fail_closed] says.
    Nothing is charged, and a refusal logs one row saying what was answered. *)
Theorem check_budget_decides (state : Raw I) caps links t_read now fail_closed w :
  budget_verdict state caps links t_read now fail_closed w
    (check_budget state caps links t_read now fail_closed w).
Proof. apply check_budget_verdict. Qed.

(** *** The rate limits *)

Definition g_with_hashes (s : Hs) w : gates Hs Ks :=
  {| g_hashes := s; g_counters := g_counters w; g_audit := g_audit w |}.

Definition limited_row (state : AccessChecked I) (label : string) (wait : Z) : AuditEntry :=
  with_detail (JObj [("limit", JStr label); ("retry_after_secs", JNum wait)])
    (with_trace_id (acc_trace_id state) (audit_entry (acc_identity state) "rate_limited")).

(** Nothing outside the request's counters is written. *)
Definition only_keys (ks : list string) (s s' : Hs) : Prop :=
  forall k f, k ∉ ks -> hget k f s' = hget k f s.

Lemma check_limits_room (state : AccessChecked I) rules owner t fail_closed w :
  let cs := rule_counter owner <$> rules in
  wf cs (g_hashes w) -> (forall c, c ∈ cs -> window c t (g_hashes w) < ct_max_count c) ->
  exists s' cur, check_limits state rules owner LinkOk t fail_closed w =
      (g_with_hashes s' w, Ok (authorize state cur)) /\
    cur = ((fun c => window c t (g_hashes w) + ct_charge c) <$> cs) /\
    charged_if true t cs (g_hashes w) s' /\ (forall k, counter_ok k (g_hashes w) -> counter_ok k s') /\
    only_keys (ct_key <$> cs) (g_hashes w) s'.
Proof.
  intros cs Hwf Hroom. unfold check_limits, admit_at. fold cs.
  destruct (admit_room t cs (g_hashes w) Hwf) as (s' & o & Heq & Ha & _ & _ & Hcur & Hch & Hok & Hf & _).
  { intros c Hc. specialize (Hroom c Hc). unfold full. lia. }
  rewrite Heq. case_bool_decide as Hr.
  - subst rules. subst cs. simpl in *. exists (g_hashes w), []. destruct w. split_and!; try done.
    intros c b Hc. by apply elem_of_nil in Hc.
  - cbn iota. rewrite Ha. cbn [negb]. exists s', (co_currents o). by split_and!.
Qed.

Lemma check_limits_full (state : AccessChecked I) rules owner t fail_closed w c :
  let cs := rule_counter owner <$> rules in
  wf cs (g_hashes w) -> c ∈ cs -> ct_max_count c <= window c t (g_hashes w) ->
  exists s' r wait, r ∈ rules /\
    check_limits state rules owner LinkOk t fail_closed w =
      (log (limited_row state (rate_label r) wait) (g_with_hashes s' w),
       Err (rate_limited_response (rate_label r) wait)) /\
    full (rule_counter owner r) t (g_hashes w) /\
    wait = retry_after_secs (wait_of (rule_counter owner r) t (g_hashes w)) /\
    charged_if false t cs (g_hashes w) s' /\ (forall k, counter_ok k (g_hashes w) -> counter_ok k s') /\
    only_keys (ct_key <$> cs) (g_hashes w) s'.
Proof.
  intros cs Hwf Hc Hfull. unfold check_limits, admit_at. fold cs.
  destruct (admit_full t cs (g_hashes w) Hwf) as (s' & o & i & d & Hi & Hd & _ & Heq & Ha & He & Hw & _ & Hch & Hp).
  { by exists c. }
  rewrite Heq, bool_decide_eq_false_2 by (intros ->; by apply elem_of_nil in Hc).
  cbn iota. rewrite Ha, He, Hw. cbn [negb mbind option_bind].
  pose proof Hi as Hi'. subst cs. apply list_lookup_fmap_Some in Hi' as (r & -> & Hr). rewrite Hr.
  exists s', r, (retry_after_secs (wait_of (rule_counter owner r) t (g_hashes w))). split_and!; try done.
  - by eapply list_elem_of_lookup_2.
  - intros k Hk. by eapply pruned_counter_ok.
  - intros k f Hk. by eapply pruned_frame.
Qed.

(** The limiter's link decides what its answer is worth: with an answer, every window must have
    room; without one, [fail_closed] decides, and a request without rules is not asked about. *)
Definition has_room rules (owner : U) t (s : Hs) : Prop :=
  forall c, c ∈ rule_counter owner <$> rules -> window c t s < ct_max_count c.

Definition limits_pass (l : link) rules owner t (fail_closed : bool) s : Prop :=
  match l with
  | LinkOk => has_room rules owner t s
  | _ => fail_closed = false \/ rules = []
  end.

Lemma has_room_dec rules owner t s :
  has_room rules owner t s \/ exists c, c ∈ rule_counter owner <$> rules /\ ct_max_count c <= window c t s.
Proof.
  destruct (any_full_dec (rule_counter owner <$> rules) t s) as [Hf|Hr]; [by right|left].
  intros c Hc. specialize (Hr c Hc). unfold full in Hr. lia.
Qed.

(** What the limiter's script leaves, whether or not its answer arrives. *)
Lemma admit_charges (l : link) rules owner t (fail_open : bool) s :
  let cs := rule_counter owner <$> rules in
  wf cs s ->
  exists charged : bool,
    (charged = true <-> l <> LinkDown /\ has_room rules owner t s) /\
    charged_if charged t cs s (admit_at l rules owner t fail_open s).1 /\
    (forall k, counter_ok k s -> counter_ok k (admit_at l rules owner t fail_open s).1) /\
    only_keys (ct_key <$> cs) s (admit_at l rules owner t fail_open s).1.
Proof.
  intros cs Hwf.
  assert (Hst : l <> LinkDown -> (admit_at l rules owner t fail_open s).1 = (admit_counters_at LinkOk cs t s).1).
  { intros Hl. unfold admit_at, admit_counters_at. fold cs. destruct cs; [done|].
    unfold run_script. destruct l, (lua_admit _ _ _); done. }
  destruct (decide (l = LinkDown)) as [-> |Hl].
  { exists false. unfold admit_at, admit_counters_at. fold cs.
    split_and!; [by split; [|intros [? _]]|..]; destruct cs; try done; intros ????; simpl; lia. }
  rewrite Hst by done. destruct (has_room_dec rules owner t s) as [Hroom|(c & Hc & Hfull)].
  - exists true. destruct (admit_room t cs s Hwf) as (s' & o & -> & _ & _ & _ & _ & Hch & Hok & Hf & _).
    { intros c Hc. specialize (Hroom c Hc). unfold full. lia. }
    by split_and!.
  - exists false. destruct (admit_full t cs s Hwf) as (s' & o & i & d & _ & _ & _ & -> & _ & _ & _ & _ & Hch & Hp).
    { by exists c. }
    split_and!; [|done|intros k Hk; by eapply pruned_counter_ok|intros k f Hk; by eapply pruned_frame].
    split; [done|]. intros [_ Hall]. specialize (Hall c Hc). lia.
Qed.

Lemma check_limits_hashes (state : AccessChecked I) rules owner l t fail_closed w :
  g_hashes (check_limits state rules owner l t fail_closed w).1 =
  (admit_at l rules owner t (negb fail_closed) (g_hashes w)).1.
Proof.
  unfold check_limits. case_bool_decide as Hr; [by subst|].
  destruct (admit_at _ _ _ _ _ _) as [s0 [o|]]; [by destruct (co_allowed o)|done].
Qed.

Lemma check_limits_cases (state : AccessChecked I) rules owner l t fail_closed w :
  let cs := rule_counter owner <$> rules in
  let s' := (admit_at l rules owner t (negb fail_closed) (g_hashes w)).1 in
  wf cs (g_hashes w) ->
  (limits_pass l rules owner t fail_closed (g_hashes w) /\ exists cur,
     check_limits state rules owner l t fail_closed w = (g_with_hashes s' w, Ok (authorize state cur))) \/
  (~ limits_pass l rules owner t fail_closed (g_hashes w) /\ exists row e,
     check_limits state rules owner l t fail_closed w = (log row (g_with_hashes s' w), Err e) /\
     ae_trace_id row = Some (acc_trace_id state) /\
     (e = rate_limiter_unavailable_response \/ exists label wait, e = rate_limited_response label wait)).
Proof.
  intros cs s' Hwf. destruct (decide (rules = [])) as [-> |Hne].
  { left. split; [destruct l; [intros c Hc; by apply elem_of_nil in Hc|by right..]|].
    exists []. subst s'. by destruct w. }
  assert (Hun : l <> LinkOk -> check_limits state rules owner l t fail_closed w =
      (if fail_closed then (log (with_trace_id (acc_trace_id state)
            (audit_entry (acc_identity state) "rate_limiter_unavailable")) (g_with_hashes s' w),
          Err rate_limiter_unavailable_response)
       else (g_with_hashes s' w, Ok (authorize state [])))).
  { intros Hl. destruct (admit_failure_policy l rules owner t (negb fail_closed) (g_hashes w) Hl Hne) as [Hr _].
    unfold check_limits. rewrite bool_decide_eq_false_2 by done. subst s'.
    destruct (admit_at _ _ _ _ _ _) as [s0 r]. cbn [fst snd] in *. subst r. by destruct fail_closed. }
  destruct (decide (l = LinkOk)) as [-> |Hl].
  - destruct (has_room_dec rules owner t (g_hashes w)) as [Hroom|(c & Hc & Hfull)].
    + left. split; [done|]. destruct (check_limits_room state rules owner t fail_closed w Hwf Hroom)
        as (s1 & cur & Heq & _). exists cur.
      subst s'. by rewrite <- (check_limits_hashes state), Heq.
    + right. split; [intros Hall; specialize (Hall c Hc); lia|].
      destruct (check_limits_full state rules owner t fail_closed w c Hwf Hc Hfull)
        as (s1 & r & wait & _ & Heq & _).
      exists (limited_row state (rate_label r) wait), (rate_limited_response (rate_label r) wait).
      split_and!; [|done|right; by eexists _, _].
      subst s'. by rewrite <- (check_limits_hashes state), Heq.
  - rewrite Hun by done. destruct fail_closed; [right|left]; (split; [unfold limits_pass; destruct l; naive_solver|]).
    + eexists _, _. split_and!; [done|done|by left].
    + by eexists.
Qed.
End GateSpecs.
