(* ===== verification/Pipeline.v ===== *)
(** * The AI gateway's pre-flight

    [crates/gateway/src/proxy/pipeline.rs] and [identity.rs], with the gates' half of the
    [ChatCompletionSurface] of [lifecycle/mod.rs]: who a request runs as, which models it may
    call, and the three gates in order, ending with the count of the request on its key and
    its owner.  The hooks after the call are arguments. *)

From S2P Require Import Prelude Interfaces LimitTypes Constraints Sliding Budget Effects GatewayDeps GatewayError.
From S2P Require Import SlidingSpec Limiter Usage AuditRow Lifecycle.

Section Pipeline.
Context `{Calendar} {U : Type} `{UuidParse U} {Hs Ks : Type} `{Redis Hs} `{RedisKV Ks}.

Record GatewayRequestIdentity := {
  gi_user_id : option string;
  gi_user_email : option string;
  gi_api_key_id : option string;
  gi_api_key_lineage_id : option string;
  gi_allowed_models : option (list string);
  gi_surface_constraints : SurfaceConstraints;
  gi_key_constraints : SurfaceConstraints;
  gi_ip_address : option string;
  gi_key_expires_at : option Z;
}.

Definition may_call (identity : GatewayRequestIdentity) (model : string) : bool :=
  match gi_allowed_models identity with
  | None => true
  | Some allowed => existsb (fun m => String.eqb model m || starts_with m model) allowed
  end.

Definition RequestLimits_default : RequestLimits U :=
  {| rq_owner := uuid_nil; rq_key_lineage := None; rq_rules := []; rq_caps := [] |}.

Definition limits_for_ai_gateway (identity : GatewayRequestIdentity) : RequestLimits U :=
  match gi_user_id identity ≫= uuid_parse with
  | None => RequestLimits_default
  | Some user_id =>
      for_request Surface.AiGateway user_id (gi_surface_constraints identity)
        ((fun lineage => (lineage, gi_key_constraints identity)) <$>
           (gi_api_key_lineage_id identity ≫= uuid_parse))
  end.

(** [Completed] is the whole answer. *)
Inductive ChatCompletionOutcome {Completed : Type} :=
  | Success (c : Completed)
  | ShortCircuit (e : GatewayError).
#[global] Arguments ChatCompletionOutcome : clear implicits.

Context {Completed C W : Type}.
Context (chat_record_outcome chat_write_cache chat_record_usage chat_emit_audit :
  Invoked GatewayRequestIdentity (ChatCompletionOutcome Completed) C -> prog W unit).

Definition chat_audit_entry (identity : GatewayRequestIdentity) (action : string) : AuditEntry :=
  GatewayActor_audit (U := U)
    {| ga_user_id := gi_user_id identity; ga_user_email := gi_user_email identity;
       ga_api_key_id := gi_api_key_id identity;
       ga_api_key_lineage_id := gi_api_key_lineage_id identity;
       ga_ip := gi_ip_address identity; ga_session_id := None |} action.

Definition ChatCompletionSurface :
    Surface GatewayRequestIdentity (ChatCompletionOutcome Completed) C W := {|
  audit_entry := chat_audit_entry;
  rate_limited_response label secs := ShortCircuit (rate_limited label secs);
  rate_limiter_unavailable_response := ShortCircuit (limiter_unavailable "rate_limiter_unavailable");
  is_access_allowed := may_call;
  access_denied_response candidate := ShortCircuit
    (TransformError ("Model '" +:+ candidate +:+ "' is not allowed for this API key"));
  budget_exceeded_response label secs := ShortCircuit (budget_exhausted label secs);
  budget_unavailable_response := ShortCircuit (limiter_unavailable "budget_unavailable");
  hook_record_outcome := chat_record_outcome;
  hook_write_cache := chat_write_cache;
  hook_record_usage := chat_record_usage;
  hook_emit_audit := chat_emit_audit;
|}.

#[local] Existing Instance ChatCompletionSurface.

Record Preflight := { pf_limits : RequestLimits U }.

(** [None] is the [unreachable!] of a gate that answers with a success. *)
Definition short_circuit_to_response (outcome : ChatCompletionOutcome Completed) : option GatewayError :=
  match outcome with ShortCircuit e => Some e | Success _ => None end.

Definition refuse {A} (w : gates Hs Ks) (outcome : ChatCompletionOutcome Completed)
    : gates Hs Ks * option (result GatewayError A) :=
  (w, Err <$> short_circuit_to_response outcome).

(** The readings of the clock, in nanoseconds but for [t_admit], which is in milliseconds:
    the read of the budgets, the budget gate's own, the limiter's and the usage count's. *)
Definition run_preflight_stages (links : nat -> link) (l_admit l_usage : link)
    (started_at t_read t_budget t_admit t_usage : Z) (fail_closed : bool)
    (identity : GatewayRequestIdentity) (trace_id model : string)
    : prog (gates Hs Ks) (option (result GatewayError Preflight)) := fun w =>
  let limits := limits_for_ai_gateway identity in
  let raw := {| raw_identity := identity; raw_trace_id := trace_id; raw_started_at := started_at;
                raw_client_ip := gi_ip_address identity |} in
  let '(w, r) := check_budget raw (rq_caps limits) links t_read t_budget fail_closed w in
  match r with
  | Err e => refuse w e
  | Ok raw =>
      let '(w, r) := check_access raw model w in
      match r with
      | Err e => refuse w e
      | Ok access_checked =>
          let '(w, r) := check_limits access_checked (rq_rules limits) (rq_owner limits)
                           l_admit t_admit fail_closed w in
          match r with
          | Err e => refuse w e
          | Ok _ =>
              let w := match rq_key_lineage limits with
                       | Some lineage =>
                           {| g_hashes := (record_request l_usage (rq_owner limits) lineage t_usage (g_hashes w)).1;
                              g_counters := g_counters w; g_audit := g_audit w |}
                       | None => w
                       end in
              (w, Some (Ok {| pf_limits := limits |}))
          end
      end
  end.
End Pipeline.
#[global] Arguments Preflight : clear implicits.

(** ** What the pre-flight promises *)

Section PreflightSpec.
Context `{CalendarLaws} {U : Type} `{UuidLaws U} `{!UuidParse U} {Hs Ks : Type} `{RedisLaws Hs} `{RedisKV Ks}.
Context {Completed C W : Type}.
Context (h1 h2 h3 h4 :
  Invoked GatewayRequestIdentity (ChatCompletionOutcome Completed) C -> prog W unit).
Implicit Types (w : gates Hs Ks) (s : Hs).

(** The caps do not stop the request: all read as unspent, or one did not read and the policy
    is to go on. *)
Definition budgets_pass (caps : list (BudgetCap U)) links t_read (fail_closed : bool) (ks : Ks) : Prop :=
  (exists vs, reads links caps t_read ks vs /\
     forall i cap v, caps !! i = Some cap -> vs !! i = Some v -> v < bc_limit_tokens cap) \/
  (exists i cap e, caps !! i = Some cap /\ spend (links i) cap t_read ks = Err e) /\ fail_closed = false.

Lemma reads_unique links caps t (ks : Ks) vs vs' i cap v v' :
  reads (U := U) links caps t ks vs -> reads links caps t ks vs' ->
  caps !! i = Some cap -> vs !! i = Some v -> vs' !! i = Some v' -> v = v'.
Proof.
  intros [_ H1'] [_ H2'] Hc Hv Hv'. specialize (H1' _ _ _ Hc Hv). specialize (H2' _ _ _ Hc Hv'). congruence.
Qed.

Lemma reads_no_error links caps t (ks : Ks) vs i cap e :
  reads (U := U) links caps t ks vs -> caps !! i = Some cap -> spend (links i) cap t ks <> Err e.
Proof.
  intros [Hlen Hr] Hc. destruct (lookup_lt_is_Some_2 vs i) as [v Hv].
  { rewrite Hlen. by eapply lookup_lt_Some. }
  by rewrite (Hr _ _ _ Hc Hv).
Qed.

Lemma check_budget_cases {I R C0 W0} `{Surface I R C0 W0} (state : Raw I) caps links t_read now fail_closed w :
  (budgets_pass caps links t_read fail_closed (g_counters w) /\
   check_budget state caps links t_read now fail_closed w = (w, Ok state)) \/
  (~ budgets_pass caps links t_read fail_closed (g_counters w) /\
   exists row e, check_budget state caps links t_read now fail_closed w = (log row w, Err e) /\
     ae_trace_id row = Some (raw_trace_id state) /\
     (e = budget_unavailable_response \/ exists label wait, e = budget_exceeded_response label wait)).
Proof.
  destruct (check_budget_verdict state caps links t_read now fail_closed w)
    as [(vs & Hr & Hun & ->)|[(vs & i & cap & v & Hr & Hc & Hv & Hle & _ & ->)|(i & cap & e & Hc & He & ->)]].
  - left. split; [|done]. left. by exists vs.
  - right. split.
    + intros [(vs' & Hr' & Hun)|[(j & cap' & e & Hc' & He) _]]; [|by eapply reads_no_error].
      destruct (lookup_lt_is_Some_2 vs' i) as [v' Hv'].
      { destruct Hr' as [-> _]. by eapply lookup_lt_Some. }
      specialize (Hun _ _ _ Hc Hv'). rewrite (reads_unique _ _ _ _ _ _ _ _ _ _ Hr Hr' Hc Hv Hv') in Hle. lia.
    + eexists _, _. split_and!; [done|done|]. right. by eexists _, _.
  - destruct fail_closed.
    + right. split; [|eexists _, _; split_and!; [done|done|by left]].
      intros [(vs & Hr & _)|[_ [=]]]. by eapply reads_no_error.
    + left. split; [|done]. right. split; [|done]. by exists i, cap, e.
Qed.

Lemma usage_key_not_counter (o : U) subj p t (owner : U) (rules : list (RateLimitRule U)) :
  usage_key o subj p t ∉ ct_key <$> (rule_counter owner <$> rules).
Proof.
  rewrite <- list_fmap_compose. intros (r & Hk & _)%list_elem_of_fmap. revert Hk.
  unfold usage_key, compose, rule_counter, ResolvedRule_new, counter_key. simpl. by destruct subj.
Qed.

Lemma all_ints_admitted cs s s' :
  all_ints s -> Forall (fun c => static_ok c /\ counter_ok (ct_key c) s) cs ->
  (forall k, counter_ok k s -> counter_ok k s') -> only_keys (ct_key <$> cs) s s' -> all_ints s'.
Proof.
  intros Hints Hcs Hok Hf k f v Hv. destruct (decide (k ∈ ct_key <$> cs)) as [(c & -> & Hc)%list_elem_of_fmap|Hk].
  - rewrite Forall_forall in Hcs. destruct (Hcs c Hc) as [_ Hc0].
    destruct (Hok _ Hc0 f v Hv) as (b & n & _ & -> & _). by exists n.
  - rewrite Hf in Hv by done. by eapply Hints.
Qed.

Lemma bucket_frame' c s s' : (forall f, hget (ct_key c) f s' = hget (ct_key c) f s) ->
  forall b, bucket (ct_key c) s' b = bucket (ct_key c) s b.
Proof. intros Hf b. unfold bucket. by rewrite Hf. Qed.

(** [n] more requests are counted for this key and its owner, and nothing else on any usage
    hash. *)
Definition usage_grows (owner : U) (lineage : option U) (n t : Z) s s' : Prop :=
  forall o subj p f t', is_period p ->
    count o subj p f t' s' = count o subj p f t' s +
      match lineage with
      | Some l => if decide (f = "requests" /\ counts_here owner l t o subj p t') then n else 0
      | None => 0
      end.

Lemma usage_same (owner : U) lineage t (rules : list (RateLimitRule U)) s s' :
  only_keys (ct_key <$> (rule_counter owner <$> rules)) s s' -> usage_grows owner lineage 0 t s s'.
Proof.
  intros Hf o subj p f t' _. unfold count, field_value. rewrite Hf by apply usage_key_not_counter.
  destruct lineage; [case_decide|]; lia.
Qed.

Lemma record_request_grows l_usage owner lineage t s0 s :
  all_ints s -> usage_grows owner (Some lineage) 0 t s0 s ->
  (forall k, k ∈ request_keys owner lineage t -> in_i64 (field_value k "requests" s + 1)) ->
  let s' := (record_request l_usage owner lineage t s).1 in
  usage_grows owner (Some lineage) (match l_usage with LinkDown => 0 | _ => 1 end) t s0 s' /\
  only_keys (request_keys owner lineage t) s s'.
Proof.
  intros Hints Hs0 Hfit s'. pose proof (lua_add_total 1 _ _ _ _ Hints (request_keys_nodup _ _ _) Hfit) as Htot.
  pose proof (lua_add_frame 1 (request_keys owner lineage t) "requests" 1 s) as Hframe.
  subst s'. unfold record_request, usage_add. fold (request_keys owner lineage t).
  change (1 <=? 0) with false. cbn iota.
  destruct (lua_add 1 (request_keys owner lineage t) "requests" 1 s) as [s1 u] eqn:E.
  cbn [fst snd] in Htot, Hframe. subst u.
  destruct (add_counts owner lineage "requests" 1 t s s1 Hints E) as [_ Hc].
  assert (Hgrow : usage_grows owner (Some lineage) 1 t s0 s1).
  { intros o subj p f t' Hp. rewrite Hc, Hs0 by done. repeat case_decide; lia. }
  destruct l_usage; cbn [run_script]; rewrite ?E; cbn [fst ok_or];
    (split; [done|]); intros k f Hk; by rewrite ?Hframe.
Qed.

Lemma request_keys_not_counters (o l owner : U) t (rules : list (RateLimitRule U)) c :
  c ∈ rule_counter owner <$> rules -> ct_key c ∉ request_keys o l t.
Proof.
  intros Hc Hk. assert (ct_key c ∈ ct_key <$> (rule_counter owner <$> rules)) as Hin by (by apply list_elem_of_fmap_2).
  unfold request_keys, keys in Hk. simpl in Hk. rewrite !elem_of_cons, elem_of_nil in Hk.
  repeat destruct Hk as [Hk|Hk]; try done; rewrite Hk in Hin; by apply usage_key_not_counter in Hin.
Qed.

(** C5: The pre-flight of a request, whatever its links do, over well-formed rules and integer
    counters.  It goes through exactly when its caps pass, its model is allowed and its limits
    pass: with the limiter's answer, every window has room; without it, the policy is to go on
    (or there are no rules).  Every window is charged, once, exactly when the first two gates
    pass, the limiter is reached and every window has room: so a refused request is charged
    nowhere unless the limiter's answer was lost.  The request is counted for its key and its
    owner, once, when it goes through and the count reaches Redis, and nowhere else.  Refused,
    it logs one row, under its trace id; admitted, none.  The budgets' counters are only read. *)
Theorem preflight_decides links l_admit l_usage started t_read t_budget t_admit t_usage fail_closed
    (identity : GatewayRequestIdentity) trace model w :
  let limits := limits_for_ai_gateway (U := U) identity in
  let owner := rq_owner limits in
  let rules := rq_rules limits in
  let cs := rule_counter owner <$> rules in
  let reaches := budgets_pass (rq_caps limits) links t_read fail_closed (g_counters w) /\
                 may_call identity model = true in
  wf cs (g_hashes w) -> all_ints (g_hashes w) ->
  (forall l k, rq_key_lineage limits = Some l -> k ∈ request_keys owner l t_usage ->
     in_i64 (field_value k "requests" (g_hashes w) + 1)) ->
  exists w' r rows charged,
    run_preflight_stages h1 h2 h3 h4 links l_admit l_usage started t_read t_budget t_admit
      t_usage fail_closed identity trace model w = (w', Some r) /\
    (is_ok r = true <-> reaches /\ limits_pass l_admit rules owner t_admit fail_closed (g_hashes w)) /\
    (charged = true <-> reaches /\ l_admit <> LinkDown /\ has_room rules owner t_admit (g_hashes w)) /\
    charged_if charged t_admit cs (g_hashes w) (g_hashes w') /\
    usage_grows owner (rq_key_lineage limits)
      (if is_ok r then match l_usage with LinkDown => 0 | _ => 1 end else 0) t_usage (g_hashes w) (g_hashes w') /\
    g_counters w' = g_counters w /\
    g_audit w' = g_audit w ++ rows /\
    match r with
    | Ok pf => pf_limits pf = limits /\ rows = []
    | Err _ => exists row, rows = [row] /\ ae_trace_id row = Some trace
    end.
Proof.
  intros limits owner rules cs reaches Hwf Hints Hfit. unfold run_preflight_stages. fold limits owner rules.
  assert (Hid : charged_if false t_admit cs (g_hashes w) (g_hashes w) /\
      usage_grows owner (rq_key_lineage limits) 0 t_usage (g_hashes w) (g_hashes w)).
  { split; [intros ????; simpl; lia|by apply (usage_same _ _ _ rules)]. }
  set (raw := {| raw_identity := identity |}).
  destruct (check_budget_cases (H6 := ChatCompletionSurface h1 h2 h3 h4) raw (rq_caps limits) links t_read
      t_budget fail_closed w) as [[Hpass ->]|(Hstop & row & e & -> & Htrace & He)]; cycle 1.
  { assert (exists e', e = ShortCircuit e') as [e' ->] by (destruct He as [->|(? & ? & ->)]; by eexists).
    eexists _, _, [row], false. split; [reflexivity|].
    split_and!; [by split; [|intros [[? _] _]]|by split; [|intros [[? _] _]]|apply Hid..|done|done|by exists row]. }
  unfold check_access. cbn [is_access_allowed ChatCompletionSurface raw_identity raw].
  destruct (may_call identity model) eqn:Hcall; cbn [negb]; cycle 1.
  { eexists _, _, [_], false. split; [reflexivity|].
    split_and!; [by split; [|intros [[_ ?] _]]|by split; [|intros [[_ ?] _]]|apply Hid..|done|done|by eexists]. }
  assert (Hreach : reaches) by done. set (state := {| acc_identity := _ |}).
  destruct (admit_charges l_admit rules owner t_admit (negb fail_closed) (g_hashes w) Hwf)
    as (charged & Hiff & Hch & Hok & Hframe). fold cs in Hch, Hframe.
  destruct (check_limits_cases (SF := ChatCompletionSurface h1 h2 h3 h4) state rules owner l_admit t_admit
      fail_closed w Hwf) as [[Hl (cur & ->)]|[Hl (row & e & -> & Htrace & He)]]; cycle 1.
  { assert (exists e', e = ShortCircuit e') as [e' ->] by (destruct He as [->|(? & ? & ->)]; by eexists).
    eexists _, _, [row], charged. split; [reflexivity|].
    split_and!; [by split; [|intros [_ ?]]|naive_solver|done|by eapply usage_same|done|done|by exists row]. }
  set (s' := (admit_at _ _ _ _ _ _).1) in *.
  assert (Hints' : all_ints s') by (eapply all_ints_admitted; [done|apply Hwf|done|done]).
  eexists _, _, [], charged. split; [reflexivity|]. rewrite app_nil_r.
  destruct (rq_key_lineage limits) as [l|] eqn:Hlin.
  - destruct (record_request_grows l_usage owner l t_usage (g_hashes w) s' Hints') as [Hg Hf'].
    { by eapply usage_same. }
    { intros k Hk. unfold field_value. rewrite Hframe; [by eapply Hfit|]. intros Hin.
      apply list_elem_of_fmap in Hin as (c & -> & Hc). by eapply request_keys_not_counters. }
    cbn [g_counters g_audit g_hashes is_ok]. split_and!; [done|naive_solver| |done..].
    intros c b Hc Hb. rewrite (bucket_frame' c s'); [by apply Hch|].
    intros f. apply Hf'. by eapply request_keys_not_counters.
  - cbn [g_counters g_audit g_hashes is_ok g_with_hashes]. split_and!; [done|naive_solver|done| |done..].
    intros o subj p f t' Hp. unfold count, field_value. rewrite Hframe by apply usage_key_not_counter. lia.
Qed.
End PreflightSpec.

(** ** Witnesses: Alice's key, ten requests a minute for her and five for the key *)

Definition demo_identity : GatewayRequestIdentity :=
  {| gi_user_id := Some (uuid_str UAlice); gi_user_email := None; gi_api_key_id := None;
     gi_api_key_lineage_id := Some (uuid_str UKey1); gi_allowed_models := Some ["gpt-"];
     gi_surface_constraints := demo_limits 10; gi_key_constraints := demo_limits 5;
     gi_ip_address := None; gi_key_expires_at := None |}.

Definition demo_gates : gates hstore (gmap string Z) :=
  {| g_hashes := hs_empty; g_counters := ∅; g_audit := [] |}.

Definition no_hook : Invoked GatewayRequestIdentity (ChatCompletionOutcome unit) unit -> prog unit unit :=
  fun _ => mret tt.

Definition demo_preflight (l_admit : link) (fail_closed : bool) (model : string) :=
  run_preflight_stages (U := demo_uuid) no_hook no_hook no_hook no_hook (fun _ => LinkOk) l_admit LinkOk
    0 0 0 0 0 fail_closed demo_identity "trace" model demo_gates.

Example demo_preflight_ok :
  is_ok <$> (demo_preflight LinkOk true "gpt-4o").2 = Some true /\
  count UAlice SubjUser "daily" "requests" 0 (g_hashes (demo_preflight LinkOk true "gpt-4o").1) = 1 /\
  (ae_action <$> g_audit (demo_preflight LinkOk true "claude").1) = ["access_denied"].
Proof. split_and!; vm_compute; reflexivity. Qed.

Lemma demo_preflight_wf :
  wf (rule_counter (rq_owner (limits_for_ai_gateway (U := demo_uuid) demo_identity)) <$>
      rq_rules (limits_for_ai_gateway (U := demo_uuid) demo_identity)) hs_empty.
Proof.
  assert (limits_for_ai_gateway (U := demo_uuid) demo_identity =
    for_request Surface.AiGateway UAlice (demo_limits 10) (Some (UKey1, demo_limits 5))) as -> by reflexivity.
  apply for_request_wf; [apply demo_limits_ok; by vm_compute| |].
  - intros lineage c [= <- <-]. apply demo_limits_ok. by vm_compute.
  - intros k f v Hv. by rewrite hs_empty_get in Hv.
Qed.

(** Whatever the limiter's link does: here its answer is lost, and the policy is to refuse. *)
Lemma preflight_decides_witness :
  let rules := rq_rules (limits_for_ai_gateway (U := demo_uuid) demo_identity) in
  let cs := rule_counter UAlice <$> rules in
  exists w' r rows charged, demo_preflight ReplyLost true "gpt-4o" = (w', Some r) /\
    is_ok r = false /\ charged = true /\ charged_if charged 0 cs hs_empty (g_hashes w') /\
    length rows = 1%nat /\ g_audit w' = rows.
Proof.
  intros rules cs.
  destruct (preflight_decides (U := demo_uuid) no_hook no_hook no_hook no_hook (fun _ => LinkOk) ReplyLost LinkOk
    0 0 0 0 0 true demo_identity "trace" "gpt-4o" demo_gates demo_preflight_wf hs_empty_ints)
    as (w' & r & rows & charged & Heq & Hok & Hch & Hcharged & _ & _ & Hrows & Hr).
  - intros l k _ _. assert (field_value k "requests" (g_hashes demo_gates) = 0) as -> by reflexivity. by vm_compute.
  - exists w', r, rows, charged. split; [exact Heq|].
    assert (is_ok r = false) as Hbad.
    { destruct r; [|done]. destruct Hok as [Hok _]. destruct (Hok eq_refl) as [_ [?|?]]; done. }
    split; [done|]. assert (charged = true) as Hone.
    { apply Hch. split; [split; [|reflexivity]|split; [done|]].
      { left. exists []. split; [split; [reflexivity|]|]; intros i cap v _; by rewrite lookup_nil. }
      intros c Hc. apply list_elem_of_fmap in Hc as (x & -> & Hx).
      assert (window (rule_counter UAlice x) 0 hs_empty = 0) as Hz by reflexivity.
      change (window (rule_counter UAlice x) 0 hs_empty < ct_max_count (rule_counter UAlice x)). rewrite Hz.
      pose proof (demo_preflight_wf) as [_ Hall]. rewrite Forall_forall in Hall.
      destruct (Hall (rule_counter UAlice x)) as [(_ & [? _] & _) _]; [exact (list_elem_of_fmap_2 (rule_counter UAlice) _ _ Hx)|lia]. }
    split; [done|]. split; [exact Hcharged|]. destruct r; [done|]. destruct Hr as (row & -> & _). by split.
Defined.

(** The same run, evaluated: the request is refused although its windows were charged. *)
Lemma lost_reply_charges :
  (demo_preflight ReplyLost true "gpt-4o").2 = Some (Err (limiter_unavailable "rate_limiter_unavailable")) /\
  (fun r => window (rule_counter UAlice r) 0 (g_hashes (demo_preflight ReplyLost true "gpt-4o").1)) <$>
    rq_rules (limits_for_ai_gateway (U := demo_uuid) demo_identity) = [1; 1].
Proof. split; vm_compute; reflexivity. Qed.
