(* ===== verification/Accounting.v ===== *)
(** * Post-flight accounting

    [crates/gateway/src/proxy/accounting.rs]: what a call used is added to its key's and its
    owner's usage, to its token windows, to the token cap of the route that answered and to
    its budgets, and each alert threshold it crossed is logged.  The weighting of the tokens
    is an argument. *)

From S2P Require Import Prelude Interfaces LimitTypes Constraints Sliding Budget Effects GatewayDeps GatewayError.
From S2P Require Import SlidingSpec Limiter Router RouteCaps Usage AuditRow Lifecycle Pipeline.

Section Accounting.
Context `{Calendar} {U : Type} `{UuidParse U} {Hs Ks : Type} `{Redis Hs} `{RedisKV Ks}.

Definition record_usage_tokens (l : link) (limits : RequestLimits U) (weighted now : Z) (s : Hs) : Hs :=
  match rq_key_lineage limits with
  | None => s
  | Some lineage => (record_tokens l (rq_owner limits) lineage weighted now s).1
  end.

(** [serde_json::to_value(crossing)]. *)
Definition crossing_detail (x : BudgetCrossing U) : jval :=
  JObj [("cap_id", JStr (uuid_str (cx_cap_id x))); ("subject_kind", JStr (cx_subject_kind x));
        ("subject_id", JStr (uuid_str (cx_subject_id x))); ("period", JStr (cx_period x));
        ("threshold_pct", JNum (cx_threshold_pct x)); ("limit_tokens", JNum (cx_limit_tokens x));
        ("current_tokens", JNum (cx_current_tokens x))].

Definition crossing_row (actor : GatewayActor) (x : BudgetCrossing U) : AuditEntry :=
  with_detail (crossing_detail x)
    (with_resource ("budget_cap:" +:+ uuid_str (cx_cap_id x)) LogAudit
       (GatewayActor_audit (U := U) actor "budget.threshold_crossed")).

Definition crossing_actor (user_id user_email api_key_id ip : option string) : GatewayActor :=
  {| ga_user_id := user_id; ga_user_email := user_email; ga_api_key_id := api_key_id;
     ga_api_key_lineage_id := None; ga_ip := ip; ga_session_id := None |}.

(** How each call to Redis goes, and the clock when it is made: nanoseconds for the usage and
    the budgets, milliseconds for the two windows. *)
Record post_flight_net := {
  pn_usage : link; pn_rules : link; pn_route : link; pn_budgets : nat -> link;
  pn_t_usage : Z; pn_t_rules : Z; pn_t_route : Z; pn_t_budgets : Z;
}.

Definition post_flight_account (net : post_flight_net) (weighted : Z) (limits : RequestLimits U)
    (route : option (Caps.RouteCaps U)) (actor : GatewayActor) (w : gates Hs Ks) : gates Hs Ks :=
  if weighted <=? 0 then w else
  let s := record_usage_tokens (pn_usage net) limits weighted (pn_t_usage net) (g_hashes w) in
  let s := (record_at (pn_rules net) (rq_rules limits) (rq_owner limits) RateMetric.Tokens weighted
              (pn_t_rules net) s).1 in
  let s := match route with
           | Some caps => Caps.record_tokens_at (pn_route net) caps weighted (pn_t_route net) s
           | None => s
           end in
  if bool_decide (rq_caps limits = []) then
    {| g_hashes := s; g_counters := g_counters w; g_audit := g_audit w |}
  else
    let '(ks, r) := add_weighted_tokens (pn_budgets net) (rq_caps limits) weighted (pn_t_budgets net)
                      (g_counters w) in
    {| g_hashes := s; g_counters := ks;
       g_audit := g_audit w ++ match r with
                               | Ok (_, crossings) => crossing_row actor <$> crossings
                               | Err _ => []
                               end |}.
End Accounting.

(** ** What it counts *)

Section AccountingSpec.
Context {Hs : Type} `{RedisLaws Hs}.
Implicit Types (s : Hs) (n t : Z).

Lemma bucket_field k s b : bucket k s b = field_value k (tostring (St := Hs) b) s.
Proof. unfold bucket, field_value. by destruct (hget k (tostring b) s). Qed.

Lemma lua_record_counts t n (rs : list (string * Z)) s :
  0 <= n -> NoDup rs.*1 ->
  (forall k bs, (k, bs) ∈ rs -> counter_ok k s /\ in_i64 (bucket k s (t / 1000 / bs) + n)) ->
  exists s', lua_record t n rs s = (s', Some tt) /\
    (forall k bs b, (k, bs) ∈ rs ->
       bucket k s' b = bucket k s b + if decide (b = t / 1000 / bs) then n else 0) /\
    (forall k, counter_ok k s -> counter_ok k s') /\ only_keys rs.*1 s s'.
Proof.
  intros Hn. revert s. induction rs as [|[k0 bs0] rs IH]; intros s Hnd Hok; cbn [lua_record].
  { exists s. split_and!; try done. intros k bs b Hin. by apply elem_of_nil in Hin. }
  rewrite fmap_cons in Hnd. apply NoDup_cons in Hnd as [Hk0 Hnd].
  destruct (Hok k0 bs0) as [Hc0 Hf0]; [by left|].
  destruct (incr_bucket k0 (t / 1000 / bs0) n s Hc0 Hn Hf0) as (s1 & -> & Hb1 & Hok1 & Hfr1).
  destruct (expire_same_counter k0 (bs0 * 120) s1) as [Hexb Hexc].
  destruct (IH (expire k0 (bs0 * 120) s1) Hnd) as (s' & -> & Hb & Hcs & Hfr).
  { intros k bs Hin. assert (k <> k0) as Hne.
    { intros ->. apply Hk0. by apply (list_elem_of_fmap_2 fst rs (k0, bs)). }
    destruct (Hok k bs) as [Hc Hf]; [by right|]. rewrite Hexc, Hexb.
    split; [by apply Hok1|]. by rewrite (bucket_frame k s s1) by (intros; by apply Hfr1). }
  exists s'. split_and!; [done| | |].
  - intros k bs b [[= -> ->]|Hin]%elem_of_cons.
    + rewrite (bucket_frame k0 (expire k0 (bs0 * 120) s1) s'), Hexb, Hb1; [done|].
      intros f. by apply Hfr.
    + rewrite (Hb k bs b Hin), Hexb, (bucket_frame k s s1); [done|]. intros f. apply Hfr1.
      intros ->. apply Hk0. by apply (list_elem_of_fmap_2 fst rs (k0, bs)).
  - intros k Hk. apply Hcs, Hexc. by apply Hok1.
  - intros k f [Hne Hin]%not_elem_of_cons. rewrite Hfr by done. rewrite hget_expire. by apply Hfr1.
Qed.

Lemma run_script_store {A} l (script : Hs -> Hs * option A) s :
  l <> LinkDown -> (run_script l script s).1 = (script s).1.
Proof. destruct l; [|done|done]. intros _. simpl. by destruct (script s). Qed.

(** Every field has room for [n] more. *)
Definition fits_on (ks : list string) n s : Prop :=
  forall k f, k ∈ ks -> in_i64 (field_value k f s + n).

Lemma fits_frame ks ks' n s s' :
  only_keys ks' s s' -> (forall k, k ∈ ks -> k ∉ ks') -> fits_on ks n s -> fits_on ks n s'.
Proof. intros Hf Hd Hfit k f Hk. unfold field_value. rewrite Hf by auto. by apply Hfit. Qed.

Context {U : Type} `{UuidLaws U}.

Lemma record_at_counts l (rules : list (RateLimitRule U)) owner n t s :
  l <> LinkDown -> 0 < n -> wf (rule_counter owner <$> rules) s ->
  fits_on (ct_key <$> (rule_counter owner <$> rules)) n s ->
  let s' := (record_at l rules owner RateMetric.Tokens n t s).1 in
  (forall r b, r ∈ rules ->
     bucket (ct_key (rule_counter owner r)) s' b = bucket (ct_key (rule_counter owner r)) s b +
       if decide (rr_metric r = RateMetric.Tokens /\ b = cur (rule_counter owner r) t) then n else 0) /\
  (forall k, counter_ok k s -> counter_ok k s') /\
  only_keys (ct_key <$> (rule_counter owner <$> rules)) s s'.
Proof.
  intros Hl Hn [Hnd Hok] Hfit s'.
  set (pair_of := fun r : RateLimitRule U =>
    let r := ResolvedRule_new r owner in (rsv_key r, rsv_bucket_secs r)).
  set (rs := pair_of <$> filter (fun r => rr_metric r = RateMetric.Tokens) rules).
  rewrite <- list_fmap_compose in Hnd |- *. rewrite Forall_fmap, Forall_forall in Hok.
  assert (Hkey : forall r, ct_key (rule_counter owner r) = (pair_of r).1) by done.
  assert (Hsub : rs.*1 ⊆ (ct_key ∘ rule_counter owner) <$> rules).
  { intros k (p & -> & (r & -> & [_ Hr]%list_elem_of_filter)%list_elem_of_fmap)%list_elem_of_fmap.
    apply list_elem_of_fmap. by exists r. }
  assert (Hndr : NoDup rs.*1).
  { subst rs. rewrite <- list_fmap_compose. eapply sublist_NoDup; [exact Hnd|].
    apply (fmap_sublist (ct_key ∘ rule_counter owner)), sublist_filter. }
  destruct (lua_record_counts t n rs s) as (s1 & Hrun & Hb & Hcs & Hfr); [lia|done| |].
  { intros k bs (r & [= -> ->] & [_ Hr]%list_elem_of_filter)%list_elem_of_fmap.
    destruct (Hok r Hr) as [_ Hc]. split; [exact Hc|]. rewrite bucket_field. apply Hfit.
    rewrite <- list_fmap_compose. apply (list_elem_of_fmap_2 (ct_key ∘ rule_counter owner) rules r Hr). }
  assert (Hs' : s' = if bool_decide (rs = []) then s else s1).
  { subst s'. unfold record_at, record_counters_at. fold pair_of. fold rs.
    destruct (bool_decide (rs = [])); [done|]. destruct (n <=? 0) eqn:E; zbool; [lia|]. simpl.
    by rewrite run_script_store, Hrun. }
  assert (s' = s1) as ->.
  { rewrite Hs'. case_bool_decide as Hrs; [|done]. rewrite Hrs in Hrun. simpl in Hrun. congruence. }
  split_and!; [|done|].
  - intros r b Hr. destruct (decide (rr_metric r = RateMetric.Tokens)) as [Hm|Hm].
    + rewrite Hkey. rewrite (Hb (pair_of r).1 (pair_of r).2 b).
      * f_equal. unfold cur. repeat case_decide; naive_solver.
      * rewrite <- surjective_pairing. apply list_elem_of_fmap_2, list_elem_of_filter. by split.
    + rewrite decide_False by naive_solver. rewrite Z.add_0_r. apply bucket_frame. intros f. apply Hfr.
      rewrite Hkey. intros (p & Hp & (r' & -> & [Hm' Hr']%list_elem_of_filter)%list_elem_of_fmap)%list_elem_of_fmap.
      rewrite <- !Hkey in Hp. assert (r = r') as -> by (by apply (NoDup_fmap_elem (ct_key ∘ rule_counter owner) rules)).
      done.
  - intros k f Hk. apply Hfr. by intros Hin%Hsub.
Qed.

(** The token counter of a route with a token cap. *)
Definition route_key (route : option (Caps.RouteCaps U)) : option string :=
  caps ← route; if bool_decide (Caps.rc_tpm caps = None) then None
                else Some (Caps.counter_key (Caps.rc_route_id caps) RateMetric.Tokens).

Definition route_step (route : option (Caps.RouteCaps U)) l n t s : Hs :=
  match route with Some caps => Caps.record_tokens_at l caps n t s | None => s end.

Lemma route_step_counts route l n t s :
  l <> LinkDown -> 0 < n -> (forall k, route_key route = Some k -> counter_ok k s) ->
  fits_on (option_list (route_key route)) n s ->
  (forall k b, route_key route = Some k ->
     bucket k (route_step route l n t s) b =
       bucket k s b + if decide (b = t / 1000 / bucket_secs WINDOW_SECS) then n else 0) /\
  only_keys (option_list (route_key route)) s (route_step route l n t s).
Proof.
  intros Hl Hn Hok Hfit. destruct route as [caps|]; [|done]. unfold route_key, route_step in *. simpl in *.
  unfold Caps.record_tokens_at. destruct (n <=? 0) eqn:E; zbool; [lia|].
  case_bool_decide as Hc; simpl in *; [done|].
  set (rs := [(Caps.counter_key (Caps.rc_route_id caps) RateMetric.Tokens, bucket_secs WINDOW_SECS)]).
  destruct (lua_record_counts t n rs s) as (s1 & Hrun & Hb & _ & Hfr); [lia|apply NoDup_singleton| |].
  { intros k bs [= -> ->]%list_elem_of_singleton. split; [by apply Hok|]. rewrite bucket_field. apply Hfit. by left. }
  unfold record_counters_at. rewrite bool_decide_eq_false_2 by done. destruct (n <=? 0) eqn:E'; zbool; [lia|].
  cbn [orb]. cbn iota. rewrite run_script_store by done. fold rs. rewrite Hrun. split; [|done].
  intros k b [= <-]. rewrite (Hb _ (bucket_secs WINDOW_SECS) b); [done|]. by left.
Qed.

Lemma route_key_fresh route k owner (rules : list (RateLimitRule U)) :
  route_key route = Some k -> k ∉ ct_key <$> (rule_counter owner <$> rules).
Proof.
  destruct route as [caps|]; [|done]. unfold route_key. simpl. case_bool_decide; [done|]. intros [= <-].
  rewrite <- list_fmap_compose. intros (r & Hk & _)%list_elem_of_fmap. revert Hk. clear. intros Hk. discriminate.
Qed.

Lemma route_key_not_usage `{Calendar} route k (o : U) subj p t :
  route_key route = Some k -> usage_key o subj p t <> k.
Proof.
  destruct route as [caps|]; [|done]. unfold route_key. simpl. case_bool_decide; [done|]. intros [= <-].
  unfold usage_key. by destruct subj.
Qed.
End AccountingSpec.

Section PostFlight.
Context `{CalendarLaws} {U : Type} `{UuidLaws U} `{!UuidParse U} {Hs Ks : Type} `{RedisLaws Hs} `{RedisKVLaws Ks}.
Implicit Types (w : gates Hs Ks) (s : Hs) (limits : RequestLimits U).

(** [n] more tokens are counted for this key and its owner, and nothing else on any usage hash. *)
Definition tokens_grow (limits : RequestLimits U) (n t : Z) s s' : Prop :=
  forall o subj p f t', is_period p ->
    count o subj p f t' s' = count o subj p f t' s +
      match rq_key_lineage limits with
      | Some l => if decide (f = "tokens" /\ counts_here (rq_owner limits) l t o subj p t') then n else 0
      | None => 0
      end.

(** The keys of the usage hashes a call adds to. *)
Definition usage_keys (limits : RequestLimits U) (t : Z) : list string :=
  match rq_key_lineage limits with
  | Some l => request_keys (rq_owner limits) l t
  | None => []
  end.

Lemma usage_step_counts l limits n t s :
  l <> LinkDown -> 0 < n -> all_ints s -> fits_on (usage_keys limits t) n s ->
  tokens_grow limits n t s (record_usage_tokens l limits n t s) /\
  all_ints (record_usage_tokens l limits n t s) /\
  only_keys (usage_keys limits t) s (record_usage_tokens l limits n t s).
Proof.
  intros Hl Hn Hints Hfit. unfold record_usage_tokens, tokens_grow, usage_keys in *.
  destruct (rq_key_lineage limits) as [lin|]; [|split_and!; [by intros; lia|done|done]].
  unfold record_tokens, usage_add. destruct (n <=? 0) eqn:E; zbool; [lia|].
  fold (request_keys (rq_owner limits) lin t). rewrite run_script_store by done.
  pose proof (lua_add_total 1 (request_keys (rq_owner limits) lin t) "tokens" n s Hints
    (request_keys_nodup _ _ _) (fun k Hk => Hfit k "tokens" Hk)) as Htot.
  pose proof (lua_add_frame 1 (request_keys (rq_owner limits) lin t) "tokens" n s) as Hframe.
  destruct (lua_add 1 (request_keys (rq_owner limits) lin t) "tokens" n s) as [s1 u] eqn:Eadd.
  cbn [fst snd] in *. subst u.
  destruct (add_counts (rq_owner limits) lin "tokens" n t s s1 Hints Eadd) as [Hints1 Hc].
  split_and!; [|done|intros k f; apply Hframe]. intros o subj p f t' Hp. by rewrite Hc.
Qed.

(** The key a token window or usage hash of the request has is no other's. *)
Lemma usage_keys_fresh limits t k : k ∈ usage_keys limits t ->
  exists o subj p, is_period p /\ k = usage_key o subj p t.
Proof.
  unfold usage_keys, request_keys, keys. destruct (rq_key_lineage limits) as [l|]; simpl; [|by intros ?%elem_of_nil].
  rewrite !elem_of_cons, elem_of_nil. unfold is_period. intros Hk.
  repeat destruct Hk as [->|Hk]; try done; eexists _, _, _; (split; [|done]); auto.
Qed.

(** What the calls to Redis need of the store they find. *)
Definition post_flight_ready (net : post_flight_net) n limits route s : Prop :=
  pn_usage net <> LinkDown /\ pn_rules net <> LinkDown /\ pn_route net <> LinkDown /\
  wf (rule_counter (rq_owner limits) <$> rq_rules limits) s /\ all_ints s /\
  (forall k, route_key (U := U) route = Some k -> counter_ok k s) /\
  forall k f, in_i64 (field_value k f s + n).

Lemma post_flight_hashes net n limits route actor w :
  0 < n -> post_flight_ready net n limits route (g_hashes w) ->
  let s := g_hashes w in
  let s' := g_hashes (post_flight_account net n limits route actor w) in
  tokens_grow limits n (pn_t_usage net) s s' /\
  (forall r b, r ∈ rq_rules limits ->
     let c := rule_counter (rq_owner limits) r in
     bucket (ct_key c) s' b = bucket (ct_key c) s b +
       if decide (rr_metric r = RateMetric.Tokens /\ b = cur c (pn_t_rules net)) then n else 0) /\
  (forall k b, route_key route = Some k ->
     bucket k s' b = bucket k s b +
       if decide (b = pn_t_route net / 1000 / bucket_secs WINDOW_SECS) then n else 0).
Proof.
  intros Hn (Hl1 & Hl2 & Hl3 & Hwf & Hints & Hroute & Hfit) s s'.
  set (ks := ct_key <$> (rule_counter (rq_owner limits) <$> rq_rules limits)).
  set (s1 := record_usage_tokens (pn_usage net) limits n (pn_t_usage net) s).
  set (s2 := (record_at (pn_rules net) (rq_rules limits) (rq_owner limits) RateMetric.Tokens n (pn_t_rules net) s1).1).
  assert (s' = route_step route (pn_route net) n (pn_t_route net) s2) as ->.
  { subst s' s2 s1 s. unfold post_flight_account. destruct (n <=? 0) eqn:E; zbool; [lia|].
    case_bool_decide; [by destruct route|]. destruct (add_weighted_tokens _ _ _ _ _). by destruct route. }
  assert (Hu : forall k, k ∈ usage_keys limits (pn_t_usage net) -> k ∉ ks).
  { intros k (o & subj & p & _ & ->)%usage_keys_fresh. apply usage_key_not_counter. }
  assert (Hur : forall k, route_key route = Some k -> k ∉ usage_keys limits (pn_t_usage net)).
  { intros k Hk (o & subj & p & _ & ->)%usage_keys_fresh. by eapply route_key_not_usage. }
  destruct (usage_step_counts (pn_usage net) limits n (pn_t_usage net) s) as (Hg1 & _ & Hf1);
    [done..|intros k f _; apply Hfit|]. fold s1 in Hg1, Hf1.
  assert (Hwf1 : wf (rule_counter (rq_owner limits) <$> rq_rules limits) s1).
  { destruct Hwf as [Hnd Hall]. split; [done|]. rewrite Forall_forall in Hall |- *.
    intros c Hc. destruct (Hall c Hc) as [Hst Hok]. split; [done|]. intros f v. rewrite Hf1; [apply Hok|].
    intros Hin%Hu. apply Hin. by apply list_elem_of_fmap_2. }
  destruct (record_at_counts (pn_rules net) (rq_rules limits) (rq_owner limits) n (pn_t_rules net) s1)
    as (Hb2 & Hok2 & Hf2); [done..| |]. 
  { eapply fits_frame; [exact Hf1| |intros k f _; apply Hfit]. intros k Hk Hin. by apply (Hu k). }
  fold s2 in Hb2, Hok2, Hf2. fold ks in Hf2.
  destruct (route_step_counts route (pn_route net) n (pn_t_route net) s2) as [Hb3 Hf3]; [done..| | |].
  { intros k Hk. apply Hok2. intros f v. rewrite Hf1 by auto. by apply Hroute. }
  { eapply fits_frame; [exact Hf2| |].
    - intros k Hk. apply (route_key_fresh route). destruct (route_key route); [|by apply elem_of_nil in Hk].
      simpl in Hk. apply list_elem_of_singleton in Hk. congruence.
    - eapply fits_frame; [exact Hf1| |intros k f _; apply Hfit]. intros k Hk. apply Hur.
      destruct (route_key route); [|by apply elem_of_nil in Hk].
      simpl in Hk. apply list_elem_of_singleton in Hk. congruence. }
  assert (Hf3' : forall k, (forall k', route_key route = Some k' -> k <> k') -> forall f,
    hget k f (route_step route (pn_route net) n (pn_t_route net) s2) = hget k f s2).
  { intros k Hk f. apply Hf3. destruct (route_key route); simpl; [|apply not_elem_of_nil].
    intros Hin%list_elem_of_singleton. by apply (Hk s0). }
  split_and!.
  - intros o subj p f t' Hp. rewrite <- Hg1 by done. unfold count, field_value.
    rewrite Hf3', Hf2; [done|apply usage_key_not_counter|]. intros k' Hk'. by apply (route_key_not_usage route).
  - intros r b Hr. cbv zeta. set (k := ct_key (rule_counter (rq_owner limits) r)) in *.
    assert (k ∈ ks) as Hk by (by do 2 apply list_elem_of_fmap_2).
    pose proof (Hb2 r b Hr) as Hbr. fold k in Hbr. rewrite (bucket_frame k s2), Hbr.
    + f_equal. apply bucket_frame. intros f. apply Hf1. by intros Hin%Hu.
    + intros f. apply Hf3'. intros k' Hk' <-. by eapply route_key_fresh.
  - intros k b Hk. rewrite (Hb3 k b Hk). f_equal. rewrite (bucket_frame k s1 s2).
    + apply bucket_frame. intros f. apply Hf1. by apply Hur.
    + intros f. apply Hf2. by eapply route_key_fresh.
Qed.

(** *** Budgets

    The caps have distinct subjects and periods and limits that a [bigint] holds; their counters
    are integers with room for the call's tokens. *)
Definition budgets_ready (caps : list (BudgetCap U)) n t (ks : Ks) : Prop :=
  NoDup ((fun cap => (bc_subject_kind cap, bc_subject_id cap, bc_period cap)) <$> caps) /\
  forall cap, cap ∈ caps -> 0 < bc_limit_tokens cap <= i64_max /\
    exists o, kget (cap_key cap t) ks = Ok o /\ in_i64 (default 0 o + n).

Definition spent_of (cap : BudgetCap U) t (ks : Ks) : Z :=
  match kget (cap_key cap t) ks with Ok (Some v) => v | _ => 0 end.

(** The alerts due: of the caps whose answer arrives, in their order, one for each share of the
    limit that the spend was below and is not below any more. *)
Definition alert_at (cap : BudgetCap U) total pct : BudgetCrossing U :=
  {| cx_cap_id := bc_id cap; cx_subject_kind := BudgetSubject.as_str (bc_subject_kind cap); cx_subject_id := bc_subject_id cap;
     cx_period := BudgetPeriod.as_str (bc_period cap); cx_threshold_pct := pct; cx_limit_tokens := bc_limit_tokens cap;
     cx_current_tokens := total |}.
Definition alerts_of (cap : BudgetCap U) spent n : list (BudgetCrossing U) :=
  alert_at cap (spent + n) <$> filter (fun pct => spent < bc_limit_tokens cap * pct / 100 <= spent + n) ALERT_THRESHOLDS_PCT.
Fixpoint alerts_due (links : nat -> link) (caps : list (BudgetCap U)) n t (ks : Ks) : list (BudgetCrossing U) :=
  match caps with
  | [] => []
  | cap :: caps =>
      match links 0%nat with LinkOk => alerts_of cap (spent_of cap t ks) n | _ => [] end ++
      alerts_due (fun i => links (S i)) caps n t ks
  end.

Lemma crossings_are_alerts cap spent n : 0 < n -> 0 < bc_limit_tokens cap <= i64_max ->
  crossings_of cap n (spent + n) = alerts_of cap spent n.
Proof.
  intros Hn Hl. unfold crossings_of, alerts_of, alert_at. f_equal. unfold crossed_thresholds.
  replace (spent + n - n) with spent by lia.
  destruct ((bc_limit_tokens cap <=? 0) || (spent + n <=? spent)) eqn:E.
  { apply orb_true_iff in E as [E|E]; zbool; lia. }
  assert (H100 : Forall (fun pct => 0 <= pct <= 100) ALERT_THRESHOLDS_PCT) by (repeat constructor; lia).
  induction H100 as [|pct l Hpct _ IH]; [done|]. rewrite !filter_cons, IH, threshold_value by done. done.
Qed.

Lemma add_loop_alerts links caps n t (ks : Ks) : 0 < n -> budgets_ready caps n t ks ->
  (add_loop links caps n t ks).2.2 = alerts_due links caps n t ks.
Proof.
  intros Hn. revert links ks. induction caps as [|cap caps IH]; intros links ks [Hnd Hok]; [done|].
  rewrite fmap_cons in Hnd. apply NoDup_cons in Hnd as [Hnew Hnd].
  destruct (Hok cap) as (Hlim & o & Ho & Hi); [by left|].
  destruct (run_incr_spec (links 0%nat) (cap_key cap t) n (period_ttl_secs (BudgetPeriod.as_str (bc_period cap))) ks o Ho Hi)
    as (ks1 & r & Hrun & Hr & Hget).
  assert (Hother : forall cap', cap' ∈ caps -> kget (cap_key cap' t) ks1 = kget (cap_key cap' t) ks).
  { intros cap' Hc'. rewrite Hget, decide_False; [done|]. intros (Hk & Hs' & Hp)%cap_key_inj. apply Hnew.
    rewrite <- Hk, <- Hs', <- Hp. by apply (list_elem_of_fmap_2 (fun cap => (bc_subject_kind cap, bc_subject_id cap, bc_period cap))). }
  cbn [add_loop alerts_due]. rewrite Hrun. specialize (IH (fun i => links (S i)) ks1).
  destruct (add_loop _ caps n t ks1) as [ks' [out cx]]. cbn [snd] in IH. rewrite IH; [|split; [done|]].
  - assert (Hrest : forall links', alerts_due links' caps n t ks1 = alerts_due links' caps n t ks).
    { clear -Hother. induction caps as [|c caps IH]; intros links'; [done|]. cbn [alerts_due]. unfold spent_of.
      rewrite Hother by (by left). rewrite IH; [done|]. intros. apply Hother. by right. }
    rewrite Hrest. subst r. destruct (links 0%nat); cbn [snd]; [|done..]. f_equal.
    assert (default 0 o = spent_of cap t ks) as -> by (unfold spent_of; by rewrite Ho; destruct o).
    by apply crossings_are_alerts.
  - intros cap' Hc'. destruct (Hok cap') as (? & o' & ? & ?); [by right|]. split; [done|]. exists o'. by rewrite Hother.
Qed.

Lemma post_flight_budgets net n limits route actor w :
  let caps := rq_caps limits in
  let t := pn_t_budgets net in
  let w' := post_flight_account net n limits route actor w in
  0 < n -> budgets_ready caps n t (g_counters w) ->
  (forall k, k ∉ (fun cap => cap_key cap t) <$> caps -> kget k (g_counters w') = kget k (g_counters w)) /\
  (forall i cap, caps !! i = Some cap ->
     spent_of cap t (g_counters w') = spent_of cap t (g_counters w) + match pn_budgets net i with LinkDown => 0 | _ => n end) /\
  g_audit w' = g_audit w ++ (crossing_row actor <$> alerts_due (pn_budgets net) caps n t (g_counters w)).
Proof.
  intros caps t w' Hn Hready. subst w'. unfold post_flight_account. destruct (n <=? 0) eqn:E; zbool; [lia|]. fold caps t.
  case_bool_decide as Hnil.
  { rewrite Hnil. split_and!; [done|by intros i cap Hc; rewrite lookup_nil in Hc|]. cbn. by rewrite app_nil_r. }
  pose proof (add_loop_alerts (pn_budgets net) caps n t (g_counters w) Hn Hready) as Hcx. destruct Hready as [Hnd Hok].
  destruct (add_weighted_tokens_counts (pn_budgets net) caps n t (g_counters w)) as (ks' & out & cx & Heq & Hfr & Hcnt & _);
    [done..|intros cap Hc; by destruct (Hok cap Hc)|].
  rewrite Heq. cbn [g_counters g_audit]. split_and!; [done| |].
  - intros i cap Hc. destruct (Hok cap) as (_ & o & Ho & _); [by eapply list_elem_of_lookup_2|].
    unfold spent_of. rewrite (Hcnt i cap o Hc Ho), Ho. unfold after_add. destruct (pn_budgets net i), o; simpl; lia.
  - unfold add_weighted_tokens in Heq. rewrite bool_decide_eq_false_2 in Heq by done. destruct (n <=? 0) eqn:E'; zbool; [lia|]. cbn [orb] in Heq.
    destruct (add_loop _ _ _ _ _) as [ks1 [out1 cx1]]. injection Heq as _ _ <-. cbn [snd] in Hcx. by rewrite Hcx.
Qed.

(** C37: What a call used is counted once everywhere it should be and nowhere else, when the usage
    hash and the windows can be reached, hold integers and have room: on its key's and its
    owner's day and month, on the current bucket of every token window (a request window is left
    alone), on the token window of the route that answered, and on the counter of every budget
    whose command reaches Redis.  The audit log gets one row for each share of a limit that the
    spend was below and has now reached, of the budgets whose answer arrived, in their order,
    and no other.  A call that used nothing changes nothing. *)
Theorem post_flight_counts net n limits route actor w :
  post_flight_ready net n limits route (g_hashes w) ->
  budgets_ready (rq_caps limits) n (pn_t_budgets net) (g_counters w) ->
  let s := g_hashes w in
  let w' := post_flight_account net n limits route actor w in
  (n <= 0 -> w' = w) /\
  (0 < n ->
     tokens_grow limits n (pn_t_usage net) s (g_hashes w') /\
     (forall r b, r ∈ rq_rules limits ->
        let c := rule_counter (rq_owner limits) r in
        bucket (ct_key c) (g_hashes w') b = bucket (ct_key c) s b +
          if decide (rr_metric r = RateMetric.Tokens /\ b = cur c (pn_t_rules net)) then n else 0) /\
     (forall k b, route_key route = Some k ->
        bucket k (g_hashes w') b = bucket k s b +
          if decide (b = pn_t_route net / 1000 / bucket_secs WINDOW_SECS) then n else 0) /\
     (forall k, k ∉ (fun cap => cap_key cap (pn_t_budgets net)) <$> rq_caps limits ->
        kget k (g_counters w') = kget k (g_counters w)) /\
     (forall i cap, rq_caps limits !! i = Some cap ->
        spent_of cap (pn_t_budgets net) (g_counters w') =
        spent_of cap (pn_t_budgets net) (g_counters w) + match pn_budgets net i with LinkDown => 0 | _ => n end) /\
     g_audit w' = g_audit w ++
       (crossing_row actor <$> alerts_due (pn_budgets net) (rq_caps limits) n (pn_t_budgets net) (g_counters w))).
Proof.
  intros Hready Hbud s w'. split.
  - intros Hn. subst w'. unfold post_flight_account. destruct (n <=? 0) eqn:E; zbool; [done|lia].
  - intros Hn. destruct (post_flight_hashes net n limits route actor w Hn Hready) as (H1' & H2' & H3').
    split; [exact H1'|]. split; [exact H2'|]. split; [exact H3'|]. by apply post_flight_budgets.
Qed.
End PostFlight.

(** ** Witness: six hundred tokens with Alice's key, on a route with a token cap, of her
    thousand a day *)

Definition demo_net : post_flight_net :=
  {| pn_usage := LinkOk; pn_rules := LinkOk; pn_route := ReplyLost; pn_budgets := fun _ => LinkOk;
     pn_t_usage := 0; pn_t_rules := 0; pn_t_route := 0; pn_t_budgets := 0 |}.

Definition demo_caps : Caps.RouteCaps demo_uuid :=
  {| Caps.rc_route_id := UKey1; Caps.rc_rpm := None; Caps.rc_tpm := Some 1000 |}.

Definition demo_capped : RequestLimits demo_uuid :=
  let l := limits_for_ai_gateway (U := demo_uuid) demo_identity in
  {| rq_owner := rq_owner l; rq_key_lineage := rq_key_lineage l; rq_rules := rq_rules l; rq_caps := [demo_cap] |}.

Definition demo_post_flight : gates hstore (gmap string Z) :=
  post_flight_account demo_net 600 demo_capped (Some demo_caps) (crossing_actor None None None None) demo_gates.

Lemma demo_post_flight_ready : post_flight_ready demo_net 600 demo_capped (Some demo_caps) hs_empty.
Proof.
  split_and!; [done..|apply demo_preflight_wf|apply hs_empty_ints| |].
  - intros k _ f v Hv. by rewrite hs_empty_get in Hv.
  - intros k f. unfold field_value. rewrite hs_empty_get. by vm_compute.
Qed.

Lemma demo_budgets_ready : budgets_ready (rq_caps demo_capped) 600 0 (∅ : gmap string Z).
Proof.
  split; [apply NoDup_singleton|]. intros cap ->%list_elem_of_singleton. split; [by vm_compute|].
  exists None. split; [vm_compute; reflexivity|by vm_compute].
Qed.

(** The route's window, the budget's counter, and the one alert, at half the limit. *)
Lemma post_flight_counts_witness :
  bucket (Caps.counter_key UKey1 RateMetric.Tokens) (g_hashes demo_post_flight) 0 = 600 /\
  spent_of demo_cap 0 (g_counters demo_post_flight) = 600 /\
  g_audit demo_post_flight = [crossing_row (crossing_actor None None None None) (alert_at demo_cap 600 50)].
Proof.
  destruct (post_flight_counts demo_net 600 demo_capped
    (Some demo_caps) (crossing_actor None None None None) demo_gates demo_post_flight_ready demo_budgets_ready)
    as (_ & Hc). destruct (Hc ltac:(lia)) as (_ & _ & Hr & _ & Hb & Ha). split_and!.
  - etransitivity; [apply (Hr (Caps.counter_key UKey1 RateMetric.Tokens) 0 eq_refl)|reflexivity].
  - etransitivity; [apply (Hb 0%nat demo_cap eq_refl)|reflexivity].
  - etransitivity; [exact Ha|vm_compute; reflexivity].
Defined.
