(* ===== verification/McpRegistry.v ===== *)
(** * MCP servers, tool names and tool permissions

    [crates/mcp-gateway/src/registry.rs], [access_control.rs] and the namespace prefixes of
    [crates/server/src/handlers/mcp_shared.rs].  A tool is offered to clients as
    [<prefix>__<tool>]; a call's name is split again to find its server, and the patterns of a
    key are matched against the same name. *)

From Stdlib Require Import Ascii.
From S2P Require Import Prelude Interfaces GatewayDeps Text.

(** ** Text *)

(** [str::split_once(sep)]: around the first occurrence. *)
Fixpoint split_str (sep s : string) : option (string * string) :=
  match strip_prefix sep s with
  | Some rest => Some (EmptyString, rest)
  | None =>
      match s with
      | EmptyString => None
      | String c s => '(a, b) ← split_str sep s; Some (String c a, b)
      end
  end.

(** [str::contains(sep)]. *)
Definition contains_str (sep s : string) : bool :=
  match split_str sep s with Some _ => true | None => false end.

Definition is_empty (s : string) : bool := match s with EmptyString => true | _ => false end.

Definition NAMESPACE_SEPARATOR : string := "__".

(** ** Permissions *)

Definition pattern_matches (pattern name : string) : bool :=
  if String.eqb pattern "*" then true else
  match strip_suffix "__*" pattern with
  | Some server =>
      if is_empty server || contains_str "__" server || has_char "*"%char server then false
      else match split_str "__" name with
           | Some (s, t) => String.eqb s server && negb (is_empty t)
           | None => false
           end
  | None =>
      if has_char "*"%char pattern then false
      else match split_str "__" pattern with
           | Some (s, t) => if negb (is_empty s) && negb (is_empty t) then String.eqb pattern name else false
           | None => false
           end
  end.

Definition is_tool_allowed (patterns : option (list string)) (namespaced_name : string) : bool :=
  match patterns with
  | None => true
  | Some pats => existsb (fun p => pattern_matches p namespaced_name) pats
  end.

(** ** Namespace prefixes *)

Definition prefix_char (c : ascii) : bool :=
  is_ascii_lowercase c || is_ascii_digit c || bool_decide (c = "_"%char).

Definition bad_prefix_message : string := "namespace_prefix must match [a-z0-9_]{1,32}".
Definition no_prefix_message : string :=
  "Could not derive namespace_prefix from name; please provide one explicitly ([a-z0-9_]{1,32})".

(** [trim_start_matches('_')], and both ends. *)
Fixpoint trim_start (l : list ascii) : list ascii :=
  match l with
  | c :: l' => if decide (c = "_"%char) then trim_start l' else l
  | [] => []
  end.
Definition trim_matches (l : list ascii) : list ascii := reverse (trim_start (reverse (trim_start l))).

(** The display name as its characters; [to_lower] is [char::to_lowercase], whose result may be
    several characters.  What is not a lower-case ASCII letter or digit becomes [_]. *)
Section Prefixes.
Context {Ch : Type} (to_lower : Ch -> list Ch) (as_ascii : Ch -> option ascii).

Definition prefix_of_char (c : Ch) : ascii :=
  match as_ascii c with
  | Some a => if is_ascii_lowercase a || is_ascii_digit a then a else "_"%char
  | None => "_"%char
  end.

Definition normalize_namespace_prefix (explicit : option string) (fallback_name : list Ch)
    : result string string :=
  match explicit with
  | Some p =>
      if negb (str_all prefix_char p) || is_empty p || (32 <? String.length p)%nat
      then Err bad_prefix_message else Ok p
  | None =>
      let derived := String.string_of_list_ascii
        (take 32 (trim_matches (prefix_of_char <$> (fallback_name ≫= to_lower)))) in
      if is_empty derived then Err no_prefix_message else Ok derived
  end.
End Prefixes.

(** ** The registry *)

Inductive ServerStatus := Connected | Disconnected | Unknown.
Inductive ServerCacheScope := Global | PerCaller.

Section Registry.
Context {U : Type} `{Uuid U}.
(** A tool's description and schema, and a server's endpoint, transport, credentials and
    headers: carried through. *)
Context {ToolInfo Upstream : Type}.

Record McpToolInfo := { mt_name : string; mt_info : ToolInfo }.

Record RegisteredServer := {
  rs_id : U;
  rs_name : string;
  rs_namespace_prefix : string;
  rs_tools : list McpToolInfo;
  rs_status : ServerStatus;
  rs_last_health_check : option Z;
  rs_cache_ttl_secs : option Z;
  rs_cache_scope : ServerCacheScope;
  rs_upstream : Upstream;
}.

(** A [HashMap]: its entries in the order [values()] gives them. *)
Definition Registry : Type := list (U * RegisteredServer).

Definition tool_char (c : ascii) : bool :=
  is_ascii_lowercase c || is_ascii_uppercase c || is_ascii_digit c ||
  bool_decide (c = "_"%char) || bool_decide (c = "-"%char) || bool_decide (c = "."%char).

Definition validate_tool_name (name : string) : bool :=
  negb (is_empty name) && (String.length name <=? 255)%nat && str_all tool_char name.

Definition valid_tools (tools : list McpToolInfo) : list McpToolInfo :=
  filter (fun t => validate_tool_name (mt_name t) = true) tools.

Definition with_tools (tools : list McpToolInfo) (server : RegisteredServer) : RegisteredServer :=
  {| rs_id := rs_id server; rs_name := rs_name server;
     rs_namespace_prefix := rs_namespace_prefix server; rs_tools := tools;
     rs_status := rs_status server; rs_last_health_check := rs_last_health_check server;
     rs_cache_ttl_secs := rs_cache_ttl_secs server; rs_cache_scope := rs_cache_scope server;
     rs_upstream := rs_upstream server |}.

Definition with_status (status : ServerStatus) (now : Z) (server : RegisteredServer) : RegisteredServer :=
  {| rs_id := rs_id server; rs_name := rs_name server;
     rs_namespace_prefix := rs_namespace_prefix server; rs_tools := rs_tools server;
     rs_status := status; rs_last_health_check := Some now;
     rs_cache_ttl_secs := rs_cache_ttl_secs server; rs_cache_scope := rs_cache_scope server;
     rs_upstream := rs_upstream server |}.

Definition map_remove (id : U) (reg : Registry) : Registry := filter (fun p => p.1 <> id) reg.

(** [HashMap::get_mut]. *)
Definition map_update (id : U) (f : RegisteredServer -> RegisteredServer) (reg : Registry) : Registry :=
  (fun p => if decide (p.1 = id) then (p.1, f p.2) else p) <$> reg.

Definition register (server : RegisteredServer) (reg : Registry) : Registry :=
  (rs_id server, with_tools (valid_tools (rs_tools server)) server) :: map_remove (rs_id server) reg.

Definition unregister (id : U) (reg : Registry) : Registry := map_remove id reg.

Definition registry_get (id : U) (reg : Registry) : option RegisteredServer :=
  snd <$> (list_find (fun p => p.1 = id) reg ≫= fun p => Some p.2).

Definition update_status (id : U) (status : ServerStatus) (now : Z) (reg : Registry) : Registry :=
  map_update id (with_status status now) reg.

Definition update_tools (id : U) (tools : list McpToolInfo) (reg : Registry) : Registry :=
  map_update id (with_tools (valid_tools tools)) reg.

Definition find_server_for_tool (namespaced_tool : string) (reg : Registry)
    : option (RegisteredServer * string) :=
  '(prefix, tool_name) ← split_str NAMESPACE_SEPARATOR namespaced_tool;
  if is_empty prefix || is_empty tool_name then None
  else
    server ← snd <$> list_find (fun s => rs_namespace_prefix s = prefix) reg.*2;
    Some (server, tool_name).

Definition namespaced (server : RegisteredServer) (tool : McpToolInfo) : string :=
  rs_namespace_prefix server +:+ NAMESPACE_SEPARATOR +:+ mt_name tool.

Definition get_all_tools (filter_server_ids : option (list U)) (reg : Registry)
    : list (string * McpToolInfo) :=
  server ← reg.*2;
  match filter_server_ids with
  | Some ids => if decide (rs_id server ∈ ids) then (fun tool => (namespaced server tool, tool)) <$> rs_tools server
                else []
  | None => (fun tool => (namespaced server tool, tool)) <$> rs_tools server
  end.
End Registry.
#[global] Arguments RegisteredServer : clear implicits.
#[global] Arguments Registry : clear implicits.
#[global] Arguments McpToolInfo : clear implicits.

(** ** Splitting at the first separator *)

Lemma split_str_app sep s a b : split_str sep s = Some (a, b) -> s = a +:+ sep +:+ b.
Proof.
  revert a b. induction s as [|c s IH]; intros a b; cbn [split_str].
  - destruct (strip_prefix sep "") as [r|] eqn:E; [|done]. intros [= <- <-]. by apply strip_prefix_Some in E.
  - destruct (strip_prefix sep (String c s)) as [r|] eqn:E.
    + intros [= <- <-]. by apply strip_prefix_Some in E.
    + destruct (split_str sep s) as [[a' b']|] eqn:E'; [|done]. intros [= <- <-].
      by rewrite (IH a' b' eq_refl).
Qed.

(** A prefix that a namespaced name can be split back at. *)
Definition routable (p : string) : Prop := contains_str "__" p = false /\ ends_with "_" p = false.

Lemma strip_two c s : strip_prefix "__" (String c s) =
  if decide (c = "_"%char) then
    match s with String d r => if decide (d = "_"%char) then Some r else None | EmptyString => None end
  else None.
Proof. cbn [strip_prefix]. repeat case_decide; subst; try done; destruct s; try done; by repeat case_decide. Qed.

Lemma contains_cons c s : contains_str "__" (String c s) =
  match strip_prefix "__" (String c s) with Some _ => true | None => contains_str "__" s end.
Proof.
  unfold contains_str. cbn [split_str]. destruct (strip_prefix "__" (String c s)); [done|].
  by destruct (split_str "__" s) as [[? ?]|].
Qed.

Lemma ends_with_cons c d s : ends_with "_" (String c (String d s)) = ends_with "_" (String d s).
Proof.
  unfold ends_with. cbn [strip_suffix]. rewrite decide_False by done.
  by destruct (if decide (String d s = "_") then _ else _).
Qed.

Lemma split_namespaced p t : split_str "__" (p +:+ "__" +:+ t) = Some (p, t) <-> routable p.
Proof.
  unfold routable. induction p as [|c p IH]; [by vm_compute|].
  change (String c p +:+ "__" +:+ t) with (String c (p +:+ "__" +:+ t)).
  rewrite contains_cons. cbn [split_str]. rewrite !strip_two. destruct p as [|d p].
  - change ("" +:+ "__" +:+ t) with (String "_" (String "_" t)). case_decide as Hc.
    + subst c. vm_compute. naive_solver.
    + assert (split_str "__" (String "_" (String "_" t)) = Some ("", t)) as -> by reflexivity. simpl.
      split; [|done]. intros _. split; [done|]. unfold ends_with. cbn [strip_suffix].
      rewrite decide_False by congruence. done.
  - change (String d p +:+ "__" +:+ t) with (String d (p +:+ "__" +:+ t)) in *.
    rewrite ends_with_cons. case_decide as Hc; [case_decide as Hd|].
    + split; [done|by intros [? _]].
    + rewrite <- IH. destruct (split_str "__" (String d _)) as [[a b]|]; simpl; [|done]. naive_solver.
    + rewrite <- IH. destruct (split_str "__" (String d _)) as [[a b]|]; simpl; [|done]. naive_solver.
Qed.

Lemma split_routable s a b : split_str "__" s = Some (a, b) -> routable a.
Proof. intros Hs. apply (split_namespaced a b). by rewrite <- (split_str_app _ _ _ _ Hs). Qed.

Lemma is_empty_false s : is_empty s = false <-> s <> "".
Proof. by destruct s. Qed.

(** ** Permissions follow routing *)

Lemma pattern_matches_split p s t :
  split_str "__" (s +:+ "__" +:+ t) = Some (s, t) -> s <> "" -> t <> "" ->
  pattern_matches p (s +:+ "__" +:+ t) = true <->
  p = "*" \/ (p = s +:+ "__*" /\ has_char "*"%char s = false) \/
  (p = s +:+ "__" +:+ t /\ has_char "*"%char p = false).
Proof.
  intros Hsplit Hs Ht. unfold pattern_matches. set (name := s +:+ "__" +:+ t) in *.
  destruct (String.eqb_spec p "*") as [->|Hstar]; [naive_solver|].
  destruct (strip_suffix "__*" p) as [server|] eqn:E.
  - pose proof E as ->%strip_suffix_Some. rewrite Hsplit.
    assert (has_char "*"%char (server +:+ "__*") = true) as Hsc by (rewrite has_char_app; apply orb_true_r).
    split.
    + destruct (is_empty server || contains_str "__" server || has_char "*"%char server) eqn:E2; [done|].
      apply orb_false_iff in E2 as [_ Hns]. destruct (String.eqb_spec s server) as [->|]; [|done].
      intros _. right. left. done.
    + intros [?|[[Heq Hns]|[_ ?]]]; [done| |congruence]. apply str_app_cancel_r in Heq as ->.
      destruct (split_routable _ _ _ Hsplit) as [Hc _]. rewrite Hc, Hns, String.eqb_refl.
      rewrite (proj2 (is_empty_false s) Hs), (proj2 (is_empty_false t) Ht). done.
  - assert (p <> s +:+ "__*") as Hw.
    { intros Heq. apply (strip_suffix_Some "__*") in Heq. congruence. }
    destruct (has_char "*"%char p) eqn:Ec; [naive_solver|]. split.
    + destruct (split_str "__" p) as [[a b]|]; [|done].
      destruct (negb (is_empty a) && negb (is_empty b)); [|done]. intros ->%String.eqb_eq. by right; right.
    + intros [?|[[? _]|[-> _]]]; [done|done|]. rewrite Hsplit, String.eqb_refl.
      by rewrite (proj2 (is_empty_false s) Hs), (proj2 (is_empty_false t) Ht).
Qed.

Section RegistrySpec.
Context {U : Type} `{Uuid U} {T E : Type}.
Implicit Types (reg : Registry U T E) (srv : RegisteredServer U T E).

Lemma find_server_split name reg srv tool :
  find_server_for_tool name reg = Some (srv, tool) ->
  split_str "__" name = Some (rs_namespace_prefix srv, tool) /\ name = rs_namespace_prefix srv +:+ "__" +:+ tool /\
  rs_namespace_prefix srv <> "" /\ tool <> "" /\ srv ∈ reg.*2.
Proof.
  unfold find_server_for_tool, NAMESPACE_SEPARATOR.
  destruct (split_str "__" name) as [[s t]|] eqn:Hs; [|done]. simpl.
  destruct (is_empty s || is_empty t) eqn:Ee; [done|]. apply orb_false_iff in Ee as [H1 H2].
  destruct (list_find _ _) as [[i x]|] eqn:Ef; [|done]. simpl. intros [= <- <-].
  apply list_find_Some in Ef as (Hi & Hp & _). rewrite Hp.
  apply is_empty_false in H1, H2. split_and!; try done; [by apply split_str_app|by eapply list_elem_of_lookup_2].
Qed.

(** A key's tool patterns grant by the server that answers.  Of a call whose name finds a
    server, the patterns allow it exactly when one of them is [*], that server's own
    [<prefix>__*], or the name itself; so no pattern written for one server lets a call through
    to another, however names and prefixes share underscores. *)
Theorem tool_grant_reaches_named_server pats name reg srv tool :
  find_server_for_tool name reg = Some (srv, tool) ->
  is_tool_allowed (Some pats) name = true <->
  exists p, p ∈ pats /\
    (p = "*" \/
     (p = rs_namespace_prefix srv +:+ "__*" /\ has_char "*"%char (rs_namespace_prefix srv) = false) \/
     (p = name /\ has_char "*"%char name = false)).
Proof.
  intros (Hsplit & Hname & Hs & Ht & _)%find_server_split. simpl. rewrite existsb_exists.
  setoid_rewrite <- list_elem_of_In. rewrite Hname in Hsplit |- *.
  split; intros (p & Hp & Hm); exists p; (split; [done|]).
  - apply (pattern_matches_split p _ _ Hsplit Hs Ht) in Hm. naive_solver.
  - apply (pattern_matches_split p _ _ Hsplit Hs Ht). naive_solver.
Qed.
End RegistrySpec.

(** ** Offered tools *)

Section Offered.
Context {U : Type} `{Uuid U} {T E : Type}.
Implicit Types (reg : Registry U T E) (srv : RegisteredServer U T E).

(** Any history of the registry.  Prefixes are unique among servers (the column is [UNIQUE]);
    a map iterates in any order. *)
Inductive reachable : Registry U T E -> Prop :=
  | reach_new : reachable []
  | reach_register reg srv :
      reachable reg ->
      (forall s, s ∈ reg.*2 -> rs_namespace_prefix s = rs_namespace_prefix srv -> rs_id s = rs_id srv) ->
      reachable (register srv reg)
  | reach_unregister reg id : reachable reg -> reachable (unregister id reg)
  | reach_status reg id status now : reachable reg -> reachable (update_status id status now reg)
  | reach_tools reg id tools : reachable reg -> reachable (update_tools id tools reg)
  | reach_order reg reg' : reachable reg -> reg ≡ₚ reg' -> reachable reg'.

(** One entry per id, one server per prefix, every tool's name valid. *)
Record reg_ok reg : Prop := {
  ro_keys : NoDup reg.*1;
  ro_ids p : p ∈ reg -> p.1 = rs_id p.2;
  ro_prefix p q : p ∈ reg -> q ∈ reg -> rs_namespace_prefix p.2 = rs_namespace_prefix q.2 -> p.1 = q.1;
  ro_tools p t : p ∈ reg -> t ∈ rs_tools p.2 -> validate_tool_name (mt_name t) = true;
}.

Lemma valid_tools_ok (tools : list (McpToolInfo T)) t :
  t ∈ valid_tools tools -> validate_tool_name (mt_name t) = true.
Proof. by intros [? _]%list_elem_of_filter. Qed.

Lemma reg_ok_remove id reg : reg_ok reg -> reg_ok (map_remove id reg).
Proof.
  intros [Hk Hi Hp Ht]. unfold map_remove. split.
  - eapply sublist_NoDup; [exact Hk|]. apply fmap_sublist, sublist_filter.
  - intros p [_ Hin]%list_elem_of_filter. auto.
  - intros p q [_ Hpin]%list_elem_of_filter [_ Hqin]%list_elem_of_filter. auto.
  - intros p t [_ Hin]%list_elem_of_filter. eauto.
Qed.

Lemma reg_ok_update id f reg :
  (forall s, rs_id (f s) = rs_id s) -> (forall s, rs_namespace_prefix (f s) = rs_namespace_prefix s) ->
  (forall s t, t ∈ rs_tools (f s) -> t ∈ rs_tools s \/ validate_tool_name (mt_name t) = true) ->
  reg_ok reg -> reg_ok (map_update id f reg).
Proof.
  intros Hfi Hfp Hft [Hk Hi Hp Ht]. unfold map_update.
  assert (Hsame : forall p, p ∈ (fun p => if decide (p.1 = id) then (p.1, f p.2) else p) <$> reg ->
    exists q, q ∈ reg /\ p.1 = q.1 /\ rs_id p.2 = rs_id q.2 /\
      rs_namespace_prefix p.2 = rs_namespace_prefix q.2 /\
      forall t, t ∈ rs_tools p.2 -> t ∈ rs_tools q.2 \/ validate_tool_name (mt_name t) = true).
  { intros p (q & -> & Hq)%list_elem_of_fmap. exists q. case_decide; simpl; split_and!; auto. }
  split.
  - rewrite <- list_fmap_compose. erewrite list_fmap_ext; [exact Hk|]. intros i p _. simpl. by case_decide.
  - intros p (q & Hq & -> & -> & _)%Hsame. auto.
  - intros p p' (q & Hq & -> & _ & -> & _)%Hsame (q' & Hq' & -> & _ & -> & _)%Hsame. auto.
  - intros p t (q & Hq & _ & _ & _ & Htt)%Hsame Hin. destruct (Htt t Hin); eauto.
Qed.

Lemma reachable_ok reg : reachable reg -> reg_ok reg.
Proof.
  induction 1 as [|reg srv _ IH Huniq|reg id _ IH|reg id status now _ IH|reg id tools _ IH|reg reg' _ IH Hperm].
  - split; [apply NoDup_nil_2|set_solver..].
  - pose proof (reg_ok_remove (rs_id srv) reg IH) as [Hk Hi Hp Ht].
    assert (Hne : forall p, p ∈ map_remove (rs_id srv) reg -> p.1 <> rs_id srv /\ p ∈ reg)
      by (by intros p [? ?]%list_elem_of_filter).
    assert (Hother : forall p, p ∈ map_remove (rs_id srv) reg -> rs_namespace_prefix p.2 <> rs_namespace_prefix srv).
    { intros p [Hid Hin]%Hne Heq. apply Hid. rewrite (ro_ids _ IH p Hin). apply Huniq; [|done].
      by apply list_elem_of_fmap_2. }
    unfold register. split.
    + rewrite fmap_cons. constructor; [|done]. intros (p & Heq & [Hid _]%Hne)%list_elem_of_fmap. by rewrite <- Heq in Hid.
    + intros p [->|Hp']%elem_of_cons; [done|auto].
    + intros p q [->|Hp']%elem_of_cons [->|Hq']%elem_of_cons; simpl; auto.
      * intros Heq. by destruct (Hother q Hq').
      * intros Heq. by destruct (Hother p Hp').
    + intros p t [->|Hp']%elem_of_cons; simpl; [apply valid_tools_ok|eauto].
  - by apply reg_ok_remove.
  - by apply reg_ok_update; [..|auto|].
  - apply reg_ok_update; [done|done| |done]. intros s t Hin. right. by apply (valid_tools_ok tools).
  - destruct IH as [Hk Hi Hp Ht]. split.
    + by rewrite <- Hperm.
    + intros p. rewrite <- Hperm. auto.
    + intros p q. rewrite <- Hperm. auto.
    + intros p t. rewrite <- Hperm. eauto.
Qed.

Lemma find_by_prefix reg id srv : reg_ok reg -> (id, srv) ∈ reg ->
  snd <$> list_find (fun s => rs_namespace_prefix s = rs_namespace_prefix srv) reg.*2 = Some srv.
Proof.
  intros Hok Hin. destruct (list_find _ _) as [[i s]|] eqn:Ef; simpl.
  - apply list_find_Some in Ef as (Hi & Hp & _). apply list_lookup_fmap_Some in Hi as (q & -> & Hq).
    apply list_elem_of_lookup_2 in Hq. pose proof (ro_prefix _ Hok _ _ Hq Hin Hp) as Hid. f_equal.
    by rewrite (NoDup_fmap_elem fst reg q (id, srv) (ro_keys _ Hok) Hq Hin Hid).
  - apply list_find_None in Ef. rewrite Forall_forall in Ef. destruct (Ef srv); [|done].
    by apply (list_elem_of_fmap_2 snd reg (id, srv)).
Qed.

(** C40: The tools a server offers can be called exactly when its prefix splits back: after any history
    of the registry in which no two servers have one prefix, in any iteration order, a listed tool's name finds that server and that tool
    when the prefix holds no [__] and does not end in [_], and otherwise it never does. *)
Theorem listed_tools_route_back reg id srv tool :
  reachable reg -> (id, srv) ∈ reg -> tool ∈ rs_tools srv -> rs_namespace_prefix srv <> "" ->
  (namespaced srv tool, tool) ∈ get_all_tools None reg /\
  (find_server_for_tool (namespaced srv tool) reg = Some (srv, mt_name tool) <->
   routable (rs_namespace_prefix srv)).
Proof.
  intros Hreach Hin Ht Hne. pose proof (reachable_ok reg Hreach) as Hok. split.
  { unfold get_all_tools. apply list_elem_of_bind. exists srv. split; [|by apply (list_elem_of_fmap_2 snd reg (id, srv))].
    by apply (list_elem_of_fmap_2 (fun tool => (namespaced srv tool, tool))). }
  pose proof (ro_tools _ Hok _ _ Hin Ht) as Hv. unfold validate_tool_name in Hv.
  rewrite !andb_true_iff, negb_true_iff in Hv. destruct Hv as [[Hte _] _].
  rewrite <- (split_namespaced (rs_namespace_prefix srv) (mt_name tool)). split.
  - intros (Hs & _)%find_server_split. exact Hs.
  - intros Hs. unfold find_server_for_tool, namespaced, NAMESPACE_SEPARATOR. rewrite Hs. simpl.
    rewrite Hte, (proj2 (is_empty_false _) Hne). simpl.
    pose proof (find_by_prefix reg id srv Hok Hin) as Hf. destruct (list_find _ _); simplify_eq/=. done.
Qed.
End Offered.

(** ** Witnesses *)

Definition demo_tool (name : string) : McpToolInfo unit := {| mt_name := name; mt_info := tt |}.

Definition demo_server (id : demo_uuid) (prefix : string) (tools : list string)
    : RegisteredServer demo_uuid unit unit :=
  {| rs_id := id; rs_name := prefix; rs_namespace_prefix := prefix; rs_tools := demo_tool <$> tools;
     rs_status := Connected; rs_last_health_check := None; rs_cache_ttl_secs := None;
     rs_cache_scope := Global; rs_upstream := tt |}.

Definition demo_registry : Registry demo_uuid unit unit :=
  register (demo_server UKey1 "a___b" ["t"]) (register (demo_server UAlice "mysql" ["query"; "bad name"]) []).

Lemma demo_registry_reachable : reachable demo_registry.
Proof.
  apply reach_register; [apply reach_register; [constructor|]|].
  - by intros s ?%elem_of_nil.
  - intros s Hs. simpl in Hs. apply list_elem_of_singleton in Hs as ->. done.
Qed.

Lemma tool_grant_reaches_named_server_witness :
  is_tool_allowed (Some ["github__*"; "mysql__*"]) "mysql__query" = true.
Proof.
  apply (tool_grant_reaches_named_server ["github__*"; "mysql__*"] "mysql__query" demo_registry
    (demo_server UAlice "mysql" ["query"]) "query"); [reflexivity|].
  exists "mysql__*". split; [by right; left|]. right. left. done.
Defined.

Lemma listed_tools_route_back_witness :
  find_server_for_tool "mysql__query" demo_registry = Some (demo_server UAlice "mysql" ["query"], "query").
Proof.
  apply (listed_tools_route_back demo_registry UAlice (demo_server UAlice "mysql" ["query"]) (demo_tool "query")).
  - apply demo_registry_reachable.
  - by right; left.
  - by left.
  - discriminate.
  - done.
Defined.

(** A server named [A - B], with no explicit prefix, is stored under a prefix that nothing
    splits back to: the tool it offers is found by no call. *)
Definition lower_ascii (c : ascii) : list ascii :=
  [if is_ascii_uppercase c then ascii_of_nat (nat_of_ascii c + 32) else c].

Lemma derived_prefix_unroutable :
  normalize_namespace_prefix lower_ascii Some None (String.list_ascii_of_string "A - B") = Ok "a___b" /\
  "a___b__t" ∈ (get_all_tools None demo_registry).*1 /\
  find_server_for_tool "a___b__t" demo_registry = None.
Proof. split_and!; [vm_compute; reflexivity|vm_compute; by left|vm_compute; reflexivity]. Qed.

Lemma explicit_prefix_unroutable (n : list ascii) :
  normalize_namespace_prefix lower_ascii Some (Some "git_") n = Ok "git_" /\ ~ routable "git_".
Proof. split; [reflexivity|]. by intros [_ ?]. Qed.
