(* ===== verification/RedisKeys.v ===== *)
(** * Deleting keys by pattern

    [crates/common/src/redis_keys.rs]: the keys a [SCAN] yields are deleted in batches, slot by
    slot on a cluster; a command that fails is counted and the rest goes on. *)

From Stdlib Require Import Ascii.
From S2P Require Import Prelude Effects.

(** A [SCAN MATCH] pattern of literal characters and [*], as Redis documents it; the patterns
    of the program use no other special character. *)
Fixpoint glob_fix (p s : string) {struct p} : bool :=
  match p with
  | EmptyString => match s with EmptyString => true | _ => false end
  | String c p =>
      if decide (c = "*"%char) then
        (fix any (s : string) : bool :=
           glob_fix p s || match s with EmptyString => false | String _ s => any s end) s
      else match s with
           | EmptyString => false
           | String d s => bool_decide (c = d) && glob_fix p s
           end
  end.
Definition glob (p s : string) : Prop := glob_fix p s = true.
#[export] Instance glob_dec p s : Decision (glob p s).
Proof. unfold glob. apply _. Defined.

Definition BATCH : nat := 256.

Section DeleteAll.
Context {E W : Type}.
(** The hash slot of a key, and one [DEL]: how many keys it deleted, or its error. *)
Context (slot : string -> Z) (del : list string -> prog W (result E Z)).

Record Tally := {
  ta_deleted : Z;
  ta_failures : nat;
  ta_first : option E;
}.
Definition Tally_default : Tally := {| ta_deleted := 0; ta_failures := 0; ta_first := None |}.

Definition failed (t : Tally) (e : E) : Tally :=
  {| ta_deleted := ta_deleted t; ta_failures := S (ta_failures t);
     ta_first := match ta_first t with Some f => Some f | None => Some e end |}.

(** A [BTreeMap] from slots to keys, in slot order. *)
Fixpoint slot_push (n : Z) (key : string) (groups : list (Z * list string)) : list (Z * list string) :=
  match groups with
  | [] => [(n, [key])]
  | (m, ks) :: rest =>
      if n <? m then (n, [key]) :: groups
      else if n =? m then (m, ks ++ [key]) :: rest
      else (m, ks) :: slot_push n key rest
  end.

Definition by_slot (keys : list string) : list (Z * list string) :=
  foldl (fun groups key => slot_push (slot key) key groups) [] keys.

Definition delete_groups (clustered : bool) (keys : list string) : list (list string) :=
  if clustered then (by_slot keys).*2 else [keys].

Fixpoint delete_each (groups : list (list string)) (t : Tally) : prog W Tally :=
  match groups with
  | [] => mret t
  | keys :: groups =>
      r ← del keys;
      delete_each groups
        match r with
        | Ok n => {| ta_deleted := ta_deleted t + n; ta_failures := ta_failures t; ta_first := ta_first t |}
        | Err e => failed t e
        end
  end.

Definition delete_batch (clustered : bool) (keys : list string) (t : Tally) : prog W Tally :=
  if bool_decide (keys = []) then mret t else delete_each (delete_groups clustered keys) t.

Fixpoint delete_loop (clustered : bool) (keys : list (result E string)) (batch : list string) (t : Tally)
    : prog W Tally :=
  match keys with
  | [] => delete_batch clustered batch t
  | key :: keys =>
      let '(batch, t) := match key with
                         | Ok key => (batch ++ [key], t)
                         | Err e => (batch, failed t e)
                         end in
      if (length batch =? BATCH)%nat then
        t ← delete_batch clustered batch t; delete_loop clustered keys [] t
      else delete_loop clustered keys batch t
  end.

Record IncompleteDelete := { id_deleted : Z; id_failures : nat; id_first : E }.

Definition delete_all (keys : list (result E string)) (clustered : bool) : prog W (result IncompleteDelete Z) :=
  t ← delete_loop clustered keys [] Tally_default;
  mret match ta_first t with
       | None => Ok (ta_deleted t)
       | Some first => Err {| id_deleted := ta_deleted t; id_failures := ta_failures t; id_first := first |}
       end.

(** ** What is deleted *)

Definition scanned (keys : list (result E string)) : list string :=
  omap (fun k => match k with Ok k => Some k | Err _ => None end) keys.

Lemma slot_push_perm n key groups : concat (slot_push n key groups).*2 ≡ₚ key :: concat groups.*2.
Proof.
  induction groups as [|[m ks] rest IH]; simpl; [done|]. destruct (n <? m); [done|].
  destruct (n =? m); simpl; [|rewrite IH]; solve_Permutation.
Qed.

Lemma by_slot_perm keys : concat (by_slot keys).*2 ≡ₚ keys.
Proof.
  unfold by_slot. rewrite <- (app_nil_r keys) at 2. change [] with (concat (@nil (Z * list string)).*2) at 2.
  generalize (@nil (Z * list string)) as groups. induction keys as [|k keys IH]; intros groups; [done|].
  cbn [foldl]. rewrite IH, slot_push_perm. solve_Permutation.
Qed.

Definition one_slot (g : Z * list string) : Prop := Forall (fun k => slot k = g.1) g.2.

Lemma by_slot_single keys : Forall one_slot (by_slot keys).
Proof.
  unfold by_slot. assert (Hnil : Forall one_slot []) by constructor. revert Hnil.
  generalize (@nil (Z * list string)) as groups.
  induction keys as [|k keys IH]; intros groups Hg; [done|]. cbn [foldl]. apply IH. clear IH.
  induction Hg as [|[m ks] rest Hm Hrest IHg]; simpl.
  { repeat constructor. }
  destruct (slot k <? m); [repeat constructor; done|]. destruct (slot k =? m) eqn:Eq; zbool.
  - constructor; [|done]. apply Forall_app. split; [exact Hm|]. by constructor.
  - by constructor.
Qed.

Lemma delete_groups_perm clustered keys : concat (delete_groups clustered keys) ≡ₚ keys.
Proof. unfold delete_groups. destruct clustered; [apply by_slot_perm|]. simpl. by rewrite app_nil_r. Qed.

(** What one [DEL] may name: some keys, at most a batch of them, on a cluster of one slot. *)
Definition sendable (clustered : bool) (keys : list string) : Prop :=
  (length keys <= BATCH)%nat /\
  (clustered = true -> exists n, Forall (fun k => slot k = n) keys).

Lemma delete_groups_sendable clustered keys :
  (length keys <= BATCH)%nat -> Forall (sendable clustered) (delete_groups clustered keys).
Proof.
  intros Hlen. unfold delete_groups. destruct clustered; [|by apply Forall_singleton].
  apply Forall_fmap. pose proof (by_slot_single keys) as Hone. rewrite Forall_forall in Hone |- *.
  intros g Hg. split; [|intros _; exists g.1; by apply Hone].
  assert (sum_list (length <$> (by_slot keys).*2) = length keys) as Hsum.
  { rewrite <- length_concat. by rewrite by_slot_perm. }
  assert (length g.2 ∈ length <$> (by_slot keys).*2) as Hin by (by do 2 apply list_elem_of_fmap_2).
  pose proof (sum_list_with_in _ id _ Hin) as Hle. rewrite Hsum in Hle. unfold id, compose in *. lia.
Qed.

(** [P] holds of the store and the keys of all the [DEL]s sent so far. *)
Section Invariant.
Context (clustered : bool) (P : W -> list string -> Prop).
Context (Hstep : forall w sent keys, sendable clustered keys -> P w sent -> P (del keys w).1 (sent ++ keys)).
Context (Hperm : forall w sent sent', sent ≡ₚ sent' -> P w sent -> P w sent').

Lemma delete_each_inv groups t w sent :
  Forall (sendable clustered) groups -> P w sent -> P (delete_each groups t w).1 (sent ++ concat groups).
Proof.
  intros Hall. revert t w sent. induction Hall as [|g groups Hg Hall IH]; intros t w sent HP; simpl.
  - by rewrite app_nil_r.
  - unfold mbind, prog_bind. pose proof (Hstep w sent g Hg HP) as HP'. destruct (del g w) as [w1 r].
    simpl in HP'. rewrite app_assoc. by apply IH.
Qed.

Lemma delete_inv keys t w sent :
  (length keys <= BATCH)%nat -> P w sent -> P (delete_batch clustered keys t w).1 (sent ++ keys).
Proof.
  intros Hlen HP. unfold delete_batch. case_bool_decide as Hk; [subst; by rewrite app_nil_r|].
  eapply Hperm; [apply Permutation_app; [reflexivity|apply (delete_groups_perm clustered)]|].
  apply delete_each_inv; [by apply delete_groups_sendable|done].
Qed.

Lemma delete_loop_inv keys batch t w sent :
  (length batch < BATCH)%nat ->
  P w sent -> P (delete_loop clustered keys batch t w).1 (sent ++ batch ++ scanned keys).
Proof.
  revert batch t w sent. induction keys as [|key keys IH]; intros batch t w sent Hlen HP; cbn [delete_loop].
  - rewrite app_nil_r. apply delete_inv; [lia|done].
  - assert (Hnext : forall b' t', (length b' <= BATCH)%nat ->
      P ((if (length b' =? BATCH)%nat then t ← delete_batch clustered b' t'; delete_loop clustered keys [] t
          else delete_loop clustered keys b' t') w).1 (sent ++ b' ++ scanned keys)).
    { intros b' t' Hb'. destruct (Nat.eqb_spec (length b') BATCH); [|apply IH; [lia|done]].
      unfold mbind, prog_bind. pose proof (delete_inv b' t' w sent Hb' HP) as HP'.
      destruct (delete_batch clustered b' t' w) as [w1 t1]. rewrite app_assoc. apply (IH []); [|done].
      unfold BATCH. simpl. lia. }
    destruct key as [k|e]; cbn [scanned omap list_omap]; [|apply Hnext; lia].
    replace (sent ++ batch ++ k :: omap _ keys) with (sent ++ (batch ++ [k]) ++ scanned keys).
    + apply Hnext. rewrite length_app. simpl. lia.
    + by rewrite <- app_assoc.
Qed.

Lemma delete_all_inv keys w : P w [] -> P (delete_all keys clustered w).1 (scanned keys).
Proof.
  intros HP. unfold delete_all, mbind, prog_bind.
  pose proof (delete_loop_inv keys [] Tally_default w [] ltac:(unfold BATCH; simpl; lia) HP) as HP'.
  by destruct (delete_loop clustered keys [] Tally_default w).
Qed.
End Invariant.
End DeleteAll.
