(* ===== verification/McpCache.v ===== *)
(** * The MCP response cache

    [crates/mcp-gateway/src/cache.rs]: the key of a cached tool call, who shares an entry, and
    the pattern deletes that wipe a user's or a server's entries.  Hashing, hexadecimal text
    and JSON come from other crates and are an interface. *)

From Stdlib Require Import Ascii.
From S2P Require Import Prelude Interfaces GatewayDeps Effects RedisKeys.

(** ** Text made by other crates *)

Definition is_hex (c : ascii) : bool :=
  let n := nat_of_ascii c in (((48 <=? n) && (n <=? 57)) || ((97 <=? n) && (n <=? 102)))%nat.

Fixpoint all_hex (s : string) : bool :=
  match s with EmptyString => true | String c s => is_hex c && all_hex s end.

Class CacheText (U : Type) `{Uuid U} := {
  (** [uuid.simple()]: 32 lower-case hexadecimal digits. *)
  uuid_simple : U -> string;
  (** [hex::encode]. *)
  hex_encode : string -> string;
  (** [format!("{:032x}", xxh3_128(input))]. *)
  xxh3_hex : string -> string;
}.

Class CacheTextLaws (U : Type) `{CacheText U} := {
  uuid_simple_inj :: Inj (=) (=) uuid_simple;
  uuid_simple_length u : String.length (uuid_simple u) = 32%nat;
  uuid_simple_hex u : all_hex (uuid_simple u) = true;
  hex_encode_inj :: Inj (=) (=) hex_encode;
  hex_encode_hex s : all_hex (hex_encode s) = true;
  xxh3_hex_hex s : all_hex (xxh3_hex s) = true;
}.

Definition KEY_PREFIX : string := "mcp_cache:".

Section Cache.
Context {U : Type} `{CacheText U} {V Resp : Type}.
(** [serde_json] on the parameters and on responses. *)
Context (params_json : V -> string) (to_json : Resp -> option string) (of_json : string -> option Resp).
Context (is_error : Resp -> bool).

Record CallerScope := { cs_user_id : U; cs_account_label : option string }.
Record JsonRpcRequest := { jr_method : string; jr_params : option V }.

Definition caller_key_parts (caller : option CallerScope) : string * string :=
  match caller with
  | None => ("_", "_")
  | Some c =>
      (uuid_simple (cs_user_id c),
       match cs_account_label c with
       | None | Some "" => "_"
       | Some s => hex_encode s
       end)
  end.

Definition req_hash (request : JsonRpcRequest) : string :=
  xxh3_hex (jr_method request +:+ ":" +:+ default "" (params_json <$> jr_params request)).

Definition cache_key (server_id : U) (caller : option CallerScope) (request : JsonRpcRequest) : string :=
  let '(user_part, label_part) := caller_key_parts caller in
  KEY_PREFIX +:+ uuid_simple server_id +:+ ":" +:+ user_part +:+ ":" +:+ label_part +:+ ":" +:+ req_hash request.

(** *** Entries

    [body_fits] is whether the gateway takes a stored body of this text into memory; [up] is
    whether Redis answers.  A time to live that runs out removes the key. *)
Context (body_fits : string -> bool).

Definition cache_get (up : bool) (server_id : U) (caller : option CallerScope) (request : JsonRpcRequest)
    (s : gmap string string) : option Resp :=
  if up then
    json ← s !! cache_key server_id caller request;
    if body_fits json then of_json json else None
  else None.

Definition cache_set (up : bool) (server_id : U) (caller : option CallerScope) (request : JsonRpcRequest)
    (response : Resp) (s : gmap string string) : gmap string string :=
  if is_error response then s
  else match to_json response with
       | None => s
       | Some json => if up then <[cache_key server_id caller request := json]> s else s
       end.

(** *** Pattern deletes *)

Definition user_lane_pattern (server_id user_id : U) : string :=
  KEY_PREFIX +:+ uuid_simple server_id +:+ ":" +:+ uuid_simple user_id +:+ ":*".
Definition server_lane_pattern (server_id : U) : string := KEY_PREFIX +:+ uuid_simple server_id +:+ ":*".
Definition user_lane_all_servers_pattern (user_id : U) : string :=
  KEY_PREFIX +:+ "*:" +:+ uuid_simple user_id +:+ ":*".

(** Redis under a pattern delete: the entries, the commands sent so far, and what becomes of
    the [i]-th [DEL].  On a cluster a [DEL] over several slots is refused. *)
Context (slot : string -> Z) (net : nat -> bool) (clustered : bool).

Record cache_redis := { cr_entries : gmap string string; cr_sent : nat }.

Definition crosses_slots (keys : list string) : bool :=
  match keys with [] => false | k :: keys => existsb (fun k' => negb (slot k' =? slot k)) keys end.

Definition redis_del (keys : list string) : prog cache_redis (result unit Z) := fun w =>
  if net (cr_sent w) && negb (clustered && crosses_slots keys) then
    ({| cr_entries := foldr delete (cr_entries w) keys; cr_sent := S (cr_sent w) |},
     Ok (Z.of_nat (length (filter (fun k => is_Some (cr_entries w !! k)) (remove_dups keys)))))
  else ({| cr_entries := cr_entries w; cr_sent := S (cr_sent w) |}, Err tt).

(** [scan pattern entries] is what the [SCAN] yields. *)
Context (scan : string -> gmap string string -> list (result unit string)).

Definition scan_and_delete (pattern : string) : prog cache_redis Z := fun w =>
  let '(w, r) := delete_all slot redis_del (scan pattern (cr_entries w)) clustered w in
  (w, match r with Ok n => n | Err e => id_deleted e end).

Definition invalidate_user_lane (server_id user_id : U) : prog cache_redis Z :=
  scan_and_delete (user_lane_pattern server_id user_id).
Definition invalidate_server_lane (server_id : U) : prog cache_redis Z :=
  scan_and_delete (server_lane_pattern server_id).
Definition invalidate_user_lane_all_servers (user_id : U) : prog cache_redis Z :=
  scan_and_delete (user_lane_all_servers_pattern user_id).
End Cache.
#[global] Arguments CallerScope : clear implicits.
#[global] Arguments JsonRpcRequest : clear implicits.

(** ** Keys and patterns *)

Section Keys.
Context {U : Type} `{CacheTextLaws U} {V : Type} (params_json : V -> string).

Lemma all_hex_has_char s c : all_hex s = true -> is_hex c = false -> has_char c s = false.
Proof.
  intros Hs Hc. induction s as [|d s IH]; [done|]. simpl in *. apply andb_true_iff in Hs as [Hd Hs].
  rewrite (IH Hs), orb_false_r. apply bool_decide_eq_false. intros ->. congruence.
Qed.

(** Cutting a key at its colons. *)
Lemma cut_at c (a a' b b' : string) :
  has_char c a = false -> has_char c a' = false ->
  a +:+ String c b = a' +:+ String c b' -> a = a' /\ b = b'.
Proof.
  intros Ha Ha' Heq. pose proof (split_once_app c a b Ha) as Hs. rewrite Heq, (split_once_app c a' b' Ha') in Hs.
  by injection Hs as -> ->.
Qed.

Lemma simple_no_colon (u : U) : has_char ":"%char (uuid_simple u) = false.
Proof. apply all_hex_has_char; [apply uuid_simple_hex|done]. Qed.

Lemma parts_no_colon (c : option (CallerScope U)) :
  has_char ":"%char (caller_key_parts c).1 = false /\ has_char ":"%char (caller_key_parts c).2 = false.
Proof.
  destruct c as [[u [[|a l]|]]|]; simpl; (split; [|try done]); try done; try apply simple_no_colon;
    apply all_hex_has_char; (apply hex_encode_hex || done).
Qed.

(** The lane of an entry: the server and who shares it.  An empty label is no label. *)
Definition lane_of (c : option (CallerScope U)) : option (U * option string) :=
  (fun c => (cs_user_id c, match cs_account_label c with Some "" => None | l => l end)) <$> c.

Lemma hex_not_underscore s : all_hex s = true -> s <> "_".
Proof. by intros Hs ->. Qed.

Lemma simple_nonempty (u : U) : uuid_simple u <> "_".
Proof. apply hex_not_underscore, uuid_simple_hex. Qed.

Lemma caller_key_parts_inj c c' : caller_key_parts c = caller_key_parts c' <-> lane_of c = lane_of c'.
Proof.
  pose proof simple_nonempty as Hu.
  assert (Hl : forall l, hex_encode l <> "_") by (intros; apply hex_not_underscore, hex_encode_hex).
  split.
  - destruct c as [[u [[|a l]|]]|], c' as [[u' [[|a' l']|]]|]; simpl; intros Heq;
      pose proof (f_equal fst Heq) as Heq1; pose proof (f_equal snd Heq) as Heq2; simpl in Heq1, Heq2; clear Heq;
      try (by destruct (Hu _ Heq1)); try (by destruct (Hu _ (eq_sym Heq1)));
      try (by destruct (Hl _ Heq2)); try (by destruct (Hl _ (eq_sym Heq2)));
      try (apply (inj uuid_simple) in Heq1 as ->); try (apply (inj hex_encode) in Heq2; simplify_eq); done.
  - destruct c as [[u [[|a l]|]]|], c' as [[u' [[|a' l']|]]|]; simpl; intros Heq; simplify_eq; done.
Qed.

Lemma cache_key_lane server c (r : JsonRpcRequest V) server' c' r' :
  cache_key params_json server c r = cache_key params_json server' c' r' ->
  server = server' /\ lane_of c = lane_of c' /\ req_hash params_json r = req_hash params_json r'.
Proof.
  unfold cache_key. destruct (parts_no_colon c) as [Hu Hl], (parts_no_colon c') as [Hu' Hl'].
  rewrite <- (caller_key_parts_inj c c').
  destruct (caller_key_parts c) as [u l], (caller_key_parts c') as [u' l']. simpl in *.
  intros Heq%str_app_cancel_l.
  apply cut_at in Heq as [->%(inj uuid_simple) Heq]; [|apply simple_no_colon..].
  apply cut_at in Heq as [-> Heq]; [|done..]. apply cut_at in Heq as [-> Heq]; [|done..]. done.
Qed.

(** *** Patterns *)

Lemma glob_any s : glob "*" s.
Proof. unfold glob. induction s as [|c s IH]; [done|]. simpl in *. by rewrite IH. Qed.

Lemma glob_literal p s : has_char "*"%char p = false -> glob (p +:+ "*") s <-> exists t, s = p +:+ t.
Proof.
  revert s. induction p as [|c p IH]; intros s; simpl.
  - intros _. split; [by exists s|intros _; apply glob_any].
  - intros [Hc Hp]%orb_false_iff. apply bool_decide_eq_false in Hc.
    change (String c p +:+ "*") with (String c (p +:+ "*")). unfold glob. cbn [glob_fix].
    rewrite decide_False by congruence. destruct s as [|d s].
    + split; [done|]. by intros [t Ht].
    + rewrite andb_true_iff, bool_decide_eq_true. fold (glob (p +:+ "*") s). rewrite (IH s Hp).
      split; [intros [-> [t ->]]; by exists t|]. intros [t [= -> ->]]. split; [done|by exists t].
Qed.

Lemma simple_no_star (u : U) : has_char "*"%char (uuid_simple u) = false.
Proof. apply all_hex_has_char; [apply uuid_simple_hex|done]. Qed.

(** The user of an entry of a caller's lane. *)
Definition lane_user (c : option (CallerScope U)) : option U := cs_user_id <$> c.

Lemma user_lane_matches server user server' c (r : JsonRpcRequest V) :
  glob (user_lane_pattern server user) (cache_key params_json server' c r) <->
  server' = server /\ lane_user c = Some user.
Proof.
  unfold user_lane_pattern.
  replace (KEY_PREFIX +:+ uuid_simple server +:+ ":" +:+ uuid_simple user +:+ ":*")
    with ((KEY_PREFIX +:+ uuid_simple server +:+ ":" +:+ uuid_simple user +:+ ":") +:+ "*")
    by (by rewrite !str_app_assoc).
  rewrite glob_literal by (rewrite !has_char_app, !simple_no_star; done).
  unfold cache_key. pose proof (parts_no_colon c) as [Hu Hl].
  destruct (caller_key_parts c) as [u l] eqn:Ec. simpl in *. split.
  - intros [t Heq]. rewrite !str_app_assoc in Heq. apply str_app_cancel_l in Heq.
    apply cut_at in Heq as [->%(inj uuid_simple) Heq]; [|apply simple_no_colon..].
    apply cut_at in Heq as [-> _]; [|done|apply simple_no_colon]. split; [done|].
    destruct c as [c|]; [|by injection Ec as Heq _; destruct (simple_nonempty user)].
    injection Ec as Heq _. apply (inj uuid_simple) in Heq. simpl. by rewrite Heq.
  - intros [-> Hc]. destruct c as [c|]; [|done]. injection Hc as <-. injection Ec as <- <-.
    eexists. by rewrite !str_app_assoc.
Qed.

Lemma server_lane_matches server server' c (r : JsonRpcRequest V) :
  glob (server_lane_pattern server) (cache_key params_json server' c r) <-> server' = server.
Proof.
  unfold server_lane_pattern.
  replace (KEY_PREFIX +:+ uuid_simple server +:+ ":*") with ((KEY_PREFIX +:+ uuid_simple server +:+ ":") +:+ "*")
    by (by rewrite !str_app_assoc).
  rewrite glob_literal by (rewrite !has_char_app, !simple_no_star; done).
  unfold cache_key. destruct (caller_key_parts c) as [u l]. split.
  - intros [t Heq]. rewrite !str_app_assoc in Heq. apply str_app_cancel_l in Heq.
    by apply cut_at in Heq as [->%(inj uuid_simple) _]; [|apply simple_no_colon..].
  - intros ->. eexists. by rewrite !str_app_assoc.
Qed.
End Keys.

(** ** What a pattern delete leaves *)

Section Invalidate.
Context (slot : string -> Z) (net : nat -> bool) (clustered : bool).
Context (scan : string -> gmap string string -> list (result unit string)).

(** What Redis promises of a [SCAN MATCH]: it yields only keys that match, and, if it does not
    fail, every key that was there throughout; in any order, some of them more than once. *)
Definition scan_ok : Prop := forall pattern s,
  (forall k, Ok k ∈ scan pattern s -> glob pattern k) /\
  ((forall e, Err e ∉ scan pattern s) ->
     forall k, is_Some (s !! k) -> glob pattern k -> Ok k ∈ scan pattern s).

Lemma scanned_elem {E} (keys : list (result E string)) k : k ∈ scanned keys <-> Ok k ∈ keys.
Proof.
  unfold scanned. rewrite list_elem_of_omap. split.
  - intros ([k'|e] & Hk & [= ->]). done.
  - intros Hk. by exists (Ok k).
Qed.

Lemma lookup_delete_all (keys : list string) (s : gmap string string) k :
  foldr delete s keys !! k = if decide (k ∈ keys) then None else s !! k.
Proof.
  induction keys as [|k' keys IH]; simpl; [done|]. destruct (decide (k = k')) as [->|Hne].
  - by rewrite lookup_delete_eq, decide_True by (by left).
  - rewrite lookup_delete_ne by done. rewrite IH. repeat case_decide; set_solver.
Qed.

Lemma same_slot_ok keys : sendable slot clustered keys -> clustered && crosses_slots slot keys = false.
Proof.
  intros [_ Hone]. destruct clustered; [|done]. destruct (Hone eq_refl) as [n Hn]. simpl.
  destruct keys as [|k keys]; [done|]. simpl. apply Forall_cons in Hn as [Hk Hn].
  clear Hone. rewrite Hk. induction Hn as [|k' keys Hk' _ IH]; [done|]. simpl. rewrite Hk', Z.eqb_refl. exact IH.
Qed.

Lemma scan_and_delete_spec pattern (w : cache_redis) :
  scan_ok ->
  let w' := (scan_and_delete slot net clustered scan pattern w).1 in
  (forall k, ~ glob pattern k -> cr_entries w' !! k = cr_entries w !! k) /\
  ((forall i, net i = true) -> (forall e, Err e ∉ scan pattern (cr_entries w)) ->
   forall k, glob pattern k -> cr_entries w' !! k = None).
Proof.
  intros Hscan w'. destruct (Hscan pattern (cr_entries w)) as [Hsound Hfull].
  set (found := scan pattern (cr_entries w)) in *.
  assert (Hw' : w' = (delete_all slot (redis_del slot net clustered) found clustered w).1).
  { subst w'. unfold scan_and_delete. fold found. by destruct (delete_all _ _ _ _ w). }
  assert (Hkeep : forall k, k ∉ scanned found -> cr_entries w' !! k = cr_entries w !! k).
  { rewrite Hw'. apply (delete_all_inv slot _ clustered
      (fun w1 sent => forall k, k ∉ sent -> cr_entries w1 !! k = cr_entries w !! k)); [| |done].
    - intros w1 sent keys _ HP k [Hs Hk]%not_elem_of_app. unfold redis_del. case_match; simpl; [|auto].
      rewrite lookup_delete_all, decide_False by done. auto.
    - intros w1 sent sent' Hp HP k Hk. apply HP. by rewrite Hp. }
  split.
  - intros k Hk. apply Hkeep. by intros Hin%scanned_elem%Hsound.
  - intros Hnet Hnoerr k Hk. destruct (decide (k ∈ scanned found)) as [Hin|Hout].
    + revert k Hk Hin. rewrite Hw'. apply (delete_all_inv slot _ clustered
        (fun w1 sent => forall k, glob pattern k -> k ∈ sent -> cr_entries w1 !! k = None)).
      * intros w1 sent keys Hsend HP k Hk Hin. unfold redis_del. rewrite Hnet, same_slot_ok by done. simpl.
        rewrite lookup_delete_all. case_decide as Hd; [done|]. apply HP; [done|]. set_solver.
      * intros w1 sent sent' Hp HP k Hk Hin. apply HP; [done|]. by rewrite Hp.
      * by intros k _ ?%elem_of_nil.
    + rewrite Hkeep by done. destruct (cr_entries w !! k) as [v|] eqn:Ev; [|done]. destruct Hout.
      apply scanned_elem, Hfull; [done|by exists v|done].
Qed.

Context {U : Type} `{CacheTextLaws U} {V Resp : Type} (params_json : V -> string).
Context (to_json : Resp -> option string) (of_json : string -> option Resp) (is_error : Resp -> bool).
Context (body_fits : string -> bool).

(** Cached answers stay with whom they were made for.  An answer stored for one caller of a server
    is read back only on the same server by the same lane (the same user and account label, or
    the shared lane); and wiping a user's lane on a server leaves every other entry, even when
    commands fail or the cluster is split by slots, and removes every one of the user's there,
    under any label, when they do not. *)
Theorem cache_lanes (w : cache_redis) server user :
  scan_ok ->
  let entry := cache_key params_json in
  let wiped := (invalidate_user_lane slot net clustered scan server user w).1 in
  (forall s c r server' c' r' resp, entry server' c' r' <> entry server c r ->
     cache_get params_json of_json body_fits true server' c' r'
       (cache_set params_json to_json is_error true server c r resp s) =
     cache_get params_json of_json body_fits true server' c' r' s) /\
  (forall server1 c1 r1 c2 r2, entry server c2 r2 = entry server1 c1 r1 ->
     server = server1 /\ lane_of c2 = lane_of c1) /\
  (forall server' c r, ~ (server' = server /\ lane_user c = Some user) ->
     cr_entries wiped !! entry server' c r = cr_entries w !! entry server' c r) /\
  ((forall i, net i = true) -> (forall e, Err e ∉ scan (user_lane_pattern server user) (cr_entries w)) ->
   forall label r, cr_entries wiped !!
     entry server (Some {| cs_user_id := user; cs_account_label := label |}) r = None).
Proof.
  intros Hscan entry wiped.
  destruct (scan_and_delete_spec (user_lane_pattern server user) w Hscan) as [Hkeep Hgone]. split_and!.
  - intros s c r server' c' r' resp Hne. unfold cache_get, cache_set.
    destruct (is_error resp); [done|]. destruct (to_json resp); [|done]. by rewrite lookup_insert_ne.
  - intros server1 c1 r1 c2 r2 (-> & -> & _)%cache_key_lane. done.
  - intros server' c r Hout. apply Hkeep. intros Hg. apply Hout. by apply (user_lane_matches params_json) in Hg.
  - intros Hnet Hnoerr label r. apply Hgone; [done..|]. by apply (user_lane_matches params_json).
Qed.
End Invalidate.

(** ** Witness *)

Definition hex_digit (n : nat) : ascii := ascii_of_nat (if (n <? 10)%nat then 48 + n else 87 + n).
Definition hex_value (c : ascii) : nat :=
  let n := nat_of_ascii c in if (n <? 58)%nat then n - 48 else n - 87.

Fixpoint demo_hex (s : string) : string :=
  match s with
  | EmptyString => EmptyString
  | String c s => String (hex_digit (nat_of_ascii c / 16)) (String (hex_digit (nat_of_ascii c mod 16)) (demo_hex s))
  end.
Fixpoint demo_unhex (s : string) : string :=
  match s with
  | String a (String b s) => String (ascii_of_nat (hex_value a * 16 + hex_value b)) (demo_unhex s)
  | _ => EmptyString
  end.

Lemma hex_char_back c : ascii_of_nat (hex_value (hex_digit (nat_of_ascii c / 16)) * 16 +
  hex_value (hex_digit (nat_of_ascii c mod 16))) = c.
Proof. by destruct c as [[] [] [] [] [] [] [] []]. Qed.

Lemma hex_char_hex c :
  is_hex (hex_digit (nat_of_ascii c / 16)) = true /\ is_hex (hex_digit (nat_of_ascii c mod 16)) = true.
Proof. by destruct c as [[] [] [] [] [] [] [] []]. Qed.

Lemma demo_unhex_hex s : demo_unhex (demo_hex s) = s.
Proof. induction s as [|c s IH]; [done|]. cbn [demo_hex demo_unhex]. by rewrite hex_char_back, IH. Qed.

Definition demo_simple (u : demo_uuid) : string :=
  match u with
  | UNil => "00000000000000000000000000000000"
  | UAlice => "11111111222243338444555555555555"
  | UKey1 => "66666666777748889999aaaaaaaaaaaa"
  end.

#[export] Instance demo_CacheText : CacheText demo_uuid :=
  {| uuid_simple := demo_simple; hex_encode := demo_hex; xxh3_hex := demo_hex |}.

Lemma demo_hex_all s : all_hex (demo_hex s) = true.
Proof. induction s as [|c s IH]; [done|]. cbn [demo_hex all_hex]. destruct (hex_char_hex c) as [H1 H2]. by rewrite H1, H2, IH. Qed.

#[export] Instance demo_CacheTextLaws : CacheTextLaws demo_uuid.
Proof.
  split; cbn [uuid_simple hex_encode xxh3_hex demo_CacheText].
  - intros [] []; done.
  - by intros [].
  - by intros [].
  - intros s s' Heq. by rewrite <- (demo_unhex_hex s), <- (demo_unhex_hex s'), Heq.
  - apply demo_hex_all.
  - apply demo_hex_all.
Qed.

Definition demo_scan (pattern : string) (s : gmap string string) : list (result unit string) :=
  Ok <$> filter (fun k => glob pattern k) (map_to_list s).*1.

Lemma demo_scan_ok : scan_ok demo_scan.
Proof.
  intros pattern s. unfold demo_scan. split.
  - intros k (k' & [= ->] & [Hg _]%list_elem_of_filter)%list_elem_of_fmap. done.
  - intros _ k [v Hv] Hg. apply list_elem_of_fmap_2, list_elem_of_filter. split; [done|].
    apply (list_elem_of_fmap_2 fst (map_to_list s) (k, v)). by apply elem_of_map_to_list.
Qed.

Definition demo_request : JsonRpcRequest string := {| jr_method := "tools/call"; jr_params := None |}.
Definition demo_caller (label : option string) : option (CallerScope demo_uuid) :=
  Some {| cs_user_id := UAlice; cs_account_label := label |}.

Definition demo_cache : cache_redis :=
  {| cr_entries := cache_set id Some (fun _ => false) true UKey1 (demo_caller (Some "work")) demo_request "a"
       (cache_set id Some (fun _ => false) true UKey1 None demo_request "b" ∅);
     cr_sent := 0 |}.

Lemma demo_scan_no_error pattern s e : Err e ∉ demo_scan pattern s.
Proof. by intros (k & ? & _)%list_elem_of_fmap. Qed.

Lemma cache_lanes_witness :
  cr_entries (invalidate_user_lane (fun _ => 0) (fun _ => true) true demo_scan UKey1 UAlice demo_cache).1
    !! cache_key id UKey1 (demo_caller (Some "work")) demo_request = None.
Proof.
  destruct (cache_lanes (Resp := string) (fun _ => 0) (fun _ => true) true demo_scan (V := string) id Some Some
    (fun _ => false) (fun _ => true) demo_cache UKey1 UAlice demo_scan_ok) as (_ & _ & _ & Hgone).
  apply (Hgone (fun _ => eq_refl) (demo_scan_no_error _ _) (Some "work") demo_request).
Defined.
