(* ===== verification/McpBreaker.v ===== *)
(** * Circuit breakers of MCP servers, and what the dashboard shows of them

    [crates/mcp-gateway/src/circuit_breaker.rs] and [crates/common/src/cb_registry.rs]: one
    breaker per server, mirrored by name into a process-wide map, with a listener for
    openings.  The breakers themselves are [tw-breaker]'s, an interface.  The mirror is proved
    to show, under any names, what was last reported, and to refine the breakers when every
    server keeps a name of its own; calls do not overlap. *)

From S2P Require Import Prelude Interfaces GatewayDeps.

(** ** [tw_breaker::Breakers]

    One breaker per key, each transition under one lock.  [bs_admit] and [bs_record] take the
    time in milliseconds; they answer with the state changed to, if it changed. *)

Class KeyedBreakers (U Bs : Type) := {
  bs_new : Bs;
  bs_admit : Policy -> Z -> U -> Bs -> Bs * (bool * option BState.t);
  bs_record : Policy -> Z -> U -> bool -> Bs -> Bs * option BState.t;
  (** The state a key's breaker was last left in. *)
  bs_state : U -> Bs -> BState.t;
}.

Definition changed_to (before after : BState.t) : option BState.t :=
  if decide (before = after) then None else Some after.

Class KeyedBreakersLaws (U Bs : Type) `{KeyedBreakers U Bs} := {
  bs_state_new u : bs_state u bs_new = BState.Closed;
  bs_admit_change p t u s :
    (bs_admit p t u s).2.2 = changed_to (bs_state u s) (bs_state u (bs_admit p t u s).1);
  bs_admit_frame p t u s u' : u' <> u -> bs_state u' (bs_admit p t u s).1 = bs_state u' s;
  bs_record_change p t u ok s :
    (bs_record p t u ok s).2 = changed_to (bs_state u s) (bs_state u (bs_record p t u ok s).1);
  bs_record_frame p t u ok s u' : u' <> u -> bs_state u' (bs_record p t u ok s).1 = bs_state u' s;
}.

(** ** The registry *)

Definition label (s : BState.t) : string :=
  match s with BState.Closed => "Closed" | BState.HalfOpen => "HalfOpen" | BState.Open => "Open" end.

(** The map, and the calls made to the listener, if one was installed. *)
Record cb_registry := {
  cb_states : gmap string BState.t;
  cb_listener : bool;
  cb_opened : list (string * string);
}.

Definition set_open_listener (r : cb_registry) : cb_registry :=
  {| cb_states := cb_states r; cb_listener := true; cb_opened := cb_opened r |}.

Definition record_cb_with_kind (key : string) (state : BState.t) (kind : string) (r : cb_registry)
    : cb_registry :=
  let prev := cb_states r !! key in
  {| cb_states := <[key := state]> (cb_states r); cb_listener := cb_listener r;
     cb_opened := if bool_decide (state = BState.Open) && bool_decide (prev <> Some BState.Open)
                     && cb_listener r
                  then cb_opened r ++ [(key, kind)] else cb_opened r |}.

Definition snapshot_cb_states (r : cb_registry) : gmap string BState.t := cb_states r.

(** ** The breakers *)

Record CircuitConfig := { cc_failure_threshold : Z; cc_recovery_secs : Z; cc_half_open_max : Z }.

Definition CircuitConfig_default : CircuitConfig :=
  {| cc_failure_threshold := 5; cc_recovery_secs := 60; cc_half_open_max := 3 |}.

Definition config_policy (c : CircuitConfig) : Policy :=
  {| pol_trip := Consecutive (cc_failure_threshold c);
     pol_cooldown := cc_recovery_secs c * 1000000000; pol_probes := cc_half_open_max c |}.

Section Breakers.
Context {U : Type} `{Uuid U} {Bs : Type} `{KeyedBreakers U Bs}.

Record McpCircuitBreakers := {
  mb_policy : Policy;
  mb_breakers : Bs;
  mb_known : list U;
}.

Definition with_config (c : CircuitConfig) : McpCircuitBreakers :=
  {| mb_policy := config_policy c; mb_breakers := bs_new; mb_known := [] |}.

(** The gateway's breakers and the process-wide registry. *)
Definition breaker_world : Type := McpCircuitBreakers * cb_registry.

Definition announce (server_id : U) (display_name : string) (w : breaker_world) : breaker_world :=
  let '(m, r) := w in
  if decide (server_id ∈ mb_known m) then w
  else ({| mb_policy := mb_policy m; mb_breakers := mb_breakers m; mb_known := server_id :: mb_known m |},
        record_cb_with_kind display_name BState.Closed "mcp" r).

Definition report (display_name : string) (change : option BState.t) (r : cb_registry) : cb_registry :=
  match change with None => r | Some s => record_cb_with_kind display_name s "mcp" r end.

Definition with_breakers (bs : Bs) (m : McpCircuitBreakers) : McpCircuitBreakers :=
  {| mb_policy := mb_policy m; mb_breakers := bs; mb_known := mb_known m |}.

(** Whether the call may go through. *)
Definition check (server_id : U) (display_name : string) (now : Z) (w : breaker_world)
    : breaker_world * bool :=
  let '(m, r) := announce server_id display_name w in
  let '(bs, (admitted, change)) := bs_admit (mb_policy m) now server_id (mb_breakers m) in
  ((with_breakers bs m, report display_name change r), admitted).

Definition record_result (ok : bool) (server_id : U) (display_name : string) (now : Z) (w : breaker_world)
    : breaker_world :=
  let '(m, r) := announce server_id display_name w in
  let '(bs, change) := bs_record (mb_policy m) now server_id ok (mb_breakers m) in
  (with_breakers bs m, report display_name change r).

Definition record_success := record_result true.
Definition record_failure := record_result false.
Definition register := announce.

(** ** The mirror *)

Inductive breaker_call := CallCheck | CallSuccess | CallFailure | CallRegister.

Definition run_call (c : breaker_call) (server_id : U) (display_name : string) (now : Z) (w : breaker_world)
    : breaker_world :=
  match c with
  | CallCheck => (check server_id display_name now w).1
  | CallSuccess => record_success server_id display_name now w
  | CallFailure => record_failure server_id display_name now w
  | CallRegister => register server_id display_name w
  end.

(** Calls under whatever name each server has at the time. *)
Definition run_named (calls : list (breaker_call * U * string * Z)) (w : breaker_world) : breaker_world :=
  foldl (fun w '(c, u, nm, t) => run_call c u nm t w) w calls.

Context (name : U -> string).

Definition run_calls (calls : list (breaker_call * U * Z)) (w : breaker_world) : breaker_world :=
  foldl (fun w '(c, u, t) => run_call c u (name u) t w) w calls.

Definition state_of (u : U) (w : breaker_world) : BState.t := bs_state u (mb_breakers w.1).

(** How often [u]'s breaker opens over the calls. *)
Fixpoint openings (u : U) (calls : list (breaker_call * U * Z)) (w : breaker_world) : nat :=
  match calls with
  | [] => 0
  | (c, v, t) :: calls =>
      let w' := run_call c v (name v) t w in
      (if bool_decide (state_of u w <> BState.Open) && bool_decide (state_of u w' = BState.Open) then 1 else 0)
        + openings u calls w'
  end.

(** The abstract machine the dashboard means to show: a state per server it has heard of. *)
Definition mirrors (w : breaker_world) : Prop :=
  forall u, cb_states w.2 !! name u =
    if decide (u ∈ mb_known w.1) then Some (state_of u w) else None.

Definition unknown_closed (w : breaker_world) : Prop :=
  forall u, u ∉ mb_known w.1 -> state_of u w = BState.Closed.

Definition heard_as (key : string) (w : breaker_world) : nat :=
  length (filter (fun p => p = (key, "mcp")) (cb_opened w.2)).
Definition heard (u : U) (w : breaker_world) : nat := heard_as (name u) w.

(** What the calls say of a name: [Closed] when they bring a server not heard of before, and
    every state the server's breaker moves to. *)
Definition reported_by (key : string) (c : breaker_call) (u : U) (nm : string) (t : Z) (w : breaker_world) : list BState.t :=
  let w' := run_call c u nm t w in
  if decide (nm = key) then
    (if decide (u ∈ mb_known w.1) then [] else [BState.Closed]) ++
    (if decide (state_of u w = state_of u w') then [] else [state_of u w'])
  else [].
Fixpoint reported_under (key : string) (calls : list (breaker_call * U * string * Z)) (w : breaker_world) : list BState.t :=
  match calls with
  | [] => []
  | (c, u, nm, t) :: calls => reported_by key c u nm t w ++ reported_under key calls (run_call c u nm t w)
  end.
End Breakers.
#[global] Arguments McpCircuitBreakers : clear implicits.
#[global] Arguments breaker_world : clear implicits.

(** How often a list of states goes to open. *)
Fixpoint turns_open (prev : option BState.t) (l : list BState.t) : nat :=
  match l with
  | [] => 0
  | s :: l => (if bool_decide (s = BState.Open) && bool_decide (prev <> Some BState.Open) then 1 else 0) + turns_open (Some s) l
  end.
Definition last_or {A} (prev : option A) (l : list A) : option A := match last l with Some x => Some x | None => prev end.
Lemma last_or_app {A} (prev : option A) l l' : last_or prev (l ++ l') = last_or (last_or prev l) l'.
Proof. unfold last_or. rewrite last_app. by destruct (last l'), (last l). Qed.
Lemma turns_open_app prev l l' : turns_open prev (l ++ l') = (turns_open prev l + turns_open (last_or prev l) l')%nat.
Proof.
  revert prev. induction l as [|s l IH]; intros prev; [done|]. cbn [app turns_open]. rewrite IH, Nat.add_assoc. do 2 f_equal.
  unfold last_or. rewrite last_cons. by destruct (last l).
Qed.

(** *** Whatever the names *)

Section Names.
Context {U : Type} `{Uuid U} {Bs : Type} `{KeyedBreakersLaws U Bs}.
Implicit Types (w : breaker_world U Bs) (r : cb_registry).

(** [states] reported of [key], one after the other. *)
Definition told (key : string) (states : list BState.t) w w' : Prop :=
  cb_states w'.2 !! key = last_or (cb_states w.2 !! key) states /\
  (heard_as key w' = heard_as key w + turns_open (cb_states w.2 !! key) states)%nat /\
  cb_listener w'.2 = true.
Lemma told_nothing key w w' : w'.2 = w.2 -> cb_listener w.2 = true -> told key [] w w'.
Proof. intros Hr Hl. unfold told, heard_as. rewrite Hr. split_and!; [done|simpl; lia|done]. Qed.
Lemma told_trans key l1 l2 w w1 w2 : told key l1 w w1 -> told key l2 w1 w2 -> told key (l1 ++ l2) w w2.
Proof.
  intros (Hs1 & Hh1 & Hl1) (Hs2 & Hh2 & Hl2). rewrite Hs1 in Hs2, Hh2. split_and!; [by rewrite last_or_app|rewrite turns_open_app; lia|done].
Qed.
Lemma record_told key nm s m m' r : cb_listener r = true ->
  told key (if decide (nm = key) then [s] else []) (m, r) (m', record_cb_with_kind nm s "mcp" r).
Proof.
  intros Hl. unfold told, heard_as, record_cb_with_kind. cbn [snd cb_states cb_listener cb_opened]. rewrite Hl, andb_true_r. case_decide as Hn.
  - subst nm. rewrite lookup_insert_eq. split_and!; [done| |done]. cbn [turns_open]. destruct (bool_decide _ && _); [|lia].
    rewrite filter_app, length_app, filter_cons, decide_True by done. simpl. lia.
  - rewrite lookup_insert_ne by done. split_and!; [done| |done]. cbn [turns_open]. destruct (bool_decide _ && _); [|lia].
    rewrite filter_app, filter_cons, decide_False, app_nil_r by congruence. lia.
Qed.

Lemma run_call_told key c u nm t w : cb_listener w.2 = true -> told key (reported_by key c u nm t w) w (run_call c u nm t w).
Proof.
  intros Hl. set (w1 := announce u nm w).
  assert (T1 : told key (if decide (nm = key) then if decide (u ∈ mb_known w.1) then [] else [BState.Closed] else []) w w1 /\ state_of u w1 = state_of u w).
  { subst w1. destruct w as [m r]. unfold announce. cbn [fst]. destruct (decide (u ∈ mb_known m)) as [Hu|Hu].
    - split; [|done]. case_decide; by apply told_nothing.
    - split; [|done]. by apply record_told. }
  destruct T1 as [T1 Hst].
  assert (T2 : forall bs change, change = changed_to (state_of u w1) (bs_state u bs) ->
    let w' := (with_breakers bs w1.1, report nm change w1.2) in
    told key (if decide (nm = key) then if decide (state_of u w = state_of u w') then [] else [state_of u w'] else []) w1 w').
  { intros bs change ->. cbn zeta. destruct T1 as (_ & _ & Hl1). change (state_of u (with_breakers bs w1.1, _)) with (bs_state u bs). rewrite <- Hst.
    unfold changed_to. destruct w1 as [m1 r1]. cbn [fst snd] in *. destruct (decide (state_of u (m1, r1) = bs_state u bs)) as [Hc|Hc]; simpl.
    - case_decide; by apply told_nothing.
    - by apply record_told. }
  assert (Hjoin : forall w', told key (if decide (nm = key) then if decide (state_of u w = state_of u w') then [] else [state_of u w'] else []) w1 w' ->
    told key (if decide (nm = key) then (if decide (u ∈ mb_known w.1) then [] else [BState.Closed]) ++
      (if decide (state_of u w = state_of u w') then [] else [state_of u w']) else []) w w').
  { intros w' T3. pose proof (told_trans _ _ _ _ _ _ T1 T3) as Ht. by destruct (decide (nm = key)). }
  unfold reported_by. apply Hjoin. clear Hjoin. destruct c; simpl.
  - unfold check. fold w1. destruct w1 as [m r]. pose proof (bs_admit_change (mb_policy m) t u (mb_breakers m)) as Hch.
    destruct (bs_admit _ _ _ _) as [bs [adm change]]. by apply T2.
  - unfold record_success, record_result. fold w1. destruct w1 as [m r]. pose proof (bs_record_change (mb_policy m) t u true (mb_breakers m)) as Hch.
    destruct (bs_record _ _ _ _ _) as [bs change]. by apply T2.
  - unfold record_failure, record_result. fold w1. destruct w1 as [m r]. pose proof (bs_record_change (mb_policy m) t u false (mb_breakers m)) as Hch.
    destruct (bs_record _ _ _ _ _) as [bs change]. by apply T2.
  - unfold register. fold w1. destruct T1 as (_ & _ & Hl1). destruct (decide (state_of u w = state_of u w1)) as [_|Hne]; [|by rewrite Hst in Hne]. case_decide; by apply told_nothing.
Qed.
Lemma run_named_told key calls w : cb_listener w.2 = true -> told key (reported_under key calls w) w (run_named calls w).
Proof.
  unfold run_named. revert w. induction calls as [|[[[c u] nm] t] calls IH]; intros w Hl; [by apply told_nothing|]. cbn [reported_under foldl].
  pose proof (run_call_told key c u nm t w Hl) as T1. eapply told_trans; [exact T1|]. apply IH, T1.
Qed.
End Names.

Lemma never_both (s : BState.t) :
  bool_decide (s <> BState.Open) && bool_decide (s = BState.Open) = false.
Proof. by destruct s. Qed.

Section MirrorSpec.
Context {U : Type} `{Uuid U} {Bs : Type} `{KeyedBreakersLaws U Bs} (name : U -> string) `{!Inj (=) (=) name}.
Implicit Types (w : breaker_world U Bs).

Definition mirror_inv w : Prop := mirrors name w /\ unknown_closed w /\ cb_listener w.2 = true.

Lemma announce_inv u w : mirror_inv w ->
  let w' := announce u (name u) w in
  mirror_inv w' /\ u ∈ mb_known w'.1 /\ mb_breakers w'.1 = mb_breakers w.1 /\
  mb_policy w'.1 = mb_policy w.1 /\ cb_opened w'.2 = cb_opened w.2.
Proof.
  destruct w as [m r]. intros (Hm & Hc & Hl). unfold announce. case_decide as Hu; [done|].
  split_and!; try done; simpl.
  - split_and!; [| |done].
    + intros v. specialize (Hm v). simpl in *. destruct (decide (v = u)) as [->|Hne].
      * rewrite lookup_insert_eq, decide_True by (by left). by rewrite <- (Hc u Hu).
      * rewrite lookup_insert_ne by (by intros Heq%(inj name)). rewrite Hm. unfold state_of. simpl.
        repeat case_decide; set_solver.
    + intros v Hv. apply Hc. simpl in *. set_solver.
  - by left.
Qed.

(** A change of [u]'s breaker alone, reported. *)
Lemma report_inv u bs w :
  mirror_inv w -> u ∈ mb_known w.1 ->
  (forall v, v <> u -> bs_state v bs = bs_state v (mb_breakers w.1)) ->
  let w' := (with_breakers bs w.1, report (name u) (changed_to (state_of u w) (bs_state u bs)) w.2) in
  mirror_inv w' /\
  forall v, heard name v w' = (heard name v w +
    if bool_decide (state_of v w <> BState.Open) && bool_decide (state_of v w' = BState.Open) then 1 else 0)%nat.
Proof.
  destruct w as [m r]. intros (Hm & Hc & Hl) Hu Hframe. simpl in *.
  assert (Hprev : cb_states r !! name u = Some (state_of u (m, r))).
  { specialize (Hm u). simpl in Hm. by rewrite decide_True in Hm. }
  unfold changed_to. case_decide as Hch; simpl.
  - assert (Hsame : forall v, bs_state v bs = bs_state v (mb_breakers m)).
    { intros v. destruct (decide (v = u)) as [->|]; [done|auto]. }
    split; [split_and!|]; [| |done|].
    + intros v. specialize (Hm v). unfold state_of in *. simpl in *. by rewrite Hsame.
    + intros v Hv. unfold state_of. simpl. rewrite Hsame. by apply Hc.
    + intros v. unfold heard, heard_as, state_of. simpl. rewrite Hsame. rewrite never_both. lia.
  - split; [split_and!|]; [| |done|].
    + intros v. specialize (Hm v). unfold state_of in *. simpl in *. destruct (decide (v = u)) as [->|Hne].
      * by rewrite lookup_insert_eq, decide_True.
      * rewrite lookup_insert_ne by (by intros Heq%(inj name)). rewrite Hm. by rewrite Hframe.
    + intros v Hv. unfold state_of in *. simpl. rewrite Hframe by (by intros ->). by apply Hc.
    + intros v. unfold heard, heard_as. simpl. rewrite Hl, Hprev, andb_true_r.
      assert (Hside : bool_decide (Some (state_of u (m, r)) <> Some BState.Open) =
        bool_decide (state_of u (m, r) <> BState.Open)) by (by destruct (state_of u (m, r))).
      rewrite Hside. unfold state_of in *. simpl in *. destruct (decide (v = u)) as [->|Hne].
      * rewrite (andb_comm (bool_decide (bs_state u (mb_breakers m) <> _))).
        destruct (bool_decide (bs_state u bs = BState.Open) && _); [|lia].
        rewrite filter_app, length_app, filter_cons, decide_True by done. simpl. lia.
      * rewrite (Hframe v Hne).
        rewrite never_both, Nat.add_0_r. destruct (bool_decide _ && _); [|done].
        rewrite filter_app, filter_cons, decide_False, app_nil_r; [done|].
        intros [= Heq%(inj name)]. congruence.
Qed.

Lemma run_call_inv c u t w : mirror_inv w ->
  let w' := run_call c u (name u) t w in
  mirror_inv w' /\
  forall v, heard name v w' = (heard name v w +
    if bool_decide (state_of v w <> BState.Open) && bool_decide (state_of v w' = BState.Open) then 1 else 0)%nat.
Proof.
  intros Hinv. destruct (announce_inv u w Hinv) as (Hinv1 & Hk & Hbs & _ & Ho).
  assert (Hst : forall v, state_of v (announce u (name u) w) = state_of v w)
    by (intros v; unfold state_of; by rewrite Hbs).
  assert (Hh : forall v, heard name v (announce u (name u) w) = heard name v w)
    by (intros v; unfold heard, heard_as; by rewrite Ho).
  destruct c; simpl.
  - unfold check. destruct (announce u (name u) w) as [m r] eqn:Ea.
    pose proof (bs_admit_change (mb_policy m) t u (mb_breakers m)) as Hch.
    pose proof (fun v => bs_admit_frame (mb_policy m) t u (mb_breakers m) v) as Hfr.
    destruct (bs_admit (mb_policy m) t u (mb_breakers m)) as [bs [adm change]]. simpl in *. subst change.
    destruct (report_inv u bs (m, r) Hinv1 Hk Hfr) as [Hi Hhv]. split; [exact Hi|].
    intros v. rewrite <- Hh, <- Hst. apply Hhv.
  - unfold record_success, record_result. destruct (announce u (name u) w) as [m r] eqn:Ea.
    pose proof (bs_record_change (mb_policy m) t u true (mb_breakers m)) as Hch.
    pose proof (fun v => bs_record_frame (mb_policy m) t u true (mb_breakers m) v) as Hfr.
    destruct (bs_record (mb_policy m) t u true (mb_breakers m)) as [bs change]. simpl in *. subst change.
    destruct (report_inv u bs (m, r) Hinv1 Hk Hfr) as [Hi Hhv]. split; [exact Hi|].
    intros v. rewrite <- Hh, <- Hst. apply Hhv.
  - unfold record_failure, record_result. destruct (announce u (name u) w) as [m r] eqn:Ea.
    pose proof (bs_record_change (mb_policy m) t u false (mb_breakers m)) as Hch.
    pose proof (fun v => bs_record_frame (mb_policy m) t u false (mb_breakers m) v) as Hfr.
    destruct (bs_record (mb_policy m) t u false (mb_breakers m)) as [bs change]. simpl in *. subst change.
    destruct (report_inv u bs (m, r) Hinv1 Hk Hfr) as [Hi Hhv]. split; [exact Hi|].
    intros v. rewrite <- Hh, <- Hst. apply Hhv.
  - split; [exact Hinv1|]. intros v. unfold register. rewrite Hh, Hst, never_both. lia.
Qed.

Lemma run_calls_inv calls w : mirror_inv w ->
  mirror_inv (run_calls name calls w) /\
  forall v, heard name v (run_calls name calls w) = (heard name v w + openings name v calls w)%nat.
Proof.
  unfold run_calls. revert w. induction calls as [|[[c u] t] calls IH]; intros w Hinv; simpl; [split; [done|lia]|].
  destruct (run_call_inv c u t w Hinv) as [Hinv1 Hh]. destruct (IH _ Hinv1) as [Hinv2 Hh2].
  split; [done|]. intros v. rewrite Hh2, Hh. lia.
Qed.

(** C38: The dashboard shows the breakers.  Whatever names the calls give their servers, renamed or
    shared, the registry shows under each name the last state reported under it: closed when a
    server is first heard of, then every state its breaker moves to; and the listener is called
    once each time a name goes to open.  When every server keeps a name of its own, these are the
    servers heard of, each with the state its breaker is in now, and the listener was called once
    for every time a breaker opened. *)
Theorem registry_mirrors_breakers config r0 :
  cb_states r0 = ∅ -> cb_opened r0 = [] ->
  let w0 := (with_config config, set_open_listener r0) : breaker_world U Bs in
  (forall calls key, let w := run_named calls w0 in
     snapshot_cb_states w.2 !! key = last (reported_under key calls w0) /\
     heard_as key w = turns_open None (reported_under key calls w0)) /\
  (forall calls u, let w := run_calls name calls w0 in
     snapshot_cb_states w.2 !! name u = (if decide (u ∈ mb_known w.1) then Some (state_of u w) else None) /\
     heard name u w = openings name u calls w0).
Proof.
  intros Hempty Hnone w0. split.
  - intros calls key w. destruct (run_named_told key calls w0) as (Hs & Hh & _); [done|]. fold w in Hs, Hh.
    assert (Hk : cb_states w0.2 !! key = None) by (simpl; by rewrite Hempty). rewrite Hk in Hs, Hh. split.
    + unfold snapshot_cb_states. rewrite Hs. unfold last_or. by destruct (last _).
    + rewrite Hh. unfold heard_as at 1. simpl. by rewrite Hnone.
  - intros calls u w.
    assert (Hinit : mirror_inv w0).
    { split_and!; [| |done].
      - intros v. cbn. rewrite Hempty. apply lookup_empty.
      - intros v _. apply bs_state_new. }
    destruct (run_calls_inv calls _ Hinit) as [Hinv Hh]. fold w in Hinv, Hh. split; [apply Hinv|].
    rewrite Hh. unfold heard, heard_as. simpl. by rewrite Hnone.
Qed.
End MirrorSpec.

(** ** A breaker for the witness: it opens after a run of failures and never recovers *)

Definition demo_breakers : Type := demo_uuid -> BState.t * Z.

#[export] Instance demo_KeyedBreakers : KeyedBreakers demo_uuid demo_breakers := {|
  bs_new := fun _ => (BState.Closed, 0);
  bs_admit p t u s := (s, (negb (bool_decide ((s u).1 = BState.Open)), None));
  bs_record p t u ok s :=
    let n := if ok then 0 else (s u).2 + 1 in
    let limit := match pol_trip p with Consecutive n => n | ErrorRate _ n => n end in
    let st := if limit <=? n then BState.Open else (s u).1 in
    (fun v => if decide (v = u) then (st, n) else s v, changed_to (s u).1 st);
  bs_state u s := (s u).1;
|}.

#[export] Instance demo_KeyedBreakersLaws : KeyedBreakersLaws demo_uuid demo_breakers.
Proof.
  split; cbn [bs_new bs_admit bs_record bs_state demo_KeyedBreakers]; intros; cbn [fst snd].
  - done.
  - unfold changed_to. by rewrite decide_True.
  - done.
  - by rewrite decide_True.
  - by rewrite decide_False.
Qed.

#[export] Instance demo_uuid_str_inj : Inj (=) (=) demo_uuid_str.
Proof. by intros [] []. Qed.

Definition demo_failures : list (breaker_call * demo_uuid * Z) :=
  [(CallRegister, UAlice, 0); (CallFailure, UKey1, 0); (CallFailure, UKey1, 1); (CallFailure, UKey1, 2)].
Definition demo_config : CircuitConfig :=
  {| cc_failure_threshold := 2; cc_recovery_secs := 60; cc_half_open_max := 1 |}.
Definition demo_cb : cb_registry := {| cb_states := ∅; cb_listener := false; cb_opened := [] |}.
Definition demo_start : breaker_world demo_uuid demo_breakers :=
  (with_config demo_config, set_open_listener demo_cb).

(** A server is renamed between its failures: the old name keeps showing it closed. *)
Definition demo_renamed : list (breaker_call * demo_uuid * string * Z) :=
  [(CallRegister, UKey1, "old", 0); (CallFailure, UKey1, "new", 1); (CallFailure, UKey1, "new", 2)].

Lemma registry_mirrors_breakers_witness :
  (snapshot_cb_states (run_calls demo_uuid_str demo_failures demo_start).2 !! demo_uuid_str UKey1 = Some BState.Open /\
   heard demo_uuid_str UKey1 (run_calls demo_uuid_str demo_failures demo_start) = 1%nat) /\
  snapshot_cb_states (run_named demo_renamed demo_start).2 !! "old" = Some BState.Closed /\
  snapshot_cb_states (run_named demo_renamed demo_start).2 !! "new" = Some BState.Open.
Proof.
  destruct (registry_mirrors_breakers (Bs := demo_breakers) demo_uuid_str demo_config demo_cb eq_refl eq_refl) as [Hn Hf].
  split; [split|split].
  - etransitivity; [apply (Hf demo_failures UKey1)|reflexivity].
  - etransitivity; [apply (Hf demo_failures UKey1)|reflexivity].
  - etransitivity; [apply (Hn demo_renamed "old")|reflexivity].
  - etransitivity; [apply (Hn demo_renamed "new")|reflexivity].
Defined.
