(* ===== verification/ExpiringKeys.v ===== *)
(** * Redis keys with a time to live

    The commands the console's login and session code uses on plain Redis keys ([GET],
    [SET .. EX], [SET .. NX EX], [GETDEL], [INCRBY], [EXPIRE .. NX], [TTL], [DEL]) as an
    interface over an abstract store, with times in milliseconds; an instance for the
    witnesses; and the fixed-window counter of [crates/common/src/fixed_window.rs]. *)

From S2P Require Import Prelude Interfaces Sliding.

(** What a key holds: its text and the millisecond it expires at, if it does. *)
Abbreviation entry := (string * option Z)%type.

(** The entry as the server shows it at [t]: an expired key is gone. *)
Definition keep (t : Z) (o : option entry) : option entry :=
  match o with
  | Some (v, Some d) => if t <? d then Some (v, Some d) else None
  | _ => o
  end.

(** [peek] is [GET] and [PEXPIRETIME]; [int_text] and [text_int] are the server's decimal
    integers.  [xincrby] is [None], with nothing written, when the key holds no integer or the
    sum leaves 64 bits. *)
Class ExpiringKeys (St : Type) := {
  peek : Z -> string -> St -> option entry;
  xset : Z -> string -> string -> Z -> St -> St;
  xset_nx : Z -> string -> string -> Z -> St -> St * bool;
  xgetdel : Z -> string -> St -> St * option string;
  xincrby : Z -> string -> Z -> St -> option (St * Z);
  xexpire_nx : Z -> string -> Z -> St -> St;
  xdel : Z -> string -> St -> St;
  xttl : Z -> string -> St -> Z;
  int_text : Z -> string;
  text_int : string -> option Z;
}.

(** The integer a key counts; a missing key counts 0. *)
Definition counts `{ExpiringKeys St} (t : Z) (k : string) (s : St) (z : Z) : Prop :=
  peek t k s = None /\ z = 0 \/ exists d, peek t k s = Some (int_text z, d).

Class ExpiringKeysLaws (St : Type) `{ExpiringKeys St} := {
  text_int_text z : text_int (int_text z) = Some z;
  (** Only time passes: nothing but expiry happens between two looks. *)
  peek_later t t' k s : t <= t' -> peek t' k s = keep t' (peek t k s);
  peek_xset t t' k v ttl s k' : t <= t' -> 0 < ttl ->
    peek t' k' (xset t k v ttl s) =
      if decide (k' = k) then keep t' (Some (v, Some (t + 1000 * ttl))) else peek t' k' s;
  xset_nx_spec t k v ttl s : 0 < ttl ->
    xset_nx t k v ttl s =
      match peek t k s with Some _ => (s, false) | None => (xset t k v ttl s, true) end;
  xgetdel_spec t k s : xgetdel t k s = (xdel t k s, fst <$> peek t k s);
  xincrby_Some t k n s s' z' : xincrby t k n s = Some (s', z') ->
    exists z, counts t k s z /\ z' = z + n /\
      forall t' k', t <= t' -> peek t' k' s' =
        if decide (k' = k) then keep t' (Some (int_text z', peek t k s ≫= snd)) else peek t' k' s;
  xincrby_succeeds t k n s z : counts t k s z -> in_i64 (z + n) -> is_Some (xincrby t k n s);
  peek_xexpire_nx t t' k ttl s k' : t <= t' -> 0 < ttl ->
    peek t' k' (xexpire_nx t k ttl s) =
      match peek t k s with
      | Some (v, None) => if decide (k' = k) then keep t' (Some (v, Some (t + 1000 * ttl)))
                          else peek t' k' s
      | _ => peek t' k' s
      end;
  peek_xdel t t' k s k' : t <= t' ->
    peek t' k' (xdel t k s) = if decide (k' = k) then None else peek t' k' s;
  (** [TTL]: -2 for no key, -1 for no expiry, else the time left in whole seconds, which the
      server rounds. *)
  xttl_none t k s : peek t k s = None -> xttl t k s = -2;
  xttl_forever t k s v : peek t k s = Some (v, None) -> xttl t k s = -1;
  xttl_left t k s v d : peek t k s = Some (v, Some d) ->
    d - t - 1000 < 1000 * xttl t k s < d - t + 1000 /\ 0 <= xttl t k s;
}.

Lemma keep_keep t t' o : t <= t' -> keep t' (keep t o) = keep t' o.
Proof. intros. destruct o as [[v [d|]]|]; simpl; [|done..]. destruct (t <? d) eqn:E; simpl; [done|]. cases. Qed.

Lemma keep_Some t o v d : keep t o = Some (v, d) <-> o = Some (v, d) /\ (forall m, d = Some m -> t < m).
Proof. destruct o as [[w [m|]]|]; simpl; split; intros; cases; naive_solver lia. Qed.

Section Counters.
Context {St : Type} `{ExpiringKeysLaws St}.

Lemma int_text_inj : Inj (=) (=) int_text.
Proof. intros x y Hxy. apply (f_equal text_int) in Hxy. rewrite !text_int_text in Hxy. congruence. Qed.

Lemma peek_keep t k s : keep t (peek t k s) = peek t k s.
Proof. symmetry. by apply peek_later. Qed.

Lemma peek_alive t k s v d : peek t k s = Some (v, Some d) -> t < d.
Proof. intros Hp. rewrite <- peek_keep in Hp. apply keep_Some in Hp as [_ Hd]. by apply Hd. Qed.

Lemma counts_fun t k s z z' : counts t k s z -> counts t k s z' -> z = z'.
Proof.
  intros [[Hn ->]|[d Hd]] [[Hn' ->]|[d' Hd']]; try congruence.
  rewrite Hd in Hd'. injection Hd' as Hz _. by apply int_text_inj in Hz.
Qed.

(** ** [fixed_window::incr]

    [INCR], then [EXPIRE NX].  The two are separate commands: [l1] and [l2] are how their calls
    go and [t1], [t2] when they reach the server.  The count is asked for as a [u64]: a reply
    below zero is an error, after the increment. *)
Definition fixed_window_incr (l1 l2 : link) (t1 t2 : Z) (key : string) (ttl_secs : Z) (s : St)
    : St * result redis_error Z :=
  let '(s, r) := run_script l1 (fun s => match xincrby t1 key 1 s with
                                         | Some (s, z) => (s, if 0 <=? z then Some z else None)
                                         | None => (s, None)
                                         end) s in
  match r with
  | Err e => (s, Err e)
  | Ok count =>
      let '(s, r) := run_script l2 (fun s => (xexpire_nx t2 key ttl_secs s, Some tt)) s in
      match r with Err e => (s, Err e) | Ok _ => (s, Ok count) end
  end.

(** The counter after a completed increment: one more than before, expiring within its window,
    and no later than it already was to. *)
Lemma fixed_window_incr_Ok l1 l2 t1 t2 key ttl s s' n :
  fixed_window_incr l1 l2 t1 t2 key ttl s = (s', Ok n) -> t1 <= t2 -> 0 < ttl ->
  exists z, counts t1 key s z /\ n = z + 1 /\ 0 <= n /\
    let d := default (t2 + 1000 * ttl) (peek t1 key s ≫= snd) in
    (forall t, t2 <= t -> peek t key s' = keep t (Some (int_text (z + 1), Some d)) \/
                          d <= t2 /\ peek t key s' = None) /\
    forall t k, t2 <= t -> k <> key -> peek t k s' = peek t k s.
Proof.
  unfold fixed_window_incr, run_script. intros Hrun Ht Httl.
  destruct l1; simplify_eq/=.
  destruct (xincrby t1 key 1 s) as [[s1 z1]|] eqn:Hinc; simplify_eq/=.
  destruct (0 <=? z1) eqn:Hz1; zbool; simplify_eq/=.
  destruct l2; simplify_eq/=.
  apply xincrby_Some in Hinc as (z & Hz & -> & Hp). exists z. do 3 (split; [done|]).
  set (o := peek t1 key s ≫= snd) in *.
  assert (Hp2 : peek t2 key s1 = keep t2 (Some (int_text (z + 1), o))).
  { rewrite Hp by done. by rewrite decide_True. }
  split.
  - intros t Htt. rewrite peek_xexpire_nx by done. rewrite Hp2.
    destruct o as [d0|] eqn:Hd0; simpl.
    + destruct (t2 <? d0) eqn:E; zbool.
      * left. rewrite Hp by lia. by rewrite decide_True.
      * right. split; [done|]. rewrite Hp by lia. rewrite decide_True by done. simpl.
        destruct (t <? d0) eqn:E2; zbool; [lia|done].
    + left. by rewrite decide_True.
  - intros t k Htt Hk. rewrite peek_xexpire_nx by done. rewrite Hp2.
    assert (peek t k s1 = peek t k s) as Hk1 by (rewrite Hp by lia; by rewrite decide_False).
    destruct o as [d0|]; simpl; split_match; rewrite ?decide_False by done; auto.
Qed.

(** However the calls went, the count never fell and no other key was touched. *)
Lemma fixed_window_incr_other l1 l2 t1 t2 key ttl s t k :
  t1 <= t2 -> 0 < ttl -> t2 <= t -> k <> key ->
  peek t k (fixed_window_incr l1 l2 t1 t2 key ttl s).1 = peek t k s.
Proof.
  intros Ht Httl Htt Hk. unfold fixed_window_incr, run_script.
  destruct (xincrby t1 key 1 s) as [[s1 z1]|] eqn:Hinc.
  - apply xincrby_Some in Hinc as (z & Hz & -> & Hp).
    assert (Hk1 : peek t k s1 = peek t k s) by (rewrite Hp by lia; by rewrite decide_False).
    assert (Hk2 : peek t k (xexpire_nx t2 key ttl s1) = peek t k s).
    { rewrite peek_xexpire_nx by done. split_match; rewrite ?decide_False by done; auto. }
    by destruct l1, l2; simpl; destruct (0 <=? z + 1).
  - by destruct l1, l2.
Qed.
End Counters.

(** ** Keys as a map, for the witnesses *)

Definition xput (k : string) (v : string) (d : option Z) (s : gmap string entry) : gmap string entry :=
  <[k := (v, d)]> s.
Definition xpeek (t : Z) (k : string) (s : gmap string entry) : option entry := keep t (s !! k).

#[export] Instance map_Keys : ExpiringKeys (gmap string entry) := {|
  peek := xpeek;
  xset t k v ttl s := xput k v (Some (t + 1000 * ttl)) s;
  xset_nx t k v ttl s :=
    match xpeek t k s with
    | Some _ => (s, false)
    | None => (xput k v (Some (t + 1000 * ttl)) s, true)
    end;
  xgetdel t k s := (delete k s, fst <$> xpeek t k s);
  xincrby t k n s :=
    z ← match xpeek t k s with
        | Some (v, _) => z ← Z_of_dec v; if decide (v = dec_of_Z z) then Some z else None
        | None => Some 0
        end;
    if decide (in_i64 (z + n)) then Some (xput k (dec_of_Z (z + n)) (xpeek t k s ≫= snd) s, z + n)
    else None;
  xexpire_nx t k ttl s :=
    match xpeek t k s with
    | Some (v, None) => xput k v (Some (t + 1000 * ttl)) s
    | _ => s
    end;
  xdel t k s := delete k s;
  xttl t k s :=
    match xpeek t k s with
    | None => -2
    | Some (_, None) => -1
    | Some (_, Some d) => (d - t + 500) / 1000
    end;
  int_text := dec_of_Z;
  text_int := Z_of_dec;
|}.

Lemma xpeek_put t k v d s k' :
  xpeek t k' (xput k v d s) = if decide (k' = k) then keep t (Some (v, d)) else xpeek t k' s.
Proof.
  unfold xpeek, xput. case_decide; subst; [by rewrite lookup_insert_eq|].
  by rewrite lookup_insert_ne by done.
Qed.

#[export] Instance map_KeysLaws : ExpiringKeysLaws (gmap string entry).
Proof.
  split; cbn [peek xset xset_nx xgetdel xincrby xexpire_nx xdel xttl int_text text_int map_Keys].
  - apply Z_of_dec_of_Z.
  - intros t t' k s Ht. symmetry. by apply keep_keep.
  - intros. apply xpeek_put.
  - done.
  - done.
  - intros t k n s s' z' Hs. apply bind_Some in Hs as (z & Hz & Hs). case_decide; simplify_eq.
    exists z. unfold counts. cbn [peek int_text map_Keys]. split_and!; [|done|].
    + destruct (xpeek t k s) as [[v d]|]; [right|left; naive_solver].
      apply bind_Some in Hz as (z0 & _ & Hz). case_decide; simplify_eq. eauto.
    + intros t' k' _. apply xpeek_put.
  - intros t k n s z Hz Hi. unfold counts in Hz. cbn [peek int_text map_Keys] in Hz.
    destruct Hz as [[-> ->]|[d ->]]; simpl; [rewrite decide_True by done; eauto|].
    rewrite Z_of_dec_of_Z. simpl. rewrite decide_True by done. simpl.
    rewrite decide_True by done. eauto.
  - intros t t' k ttl s k' _ _. destruct (xpeek t k s) as [[v [d|]]|]; try done. apply xpeek_put.
  - intros t t' k s k' _. unfold xpeek. case_decide; subst; [by rewrite lookup_delete_eq|].
    by rewrite lookup_delete_ne by done.
  - by intros t k s ->.
  - by intros t k s v ->.
  - intros t k s v d Hd. rewrite Hd. unfold xpeek in Hd.
    apply keep_Some in Hd as [_ Hd]. specialize (Hd d eq_refl).
    pose proof (Z.div_mod (d - t + 500) 1000). pose proof (Z.mod_pos_bound (d - t + 500) 1000). lia.
Qed.
