(* ===== verification/Glob.v ===== *)
(** * Wildcard patterns

    The three ways the program matches an action against a pattern: [glob_match] of
    [crates/auth/src/rbac.rs], the [LIKE] of the scope queries in
    [crates/server/src/middleware/auth_guard.rs] (with what PostgreSQL documents of [LIKE]), and
    [action_matches_any] of [Policy]; and what a pattern means, [globs]. *)

From Stdlib Require Import Ascii.
From S2P Require Import Prelude Interfaces LimitTypes Policy GatewayDeps Text.

(** ** What a pattern means: a star stands for any text *)

Inductive globs : string -> string -> Prop :=
  | globs_nil : globs "" ""
  | globs_char c p v : c <> "*"%char -> globs p v -> globs (String c p) (String c v)
  | globs_star p v : globs p v -> globs (String "*" p) v
  | globs_skip p c v : globs (String "*" p) v -> globs (String "*" p) (String c v).

(** ** [glob_match] *)

(** [str::split] on a character. *)
Fixpoint split (sep : ascii) (s : string) : list string :=
  match s with
  | EmptyString => [""]
  | String c s =>
      if decide (c = sep) then "" :: split sep s
      else match split sep s with
           | part :: parts => String c part :: parts
           | [] => []
           end
  end.

(** [str::find]: the text after the first occurrence, and how far on that is. *)
Fixpoint find (part s : string) : option (nat * string) :=
  match strip_prefix part s with
  | Some rest => Some (O, rest)
  | None =>
      match s with
      | EmptyString => None
      | String _ s => '(n, rest) ← find part s; Some (S n, rest)
      end
  end.

(** The loop over the parts; [value] is the text from [pos] on, [first] whether [i == 0]. *)
Fixpoint glob_loop (first : bool) (parts : list string) (value : string) : option string :=
  match parts with
  | [] => Some value
  | part :: parts =>
      if decide (part = "") then glob_loop false parts value
      else
        '(found, rest) ← find part value;
        if first && negb (bool_decide (found = O)) then None else glob_loop false parts rest
  end.

Definition glob_match (pattern value : string) : bool :=
  if decide (pattern = "*") then true
  else
    let parts := split "*" pattern in
    if bool_decide (length parts = 1)%nat then bool_decide (pattern = value)
    else match glob_loop true parts value with
         | None => false
         | Some rest => bool_decide (last parts = Some "") || bool_decide (rest = "")
         end.

(** ** [LIKE]

    [%] is any text, [_] any one character, a backslash takes the next character as it is.  (A
    backslash at the very end, which the database rejects, matches nothing here.) *)

Definition continuation (c : ascii) : bool := (128 <=? nat_of_ascii c)%nat && (nat_of_ascii c <? 192)%nat.
Fixpoint skip_continuation (s : string) : string :=
  match s with
  | String c s' => if continuation c then skip_continuation s' else s
  | EmptyString => s
  end.

Fixpoint like (pattern value : string) : bool :=
  match pattern with
  | EmptyString => match value with EmptyString => true | _ => false end
  | String c p =>
      if decide (c = "%"%char) then
        (fix any v := like p v || match v with EmptyString => false | String _ v => any v end) value
      else if decide (c = "_"%char) then
        match value with EmptyString => false | String _ v => like p (skip_continuation v) end
      else if decide (c = "\"%char) then
        match p, value with
        | String e p, String d v => bool_decide (d = e) && like p v
        | _, _ => false
        end
      else match value with String d v => bool_decide (d = c) && like p v | EmptyString => false end
  end.

(** [replace(act, '*', '%')]. *)
Fixpoint star_to_percent (s : string) : string :=
  match s with
  | EmptyString => EmptyString
  | String c s => String (if decide (c = "*"%char) then "%"%char else c) (star_to_percent s)
  end.

(** The condition the scope queries put on an action [act] for the permission [perm]. *)
Definition act_matches (act perm : string) : bool :=
  bool_decide (act = "*") || bool_decide (act = perm) ||
  has_char "*" act && like (star_to_percent act) perm.

(** ** Matching part by part *)

(** [v] is the parts in order, each after any text. *)
Fixpoint after_stars (parts : list string) (v : string) : Prop :=
  match parts with
  | [] => v = ""
  | [s] => exists a, v = a +:+ s
  | s :: parts => exists a b, v = a +:+ s +:+ b /\ after_stars parts b
  end.
Definition parts_match (parts : list string) (v : string) : Prop :=
  match parts with
  | [] => False
  | [s] => v = s
  | s :: parts => exists b, v = s +:+ b /\ after_stars parts b
  end.

Lemma split_cons sep s : exists part parts, split sep s = part :: parts.
Proof.
  induction s as [|c s (part & parts & IH)]; [by eexists _, _|]. simpl.
  case_decide; [by eexists _, _|]. rewrite IH. by eexists _, _.
Qed.

Lemma after_stars_absorb parts a v : parts <> [] -> after_stars parts v -> after_stars parts (a +:+ v).
Proof.
  destruct parts as [|s [|s' parts]]; [done| |]; intros _.
  - intros [b ->]. exists (a +:+ b). by rewrite str_app_assoc.
  - intros (b & d & -> & Hd). exists (a +:+ b), d. by rewrite str_app_assoc.
Qed.

Lemma globs_star_app p a v : globs (String "*" p) v -> globs (String "*" p) (a +:+ v).
Proof. intros Hv. induction a as [|c a IH]; [done|]. by apply globs_skip. Qed.

Lemma globs_literal s p v : has_char "*" s = false -> globs p v -> globs (s +:+ p) (s +:+ v).
Proof.
  induction s as [|c s IH]; intros Hs Hv; [done|]. simpl in Hs. apply orb_false_iff in Hs as [Hc Hs].
  apply globs_char; [|by apply IH]. intros ->. done.
Qed.

Lemma parts_match_after s parts v :
  after_stars (s :: parts) v <-> exists a v', v = a +:+ v' /\ parts_match (s :: parts) v'.
Proof.
  destruct parts as [|s' parts]; simpl.
  - split; [intros [a ->]; eauto|]. intros (a & v' & -> & ->). eauto.
  - split; [intros (a & b & -> & Hb); by exists a, (s +:+ b); eauto|].
    intros (a & v' & -> & b & -> & Hb). eauto.
Qed.

Lemma globs_parts p v : globs p v <-> parts_match (split "*" p) v.
Proof.
  split.
  - induction 1 as [|c p v Hc _ IH|p v _ IH|p c v _ IH]; [done| | |]; cbn [split].
    + rewrite decide_False by done. destruct (split_cons "*" p) as (part & parts & E). rewrite E in *.
      destruct parts; simpl in *; [by rewrite IH|]. destruct IH as (b & -> & Hb). by exists b.
    + rewrite decide_True by done. destruct (split_cons "*" p) as (part & parts & E). rewrite E in *.
      exists v. split; [done|]. apply parts_match_after. by exists "", v.
    + cbn [split] in IH. rewrite decide_True in * by done. destruct (split_cons "*" p) as (part & parts & E).
      rewrite E in *. destruct IH as (b & -> & Hb). exists (String c b). split; [done|].
      by apply (after_stars_absorb _ (String c "")).
  - revert v. induction p as [|c p IH]; intros v; cbn [split]; [intros ->; constructor|].
    destruct (split_cons "*" p) as (part & parts & E). rewrite E in *. case_decide as Hc.
    + subst c. intros (b & -> & (a & v' & -> & Hv)%parts_match_after).
      apply (globs_star_app p ("" +:+ a)), globs_star. by apply IH.
    + intros Hv. destruct parts as [|s parts]; simpl in Hv.
      * subst v. apply globs_char; [done|]. by apply IH.
      * destruct Hv as (b & -> & Hb). apply (globs_char c p (part +:+ b)); [done|].
        apply IH. by exists b.
Qed.

Lemma split_single p s : split "*" p = [s] <-> s = p /\ has_char "*" p = false.
Proof.
  revert s. induction p as [|c p IH]; intros s; [naive_solver|]. cbn [split has_char].
  destruct (split_cons "*" p) as (part & parts & E). rewrite E in *. case_decide as Hc.
  - subst c. rewrite bool_decide_eq_true_2 by done. naive_solver.
  - rewrite bool_decide_eq_false_2 by done. cbn [orb].
    split; [intros [= <- ->]; by destruct (proj1 (IH part) eq_refl) as [-> ?]|].
    intros [-> Hp]. pose proof (proj2 (IH p) (conj eq_refl Hp)) as E'. by injection E' as -> ->.
Qed.

Lemma globs_exact p : has_char "*" p = false -> forall v, globs p v <-> p = v.
Proof.
  intros Hp v. rewrite globs_parts, (proj2 (split_single p p)) by done. simpl. by split.
Qed.

(** ** The first occurrence *)

Lemma find_Some part s n rest : find part s = Some (n, rest) ->
  exists a, s = a +:+ part +:+ rest /\ String.length a = n.
Proof.
  revert n. induction s as [|c s IH]; intros n; cbn [find];
    (destruct (strip_prefix part _) as [r|] eqn:E; [apply strip_prefix_Some in E as ->; intros [= <- <-]; by exists ""|]).
  - done.
  - destruct (find part s) as [[m r]|]; [|done]. intros [= <- <-].
    destruct (IH m eq_refl) as (a & -> & <-). by exists (String c a).
Qed.

Lemma str_suffix u b w rest : u +:+ b = w +:+ rest -> (String.length b <= String.length rest)%nat ->
  exists x, rest = x +:+ b.
Proof.
  revert u. induction w as [|c w IH]; intros u E Hl; [by exists u|].
  destruct u as [|d u]; [|injection E as -> E; by eapply IH].
  exfalso. change ("" +:+ b) with b in E. subst b. simpl in Hl.
  change (String.length (w +:+ rest)) with (String.length (w +:+ rest)) in Hl.
  rewrite str_length_app in Hl. lia.
Qed.

(** It is found, and no later than anywhere it is. *)
Lemma find_first part a b : exists n rest x, find part (a +:+ part +:+ b) = Some (n, rest) /\
  rest = x +:+ b /\ (n <= String.length a)%nat.
Proof.
  induction a as [|c a IH].
  - change ("" +:+ part +:+ b) with (part +:+ b). exists O, b, "". split; [|done].
    assert (E : strip_prefix part (part +:+ b) = Some b) by by apply strip_prefix_Some.
    destruct (part +:+ b); simpl; by rewrite E.
  - change (String c a +:+ part +:+ b) with (String c (a +:+ part +:+ b)). cbn [find].
    destruct (strip_prefix part _) as [rest|] eqn:E.
    + apply strip_prefix_Some in E. destruct (str_suffix (String c a +:+ part) b part rest) as [x ->].
      { by rewrite str_app_assoc. }
      { apply (f_equal String.length) in E. change (String c (a +:+ part +:+ b)) with (String c "" +:+ a +:+ part +:+ b) in E.
        rewrite !str_length_app in E. simpl in E. lia. }
      exists O, (x +:+ b), x. split; [done|]. split; [done|]. simpl; lia.
    + destruct IH as (n & rest & x & -> & -> & Hn). exists (S n), (x +:+ b), x.
      split; [done|]. split; [done|]. simpl. lia.
Qed.

Lemma glob_loop_after parts v rest : parts <> [] -> glob_loop false parts v = Some rest ->
  last parts = Some "" \/ rest = "" -> after_stars parts v.
Proof.
  revert v. induction parts as [|s parts IH]; intros v Hne Hl Hend; [done|]. cbn [glob_loop] in Hl.
  destruct parts as [|s' parts].
  - simpl in Hl. case_decide as Hs.
    + subst s. exists v. by rewrite str_app_nil_r.
    + apply bind_Some in Hl as ([n r] & Hf & Hl). simplify_eq/=. apply find_Some in Hf as (a & -> & _).
      destruct Hend as [Hend| ->]; [congruence|]. exists a. by rewrite str_app_nil_r.
  - assert (IH' : forall v, glob_loop false (s' :: parts) v = Some rest -> after_stars (s' :: parts) v).
    { intros v' Hv'. by apply IH. }
    case_decide as Hs; [exists "", v; by subst; auto|].
    apply bind_Some in Hl as ([n r] & Hf & Hl). apply find_Some in Hf as (a & -> & _).
    exists a, r. split; [done|]. by apply IH'.
Qed.

Lemma glob_loop_finds parts v : after_stars parts v -> last parts = Some "" ->
  exists rest, glob_loop false parts v = Some rest.
Proof.
  revert v. induction parts as [|s parts IH]; intros v Hv Hlast; [done|]. cbn [glob_loop].
  destruct parts as [|s' parts]; [simpl in Hlast; injection Hlast as ->; eexists; reflexivity|].
  destruct Hv as (a & b & -> & Hb). case_decide as Hs.
  - subst s. apply IH; [by apply after_stars_absorb|done].
  - destruct (find_first s a b) as (n & rest & x & -> & -> & _). simpl.
    apply IH; [by apply after_stars_absorb|done].
Qed.

Lemma glob_loop_starts s parts v : glob_loop true (s :: parts) v =
  if decide (s = "") then glob_loop false parts v
  else '(n, rest) ← find s v; if decide (n = O) then glob_loop false parts rest else None.
Proof.
  cbn [glob_loop]. case_decide; [done|]. destruct (find s v) as [[n rest]|]; [|done]. cbn [mbind option_bind].
  by case_decide; case_bool_decide.
Qed.

Lemma last_split_star p : last (split "*" (p +:+ "*")) = Some "".
Proof.
  induction p as [|c p IH]; [done|]. change (String c p +:+ "*") with (String c (p +:+ "*")). cbn [split].
  destruct (split_cons "*" (p +:+ "*")) as (part & parts & E). rewrite E in *.
  case_decide; [by rewrite last_cons, IH|].
  destruct parts as [|s parts]; [|done]. simpl in IH. injection IH as ->. exfalso.
  apply (f_equal length) in E. revert E. clear. induction p as [|c p IH]; [done|].
  change (String c p +:+ "*") with (String c (p +:+ "*")). cbn [split].
  destruct (split_cons "*" (p +:+ "*")) as (part & parts & E). rewrite E in *. by case_decide.
Qed.

(** [glob_match] takes no value the pattern does not mean; and a pattern without a star, or with
    one at its end, takes every value it means. *)
Lemma glob_match_sound p v : glob_match p v = true -> globs p v.
Proof.
  unfold glob_match. case_decide as Hp.
  { intros _. subst p. rewrite <- (str_app_nil_r v). apply globs_star_app, globs_star, globs_nil. }
  cbv zeta. rewrite globs_parts. destruct (split_cons "*" p) as (s & parts & E). rewrite E.
  case_bool_decide as Hlen.
  - intros ->%bool_decide_eq_true. destruct parts; [|done]. apply split_single in E as [-> _]. done.
  - destruct parts as [|s' parts]; [done|]. rewrite glob_loop_starts.
    destruct (decide (s = "")) as [->|Hs].
    + destruct (glob_loop false _ _) as [rest|] eqn:Hl; [|done].
      intros Hend%orb_true_iff. rewrite !bool_decide_eq_true in Hend. exists v. split; [done|].
      eapply glob_loop_after; [done|done|]. rewrite last_cons_cons in Hend. done.
    + destruct (find s v) as [[n rest]|] eqn:Hf; cbn [mbind option_bind]; [|done]. case_decide; [subst n|done].
      apply find_Some in Hf as ([|c a] & -> & ?); [|done].
      destruct (glob_loop false _ rest) as [rest'|] eqn:Hl; [|done].
      intros Hend%orb_true_iff. rewrite !bool_decide_eq_true in Hend. exists rest. split; [done|].
      eapply glob_loop_after; [done|done|]. rewrite last_cons_cons in Hend. done.
Qed.

Lemma glob_match_complete p v :
  has_char "*" p = false \/ ends_with "*" p = true -> globs p v -> glob_match p v = true.
Proof.
  intros Hp. unfold glob_match. case_decide; [done|]. cbv zeta. rewrite globs_parts.
  destruct Hp as [Hp|(q & ->)%ends_with_spec].
  - rewrite (proj2 (split_single p p)) by done. simpl. intros ->. by apply bool_decide_eq_true.
  - pose proof (last_split_star q) as Hlast. destruct (split_cons "*" (q +:+ "*")) as (s & parts & E).
    rewrite E in *. destruct parts as [|s' parts].
    { exfalso. apply split_single in E as [-> Hq]. rewrite has_char_app, orb_true_r in Hq. done. }
    intros (b & -> & Hb). rewrite last_cons_cons in Hlast.
    rewrite bool_decide_eq_false_2 by done. rewrite glob_loop_starts, last_cons_cons.
    destruct (decide (s = "")) as [->|Hs].
    + change ("" +:+ b) with b. destruct (glob_loop_finds _ _ Hb Hlast) as [rest ->]. by rewrite bool_decide_eq_true_2.
    + destruct (find_first s "" b) as (n & rest & x & Hf & -> & Hn). change ("" +:+ s +:+ b) with (s +:+ b) in Hf.
      rewrite Hf. cbn [mbind option_bind]. rewrite decide_True by (simpl in Hn; lia).
      destruct (glob_loop_finds (s' :: parts) (x +:+ b)) as [rest ->]; [by apply after_stars_absorb|done|].
      by rewrite bool_decide_eq_true_2.
Qed.

(** Elsewhere the search for the first occurrence can miss: the last part is found too early. *)
Lemma glob_match_misses : globs "*ab" "abab" /\ glob_match "*ab" "abab" = false.
Proof.
  split; [|reflexivity]. apply globs_skip, globs_skip, globs_star.
  apply globs_char; [done|]. apply globs_char; [done|]. constructor.
Qed.

(** ** The three matchers compared *)

(** What an Allow's pattern covers, it means; and a Deny written the same way covers it. *)
Lemma action_globs a target :
  (a = "*" \/ a = target \/ exists p t, a = p +:+ ":*" /\ target = p +:+ ":" +:+ t) ->
  has_char "*" target = false -> globs a target.
Proof.
  intros Hm Ht. destruct Hm as [->|[->|(p & t & -> & ->)]].
  - rewrite <- (str_app_nil_r target). apply globs_star_app, globs_star, globs_nil.
  - by apply globs_exact.
  - rewrite has_char_app in Ht. apply orb_false_iff in Ht as [Hp _].
    apply globs_literal; [done|]. apply globs_char; [done|].
    change (globs "*" t). rewrite <- (str_app_nil_r t). apply globs_star_app, globs_star, globs_nil.
Qed.

Lemma action_matches_glob actions target : has_char "*" target = false ->
  action_matches_any actions target = true ->
  exists a, a ∈ actions /\ glob_match a target = true.
Proof.
  intros Ht (a & Ha & Hm)%action_matches_any_spec. exists a. split; [done|].
  apply glob_match_complete; [|by apply action_globs].
  destruct Hm as [->|[->|(p & t & -> & ->)]]; [by right|by left|].
  right. apply ends_with_spec. exists (p +:+ ":"). by rewrite str_app_assoc.
Qed.

Lemma like_percent p v : like p v = true -> like (String "%" p) v = true.
Proof. intros Hp. simpl. destruct v; by rewrite Hp. Qed.

Lemma like_percent_skip p c v : like (String "%" p) v = true -> like (String "%" p) (String c v) = true.
Proof. intros Hp. simpl in *. destruct v; rewrite Hp; by rewrite orb_true_r. Qed.

Lemma skip_ascii v : is_ascii v = true -> skip_continuation v = v.
Proof.
  destruct v as [|c v]; [done|]. unfold is_ascii. simpl. intros [Hc _]%andb_true_iff.
  unfold ascii_char in Hc. unfold continuation. apply Nat.ltb_lt in Hc.
  by rewrite (proj2 (Nat.leb_gt _ _)) by lia.
Qed.

Lemma is_ascii_cons c v : is_ascii (String c v) = true -> is_ascii v = true.
Proof. unfold is_ascii. simpl. by intros [_ Hv]%andb_true_iff. Qed.

(** What a pattern without a backslash means is within what [LIKE] takes of it; [LIKE] takes
    more, an underscore being any character. *)
Lemma globs_like p v : has_char "\" p = false -> is_ascii v = true -> globs p v ->
  like (star_to_percent p) v = true.
Proof.
  intros Hp Hv Hg. revert Hp Hv.
  induction Hg as [|c p v Hc Hg IH|p v Hg IH|p c v Hg IH]; intros Hp Hv; [done|..];
    cbn [star_to_percent has_char] in *.
  - apply orb_false_iff in Hp as [Hne Hp]. apply bool_decide_eq_false in Hne.
    specialize (IH Hp (is_ascii_cons _ _ Hv)). rewrite decide_False by done. cbn [like].
    destruct (decide (c = "%"%char)) as [->|]; [by apply (like_percent_skip _ "%"%char), like_percent|].
    destruct (decide (c = "_"%char)) as [->|]; [by rewrite skip_ascii by by eapply is_ascii_cons|].
    rewrite decide_False by done. by rewrite bool_decide_eq_true_2.
  - rewrite decide_True by done. apply like_percent, IH; [by apply orb_false_iff in Hp as [_ ?]|done].
  - rewrite decide_True in * by done. apply like_percent_skip, IH; [done|by eapply is_ascii_cons].
Qed.

(** So a scope query finds every Allow the permission could have come from. *)
Lemma act_matches_glob act perm : has_char "\" act = false -> is_ascii perm = true ->
  globs act perm -> act_matches act perm = true.
Proof.
  intros Hact Hperm Hg. unfold act_matches. destruct (has_char "*" act) eqn:Hs; simpl.
  - rewrite globs_like by done. by rewrite !orb_true_r.
  - apply globs_exact in Hg as ->; [|done]. by rewrite (bool_decide_eq_true_2 (perm = perm)), orb_true_r.
Qed.

(** ... and more: patterns no permission is taken from, and an underscore for any character. *)
Lemma act_matches_more :
  act_matches "users:*d" "users:read" = true /\ action_matches_any ["users:*d"] "users:read" = false /\
  act_matches "mcp_servers:*" "mcp-servers:read" = true /\ action_matches_any ["mcp_servers:*"] "mcp-servers:read" = false.
Proof. by split_and!. Qed.

(** The three matchers keep to what a pattern means: a Deny's [glob_match] takes no action its
    pattern does not mean, and every action of a pattern without a star or with its last character
    one; whatever an Allow's list covers, a Deny with the same list takes; and the scope queries
    recognise every action a pattern without a backslash means. *)
Theorem patterns_agree :
  (forall p v, glob_match p v = true -> globs p v) /\
  (forall p v, has_char "*" p = false \/ ends_with "*" p = true -> glob_match p v = true <-> globs p v) /\
  (forall actions target, has_char "*" target = false -> action_matches_any actions target = true ->
     exists a, a ∈ actions /\ glob_match a target = true /\ globs a target) /\
  (forall act perm, has_char "\" act = false -> is_ascii perm = true -> globs act perm -> act_matches act perm = true).
Proof.
  split_and!.
  - exact glob_match_sound.
  - intros p v Hp. split; [apply glob_match_sound|by apply glob_match_complete].
  - intros actions target Ht Hm. destruct (action_matches_glob _ _ Ht Hm) as (a & Ha & Hg).
    exists a. split_and!; [done|done|by apply glob_match_sound].
  - intros. by apply act_matches_glob.
Qed.
