(* ===== verification/Validation.v ===== *)
(** * Input validation

    [crates/common/src/validation.rs]: passwords, e-mail addresses, custom headers, and the
    checks on the URLs the server is told to call.  Parsing of URLs and IP addresses and the
    name resolver are arguments ([url], [std::net]); [bare_host] and [validate_aws_region],
    which only pass their text to another crate's parser, are left out.  The application's error
    type ([crates/common/src/errors.rs]) is here too. *)

From Stdlib Require Import Ascii.
From S2P Require Import Prelude GatewayDeps Text.

Inductive AppError :=
  | Unauthorized
  | Forbidden (reason : string)
  | TotpEnrollmentRequired
  | NotFound (m : string)
  | BadRequest (m : string)
  | RateLimited
  | Conflict (m : string)
  | ModelNotServed (m : string)
  | ServiceUnavailable (m : string)
  | Internal (m : string).

(** Status, [type] tag and the public message. *)
Definition into_response (e : AppError) : Z * string * string :=
  match e with
  | Unauthorized => (401, "unauthorized", "Authentication required")
  | Forbidden reason => (403, "forbidden", reason)
  | TotpEnrollmentRequired =>
      (403, "totp_enrollment_required", "Two-factor authentication must be set up before continuing")
  | NotFound m => (404, "not_found", m)
  | BadRequest m => (400, "bad_request", m)
  | RateLimited => (429, "rate_limited", "Rate limit exceeded")
  | Conflict m => (409, "conflict", m)
  | ModelNotServed m => (400, "model_not_served", m)
  | ServiceUnavailable m =>
      (503, "service_unavailable", "Service temporarily unavailable — please retry")
  | Internal m => (500, "internal_error", "Internal server error")
  end.

(** [Retry-After] of the response, in seconds. *)
Definition DEFAULT_RETRY_AFTER_SECS : Z := 60.
Definition response_retry_after (e : AppError) : option Z :=
  let status := (into_response e).1.1 in
  if (status =? 429) || (status =? 503) then Some DEFAULT_RETRY_AFTER_SECS else None.

(** ** Passwords and e-mail addresses *)

Definition validate_password (password : string) : result AppError unit :=
  if (String.length password <? 8)%nat
  then Err (BadRequest "Password must be at least 8 characters")
  else if negb (str_any is_ascii_uppercase password) || negb (str_any is_ascii_lowercase password)
          || negb (str_any is_ascii_digit password)
  then Err (BadRequest "Password must contain at least one uppercase letter, one lowercase letter, and one digit")
  else Ok tt.

Definition validate_email (email : string) : result AppError unit :=
  if (254 <? String.length email)%nat then Err (BadRequest "Email too long (max 254 chars)")
  else if negb (is_ascii email) then Err (BadRequest "Email must contain ASCII characters only")
  else match split_once "@" email with
       | None => Err (BadRequest "Invalid email format")
       | Some (local, domain) =>
           if bool_decide (local = "") || bool_decide (domain = "") || negb (has_char "." domain)
              || starts_with "." domain || ends_with "." domain
           then Err (BadRequest "Invalid email format")
           else if (64 <? String.length local)%nat
           then Err (BadRequest "Email local part too long (max 64 chars)")
           else Ok tt
       end.

Definition normalize_email (email : string) : string := to_ascii_lowercase (trim email).

(** ** Custom headers *)

Definition BLOCKED_HEADERS : list string :=
  ["host"; "authorization"; "cookie"; "set-cookie"; "transfer-encoding"; "content-length";
   "connection"; "proxy-authorization"; "te"; "upgrade"].
Definition MAX_CUSTOM_HEADERS : nat := 20.
Definition MAX_HEADER_NAME_LEN : nat := 128.
Definition MAX_HEADER_VALUE_LEN : nat := 4096.

Definition header_name_char (c : ascii) : bool :=
  is_ascii_alphanumeric c || has_char c "-_.~".
Definition crlf (c : ascii) : bool := ((nat_of_ascii c =? 13) || (nat_of_ascii c =? 10))%nat.

Definition validate_header (h : string * string) : result AppError unit :=
  let '(name, value) := h in
  if (MAX_HEADER_NAME_LEN <? String.length name)%nat || (MAX_HEADER_VALUE_LEN <? String.length value)%nat
  then Err (BadRequest ("Header '" +:+ name +:+ "' exceeds size limit (name max 128, value max 4096)"))
  else if bool_decide (to_ascii_lowercase name ∈ BLOCKED_HEADERS)
  then Err (BadRequest ("Header '" +:+ name +:+ "' is not allowed as a custom header"))
  else if negb (str_all header_name_char name)
  then Err (BadRequest ("Header name '" +:+ name +:+ "' contains invalid characters"))
  else if str_any crlf value
  then Err (BadRequest ("Header '" +:+ name +:+ "' value contains invalid characters"))
  else Ok tt.

(** [headers] in the order the hash map yields them. *)
Definition validate_custom_headers (headers : list (string * string)) : result AppError unit :=
  if (MAX_CUSTOM_HEADERS <? length headers)%nat
  then Err (BadRequest "Too many custom headers (max 20)")
  else try_each validate_header headers.

(** ** Addresses

    An address is its 32 or 128 bits; [octet] and [segment] count from the left as
    [octets()] and [segments()] do. *)

Inductive IpAddr := V4 (a : Z) | V6 (a : Z).

Definition octet (i : Z) (a : Z) : Z := Z.land (Z.shiftr a (8 * (3 - i))) 255.
Definition segment (i : Z) (a : Z) : Z := Z.land (Z.shiftr a (16 * (7 - i))) 65535.

Definition is_loopback (ip : IpAddr) : bool :=
  match ip with V4 a => octet 0 a =? 127 | V6 a => a =? 1 end.
Definition is_unspecified (ip : IpAddr) : bool := match ip with V4 a | V6 a => a =? 0 end.
Definition to_ipv4_mapped (a : Z) : option Z :=
  if forallb (fun i => segment i a =? 0) [0; 1; 2; 3; 4] && (segment 5 a =? 0xffff)
  then Some (Z.land a 0xffffffff) else None.

Definition is_private_ip (ip : IpAddr) : bool :=
  match ip with
  | V4 a =>
      (octet 0 a =? 10)
      || ((octet 0 a =? 172) && ((16 <=? octet 1 a) && (octet 1 a <=? 31)))
      || ((octet 0 a =? 192) && (octet 1 a =? 168))
      || ((octet 0 a =? 100) && ((64 <=? octet 1 a) && (octet 1 a <=? 127)))
  | V6 a => Z.land (segment 0 a) 0xfe00 =? 0xfc00
  end.

Definition is_link_local (ip : IpAddr) : bool :=
  match ip with
  | V4 a => (octet 0 a =? 169) && (octet 1 a =? 254)
  | V6 a => Z.land (segment 0 a) 0xffc0 =? 0xfe80
  end.

Definition is_blocked_ip (ip : IpAddr) : bool :=
  is_loopback ip || is_unspecified ip || is_private_ip ip || is_link_local ip ||
  match ip with
  | V4 _ => false
  | V6 a =>
      match to_ipv4_mapped a with
      | Some v4 => let inner := V4 v4 in
          is_loopback inner || is_unspecified inner || is_private_ip inner || is_link_local inner
      | None => false
      end
      || (segment 0 a =? 0x2002) || (Z.land (segment 0 a) 0xff00 =? 0xff00)
  end.

(** ** Outbound URLs *)

(** [trim_end_matches('.')]. *)
Fixpoint trim_dots (fuel : nat) (s : string) : string :=
  match fuel with
  | O => s
  | S fuel => match strip_suffix "." s with Some s' => trim_dots fuel s' | None => s end
  end.

Definition blocked_hosts : list string :=
  ["localhost"; "127.0.0.1"; "0.0.0.0"; "169.254.169.254"; "[::1]"; "metadata.google.internal"].

(** [url_parse] gives a URL's scheme and host, [ip_parse] reads an address literal, and
    [resolve] is what the resolver answers for a name, an error counting as nothing. *)
Definition validate_url (url_parse : string -> option (string * option string))
    (ip_parse : string -> option IpAddr) (resolve : string -> list IpAddr) (url_str : string)
    : result AppError unit :=
  match url_parse url_str with
  | None => Err (BadRequest "Invalid URL")
  | Some (scheme, host_str) =>
      if negb (bool_decide (scheme = "http") || bool_decide (scheme = "https"))
      then Err (BadRequest "URL must use http or https")
      else match host_str with
      | None => Err (BadRequest "URL must contain a host")
      | Some raw_host =>
          let host := trim_dots (String.length raw_host) raw_host in
          if bool_decide (host ∈ blocked_hosts)
          then Err (BadRequest "URL points to blocked address")
          else match ip_parse host with
          | Some ip =>
              if is_blocked_ip ip then Err (BadRequest "URL points to private network") else Ok tt
          | None =>
              match resolve host with
              | [] => Err (BadRequest "URL host could not be resolved")
              | ips => try_each (fun ip =>
                  if is_blocked_ip ip
                  then Err (BadRequest "URL resolves to a private or loopback address") else Ok tt) ips
              end
          end
      end
  end.

(** ** What the checks accept *)

Lemma lower_keeps_nonletter c : is_ascii_lowercase (to_ascii_lower c) = false -> to_ascii_lower c = c.
Proof. by destruct c as [[] [] [] [] [] [] [] []]. Qed.

Definition nonletter (c : ascii) : bool := negb (is_ascii_lowercase c).

Lemma lower_prefix w s u :
  str_all nonletter w = true -> to_ascii_lowercase s = w +:+ u -> exists u', s = w +:+ u'.
Proof.
  revert s. induction w as [|d w IH]; intros s Hw Hs; [by exists s|].
  simpl in Hw. apply andb_prop in Hw as [Hd Hw]. unfold nonletter in Hd. apply negb_true_iff in Hd.
  change (String d w +:+ u) with (String d (w +:+ u)) in Hs.
  destruct s as [|c s]; [discriminate Hs|]. simpl in Hs. injection Hs as Hc Hs. subst d.
  rewrite (lower_keeps_nonletter c Hd). destruct (IH s Hw Hs) as [u' ->]. by exists u'.
Qed.

Lemma lower_suffix w s u :
  str_all nonletter w = true -> to_ascii_lowercase s = u +:+ w -> exists u', s = u' +:+ w.
Proof.
  intros Hw. revert u. induction s as [|c s IH]; intros u Hs.
  - exists "". destruct u; [done|discriminate Hs].
  - destruct u as [|d u].
    + destruct (lower_prefix w (String c s) "" Hw) as [u' Hu'].
      { by rewrite str_app_nil_r. }
      exists "". rewrite Hu' in Hs. rewrite to_ascii_lowercase_app in Hs.
      apply (f_equal String.length) in Hs as Hl. rewrite str_length_app in Hl.
      assert (forall x, String.length (to_ascii_lowercase x) = String.length x) as Hlen.
      { intros x. induction x; simpl; congruence. }
      rewrite !Hlen in Hl. change (String.length ("" +:+ w)) with (String.length w) in Hl.
      destruct u'; [|simpl in Hl; lia]. rewrite str_app_nil_r in Hu'. by rewrite Hu'.
    + change (String d u +:+ w) with (String d (u +:+ w)) in Hs. simpl in Hs.
      injection Hs as _ Hs. destruct (IH u Hs) as [u' ->]. by exists (String c u').
Qed.

Lemma whitespace_nonletter w : w ∈ whitespace -> str_all nonletter w = true.
Proof.
  assert (Hf : forallb (str_all nonletter) whitespace = true) by (vm_compute; reflexivity).
  rewrite forallb_forall in Hf. intros Hw. apply Hf. by apply list_elem_of_In.
Qed.

(** A normalized address stays as it is. *)
Lemma normalize_email_idem e : normalize_email (normalize_email e) = normalize_email e.
Proof.
  unfold normalize_email. destruct (trim_done e) as [Hp Hq].
  rewrite (trim_fix (to_ascii_lowercase (trim e))); [apply to_ascii_lowercase_idem| |].
  - destruct (strip_one strip_prefix (to_ascii_lowercase (trim e))) as [u|] eqn:E; [|done].
    apply strip_one_Some in E as (w & Hw & E%strip_prefix_Some).
    apply lower_prefix in E as [u' E]; [|by apply whitespace_nonletter].
    apply strip_prefix_Some in E. rewrite (strip_one_None _ _ Hp w Hw) in E. done.
  - destruct (strip_one strip_suffix (to_ascii_lowercase (trim e))) as [u|] eqn:E; [|done].
    apply strip_one_Some in E as (w & Hw & E%strip_suffix_Some).
    apply lower_suffix in E as [u' E]; [|by apply whitespace_nonletter].
    apply strip_suffix_Some in E. rewrite (strip_one_None _ _ Hq w Hw) in E. done.
Qed.

(** ** The blocked address ranges

    CIDR notation: network and prefix length.  An address of [w] bits is in [net/len] when its
    first [len] bits are those of [net]. *)

Definition in_cidr (w a : Z) (c : Z * Z) : bool :=
  Z.shiftr a (w - c.2) =? Z.shiftr c.1 (w - c.2).

(** 127.0.0.0/8, 0.0.0.0/32, 10.0.0.0/8, 172.16.0.0/12, 192.168.0.0/16, 100.64.0.0/10 and
    169.254.0.0/16. *)
Definition v4_blocks : list (Z * Z) :=
  [(0x7f000000, 8); (0, 32); (0x0a000000, 8); (0xac100000, 12); (0xc0a80000, 16);
   (0x64400000, 10); (0xa9fe0000, 16)].
(** ::1/128, ::/128, fc00::/7, fe80::/10, 2002::/16 and ff00::/8. *)
Definition v6_blocks : list (Z * Z) :=
  [(1, 128); (0, 128); (0xfc00 * 2 ^ 112, 7); (0xfe80 * 2 ^ 112, 10); (0x2002 * 2 ^ 112, 16);
   (0xff00 * 2 ^ 112, 8)].
(** ::ffff:0:0/96, the IPv4-mapped addresses. *)
Definition v4_mapped : Z * Z := (0xffff * 2 ^ 32, 96).

Definition in_ranges (ip : IpAddr) : bool :=
  match ip with
  | V4 a => existsb (in_cidr 32 a) v4_blocks
  | V6 a => existsb (in_cidr 128 a) v6_blocks ||
            in_cidr 128 a v4_mapped && existsb (in_cidr 32 (a mod 2 ^ 32)) v4_blocks
  end.

Lemma octet_div i a : 0 <= i <= 3 -> octet i a = (a / 2 ^ (8 * (3 - i))) mod 256.
Proof.
  intros Hi. unfold octet. rewrite Z.shiftr_div_pow2 by lia.
  change 255 with (Z.ones 8). by rewrite Z.land_ones by lia.
Qed.

Lemma segment_div i a : 0 <= i <= 7 -> segment i a = (a / 2 ^ (16 * (7 - i))) mod 65536.
Proof.
  intros Hi. unfold segment. rewrite Z.shiftr_div_pow2 by lia.
  change 65535 with (Z.ones 16). by rewrite Z.land_ones by lia.
Qed.

(** Masking off the low [k] of 16 bits. *)
Lemma land_high x k : 0 <= x < 65536 -> 0 <= k <= 16 ->
  Z.land x (65536 - 2 ^ k) = x / 2 ^ k * 2 ^ k.
Proof.
  intros Hx Hk. replace (65536 - 2 ^ k) with (Z.shiftl (Z.ones (16 - k)) k).
  2:{ rewrite Z.shiftl_mul_pow2, Z.ones_equiv by lia.
      rewrite Z.mul_pred_l, <- Z.pow_add_r by lia. by replace (16 - k + k) with 16 by lia. }
  rewrite <- Z.shiftr_div_pow2, <- Z.shiftl_mul_pow2 by lia.
  apply Z.bits_inj'. intros n Hn.
  rewrite Z.land_spec, !Z.shiftl_spec by lia. destruct (decide (n < k)).
  - rewrite !(Z.testbit_neg_r _ (n - k)) by lia. by rewrite andb_false_r.
  - rewrite Z.shiftr_spec by lia. replace (n - k + k) with n by lia.
    destruct (decide (n - k < 16 - k)).
    + rewrite Z.ones_spec_low by lia. by rewrite andb_true_r.
    + rewrite Z.ones_spec_high by lia. rewrite andb_false_r. symmetry.
      destruct (decide (x = 0)) as [->|]; [apply Z.testbit_0_l|].
      apply Z.bits_above_log2; [lia|]. apply Z.log2_lt_pow2; [lia|].
      eapply Z.lt_le_trans; [apply Hx|]. change 65536 with (2 ^ 16). apply Z.pow_le_mono_r; lia.
Qed.

#[local] Ltac Zify.zify_post_hook ::= Z.to_euclidean_division_equations.

(** The first two octets decide every range but the single address 0. *)
Lemma v4_checks a : 0 <= a < 2 ^ 32 ->
  is_loopback (V4 a) || is_unspecified (V4 a) || is_private_ip (V4 a) || is_link_local (V4 a) =
  existsb (in_cidr 32 a) v4_blocks.
Proof.
  intros Ha. set (r := a / 2 ^ 16). assert (Hr : 0 <= r < 65536) by (subst r; lia).
  assert (H0 : octet 0 a = r / 256).
  { rewrite octet_div by lia. subst r. rewrite Z.div_div by lia. apply Z.mod_small. lia. }
  assert (H1 : octet 1 a = r mod 256) by by rewrite octet_div by lia.
  assert (Hn : forall n k, n <= 16 -> 0 <= k -> in_cidr 32 a (k, n) = (r / 2 ^ (16 - n) =? k / 2 ^ (32 - n))).
  { intros n k Hn Hk. unfold in_cidr. simpl. rewrite !Z.shiftr_div_pow2 by lia. subst r.
    rewrite Z.div_div by lia. rewrite <- Z.pow_add_r by lia. by replace (16 + (16 - n)) with (32 - n) by lia. }
  unfold v4_blocks, is_loopback, is_unspecified, is_private_ip, is_link_local. cbn [existsb].
  replace (in_cidr 32 a (0, 32)) with (a =? 0) by (unfold in_cidr; simpl; by rewrite Z.shiftr_0_r).
  rewrite H0, H1, !Hn by lia. clear H0 H1 Hn.
  apply eq_true_iff_eq. rewrite !orb_true_iff, !andb_true_iff, !Z.eqb_eq, !Z.leb_le.
  change (2 ^ (16 - 8)) with 256. change (2 ^ (16 - 12)) with 16. change (2 ^ (16 - 16)) with 1.
  change (2 ^ (16 - 10)) with 64.
  repeat match goal with |- context [?x / 2 ^ ?n] =>
    let v := eval vm_compute in (x / 2 ^ n) in change (x / 2 ^ n) with v end.
  rewrite Z.div_1_r. clear Ha. clearbody r. intuition lia.
Qed.

(** A 128-bit address one segment at a time. *)
Lemma segment_step i a : 0 <= i <= 7 ->
  a / 2 ^ (16 * (7 - i)) = a / 2 ^ (16 * (7 - i) + 16) * 65536 + segment i a /\ 0 <= segment i a < 65536.
Proof.
  intros Hi. rewrite segment_div by done. rewrite Z.pow_add_r, <- Z.div_div by lia.
  generalize (a / 2 ^ (16 * (7 - i))) as q. intros q. change (2 ^ 16) with 65536. lia.
Qed.

Lemma mapped_cidr a : 0 <= a < 2 ^ 128 ->
  to_ipv4_mapped a = if in_cidr 128 a v4_mapped then Some (a mod 2 ^ 32) else None.
Proof.
  intros Ha. unfold to_ipv4_mapped.
  assert (forallb (fun i => segment i a =? 0) [0; 1; 2; 3; 4] && (segment 5 a =? 0xffff) =
          in_cidr 128 a v4_mapped) as ->.
  { unfold in_cidr, v4_mapped. simpl fst; simpl snd. rewrite !Z.shiftr_div_pow2 by lia.
    assert (H8 : a / 2 ^ 128 = 0) by (apply Z.div_small; lia).
    pose proof (segment_step 0 a ltac:(lia)) as [E0 B0]. pose proof (segment_step 1 a ltac:(lia)) as [E1 B1].
    pose proof (segment_step 2 a ltac:(lia)) as [E2 B2]. pose proof (segment_step 3 a ltac:(lia)) as [E3 B3].
    pose proof (segment_step 4 a ltac:(lia)) as [E4 B4]. pose proof (segment_step 5 a ltac:(lia)) as [E5 B5].
    revert E0 E1 E2 E3 E4 E5 H8. cbn [forallb].
    change (16 * (7 - 0) + 16) with 128. change (16 * (7 - 1) + 16) with (16 * (7 - 0)).
    change (16 * (7 - 2) + 16) with (16 * (7 - 1)). change (16 * (7 - 3) + 16) with (16 * (7 - 2)).
    change (16 * (7 - 4) + 16) with (16 * (7 - 3)). change (16 * (7 - 5) + 16) with (16 * (7 - 4)).
    change (128 - 96) with (16 * (7 - 5)). change (0xffff * 2 ^ 32 / 2 ^ (16 * (7 - 5))) with 65535.
    generalize (a / 2 ^ (16 * (7 - 0))), (a / 2 ^ (16 * (7 - 1))), (a / 2 ^ (16 * (7 - 2))),
      (a / 2 ^ (16 * (7 - 3))), (a / 2 ^ (16 * (7 - 4))), (a / 2 ^ (16 * (7 - 5))), (a / 2 ^ 128).
    revert B0 B1 B2 B3 B4 B5.
    generalize (segment 0 a), (segment 1 a), (segment 2 a), (segment 3 a), (segment 4 a), (segment 5 a).
    clear. intros. apply eq_true_iff_eq. rewrite !andb_true_iff, !Z.eqb_eq. lia. }
  destruct (in_cidr _ _ _); [|done]. f_equal. change 0xffffffff with (Z.ones 32).
  apply Z.land_ones. lia.
Qed.

Definition valid_ip (ip : IpAddr) : Prop :=
  match ip with V4 a => 0 <= a < 2 ^ 32 | V6 a => 0 <= a < 2 ^ 128 end.

(** The server refuses to call exactly these addresses: loopback, the unspecified address,
    the private, carrier-grade and link-local ranges of IPv4, each also when mapped into IPv6;
    ::1, ::, unique-local, link-local, 6to4 and multicast of IPv6. *)
Lemma blocked_ip_ranges ip : valid_ip ip -> is_blocked_ip ip = in_ranges ip.
Proof.
  destruct ip as [a|a]; intros Ha.
  - unfold is_blocked_ip, in_ranges. rewrite orb_false_r. by apply v4_checks.
  - unfold is_blocked_ip, in_ranges. rewrite mapped_cidr by done.
    assert (H0 : segment 0 a = a / 2 ^ 112).
    { rewrite segment_div by lia. apply Z.mod_small. change (16 * (7 - 0)) with 112.
      split; [apply Z.div_pos; unfold valid_ip in Ha; lia|]. apply Z.div_lt_upper_bound; unfold valid_ip in Ha; lia. }
    assert (Hb : 0 <= segment 0 a < 65536) by apply (segment_step 0 a ltac:(lia)).
    assert (Hl : forall m k n v, m = 65536 - 2 ^ k -> 0 <= k <= 16 -> n = 16 - k -> v mod 2 ^ k = 0 ->
              (Z.land (segment 0 a) m =? v) = in_cidr 128 a (v * 2 ^ 112, n)).
    { intros m k n v -> Hk -> Hv. rewrite land_high by done. unfold in_cidr. cbn [fst snd].
      replace (128 - (16 - k)) with (112 + k) by lia. rewrite !Z.shiftr_div_pow2 by lia.
      rewrite !Z.pow_add_r, <- !Z.div_div by lia. rewrite Z.div_mul by lia. rewrite <- H0.
      apply eq_true_iff_eq. rewrite !Z.eqb_eq.
      pose proof (Z.div_mod v (2 ^ k) ltac:(lia)). nia. }
    unfold is_loopback, is_unspecified, is_private_ip, is_link_local, v6_blocks. cbn [existsb].
    rewrite (Hl 0xfe00 9 7 0xfc00), (Hl 0xffc0 6 10 0xfe80), (Hl 0xff00 8 8 0xff00) by done.
    replace (segment 0 a =? 0x2002) with (in_cidr 128 a (0x2002 * 2 ^ 112, 16)).
    2:{ rewrite <- (Hl 65535 0 16 0x2002) by done. f_equal. change 65535 with (Z.ones 16).
        rewrite Z.land_ones by lia. apply Z.mod_small. lia. }
    replace (in_cidr 128 a (1, 128)) with (a =? 1) by (unfold in_cidr; simpl; by rewrite Z.shiftr_0_r).
    replace (in_cidr 128 a (0, 128)) with (a =? 0) by (unfold in_cidr; simpl; by rewrite Z.shiftr_0_r).
    destruct (in_cidr 128 a v4_mapped) eqn:Hm.
    + pose proof (v4_checks (a mod 2 ^ 32) (Z.mod_pos_bound a (2 ^ 32) ltac:(lia))) as Hv.
      unfold is_loopback, is_unspecified, is_private_ip, is_link_local in Hv. cbv zeta.
      unfold is_loopback, is_unspecified, is_private_ip, is_link_local. rewrite Hv.
      destruct (a =? 1), (a =? 0), (in_cidr 128 a (0xfc00 * 2 ^ 112, 7)), (in_cidr 128 a (0xfe80 * 2 ^ 112, 10)),
        (in_cidr 128 a (0x2002 * 2 ^ 112, 16)), (in_cidr 128 a (0xff00 * 2 ^ 112, 8)),
        (existsb _ v4_blocks); done.
    + destruct (a =? 1), (a =? 0), (in_cidr 128 a (0xfc00 * 2 ^ 112, 7)), (in_cidr 128 a (0xfe80 * 2 ^ 112, 10)),
        (in_cidr 128 a (0x2002 * 2 ^ 112, 16)), (in_cidr 128 a (0xff00 * 2 ^ 112, 8)); done.
Qed.

(** Which host a URL names, dots at the end aside. *)
Definition url_host (host : string) : string := trim_dots (String.length host) host.

(** A URL is accepted exactly when it is http or https, names a host that is not one of the
    blocked names, and every address it stands for (the literal, or all the resolver gives, at
    least one) lies outside the blocked ranges; the addresses are judged range by range, an
    IPv4 address mapped into IPv6 as the IPv4 address it is. *)
Theorem url_accepted_iff url_parse ip_parse resolve url :
  (forall h ip, ip_parse h = Some ip -> valid_ip ip) ->
  (forall h, Forall valid_ip (resolve h)) ->
  validate_url url_parse ip_parse resolve url = Ok tt <->
  exists scheme raw, url_parse url = Some (scheme, Some raw) /\ (scheme = "http" \/ scheme = "https") /\
    url_host raw ∉ blocked_hosts /\
    let addresses := match ip_parse (url_host raw) with Some ip => [ip] | None => resolve (url_host raw) end in
    addresses <> [] /\ Forall (fun ip => in_ranges ip = false) addresses.
Proof.
  intros Hp Hr. unfold validate_url, url_host.
  destruct (url_parse url) as [[scheme [raw|]]|]; [| |naive_solver].
  2:{ destruct (negb _); naive_solver. }
  set (host := trim_dots _ raw).
  destruct (bool_decide (scheme = "http") || bool_decide (scheme = "https")) eqn:Hs; simpl.
  2:{ apply orb_false_iff in Hs as [?%bool_decide_eq_false ?%bool_decide_eq_false]. naive_solver. }
  apply orb_true_iff in Hs. rewrite !bool_decide_eq_true in Hs.
  case_bool_decide as Hb; [naive_solver|]. destruct (ip_parse host) as [ip|] eqn:Hip.
  - rewrite (blocked_ip_ranges ip) by eauto. destruct (in_ranges ip) eqn:Hin.
    + split; [done|]. intros (? & ? & [= <- <-] & _ & _ & H). fold host in H. rewrite Hip in H.
      destruct H as [_ [? _]%Forall_cons]. congruence.
    + split; [|done]. intros _. exists scheme, raw. fold host. rewrite Hip. naive_solver.
  - transitivity (resolve host <> [] /\ Forall (fun ip => in_ranges ip = false) (resolve host)).
    2:{ split.
        - intros H. exists scheme, raw. fold host. by rewrite Hip.
        - intros (? & ? & [= <- <-] & _ & _ & H). fold host in H. by rewrite Hip in H. }
    pose proof (Hr host) as Hv. destruct (resolve host) as [|x l] eqn:Hl; [naive_solver|].
    etransitivity; [exact (try_each_ok _ (x :: l))|]. split.
    + intros H. split; [done|]. rewrite Forall_forall in H, Hv |- *. intros y Hy.
      specialize (H y Hy). rewrite blocked_ip_ranges in H by auto. by destruct (in_ranges y).
    + intros [_ H]. rewrite Forall_forall in H, Hv |- *. intros y Hy.
      rewrite blocked_ip_ranges by auto. by rewrite (H y Hy).
Qed.

Definition demo_url (u : string) : option (string * option string) :=
  '(scheme, host) ← split_once ":" u; Some (scheme, Some host).
Definition demo_resolve (h : string) : list IpAddr :=
  if String.eqb h "db.internal" then [V4 0x0a000001] else [V4 0x5db8d822; V6 (0x2606 * 2 ^ 112)].

Lemma demo_resolve_valid h : Forall valid_ip (demo_resolve h).
Proof. unfold demo_resolve. case_match; repeat constructor; by vm_compute. Qed.

Lemma url_accepted_iff_witness :
  validate_url demo_url (fun _ => None) demo_resolve "https:example.com" = Ok tt /\
  ~ validate_url demo_url (fun _ => None) demo_resolve "https:db.internal" = Ok tt.
Proof.
  split.
  - apply url_accepted_iff; [done|apply demo_resolve_valid|].
    exists "https", "example.com". split_and!; [done|by right|apply (bool_decide_unpack _); exact I|].
    change (url_host "example.com") with "example.com". cbv zeta.
    change (demo_resolve "example.com") with [V4 0x5db8d822; V6 (0x2606 * 2 ^ 112)].
    split; [discriminate|]. repeat (apply Forall_cons; split; [reflexivity|]). by apply Forall_nil.
  - intros (s & h & [= <- <-] & _ & _ & _ & H)%url_accepted_iff; [|done|apply demo_resolve_valid].
    change (url_host "db.internal") with "db.internal" in H. cbv zeta in H.
    change (demo_resolve "db.internal") with [V4 0x0a000001] in H.
    apply Forall_cons in H as [H _]. discriminate H.
Defined.
