(* ===== verification/Lockout.v ===== *)
(** * Progressive lockout, and the state the console's handlers share

    [crates/server/src/services/auth_lockout.rs] and [refresh_blacklist.rs], over the
    fixed-window counters of [ExpiringKeys].  A handler acts on the world: the Redis keys, the
    user table, the audit log.  Every call to Redis or the database takes the next index [n]:
    [net n] is how it goes and [clock n] when it reaches the server. *)
From Stdlib Require Import HexadecimalString HexadecimalN Ascii.
From S2P Require Import Prelude Interfaces Sliding Effects GatewayDeps Text AuditRow ExpiringKeys Validation.

(** ** The world *)

(** [crates/common/src/models/user.rs]; times in milliseconds. *)
Record User {U : Type} := {
  us_id : U;
  us_email : string;
  us_display_name : string;
  us_password_hash : option string;
  us_oidc_subject : option string;
  us_oidc_issuer : option string;
  us_avatar_url : option string;
  us_is_active : bool;
  us_totp_secret : option string;
  us_totp_enabled : bool;
  us_totp_recovery_codes : option string;
  us_password_change_required : bool;
  us_created_at : Z;
  us_updated_at : Z;
  us_deleted_at : option Z;
}.
#[global] Arguments User : clear implicits.

Record auth_world {St U : Type} := {
  aw_calls : nat;
  aw_keys : St;
  aw_users : list (User U);
  aw_audit : list AuditEntry;
}.
#[global] Arguments auth_world : clear implicits.

Section World.
Context {St U : Type} `{ExpiringKeys St}.
Context (net : nat -> link) (clock : nat -> Z).

Abbreviation W := (auth_world St U).

Definition with_keys (s : St) (calls : nat) (w : W) : W :=
  {| aw_calls := calls; aw_keys := s; aw_users := aw_users w; aw_audit := aw_audit w |}.
Definition with_users (us : list (User U)) (calls : nat) (w : W) : W :=
  {| aw_calls := calls; aw_keys := aw_keys w; aw_users := us; aw_audit := aw_audit w |}.

(** One command; [fail] is what the handler makes of a call that failed. *)
Definition redis {A} (fail : AppError) (cmd : Z -> St -> St * option A) : io W AppError A := fun w =>
  let n := aw_calls w in
  let '(s, r) := run_script (net n) (cmd (clock n)) (aw_keys w) in
  (with_keys s (S n) w, match r with Ok a => Ok a | Err _ => Err fail end).

(** [fixed_window::incr]: two commands. *)
Definition incr (fail : AppError) (key : string) (ttl_secs : Z) : io W AppError Z := fun w =>
  let n := aw_calls w in
  let '(s, r) := fixed_window_incr (net n) (net (S n)) (clock n) (clock (S n)) key ttl_secs (aw_keys w) in
  (with_keys s (S (S n)) w, match r with Ok a => Ok a | Err _ => Err fail end).

(** One statement; a failure is [From<sqlx::Error>] of a lost connection. *)
Definition database {A} (q : list (User U) -> list (User U) * A) : io W AppError A := fun w =>
  let n := aw_calls w in
  let fail := Err (ServiceUnavailable "Database unavailable") in
  match net n with
  | LinkOk => let '(us, a) := q (aw_users w) in (with_users us (S n) w, Ok a)
  | LinkDown => (with_users (aw_users w) (S n) w, fail)
  | ReplyLost => (with_users (q (aw_users w)).1 (S n) w, fail)
  end.

Definition log_audit (e : AuditEntry) : io W AppError unit := fun w =>
  ({| aw_calls := aw_calls w; aw_keys := aw_keys w; aw_users := aw_users w;
      aw_audit := aw_audit w ++ [e] |}, Ok tt).

Definition get (fail : AppError) (key : string) : io W AppError (option string) :=
  redis fail (fun t s => (s, Some (fst <$> peek t key s))).
Definition set_ex (fail : AppError) (key value : string) (secs : Z) : io W AppError unit :=
  redis fail (fun t s => (xset t key value secs s, Some tt)).
Definition del (key : string) : io W AppError unit :=
  ignore (redis Unauthorized (fun t s => (xdel t key s, Some tt))).

(** [chrono::Utc::now()], in milliseconds. *)
Definition now : io W AppError Z := fun w => (w, Ok (clock (aw_calls w))).

(** ** [auth_lockout] *)

Definition COUNTER_WINDOW_SECS : Z := 900.

Definition ladder_secs (failures : Z) : option Z :=
  if 10 <=? failures then Some 900
  else if 8 <=? failures then Some 300
  else if 5 <=? failures then Some 60
  else None.

Definition temporarily_unavailable : AppError := Internal "Authentication temporarily unavailable".

Definition is_locked (locked_key : string) : io W AppError bool :=
  v ← get temporarily_unavailable locked_key; mret (bool_decide (is_Some v)).

Definition record_failure (counter_key : string) : io W AppError Z :=
  incr temporarily_unavailable counter_key COUNTER_WINDOW_SECS.

Definition apply_lockout (locked_key : string) (secs : Z) : io W AppError unit :=
  set_ex temporarily_unavailable locked_key "1" secs.

Fixpoint clear (keys : list string) : io W AppError unit :=
  match keys with
  | [] => mret tt
  | k :: keys => _ ← del k; clear keys
  end.

(** ** [refresh_blacklist] *)

Inductive ClaimOutcome := Claimed | AlreadyClaimed.

(** [sha256_hex] is the hex digest. *)
Definition key_for (sha256_hex : string -> string) (raw_token : string) : string :=
  "refresh_blacklist:" +:+ sha256_hex raw_token.

(** The key's life in seconds for a token expiring at [exp], claimed at [now] (both in
    seconds). *)
Definition remaining_secs (exp now : Z) : Z := Z.max (exp - now) 60.

Definition claim (fail : AppError) (sha256_hex : string -> string) (raw_token : string) (exp : Z)
    : io W AppError ClaimOutcome :=
  redis fail (fun t s =>
    let '(s, fresh) := xset_nx t (key_for sha256_hex raw_token) "1" (remaining_secs exp (t / 1000)) s in
    (s, Some (if fresh then Claimed else AlreadyClaimed))).
End World.

(** ** Counters and locks end

    Whatever happened before, a completed increment leaves a counter that expires. *)

Definition expires_by {St} `{ExpiringKeys St} (t d : Z) (k : string) (s : St) : Prop :=
  forall v e, peek t k s = Some (v, e) -> exists m, e = Some m /\ m <= d.

Lemma ladder_secs_bounds n d : ladder_secs n = Some d -> 60 <= d <= 900 /\ 5 <= n.
Proof. unfold ladder_secs. intros. cases. Qed.

Lemma ladder_secs_mono n m d : n <= m -> ladder_secs n = Some d ->
  exists d', ladder_secs m = Some d' /\ d <= d'.
Proof. unfold ladder_secs. intros. split_match; zbool; try lia; eexists; (split; [done|lia]). Qed.

(** ** What a step leaves alone

    [frames P p]: whatever [p] does and however it ends, the keys in [P] are afterwards as they
    were, time aside, and every user is who they were, with the password they had. *)

Definition who {U} (u : User U) : U * string * option string :=
  (us_id u, us_email u, us_password_hash u).

Section Frames.
Context {St U : Type} `{ExpiringKeysLaws St}.
Context (net : nat -> link) (clock : nat -> Z).
Context (clock_mono : forall n m, (n <= m)%nat -> clock n <= clock m).
Abbreviation W := (auth_world St U).
Implicit Types w : W.

Definition undisturbed (P : string -> Prop) (w w1 : W) : Prop :=
  (aw_calls w <= aw_calls w1)%nat /\
  who <$> aw_users w1 = who <$> aw_users w /\
  forall k t, P k -> clock (aw_calls w1) <= t -> peek t k (aw_keys w1) = peek t k (aw_keys w).

Definition frames {A} (P : string -> Prop) (p : io W AppError A) : Prop :=
  forall w, undisturbed P w (p w).1.

Lemma undisturbed_refl P w : undisturbed P w w.
Proof. split; [lia|]. by split. Qed.

Lemma undisturbed_trans P w w1 w2 : undisturbed P w w1 -> undisturbed P w1 w2 -> undisturbed P w w2.
Proof.
  intros (Hc & Hu & Hk) (Hc' & Hu' & Hk'). split; [lia|]. split; [congruence|]. intros k t HP Ht.
  rewrite Hk' by done. apply Hk; [done|]. etransitivity; [|exact Ht]. by apply clock_mono.
Qed.

Lemma frames_pure {A} P (p : io W AppError A) : (forall w, (p w).1 = w) -> frames P p.
Proof. intros Hp w. rewrite Hp. apply undisturbed_refl. Qed.

Lemma frames_bind {A B} P (p : io W AppError A) (f : A -> io W AppError B) :
  frames P p -> (forall a, frames P (f a)) -> frames P (p ≫= f).
Proof.
  intros Hp Hf w. rewrite io_bind_run. pose proof (Hp w) as H1.
  destruct (p w) as [w1 [a|e]]; cbn [fst snd] in *; [|done].
  eapply undisturbed_trans; [exact H1|apply Hf].
Qed.

Lemma frames_attempt {A} P (p : io W AppError A) : frames P p -> frames P (attempt p).
Proof. intros Hp w. specialize (Hp w). unfold attempt. by destruct (p w). Qed.

Lemma frames_ignore {A} P (p : io W AppError A) : frames P p -> frames P (ignore p).
Proof. intros Hp w. apply Hp. Qed.

Lemma frames_redis {A} P fail (cmd : Z -> St -> St * option A) :
  (forall t t' s k, P k -> t <= t' -> peek t' k (cmd t s).1 = peek t' k s) ->
  frames P (redis net clock fail cmd).
Proof.
  intros Hcmd w. unfold redis, run_script. pose proof (clock_mono (aw_calls w) (S (aw_calls w)) ltac:(lia)).
  destruct (net (aw_calls w)); [| |].
  1: destruct (cmd (clock (aw_calls w)) (aw_keys w)) as [s o] eqn:E.
  all: split; [simpl; lia|]; split; [done|]; simpl; intros k t HP Ht; try done.
  - change s with (s, o).1. rewrite <- E. apply Hcmd; [done|lia].
  - apply Hcmd; [done|lia].
Qed.

Lemma frames_incr P fail key ttl : 0 < ttl -> ~ P key -> frames P (incr net clock fail key ttl).
Proof.
  intros Httl HP w. unfold incr.
  pose proof (clock_mono (aw_calls w) (S (aw_calls w)) ltac:(lia)).
  pose proof (clock_mono (S (aw_calls w)) (S (S (aw_calls w))) ltac:(lia)).
  destruct (fixed_window_incr _ _ _ _ _ _ _) as [s r] eqn:E. split; [simpl; lia|]. split; [done|]. simpl. intros k t Hk Ht.
  change s with (s, r).1. rewrite <- E. apply fixed_window_incr_other; [done|done| |congruence].
  simpl in Ht. lia.
Qed.

Lemma frames_database {A} P (q : list (User U) -> list (User U) * A) :
  (forall us, who <$> (q us).1 = who <$> us) -> frames P (database net q).
Proof.
  intros Hq w. specialize (Hq (aw_users w)). unfold database.
  destruct (net (aw_calls w)); [destruct (q (aw_users w))|..];
    (split; [simpl; lia|by split]).
Qed.

Lemma frames_log P row : frames P (log_audit row).
Proof. intros w. split; [simpl; lia|]. by split. Qed.

Lemma frames_get P fail key : frames P (get net clock fail key).
Proof. by apply frames_redis. Qed.

Lemma frames_set_ex P fail key v secs : 0 < secs -> ~ P key -> frames P (set_ex net clock fail key v secs).
Proof.
  intros Hs HP. apply frames_redis. intros t t' s k Hk Ht. simpl. rewrite peek_xset by done.
  rewrite decide_False by congruence. done.
Qed.

Lemma frames_del P key : ~ P key -> frames P (del net clock key).
Proof.
  intros HP. apply frames_ignore, frames_redis. intros t t' s k Hk Ht. simpl.
  rewrite peek_xdel by done. rewrite decide_False by congruence. done.
Qed.

Lemma frames_clear P keys : (forall k, k ∈ keys -> ~ P k) -> frames P (clear net clock keys).
Proof.
  induction keys as [|k keys IH]; intros HP; [by apply frames_pure|].
  apply frames_bind; [apply frames_del, HP; left|]. intros _. apply IH. intros k' Hk'. apply HP. by right.
Qed.

Lemma frames_set_nx P fail key v (secs : Z -> Z) {A} (f : bool -> A) : (forall t, 0 < secs t) -> ~ P key ->
  frames P (redis net clock fail (fun t s => let '(s, fresh) := xset_nx t key v (secs t) s in (s, Some (f fresh)))).
Proof.
  intros Hs HP. apply frames_redis. intros t t' s k Hk Ht. rewrite xset_nx_spec by done.
  destruct (peek t key s); [done|]. simpl. rewrite peek_xset by done.
  rewrite decide_False by congruence. done.
Qed.

(** [preserves I p]: [p] keeps [I], however it ends. *)
Definition preserves {E A} (I : W -> Prop) (p : io W E A) : Prop := forall w, I w -> I (p w).1.

Lemma preserves_bind {E A B} I (p : io W E A) (f : A -> io W E B) :
  preserves I p -> (forall a, preserves I (f a)) -> preserves I (p ≫= f).
Proof.
  intros Hp Hf w Hw. rewrite io_bind_run. specialize (Hp w Hw). destruct (p w) as [w1 [a|err]]; [by apply Hf|done].
Qed.

(** ** What a step that succeeded did *)

Lemma redis_Ok {A} fail (cmd : Z -> St -> St * option A) w w' a :
  redis net clock fail cmd w = (w', Ok a) <->
  net (aw_calls w) = LinkOk /\ exists s', cmd (clock (aw_calls w)) (aw_keys w) = (s', Some a) /\
    w' = with_keys s' (S (aw_calls w)) w.
Proof.
  unfold redis, run_script. destruct (net (aw_calls w)).
  - destruct (cmd _ _) as [s [x|]]; simpl; naive_solver.
  - simpl. naive_solver.
  - simpl. naive_solver.
Qed.

Lemma database_Ok {A} (q : list (User U) -> list (User U) * A) w w' a :
  database net q w = (w', Ok a) <->
  net (aw_calls w) = LinkOk /\ exists us, q (aw_users w) = (us, a) /\ w' = with_users us (S (aw_calls w)) w.
Proof. unfold database. destruct (net (aw_calls w)); [destruct (q _)|..]; naive_solver. Qed.

Lemma lift_Ok {E A} (r : result E A) (w w' : W) a : lift r w = (w', Ok a) <-> w' = w /\ r = Ok a.
Proof. unfold lift. naive_solver. Qed.

Lemma ok_or_Ok {E A} (o : option A) (e : E) a : ok_or o e = Ok a <-> o = Some a.
Proof. destruct o; simpl; naive_solver. Qed.

(** A counter counted up: the new value is the old one and 1, at least 1 if it was not
    negative, and it now expires. *)
Lemma incr_Ok fail key ttl w w' n : 0 < ttl ->
  incr net clock fail key ttl w = (w', Ok n) ->
  exists z, counts (clock (aw_calls w)) key (aw_keys w) z /\ n = z + 1 /\ 0 <= n /\
    aw_calls w' = S (S (aw_calls w)) /\ aw_users w' = aw_users w /\ aw_audit w' = aw_audit w.
Proof.
  intros Httl. unfold incr.
  destruct (fixed_window_incr _ _ _ _ _ _ _) as [s [x|e]] eqn:E; intros Hr; simplify_eq/=.
  apply fixed_window_incr_Ok in E as (z & Hz & -> & Hn & _); [|apply clock_mono; lia|done].
  exists z. done.
Qed.
End Frames.

(** A handler framed part by part; [rows] shows of an update that it keeps who the users are.
    What is left is the parts with a lemma of their own, and the keys written. *)
Ltac frame_with rows := repeat match goal with
  | |- frames _ _ (mbind _ _) => apply frames_bind; [eassumption| |intros]
  | |- frames _ _ (let _ := _ in _) => cbv zeta
  | |- frames _ _ (match ?x with _ => _ end) => destruct x
  | |- frames _ _ (get _ _ _ _) => apply frames_get; eassumption
  | |- frames _ _ (database _ _) => apply frames_database; first [by intros | rows]
  | |- frames _ _ (log_audit _) => apply frames_log
  | |- frames _ _ (incr _ _ _ _ _) => apply frames_incr; [eassumption|done|]
  | |- frames _ _ (set_ex _ _ _ _ _ _) => apply frames_set_ex; [eassumption| |]
  | |- frames _ _ (del _ _ _) => apply frames_del; [eassumption|]
  | |- frames _ _ (ignore _) => apply frames_ignore
  | |- frames _ _ (attempt _) => apply frames_attempt
  | |- frames _ _ _ => apply frames_pure; done
  end.

(** * Proof of work before a login

    [crates/auth/src/pow.rs], and the two handlers around it: [issue_pow_challenge] and
    [verify_login_pow] of [crates/server/src/handlers/auth.rs].  SHA-256 and the parser of IP
    addresses are arguments; the random identifiers of a challenge are inputs. *)

Definition DEFAULT_DIFFICULTY : Z := 19.
Definition CHALLENGE_TTL_SECS : Z := 300.
Definition POW_CHALLENGE_PREFIX : string := "pow:challenge:".

(** [u8::leading_zeros]. *)
Definition leading_zeros_u8 (b : Z) : Z := if b =? 0 then 8 else 7 - Z.log2 b.

Fixpoint leading_zero_bits (bytes : list Z) : Z :=
  match bytes with
  | [] => 0
  | b :: bytes => if b =? 0 then 8 + leading_zero_bits bytes else leading_zeros_u8 b
  end.

Definition difficulty_for_subnet_failures (recent_failures : Z) : Z :=
  if 50 <=? recent_failures then 23
  else if 10 <=? recent_failures then 21
  else DEFAULT_DIFFICULTY.

(** [{:x}]. *)
Definition hex_of_Z (z : Z) : string := NilEmpty.string_of_uint (N.to_hex_uint (Z.to_N z)).

Definition v4_subnet (a : Z) : string :=
  dec_of_Z (octet 0 a) +:+ "." +:+ dec_of_Z (octet 1 a) +:+ "." +:+ dec_of_Z (octet 2 a) +:+ ".0/24".

Definition subnet_key (ip_parse : string -> option IpAddr) (ip : string) : string :=
  match ip_parse ip with
  | Some (V4 a) => v4_subnet a
  | Some (V6 a) =>
      match to_ipv4_mapped a with
      | Some v4 => v4_subnet v4
      | None => hex_of_Z (segment 0 a) +:+ ":" +:+ hex_of_Z (segment 1 a) +:+ ":" +:+
                hex_of_Z (segment 2 a) +:+ "::/48"
      end
  | None => ip
  end.

Definition SUBNET_FAIL_PREFIX : string := "auth_fail_subnet:".
Definition SUBNET_FAIL_WINDOW_SECS : Z := 600.
Definition SUBNET_FAIL_SUCCESS_DECAY : Z := 3.
Definition subnet_fail_key (ip_parse : string -> option IpAddr) (client_ip : string) : string :=
  SUBNET_FAIL_PREFIX +:+ subnet_key ip_parse client_ip.

Record PowSolution := { ps_challenge_id : string; ps_nonce : string }.

Record PowChallengeResponse := {
  pc_challenge_id : string;
  pc_challenge_random : string;
  pc_difficulty : Z;
  pc_issued_at : Z;
  pc_ttl_secs : Z;
}.

Section Pow.
Context {St U : Type} `{ExpiringKeys St}.
Context (sha256 : string -> list Z) (ip_parse : string -> option IpAddr).
Context (net : nat -> link) (clock : nat -> Z).
Abbreviation W := (auth_world St U).

Definition pow_input (challenge_random email nonce : string) : string :=
  challenge_random +:+ ":" +:+ email +:+ ":" +:+ nonce.
Definition verify_pow (challenge_random email nonce : string) (difficulty : Z) : bool :=
  difficulty <=? leading_zero_bits (sha256 (pow_input challenge_random email nonce)).

Definition blob_of (challenge_random : string) (difficulty : Z) (email : string) : string :=
  challenge_random +:+ ":" +:+ dec_of_Z difficulty +:+ ":" +:+ email.

(** [body] is the parsed request, its e-mail as sent. *)
Definition issue_pow_challenge (client_ip : string) (body : result AppError string)
    (challenge_id challenge_random : string) : io W AppError PowChallengeResponse :=
  count ← incr net clock (Internal "Rate limiting unavailable") ("pow_mint_ip:" +:+ client_ip) 60;
  if 60 <? count then throw RateLimited
  else
    req_email ← lift body;
    let email := normalize_email req_email in
    _ ← lift (validate_email email);
    read ← attempt (get net clock Unauthorized (subnet_fail_key ip_parse client_ip));
    let recent_failures :=
      match read with Ok (Some s) => default 0 (parse_uint u64_max s) | _ => 0 end in
    let difficulty := difficulty_for_subnet_failures recent_failures in
    _ ← set_ex net clock (Internal "Redis pow store failed") (POW_CHALLENGE_PREFIX +:+ challenge_id)
          (blob_of challenge_random difficulty email) CHALLENGE_TTL_SECS;
    t ← now clock;
    mret {| pc_challenge_id := challenge_id; pc_challenge_random := challenge_random;
            pc_difficulty := difficulty; pc_issued_at := t / 1000;
            pc_ttl_secs := CHALLENGE_TTL_SECS |}.

Definition pow_required : AppError :=
  BadRequest "Proof-of-work required. Request a fresh challenge from /api/auth/pow-challenge.".
Definition stale_blob_error : AppError :=
  BadRequest "Proof-of-work challenge expired or already consumed. Request a fresh one.".

(** [blob.splitn(3, ':')] into three parts, none empty. *)
Definition blob_parts (blob : string) : option (string * string * string) :=
  '(r, rest) ← split_once ":" blob; '(d, e) ← split_once ":" rest;
  if bool_decide (r = "") || bool_decide (d = "") || bool_decide (e = "") then None
  else Some (r, d, e).

(** What is checked once the challenge has been taken. *)
Definition check_pow_blob (blob login_email nonce : string) : result AppError unit :=
  match blob_parts blob with
  | None => Err stale_blob_error
  | Some (challenge_random, difficulty_field, bound_email) =>
      difficulty ← ok_or (parse_uint 255 difficulty_field) stale_blob_error;
      if negb (String.eqb bound_email login_email)
      then Err (BadRequest "Proof-of-work was issued for a different account. Request a fresh challenge.")
      else if negb (verify_pow challenge_random bound_email nonce difficulty)
      then Err (BadRequest "Invalid proof-of-work nonce. Re-grind the challenge.")
      else Ok tt
  end.

Definition verify_login_pow (pow_solution : option PowSolution) (login_email : string)
    : io W AppError unit :=
  solution ← lift (ok_or pow_solution pow_required);
  stored ← redis net clock (Internal "Redis pow lookup failed")
             (fun t s => let '(s, v) := xgetdel t (POW_CHALLENGE_PREFIX +:+ ps_challenge_id solution) s in
                         (s, Some v));
  blob ← lift (ok_or stored stale_blob_error);
  lift (check_pow_blob blob login_email (ps_nonce solution)).
End Pow.
