(* ===== verification/Login.v ===== *)
(** * Logging in to the console

    [login] of [crates/server/src/handlers/auth.rs], with the TOTP code of
    [crates/auth/src/totp.rs] and [crates/server/src/services/totp_service.rs], the queries of
    [auth_repository.rs] it makes and the session it issues ([session_service.rs],
    [crates/auth/src/jwt.rs]).  Argon2, totp-rs, AES-GCM with its JSON and hex envelope, SHA-256
    and the parser of addresses are arguments; a session is the claims its two tokens carry. *)

From Stdlib Require Import Ascii.
From S2P Require Import Prelude Interfaces GatewayDeps Text Sliding Effects AuditRow ExpiringKeys Validation Lockout.

(** ** Sessions *)

Record Claims {U : Type} := {
  cl_sub : U;
  cl_email : string;
  cl_exp : Z;
  cl_iat : Z;
  cl_token_type : string;
}.
#[global] Arguments Claims : clear implicits.

Record AuthSession {U : Type} := {
  se_permissions : list string;
  se_denied_permissions : list string;
  se_roles : list string;
  se_access_ttl : Z;
  se_access : Claims U;
  se_refresh : Claims U;
}.
#[global] Arguments AuthSession : clear implicits.

Record LoginRequest := {
  lr_email : string;
  lr_password : string;
  lr_totp_code : option string;
  lr_pow : option PowSolution;
}.

Inductive LoginResponse {U : Type} :=
  | TotpRequired
  | LoggedIn (session : AuthSession U) (password_change_required : bool).
#[global] Arguments LoginResponse : clear implicits.

(** ** TOTP *)

Definition STEP : Z := 30.
Definition SKEW : Z := 1.
Definition ACCEPT_WINDOW_SECS : Z := STEP * (2 * SKEW + 1).
Definition LAST_STEP_TTL_SECS : Z := 2 * ACCEPT_WINDOW_SECS.

(** [pad_to_fixed]: 16 bytes, cut or filled with zeros. *)
Definition FIXED_LEN : nat := 16.
Fixpoint pad_to_fixed (n : nat) (s : string) : list ascii :=
  match n, s with
  | O, _ => []
  | S n, EmptyString => Ascii.zero :: pad_to_fixed n EmptyString
  | S n, String c s => c :: pad_to_fixed n s
  end.

(** Lengths are compared as [u8]. *)
Definition code_matches (stored candidate : string) : bool :=
  bool_decide (String.length stored mod 256 = String.length candidate mod 256)%nat &&
  bool_decide (pad_to_fixed FIXED_LEN stored = pad_to_fixed FIXED_LEN candidate).

(** The last match wins: the loop runs over all codes. *)
Fixpoint find_from (i : nat) (found : option nat) (codes : list string) (candidate : string)
    : option nat :=
  match codes with
  | [] => found
  | stored :: codes =>
      find_from (S i) (if code_matches stored candidate then Some i else found) codes candidate
  end.
Definition find_recovery_code (codes : list string) (candidate : string) : option nat :=
  find_from 0 None codes candidate.

(** ** The handler *)

(** What the handler calls that is not in the repository. *)
Record login_deps {U : Type} := {
  ld_sha256 : string -> list Z;
  ld_ip_parse : string -> option IpAddr;
  ld_verify_password : string -> string -> bool;
  (** [verify_step] at a time in seconds, errors as no match. *)
  ld_verify_step : string -> string -> string -> Z -> option Z;
  ld_decrypt_secret : string -> result AppError string;
  ld_decrypt_codes : string -> result AppError (list string);
  (** The ciphertext depends on a fresh nonce, drawn for the call. *)
  ld_encrypt_codes : nat -> list string -> result AppError string;
  ld_roles : U -> list string;
  ld_permissions : U -> list string;
  ld_denied : U -> list string;
  ld_access_ttl_secs : Z;
  ld_refresh_ttl_days : Z;
}.
#[global] Arguments login_deps : clear implicits.

Section Login.
Context {St U : Type} `{Uuid U} `{ExpiringKeys St}.
Context (D : login_deps U) (net : nat -> link) (clock : nat -> Z).
Abbreviation W := (auth_world St U).

Definition last_step_key (user_id : U) : string := "totp_last_step:" +:+ uuid_str user_id.
Definition rate_key (client_ip email : string) : string := "auth_rate:" +:+ client_ip +:+ ":" +:+ email.
Definition ip_rate_key (client_ip : string) : string := "auth_rate_ip:" +:+ client_ip.
Definition lockout_key (email : string) : string := "auth_lockout:" +:+ email.
Definition email_fail_key (email : string) : string := "auth_email_fails:" +:+ email.
Definition totp_fail_key (id : U) : string := "auth_totp_fails:" +:+ uuid_str id.
Definition totp_lock_key (id : U) : string := "auth_totp_locked:" +:+ uuid_str id.
Definition temp_password_marker_key (id : U) : string := "pw_temp:" +:+ uuid_str id.
Definition race_lost_key (id : U) : string := "totp_recovery_race_lost_seen:" +:+ uuid_str id.

(** [CLAIM_LUA]. *)
Definition claim_script (key : string) (step t : Z) (s : St) : St * option Z :=
  let record := (xset t key (int_text (St := St) step) LAST_STEP_TTL_SECS s, Some 1) in
  match peek t key s with
  | None => record
  | Some (last, _) =>
      match text_int (St := St) last with
      | None => (s, None)
      | Some l => if step <=? l then (s, Some 0) else record
      end
  end.
Definition claim_step (user_id : U) (step : Z) : io W AppError bool :=
  claimed ← redis net clock temporarily_unavailable (claim_script (last_step_key user_id) step);
  mret (claimed =? 1).

(** [find_active_by_email] and [swap_recovery_codes]. *)
Definition active_by_email (email : string) (u : User U) : bool :=
  String.eqb (us_email u) email && us_is_active u && bool_decide (us_deleted_at u = None).
Definition find_active_by_email (email : string) (us : list (User U)) : list (User U) * option (User U) :=
  (us, head (filter (fun u => active_by_email email u = true) us)).

Definition set_recovery_codes (codes : string) (u : User U) : User U :=
  {| us_id := us_id u; us_email := us_email u; us_display_name := us_display_name u;
     us_password_hash := us_password_hash u; us_oidc_subject := us_oidc_subject u;
     us_oidc_issuer := us_oidc_issuer u; us_avatar_url := us_avatar_url u;
     us_is_active := us_is_active u; us_totp_secret := us_totp_secret u;
     us_totp_enabled := us_totp_enabled u; us_totp_recovery_codes := Some codes;
     us_password_change_required := us_password_change_required u;
     us_created_at := us_created_at u; us_updated_at := us_updated_at u;
     us_deleted_at := us_deleted_at u |}.
Definition swaps (id : U) (expected : string) (u : User U) : bool :=
  bool_decide (us_id u = id) && bool_decide (us_totp_recovery_codes u = Some expected).
Definition swap_recovery_codes (id : U) (expected updated : string) (us : list (User U))
    : list (User U) * Z :=
  ((fun u => if swaps id expected u then set_recovery_codes updated u else u) <$> us,
   Z.of_nat (length (filter (fun u => swaps id expected u = true) us))).

Definition verify_password_or_dummy (password : string) (hash : option string) : bool :=
  match hash with Some h => ld_verify_password D password h | None => false end.

Section Request.
Context (client_ip : string) (user_agent : option string).

Definition actor (email : string) (id : option U) : AnonymousActor U :=
  {| an_ip := Some client_ip; an_user_agent := user_agent; an_user_email := Some email;
     an_user_id := id |}.
Definition auth_row (email : string) (id : option U) (action : string) : AuditEntry :=
  with_resource "auth" LogAudit (AnonymousActor_audit (actor email id) action).

(** Ten attempts a minute for an address and an account, thirty for an address.  The first
    count takes part in the lockout below. *)
Definition login_rate (email : string) : io W AppError Z :=
  let unavailable := Internal "Rate limiting unavailable" in
  count ← incr net clock unavailable (rate_key client_ip email) 60;
  if 10 <? count then throw (BadRequest "Too many login attempts. Please try again later.")
  else
    ip_count ← incr net clock unavailable (ip_rate_key client_ip) 60;
    if 30 <? ip_count
    then throw (BadRequest "Too many login attempts from this address. Please try again later.")
    else mret count.

Definition check_lockout (email : string) : io W AppError unit :=
  lockout_ttl ← redis net clock temporarily_unavailable
                  (fun t s => (s, Some (xttl t (lockout_key email) s)));
  if 0 <? lockout_ttl
  then throw (BadRequest "Account temporarily locked due to repeated failed attempts. Please try again later.")
  else mret tt.

(** Count a failure and lock at the ladder's steps. *)
Definition fail_ladder (fail_key locked_key : string) (at_least : Z) : io W AppError unit :=
  fails ← record_failure net clock fail_key;
  match ladder_secs (Z.max at_least fails) with
  | Some secs => apply_lockout net clock locked_key secs
  | None => mret tt
  end.

Definition login_failed (email : string) (count : Z) : io W AppError (LoginResponse U) :=
  _ ← fail_ladder (email_fail_key email) (lockout_key email) count;
  _ ← ignore (incr net clock Unauthorized (subnet_fail_key (ld_ip_parse D) client_ip)
                SUBNET_FAIL_WINDOW_SECS);
  _ ← log_audit (with_detail (JObj [("email", JStr email)]) (auth_row email None "auth.login_failed"));
  throw Unauthorized.

(** Whether the code is a TOTP code not used yet, and whether it was one used before. *)
Definition totp_code_ok (user : User U) (code : string) : io W AppError (bool * bool) :=
  match us_totp_secret user with
  | None => mret (false, false)
  | Some encrypted_secret =>
      secret ← lift (ld_decrypt_secret D encrypted_secret);
      t ← now clock;
      match ld_verify_step D secret code (us_email user) (t / 1000) with
      | None => mret (false, false)
      | Some step => fresh ← claim_step (us_id user) step; mret (fresh, negb fresh)
      end
  end.

(** The recovery list holding the code, as stored and as read, and the code's place. *)
Definition recovery_match (user : User U) (code : string) : option (string * list string * nat) :=
  blob ← us_totp_recovery_codes user;
  match ld_decrypt_codes D blob with
  | Ok codes => pos ← find_recovery_code codes code; Some (blob, codes, pos)
  | Err _ => None
  end.

Definition race_lost (user : User U) : io W AppError bool :=
  dedup ← attempt (redis net clock Unauthorized (fun t s =>
            let '(s, fresh) := xset_nx t (race_lost_key (us_id user)) "1" 60 s in (s, Some fresh)));
  let first_in_window := match dedup with Ok b => b | Err _ => true end in
  _ ← (if first_in_window : bool
       then log_audit (auth_row (us_email user) (Some (us_id user)) "auth.totp_recovery_race_lost")
       else mret tt);
  throw Unauthorized.

(** [true]: passed; [false]: a code is needed first. *)
Definition second_factor (email : string) (totp_code : option string) (user : User U)
    : io W AppError bool :=
  locked ← is_locked net clock (totp_lock_key (us_id user));
  if locked : bool then throw Unauthorized
  else match totp_code with
  | None => mret false
  | Some code =>
      '(totp_valid, totp_replayed) ← totp_code_ok user code;
      if totp_valid : bool then mret true
      else match recovery_match user code with
      | Some (blob, codes, pos) =>
          updated ← (fun w => lift (ld_encrypt_codes D (aw_calls w) (delete pos codes)) w);
          rows ← database net (swap_recovery_codes (us_id user) blob updated);
          if rows =? 1
          then _ ← log_audit (auth_row (us_email user) (Some (us_id user)) "auth.totp_recovery_used");
               mret true
          else race_lost user
      | None =>
          _ ← fail_ladder (totp_fail_key (us_id user)) (totp_lock_key (us_id user)) 0;
          _ ← log_audit (with_detail (JObj [("email", JStr email); ("replayed", JBool totp_replayed)])
                (auth_row (us_email user) (Some (us_id user)) "auth.totp_failed"));
          throw Unauthorized
      end
  end.

Definition TEMP_PASSWORD_TTL_SECS : Z := 86400.

Definition check_temp_password (user : User U) : io W AppError unit :=
  if us_password_change_required user then
    marker ← get net clock temporarily_unavailable (temp_password_marker_key (us_id user));
    t ← now clock;
    let within_grandfather := t - 1000 * TEMP_PASSWORD_TTL_SECS <? us_updated_at user in
    if negb (bool_decide (is_Some marker)) && negb within_grandfather
    then _ ← log_audit (auth_row (us_email user) (Some (us_id user)) "auth.temp_password_expired");
         throw Unauthorized
    else mret tt
  else mret tt.

(** [DECAY_LUA]; its reply, or an error, is only logged. *)
Definition decay_subnet : io W AppError unit :=
  let key := subnet_fail_key (ld_ip_parse D) client_ip in
  ignore (redis net clock Unauthorized (fun t s =>
    match peek t key s with
    | None => (s, Some 0)
    | Some _ => match xincrby t key (- SUBNET_FAIL_SUCCESS_DECAY) s with
                | Some (s, z) => (s, Some z)
                | None => (s, None)
                end
    end)).

Definition clear_signing_key_slot (id : U) : io W AppError unit :=
  _ ← del net clock ("signing_pubkey:" +:+ uuid_str id);
  del net clock ("signing_key_ip:" +:+ uuid_str id).

Definition create_token (token_type : string) (id : U) (email : string) (ttl_secs t : Z) : Claims U :=
  {| cl_sub := id; cl_email := email; cl_exp := (t + 1000 * ttl_secs) / 1000; cl_iat := t / 1000;
     cl_token_type := token_type |}.

(** The role names, permissions and denials are read from the database; the tokens are made at
    the times of the calls after. *)
Definition issue_auth_session (id : U) (email : string) : io W AppError (AuthSession U) :=
  roles ← database net (fun us => (us, ld_roles D id));
  permissions ← database net (fun us => (us, ld_permissions D id));
  denied ← database net (fun us => (us, ld_denied D id));
  t ← now clock;
  mret {| se_permissions := permissions; se_denied_permissions := denied; se_roles := roles;
          se_access_ttl := ld_access_ttl_secs D;
          se_access := create_token "access" id email (ld_access_ttl_secs D) t;
          se_refresh := create_token "refresh" id email (ld_refresh_ttl_days D * 86400) t |}.

Definition login_succeeded (email : string) (user : User U) : io W AppError (LoginResponse U) :=
  _ ← clear net clock [rate_key client_ip email; lockout_key email; email_fail_key email;
                       totp_fail_key (us_id user); totp_lock_key (us_id user)];
  _ ← decay_subnet;
  _ ← log_audit (auth_row (us_email user) (Some (us_id user)) "auth.login");
  _ ← clear_signing_key_slot (us_id user);
  session ← issue_auth_session (us_id user) (us_email user);
  mret (LoggedIn session (us_password_change_required user)).

(** After the proof of work and the parsing of the request. *)
Definition login_checked (email : string) (req : LoginRequest) : io W AppError (LoginResponse U) :=
  count ← login_rate email;
  _ ← check_lockout email;
  found ← database net (find_active_by_email email);
  match found with
  | Some user =>
      if verify_password_or_dummy (lr_password req) (us_password_hash user) then
        passed ← (if us_totp_enabled user then second_factor email (lr_totp_code req) user else mret true);
        if passed : bool then
          _ ← check_temp_password user;
          login_succeeded email user
        else mret TotpRequired
      else login_failed email count
  | None => login_failed email count
  end.
End Request.

(** The request once its address is known and its body parsed. *)
Definition login_request (client_ip : string) (user_agent : option string) (req : LoginRequest)
    : io W AppError (LoginResponse U) :=
  if (String.length (lr_password req) <? 8)%nat
  then throw (BadRequest "Password must be at least 8 characters")
  else
    let email := normalize_email (lr_email req) in
    _ ← lift (validate_email email);
    _ ← verify_login_pow (ld_sha256 D) net clock (lr_pow req) email;
    login_checked client_ip user_agent email req.

Definition login (client_ip user_agent : option string) (body : result AppError LoginRequest)
    : io W AppError (LoginResponse U) :=
  client_ip ← lift (ok_or client_ip (BadRequest "Cannot determine client IP — check proxy configuration"));
  req ← lift body;
  login_request client_ip user_agent req.
End Login.
