(* ===== verification/LoginSpec.v ===== *)
(** * What logging in guarantees

    Theorems about [Login.login]: what a session needs, how many passwords can be tried, and
    that a lockout ends. *)
From Stdlib Require Import Ascii.
From S2P Require Import Prelude Interfaces Sliding Effects GatewayDeps Text AuditRow ExpiringKeys Validation Lockout Login.

(** Keys of different kinds differ in their prefixes. *)
Ltac key_ne := let E := fresh in intros E; cbn in E; discriminate E.

(** [k] is on the list as written. *)
Ltac in_list := first [left | right; in_list].

Section Spec.
Context {St U : Type} `{Uuid U} `{ExpiringKeysLaws St}.
Context (D : login_deps U) (net : nat -> link) (clock : nat -> Z).
Context (clock_mono : forall n m, (n <= m)%nat -> clock n <= clock m).
Abbreviation W := (auth_world St U).
Abbreviation leaves := (frames (St := St) (U := U) clock).
Implicit Types w : W.

(** ** The keys each part of the handler writes *)

Lemma swap_identity id expected updated (us : list (User U)) :
  who <$> (swap_recovery_codes id expected updated us).1 = who <$> us.
Proof.
  unfold swap_recovery_codes. cbn [fst]. rewrite <- list_fmap_compose. apply list_fmap_ext.
  intros i u _. unfold compose. destruct (swaps id expected u); reflexivity.
Qed.

Ltac frame := frame_with ltac:(apply swap_identity).

Lemma frames_verify_pow P sol email :
  (forall id, ~ P (POW_CHALLENGE_PREFIX +:+ id)) ->
  leaves P (verify_login_pow (ld_sha256 D) net clock sol email).
Proof.
  intros HP. unfold verify_login_pow. frame. apply frames_redis; [exact clock_mono|].
  intros t t' s k Hk Ht. rewrite xgetdel_spec. simpl. rewrite peek_xdel by done.
  rewrite decide_False; [done|]. intros ->. by eapply HP.
Qed.

Lemma frames_login_rate P ip email :
  ~ P (rate_key ip email) -> ~ P (ip_rate_key ip) -> leaves P (login_rate net clock ip email).
Proof. intros. unfold login_rate. frame; done. Qed.

Lemma frames_check_lockout P email : leaves P (check_lockout net clock email).
Proof. unfold check_lockout. frame. by apply frames_redis. Qed.

Lemma frames_fail_ladder P fail_key locked_key n :
  ~ P fail_key -> ~ P locked_key -> leaves P (fail_ladder net clock fail_key locked_key n).
Proof.
  intros. unfold fail_ladder, record_failure, apply_lockout. apply frames_bind; [exact clock_mono|by frame|].
  intros fails. destruct (ladder_secs _) as [secs|] eqn:E; [|by frame].
  apply ladder_secs_bounds in E. frame; [lia|done].
Qed.

Lemma frames_login_failed P ip ua email count :
  ~ P (email_fail_key email) -> ~ P (lockout_key email) -> ~ P (subnet_fail_key (ld_ip_parse D) ip) ->
  leaves P (login_failed D net clock ip ua email count).
Proof.
  intros. unfold login_failed. apply frames_bind; [exact clock_mono|by apply frames_fail_ladder|].
  intros []. by frame.
Qed.

Lemma frames_claim_step P id step : ~ P (last_step_key id) -> leaves P (claim_step net clock id step).
Proof.
  intros HP. unfold claim_step. frame. apply frames_redis; [exact clock_mono|].
  intros t t' s k Hk Ht.
  assert (Hs : peek t' k (xset t (last_step_key id) (int_text step) LAST_STEP_TTL_SECS s) = peek t' k s).
  { rewrite peek_xset by done. rewrite decide_False by congruence. done. }
  unfold claim_script. destruct (peek t _ s) as [[v d]|]; [|done].
  destruct (text_int v); [|done]. by destruct (_ <=? _).
Qed.

Lemma frames_second_factor P ip ua email code user :
  ~ P (last_step_key (us_id user)) -> ~ P (race_lost_key (us_id user)) ->
  ~ P (totp_fail_key (us_id user)) -> ~ P (totp_lock_key (us_id user)) ->
  leaves P (second_factor D net clock ip ua email code user).
Proof.
  intros. unfold second_factor, totp_code_ok, race_lost, is_locked. frame; try by apply frames_claim_step.
  - apply (frames_set_nx net clock clock_mono P _ _ _ (fun _ => 60) id); [done|done].
  - by apply frames_fail_ladder.
Qed.

Lemma frames_check_temp_password P ip ua user : leaves P (check_temp_password net clock ip ua user).
Proof. unfold check_temp_password. frame. Qed.

Lemma frames_decay P ip : ~ P (subnet_fail_key (ld_ip_parse D) ip) -> leaves P (decay_subnet D net clock ip).
Proof.
  intros HP. unfold decay_subnet. frame. apply frames_redis; [exact clock_mono|].
  intros t t' s k Hk Ht. destruct (peek t _ s) as [e|]; [|done].
  destruct (xincrby _ _ _ _) as [[s' z]|] eqn:E; [|done].
  apply xincrby_Some in E as (z0 & _ & _ & Hp). simpl. rewrite Hp by done.
  rewrite decide_False by congruence. done.
Qed.

Lemma frames_login_succeeded P ip ua email user :
  (forall k, k ∈ [rate_key ip email; lockout_key email; email_fail_key email; totp_fail_key (us_id user);
                  totp_lock_key (us_id user)] -> ~ P k) ->
  ~ P (subnet_fail_key (ld_ip_parse D) ip) ->
  ~ P ("signing_pubkey:" +:+ uuid_str (us_id user)) -> ~ P ("signing_key_ip:" +:+ uuid_str (us_id user)) ->
  leaves P (login_succeeded D net clock ip ua email user).
Proof.
  intros HP Hs Hk1 Hk2. unfold login_succeeded, clear_signing_key_slot, issue_auth_session.
  apply frames_bind; [exact clock_mono|by apply frames_clear|]. intros [].
  apply frames_bind; [exact clock_mono|by apply frames_decay|]. intros []. frame; done.
Qed.

(** ** An account's failure counter and lock *)

Definition account (e : string) (k : string) : Prop := k = lockout_key e \/ k = email_fail_key e.

Ltac not_account := intros [?|?]; revert select (_ = _); key_ne.

Lemma lockout_key_inj e e' : lockout_key e = lockout_key e' -> e = e'.
Proof. apply str_app_cancel_l. Qed.
Lemma email_fail_key_inj e e' : email_fail_key e = email_fail_key e' -> e = e'.
Proof. apply str_app_cancel_l. Qed.

Lemma gate_pow e sol email : leaves (account e) (verify_login_pow (ld_sha256 D) net clock sol email).
Proof. apply frames_verify_pow. intros. not_account. Qed.
Lemma gate_rate e ip email : leaves (account e) (login_rate net clock ip email).
Proof. apply frames_login_rate; not_account. Qed.

(** Every key a login of [e] from [ip] writes after its proof of work. *)
Definition login_writes (ip e k : string) : Prop :=
  k ∈ [rate_key ip e; ip_rate_key ip; lockout_key e; email_fail_key e; subnet_fail_key (ld_ip_parse D) ip] \/
  exists id : U, k ∈ [totp_fail_key id; totp_lock_key id; last_step_key id; race_lost_key id;
                      "signing_pubkey:" +:+ uuid_str id; "signing_key_ip:" +:+ uuid_str id].

Lemma frames_login_checked P ip ua e req :
  (forall k, login_writes ip e k -> ~ P k) -> leaves P (login_checked D net clock ip ua e req).
Proof.
  intros HP.
  assert (HA : forall k, k ∈ [rate_key ip e; ip_rate_key ip; lockout_key e; email_fail_key e;
                              subnet_fail_key (ld_ip_parse D) ip] -> ~ P k) by (intros; apply HP; by left).
  assert (HB : forall (id : U) k, k ∈ [totp_fail_key id; totp_lock_key id; last_step_key id; race_lost_key id;
      "signing_pubkey:" +:+ uuid_str id; "signing_key_ip:" +:+ uuid_str id] -> ~ P k)
    by (intros id k Hk; apply HP; right; by exists id).
  assert (Hfail : forall count, leaves P (login_failed D net clock ip ua e count)).
  { intros count. apply frames_login_failed; apply HA; in_list. }
  assert (Huser : forall (u : User U) k, k ∈ [totp_fail_key (us_id u); totp_lock_key (us_id u);
      last_step_key (us_id u); race_lost_key (us_id u); "signing_pubkey:" +:+ uuid_str (us_id u);
      "signing_key_ip:" +:+ uuid_str (us_id u)] -> ~ P k) by (intros u; apply HB).
  unfold login_checked. apply frames_bind; [exact clock_mono|apply frames_login_rate; apply HA; in_list|].
  intros count. apply frames_bind; [exact clock_mono|apply frames_check_lockout|]. intros [].
  frame; try apply Hfail.
  - match goal with u : User U |- _ => specialize (Huser u) end.
    apply frames_second_factor; apply Huser; in_list.
  - apply frames_check_temp_password.
  - match goal with u : User U |- _ => specialize (Huser u) end. apply frames_login_succeeded.
    + intros k Hk. rewrite !elem_of_cons in Hk. destruct Hk as [->|[->|[->|[->|[->|Hk]]]]].
      * apply HA; in_list.
      * apply HA; in_list.
      * apply HA; in_list.
      * apply Huser; in_list.
      * apply Huser; in_list.
      * by apply elem_of_nil in Hk.
    + apply HA; in_list.
    + apply Huser; in_list.
    + apply Huser; in_list.
Qed.

(** A login to another account changes neither. *)
Lemma frames_other_login e ip ua body :
  (forall req, body = Ok req -> normalize_email (lr_email req) <> e) ->
  leaves (account e) (login D net clock ip ua body).
Proof.
  intros Hne. destruct ip as [ip|]; [|by apply frames_pure].
  destruct body as [req|err]; [|by apply frames_pure]. specialize (Hne _ eq_refl).
  change (leaves (account e) (login_request D net clock ip ua req)). unfold login_request.
  destruct (_ <? _)%nat; [by apply frames_pure|]. cbv zeta.
  apply frames_bind; [exact clock_mono|by apply frames_pure|]. intros [].
  apply frames_bind; [exact clock_mono|apply gate_pow|]. intros [].
  apply frames_login_checked. intros k Hk Hacc.
  destruct Hk as [Hk|[id Hk]]; repeat (apply elem_of_cons in Hk as [->|Hk]); try (by apply elem_of_nil in Hk);
    destruct Hacc as [Hk'|Hk']; try (by revert Hk'; key_ne).
  - by apply lockout_key_inj in Hk'.
  - by apply email_fail_key_inj in Hk'.
Qed.

(** ** Wrong passwords *)

Definition is_unauthorized {A} (r : result AppError A) : bool :=
  match r with Err Unauthorized => true | _ => false end.

(** Nothing before the password is tried answers 401. *)
Lemma verify_pow_not_401 sol email w :
  is_unauthorized (verify_login_pow (ld_sha256 D) net clock sol email w).2 = false.
Proof.
  unfold verify_login_pow. rewrite io_bind_run. unfold lift at 1. destruct sol as [sol|]; [|done]. simpl.
  rewrite io_bind_run. destruct (redis _ _ _ _ _) as [w1 [stored|err]] eqn:E; simpl.
  - rewrite io_bind_run. unfold lift. destruct stored as [blob|]; [|done]. simpl.
    unfold check_pow_blob. destruct (blob_parts blob) as [[[r d] b]|]; [|done].
    destruct (parse_uint 255 d); [|done]. simpl. destruct (negb _); [done|]. by destruct (negb _).
  - unfold redis in E. destruct (run_script _ _ _) as [s [?|?]]; by simplify_eq/=.
Qed.

Lemma incr_not_401 m key ttl w :
  is_unauthorized (incr net clock (Internal m) key ttl w).2 = false.
Proof. unfold incr. by destruct (fixed_window_incr _ _ _ _ _ _ _) as [s [?|?]]. Qed.

Lemma login_rate_not_401 ip email w : is_unauthorized (login_rate net clock ip email w).2 = false.
Proof.
  unfold login_rate. rewrite io_bind_run.
  pose proof (incr_not_401 "Rate limiting unavailable" (rate_key ip email) 60 w) as E1.
  destruct (incr _ _ _ _ _ w) as [w1 [n|e]]; simpl in *; [|by destruct e].
  destruct (10 <? n); [done|]. rewrite io_bind_run.
  pose proof (incr_not_401 "Rate limiting unavailable" (ip_rate_key ip) 60 w1) as E2.
  destruct (incr _ _ _ _ _ w1) as [w2 [n2|e]]; simpl in *; [|by destruct e]. by destruct (30 <? n2).
Qed.

Lemma check_lockout_not_401 email w : is_unauthorized (check_lockout net clock email w).2 = false.
Proof.
  unfold check_lockout. rewrite io_bind_run. unfold redis.
  destruct (run_script _ _ _) as [s [?|?]]; simpl; [|done]. by destruct (0 <? _).
Qed.

(** The lock, as the check sees it at [t]: at most a second from its end. *)
Definition unlocked_at (t : Z) (email : string) (s : St) : Prop :=
  forall v d, peek t (lockout_key email) s = Some (v, Some d) -> d < t + 1000.

Lemma check_lockout_Ok email w w1 :
  check_lockout net clock email w = (w1, Ok tt) -> unlocked_at (clock (aw_calls w)) email (aw_keys w).
Proof.
  unfold check_lockout. rewrite io_bind_Ok. intros (w0 & ttl & Hr & Hc).
  apply redis_Ok in Hr as (_ & s' & [= _ Httl] & _).
  destruct (0 <? ttl) eqn:E; [done|]. zbool. intros v d Hp.
  apply xttl_left in Hp as [Hl Hge]. lia.
Qed.

Definition guess_is_wrong (req : LoginRequest) (w : W) : Prop :=
  forall u, u ∈ aw_users w -> us_email u = normalize_email (lr_email req) ->
    verify_password_or_dummy D (lr_password req) (us_password_hash u) = false.

Lemma guess_is_wrong_who req w w1 :
  who <$> aw_users w1 = who <$> aw_users w -> guess_is_wrong req w -> guess_is_wrong req w1.
Proof.
  intros Hw Hg u Hu He. apply (list_elem_of_fmap_2 who) in Hu. rewrite Hw in Hu.
  apply list_elem_of_fmap in Hu as (u' & Hu' & Hin). injection Hu' as _ He' Hh'.
  rewrite Hh'. apply (Hg u' Hin). congruence.
Qed.

(** A wrong guess either stops before the password is tried, leaving the account's counter and
    lock alone, or is a failed login on an account that was not locked. *)
Lemma login_wrong ip ua req w :
  (forall n, net n = LinkOk) -> guess_is_wrong req w ->
  let e := normalize_email (lr_email req) in
  let p := login_request D net clock ip ua req w in
  is_unauthorized p.2 = false /\ undisturbed clock (account e) w p.1 \/
  exists w1 t count, undisturbed clock (account e) w w1 /\
    clock (aw_calls w) <= t <= clock (aw_calls w1) /\ unlocked_at t e (aw_keys w) /\
    p = login_failed D net clock ip ua e count w1.
Proof.
  intros Hup Hg e p. subst p. unfold login_request.
  destruct (_ <? _)%nat; [left; split; [done|apply undisturbed_refl]|]. cbv zeta. fold e.
  rewrite io_bind_run.
  destruct (validate_email e) as [[]|err] eqn:Hv.
  2:{ left. unfold lift. cbn [fst snd]. split; [|apply undisturbed_refl]. unfold validate_email in Hv. cbn [snd].
      by repeat (case_match; simplify_eq). }
  unfold lift. cbn [fst snd]. rewrite io_bind_run.
  pose proof (verify_pow_not_401 (lr_pow req) e w) as N1. pose proof (gate_pow e (lr_pow req) e w) as F1.
  destruct (verify_login_pow _ _ _ _ _ w) as [w1 [[]|err]]; cbn [fst snd] in *;
    [|left; split; [by destruct err|exact F1]].
  unfold login_checked. rewrite io_bind_run.
  pose proof (login_rate_not_401 ip e w1) as N2. pose proof (gate_rate e ip e w1) as F2.
  destruct (login_rate _ _ _ _ w1) as [w2 [count|err]]; cbn [fst snd] in *.
  2:{ left. split; [by destruct err|]. by eapply undisturbed_trans. }
  rewrite io_bind_run.
  pose proof (check_lockout_not_401 e w2) as N3. pose proof (frames_check_lockout (account e) e w2) as F3.
  destruct (check_lockout _ _ _ w2) as [w3 [[]|err]] eqn:E3; cbn [fst snd] in *.
  2:{ left. split; [by destruct err|].
      eapply undisturbed_trans; [done|exact F1|]. by eapply undisturbed_trans. }
  assert (F02 : undisturbed clock (account e) w w2) by by eapply undisturbed_trans.
  assert (F03 : undisturbed clock (account e) w w3) by by eapply undisturbed_trans.
  rewrite io_bind_run. unfold database. rewrite Hup. cbn [find_active_by_email fst snd].
  set (w4 := with_users _ _ w3).
  assert (F4 : undisturbed clock (account e) w3 w4) by (split; [simpl; lia|by split]).
  right. exists w4, (clock (aw_calls w2)), count.
  split; [by eapply undisturbed_trans|]. split.
  { split; apply clock_mono; [apply F02|]. destruct F3, F4. lia. }
  split.
  { apply check_lockout_Ok in E3. intros v d Hp. apply (E3 v d). rewrite <- Hp.
    apply F02; [by left|done]. }
  destruct (head _) as [u|] eqn:Hhd; [|done].
  apply head_Some_elem_of in Hhd. apply list_elem_of_filter in Hhd as [Ha Hin].
  unfold active_by_email in Ha. rewrite !andb_true_iff, String.eqb_eq in Ha. destruct Ha as [[He _] _].
  assert (Hg3 : guess_is_wrong req w3) by (eapply guess_is_wrong_who; [apply F03|done]).
  by rewrite (Hg3 u Hin He).
Qed.

(** The ladder's lock for a count of [m]. *)
Lemma lock_step e m w : (forall n, net n = LinkOk) ->
  exists w2, match ladder_secs m with
             | Some secs => apply_lockout net clock (lockout_key e) secs | None => mret tt
             end w = (w2, Ok tt) /\
    (aw_calls w <= aw_calls w2)%nat /\ aw_users w2 = aw_users w /\
    (forall t k, clock (aw_calls w2) <= t -> k <> lockout_key e -> peek t k (aw_keys w2) = peek t k (aw_keys w)) /\
    forall s, ladder_secs m = Some s -> forall t, clock (aw_calls w2) <= t ->
      peek t (lockout_key e) (aw_keys w2) = keep t (Some ("1", Some (clock (aw_calls w) + 1000 * s))).
Proof.
  intros Hup. destruct (ladder_secs m) as [secs|] eqn:El.
  - apply ladder_secs_bounds in El as Hb.
    assert (Hc2 : clock (aw_calls w) <= clock (S (aw_calls w))) by (apply clock_mono; lia).
    unfold apply_lockout, set_ex, redis. rewrite Hup. cbn [run_script fst snd ok_or].
    eexists. split; [reflexivity|]. cbn [aw_calls aw_users aw_keys with_keys].
    split; [lia|]. split; [done|]. split.
    + intros t k Ht Hk. rewrite peek_xset by lia. by rewrite decide_False.
    + intros s [= <-] t Ht. rewrite peek_xset by lia. by rewrite decide_True.
  - exists w. split; [done|]. split; [lia|]. by split.
Qed.

(** A failed login on a live counter counts one up, keeps when the counter ends, and locks for
    at least what the ladder says of the new count. *)
Lemma login_failed_counts ip ua e count w z dl :
  (forall n, net n = LinkOk) ->
  peek (clock (aw_calls w)) (email_fail_key e) (aw_keys w) = dl ->
  counts (clock (aw_calls w)) (email_fail_key e) (aw_keys w) z -> 0 <= z -> in_i64 (z + 1) ->
  let p := login_failed D net clock ip ua e count w in
  (aw_calls w <= aw_calls p.1)%nat /\ who <$> aw_users p.1 = who <$> aw_users w /\
  exists t2, clock (aw_calls w) <= t2 <= clock (aw_calls p.1) /\
    let d := default (t2 + 900000) (dl ≫= snd) in
    (forall t, clock (aw_calls p.1) <= t ->
      peek t (email_fail_key e) (aw_keys p.1) = keep t (Some (int_text (z + 1), Some d)) \/ d <= t2) /\
    forall s, ladder_secs (z + 1) = Some s ->
      exists tl s', clock (aw_calls w) <= tl /\ s <= s' /\ forall t, clock (aw_calls p.1) <= t ->
        peek t (lockout_key e) (aw_keys p.1) = keep t (Some ("1", Some (tl + 1000 * s'))).
Proof.
  intros Hup Hdl Hz Hz0 Hi.
  set (n := aw_calls w) in *.
  assert (Hc : clock n <= clock (S n)) by (apply clock_mono; lia).
  destruct (fixed_window_incr (net n) (net (S n)) (clock n) (clock (S n)) (email_fail_key e)
              COUNTER_WINDOW_SECS (aw_keys w)) as [s1 r] eqn:E1.
  assert (r = Ok (z + 1)) as ->.
  { unfold fixed_window_incr in E1. rewrite !Hup in E1. simpl in E1.
    destruct (xincrby_succeeds _ _ 1 _ z Hz Hi) as [[s' z'] Hinc]. rewrite Hinc in E1. simpl in E1.
    apply xincrby_Some in Hinc as (z0 & Hz' & -> & _). rewrite (counts_fun _ _ _ _ _ Hz Hz') in *.
    destruct (0 <=? z0 + 1) eqn:E; zbool; [|lia]. simpl in E1. by simplify_eq. }
  destruct (fixed_window_incr_Ok _ _ _ _ _ _ _ _ _ E1) as (z0 & Hz' & Hzz & _ & Hf & Ho); [done|done|].
  assert (z0 = z) as -> by lia. clear Hz' Hzz.
  set (w1 := with_keys s1 (S (S n)) w).
  destruct (lock_step e (Z.max count (z + 1)) w1 Hup) as (w2 & Hrun & Hcalls & Husers & Hother & Hlock).
  change (aw_keys w1) with s1 in Hother. change (aw_users w1) with (aw_users w) in Husers.
  assert (F0 : aw_calls w1 = S (S n)) by done. rewrite F0 in Hcalls, Hlock.
  assert (Hl : fail_ladder net clock (email_fail_key e) (lockout_key e) count w = (w2, Ok tt)).
  { unfold fail_ladder. rewrite io_bind_run. unfold record_failure, incr. fold n. rewrite E1.
    cbn [fst snd]. exact Hrun. }
  unfold login_failed. rewrite io_bind_run, Hl. cbn [fst snd].
  set (tail := (_ ← ignore _; _) : io W AppError (LoginResponse U)).
  assert (Ftail : leaves (account e) tail).
  { subst tail. frame. not_account. }
  destruct (Ftail w2) as (Hct & Hut & Hkt).
  assert (F2 : clock (S (S n)) <= clock (aw_calls w2)) by by apply clock_mono.
  assert (F3 : clock (aw_calls w2) <= clock (aw_calls (tail w2).1)) by by apply clock_mono.
  assert (F4 : clock (S n) <= clock (S (S n))) by (apply clock_mono; lia).
  split; [lia|]. split; [by rewrite Hut, Husers|].
  exists (clock (S n)). rewrite Hdl in Hf. split; [lia|]. split.
  - intros t Ht. rewrite Hkt; [|by right|done]. rewrite Hother; [|lia|key_ne].
    destruct (Hf t ltac:(lia)) as [->|[Hd _]]; [by left|by right].
  - intros s Hs. destruct (ladder_secs_mono (z + 1) (Z.max count (z + 1)) s) as (s' & Hs' & Hle); [lia|done|].
    exists (clock (S (S n))), s'. split; [lia|]. split; [done|]. intros t Ht.
    rewrite Hkt; [|by left|done]. apply (Hlock s' Hs'). lia.
Qed.

(** ** How many passwords can be tried

    A run of login attempts, each whole before the next begins. *)

Record login_attempt := { at_ip : string; at_user_agent : option string; at_request : LoginRequest }.

Fixpoint logins (rs : list login_attempt) (w : W) : W * list (result AppError (LoginResponse U)) :=
  match rs with
  | [] => (w, [])
  | a :: rs =>
      let '(w, r) := login D net clock (Some (at_ip a)) (at_user_agent a) (Ok (at_request a)) w in
      let '(w, out) := logins rs w in (w, r :: out)
  end.

Definition targets (e : string) (a : login_attempt) : bool :=
  String.eqb (normalize_email (lr_email (at_request a))) e.

(** Attempts on [e] that were answered 401: the password was tried. *)
Definition tries (e : string) (rs : list login_attempt) (out : list (result AppError (LoginResponse U))) : Z :=
  Z.of_nat (length (filter (fun p => targets e p.1 && is_unauthorized p.2 = true) (zip rs out))).

(** The earliest the [c]-th try can be locked, after the first, with every wait cut short by the
    second the lock's check may round away. *)
Definition rung (c : Z) : Z :=
  if c <=? 5 then 0 else if c =? 6 then 59000 else if c =? 7 then 118000
  else if c =? 8 then 177000 else if c =? 9 then 476000 else 775000.
Definition ladder_ms (c : Z) : Z := 1000 * default 0 (ladder_secs c).

Lemma rung_step c : 5 <= c < 10 -> rung (c + 1) = rung c + ladder_ms c - 1000.
Proof.
  intros Hc. assert (c = 5 \/ c = 6 \/ c = 7 \/ c = 8 \/ c = 9) as [->|[->|[->|[->| ->]]]] by lia; done.
Qed.

(** [c] passwords of [e] have been tried since [t0]. *)
Definition tried (e : string) (t0 c : Z) (w : W) : Prop :=
  let t := clock (aw_calls w) in
  c = 0 /\ peek t (email_fail_key e) (aw_keys w) = None \/
  0 < c <= 10 /\ exists d, t0 + 900000 <= d /\
    peek t (email_fail_key e) (aw_keys w) = keep t (Some (int_text c, Some d)) /\
    (5 <= c -> exists tl s v, t0 + rung c <= tl /\ ladder_ms c <= 1000 * s /\
      peek t (lockout_key e) (aw_keys w) = keep t (Some (v, Some (tl + 1000 * s)))).

Lemma undisturbed_keep P w w1 k o : undisturbed clock P w w1 -> P k ->
  peek (clock (aw_calls w)) k (aw_keys w) = keep (clock (aw_calls w)) o ->
  peek (clock (aw_calls w1)) k (aw_keys w1) = keep (clock (aw_calls w1)) o.
Proof.
  intros (Hc & _ & Hk) HP Ho. assert (clock (aw_calls w) <= clock (aw_calls w1)) by by apply clock_mono.
  rewrite Hk by done. rewrite (peek_later (clock (aw_calls w))), Ho by done. by apply keep_keep.
Qed.

Lemma tried_undisturbed e t0 c w w1 :
  undisturbed clock (account e) w w1 -> tried e t0 c w -> tried e t0 c w1.
Proof.
  intros Hu [[-> Hp]|(Hc & d & Hd & Hp & Hl)]; [left|right].
  - split; [done|]. apply (undisturbed_keep _ w w1 _ None Hu); [by right|done].
  - split; [done|]. exists d. split; [done|]. split; [exact (undisturbed_keep _ w w1 _ _ Hu (or_intror eq_refl) Hp)|].
    intros H5. destruct (Hl H5) as (tl & s & v & Ht & Hs & Hk). exists tl, s, v.
    split; [done|]. split; [done|]. exact (undisturbed_keep _ w w1 _ _ Hu (or_introl eq_refl) Hk).
Qed.

(** No lock in sight at [t]: the last one was a second from its end or over. *)
Lemma unlocked_after e t0 c w t : 5 <= c -> tried e t0 c w -> clock (aw_calls w) <= t ->
  unlocked_at t e (aw_keys w) -> t0 + rung c + ladder_ms c - 1000 < t.
Proof.
  intros Hc [[-> _]|(_ & d & _ & _ & Hl)] Ht Hu; [lia|].
  destruct (Hl Hc) as (tl & s & v & Htl & Hs & Hp).
  pose proof (peek_later (clock (aw_calls w)) t (lockout_key e) (aw_keys w) Ht) as Hpt.
  rewrite Hp, keep_keep in Hpt by done. simpl in Hpt.
  destruct (t <? tl + 1000 * s) eqn:E; zbool; [|lia]. specialize (Hu _ _ Hpt). lia.
Qed.

Lemma tried_counts e t0 c w t2 : tried e t0 c w -> clock (aw_calls w) < t0 + 900000 -> t0 <= t2 ->
  counts (clock (aw_calls w)) (email_fail_key e) (aw_keys w) c /\
  t0 + 900000 <= default (t2 + 900000) (peek (clock (aw_calls w)) (email_fail_key e) (aw_keys w) ≫= snd).
Proof.
  intros [[-> Hp]|(_ & d & Hd & Hp & _)] Hw Ht2.
  - rewrite Hp. split; [left; by split|]. simpl. lia.
  - simpl in Hp. destruct (_ <? d) eqn:E in Hp; zbool; [|lia]. rewrite Hp.
    split; [right; by exists (Some d)|done].
Qed.

Lemma tried_step e t0 c w w1 t ip ua count :
  (forall n, net n = LinkOk) -> t0 <= clock (aw_calls w) -> tried e t0 c w ->
  undisturbed clock (account e) w w1 -> clock (aw_calls w) <= t <= clock (aw_calls w1) ->
  unlocked_at t e (aw_keys w) ->
  let p := login_failed D net clock ip ua e count w1 in
  clock (aw_calls p.1) < t0 + 900000 ->
  (aw_calls w1 <= aw_calls p.1)%nat /\ who <$> aw_users p.1 = who <$> aw_users w1 /\
  c < 10 /\ tried e t0 (c + 1) p.1.
Proof.
  intros Hup Ht0 Htr Hun Ht Hul p Hend. pose proof (tried_undisturbed _ _ _ _ _ Hun Htr) as Htr1.
  assert (Hc : 0 <= c <= 10) by (destruct Htr as [[-> _]|[? _]]; lia).
  assert (Hmono : clock (aw_calls w1) <= clock (aw_calls p.1)).
  { apply clock_mono. apply (frames_login_failed (fun _ => False) ip ua e count); by intros []. }
  destruct (tried_counts e t0 c w1 t0 Htr1) as [Hz _]; [lia|done|].
  destruct (login_failed_counts ip ua e count w1 c _ Hup eq_refl Hz) as (Hcl & Hwho & t2 & Ht2 & Hf & Hl);
    [lia|unfold in_i64, i64_min, i64_max; lia|]. fold p in Hcl, Hwho, Ht2, Hf, Hl.
  destruct (tried_counts e t0 c w1 t2 Htr1) as [_ Hd]; [lia|lia|].
  assert (Hlt : c < 10).
  { destruct (decide (c = 10)) as [->|]; [|lia].
    pose proof (unlocked_after e t0 10 w t ltac:(done) Htr ltac:(lia) Hul) as Hx.
    change (rung 10) with 775000 in Hx. change (ladder_ms 10) with 900000 in Hx. lia. }
  split; [done|]. split; [done|]. split; [done|]. right. split; [lia|]. eexists. split; [exact Hd|].
  split; [destruct (Hf (clock (aw_calls p.1)) ltac:(lia)) as [Hp|Hp]; [exact Hp|lia]|].
  intros H5. destruct (ladder_secs (c + 1)) as [s|] eqn:Es; [|unfold ladder_secs in Es; cases].
  destruct (Hl s eq_refl) as (tl & s' & Htl & Hs' & Hk). exists tl, s', "1".
  split; [|split; [unfold ladder_ms; rewrite Es; simpl; lia|by apply Hk]].
  destruct (decide (c = 4)) as [->|]; [change (rung (4 + 1)) with 0; lia|].
  rewrite rung_step by lia. pose proof (unlocked_after e t0 c w t ltac:(lia) Htr ltac:(lia) Hul). lia.
Qed.

Lemma logins_mono rs w : (aw_calls w <= aw_calls (logins rs w).1)%nat.
Proof.
  revert w. induction rs as [|a rs IH]; intros w; simpl; [lia|].
  assert (Hf : (aw_calls w <= aw_calls (login D net clock (Some (at_ip a)) (at_user_agent a) (Ok (at_request a)) w).1)%nat).
  { apply (frames_other_login (normalize_email (lr_email (at_request a)) +:+ "?")).
    intros req [= <-] He. apply (f_equal String.length) in He. rewrite str_length_app in He. simpl in He. lia. }
  destruct (login _ _ _ _ _ _ w) as [w1 r]; simpl in *. specialize (IH w1).
  destruct (logins rs w1) as [w2 out]; simpl in *. lia.
Qed.

(** One attempt: the count goes up by one exactly when it was a try, and never past ten. *)
Lemma tried_login e t0 c a w :
  (forall n, net n = LinkOk) -> t0 <= clock (aw_calls w) -> tried e t0 c w ->
  (targets e a = true -> guess_is_wrong (at_request a) w) ->
  let p := login D net clock (Some (at_ip a)) (at_user_agent a) (Ok (at_request a)) w in
  clock (aw_calls p.1) < t0 + 900000 ->
  (aw_calls w <= aw_calls p.1)%nat /\ who <$> aw_users p.1 = who <$> aw_users w /\
  exists c', tried e t0 c' p.1 /\ c + (if targets e a && is_unauthorized p.2 then 1 else 0) <= c'.
Proof.
  intros Hup Ht0 Htr Hg p Hend.
  assert (Hstay : undisturbed clock (account e) w p.1 ->
    (aw_calls w <= aw_calls p.1)%nat /\ who <$> aw_users p.1 = who <$> aw_users w /\ tried e t0 c p.1).
  { intros Hun. split; [apply Hun|]. split; [apply Hun|]. by eapply tried_undisturbed. }
  destruct (targets e a) eqn:Ha; cbn [andb].
  - apply String.eqb_eq in Ha. specialize (Hg eq_refl).
    pose proof (login_wrong (at_ip a) (at_user_agent a) (at_request a) w Hup Hg) as Hw.
    rewrite Ha in Hw. change (login_request D net clock (at_ip a) (at_user_agent a) (at_request a) w) with p in Hw.
    destruct Hw as [[-> Hun]|(w3 & t & count & Hun & Ht & Hul & Hfail)].
    + destruct (Hstay Hun) as (? & ? & ?). split; [done|]. split; [done|]. exists c. split; [done|lia].
    + rewrite Hfail in Hend |- *.
      destruct (tried_step e t0 c w w3 t (at_ip a) (at_user_agent a) count Hup Ht0 Htr Hun Ht Hul Hend)
        as (Hcalls & Hwho & _ & Htr1). destruct Hun as (Hcalls0 & Hwho0 & _).
      split; [lia|]. split; [congruence|]. exists (c + 1). split; [done|]. destruct (is_unauthorized _); lia.
  - destruct Hstay as (? & ? & ?).
    { apply frames_other_login. intros req [= <-] He. unfold targets in Ha. apply String.eqb_neq in Ha. congruence. }
    split; [done|]. split; [done|]. exists c. split; [done|lia].
Qed.

(** From [c] tries on, at most [10 - c] more before the counter of the first ends. *)
Lemma tries_bounded e t0 rs c w :
  (forall n, net n = LinkOk) -> t0 <= clock (aw_calls w) -> tried e t0 c w ->
  (forall a, a ∈ rs -> targets e a = true -> guess_is_wrong (at_request a) w) ->
  clock (aw_calls (logins rs w).1) < t0 + 900000 ->
  tries e rs (logins rs w).2 <= 10 - c.
Proof.
  intros Hup. revert c w. induction rs as [|a rs IH]; intros c w Ht0 Htr Hg Hend.
  - unfold tries. simpl. destruct Htr as [[-> _]|[? _]]; lia.
  - pose proof (tried_login e t0 c a w Hup Ht0 Htr (Hg a ltac:(left))) as Hl.
    pose proof (logins_mono rs) as Hm. cbn [logins] in Hend |- *. cbv zeta in Hl.
    destruct (login D net clock (Some (at_ip a)) (at_user_agent a) (Ok (at_request a)) w) as [w1 r].
    specialize (Hm w1). specialize (IH). cbn [fst snd] in Hl.
    destruct (logins rs w1) as [w2 out] eqn:El. cbn [fst snd] in *.
    assert (Hw12 : clock (aw_calls w1) <= clock (aw_calls w2)) by by apply clock_mono.
    destruct Hl as (Hcalls & Hwho & c' & Htr' & Hc'); [lia|].
    assert (Hrest : tries e rs out <= 10 - c').
    { specialize (IH c' w1). rewrite El in IH. apply IH; [|done| |done].
      - etransitivity; [exact Ht0|]. by apply clock_mono.
      - intros b Hb Htg. eapply guess_is_wrong_who; [exact Hwho|]. apply Hg; [by right|done]. }
    revert Hc'. unfold tries in Hrest |- *. cbn [zip zip_with]. rewrite filter_cons. cbn [fst snd].
    destruct (targets e a && is_unauthorized r); [rewrite decide_True by done|rewrite decide_False by done];
      cbn [length]; lia.
Qed.

(** C15: With Redis up, in the fifteen minutes from a moment at which no failure of an account is
    remembered, and over logins one after another whose guesses at that account are all wrong, at
    most ten of its passwords are tried (answered 401), from however many addresses and among
    however many logins to other accounts; the wait after the tenth outlasts the rest. *)
Theorem password_guesses_bounded e rs w :
  (forall n, net n = LinkOk) ->
  peek (clock (aw_calls w)) (email_fail_key e) (aw_keys w) = None ->
  (forall a, a ∈ rs -> targets e a = true -> guess_is_wrong (at_request a) w) ->
  clock (aw_calls (logins rs w).1) < clock (aw_calls w) + 900000 ->
  tries e rs (logins rs w).2 <= 10.
Proof.
  intros Hup Hclean Hg Hend. rewrite <- (Z.sub_0_r 10).
  apply (tries_bounded e (clock (aw_calls w))); [done|lia|by left|done|done].
Qed.

(** ** What a session needs *)

(** Where a step that succeeded left the world: its calls, and a key it does not write. *)
Lemma verify_pow_Ok sol e w w' :
  verify_login_pow (ld_sha256 D) net clock sol e w = (w', Ok tt) ->
  exists s blob, sol = Some s /\
    fst <$> peek (clock (aw_calls w)) (POW_CHALLENGE_PREFIX +:+ ps_challenge_id s) (aw_keys w) = Some blob /\
    check_pow_blob (ld_sha256 D) blob e (ps_nonce s) = Ok tt /\
    aw_calls w' = S (aw_calls w) /\ aw_users w' = aw_users w /\
    forall t, clock (aw_calls w) <= t ->
      peek t (POW_CHALLENGE_PREFIX +:+ ps_challenge_id s) (aw_keys w') = None.
Proof.
  unfold verify_login_pow. rewrite io_bind_Ok. intros (w0 & s & [-> Hs]%lift_Ok & Hr).
  apply ok_or_Ok in Hs. rewrite io_bind_Ok in Hr. destruct Hr as (w1 & stored & Hr & Hb).
  apply redis_Ok in Hr as (_ & s' & Hcmd & ->). rewrite xgetdel_spec in Hcmd. injection Hcmd as <- Hst.
  rewrite io_bind_Ok in Hb. destruct Hb as (w2 & blob & [-> Hblob]%lift_Ok & [-> Hc]%lift_Ok).
  apply ok_or_Ok in Hblob. exists s, blob. split; [done|]. split; [congruence|]. split; [done|].
  split; [done|]. split; [done|]. intros t Ht. cbn [aw_keys with_keys].
  rewrite peek_xdel by done. by rewrite decide_True.
Qed.

Lemma login_rate_Ok ip e w w' count :
  login_rate net clock ip e w = (w', Ok count) ->
  (exists z, counts (clock (aw_calls w)) (rate_key ip e) (aw_keys w) z /\ z < 10) /\
  (exists z, counts (clock (aw_calls w + 2)) (ip_rate_key ip) (aw_keys w) z /\ z < 30) /\
  aw_calls w' = (aw_calls w + 4)%nat /\ aw_users w' = aw_users w.
Proof.
  unfold login_rate. rewrite io_bind_Ok. intros (w1 & n & Hi & Hr).
  pose proof (frames_incr net clock clock_mono (fun k => k = ip_rate_key ip)
    (Internal "Rate limiting unavailable") (rate_key ip e) 60 ltac:(done) ltac:(key_ne) w) as (_ & _ & Hk).
  rewrite Hi in Hk. cbn [fst] in Hk.
  apply incr_Ok in Hi as (z & Hz & -> & _ & Hc & Hu & _); [|done|done].
  destruct (10 <? z + 1) eqn:E1; [done|]. rewrite io_bind_Ok in Hr. destruct Hr as (w2 & n2 & Hi2 & Hr).
  apply incr_Ok in Hi2 as (z2 & Hz2 & -> & _ & Hc2 & Hu2 & _); [|done|done].
  destruct (30 <? z2 + 1) eqn:E2; [done|]. apply mret_Ok in Hr as [-> ->]. zbool.
  split; [exists z; split; [done|lia]|]. rewrite Hc in Hz2.
  replace (aw_calls w + 2)%nat with (S (S (aw_calls w))) by lia. split.
  - exists z2. split; [|lia]. unfold counts in Hz2 |- *. rewrite Hk in Hz2; [done|done|by rewrite Hc].
  - split; [lia|congruence].
Qed.

Lemma claim_step_Ok id step w w' :
  claim_step net clock id step w = (w', Ok true) ->
  (forall v d, peek (clock (aw_calls w)) (last_step_key id) (aw_keys w) = Some (v, d) ->
     exists l, text_int v = Some l /\ l < step) /\
  forall t, clock (aw_calls w) <= t -> peek t (last_step_key id) (aw_keys w') =
    keep t (Some (int_text step, Some (clock (aw_calls w) + 180000))).
Proof.
  unfold claim_step. rewrite io_bind_Ok. intros (w1 & r & Hr & Hret).
  apply redis_Ok in Hr as (_ & s' & Hcmd & ->). apply mret_Ok in Hret as [-> Hr1].
  symmetry in Hr1. apply Z.eqb_eq in Hr1. subst r.
  assert (Hset : forall t, clock (aw_calls w) <= t -> peek t (last_step_key id)
     (xset (clock (aw_calls w)) (last_step_key id) (int_text step) LAST_STEP_TTL_SECS (aw_keys w)) =
     keep t (Some (int_text step, Some (clock (aw_calls w) + 180000)))).
  { intros t Ht. rewrite peek_xset by done. by rewrite decide_True. }
  unfold claim_script in Hcmd. destruct (peek _ _ (aw_keys w)) as [[v d]|]; [|injection Hcmd as <-; by split].
  destruct (text_int v) as [l|] eqn:El; [|done]. destruct (step <=? l) eqn:E; [done|]. zbool.
  injection Hcmd as <-. split; [|done]. intros v' d' [= <- <-]. by exists l.
Qed.

(** A code accepted is of a later step than the last, and is the last from then on. *)
Definition fresh_step (user : User U) (code : string) (step : Z) (n : nat) (s : St) (w' : W) : Prop :=
  (n <= aw_calls w')%nat /\ exists enc secret, us_totp_secret user = Some enc /\ ld_decrypt_secret D enc = Ok secret /\
    ld_verify_step D secret code (us_email user) (clock n / 1000) = Some step /\
    (forall v d, peek (clock n) (last_step_key (us_id user)) s = Some (v, d) ->
       exists l, text_int v = Some l /\ l < step) /\
    forall t, clock (aw_calls w') <= t -> peek t (last_step_key (us_id user)) (aw_keys w') =
      keep t (Some (int_text step, Some (clock n + 180000))).
Definition fresh_code (user : User U) (code : string) (n : nat) (s : St) (w' : W) : Prop :=
  exists step, fresh_step user code step n s w'.

(** A recovery code accepted is gone from the user's row. *)
Definition spent_code (user : User U) (code : string) (us : list (User U)) : Prop :=
  exists blob codes pos updated n, recovery_match D user code = Some (blob, codes, pos) /\
    ld_encrypt_codes D n (delete pos codes) = Ok updated /\ set_recovery_codes updated user ∈ us.

Lemma totp_code_ok_Ok user code w w' valid replayed :
  totp_code_ok D net clock user code w = (w', Ok (valid, replayed)) ->
  aw_users w' = aw_users w /\ (valid = true -> fresh_code user code (aw_calls w) (aw_keys w) w').
Proof.
  unfold totp_code_ok. destruct (us_totp_secret user) as [enc|] eqn:Henc; [|intros [-> [= -> _]]%mret_Ok; by split].
  rewrite io_bind_Ok. intros (w1 & secret & [-> Hsec]%lift_Ok & Ht).
  rewrite io_bind_Ok in Ht. destruct Ht as (w2 & t & [= <- <-] & Ht).
  destruct (ld_verify_step _ _ _ _ _) as [step|] eqn:Hstep; [|apply mret_Ok in Ht as [-> [= -> _]]; by split].
  rewrite io_bind_Ok in Ht. destruct Ht as (w3 & fresh & Hc & Ht). apply mret_Ok in Ht as [-> [= -> _]].
  pose proof (frames_claim_step (fun _ => False) (us_id user) step ltac:(intros []) w) as [Hcalls _].
  rewrite Hc in Hcalls. split.
  - unfold claim_step in Hc. rewrite io_bind_Ok in Hc. destruct Hc as (w4 & r & Hc & [-> _]%mret_Ok).
    by apply redis_Ok in Hc as (_ & s & _ & ->).
  - intros ->. apply claim_step_Ok in Hc as [Hlast Hnew]. exists step. split; [simpl in Hcalls; lia|]. exists enc, secret. split_and!; try done.
    intros t' Ht'. apply Hnew. etransitivity; [|exact Ht']. by apply clock_mono.
Qed.

Lemma swapped_in user blob codes pos code updated n us :
  user ∈ us -> recovery_match D user code = Some (blob, codes, pos) ->
  ld_encrypt_codes D n (delete pos codes) = Ok updated ->
  spent_code user code (swap_recovery_codes (us_id user) blob updated us).1.
Proof.
  intros Hin Hm Henc. exists blob, codes, pos, updated, n. split; [done|]. split; [done|].
  unfold swap_recovery_codes. apply list_elem_of_fmap. exists user. split; [|done].
  assert (Hsw : swaps (us_id user) blob user = true).
  { unfold swaps. rewrite bool_decide_true by done. unfold recovery_match in Hm.
    apply bind_Some in Hm as (b & Hb & Hm). destruct (ld_decrypt_codes D b); [|done].
    apply bind_Some in Hm as (p & _ & Hm). simplify_eq. rewrite Hb. by rewrite bool_decide_true. }
  by rewrite Hsw.
Qed.

Lemma second_factor_Ok ip ua e totp_code user w w' :
  user ∈ aw_users w -> second_factor D net clock ip ua e totp_code user w = (w', Ok true) ->
  exists code, totp_code = Some code /\
    peek (clock (aw_calls w)) (totp_lock_key (us_id user)) (aw_keys w) = None /\
    (fresh_code user code (S (aw_calls w)) (aw_keys w) w' \/ spent_code user code (aw_users w')).
Proof.
  intros Hin. unfold second_factor, is_locked, get. rewrite io_bind_Ok. intros (w1 & locked & Hl & Hr).
  rewrite io_bind_Ok in Hl. destruct Hl as (w0 & v & Hg & Hl). apply redis_Ok in Hg as (_ & s & Hcmd & ->).
  injection Hcmd as <- Hv. apply mret_Ok in Hl as [-> ->].
  destruct (bool_decide (is_Some v)) eqn:Hlock; [done|]. apply bool_decide_eq_false in Hlock.
  destruct totp_code as [code|]; [|done]. exists code. split; [done|]. split.
  { destruct (peek _ _ (aw_keys w)) as [x|]; [|done]. subst v. destruct Hlock. by exists x.1. }
  rewrite io_bind_Ok in Hr. destruct Hr as (w2 & [valid replayed] & Ht & Hr).
  apply totp_code_ok_Ok in Ht as [Hu Hfresh]. destruct valid.
  { left. apply mret_Ok in Hr as [-> _]. by apply Hfresh. }
  right. destruct (recovery_match D user code) as [[[blob codes] pos]|] eqn:Hm.
  2:{ exfalso. rewrite io_bind_Ok in Hr. destruct Hr as (w3 & [] & _ & Hr).
      rewrite io_bind_Ok in Hr. by destruct Hr as (w4 & [] & _ & Hr). }
  rewrite io_bind_Ok in Hr. destruct Hr as (w3 & updated & [-> Henc]%lift_Ok & Hr).
  rewrite io_bind_Ok in Hr. destruct Hr as (w4 & rows & Hdb & Hr).
  apply database_Ok in Hdb as (_ & us & Hq & ->). destruct (rows =? 1).
  2:{ exfalso. unfold race_lost in Hr. rewrite io_bind_Ok in Hr. destruct Hr as (? & ? & _ & Hr).
      rewrite io_bind_Ok in Hr. by destruct Hr as (? & [] & _ & Hr). }
  rewrite io_bind_Ok in Hr. destruct Hr as (w5 & [] & [= <-] & [-> _]%mret_Ok).
  cbn [aw_users with_users]. change us with (us, rows).1. rewrite <- Hq.
  eapply swapped_in; [|done|done]. by rewrite Hu.
Qed.

(** The parts after the factors leave the user table as it is. *)
Definition keeps_users {A} (p : io W AppError A) : Prop := forall w, aw_users (p w).1 = aw_users w.

Lemma keeps_bind {A B} (p : io W AppError A) (f : A -> io W AppError B) :
  keeps_users p -> (forall a, keeps_users (f a)) -> keeps_users (p ≫= f).
Proof.
  intros Hp Hf w. rewrite io_bind_run. specialize (Hp w). destruct (p w) as [w1 [a|e]]; cbn [fst snd] in *; [|done].
  by rewrite Hf.
Qed.

Lemma keeps_redis {A} fail (cmd : Z -> St -> St * option A) : keeps_users (redis net clock fail cmd).
Proof. intros w. unfold redis. by destruct (run_script _ _ _). Qed.

Lemma keeps_read {A} (f : list (User U) -> A) : keeps_users (database net (fun us => (us, f us))).
Proof. intros w. unfold database. by destruct (net _). Qed.

Ltac keeps := repeat match goal with
  | |- keeps_users (mbind _ _) => apply keeps_bind; [|intros]
  | |- keeps_users (match ?x with _ => _ end) => destruct x
  | |- keeps_users (redis _ _ _ _) => apply keeps_redis
  | |- keeps_users (get _ _ _ _) => apply keeps_redis
  | |- keeps_users (del _ _ _) => unfold del; intros w; apply keeps_redis
  | |- keeps_users (ignore _) => intros w; apply keeps_redis
  | |- keeps_users (database _ (fun us => (us, _))) => apply (keeps_read (fun _ => _))
  | |- keeps_users _ => intros w; reflexivity
  end.

Lemma keeps_login_succeeded ip ua e user : keeps_users (login_succeeded D net clock ip ua e user).
Proof.
  unfold login_succeeded, clear, clear_signing_key_slot, issue_auth_session, decay_subnet. cbv zeta. keeps.
Qed.

Lemma keeps_check_temp_password ip ua user : keeps_users (check_temp_password net clock ip ua user).
Proof. unfold check_temp_password. cbv zeta. keeps. Qed.

Lemma login_succeeded_Ok ip ua e user w w' r :
  login_succeeded D net clock ip ua e user w = (w', Ok r) ->
  exists session, r = LoggedIn session (us_password_change_required user) /\
    cl_sub (se_access session) = us_id user /\ cl_sub (se_refresh session) = us_id user.
Proof.
  unfold login_succeeded. do 4 (rewrite io_bind_Ok; intros (? & ? & _ & Hr); revert Hr).
  rewrite io_bind_Ok. intros (w1 & session & Hi & [-> ->]%mret_Ok). exists session. split; [done|].
  unfold issue_auth_session in Hi. do 4 (rewrite io_bind_Ok in Hi; destruct Hi as (? & ? & _ & Hi)).
  by apply mret_Ok in Hi as [_ ->].
Qed.

Definition password_matches (user : User U) (password : string) : Prop :=
  exists h, us_password_hash user = Some h /\ ld_verify_password D password h = true.

Lemma login_failed_not_ok ip ua e count w w' r :
  login_failed D net clock ip ua e count w = (w', Ok r) -> False.
Proof.
  unfold login_failed. rewrite io_bind_Ok. intros (? & ? & _ & Hr). revert Hr.
  rewrite io_bind_Ok. intros (? & ? & _ & Hr). revert Hr.
  rewrite io_bind_Ok. intros (? & ? & _ & Hr). done.
Qed.

Lemma pow_key_not_written ip e id : ~ login_writes ip e (POW_CHALLENGE_PREFIX +:+ id).
Proof.
  intros [Hk|[u Hk]]; rewrite !elem_of_cons in Hk; repeat (destruct Hk as [Hk|Hk]; [revert Hk; key_ne|]);
    by apply elem_of_nil in Hk.
Qed.

(** What undisturbed keys show at a later call. *)
Lemma undisturbed_peek P w w1 k n : undisturbed clock P w w1 -> P k -> (aw_calls w1 <= n)%nat ->
  peek (clock n) k (aw_keys w1) = peek (clock n) k (aw_keys w).
Proof. intros (_ & _ & Hk) HP Hn. apply Hk; [done|]. by apply clock_mono. Qed.

Lemma fresh_code_later user code n s s0 w1 w2 :
  undisturbed clock (fun k => k = last_step_key (us_id user)) w1 w2 ->
  peek (clock n) (last_step_key (us_id user)) s = peek (clock n) (last_step_key (us_id user)) s0 ->
  fresh_code user code n s w1 -> fresh_code user code n s0 w2.
Proof.
  intros Hun Hs (step & Hn & enc & secret & Henc & Hsec & Hstep & Hlast & Hnew). destruct Hun as (Hc & _ & Hk).
  exists step. split; [lia|]. exists enc, secret. rewrite Hs in Hlast. do 4 (split; [done|]). intros t Ht.
  rewrite Hk by done. apply Hnew. etransitivity; [|exact Ht]. by apply clock_mono.
Qed.

Lemma login_checked_Ok ip ua e req w w' session pcr :
  login_checked D net clock ip ua e req w = (w', Ok (LoggedIn session pcr)) ->
  let at_call i := clock (aw_calls w + i) in
  exists user,
    (exists z, counts (at_call 0%nat) (rate_key ip e) (aw_keys w) z /\ z < 10) /\
    (exists z, counts (at_call 2%nat) (ip_rate_key ip) (aw_keys w) z /\ z < 30) /\
    unlocked_at (at_call 4%nat) e (aw_keys w) /\
    (user ∈ aw_users w /\ active_by_email e user = true /\ password_matches user (lr_password req)) /\
    (us_totp_enabled user = true -> exists code, lr_totp_code req = Some code /\
       peek (at_call 6%nat) (totp_lock_key (us_id user)) (aw_keys w) = None /\
       (fresh_code user code (aw_calls w + 7) (aw_keys w) w' \/ spent_code user code (aw_users w'))) /\
    cl_sub (se_access session) = us_id user /\ cl_sub (se_refresh session) = us_id user.
Proof.
  intros Hl at_call. set (P k := k <> rate_key ip e /\ k <> ip_rate_key ip).
  unfold login_checked in Hl. rewrite io_bind_Ok in Hl. destruct Hl as (w1 & count & Hr & Hl).
  pose proof (frames_login_rate P ip e ltac:(by intros [? _]) ltac:(by intros [_ ?]) w) as F1.
  rewrite Hr in F1. cbn [fst] in F1. apply login_rate_Ok in Hr as (Hrate & Hip & Hc1 & Hu1).
  rewrite io_bind_Ok in Hl. destruct Hl as (w2 & [] & Hlock & Hl).
  assert (Hw2 : w2 = with_keys (aw_keys w1) (S (aw_calls w1)) w1 /\ unlocked_at (clock (aw_calls w1)) e (aw_keys w1)).
  { split; [|by apply check_lockout_Ok in Hlock]. unfold check_lockout in Hlock. rewrite io_bind_Ok in Hlock.
    destruct Hlock as (w3 & ttl & Hx & Hy). apply redis_Ok in Hx as (_ & s & [= <- _] & ->).
    destruct (0 <? ttl); [done|]. by apply mret_Ok in Hy as [-> _]. }
  destruct Hw2 as [-> Hunl]. rewrite io_bind_Ok in Hl. destruct Hl as (w3 & found & Hdb & Hl).
  apply database_Ok in Hdb as (_ & us & [= <- Hfound] & ->).
  set (w3 := with_users _ _ _) in *.
  assert (Hpk : forall k n, P k -> (aw_calls w + 4 <= n)%nat ->
             peek (clock n) k (aw_keys w3) = peek (clock n) k (aw_keys w)).
  { intros k n HP Hn. apply (undisturbed_peek P w w1 k n F1 HP). lia. }
  destruct found as [user|]; [|by destruct (login_failed_not_ok _ _ _ _ _ _ _ Hl)].
  destruct (verify_password_or_dummy D _ _) eqn:Hpw; [|by destruct (login_failed_not_ok _ _ _ _ _ _ _ Hl)].
  apply head_Some_elem_of, list_elem_of_filter in Hfound as [Hact Hin].
  exists user. split; [unfold at_call; by rewrite Nat.add_0_r|]. split; [done|]. split.
  { intros v d Hp. unfold at_call in Hp. rewrite <- (Hpk (lockout_key e)) in Hp; [|split; key_ne|lia].
    rewrite <- Hc1 in Hp. unfold at_call. rewrite <- Hc1. by apply (Hunl v d). }
  split.
  { split; [cbn in Hin; by rewrite Hu1 in Hin|]. split; [done|].
    unfold verify_password_or_dummy in Hpw. destruct (us_password_hash user) as [h|] eqn:Hh; [|done]. by exists h. }
  rewrite io_bind_Ok in Hl. destruct Hl as (w4 & passed & Hf & Hl). destruct passed; [|by apply mret_Ok in Hl as [_ ?]].
  rewrite io_bind_Ok in Hl. destruct Hl as (w5 & [] & Htemp & Hl).
  assert (Hlater : undisturbed clock (fun k => k = last_step_key (us_id user)) w4 w' /\ aw_users w' = aw_users w4).
  { set (Q k := k = last_step_key (us_id user)).
    pose proof (frames_check_temp_password Q ip ua user w4) as G1. rewrite Htemp in G1.
    pose proof (keeps_check_temp_password ip ua user w4) as K1. rewrite Htemp in K1.
    assert (G2 : undisturbed clock Q w5 (login_succeeded D net clock ip ua e user w5).1).
    { apply frames_login_succeeded; [|key_ne..]. intros k Hk Hq. unfold Q in Hq. subst k.
      rewrite !elem_of_cons in Hk. destruct Hk as [Hk|[Hk|[Hk|[Hk|[Hk|Hk]]]]]; try (by revert Hk; key_ne).
      by apply elem_of_nil in Hk. }
    pose proof (keeps_login_succeeded ip ua e user w5) as K2. rewrite Hl in G2, K2. cbn [fst] in *.
    split; [by eapply undisturbed_trans|congruence]. }
  split; [|by apply login_succeeded_Ok in Hl as (s & [= -> _] & ? & ?)].
  intros Htotp. rewrite Htotp in Hf. apply second_factor_Ok in Hf as (code & Hcode & Hfree & Hpass); [|done].
  assert (Hc3 : aw_calls w3 = (aw_calls w + 6)%nat) by (simpl; lia). rewrite Hc3 in Hfree, Hpass.
  exists code. split; [done|]. split; [rewrite <- Hfree; symmetry; apply Hpk; [split; key_ne|lia]|].
  destruct Hlater as [Hun Hus]. destruct Hpass as [Hpass|Hpass]; [left|right; by rewrite Hus].
  replace (aw_calls w + 7)%nat with (S (aw_calls w + 6)) by lia.
  eapply fresh_code_later; [exact Hun| |exact Hpass]. apply Hpk; [split; key_ne|lia].
Qed.

Lemma login_gates ip ua req w w' session pcr :
  login D net clock (Some ip) ua (Ok req) w = (w', Ok (LoggedIn session pcr)) ->
  let e := normalize_email (lr_email req) in
  let at_call i := clock (aw_calls w + i) in
  exists sol blob user,
    (lr_pow req = Some sol /\
     fst <$> peek (at_call 0%nat) (POW_CHALLENGE_PREFIX +:+ ps_challenge_id sol) (aw_keys w) = Some blob /\
     check_pow_blob (ld_sha256 D) blob e (ps_nonce sol) = Ok tt /\
     forall t, clock (aw_calls w') <= t ->
       peek t (POW_CHALLENGE_PREFIX +:+ ps_challenge_id sol) (aw_keys w') = None) /\
    (exists z, counts (at_call 1%nat) (rate_key ip e) (aw_keys w) z /\ z < 10) /\
    (exists z, counts (at_call 3%nat) (ip_rate_key ip) (aw_keys w) z /\ z < 30) /\
    unlocked_at (at_call 5%nat) e (aw_keys w) /\
    (user ∈ aw_users w /\ us_email user = e /\ us_is_active user = true /\ us_deleted_at user = None /\
     password_matches user (lr_password req)) /\
    (us_totp_enabled user = true -> exists code, lr_totp_code req = Some code /\
       peek (at_call 7%nat) (totp_lock_key (us_id user)) (aw_keys w) = None /\
       (fresh_code user code (aw_calls w + 8) (aw_keys w) w' \/ spent_code user code (aw_users w'))) /\
    cl_sub (se_access session) = us_id user /\ cl_sub (se_refresh session) = us_id user.
Proof.
  intros Hlogin e at_call.
  change (login_request D net clock ip ua req w = (w', Ok (LoggedIn session pcr))) in Hlogin.
  unfold login_request in Hlogin. destruct (_ <? _)%nat; [done|]. cbv zeta in Hlogin. fold e in Hlogin.
  rewrite io_bind_Ok in Hlogin. destruct Hlogin as (w0 & [] & [-> Hv]%lift_Ok & Hlogin).
  rewrite io_bind_Ok in Hlogin. destruct Hlogin as (w1 & [] & Hpow & Hrest).
  pose proof (frames_verify_pow (fun k => forall id, k <> POW_CHALLENGE_PREFIX +:+ id) (lr_pow req) e
    ltac:(intros id Hid; by eapply Hid) w) as Fpow. rewrite Hpow in Fpow. cbn [fst] in Fpow.
  destruct (verify_pow_Ok _ _ _ _ Hpow) as (sol & blob & Hsol & Hblob & Hcheck & Hc1 & Hu1 & Hgone).
  assert (Hgone' : forall t, clock (aw_calls w') <= t ->
            peek t (POW_CHALLENGE_PREFIX +:+ ps_challenge_id sol) (aw_keys w') = None).
  { intros t Ht. pose proof (frames_login_checked (fun k => k = POW_CHALLENGE_PREFIX +:+ ps_challenge_id sol) ip ua e req
      ltac:(intros k Hk ->; revert Hk; apply pow_key_not_written) w1) as F2. rewrite Hrest in F2. cbn [fst] in F2.
    destruct F2 as (Hc2 & _ & Hk2). rewrite Hk2 by done. apply Hgone. etransitivity; [|exact Ht].
    apply clock_mono. lia. }
  destruct (login_checked_Ok _ _ _ _ _ _ _ _ Hrest) as (user & Hrate & Hip & Hunl & (Hin & Hact & Hpw) & Hfac & Hs).
  rewrite Hc1 in Hrate, Hip, Hunl, Hfac.
  assert (Hpk : forall k n, (forall id, k <> POW_CHALLENGE_PREFIX +:+ id) -> (S (aw_calls w) <= n)%nat ->
            peek (clock n) k (aw_keys w1) = peek (clock n) k (aw_keys w)).
  { intros k n HP Hn. apply (undisturbed_peek _ w w1 k n Fpow HP). lia. }
  exists sol, blob, user. unfold at_call. rewrite Nat.add_0_r.
  split; [done|]. split.
  { destruct Hrate as (z & Hz & Hlt). exists z. split; [|done]. unfold counts in Hz |- *.
    rewrite Hpk in Hz; [|intros id; key_ne|lia]. by replace (aw_calls w + 1)%nat with (S (aw_calls w) + 0)%nat by lia. }
  split.
  { destruct Hip as (z & Hz & Hlt). exists z. split; [|done]. unfold counts in Hz |- *.
    rewrite Hpk in Hz; [|intros id; key_ne|lia]. by replace (aw_calls w + 3)%nat with (S (aw_calls w) + 2)%nat by lia. }
  split.
  { intros v d Hp. replace (aw_calls w + 5)%nat with (S (aw_calls w) + 4)%nat in * by lia.
    apply (Hunl v d). rewrite Hpk; [done|intros id; key_ne|lia]. }
  split.
  { unfold active_by_email in Hact. rewrite !andb_true_iff, String.eqb_eq, bool_decide_eq_true in Hact.
    rewrite <- Hu1. naive_solver. }
  split; [|done]. intros Htotp. destruct (Hfac Htotp) as (code & Hcode & Hfree & Hpass). exists code.
  split; [done|]. split.
  { replace (aw_calls w + 7)%nat with (S (aw_calls w) + 6)%nat by lia.
    rewrite <- Hfree. symmetry. apply Hpk; [intros id; key_ne|lia]. }
  destruct Hpass as [Hpass|Hpass]; [left|by right].
  replace (aw_calls w + 8)%nat with (S (aw_calls w) + 7)%nat by lia.
  eapply fresh_code_later; [apply undisturbed_refl| |exact Hpass]. apply Hpk; [intros id; key_ne|lia].
Qed.

(** C3: A login that ends in a session went through every gate, in order: its proof of work was
    issued for this very address and is now spent; fewer than ten attempts on the account from
    there and thirty from the address had been counted in the minute; the account was not
    locked; the user is active and the password theirs; with two factors, their code was not
    locked out and is either of a later step than the last one on record (and is now the one on
    record, for three minutes) or a recovery code their row no longer has.  The session is theirs. *)
Theorem session_needs_every_factor ip ua req w w' session pcr :
  login D net clock (Some ip) ua (Ok req) w = (w', Ok (LoggedIn session pcr)) ->
  let e := normalize_email (lr_email req) in
  let at_call i := clock (aw_calls w + i) in
  exists sol blob user,
    (lr_pow req = Some sol /\
     fst <$> peek (at_call 0%nat) (POW_CHALLENGE_PREFIX +:+ ps_challenge_id sol) (aw_keys w) = Some blob /\
     check_pow_blob (ld_sha256 D) blob e (ps_nonce sol) = Ok tt /\
     forall t, clock (aw_calls w') <= t ->
       peek t (POW_CHALLENGE_PREFIX +:+ ps_challenge_id sol) (aw_keys w') = None) /\
    (exists z, counts (at_call 1%nat) (rate_key ip e) (aw_keys w) z /\ z < 10) /\
    (exists z, counts (at_call 3%nat) (ip_rate_key ip) (aw_keys w) z /\ z < 30) /\
    unlocked_at (at_call 5%nat) e (aw_keys w) /\
    (user ∈ aw_users w /\ us_email user = e /\ us_is_active user = true /\ us_deleted_at user = None /\
     password_matches user (lr_password req)) /\
    (us_totp_enabled user = true -> exists code, lr_totp_code req = Some code /\
       peek (at_call 7%nat) (totp_lock_key (us_id user)) (aw_keys w) = None /\
       (fresh_code user code (aw_calls w + 8) (aw_keys w) w' \/ spent_code user code (aw_users w'))) /\
    cl_sub (se_access session) = us_id user /\ cl_sub (se_refresh session) = us_id user.
Proof. apply login_gates. Qed.

(** ** A lockout ends *)

(** The account is locked for at most fifteen more minutes. *)
Definition lock_ends (e : string) (w : W) : Prop :=
  expires_by (clock (aw_calls w)) (clock (aw_calls w) + 900000) (lockout_key e) (aw_keys w).
Lemma lock_ends_undisturbed e w w1 :
  undisturbed clock (fun k => k = lockout_key e) w w1 -> lock_ends e w -> lock_ends e w1.
Proof.
  intros (Hc & _ & Hk) Hw v m Hp.
  assert (Hm : clock (aw_calls w) <= clock (aw_calls w1)) by by apply clock_mono.
  rewrite Hk in Hp by done. rewrite (peek_later (clock (aw_calls w))) in Hp by done.
  apply keep_Some in Hp as [Hp _]. destruct (Hw _ _ Hp) as (d & -> & Hd). exists d. split; [done|lia].
Qed.

Lemma preserves_frames {A} e (p : io W AppError A) :
  leaves (fun k => k = lockout_key e) p -> preserves (lock_ends e) p.
Proof. intros Hp w. apply lock_ends_undisturbed, Hp. Qed.

Lemma preserves_lock e secs : 0 < secs <= 900 ->
  preserves (lock_ends e) (apply_lockout net clock (lockout_key e) secs).
Proof.
  intros Hs w Hw. unfold apply_lockout, set_ex, redis, run_script.
  assert (Hm : clock (aw_calls w) <= clock (S (aw_calls w))) by (apply clock_mono; lia).
  assert (Hset : lock_ends e (with_keys (xset (clock (aw_calls w)) (lockout_key e) "1" secs (aw_keys w)) (S (aw_calls w)) w)).
  { intros v m. cbn [aw_keys aw_calls with_keys]. rewrite peek_xset by lia. rewrite decide_True by done.
    intros [[= <- <-] _]%keep_Some. eexists. split; [done|]. lia. }
  destruct (net (aw_calls w)); [exact Hset| |exact Hset].
  apply (lock_ends_undisturbed e w); [|done]. split; [simpl; lia|by split].
Qed.

Lemma preserves_unlock e : preserves (lock_ends e) (del net clock (lockout_key e)).
Proof.
  intros w Hw. unfold del, ignore, redis, run_script.
  assert (Hm : clock (aw_calls w) <= clock (S (aw_calls w))) by (apply clock_mono; lia).
  assert (Hset : lock_ends e (with_keys (xdel (clock (aw_calls w)) (lockout_key e) (aw_keys w)) (S (aw_calls w)) w)).
  { intros v m. cbn [aw_keys aw_calls with_keys]. rewrite peek_xdel by lia. by rewrite decide_True. }
  destruct (net (aw_calls w)); [exact Hset| |exact Hset].
  apply (lock_ends_undisturbed e w); [|done]. split; [simpl; lia|by split].
Qed.

Lemma preserves_login_failed e ip ua count : preserves (lock_ends e) (login_failed D net clock ip ua e count).
Proof.
  unfold login_failed. apply preserves_bind.
  - unfold fail_ladder. apply preserves_bind.
    + apply preserves_frames. apply frames_incr; [exact clock_mono|done|key_ne].
    + intros n. destruct (ladder_secs _) as [secs|] eqn:E; [|by intros w].
      apply ladder_secs_bounds in E. apply preserves_lock. lia.
  - intros []. apply preserves_frames. frame. key_ne.
Qed.

Lemma preserves_login_checked e ip ua req : preserves (lock_ends e) (login_checked D net clock ip ua e req).
Proof.
  unfold login_checked. apply preserves_bind; [apply preserves_frames, frames_login_rate; key_ne|]. intros count.
  apply preserves_bind; [apply preserves_frames, frames_check_lockout|]. intros [].
  apply preserves_bind; [apply preserves_frames; frame|]. intros [user|]; [|apply preserves_login_failed].
  destruct (verify_password_or_dummy _ _ _); [|apply preserves_login_failed].
  apply preserves_bind.
  { apply preserves_frames. destruct (us_totp_enabled user); [apply frames_second_factor; key_ne|frame]. }
  intros []; [|by intros w]. apply preserves_bind; [apply preserves_frames, frames_check_temp_password|]. intros [].
  unfold login_succeeded. apply preserves_bind.
  - cbn [clear]. repeat (apply preserves_bind; [first [apply preserves_unlock |
      apply preserves_frames, frames_del; [exact clock_mono|key_ne]]|intros []]). by intros w.
  - intros []. apply preserves_frames. apply frames_bind; [exact clock_mono|apply frames_decay; key_ne|]. intros [].
    unfold clear_signing_key_slot, issue_auth_session. frame; key_ne.
Qed.

Lemma preserves_login e ip ua req : preserves (lock_ends e) (login D net clock (Some ip) ua (Ok req)).
Proof.
  destruct (decide (normalize_email (lr_email req) = e)) as [He|He].
  - change (preserves (lock_ends e) (login_request D net clock ip ua req)). unfold login_request. rewrite He.
    destruct (_ <? _)%nat; [by intros w|]. cbv zeta. apply preserves_bind; [by intros w|]. intros [].
    apply preserves_bind; [|intros []; apply preserves_login_checked].
    apply preserves_frames, frames_verify_pow. intros id. key_ne.
  - intros w Hw. eapply lock_ends_undisturbed; [|exact Hw].
    destruct (frames_other_login e (Some ip) ua (Ok req) ltac:(by intros ? [= <-]) w) as (Hc & Hu & Hk).
    split; [done|]. split; [done|]. intros k t -> Ht. apply Hk; [by left|done].
Qed.

(** Whatever logins were attempted, by whoever, and however their calls to Redis went, an
    account is open to a login again fifteen minutes after the last of them: every lock was set
    with an end, and the ends lie no further ahead. *)
Theorem lockout_ends e rs w w1 :
  lock_ends e w ->
  undisturbed clock (account e) (logins rs w).1 w1 ->
  clock (aw_calls (logins rs w).1) + 900000 <= clock (aw_calls w1) -> net (aw_calls w1) = LinkOk ->
  (check_lockout net clock e w1).2 = Ok tt.
Proof.
  intros Hw Hun Hlate Hup.
  assert (Hend : lock_ends e (logins rs w).1).
  { clear Hun Hlate. revert w Hw. induction rs as [|a rs IH]; intros w Hw; [done|]. cbn [logins].
    pose proof (preserves_login e (at_ip a) (at_user_agent a) (at_request a) w Hw) as Hw2.
    destruct (login _ _ _ _ _ _ w) as [w2 r]. specialize (IH w2 Hw2). by destruct (logins rs w2). }
  assert (Hfree : peek (clock (aw_calls w1)) (lockout_key e) (aw_keys w1) = None).
  { destruct (peek _ _ (aw_keys w1)) as [[v m]|] eqn:Hp; [|done]. exfalso.
    destruct Hun as (Hc & _ & Hk). rewrite Hk in Hp; [|by left|done].
    rewrite (peek_later (clock (aw_calls (logins rs w).1))) in Hp by by apply clock_mono.
    apply keep_Some in Hp as [Hp Ha]. destruct (Hend _ _ Hp) as (d & -> & Hd). specialize (Ha d eq_refl). lia. }
  unfold check_lockout. rewrite io_bind_run. unfold redis. rewrite Hup. cbn [run_script fst snd ok_or].
  by rewrite (xttl_none _ _ _ Hfree).
Qed.

(** ** A TOTP code is used once *)

(** A step accepted is on record until no clock accepts it any more. *)
Definition step_kept (key : string) (step : Z) (m : Z) (w : W) : Prop :=
  m <= clock (aw_calls w) + 180000 /\
  forall t, clock (aw_calls w) <= t < m -> exists v d l, peek t key (aw_keys w) = Some (v, d) /\ text_int v = Some l /\ step <= l.
Lemma step_kept_undisturbed key step m w w1 :
  undisturbed clock (fun k => k = key) w w1 -> step_kept key step m w -> step_kept key step m w1.
Proof.
  intros (Hc & _ & Hk) [Hm Hw]. assert (Hle : clock (aw_calls w) <= clock (aw_calls w1)) by by apply clock_mono.
  split; [lia|]. intros t Ht. rewrite Hk by (done || lia). apply Hw. lia.
Qed.
Lemma preserves_claim_step key step m id step' : preserves (step_kept key step m) (claim_step net clock id step').
Proof.
  destruct (decide (last_step_key id = key)) as [<-|Hid]; [|intros w; by apply step_kept_undisturbed, frames_claim_step].
  unfold claim_step. apply preserves_bind; [|by intros a w]. intros w Hw.
  assert (Hrun : step_kept (last_step_key id) step m
     (with_keys (claim_script (last_step_key id) step' (clock (aw_calls w)) (aw_keys w)).1 (S (aw_calls w)) w)).
  { assert (Hle : clock (aw_calls w) <= clock (S (aw_calls w))) by (apply clock_mono; lia). destruct Hw as [Hm Hw].
    split; cbn [aw_keys aw_calls with_keys]; [lia|]. intros t Ht.
    destruct (Hw (clock (aw_calls w)) ltac:(lia)) as (v & d & l & Hp & Hl & Hlast). unfold claim_script. rewrite Hp, Hl.
    destruct (step' <=? l) eqn:E; [apply Hw; lia|]. zbool. cbn [fst].
    eexists _, _, step'. split_and!; [|apply text_int_text|lia]. rewrite peek_xset by (done || lia). rewrite decide_True by done. apply keep_Some. split; [done|].
    intros d0 [= <-]. change LAST_STEP_TTL_SECS with 180. lia. }
  unfold redis, run_script. destruct (net (aw_calls w)); [| |].
  - by destruct (claim_script _ _ _ _) as [s []].
  - eapply step_kept_undisturbed; [|exact Hw]. split; [simpl; lia|by split].
  - by destruct (claim_script _ _ _ _) as [s []].
Qed.
Lemma preserves_second_factor key step m ip ua e code user :
  (forall id, key <> race_lost_key id /\ key <> totp_fail_key id /\ key <> totp_lock_key id) ->
  preserves (step_kept key step m) (second_factor D net clock ip ua e code user).
Proof.
  intros Hk. assert (Hf : forall A (p : io W AppError A), leaves (fun k => k = key) p -> preserves (step_kept key step m) p) by (intros A p Hp w; apply step_kept_undisturbed, Hp).
  assert (Hne : forall id k, (k = race_lost_key id \/ k = totp_fail_key id \/ k = totp_lock_key id) -> ~ k = key) by (intros id k Hkk ->; specialize (Hk id); tauto).
  unfold second_factor. apply preserves_bind; [apply Hf; unfold is_locked; frame|]. intros []; [by intros w|].
  destruct code as [code|]; [|by intros w]. apply preserves_bind.
  - unfold totp_code_ok. destruct (us_totp_secret user); [|by intros w]. apply preserves_bind; [by intros w|]. intros secret.
    apply preserves_bind; [apply Hf; frame|]. intros t. destruct (ld_verify_step _ _ _ _ _); [|by intros w].
    apply preserves_bind; [apply preserves_claim_step|by intros b w].
  - intros [valid replayed]. apply Hf. unfold race_lost. frame.
    + apply (frames_set_nx net clock clock_mono _ _ _ _ (fun _ => 60) id); [done|]. eapply Hne; eauto.
    + apply frames_fail_ladder; eapply Hne; eauto.
Qed.
Lemma preserves_steps id step m ip ua req : preserves (step_kept (last_step_key id) step m) (login D net clock (Some ip) ua (Ok req)).
Proof.
  assert (Hf : forall A (p : io W AppError A), leaves (fun k => k = last_step_key id) p -> preserves (step_kept (last_step_key id) step m) p) by (intros A p Hp w; apply step_kept_undisturbed, Hp).
  change (preserves (step_kept (last_step_key id) step m) (login_request D net clock ip ua req)). unfold login_request.
  destruct (_ <? _)%nat; [by intros w|]. cbv zeta. apply preserves_bind; [by intros w|]. intros [].
  apply preserves_bind; [apply Hf, frames_verify_pow; intros i; key_ne|]. intros []. unfold login_checked.
  apply preserves_bind; [apply Hf, frames_login_rate; key_ne|]. intros count.
  apply preserves_bind; [apply Hf, frames_check_lockout|]. intros [].
  assert (Hfail : forall e, preserves (step_kept (last_step_key id) step m) (login_failed D net clock ip ua e count)).
  { intros e. apply Hf, frames_login_failed; key_ne. }
  apply preserves_bind; [apply Hf; frame|]. intros [user|]; [|apply Hfail].
  destruct (verify_password_or_dummy _ _ _); [|apply Hfail]. apply preserves_bind.
  { destruct (us_totp_enabled user); [|by intros w]. apply preserves_second_factor. intros i. split_and!; key_ne. }
  intros []; [|by intros w]. apply preserves_bind; [apply Hf, frames_check_temp_password|]. intros [].
  apply Hf, frames_login_succeeded; [|key_ne..]. intros k Hk ->.
  rewrite !elem_of_cons in Hk. destruct Hk as [Hk|[Hk|[Hk|[Hk|[Hk|Hk]]]]]; try (by revert Hk; key_ne). by apply elem_of_nil in Hk.
Qed.
Lemma steps_logins id step m rs w : step_kept (last_step_key id) step m w -> step_kept (last_step_key id) step m (logins rs w).1.
Proof.
  revert w. induction rs as [|a rs IH]; intros w Hw; [done|]. cbn [logins].
  pose proof (preserves_steps id step m (at_ip a) (at_user_agent a) (at_request a) w Hw) as Hw2.
  destruct (login _ _ _ _ _ _ w) as [w2 r]. specialize (IH w2 Hw2). by destruct (logins rs w2).
Qed.

(** Where totp-rs looks for a code: [check_current] tries the step of the time and [SKEW] steps
    either side of it. *)
Definition steps_within_skew : Prop := forall secret code email t step,
  ld_verify_step D secret code email t = Some step -> t / STEP - SKEW <= step <= t / STEP + SKEW.

(** What got a user past the second factor: a TOTP code of a step, or a recovery code that was
    taken off the list. *)
Definition passed_by_step (user : User U) (req : LoginRequest) (step : Z) (w w' : W) : Prop :=
  exists code, lr_totp_code req = Some code /\ fresh_step user code step (aw_calls w + 8) (aw_keys w) w'.
Definition passed_by_recovery (user : User U) (req : LoginRequest) (w' : W) : Prop :=
  exists code, lr_totp_code req = Some code /\ spent_code user code (aw_users w').

(** C39: a TOTP code lets a user in once.  Of two logins of a user with two factors on, whatever
    logins come in between, either one was by a recovery code, which was then taken off the
    list, or the later one's TOTP step is later, so its code is not the same one again. *)
Theorem totp_step_single_use ip ua req w w1 session pcr rs ip' ua' req' w3 session' pcr' :
  steps_within_skew ->
  login D net clock (Some ip) ua (Ok req) w = (w1, Ok (LoggedIn session pcr)) ->
  login D net clock (Some ip') ua' (Ok req') (logins rs w1).1 = (w3, Ok (LoggedIn session' pcr')) ->
  cl_sub (se_access session') = cl_sub (se_access session) ->
  exists user user', user ∈ aw_users w /\ user' ∈ aw_users (logins rs w1).1 /\
    us_id user = cl_sub (se_access session) /\ us_id user' = cl_sub (se_access session) /\
    (us_totp_enabled user = true -> us_totp_enabled user' = true ->
       passed_by_recovery user req w1 \/ passed_by_recovery user' req' w3 \/
       exists step step', passed_by_step user req step w w1 /\ passed_by_step user' req' step' (logins rs w1).1 w3 /\ step < step').
Proof.
  intros Hskew Hl1 Hl2 Hsame. set (w2 := (logins rs w1).1) in *.
  destruct (login_gates _ _ _ _ _ _ _ Hl1) as (sol & blob & user & _ & _ & _ & _ & (Hin & _) & Hf & Hs & _).
  destruct (login_gates _ _ _ _ _ _ _ Hl2) as (sol' & blob' & user' & _ & _ & _ & _ & (Hin' & _) & Hf' & Hs' & _).
  exists user, user'. split_and!; [done|done|congruence|congruence|]. intros Ht Ht'.
  destruct (Hf Ht) as (code & Hcode & _ & [[step Hstep]|Hrec]); [|left; by exists code].
  destruct (Hf' Ht') as (code' & Hcode' & _ & [[step' Hstep']|Hrec']); [|right; left; by exists code'].
  right; right. exists step, step'. split; [by exists code|]. split; [by exists code'|].
  destruct Hstep as (Hn & enc & secret & _ & _ & Hv & _ & Hnew), Hstep' as (Hn' & enc' & secret' & _ & _ & Hv' & Hlast & _).
  assert (Hid : us_id user' = us_id user) by congruence. rewrite Hid in Hlast.
  apply Hskew in Hv, Hv'. set (n := (aw_calls w + 8)%nat) in *. set (n' := (aw_calls w2 + 8)%nat) in *.
  pose proof (clock_mono _ _ Hn) as Hcn. pose proof (clock_mono (aw_calls w2) n' ltac:(lia)) as Hcn'.
  assert (Hk1 : step_kept (last_step_key (us_id user)) step (clock n + 180000) w1).
  { split; [lia|]. intros t Htime. rewrite Hnew by lia. eexists _, _, step. rewrite text_int_text. split_and!; [|done|lia].
    apply keep_Some. split; [done|]. intros d [= <-]. lia. }
  pose proof (steps_logins _ _ _ rs w1 Hk1) as Hk2. fold w2 in Hk2.
  destruct (decide (clock n' < clock n + 180000)) as [Hsoon|Hlate].
  - destruct (proj2 Hk2 (clock n') ltac:(lia)) as (v & d & l & Hp & Hl & Hle). destruct (Hlast v d Hp) as (l' & Hl' & Hlt). rewrite Hl in Hl'. simplify_eq. lia.
  - unfold STEP, SKEW in *. pose proof (Z.div_le_mono (clock n + 180000) (clock n') 1000 ltac:(lia) ltac:(lia)) as Hd.
    replace (clock n + 180000) with (clock n + 180 * 1000) in Hd by lia. rewrite Z.div_add in Hd by lia.
    pose proof (Z.div_le_mono (clock n / 1000 + 180) (clock n' / 1000) 30 ltac:(lia) ltac:(lia)) as Hd2.
    replace (clock n / 1000 + 180) with (clock n / 1000 + 6 * 30) in Hd2 by lia. rewrite Z.div_add in Hd2 by lia. lia.
Qed.
End Spec.

(** * A console login, run

    An account with two factors on a concrete store: the theorems of [LoginSpec] at work, and
    what the per-network failure count does when successes outnumber failures. *)

(** Every hash starts with eight zero bits; a password is its own hash; a TOTP code is the step
    it belongs to, one either side of the time's. *)
Definition demo_deps : login_deps demo_uuid := {|
  ld_sha256 _ := [0; 255];
  ld_ip_parse _ := None;
  ld_verify_password p h := String.eqb p h;
  ld_verify_step secret code _ t := z ← Z_of_dec code; if (t / STEP - SKEW <=? z) && (z <=? t / STEP + SKEW) then Some z else None;
  ld_decrypt_secret s := Ok s;
  ld_decrypt_codes s := Ok [s];
  ld_encrypt_codes _ codes := Ok (String.concat "," codes);
  ld_roles _ := ["developer"];
  ld_permissions _ := ["providers:read"];
  ld_denied _ := [];
  ld_access_ttl_secs := 900;
  ld_refresh_ttl_days := 7;
|}.

Definition demo_user (two_factors : bool) : User demo_uuid := {|
  us_id := UAlice; us_email := "alice@example.com"; us_display_name := "Alice";
  us_password_hash := Some "correct horse"; us_oidc_subject := None; us_oidc_issuer := None;
  us_avatar_url := None; us_is_active := true; us_totp_secret := Some "s"; us_totp_enabled := two_factors;
  us_totp_recovery_codes := Some "ABCD-EFGH"; us_password_change_required := false;
  us_created_at := 0; us_updated_at := 0; us_deleted_at := None |}.

Definition demo_net (n : nat) : link := LinkOk.
(** A millisecond a call, and a long pause before the hundredth. *)
Definition demo_clock (n : nat) : Z := 1000000 + Z.of_nat n + (if (n <? 100)%nat then 0 else 1000000).

Lemma demo_clock_mono n m : (n <= m)%nat -> demo_clock n <= demo_clock m.
Proof.
  intros Hn. unfold demo_clock. destruct (Nat.ltb_spec n 100), (Nat.ltb_spec m 100); lia.
Qed.

Lemma demo_up n : demo_net n = LinkOk.
Proof. reflexivity. Qed.

Abbreviation demo_keys := (gmap string entry).
Abbreviation demo_world := (auth_world demo_keys demo_uuid).

(** Challenges [c0] .. [c5] issued to Alice, at difficulty 8. *)
Definition demo_challenges : demo_keys :=
  foldr (fun i s => xput (POW_CHALLENGE_PREFIX +:+ "c" +:+ dec_of_Z i) (blob_of "r" 8 "alice@example.com")
                         (Some 1300000) s) ∅ [0; 1; 2; 3; 4; 5].

Definition demo_login_world (two_factors : bool) : demo_world :=
  {| aw_calls := 0; aw_keys := demo_challenges; aw_users := [demo_user two_factors]; aw_audit := [] |}.

Definition demo_request (i : Z) (password : string) (code : option string) : LoginRequest :=
  {| lr_email := " Alice@Example.com"; lr_password := password; lr_totp_code := code;
     lr_pow := Some {| ps_challenge_id := "c" +:+ dec_of_Z i; ps_nonce := "n" |} |}.

(** Six wrong passwords in a row: five are tried, the sixth meets the lock. *)
Definition demo_guesses : list login_attempt :=
  (fun i => {| at_ip := "10.0.0." +:+ dec_of_Z i; at_user_agent := None;
               at_request := demo_request i "wrong password" None |}) <$> [0; 1; 2; 3; 4; 5].

Definition demo_run := logins demo_deps demo_net demo_clock demo_guesses (demo_login_world true).

Lemma password_guesses_bounded_witness :
  tries (U := demo_uuid) "alice@example.com" demo_guesses demo_run.2 = 5 /\
  tries (U := demo_uuid) "alice@example.com" demo_guesses demo_run.2 <= 10.
Proof.
  split; [vm_compute; reflexivity|].
  apply (password_guesses_bounded demo_deps demo_net demo_clock demo_clock_mono).
  - exact demo_up.
  - vm_compute. reflexivity.
  - intros a Ha _ u Hu _. apply list_elem_of_singleton in Hu. subst u.
    apply list_elem_of_fmap in Ha as (i & -> & _). reflexivity.
  - vm_compute. reflexivity.
Defined.

Lemma demo_within_skew : steps_within_skew demo_deps.
Proof.
  intros secret code email t step Hs. cbn in Hs. destruct (Z_of_dec code) as [z|]; [|discriminate]. cbn in Hs.
  destruct (_ && _) eqn:E; [|discriminate]. injection Hs as <-. apply andb_true_iff in E as [H1%Z.leb_le H2%Z.leb_le]. split; assumption.
Qed.

(** The right password with the code of step 33, which is then spent. *)
Definition demo_login := login demo_deps demo_net demo_clock (Some "10.0.0.9") None
  (Ok (demo_request 0 "correct horse" (Some "33"))) (demo_login_world true).

Definition no_session : AuthSession demo_uuid :=
  {| se_permissions := []; se_denied_permissions := []; se_roles := []; se_access_ttl := 0;
     se_access := create_token "" UNil "" 0 0; se_refresh := create_token "" UNil "" 0 0 |}.
Definition session_of (r : result AppError (LoginResponse demo_uuid)) : AuthSession demo_uuid :=
  match r with Ok (LoggedIn s _) => s | _ => no_session end.
Definition logged_in (r : result AppError (LoginResponse demo_uuid)) : bool :=
  match r with Ok (LoggedIn _ change) => negb change | _ => false end.

Lemma logged_in_session r : logged_in r = true -> r = Ok (LoggedIn (session_of r) false).
Proof. destruct r as [[|s []]|]; naive_solver. Qed.

Lemma session_needs_every_factor_witness :
  logged_in demo_login.2 = true /\
  exists user, us_email user = "alice@example.com" /\ us_totp_enabled user = us_totp_enabled user /\
    cl_sub (se_access (session_of demo_login.2)) = us_id user.
Proof.
  assert (Hin : logged_in demo_login.2 = true) by (vm_compute; reflexivity).
  split; [exact Hin|].
  destruct (session_needs_every_factor demo_deps demo_net demo_clock demo_clock_mono _ _ _ _ _ _ _
              (run_ends _ _ (logged_in_session _ Hin)))
    as (sol & blob & user & _ & _ & _ & _ & (_ & He & _) & _ & Hs & _).
  exists user. split; [rewrite He; vm_compute; reflexivity|]. split; [reflexivity|exact Hs].
Defined.

(** The same code again is refused, and counted. *)
Lemma code_spent :
  let w := demo_login.1 in
  let r := login demo_deps demo_net demo_clock (Some "10.0.0.9") None
             (Ok (demo_request 1 "correct horse" (Some "33"))) w in
  r.2 = Err Unauthorized /\ fst <$> peek (demo_clock (aw_calls r.1)) (totp_fail_key UAlice) (aw_keys r.1) = Some "1".
Proof. split; vm_compute; reflexivity. Qed.

(** The next code, of the step after, lets her in again. *)
Definition demo_next_login := login demo_deps demo_net demo_clock (Some "10.0.0.9") None
  (Ok (demo_request 1 "correct horse" (Some "34"))) (logins demo_deps demo_net demo_clock [] demo_login.1).1.
Lemma totp_step_single_use_witness :
  logged_in demo_next_login.2 = true /\
  exists user user' : User demo_uuid, us_id user = us_id user' /\
    (us_totp_enabled user = true -> us_totp_enabled user' = true ->
       passed_by_recovery demo_deps user (demo_request 0 "correct horse" (Some "33")) demo_login.1 \/
       passed_by_recovery demo_deps user' (demo_request 1 "correct horse" (Some "34")) demo_next_login.1 \/
       exists step step', passed_by_step demo_deps demo_clock user (demo_request 0 "correct horse" (Some "33")) step (demo_login_world true) demo_login.1 /\
         passed_by_step demo_deps demo_clock user' (demo_request 1 "correct horse" (Some "34")) step' (logins demo_deps demo_net demo_clock [] demo_login.1).1 demo_next_login.1 /\ step < step').
Proof.
  assert (Hin : logged_in demo_login.2 = true) by (vm_compute; reflexivity).
  assert (Hin' : logged_in demo_next_login.2 = true) by (vm_compute; reflexivity).
  split; [exact Hin'|].
  destruct (totp_step_single_use demo_deps demo_net demo_clock demo_clock_mono _ _ _ _ _ _ _ [] _ _ _ _ _ _
    demo_within_skew (run_ends _ _ (logged_in_session _ Hin)) (run_ends _ _ (logged_in_session _ Hin'))) as (user & user' & _ & _ & Hu & Hu' & Hcodes).
  - vm_compute. reflexivity.
  - exists user, user'. split; [congruence|exact Hcodes].
Defined.

Lemma demo_wait P (w : demo_world) : (aw_calls w <= 100)%nat ->
  undisturbed demo_clock P w (with_keys (aw_keys w) 100 w).
Proof. intros Hc. split; [exact Hc|]. by split. Qed.

(** Fifteen minutes after the guesses, the account is open. *)
Definition demo_late : demo_world :=
  with_keys (aw_keys demo_run.1) 100 demo_run.1.

Lemma lockout_ends_witness :
  (check_lockout demo_net demo_clock "alice@example.com" demo_run.1).2 <> Ok tt /\
  (check_lockout demo_net demo_clock "alice@example.com" demo_late).2 = Ok tt.
Proof.
  split; [vm_compute; discriminate|].
  apply (lockout_ends demo_deps demo_net demo_clock demo_clock_mono _ demo_guesses (demo_login_world true)).
  - intros v d Hp. vm_compute in Hp. discriminate Hp.
  - apply demo_wait. apply Nat.leb_le. vm_compute. reflexivity.
  - apply Z.leb_le. vm_compute. reflexivity.
  - apply demo_up.
Defined.

(** ** The network's failure count can fall below zero

    Every success takes three off the count, however low it is: after one failure and four
    successes the network is eleven failures in credit, and ten more failures leave its
    difficulty where it was. *)

Definition demo_fail_key : string := subnet_fail_key (fun _ => None) "10.0.0.9".
Definition demo_count (z : Z) : demo_world :=
  with_keys (xput demo_fail_key (dec_of_Z z) (Some 1600000) ∅) 0 (demo_login_world false).
Fixpoint decays (n : nat) (w : demo_world) : demo_world :=
  match n with
  | O => w
  | S n => decays n (decay_subnet demo_deps demo_net demo_clock "10.0.0.9" w).1
  end.
Fixpoint failures (n : nat) (w : demo_world) : demo_world :=
  match n with
  | O => w
  | S n => failures n (incr demo_net demo_clock Unauthorized demo_fail_key SUBNET_FAIL_WINDOW_SECS w).1
  end.

Lemma decay_below_zero :
  fst <$> peek 1500000 demo_fail_key (aw_keys (decays 4 (demo_count 1))) = Some (dec_of_Z (-11)) /\
  fst <$> peek 1500000 demo_fail_key (aw_keys (failures 20 (decays 4 (demo_count 1)))) = Some (dec_of_Z 9) /\
  difficulty_for_subnet_failures 9 = DEFAULT_DIFFICULTY /\
  difficulty_for_subnet_failures 20 = 21.
Proof. split_and!; vm_compute; reflexivity. Qed.
