(* ===== verification/Sessions.v ===== *)
(** * Sessions: refresh, logout, revocation

    [refresh], [logout], [change_password] and [revoke_sessions] of
    [crates/server/src/handlers/auth.rs], the session path of [require_auth]
    ([crates/server/src/middleware/auth_guard.rs]), [invalidate_refresh_tokens] of
    [session_service.rs] and [verify_token] of [crates/auth/src/jwt.rs].  Signing is an argument:
    [sd_decode] gives the claims of a token whose signature, audience and issuer are right. *)

From Stdlib Require Import Ascii.
From S2P Require Import Prelude Interfaces GatewayDeps Text Sliding Effects AuditRow ExpiringKeys Validation Lockout Login.

Definition MAX_JWT_LEEWAY_SECS : Z := 300.

Record session_deps {U : Type} := {
  sd_login : login_deps U;
  sd_decode : string -> option (Claims U);
  sd_leeway_secs : Z;
  sd_sha256_hex : string -> string;
  sd_hash_password : string -> result AppError string;
  (** Whether a hash reads, and matches. *)
  sd_verify_password : string -> string -> result AppError bool;
  sd_totp_required : bool;
}.
#[global] Arguments session_deps : clear implicits.

(** [with_leeway]. *)
Definition leeway {U} (D : session_deps U) : Z := Z.min (sd_leeway_secs D) MAX_JWT_LEEWAY_SECS.

Section Sessions.
Context {St U : Type} `{Uuid U} `{ExpiringKeys St}.
Context (D : session_deps U) (net : nat -> link) (clock : nat -> Z).
Abbreviation W := (auth_world St U).

(** [jsonwebtoken]: a token is good until the leeway past its expiry, whole seconds. *)
Definition verify_token (token : string) (now_secs : Z) : option (Claims U) :=
  c ← sd_decode D token; if now_secs <=? cl_exp c + leeway D then Some c else None.

Definition epoch_key (id : U) : string := "pw_epoch:" +:+ uuid_str id.
Definition blacklist_key (token : string) : string := "jwt_blacklist:" +:+ sd_sha256_hex D token.

Definition is_active (id : U) (us : list (User U)) : list (User U) * option bool :=
  (us, us_is_active <$> head (filter (fun u => us_id u = id /\ us_deleted_at u = None) us)).

(** Issued at or before the last revocation of its user. *)
Definition before_epoch (claims : Claims U) (pw_epoch : option string) : bool :=
  match pw_epoch ≫= parse_i64 with Some epoch => cl_iat claims <=? epoch | None => false end.

Definition or_unauthorized {A} (p : io W AppError A) : io W AppError A :=
  r ← attempt p; match r with Ok a => mret a | Err _ => throw Unauthorized end.

(** The token comes from the cookie, else from the body. *)
Definition refresh (cookie : option string) (body : result AppError (option string))
    : io W AppError (AuthSession U) :=
  presented_token ← lift (match cookie with
                          | Some t => Ok t
                          | None => match body with Ok o => ok_or o Unauthorized | Err e => Err e end
                          end);
  t ← now clock;
  claims ← lift (ok_or (verify_token presented_token (t / 1000)) Unauthorized);
  if negb (String.eqb (cl_token_type claims) "refresh") then throw Unauthorized
  else
    pw_epoch ← get net clock Unauthorized (epoch_key (cl_sub claims));
    if before_epoch claims pw_epoch then throw Unauthorized
    else
      user_active ← or_unauthorized (database net (is_active (cl_sub claims)));
      if negb (bool_decide (user_active = Some true)) then throw Unauthorized
      else
        outcome ← claim net clock Unauthorized (sd_sha256_hex D) presented_token (cl_exp claims);
        match outcome with
        | AlreadyClaimed => throw Unauthorized
        | Claimed => issue_auth_session (sd_login D) net clock (cl_sub claims) (cl_email claims)
        end.

Definition logout (user_id : U) (cookie : option string) : io W AppError unit :=
  _ ← del net clock ("signing_pubkey:" +:+ uuid_str user_id);
  t ← now clock;
  match cookie with
  | None => mret tt
  | Some presented =>
      match verify_token presented (t / 1000) with
      | None => mret tt
      | Some claims =>
          if String.eqb (cl_token_type claims) "refresh"
          then ignore (claim net clock Unauthorized (sd_sha256_hex D) presented (cl_exp claims))
          else mret tt
      end
  end.

(** [tokio::time::sleep]: it takes an index, so the clock may be any amount further after. *)
Definition sleep : io W AppError unit := fun w => (with_keys (aw_keys w) (S (aw_calls w)) w, Ok tt).

(** Two attempts to store the moment, 100 ms apart; a failure of both is only logged. *)
Definition invalidate_refresh_tokens (user_id : U) (refresh_ttl_days : Z) : io W AppError unit :=
  let store :=
    t ← now clock;
    attempt (set_ex net clock Unauthorized (epoch_key user_id) (dec_of_Z (t / 1000)) (refresh_ttl_days * 86400)) in
  r ← store;
  match r with
  | Ok _ => mret tt
  | Err _ => _ ← sleep; _ ← store; mret tt
  end.

(** The session path of [require_auth]: the claims a request runs under.  [path] is the
    request's.  Loading the permissions is left out. *)
Definition TOTP_ENROLLMENT_PATHS : list string :=
  ["/api/auth/me"; "/api/auth/register-key"; "/api/auth/logout"; "/api/auth/totp/status";
   "/api/auth/totp/setup"; "/api/auth/totp/verify-setup"].

Definition user_row (id : U) (us : list (User U)) : list (User U) * option (bool * bool) :=
  (us, (fun u => (us_is_active u, us_totp_enabled u)) <$>
       head (filter (fun u => us_id u = id /\ us_deleted_at u = None) us)).

Definition is_revoked (token : string) : io W AppError bool :=
  v ← get net clock Unauthorized (blacklist_key token); mret (bool_decide (is_Some v)).

Definition require_session (bearer path : string) : io W AppError (Claims U) :=
  t ← now clock;
  claims ← lift (ok_or (verify_token bearer (t / 1000)) Unauthorized);
  if negb (String.eqb (cl_token_type claims) "access") then throw Unauthorized
  else
    revoked ← is_revoked bearer;
    if revoked : bool then throw Unauthorized
    else
      pw_epoch ← get net clock Unauthorized (epoch_key (cl_sub claims));
      if before_epoch claims pw_epoch then throw Unauthorized
      else
        row ← database net (user_row (cl_sub claims));
        match row with
        | Some (true, totp_enabled) =>
            if negb totp_enabled && negb (bool_decide (path ∈ TOTP_ENROLLMENT_PATHS)) && sd_totp_required D
            then throw TotpEnrollmentRequired
            else mret claims
        | _ => throw Unauthorized
        end.

(** [find_active] and [set_own_password]. *)
Definition find_active (id : U) (us : list (User U)) : list (User U) * option (User U) :=
  (us, head (filter (fun u => us_id u = id /\ us_is_active u = true /\ us_deleted_at u = None) us)).

Definition set_password (hash : string) (at_ms : Z) (u : User U) : User U :=
  {| us_id := us_id u; us_email := us_email u; us_display_name := us_display_name u;
     us_password_hash := Some hash; us_oidc_subject := us_oidc_subject u;
     us_oidc_issuer := us_oidc_issuer u; us_avatar_url := us_avatar_url u;
     us_is_active := us_is_active u; us_totp_secret := us_totp_secret u;
     us_totp_enabled := us_totp_enabled u; us_totp_recovery_codes := us_totp_recovery_codes u;
     us_password_change_required := false; us_created_at := us_created_at u; us_updated_at := at_ms;
     us_deleted_at := us_deleted_at u |}.
Definition set_own_password (id : U) (hash : string) (at_ms : Z) (us : list (User U)) : list (User U) * unit :=
  ((fun u => if decide (us_id u = id) then set_password hash at_ms u else u) <$> us, tt).

Definition pwchange_fail_key (id : U) : string := "pwchange_fails:" +:+ uuid_str id.
Definition pwchange_locked_key (id : U) : string := "pwchange_locked:" +:+ uuid_str id.

(** The signed-in user, as the middleware left them. *)
Record AuthUser := {
  au_claims : Claims U;
  au_ip : option string;
  au_user_agent : option string;
  au_permissions : list string;
  au_denied_permissions : list string;
}.
Definition AuthUser_audit (a : AuthUser) (action : string) : AuditEntry :=
  AnonymousActor_audit {| an_ip := au_ip a; an_user_agent := au_user_agent a;
                          an_user_email := Some (cl_email (au_claims a));
                          an_user_id := Some (cl_sub (au_claims a)) |} action.

(** The sleep of 1.1 s takes the new session into a second after the epoch's. *)
Definition change_password (auth_user : AuthUser) (old_password new_password : string)
    : io W AppError (AuthSession U) :=
  _ ← lift (validate_password new_password);
  found ← database net (find_active (cl_sub (au_claims auth_user)));
  user ← lift (ok_or found Unauthorized);
  current_hash ← lift (ok_or (us_password_hash user) (BadRequest "This account uses SSO login"));
  locked ← is_locked net clock (pwchange_locked_key (us_id user));
  if locked : bool then throw Unauthorized
  else
    matches ← lift (sd_verify_password D old_password current_hash);
    if negb matches then
      _ ← fail_ladder net clock (pwchange_fail_key (us_id user)) (pwchange_locked_key (us_id user)) 0;
      throw Unauthorized
    else
      _ ← clear net clock [pwchange_fail_key (us_id user); pwchange_locked_key (us_id user)];
      new_hash ← lift (sd_hash_password D new_password);
      t ← now clock;
      _ ← database net (set_own_password (us_id user) new_hash t);
      _ ← del net clock ("signing_pubkey:" +:+ uuid_str (us_id user));
      _ ← del net clock (temp_password_marker_key (us_id user));
      _ ← invalidate_refresh_tokens (us_id user) (ld_refresh_ttl_days (sd_login D));
      _ ← log_audit (with_resource "auth" LogAudit (AuthUser_audit auth_user "auth.password_changed"));
      _ ← sleep;
      _ ← clear_signing_key_slot net clock (us_id user);
      issue_auth_session (sd_login D) net clock (us_id user) (us_email user).

Definition user_revoked_key (id : U) : string := "dashboard_user_revoked:" +:+ uuid_str id.

Definition revoke_sessions (auth_user : AuthUser) : io W AppError unit :=
  let user_id := cl_sub (au_claims auth_user) in
  _ ← del net clock ("signing_pubkey:" +:+ uuid_str user_id);
  _ ← invalidate_refresh_tokens user_id (ld_refresh_ttl_days (sd_login D));
  _ ← ignore (set_ex net clock Unauthorized (user_revoked_key user_id) "1" 300);
  log_audit (with_resource "auth" LogAudit (AuthUser_audit auth_user "auth.sessions_revoked")).
End Sessions.
#[global] Arguments AuthUser : clear implicits.
