(* ===== verification/SessionSpec.v ===== *)
(** * What sessions guarantee

    Theorems about [Sessions]: a refresh token is good once before it expires, and a revocation
    holds; with the two ways around them that the code leaves open, at the end. *)
From Stdlib Require Import Ascii.
From S2P Require Import Prelude Interfaces Sliding Effects GatewayDeps Text AuditRow ExpiringKeys Validation Lockout Login LoginSpec Sessions.

(** Everything a console session can make the server do to the keys. *)
Inductive session_op (U : Type) :=
  | OpLogin (ip : string) (user_agent : option string) (req : LoginRequest)
  | OpRefresh (cookie : option string) (body : result AppError (option string))
  | OpLogout (user_id : U) (cookie : option string)
  | OpRequest (bearer path : string)
  | OpChangePassword (user : AuthUser U) (old_password new_password : string)
  | OpRevoke (user : AuthUser U).
#[global] Arguments OpLogin {U}. #[global] Arguments OpRefresh {U}. #[global] Arguments OpLogout {U}.
#[global] Arguments OpRequest {U}. #[global] Arguments OpChangePassword {U}. #[global] Arguments OpRevoke {U}.

Ltac frame := frame_with ltac:(fail).

Section Spec.
Context {St U : Type} `{Uuid U} `{ExpiringKeysLaws St}.
Context (D : session_deps U) (net : nat -> link) (clock : nat -> Z).
Context (clock_mono : forall n m, (n <= m)%nat -> clock n <= clock m).
Abbreviation W := (auth_world St U).
Implicit Types w : W.

Definition perform (o : session_op U) : io W AppError unit :=
  match o with
  | OpLogin ip ua req => ignore (login (sd_login D) net clock (Some ip) ua (Ok req))
  | OpRefresh cookie body => ignore (refresh D net clock cookie body)
  | OpLogout id cookie => logout D net clock id cookie
  | OpRequest bearer path => ignore (require_session D net clock bearer path)
  | OpChangePassword user old new => ignore (change_password D net clock user old new)
  | OpRevoke user => revoke_sessions D net clock user
  end.

Fixpoint perform_all (os : list (session_op U)) (w : W) : W :=
  match os with [] => w | o :: os => perform_all os (perform o w).1 end.

(** ** Invariants of one key *)

Definition untouched (k : string) (w w1 : W) : Prop :=
  (aw_calls w <= aw_calls w1)%nat /\
  forall t, clock (aw_calls w1) <= t -> peek t k (aw_keys w1) = peek t k (aw_keys w).

(** [I] is about the key [k] and the time: whatever leaves [k] as it was keeps it. *)
Definition about_key (k : string) (I : W -> Prop) : Prop :=
  forall w w1, untouched k w w1 -> I w -> I w1.

Abbreviation leaves k := (frames (St := St) (U := U) clock (fun k' => k' = k)).

Lemma preserves_leaves {A} k I (p : io W AppError A) : about_key k I -> leaves k p -> preserves I p.
Proof.
  intros HI Hp w. apply HI. destruct (Hp w) as (Hc & _ & Hk). split; [done|]. intros t. by apply Hk.
Qed.

Lemma preserves_database {A} k I (q : list (User U) -> list (User U) * A) :
  about_key k I -> preserves I (database net q).
Proof.
  intros HI w. apply HI. unfold database.
  destruct (net (aw_calls w)); [destruct (q _)|..]; (split; [simpl; lia|done]).
Qed.

Lemma preserves_pure {A} I (p : io W AppError A) : (forall w, (p w).1 = w) -> preserves I p.
Proof. intros Hp w. by rewrite Hp. Qed.

Lemma preserves_ignore {A} I (p : io W AppError A) : preserves I p -> preserves I (ignore p).
Proof. intros Hp w. apply Hp. Qed.

Lemma preserves_attempt {A} I (p : io W AppError A) : preserves I p -> preserves I (attempt p).
Proof. intros Hp w Hw. specialize (Hp w Hw). unfold attempt. by destruct (p w). Qed.

Lemma preserves_sleep k I : about_key k I -> preserves I sleep.
Proof. intros HI w. apply HI. split; [simpl; lia|done]. Qed.

Lemma preserves_perform_all I os w : (forall o, preserves I (perform o)) -> I w -> I (perform_all os w).
Proof. intros Hp. revert w. induction os as [|o os IH]; intros w Hw; [done|]. by apply IH, Hp. Qed.

(** A login writes none of the keys of sessions. *)
Lemma leaves_login k ip ua req :
  (forall e, ~ login_writes (U := U) (sd_login D) ip e k) -> (forall id, k <> POW_CHALLENGE_PREFIX +:+ id) ->
  leaves k (login (sd_login D) net clock (Some ip) ua (Ok req)).
Proof.
  intros Hk Hp. change (leaves k (login_request (sd_login D) net clock ip ua req)). unfold login_request.
  destruct (_ <? _)%nat; [by apply frames_pure|]. cbv zeta.
  apply frames_bind; [exact clock_mono|by apply frames_pure|]. intros [].
  apply frames_bind; [exact clock_mono|apply frames_verify_pow; [done|intros id Hid; by apply (Hp id)]|].
  intros []. apply frames_login_checked; [done|]. intros k' Hw ->. by eapply Hk.
Qed.

(** A handler part by part, each part kept by a hypothesis about its kind. *)
Ltac keep_parts := repeat match goal with
  | |- preserves _ (mbind _ _) => apply preserves_bind; [|intros]
  | |- preserves _ (let _ := _ in _) => cbv zeta
  | |- preserves _ (match ?x with _ => _ end) => destruct x
  | |- preserves _ (ignore _) => apply preserves_ignore
  | |- preserves _ (attempt _) => apply preserves_attempt
  | |- preserves _ _ => solve [eauto | by apply preserves_pure | by eapply preserves_sleep]
  end.

Definition user_keys (id : U) : list string :=
  [pwchange_fail_key id; pwchange_locked_key id; temp_password_marker_key id; user_revoked_key id;
   "signing_pubkey:" +:+ uuid_str id; "signing_key_ip:" +:+ uuid_str id].

(** The keys the operations write besides the two below. *)
Definition other_keys (k : string) : Prop :=
  (exists ip e, login_writes (U := U) (sd_login D) ip e k) \/ (exists id, k = POW_CHALLENGE_PREFIX +:+ id) \/
  exists id : U, k ∈ user_keys id.

(** An invariant of a key none of those is kept by every operation if claims and revocations
    keep it. *)
Lemma preserves_perform k I o :
  about_key k I -> ~ other_keys k ->
  (forall fail tok exp, preserves I (claim net clock fail (sd_sha256_hex D) tok exp)) ->
  (forall id, preserves I (invalidate_refresh_tokens net clock id (ld_refresh_ttl_days (sd_login D)))) ->
  preserves I (perform o).
Proof.
  intros HI Hk Hclaim Hrevoke.
  assert (Hleaves : forall A (p : io W AppError A), leaves k p -> preserves I p) by (intros; by eapply preserves_leaves).
  assert (Hq : forall A (q : list (User U) -> list (User U) * A), preserves I (database net q)).
  { intros. by eapply preserves_database. }
  assert (Hissue : forall id e, preserves I (issue_auth_session (sd_login D) net clock id e)).
  { intros. apply Hleaves. unfold issue_auth_session. frame. }
  assert (Hk2 : forall id k', k' ∈ user_keys id -> ~ k' = k).
  { intros id k' Hk' ->. apply Hk. right. right. by exists id. }
  assert (Hdel : forall id key, key ∈ user_keys id -> preserves I (del net clock key)).
  { intros id key Hkey. apply Hleaves. frame. by eapply Hk2. }
  assert (Hset : forall id fail key v secs, key ∈ user_keys id -> 0 < secs -> preserves I (set_ex net clock fail key v secs)).
  { intros id fail key v secs Hkey Hs. apply Hleaves. frame; [done|by eapply Hk2]. }
  assert (Hincr : forall id fail key secs, key ∈ user_keys id -> 0 < secs -> preserves I (incr net clock fail key secs)).
  { intros id fail key secs Hkey Hs. apply Hleaves, frames_incr; [done|done|by eapply Hk2]. }
  assert (Hget : forall fail key, preserves I (get net clock fail key)) by (intros; apply Hleaves; frame).
  assert (Hlog : forall row, preserves I (log_audit row)) by (intros; apply Hleaves; frame).
  assert (Hladder : forall id n, preserves I (fail_ladder net clock (pwchange_fail_key id) (pwchange_locked_key id) n)).
  { intros id n. unfold fail_ladder. apply preserves_bind; [eapply Hincr; [in_list|done]|]. intros fails.
    destruct (ladder_secs _) as [secs|] eqn:E; [|by apply preserves_pure].
    apply ladder_secs_bounds in E. eapply Hset; [in_list|lia]. }
  destruct o as [ip ua req|cookie body|id cookie|bearer path|user old new|user]; cbn [perform].
  - apply preserves_ignore, Hleaves. apply leaves_login.
    + intros e He. apply Hk. left. by exists ip, e.
    + intros id ->. apply Hk. right. left. by exists id.
  - unfold refresh, or_unauthorized. by keep_parts.
  - unfold logout. keep_parts; eapply Hdel; in_list.
  - unfold require_session, is_revoked. by keep_parts.
  - unfold change_password, is_locked, clear_signing_key_slot.
    cbn [clear]. keep_parts; first [apply Hladder | eapply Hdel; in_list].
  - unfold revoke_sessions. keep_parts; [eapply Hdel; in_list|eapply Hset; [in_list|done]].
Qed.

(** ** Refusals

    [refuses I d p]: where [I] holds, [p] answers 401 if it is through by [d]. *)
Definition refuses {A} (I : W -> Prop) (d : Z) (p : io W AppError A) : Prop :=
  forall w, I w -> clock (aw_calls (p w).1) < d -> (p w).2 = Err Unauthorized.

(** A step on the way that keeps [I] and fails only with 401. *)
Definition gate {A} (I : W -> Prop) (p : io W AppError A) : Prop :=
  preserves I p /\ forall w e, (p w).2 = Err e -> e = Unauthorized.

Lemma frames_calls {A} (p : io W AppError A) : frames clock (fun _ => False) p ->
  forall w, (aw_calls w <= aw_calls (p w).1)%nat.
Proof. intros Hp w. apply Hp. Qed.

Lemma refuses_throw {A} I d : refuses I d (throw Unauthorized : io W AppError A).
Proof. done. Qed.

Lemma refuses_bind {A B} I d (p : io W AppError A) (f : A -> io W AppError B) :
  gate I p -> (forall a w w', p w = (w', Ok a) -> refuses I d (f a)) -> refuses I d (p ≫= f).
Proof.
  intros [Hp He] Hf w Hw Hd. rewrite io_bind_run in *. specialize (Hp w Hw). specialize (He w).
  destruct (p w) as [w1 [a|e]] eqn:E; cbn [fst snd] in *; [by eapply Hf|]. f_equal. by apply He.
Qed.

Lemma gate_pure {A} I (p : io W AppError A) :
  (forall w, (p w).1 = w /\ forall e, (p w).2 = Err e -> e = Unauthorized) -> gate I p.
Proof. intros Hp. split; [apply preserves_pure|]; intros w; [|intros e]; by apply Hp. Qed.

Lemma gate_ok_or {A} I (o : option A) : gate I (lift (ok_or o Unauthorized)).
Proof. apply gate_pure. intros w. split; [done|]. destruct o; naive_solver. Qed.

Lemma gate_get k I key : about_key k I -> gate I (get net clock Unauthorized key).
Proof.
  intros HI. split; [eapply preserves_leaves; [done|]; frame|]. intros w e. unfold get, redis, run_script.
  destruct (net (aw_calls w)); naive_solver.
Qed.

Lemma gate_database {A} k I (q : list (User U) -> list (User U) * A) :
  about_key k I -> gate I (or_unauthorized (database net q)).
Proof.
  intros HI. split.
  - unfold or_unauthorized. apply preserves_bind; [apply preserves_attempt; by eapply preserves_database|].
    intros []; by apply preserves_pure.
  - intros w e. unfold or_unauthorized. rewrite io_bind_run. unfold attempt, database.
    destruct (net (aw_calls w)); [destruct (q _)|..]; simpl; naive_solver.
Qed.

(** ** A used refresh token *)

Definition used_key (token : string) : string := key_for (sd_sha256_hex D) token.

(** Claimed until [d]. *)
Definition used_until (token : string) (d : Z) (w : W) : Prop :=
  forall t, clock (aw_calls w) <= t < d -> is_Some (peek t (used_key token) (aw_keys w)).

Lemma used_about_key token d : about_key (used_key token) (used_until token d).
Proof.
  intros w w1 [Hc Hk] Hu t Ht. rewrite Hk by lia. apply Hu.
  pose proof (clock_mono _ _ Hc). lia.
Qed.

Lemma frames_claim P fail tok exp : ~ P (key_for (sd_sha256_hex D) tok) ->
  frames (St := St) (U := U) clock P (claim net clock fail (sd_sha256_hex D) tok exp).
Proof.
  intros HP. apply (frames_set_nx net clock clock_mono _ _ _ _ (fun t => remaining_secs exp (t / 1000))
    (fun fresh => if fresh : bool then Claimed else AlreadyClaimed)); [unfold remaining_secs; lia|done].
Qed.

(** Claiming writes a key only where there is none. *)
Lemma preserves_claim token d fail tok exp :
  preserves (used_until token d) (claim net clock fail (sd_sha256_hex D) tok exp).
Proof.
  destruct (decide (key_for (sd_sha256_hex D) tok = used_key token)) as [E|Hne].
  - intros w Hw. unfold claim, redis, run_script.
    pose proof (clock_mono (aw_calls w) (S (aw_calls w)) ltac:(lia)).
    assert (Hset : forall s fresh, xset_nx (clock (aw_calls w)) (key_for (sd_sha256_hex D) tok) "1"
                     (remaining_secs exp (clock (aw_calls w) / 1000)) (aw_keys w) = (s, fresh) ->
                   used_until token d (with_keys s (S (aw_calls w)) w)).
    { intros s fresh. rewrite xset_nx_spec by (unfold remaining_secs; lia). rewrite E.
      destruct (peek (clock (aw_calls w)) (used_key token) (aw_keys w)) eqn:Hp; intros [= <- <-] t Ht;
        cbn [aw_calls aw_keys with_keys] in *.
      - apply Hw. lia.
      - destruct (Hw (clock (aw_calls w))) as [x Hx]; [lia|congruence]. }
    destruct (net (aw_calls w)); cbn [fst].
    + destruct (xset_nx _ _ _ _ _) as [s fresh] eqn:Hx. by eapply Hset.
    + apply (used_about_key _ _ w); [|done]. split; [simpl; lia|done].
    + destruct (xset_nx _ _ _ _ _) as [s fresh] eqn:Hx. by eapply Hset.
  - eapply preserves_leaves; [apply used_about_key|].
    by apply frames_claim.
Qed.


(** None of the other keys has this prefix. *)
Ltac own_prefix :=
  let Hk := fresh "Hk" in
  intros [(? & ? & [Hk|[? Hk]])|[[? Hk]|[? Hk]]];
  repeat (apply elem_of_cons in Hk as [Hk|Hk]; [by revert Hk; key_ne|]);
  first [by apply elem_of_nil in Hk | revert Hk; key_ne].

Lemma used_key_other token : ~ other_keys (used_key token).
Proof. own_prefix. Qed.

Lemma epoch_key_other id : ~ other_keys (epoch_key id).
Proof. own_prefix. Qed.

Lemma preserves_used token d o :
  0 < ld_refresh_ttl_days (sd_login D) -> preserves (used_until token d) (perform o).
Proof.
  intros Httl. apply preserves_perform with (k := used_key token); [apply used_about_key|apply used_key_other| |].
  - intros. apply preserves_claim.
  - intros id. unfold invalidate_refresh_tokens. cbv zeta. pose proof (used_about_key token d).
    keep_parts; (eapply preserves_leaves; [done|]); frame; first [lia | unfold epoch_key, used_key, key_for; key_ne].
Qed.

(** The token was refreshed with, or logged out with before any other use of it: its claim
    reached the server. *)
Definition spends (token : string) (c : Claims U) (w w1 : W) : Prop :=
  (exists body s, refresh D net clock (Some token) body w = (w1, Ok s)) \/
  (exists id, logout D net clock id (Some token) w = (w1, Ok tt) /\
     let n := S (aw_calls w) in
     clock n / 1000 <= cl_exp c + leeway D /\ cl_token_type c = "refresh" /\ net n <> LinkDown /\
     peek (clock n) (used_key token) (aw_keys w) = None).

(** A claim that went through uses the token up until it expires. *)
Lemma claim_uses token fail exp w :
  net (aw_calls w) <> LinkDown -> peek (clock (aw_calls w)) (used_key token) (aw_keys w) = None ->
  used_until token (1000 * exp) (claim net clock fail (sd_sha256_hex D) token exp w).1.
Proof.
  intros Hnet Hnone t. unfold claim, redis, run_script.
  rewrite xset_nx_spec by (unfold remaining_secs; lia). unfold used_key in Hnone. rewrite Hnone.
  set (n := aw_calls w) in *. pose proof (clock_mono n (S n) ltac:(lia)).
  destruct (net n); [|done|]; cbn [fst aw_calls aw_keys with_keys]; intros Ht;
    (rewrite peek_xset by (unfold remaining_secs; lia)); rewrite decide_True by done; simpl;
    unfold remaining_secs in *; pose proof (Z.mod_pos_bound (clock n) 1000); pose proof (Z.div_mod (clock n) 1000);
    (rewrite (proj2 (Z.ltb_lt _ _)) by lia); eauto.
Qed.

Lemma claim_Claimed token fail exp w w1 :
  claim net clock fail (sd_sha256_hex D) token exp w = (w1, Ok Claimed) ->
  net (aw_calls w) <> LinkDown /\ peek (clock (aw_calls w)) (used_key token) (aw_keys w) = None.
Proof.
  unfold claim. intros (Hnet & s & Hs & _)%redis_Ok. split; [congruence|].
  rewrite xset_nx_spec in Hs by (unfold remaining_secs; lia). unfold used_key. by destruct (peek _ _ _).
Qed.

Lemma refuses_claim {A} token d exp (p : io W AppError A) :
  (forall w, (aw_calls w <= aw_calls (p w).1)%nat) ->
  refuses (used_until token d) d
    (outcome ← claim net clock Unauthorized (sd_sha256_hex D) token exp;
     match outcome with AlreadyClaimed => throw Unauthorized | Claimed => p end).
Proof.
  intros Hmono w Hw Hd. rewrite io_bind_run in *.
  destruct (claim _ _ _ _ _ _ w) as [w1 [[|]|e]] eqn:E; cbn [fst snd] in *; [|done|].
  - exfalso. pose proof (claim_Claimed _ _ _ _ _ E) as [_ Hnone].
    apply redis_Ok in E as (_ & s & _ & ->). specialize (Hmono (with_keys s (S (aw_calls w)) w)).
    destruct (Hw (clock (aw_calls w))) as [x Hx]; [|congruence]. split; [lia|].
    eapply Z.le_lt_trans; [|exact Hd]. apply clock_mono. cbn [aw_calls with_keys] in Hmono. lia.
  - unfold claim, redis in E. destruct (run_script _ _ _) as [s [|]]; naive_solver.
Qed.

Lemma refuses_used token d body : refuses (used_until token d) d (refresh D net clock (Some token) body).
Proof.
  unfold refresh. apply refuses_bind; [apply gate_pure; naive_solver|]. intros t w w' [_ [= <-]]%lift_Ok.
  apply refuses_bind; [by apply gate_pure|]. intros now w1 w1' _.
  apply refuses_bind; [apply gate_ok_or|]. intros c _ _ _.
  destruct (negb _); [apply refuses_throw|].
  apply refuses_bind; [apply gate_get with (k := used_key token), used_about_key|]. intros pw_epoch _ _ _.
  destruct (before_epoch _ _); [apply refuses_throw|].
  apply refuses_bind; [apply gate_database with (k := used_key token), used_about_key|]. intros active _ _ _.
  destruct (negb _); [apply refuses_throw|]. apply refuses_claim, frames_calls.
  unfold issue_auth_session. frame.
Qed.

Lemma verify_token_Some token t c : verify_token D token t = Some c <->
  sd_decode D token = Some c /\ t <= cl_exp c + leeway D.
Proof.
  unfold verify_token. destruct (sd_decode D token) as [c'|]; simpl; [|naive_solver].
  split; [intros; cases; naive_solver|]. intros [[= ->] Ht]. by rewrite (proj2 (Z.leb_le _ _) Ht).
Qed.

(** After a use that reached the server, the token is claimed until it expires. *)
Lemma spends_uses token c w w1 :
  sd_decode D token = Some c -> spends token c w w1 -> used_until token (1000 * cl_exp c) w1.
Proof.
  intros Hc [(body & s & Hr)|(id & Hr & Ht & Htype & Hnet & Hnone)].
  - unfold refresh in Hr. apply io_bind_Ok in Hr as (w2 & tok & [_ [= <-]]%lift_Ok & Hr).
    apply io_bind_Ok in Hr as (w3 & t & _ & Hr). apply io_bind_Ok in Hr as (w4 & c' & [_ Hv]%lift_Ok & Hr).
    apply ok_or_Ok in Hv. apply verify_token_Some in Hv as [Hv _]. assert (c' = c) as -> by congruence.
    destruct (negb _); [done|]. apply io_bind_Ok in Hr as (w5 & epoch & _ & Hr).
    destruct (before_epoch _ _); [done|]. apply io_bind_Ok in Hr as (w6 & active & _ & Hr).
    destruct (negb _); [done|]. apply io_bind_Ok in Hr as (w7 & [|] & Hclaim & Hr); [|done].
    destruct (claim_Claimed _ _ _ _ _ Hclaim) as [Hnet Hnone].
    pose proof (claim_uses token Unauthorized (cl_exp c) w6 Hnet Hnone) as Hused. rewrite Hclaim in Hused.
    assert (Hp : preserves (used_until token (1000 * cl_exp c))
                   (issue_auth_session (sd_login D) net clock (cl_sub c) (cl_email c))).
    { eapply preserves_leaves; [apply used_about_key|]. unfold issue_auth_session. frame. }
    specialize (Hp w7 Hused). by rewrite Hr in Hp.
  - unfold logout in Hr. rewrite io_bind_run in Hr.
    assert (Hdel : leaves (used_key token) (del net clock ("signing_pubkey:" +:+ uuid_str id))).
    { frame. unfold used_key, key_for. key_ne. }
    destruct (Hdel w) as (_ & _ & Hk).
    assert (Hcalls : aw_calls (del net clock ("signing_pubkey:" +:+ uuid_str id) w).1 = S (aw_calls w)).
    { unfold del, ignore, redis. by destruct (run_script _ _ _). }
    destruct (del _ _ _ w) as [w2 [[]|e]] eqn:Edel; [|done]. cbn [fst snd] in *.
    rewrite io_bind_run in Hr. cbn [now fst snd] in Hr. rewrite Hcalls in *.
    rewrite (proj2 (verify_token_Some _ _ c)) in Hr by done. rewrite (proj2 (String.eqb_eq _ _) Htype) in Hr.
    injection Hr as <-. apply claim_uses; rewrite Hcalls; [done|]. by rewrite Hk.
Qed.

(** C36: A refresh token works once: after a refresh with it that succeeded, or a logout that
    claimed it, whatever else the server does meanwhile and however its calls go, every refresh
    with it that is through before the token expires is refused with 401. *)
Theorem refresh_single_use token c w w1 os body :
  0 < ld_refresh_ttl_days (sd_login D) -> sd_decode D token = Some c -> spends token c w w1 ->
  let again := refresh D net clock (Some token) body (perform_all os w1) in
  clock (aw_calls again.1) < 1000 * cl_exp c -> again.2 = Err Unauthorized.
Proof.
  intros Httl Hc Hs again Hd. apply (refuses_used token (1000 * cl_exp c)); [|exact Hd].
  apply preserves_perform_all; [intros o; by apply preserves_used|]. by eapply spends_uses.
Qed.

(** ** A revocation *)

Definition ttl_ms : Z := 86400000 * ld_refresh_ttl_days (sd_login D).

(** Tokens of [id] issued at [e] or before are revoked until [d]. *)
Definition revoked_until (id : U) (e d : Z) (w : W) : Prop :=
  e <= clock (aw_calls w) / 1000 /\ d <= clock (aw_calls w) + ttl_ms /\
  forall t, clock (aw_calls w) <= t < d ->
    exists e' m, peek t (epoch_key id) (aw_keys w) = Some (dec_of_Z e', m) /\ e <= e' /\ 0 <= e' <= i64_max.

Lemma revoked_about_key id e d : about_key (epoch_key id) (revoked_until id e d).
Proof.
  intros w w1 [Hc Hk] (He & Hd & Hw). pose proof (clock_mono _ _ Hc). split; [|split; [lia|]].
  - etransitivity; [exact He|]. by apply Z.div_le_mono.
  - intros t Ht. rewrite Hk by lia. apply Hw. lia.
Qed.

Context (Httl : 0 < ld_refresh_ttl_days (sd_login D)).
Context (Hclock : forall n, 0 <= clock n <= i64_max).

(** Storing the moment: it revokes from then on, and only lifts what was revoked before. *)
Definition store_epoch (id : U) : io W AppError (result AppError unit) :=
  t ← now clock;
  attempt (set_ex net clock Unauthorized (epoch_key id) (dec_of_Z (t / 1000))
             (ld_refresh_ttl_days (sd_login D) * 86400)).

Lemma store_epoch_run id w : net (aw_calls w) <> LinkDown ->
  revoked_until id (clock (aw_calls w) / 1000) (clock (aw_calls w) + ttl_ms) (store_epoch id w).1.
Proof.
  intros Hnet. unfold store_epoch. rewrite io_bind_run. cbn [now fst snd]. unfold attempt, set_ex, redis, run_script.
  set (n := aw_calls w) in *. pose proof (clock_mono n (S n) ltac:(lia)). pose proof (Hclock n).
  destruct (net n); [|done|]; cbn [fst aw_calls aw_keys with_keys];
    (split; [by apply Z.div_le_mono|]; split; [cbn [aw_calls with_keys]; lia|]);
    cbn [aw_calls aw_keys with_keys]; intros t Ht; rewrite peek_xset by lia; rewrite decide_True by done;
    exists (clock n / 1000); eexists; simpl; unfold ttl_ms in *; rewrite (proj2 (Z.ltb_lt _ _)) by lia;
    (split; [done|]; split; [done|]); pose proof (Z.div_pos (clock n) 1000); pose proof (Z.div_le_upper_bound (clock n) 1000 i64_max); lia.
Qed.

Lemma revoked_weaken id id' e e' d d' w : epoch_key id = epoch_key id' -> e <= e' -> d <= d' ->
  revoked_until id' e' d' w -> revoked_until id e d w.
Proof.
  intros Hid He Hd (He' & Hd' & Hw). split; [lia|]. split; [lia|]. intros t Ht. rewrite Hid.
  destruct (Hw t) as (x & m & Hp & Hx & Hb); [lia|]. exists x, m. split; [done|]. split; [lia|done].
Qed.

Lemma preserves_store id e d id' : preserves (revoked_until id e d) (store_epoch id').
Proof.
  destruct (decide (epoch_key id = epoch_key id')) as [Hid|Hne].
  - intros w Hw. destruct (decide (net (aw_calls w) = LinkDown)) as [Hnet|Hnet].
    + apply (revoked_about_key id e d w); [|done]. unfold store_epoch. rewrite io_bind_run.
      cbn [now fst snd]. unfold attempt, set_ex, redis. rewrite Hnet. split; [simpl; lia|done].
    + eapply revoked_weaken; [exact Hid| | |by apply store_epoch_run]; apply Hw.
  - eapply preserves_leaves; [apply revoked_about_key|]. unfold store_epoch. frame; [lia|congruence].
Qed.

Lemma preserves_revoke id e d id' : preserves (revoked_until id e d)
  (invalidate_refresh_tokens net clock id' (ld_refresh_ttl_days (sd_login D))).
Proof.
  pose proof (revoked_about_key id e d). pose proof (preserves_store id e d id').
  unfold invalidate_refresh_tokens. fold (store_epoch id'). by keep_parts.
Qed.

Lemma preserves_revoked id e d o : preserves (revoked_until id e d) (perform o).
Proof.
  apply preserves_perform with (k := epoch_key id); [apply revoked_about_key|apply epoch_key_other| |].
  - intros fail tok exp. eapply preserves_leaves; [apply revoked_about_key|].
    apply frames_claim. unfold key_for, epoch_key. key_ne.
  - intros id'. apply preserves_revoke.
Qed.

(** A revocation revokes from its first attempt to store the moment, if that reached the server. *)
Lemma invalidate_revokes id w : net (aw_calls w) <> LinkDown ->
  revoked_until id (clock (aw_calls w) / 1000) (clock (aw_calls w) + ttl_ms)
    (invalidate_refresh_tokens net clock id (ld_refresh_ttl_days (sd_login D)) w).1.
Proof.
  intros Hnet. pose proof (store_epoch_run id w Hnet) as Hw. unfold invalidate_refresh_tokens.
  fold (store_epoch id). rewrite io_bind_run. revert Hw. generalize (clock (aw_calls w) / 1000) (clock (aw_calls w) + ttl_ms).
  intros e d Hw. destruct (store_epoch id w) as [w1 [[|err]|err]]; cbn [fst snd] in *; [done| |done].
  revert w1 Hw. pose proof (revoked_about_key id e d). pose proof (preserves_store id e d id).
  change (preserves (revoked_until id e d) (_ ← sleep; _ ← store_epoch id; (mret tt : io W AppError unit))). by keep_parts.
Qed.

Lemma del_run key w : exists s, del net clock key w = (with_keys s (S (aw_calls w)) w, Ok tt).
Proof. unfold del, ignore, redis. destruct (run_script _ _ _) as [s r]. by exists s. Qed.

Lemma revoke_revokes user w (n := S (aw_calls w)) : net n <> LinkDown ->
  revoked_until (cl_sub (au_claims user)) (clock n / 1000) (clock n + ttl_ms)
    (revoke_sessions D net clock user w).1.
Proof.
  intros Hnet. unfold revoke_sessions. cbv zeta. rewrite io_bind_run.
  destruct (del_run ("signing_pubkey:" +:+ uuid_str (cl_sub (au_claims user))) w) as [s ->]. cbn [fst snd].
  rewrite io_bind_run. set (id := cl_sub (au_claims user)) in *.
  pose proof (invalidate_revokes id (with_keys s n w) Hnet) as Hw. cbn [aw_calls with_keys] in Hw.
  revert Hw. generalize (clock n / 1000) (clock n + ttl_ms). intros e d.
  destruct (invalidate_refresh_tokens _ _ _ _ _) as [w1 [[]|err]]; cbn [fst snd]; intros Hw; [|done].
  revert w1 Hw. change (preserves (revoked_until id e d)
    (_ ← ignore (set_ex net clock Unauthorized (user_revoked_key id) "1" 300);
     log_audit (with_resource "auth" LogAudit (AuthUser_audit user "auth.sessions_revoked")))).
  eapply preserves_leaves; [apply revoked_about_key|]. frame; [done|unfold user_revoked_key, epoch_key; key_ne].
Qed.

Lemma before_epoch_revoked (c : Claims U) epoch : cl_iat c <= epoch -> 0 <= epoch <= i64_max ->
  before_epoch c (Some (dec_of_Z epoch)) = true.
Proof. intros. unfold before_epoch. simpl. rewrite parse_i64_dec by done. simpl. lia. Qed.

(** The epoch is read before anything is granted. *)
Lemma refuses_epoch {A} id e d (c : Claims U) (p : io W AppError A) : cl_sub c = id -> cl_iat c <= e ->
  (forall w, (aw_calls w <= aw_calls (p w).1)%nat) ->
  refuses (revoked_until id e d) d
    (pw_epoch ← get net clock Unauthorized (epoch_key (cl_sub c));
     if before_epoch c pw_epoch then throw Unauthorized else p).
Proof.
  intros Hid He Hmono w (_ & _ & Hw) Hd. rewrite io_bind_run in *.
  destruct (get _ _ _ _ w) as [w1 [o|err]] eqn:E; cbn [fst snd] in *.
  - apply redis_Ok in E as (_ & s & [= <- <-] & ->).
    destruct (Hw (clock (aw_calls w))) as (x & m & Hp & Hx & Hb).
    { split; [lia|]. eapply Z.le_lt_trans; [|exact Hd]. apply clock_mono.
      destruct (before_epoch _ _); cbn [throw fst aw_calls with_keys]; [lia|].
      specialize (Hmono (with_keys (aw_keys w) (S (aw_calls w)) w)). cbn [aw_calls with_keys] in Hmono. lia. }
    rewrite Hid, Hp. cbn [fmap option_fmap option_map fst]. rewrite before_epoch_revoked by (done || lia). done.
  - unfold get, redis in E. destruct (run_script _ _ _) as [s [|]]; naive_solver.
Qed.

Lemma refuses_refresh id e d token c body : sd_decode D token = Some c -> cl_sub c = id -> cl_iat c <= e ->
  refuses (revoked_until id e d) d (refresh D net clock (Some token) body).
Proof.
  intros Hc Hid He. unfold refresh. apply refuses_bind; [apply gate_pure; naive_solver|].
  intros t w w' [_ [= <-]]%lift_Ok. apply refuses_bind; [by apply gate_pure|]. intros now w1 w1' _.
  apply refuses_bind; [apply gate_ok_or|]. intros c' w2 w2' [_ Hv]%lift_Ok.
  apply ok_or_Ok, verify_token_Some in Hv as [Hv _]. assert (c' = c) as -> by congruence.
  destruct (negb _); [apply refuses_throw|]. apply refuses_epoch; [done|done|]. apply frames_calls.
  unfold or_unauthorized, issue_auth_session. frame.
  apply frames_claim. by intros [].
Qed.

Lemma refuses_request id e d token c path : sd_decode D token = Some c -> cl_sub c = id -> cl_iat c <= e ->
  refuses (revoked_until id e d) d (require_session D net clock token path).
Proof.
  intros Hc Hid He. unfold require_session. 
  apply refuses_bind; [by apply gate_pure|]. intros now w1 w1' _.
  apply refuses_bind; [apply gate_ok_or|]. intros c' w2 w2' [_ Hv]%lift_Ok.
  apply ok_or_Ok, verify_token_Some in Hv as [Hv _]. assert (c' = c) as -> by congruence.
  destruct (negb _); [apply refuses_throw|].
  apply refuses_bind.
  { split.
    - eapply preserves_leaves; [apply revoked_about_key|]. unfold is_revoked. frame.
    - intros w e'. unfold is_revoked. rewrite io_bind_run.
      pose proof (proj2 (gate_get _ _ (blacklist_key D token) (revoked_about_key id e d)) w) as Hg.
      destruct (get _ _ _ _ w) as [w3 []]; cbn [fst snd] in *; [done|]. intros [= <-]. by apply Hg. }
  intros [] _ _ _; [apply refuses_throw|].
  apply refuses_epoch; [done|done|]. apply frames_calls. frame.
Qed.

(** C34: A revocation holds: once [revoke_sessions] has reached the server at the millisecond [n],
    every token of the user issued in that second or before is refused with 401, at
    [refresh] and on every request, whatever happens meanwhile and however the calls go, until
    the refresh lifetime configured then has passed. *)
Theorem revoked_stay_out user w token c os (n := S (aw_calls w)) :
  net n <> LinkDown -> sd_decode D token = Some c -> cl_sub c = cl_sub (au_claims user) ->
  cl_iat c <= clock n / 1000 ->
  let w1 := perform_all os (revoke_sessions D net clock user w).1 in
  (forall body, let again := refresh D net clock (Some token) body w1 in
     clock (aw_calls again.1) < clock n + ttl_ms -> again.2 = Err Unauthorized) /\
  (forall path, let req := require_session D net clock token path w1 in
     clock (aw_calls req.1) < clock n + ttl_ms -> req.2 = Err Unauthorized).
Proof.
  intros Hnet Hc Hid Hiat w1.
  assert (Hw : revoked_until (cl_sub c) (clock n / 1000) (clock n + ttl_ms) w1).
  { apply preserves_perform_all; [intros o; apply preserves_revoked|]. rewrite Hid. by apply revoke_revokes. }
  split; intros x r Hd; subst r.
  - apply (refuses_refresh (cl_sub c) (clock n / 1000) (clock n + ttl_ms) token c x); auto.
  - apply (refuses_request (cl_sub c) (clock n / 1000) (clock n + ttl_ms) token c x); auto.
Qed.
End Spec.

(** * Sessions, run

    The theorems of [SessionSpec] on a concrete store, and the two ways around them: a used
    refresh token comes back in the leeway after its expiry, and a revoked one comes back when
    the configured lifetime was lowered after it was issued. *)

(** The refresh token [r] of Alice expires at [exp], [a] is her access token. *)
Definition demo_token (token_type : string) (exp : Z) : Claims demo_uuid :=
  {| cl_sub := UAlice; cl_email := "alice@example.com"; cl_exp := exp; cl_iat := 0; cl_token_type := token_type |}.

Definition demo_sessions (exp : Z) : session_deps demo_uuid := {|
  sd_login := demo_deps;
  sd_decode tok := if decide (tok = "r") then Some (demo_token "refresh" exp)
                   else if decide (tok = "a") then Some (demo_token "access" exp) else None;
  sd_leeway_secs := 10;
  sd_sha256_hex tok := tok;
  sd_hash_password p := Ok p;
  sd_verify_password p h := Ok (String.eqb p h);
  sd_totp_required := false;
|}.

(** [step] milliseconds from one call to the next. *)
Definition steady (step : Z) (n : nat) : Z := step * Z.of_nat n.

Lemma steady_mono step n m : 0 <= step -> (n <= m)%nat -> steady step n <= steady step m.
Proof. unfold steady. nia. Qed.

Definition refresh_r (exp step : Z) (w : demo_world) : demo_world * result AppError (AuthSession demo_uuid) :=
  refresh (demo_sessions exp) demo_net (steady step) (Some "r") (Ok None) w.

Definition revoke_alice (exp step : Z) (w : demo_world) : demo_world :=
  (revoke_sessions (demo_sessions exp) demo_net (steady step)
     {| au_claims := demo_token "access" exp; au_ip := None; au_user_agent := None;
     au_permissions := []; au_denied_permissions := [] |} w).1.

Definition is_ok {A} (r : result AppError A) : bool := match r with Ok _ => true | Err _ => false end.

Lemma is_ok_Ok {A} (r : result AppError A) : is_ok r = true -> exists a, r = Ok a.
Proof. destruct r; naive_solver. Qed.

(** One second a call, a token for an hour: used, and refused the second time. *)
Definition demo_used : demo_world := (refresh_r 3600 1000 (demo_login_world false)).1.

Lemma refresh_single_use_witness :
  is_ok (refresh_r 3600 1000 (demo_login_world false)).2 = true /\
  (refresh_r 3600 1000 (perform_all (demo_sessions 3600) demo_net (steady 1000) [OpRequest "a" "/"] demo_used)).2
    = Err Unauthorized.
Proof.
  split; [vm_compute; reflexivity|].
  apply (refresh_single_use (demo_sessions 3600) demo_net (steady 1000) (fun n m => steady_mono 1000 n m ltac:(lia))
           "r" (demo_token "refresh" 3600) (demo_login_world false)).
  - vm_compute. reflexivity.
  - vm_compute. reflexivity.
  - left. exists (Ok None). unfold demo_used, refresh_r.
    destruct (is_ok_Ok (refresh_r 3600 1000 (demo_login_world false)).2) as [s Hs]; [vm_compute; reflexivity|].
    exists s. rewrite <- Hs. apply surjective_pairing.
  - apply Z.ltb_lt. vm_compute. reflexivity.
Defined.

(** A token used less than a minute before its expiry, at 30 s of 85, is accepted again at 90 s:
    its entry is gone while the leeway still runs. *)
Lemma replay_in_leeway :
  let w1 := refresh_r 85 15000 (demo_login_world false) in
  let w2 := refresh_r 85 15000 w1.1 in
  is_ok w1.2 = true /\ aw_calls w1.1 = 6%nat /\ steady 15000 6 = 90000 /\ is_ok w2.2 = true.
Proof. split_and!; vm_compute; reflexivity. Qed.

(** An hour a call, tokens for thirty days and a lifetime of seven configured: revoked in the
    second hour, and still refused some calls later. *)
Definition hour : Z := 3600000.
Definition month_secs : Z := 30 * 86400.
Definition demo_revoked : demo_world := revoke_alice month_secs hour (demo_login_world false).

Lemma demo_clock_in_range n : (n <= 1000)%nat -> 0 <= steady hour n <= i64_max.
Proof. unfold steady, hour, i64_max. lia. Qed.

(** A clock that stands still in the end. *)
Definition slowing (n : nat) : Z := steady hour (Nat.min n 1000).

Lemma slowing_mono n m : (n <= m)%nat -> slowing n <= slowing m.
Proof. intros. apply steady_mono; [unfold hour; lia|lia]. Qed.

Lemma slowing_range n : 0 <= slowing n <= i64_max.
Proof. apply demo_clock_in_range. lia. Qed.

Definition revoked_user : AuthUser demo_uuid :=
  {| au_claims := demo_token "access" month_secs; au_ip := None; au_user_agent := None;
     au_permissions := []; au_denied_permissions := [] |}.

Lemma revoked_stay_out_witness :
  let D := demo_sessions month_secs in
  let w1 := perform_all D demo_net slowing [OpRequest "a" "/"; OpRefresh (Some "r") (Ok None)]
              (revoke_sessions D demo_net slowing revoked_user (demo_login_world false)).1 in
  is_ok (require_session D demo_net slowing "a" "/" (demo_login_world false)).2 = true /\
  (require_session D demo_net slowing "a" "/" w1).2 = Err Unauthorized.
Proof.
  intros D w1. split; [vm_compute; reflexivity|].
  apply (revoked_stay_out D demo_net slowing slowing_mono ltac:(reflexivity) slowing_range
           revoked_user (demo_login_world false) "a" (demo_token "access" month_secs)
           [OpRequest "a" "/"; OpRefresh (Some "r") (Ok None)]).
  - discriminate.
  - vm_compute. reflexivity.
  - reflexivity.
  - apply Z.leb_le. vm_compute. reflexivity.
  - apply Z.ltb_lt. vm_compute. reflexivity.
Defined.

(** Nine days on, the same refresh token, issued for thirty days before the revocation, makes a
    new session. *)
Lemma revocation_outlived :
  is_ok (refresh_r month_secs hour demo_revoked).2 = false /\
  is_ok (refresh_r month_secs hour (with_keys (aw_keys demo_revoked) 216 demo_revoked)).2 = true.
Proof. split; vm_compute; reflexivity. Qed.
