(* ===== verification/Signature.v ===== *)
(** * Signed requests of the console

    [crates/server/src/middleware/verify_signature.rs] and [register_key] of [handlers/auth.rs]: a
    browser registers a public key after it logged in, bound to its address, and signs every
    request; a nonce is good once.  ECDSA, base64url, SHA-256 and serde's reading of a JWK are
    arguments.  A request is what the middleware reads of it; its time to reach Redis is not
    counted.  Arithmetic on timestamps wraps, as release builds do. *)
From Stdlib Require Import Ascii.
From S2P Require Import Prelude Interfaces Sliding Effects GatewayDeps Text AuditRow ExpiringKeys Validation Lockout Login LoginSpec Sessions SessionSpec.

Definition HEADER_TIMESTAMP : string := "x-signature-timestamp".
Definition HEADER_NONCE : string := "x-signature-nonce".
Definition HEADER_SIGNATURE : string := "x-signature".

(** ** Keys *)

Record EcJwk := { jw_kty : string; jw_crv : string; jw_x : string; jw_y : string }.

Record sig_deps := {
  sg_sha256_hex : string -> string;
  (** [BASE64URL_NOPAD.decode], and its error's text. *)
  sg_base64url : string -> result string string;
  sg_parse_jwk : string -> result string EcJwk;
  (** [PublicKey::from_sec1_bytes]. *)
  sg_on_curve : string -> bool;
  (** [Signature::from_slice]'s error, if any. *)
  sg_signature_error : string -> option string;
  (** Point, message, signature. *)
  sg_verifies : string -> string -> string -> bool;
}.

Inductive SignatureCheck := BadKey (e : string) | BadSignature (e : string) | Mismatch.

Section Keys.
Context (S : sig_deps).

Definition coordinate (name value : string) : result string string :=
  match sg_base64url S value with
  | Err e => Err (name +:+ " is not base64url: " +:+ e)
  | Ok bytes =>
      if (String.length bytes =? 32)%nat then Ok bytes
      else Err (name +:+ " must be 32 bytes, got " +:+ dec_of_Z (Z.of_nat (String.length bytes)))
  end.

(** The point, as SEC1 writes it uncompressed. *)
Definition p256_public_key_from_jwk (jwk : string) : result string string :=
  match sg_parse_jwk S jwk with
  | Err e => Err ("not an EC JWK: " +:+ e)
  | Ok jwk =>
      if negb (String.eqb (jw_kty jwk) "EC") then Err ("kty must be EC, got " +:+ jw_kty jwk)
      else if negb (String.eqb (jw_crv jwk) "P-256") then Err ("crv must be P-256, got " +:+ jw_crv jwk)
      else
        x ← coordinate "x" (jw_x jwk);
        y ← coordinate "y" (jw_y jwk);
        let sec1 := String (ascii_of_nat 4) (x +:+ y) in
        if sg_on_curve S sec1 then Ok sec1 else Err "point is not on P-256"
  end.

Definition verify_p256_jwk (pubkey_json message sig_bytes : string) : result SignatureCheck unit :=
  match p256_public_key_from_jwk pubkey_json with
  | Err e => Err (BadKey e)
  | Ok key =>
      match sg_signature_error S sig_bytes with
      | Some e => Err (BadSignature e)
      | None => if sg_verifies S key message sig_bytes then Ok tt else Err Mismatch
      end
  end.
End Keys.

(** ** Requests *)

Record signed_request {U : Type} := {
  sq_method : string;
  sq_path : string;
  sq_path_and_query : string;
  (** Absent, present but not text, or its text. *)
  sq_header : string -> option (option string);
  sq_api_key : bool;
  sq_user : option (AuthUser U);
  (** [None]: broken off, or over 10 MB. *)
  sq_body : option string;
}.
#[global] Arguments signed_request : clear implicits.

Definition REGISTER_KEY_GRACE_SECS : Z := 120.
Definition pubkey_key {U} `{Uuid U} (id : U) : string := "signing_pubkey:" +:+ uuid_str id.
Definition key_ip_key {U} `{Uuid U} (id : U) : string := "signing_key_ip:" +:+ uuid_str id.
Definition nonce_key {U} `{Uuid U} (id : U) (nonce : string) : string := "nonce:" +:+ uuid_str id +:+ ":" +:+ nonce.

Definition newline : string := String (ascii_of_nat 10) "".
Definition string_to_sign (method path timestamp nonce body_hash : string) : string :=
  method +:+ newline +:+ path +:+ newline +:+ timestamp +:+ newline +:+ nonce +:+ newline +:+ body_hash.

(** [i64::saturating_sub], and [(a - b).abs()] with both steps wrapping. *)
Definition saturating_sub (a b : Z) : Z := Z.max i64_min (Z.min i64_max (a - b)).
Definition abs_diff (a b : Z) : Z := wrap_i64 (Z.abs (wrap_i64 (a - b))).

(** [EXPIRE]: the key anew for [ttl] seconds, if it is there. *)
Definition xexpire {St} `{ExpiringKeys St} (t : Z) (key : string) (ttl : Z) (s : St) : St :=
  match peek t key s with Some (v, _) => xset t key v ttl s | None => s end.

Definition BAD_REQUEST : Z := 400.
Definition UNAUTHORIZED : Z := 401.
Definition INTERNAL_SERVER_ERROR : Z := 500.

Section Signature.
Context {St U : Type} `{Uuid U} `{ExpiringKeys St}.
Context (S : sig_deps) (net : nat -> link) (clock : nat -> Z).
Abbreviation W := (auth_world St U).

(** A step whose failure is looked at, among steps that end in a status. *)
Definition looked_at {A} (p : io W AppError A) : io W Z (result AppError A) := fun w => let '(w, r) := p w in (w, Ok r).
Definition seconds_now : io W Z Z := fun w => (w, Ok (clock (aw_calls w) / 1000)).

Definition exists_key (key : string) : io W AppError bool :=
  redis net clock Unauthorized (fun t s => (s, Some (bool_decide (is_Some (peek t key s))))).
(** [SET .. EX .. NX]: whether it wrote. *)
Definition set_nx (key value : string) (secs : Z) : io W AppError bool :=
  redis net clock Unauthorized (fun t s => let '(s, fresh) := xset_nx t key value secs s in (s, Some fresh)).
Definition expire (key : string) (secs : Z) : io W AppError unit :=
  redis net clock Unauthorized (fun t s => (xexpire t key secs s, Some tt)).

Definition ok_or_default {A} (d : A) (r : result AppError A) : A := match r with Ok a => a | Err _ => d end.

(** A header that has to be there and be text. *)
Definition header_text (req : signed_request U) (name : string) : result Z string :=
  match sq_header req name with Some (Some v) => Ok v | _ => Err BAD_REQUEST end.

(** Without a signature. *)
Definition verify_unsigned (user : AuthUser U) : io W Z unit :=
  has_pubkey ← looked_at (exists_key (pubkey_key (cl_sub (au_claims user))));
  if ok_or_default false has_pubkey then throw UNAUTHORIZED
  else
    now ← seconds_now;
    if REGISTER_KEY_GRACE_SECS <? saturating_sub now (cl_iat (au_claims user)) then throw UNAUTHORIZED else mret tt.

(** The address the key was registered from, against the request's. *)
Definition bound_here (bound_ip : option string) (request_ip : string) : bool :=
  match bound_ip with
  | Some bound => negb (String.eqb request_ip "") && String.eqb bound request_ip
  | None => false
  end.

Definition check_body (req : signed_request U) (pubkey_json timestamp nonce signature : string) : result Z unit :=
  sig_b64url ← ok_or (strip_prefix "ecdsa-p256:" signature) BAD_REQUEST;
  sig_bytes ← match sg_base64url S sig_b64url with Ok b => Ok b | Err _ => Err BAD_REQUEST end;
  body_bytes ← ok_or (sq_body req) BAD_REQUEST;
  match verify_p256_jwk S pubkey_json
          (string_to_sign (sq_method req) (sq_path_and_query req) timestamp nonce (sg_sha256_hex S body_bytes)) sig_bytes with
  | Ok _ => Ok tt
  | Err (BadKey _) => Err INTERNAL_SERVER_ERROR
  | Err (BadSignature _) => Err BAD_REQUEST
  | Err Mismatch => Err UNAUTHORIZED
  end.

Definition verify_signed (max_drift nonce_ttl refresh_ttl_days : Z) (req : signed_request U) (user : AuthUser U)
    : io W Z unit :=
  let user_id := cl_sub (au_claims user) in
  timestamp_str ← lift (header_text req HEADER_TIMESTAMP);
  nonce ← lift (header_text req HEADER_NONCE);
  signature_header ← lift (header_text req HEADER_SIGNATURE);
  timestamp ← lift (ok_or (parse_i64 timestamp_str) BAD_REQUEST);
  now ← seconds_now;
  if max_drift <? abs_diff now timestamp then throw UNAUTHORIZED
  else
    set_result ← looked_at (set_nx (nonce_key user_id nonce) "1" nonce_ttl);
    if negb (ok_or_default false set_result) then throw UNAUTHORIZED
    else
      pubkey ← looked_at (get net clock Unauthorized (pubkey_key user_id));
      pubkey_json ← lift (ok_or (ok_or_default None pubkey) UNAUTHORIZED);
      bound_ip ← looked_at (get net clock Unauthorized (key_ip_key user_id));
      if negb (bound_here (ok_or_default None bound_ip) (default "" (au_ip user))) then throw UNAUTHORIZED
      else
        _ ← lift (check_body req pubkey_json timestamp_str nonce signature_header);
        _ ← looked_at (expire (pubkey_key user_id) (refresh_ttl_days * 86400));
        mret tt.

Definition exempt (req : signed_request U) : bool :=
  String.eqb (sq_method req) "OPTIONS" || sq_api_key req || String.eqb (sq_path req) "/api/auth/register-key".

(** [Ok]: the request goes on. *)
Definition verify_signature (max_drift nonce_ttl refresh_ttl_days : Z) (req : signed_request U) : io W Z unit :=
  if exempt req then mret tt
  else
    user ← lift (ok_or (sq_user req) UNAUTHORIZED);
    match sq_header req HEADER_SIGNATURE with
    | None => verify_unsigned user
    | Some _ => verify_signed max_drift nonce_ttl refresh_ttl_days req user
    end.

(** ** Registering a key *)

Inductive StoreKeyOutcome := Stored | AlreadyExists.

Definition store_public_key (user_id : U) (pubkey_jwk_json : string) (client_ip : option string) (ttl_secs : Z)
    : io W AppError StoreKeyOutcome :=
  stored ← set_nx (pubkey_key user_id) pubkey_jwk_json ttl_secs;
  if negb stored then mret AlreadyExists
  else
    _ ← match client_ip with
        | Some ip => set_ex net clock Unauthorized (key_ip_key user_id) ip ttl_secs
        | None => mret tt
        end;
    mret Stored.

Definition register_key_rate (id : U) : string := "register_key_rate:" +:+ uuid_str id.

(** [jwk_text] writes the object of the four fields kept of the request's key. *)
Definition register_key {V} `{JsonValue V} (jwk_text : option V -> option V -> option V -> option V -> string)
    (auth_user : AuthUser U) (public_key : V) (refresh_ttl_days : Z) : io W AppError unit :=
  let id := cl_sub (au_claims auth_user) in
  attempts ← incr net clock (Internal "Rate limiting unavailable") (register_key_rate id) 60;
  if 5 <? attempts then throw RateLimited
  else
    let pubkey_json := jwk_text (json_get "kty" public_key) (json_get "crv" public_key)
                                (json_get "x" public_key) (json_get "y" public_key) in
    match p256_public_key_from_jwk S pubkey_json with
    | Err e => throw (BadRequest ("Invalid ECDSA P-256 public key JWK: " +:+ e))
    | Ok _ =>
        client_ip ← lift (ok_or (au_ip auth_user)
          (BadRequest "Cannot determine client IP for signing-key binding — check trusted_proxies config"));
        outcome ← attempt (store_public_key id pubkey_json (Some client_ip) (refresh_ttl_days * 86400));
        match outcome with
        | Err _ => throw (Internal "Failed to store public key")
        | Ok AlreadyExists =>
            throw (Conflict "Signing key is already registered for this session. Log out and back in to rotate.")
        | Ok Stored => mret tt
        end
    end.
End Signature.

(** * What a signature guarantees

    Theorems about [Signature]: which requests pass the check of their signature, and that a signed
    request passes once. *)

Section Spec.
Context {St U V : Type} `{Uuid U} `{ExpiringKeysLaws St} `{JsonValue V}.
Context (D : session_deps U) (G : sig_deps) (net : nat -> link) (clock : nat -> Z).
Context (jwk_text : option V -> option V -> option V -> option V -> string).
Context (clock_mono : forall n m, (n <= m)%nat -> clock n <= clock m).
Abbreviation W := (auth_world St U).
Abbreviation verify := (verify_signature G net clock).
Implicit Types (w : W) (req : signed_request U) (user : AuthUser U).

(** ** Which requests pass *)

(** A request without a signature: from a session that has no key yet, in its first two minutes. *)
Definition unsigned_ok req w : Prop :=
  sq_header req HEADER_SIGNATURE = None /\ exists user, sq_user req = Some user /\
    clock (S (aw_calls w)) / 1000 - cl_iat (au_claims user) <= 120 /\
    (net (aw_calls w) = LinkOk -> peek (clock (aw_calls w)) (pubkey_key (cl_sub (au_claims user))) (aw_keys w) = None).

(** A signed request: fresh, from the address the session's key was registered from, and signed
    with that key over the method, path, timestamp, nonce and body it came with. *)
Record signed_ok (drift : Z) req w user (timestamp nonce : string) : Prop := {
  so_user : sq_user req = Some user;
  so_timestamp : sq_header req HEADER_TIMESTAMP = Some (Some timestamp);
  so_fresh : exists ts, parse_i64 timestamp = Some ts /\ abs_diff (clock (aw_calls w) / 1000) ts <= drift;
  so_nonce : sq_header req HEADER_NONCE = Some (Some nonce);
  so_once : peek (clock (aw_calls w)) (nonce_key (cl_sub (au_claims user)) nonce) (aw_keys w) = None;
  so_bound : exists ip, au_ip user = Some ip /\ ip <> "" /\
    fst <$> peek (clock (S (S (aw_calls w)))) (key_ip_key (cl_sub (au_claims user))) (aw_keys w) = Some ip;
  so_signed : exists key point b64 signature body,
    fst <$> peek (clock (S (aw_calls w))) (pubkey_key (cl_sub (au_claims user))) (aw_keys w) = Some key /\
    p256_public_key_from_jwk G key = Ok point /\
    sq_header req HEADER_SIGNATURE = Some (Some ("ecdsa-p256:" +:+ b64)) /\ sg_base64url G b64 = Ok signature /\
    sg_signature_error G signature = None /\ sq_body req = Some body /\
    sg_verifies G point (string_to_sign (sq_method req) (sq_path_and_query req) timestamp nonce (sg_sha256_hex G body))
      signature = true;
}.

Lemma header_text_Ok req name v : header_text req name = Ok v <-> sq_header req name = Some (Some v).
Proof. unfold header_text. destruct (sq_header req name) as [[]|]; naive_solver. Qed.

Lemma looked_at_run {A} (p : io W AppError A) w : looked_at p w = ((p w).1, Ok (p w).2).
Proof. unfold looked_at. by destruct (p w). Qed.

Lemma check_body_Ok req key timestamp nonce header : check_body G req key timestamp nonce header = Ok tt <->
  exists point b64 signature body, p256_public_key_from_jwk G key = Ok point /\
    header = "ecdsa-p256:" +:+ b64 /\ sg_base64url G b64 = Ok signature /\
    sg_signature_error G signature = None /\ sq_body req = Some body /\
    sg_verifies G point (string_to_sign (sq_method req) (sq_path_and_query req) timestamp nonce (sg_sha256_hex G body))
      signature = true.
Proof.
  unfold check_body, verify_p256_jwk. split.
  - destruct (strip_prefix _ header) as [b64|] eqn:Es; [|done]. apply strip_prefix_Some in Es as ->. simpl.
    destruct (sg_base64url G b64) as [signature|] eqn:Eb; [|done]. simpl. destruct (sq_body req) as [body|] eqn:Ey; [|done]. simpl.
    destruct (p256_public_key_from_jwk G key) as [point|] eqn:Ep; [|done].
    destruct (sg_signature_error G signature) eqn:Ee; [done|].
    destruct (sg_verifies _ _ _ _) eqn:Ev; [|done]. intros _. exists point, b64, signature, body. done.
  - intros (point & b64 & signature & body & Hp & -> & Hb & He & Hy & Hv).
    assert (Es : strip_prefix "ecdsa-p256:" ("ecdsa-p256:" +:+ b64) = Some b64) by by apply strip_prefix_Some.
    rewrite Es. simpl. rewrite Hb. simpl. rewrite Hy. simpl. by rewrite Hp, He, Hv.
Qed.

(** *** The steps *)

Lemma set_nx_true key v secs w : 0 < secs -> ok_or_default false (set_nx net clock key v secs w).2 = true ->
  peek (clock (aw_calls w)) key (aw_keys w) = None /\
  (set_nx net clock key v secs w).1 = with_keys (xset (clock (aw_calls w)) key v secs (aw_keys w)) (S (aw_calls w)) w.
Proof.
  intros Hs. unfold set_nx, redis, run_script. rewrite xset_nx_spec by done.
  destruct (net (aw_calls w)), (peek _ _ _); simpl; done.
Qed.

Lemma get_world fail key w : (get net clock fail key w).1 = with_keys (aw_keys w) (S (aw_calls w)) w.
Proof. unfold get, redis, run_script. by destruct (net (aw_calls w)). Qed.
Lemma get_Some fail key w v : ok_or_default None (get net clock fail key w).2 = Some v ->
  fst <$> peek (clock (aw_calls w)) key (aw_keys w) = Some v.
Proof. unfold get, redis, run_script. by destruct (net (aw_calls w)). Qed.

Lemma bound_here_spec bound ip : bound_here bound (default "" ip) = true <->
  exists a, ip = Some a /\ a <> "" /\ bound = Some a.
Proof.
  unfold bound_here. destruct bound as [b|]; [|naive_solver]. rewrite andb_true_iff, negb_true_iff, String.eqb_eq, String.eqb_neq.
  destruct ip as [a|]; simpl; naive_solver.
Qed.

Lemma keys_apart (id id' : U) nonce : pubkey_key id' <> nonce_key id nonce /\ key_ip_key id' <> nonce_key id nonce.
Proof. by split. Qed.

Lemma peek_after_nonce (id : U) nonce secs key t t' s : 0 < secs -> t <= t' -> key <> nonce_key id nonce ->
  peek t' key (xset t (nonce_key id nonce) "1" secs s) = peek t' key s.
Proof. intros. rewrite peek_xset by done. by rewrite decide_False. Qed.

(** What a signed request that passed went through, and the nonce it left. *)
Lemma verify_signed_Ok drift ttl days req user w w' : 0 < ttl -> sq_user req = Some user ->
  verify_signed G net clock drift ttl days req user w = (w', Ok tt) ->
  exists timestamp nonce, signed_ok drift req w user timestamp nonce /\
    w' = (expire net clock (pubkey_key (cl_sub (au_claims user))) (days * 86400)
            (with_keys (xset (clock (aw_calls w)) (nonce_key (cl_sub (au_claims user)) nonce) "1" ttl (aw_keys w))
               (S (S (S (aw_calls w)))) w)).1.
Proof.
  intros Httl Hu. unfold verify_signed. cbv zeta.
  intros (w0 & timestamp & [-> Ht%header_text_Ok]%lift_Ok & Hr)%io_bind_Ok.
  apply io_bind_Ok in Hr as (w0 & nonce & [-> Hn%header_text_Ok]%lift_Ok & Hr).
  apply io_bind_Ok in Hr as (w0 & header & [-> Hh%header_text_Ok]%lift_Ok & Hr).
  apply io_bind_Ok in Hr as (w0 & ts & [-> Hp%ok_or_Ok]%lift_Ok & Hr).
  apply io_bind_Ok in Hr as (w0 & now & Hnow & Hr). injection Hnow as <- <-.
  destruct (Z.ltb_spec drift (abs_diff (clock (aw_calls w) / 1000) ts)) as [|Hd]; [done|].
  rewrite io_bind_run, looked_at_run in Hr. cbn [fst snd] in Hr.
  destruct (ok_or_default false _) eqn:Hset in Hr; [|done]. apply set_nx_true in Hset as [Hnone Ew]; [|done].
  rewrite Ew in Hr. cbn [negb] in Hr. rewrite io_bind_run, looked_at_run in Hr. cbn [fst snd] in Hr. rewrite get_world in Hr.
  apply io_bind_Ok in Hr as (w0 & key & [-> Hkey%ok_or_Ok]%lift_Ok & Hr). apply get_Some in Hkey.
  rewrite io_bind_run, looked_at_run in Hr. cbn [fst snd] in Hr. rewrite get_world in Hr.
  destruct (bound_here _ _) eqn:Hb in Hr; [|done]. apply bound_here_spec in Hb as (ip & Hip & Hne & Hbound).
  apply get_Some in Hbound. cbn [negb aw_calls aw_keys with_keys] in *.
  apply io_bind_Ok in Hr as (w0 & [] & [-> Hc]%lift_Ok & Hr).
  apply check_body_Ok in Hc as (point & b64 & signature & body & Hpt & -> & Hb64 & Herr & Hbody & Hv).
  rewrite io_bind_run, looked_at_run in Hr. cbn [fst snd] in Hr. injection Hr as <-.
  pose proof (clock_mono (aw_calls w) (S (aw_calls w)) ltac:(lia)). pose proof (clock_mono (aw_calls w) (S (S (aw_calls w))) ltac:(lia)).
  rewrite peek_after_nonce in Hkey, Hbound by (done || lia).
  exists timestamp, nonce. split.
  - split; try done; [by exists ts|by exists ip|]. by exists key, point, b64, signature, body.
  - reflexivity.
Qed.

Lemma verify_unsigned_Ok req user w w' : sq_header req HEADER_SIGNATURE = None -> sq_user req = Some user ->
  verify_unsigned net clock user w = (w', Ok tt) -> in_i64 (clock (S (aw_calls w)) / 1000 - cl_iat (au_claims user)) ->
  unsigned_ok req w.
Proof.
  intros Hh Hu Hr [Hlo Hhi]. split; [done|]. exists user. split; [done|]. unfold verify_unsigned in Hr. rewrite io_bind_run, looked_at_run in Hr.
  cbn [fst snd] in Hr. destruct (ok_or_default false _) eqn:He; [done|]. rewrite io_bind_run in Hr. cbn [seconds_now fst snd] in Hr.
  assert (Ec : aw_calls (exists_key net clock (pubkey_key (cl_sub (au_claims user))) w).1 = S (aw_calls w)).
  { unfold exists_key, redis, run_script. by destruct (net (aw_calls w)). }
  rewrite Ec in Hr. split.
  - destruct (Z.ltb_spec REGISTER_KEY_GRACE_SECS (saturating_sub (clock (S (aw_calls w)) / 1000) (cl_iat (au_claims user)))) as [|Hg]; [done|].
    unfold saturating_sub, REGISTER_KEY_GRACE_SECS, i64_min, i64_max in *. lia.
  - intros Hup. unfold exists_key, redis, run_script in He. rewrite Hup in He. simpl in He.
    apply bool_decide_eq_false in He. by apply eq_None_not_Some.
Qed.

(** *** With Redis up *)

Lemma lift_bind {E A B} (a : A) (f : A -> io W E B) w : (lift (Ok a) ≫= f) w = f a w.
Proof. done. Qed.
Lemma get_up fail key w : net (aw_calls w) = LinkOk ->
  (get net clock fail key w).2 = Ok (fst <$> peek (clock (aw_calls w)) key (aw_keys w)).
Proof. intros Hup. unfold get, redis, run_script. by rewrite Hup. Qed.

Lemma verify_signed_up drift ttl days req user w timestamp nonce : (forall n, net n = LinkOk) -> 0 < ttl ->
  signed_ok drift req w user timestamp nonce -> (verify_signed G net clock drift ttl days req user w).2 = Ok tt.
Proof.
  intros Hup Httl [Hu Ht (ts & Hp & Hd) Hn Hnone (ip & Hip & Hne & Hbound) (key & point & b64 & signature & body & Hkey & Hsig)].
  destruct Hsig as (Hpt & Hh & Hb64 & Herr & Hbody & Hv). unfold verify_signed. cbv zeta.
  rewrite (proj2 (header_text_Ok _ _ _) Ht), (proj2 (header_text_Ok _ _ _) Hn), (proj2 (header_text_Ok _ _ _) Hh), !lift_bind.
  rewrite Hp. cbn [ok_or]. rewrite lift_bind. rewrite io_bind_run. cbn [seconds_now fst snd].
  rewrite (proj2 (Z.ltb_ge drift _)) by done. rewrite io_bind_run, looked_at_run. cbn [fst snd].
  assert (Es : set_nx net clock (nonce_key (cl_sub (au_claims user)) nonce) "1" ttl w =
    (with_keys (xset (clock (aw_calls w)) (nonce_key (cl_sub (au_claims user)) nonce) "1" ttl (aw_keys w)) (S (aw_calls w)) w, Ok true)).
  { unfold set_nx, redis, run_script. by rewrite Hup, xset_nx_spec, Hnone. }
  rewrite Es. cbn [fst snd ok_or_default negb]. rewrite io_bind_run, looked_at_run. cbn [fst snd].
  rewrite get_world, get_up by done. cbn [ok_or_default aw_calls aw_keys with_keys].
  pose proof (clock_mono (aw_calls w) (S (aw_calls w)) ltac:(lia)). pose proof (clock_mono (aw_calls w) (S (S (aw_calls w))) ltac:(lia)).
  rewrite peek_after_nonce, Hkey by (done || lia). cbn [ok_or]. rewrite lift_bind, io_bind_run, looked_at_run. cbn [fst snd].
  rewrite get_world, get_up by done. cbn [ok_or_default aw_calls aw_keys with_keys].
  rewrite peek_after_nonce, Hbound by (done || lia). rewrite (proj2 (bound_here_spec _ _)) by (by exists ip). cbn [negb].
  rewrite (proj2 (check_body_Ok _ _ _ _ _)) by (by exists point, b64, signature, body).
  rewrite lift_bind, io_bind_run, looked_at_run. done.
Qed.

(** A console request passes the check of its signature only if it needs none, or comes
    unsigned from a session in its first two minutes for which no key was found, or is signed with
    the session's key over its method, path, timestamp, nonce and body, from the address the key
    was registered from, with a fresh timestamp and a nonce not used before.  With Redis up these
    are exactly the requests that pass. *)
Theorem signature_checked drift ttl days req w : 0 < ttl ->
  (forall user, sq_user req = Some user -> in_i64 (clock (S (aw_calls w)) / 1000 - cl_iat (au_claims user))) ->
  let passes := exempt req = true \/ unsigned_ok req w \/ exists user timestamp nonce, signed_ok drift req w user timestamp nonce in
  ((verify drift ttl days req w).2 = Ok tt -> passes) /\
  ((forall n, net n = LinkOk) -> exempt req = false -> passes -> (verify drift ttl days req w).2 = Ok tt).
Proof.
  intros Httl Hrange passes. unfold verify_signature. split.
  - intros Hv. destruct (exempt req) eqn:Ex; [by left|right].
    rewrite io_bind_run in Hv. destruct (sq_user req) as [user|] eqn:Hu; [|done]. cbn [lift ok_or fst snd] in Hv.
    destruct (sq_header req HEADER_SIGNATURE) as [h|] eqn:Hh.
    + right. destruct (verify_signed _ _ _ _ _ _ _ _ w) as [w' r] eqn:E. simpl in Hv. subst r.
      apply verify_signed_Ok in E as (timestamp & nonce & Hok & _); [|done..]. by exists user, timestamp, nonce.
    + left. destruct (verify_unsigned _ _ _ w) as [w' r] eqn:E. simpl in Hv. subst r. eapply verify_unsigned_Ok; [done|done|exact E|].
      by apply Hrange.
  - intros Hup Ex Hp. rewrite Ex. rewrite io_bind_run. destruct Hp as [Hp|[(Hh & user & Hu & Hage & Hnone)|(user & timestamp & nonce & Hok)]].
    + congruence.
    + rewrite Hu, Hh. cbn [lift ok_or fst snd]. unfold verify_unsigned. rewrite io_bind_run, looked_at_run. cbn [fst snd].
      assert (Ee : exists_key net clock (pubkey_key (cl_sub (au_claims user))) w = (with_keys (aw_keys w) (S (aw_calls w)) w, Ok false)).
      { unfold exists_key, redis, run_script. by rewrite Hup, Hnone. }
      rewrite Ee. cbn [fst snd ok_or_default]. rewrite io_bind_run. cbn [seconds_now fst snd aw_calls with_keys].
      specialize (Hrange _ Hu). destruct Hrange. unfold saturating_sub, REGISTER_KEY_GRACE_SECS, i64_min, i64_max in *.
      by rewrite (proj2 (Z.ltb_ge _ _)) by lia.
    + rewrite (so_user _ _ _ _ _ _ Hok). cbn [lift ok_or fst snd].
      destruct (so_signed _ _ _ _ _ _ Hok) as (? & ? & ? & ? & ? & ? & ? & Hh & _). rewrite Hh. by eapply verify_signed_up.
Qed.

(** ** A nonce is good once *)

(** The key [k] is there until [d]. *)
Definition kept_until (k : string) (d : Z) w : Prop :=
  forall t, clock (aw_calls w) <= t < d -> is_Some (peek t k (aw_keys w)).

Lemma kept_about_key k d : about_key clock k (kept_until k d).
Proof.
  intros w w1 [Hc Hk] Hu t Ht. rewrite Hk by lia. apply Hu. pose proof (clock_mono _ _ Hc). lia.
Qed.

Lemma kept_redis {A} k d fail (cmd : Z -> St -> St * option A) :
  (forall t t' s, t <= t' -> is_Some (peek t' k s) -> is_Some (peek t k s) -> is_Some (peek t' k (cmd t s).1)) ->
  preserves (kept_until k d) (redis net clock fail cmd).
Proof.
  intros Hcmd w Hw. unfold redis, run_script. pose proof (clock_mono (aw_calls w) (S (aw_calls w)) ltac:(lia)).
  assert (Hs : forall t, clock (S (aw_calls w)) <= t < d -> is_Some (peek t k (cmd (clock (aw_calls w)) (aw_keys w)).1)).
  { intros t Ht. apply Hcmd; [lia|apply Hw; lia|apply Hw; lia]. }
  destruct (net (aw_calls w)); [destruct (cmd _ _) as [s o] eqn:E|..]; intros t Ht; cbn in *; [by apply Hs|apply Hw; lia|by apply Hs].
Qed.

Lemma kept_set_nx k d key v secs : 0 < secs -> preserves (kept_until k d) (set_nx net clock key v secs).
Proof.
  intros Hs. apply kept_redis. intros t t' s Ht Hk' Hk. rewrite xset_nx_spec by done. destruct (peek t key s) eqn:E; [done|]. simpl.
  rewrite peek_xset by done. case_decide as Hd; [|done]. subst. rewrite E in Hk. by destruct Hk.
Qed.
Lemma kept_expire k d key secs : 0 < secs -> key <> k -> preserves (kept_until k d) (expire net clock key secs).
Proof.
  intros Hs Hne. apply kept_redis. intros t t' s Ht Hk' Hk. simpl. unfold xexpire.
  destruct (peek t key s) as [[v e]|] eqn:E; [|done]. rewrite peek_xset by done. by rewrite decide_False.
Qed.
Lemma kept_get k d fail key : preserves (kept_until k d) (get net clock fail key).
Proof. by apply kept_redis. Qed.
Lemma kept_exists k d key : preserves (kept_until k d) (exists_key net clock key).
Proof. by apply kept_redis. Qed.
Lemma kept_set_ex k d fail key v secs : 0 < secs -> key <> k -> preserves (kept_until k d) (set_ex net clock fail key v secs).
Proof.
  intros Hs Hne. apply kept_redis. intros t t' s Ht Hk' Hk. simpl. rewrite peek_xset by done. by rewrite decide_False.
Qed.
Lemma preserves_looked_at {A} I (p : io W AppError A) : preserves I p -> preserves I (looked_at p).
Proof. intros Hp w Hw. rewrite looked_at_run. by apply Hp. Qed.
Lemma preserves_still {E A} (I : W -> Prop) (p : io W E A) : (forall w, (p w).1 = w) -> preserves I p.
Proof. intros Hp w. by rewrite Hp. Qed.

(** What goes on meanwhile: logins and sessions, signed requests of anyone, keys registered. *)
Inductive signing_op :=
  | SgSession (o : session_op U)
  | SgRequest (drift ttl days : Z) (req : signed_request U)
  | SgRegister (user : AuthUser U) (public_key : V) (days : Z).

Definition run_signing (o : signing_op) w : W :=
  match o with
  | SgSession o => (perform D net clock o w).1
  | SgRequest drift ttl days req => (verify drift ttl days req w).1
  | SgRegister user public_key days => (register_key G net clock jwk_text user public_key days w).1
  end.
Definition run_all_signing (os : list signing_op) w : W := foldl (fun w o => run_signing o w) w os.

(** Lifetimes in seconds and days are at least one, as the settings' validation has them. *)
Definition settings_ok (o : signing_op) : Prop :=
  match o with
  | SgSession _ => 0 < ld_refresh_ttl_days (sd_login D)
  | SgRequest _ ttl days _ => 0 < ttl /\ 0 < days
  | SgRegister _ _ days => 0 < days
  end.

Lemma nonce_key_other id nonce : ~ other_keys D (nonce_key id nonce).
Proof.
  intros [(ip & e & Hk)|[[c Hk]|[u Hk]]]; [|by revert Hk; key_ne|].
  - destruct Hk as [Hk|[u Hk]]; repeat (apply elem_of_cons in Hk as [Hk|Hk]; [by revert Hk; key_ne|]); by apply elem_of_nil in Hk.
  - repeat (apply elem_of_cons in Hk as [Hk|Hk]; [by revert Hk; key_ne|]). by apply elem_of_nil in Hk.
Qed.

Lemma kept_perform id nonce d o : 0 < ld_refresh_ttl_days (sd_login D) ->
  preserves (kept_until (nonce_key id nonce) d) (perform D net clock o).
Proof.
  intros Hdays. eapply preserves_perform with (k := nonce_key id nonce); [done|apply kept_about_key|apply nonce_key_other| |].
  - intros. apply kept_redis. intros t t' s Ht Hk' Hk.
    rewrite xset_nx_spec by (unfold remaining_secs; lia). destruct (peek t (key_for (sd_sha256_hex D) tok) s) eqn:E; simpl; [done|].
    rewrite peek_xset by first [done | unfold remaining_secs; lia]. rewrite decide_False; [done|]. key_ne.
  - intros u. unfold invalidate_refresh_tokens. cbv zeta.
    eapply preserves_leaves; [apply kept_about_key|]. frame; try first [lia | unfold epoch_key; key_ne].
    intros w. split; [simpl; lia|done].
Qed.

Lemma kept_verify id nonce d drift ttl days req : 0 < ttl -> 0 < days ->
  preserves (kept_until (nonce_key id nonce) d) (verify drift ttl days req).
Proof.
  intros Httl Hdays. unfold verify_signature. destruct (exempt req); [by apply preserves_still|].
  apply preserves_bind; [by apply preserves_still|]. intros user. destruct (sq_header req HEADER_SIGNATURE).
  - unfold verify_signed. cbv zeta. repeat first
      [ apply preserves_looked_at
      | match goal with
        | |- preserves _ (mbind _ _) => apply preserves_bind; [|intros ?]
        | |- preserves _ (if ?b then _ else _) => destruct b
        | |- preserves _ (set_nx _ _ _ _ _) => by apply kept_set_nx
        | |- preserves _ (get _ _ _ _) => apply kept_get
        | |- preserves _ (expire _ _ _ _) => apply kept_expire; [lia|apply keys_apart]
        | |- preserves _ _ => by apply preserves_still
        end ].
  - unfold verify_unsigned. apply preserves_bind; [apply preserves_looked_at, kept_exists|]. intros [].
    all: simpl; repeat case_match; try (by apply preserves_still).
    all: apply preserves_bind; [by apply preserves_still|]; intros; case_match; by apply preserves_still.
Qed.

Lemma kept_register id nonce d user public_key days : 0 < days ->
  preserves (kept_until (nonce_key id nonce) d) (register_key G net clock jwk_text user public_key days).
Proof.
  intros Hdays. unfold register_key. cbv zeta. apply preserves_bind.
  { eapply preserves_leaves; [apply kept_about_key|]. apply frames_incr; [done|done|]. unfold register_key_rate, nonce_key. key_ne. }
  intros attempts. destruct (5 <? attempts); [by apply preserves_still|]. destruct (p256_public_key_from_jwk _ _); [|by apply preserves_still].
  apply preserves_bind; [by apply preserves_still|]. intros ip. apply preserves_bind.
  - assert (Hs : preserves (kept_until (nonce_key id nonce) d) (store_public_key net clock (cl_sub (au_claims user))
      (jwk_text (json_get "kty" public_key) (json_get "crv" public_key) (json_get "x" public_key) (json_get "y" public_key))
      (Some ip) (days * 86400))).
    { unfold store_public_key. apply preserves_bind; [apply kept_set_nx; lia|]. intros []; simpl; [|by apply preserves_still].
      apply preserves_bind; [apply kept_set_ex; [lia|apply keys_apart]|]. intros. by apply preserves_still. }
    intros w Hw. specialize (Hs w Hw). unfold attempt. by destruct (store_public_key _ _ _ _ _ _ w).
  - intros [[]|]; by apply preserves_still.
Qed.

Lemma kept_run id nonce d o : settings_ok o -> forall w, kept_until (nonce_key id nonce) d w ->
  kept_until (nonce_key id nonce) d (run_signing o w).
Proof.
  destruct o; simpl; intros Ho w Hw.
  - by apply kept_perform.
  - destruct Ho. by apply kept_verify.
  - by apply kept_register.
Qed.
Lemma kept_run_all id nonce d os w : Forall settings_ok os -> kept_until (nonce_key id nonce) d w ->
  kept_until (nonce_key id nonce) d (run_all_signing os w).
Proof. intros Hos. revert w. induction Hos as [|o os Ho Hos IH]; intros w Hw; [done|]. by apply IH, kept_run. Qed.

Lemma parse_i64_range s z : parse_i64 s = Some z -> in_i64 z.
Proof.
  unfold parse_i64. destruct (match s with "" => _ | String c r => _ end) as [v|]; simpl; [|done].
  case_bool_decide; [|done]. by intros [= <-].
Qed.

Lemma abs_diff_close now ts drift : 0 <= now <= 2 ^ 60 -> in_i64 ts -> 0 <= drift <= 300 -> abs_diff now ts <= drift ->
  Z.abs (now - ts) <= drift \/ now - ts = 2 ^ 63.
Proof.
  intros Hnow [Hlo Hhi] Hd. unfold abs_diff, i64_min, i64_max in *.
  destruct (Z.lt_ge_cases (now - ts) (2 ^ 63)) as [Hlt|Hge].
  - rewrite (wrap_i64_id (now - ts)), wrap_i64_id by (unfold in_i64, i64_min, i64_max; lia). by left.
  - intros Hw. right. assert (E : wrap_i64 (now - ts) = now - ts - 2 ^ 64).
    { unfold wrap_i64. rewrite <- (Z.mod_unique (now - ts + 2 ^ 63) (2 ^ 64) 1 (now - ts + 2 ^ 63 - 2 ^ 64)) by lia. lia. }
    rewrite E in Hw. destruct (Z.eq_dec (now - ts) (2 ^ 63)) as [|Hne]; [done|exfalso].
    rewrite wrap_i64_id in Hw by (unfold in_i64, i64_min, i64_max; lia). lia.
Qed.

(** The same request again: the user's, with the same timestamp and nonce. *)
Definition same_signed req req' : Prop :=
  exempt req = false /\ exempt req' = false /\
  cl_sub ∘ au_claims <$> sq_user req' = cl_sub ∘ au_claims <$> sq_user req /\
  (forall name, name ∈ [HEADER_TIMESTAMP; HEADER_NONCE; HEADER_SIGNATURE] -> sq_header req' name = sq_header req name) /\
  is_Some (sq_header req HEADER_SIGNATURE).

Lemma verify_signature_signed drift ttl days req w w' : 0 < ttl -> exempt req = false -> is_Some (sq_header req HEADER_SIGNATURE) ->
  verify drift ttl days req w = (w', Ok tt) ->
  exists user timestamp nonce, signed_ok drift req w user timestamp nonce /\
    w' = (expire net clock (pubkey_key (cl_sub (au_claims user))) (days * 86400)
            (with_keys (xset (clock (aw_calls w)) (nonce_key (cl_sub (au_claims user)) nonce) "1" ttl (aw_keys w))
               (S (S (S (aw_calls w)))) w)).1.
Proof.
  intros Httl Ex [h Hh] Hv. unfold verify_signature in Hv. rewrite Ex, io_bind_run in Hv.
  destruct (sq_user req) as [user|] eqn:Hu; [|done]. cbn [lift ok_or fst snd] in Hv. rewrite Hh in Hv.
  apply verify_signed_Ok in Hv as (timestamp & nonce & Hok & Hw); [|done..]. by exists user, timestamp, nonce.
Qed.

(** C21: A signed request is good once: once it passed, the same signed request (the same user,
    headers and signature), whatever its body and wherever it comes from, is refused for ever, whatever logins, requests and registrations come
    in between, provided a nonce is kept for longer than the tolerance of clocks twice over. *)
Theorem signature_single_use drift ttl days req w w1 os drift' ttl' days' req' :
  (forall n, 0 <= clock n <= 1000 * 2 ^ 60) -> 0 <= drift <= 300 -> 0 <= drift' <= 300 -> 0 < ttl' -> 0 < days ->
  drift + drift' < ttl ->
  verify drift ttl days req w = (w1, Ok tt) -> same_signed req req' -> Forall settings_ok os ->
  (verify drift' ttl' days' req' (run_all_signing os w1)).2 <> Ok tt.
Proof.
  intros Hclock Hd Hd' Httl' Hdays Httl Hv (Ex & Ex' & Husers & Hheaders & Hsig) Hos Hagain.
  apply verify_signature_signed in Hv as (user & timestamp & nonce & Hok & Hw1); [|lia|done..].
  set (w2 := run_all_signing os w1) in *. destruct (verify drift' ttl' days' req' w2) as [w3 r] eqn:Hv. simpl in Hagain. subst r.
  apply verify_signature_signed in Hv as (user' & timestamp' & nonce' & Hok' & _);
    [|done|done|by rewrite Hheaders by (by right; right; left)].
  destruct Hok as [Hu Ht (ts & Hp & Hf) Hn _ _ _], Hok' as [Hu' Ht' (ts' & Hp' & Hf') Hn' Hnone _ _].
  rewrite Hheaders in Ht' by by left. rewrite Hheaders in Hn' by (by right; left). rewrite Hu, Hu' in Husers. simpl in Husers.
  injection Husers as Hid. simplify_eq. rewrite Hid in *.
  set (k := nonce_key (cl_sub (au_claims user)) nonce) in *. set (n := aw_calls w) in *.
  assert (Hkept : kept_until k (clock n + 1000 * ttl) w2).
  { apply kept_run_all; [done|]. apply kept_expire; [lia|apply keys_apart|]. intros t Htime. cbn in Htime |- *.
    pose proof (clock_mono n (S (S (S n))) ltac:(lia)). rewrite peek_xset by lia. rewrite decide_True by done.
    simpl. rewrite (proj2 (Z.ltb_lt _ _)) by lia. by eexists. }
  assert (Hsec : forall m, 0 <= clock m / 1000 <= 2 ^ 60 /\ clock m < 1000 * (clock m / 1000) + 1000 /\ 1000 * (clock m / 1000) <= clock m).
  { intros m. specialize (Hclock m). pose proof (Z.div_mod (clock m) 1000 ltac:(lia)). pose proof (Z.mod_pos_bound (clock m) 1000 ltac:(lia)).
    split; [split; [apply Z.div_pos; lia|apply Z.div_le_upper_bound; lia]|lia]. }
  pose proof (parse_i64_range _ _ Hp) as Hts. pose proof (Hsec n) as (Hs1 & Hs2 & Hs3). pose proof (Hsec (aw_calls w2)) as (Hs4 & Hs5 & Hs6).
  apply abs_diff_close in Hf; [|lia|done|lia]. apply abs_diff_close in Hf'; [|lia|done|lia].
  destruct (Hkept (clock (aw_calls w2))) as [x Hx]; [|congruence]. split; [lia|]. destruct Hf, Hf'; lia.
Qed.
End Spec.

(** * Signed requests, run

    [Signature.signature_single_use] on a concrete store, and what its condition on the
    lifetime of nonces is for; a key whose address is forgotten before the key is. *)

(** Any coordinate is thirty-two bytes, and any signature but ["no"] verifies. *)
Definition demo_sig : sig_deps := {|
  sg_sha256_hex s := s;
  sg_base64url s := Ok s;
  sg_parse_jwk s := Ok {| jw_kty := "EC"; jw_crv := "P-256"; jw_x := "xxxxxxxxxxxxxxxxxxxxxxxxxxxxxxxx"; jw_y := "yyyyyyyyyyyyyyyyyyyyyyyyyyyyyyyy" |};
  sg_on_curve _ := true;
  sg_signature_error _ := None;
  sg_verifies _ _ signature := negb (String.eqb signature "no") |}.

Definition signer : AuthUser demo_uuid :=
  {| au_claims := demo_token "access" 0; au_ip := Some "10.0.0.9"; au_user_agent := None;
     au_permissions := []; au_denied_permissions := [] |}.

Definition signed_at (ts nonce : string) : signed_request demo_uuid := {|
  sq_method := "POST"; sq_path := "/api/keys"; sq_path_and_query := "/api/keys";
  sq_header name := if decide (name = HEADER_TIMESTAMP) then Some (Some ts) else
                    if decide (name = HEADER_NONCE) then Some (Some nonce) else
                    if decide (name = HEADER_SIGNATURE) then Some (Some "ecdsa-p256:s") else None;
  sq_api_key := false; sq_user := Some signer; sq_body := Some "{}" |}.

(** [step] milliseconds a call, for a while. *)
Definition pace (step : Z) (n : nat) : Z := step * Z.of_nat (Nat.min n 1000).
Lemma pace_mono step n m : 0 <= step -> (n <= m)%nat -> pace step n <= pace step m.
Proof. unfold pace. nia. Qed.

Abbreviation demo_verify step drift ttl := (verify_signature (St := demo_keys) demo_sig demo_net (pace step) drift ttl 7).
Abbreviation demo_register step := (register_key (St := demo_keys) demo_sig demo_net (pace step) (fun _ _ _ _ => "jwk") signer
  (Interfaces.JObj []) 7).
Abbreviation registered step := (demo_register step (demo_login_world false)).1.
Definition accepted (p : demo_world * result Z unit) : bool := Prelude.is_ok p.2.

Lemma accepted_end (p : demo_world * result Z unit) : accepted p = true -> p = (p.1, Ok tt).
Proof. by destruct p as [w [[]|]]. Qed.

(** A call a second; a request of the fourth second, and the same again. *)
Lemma signature_single_use_witness :
  let first := demo_verify 1000 300 601 (signed_at "4" "n") (registered 1000) in
  accepted first = true /\ (demo_verify 1000 300 601 (signed_at "4" "n") first.1).2 <> Ok tt.
Proof.
  intros first. assert (Ha : accepted first = true) by (vm_compute; reflexivity). split; [exact Ha|].
  apply (signature_single_use (V := json) (demo_sessions 3600) demo_sig demo_net (pace 1000) (fun _ _ _ _ => "jwk")
           (fun n m => pace_mono 1000 n m ltac:(lia)) 300 601 7 (signed_at "4" "n") (registered 1000) first.1 [] 300 601 7 (signed_at "4" "n")).
  - intros n. unfold pace. lia.
  - lia.
  - lia.
  - lia.
  - lia.
  - lia.
  - exact (accepted_end _ Ha).
  - split_and!; [reflexivity|reflexivity|reflexivity|reflexivity|by eexists].
  - constructor.
Defined.

(** With the defaults, 300 seconds of tolerance and nonces kept for 600, a request whose clock was
    300 seconds ahead passes again 600 seconds later: the two lifetimes meet. *)
Lemma replay_at_defaults :
  let first := demo_verify 100000 300 600 (signed_at "700" "n") (registered 100000) in
  let later := with_keys (aw_keys first.1) 10 first.1 in
  accepted first = true /\ pace 100000 (aw_calls (registered 100000)) = 400000 /\ pace 100000 10 = 1000000 /\
  accepted (demo_verify 100000 300 600 (signed_at "700" "n") later) = true.
Proof. vm_compute. done. Qed.

(** Nothing ties the two settings: with nonces kept for a minute it passes again two minutes later. *)
Lemma replay_short_ttl :
  let first := demo_verify 10000 300 60 (signed_at "40" "n") (registered 10000) in
  let later := with_keys (aw_keys first.1) 16 first.1 in
  accepted first = true /\ accepted (demo_verify 10000 300 60 (signed_at "40" "n") later) = true.
Proof. vm_compute. done. Qed.

(** A call a day, and sessions of seven days.  A key registered on the third day and used on the
    fifth is renewed until the fifteenth; the address it is bound to is gone on the eleventh, and
    from then on every signed request is refused and no key can be registered in its place. *)
Definition day : Z := 86400000.
Definition on_day_9 : demo_world := (demo_verify day 300 600 (signed_at "345600" "n") (registered day)).1.
Lemma binding_outlived :
  accepted (demo_verify day 300 600 (signed_at "345600" "n") (registered day)) = true /\ aw_calls on_day_9 = 8%nat /\
  (let w := with_keys (aw_keys on_day_9) 9 on_day_9 in
   (demo_verify day 300 600 (signed_at "777600" "m") w).2 = Err UNAUTHORIZED /\
   (demo_register day w).2 = Err (Conflict "Signing key is already registered for this session. Log out and back in to rotate.")).
Proof. vm_compute. done. Qed.

Lemma signature_checked_witness :
  exists user timestamp nonce,
    signed_ok demo_sig (pace 1000) 300 (signed_at "4" "n") (registered 1000) user timestamp nonce.
Proof.
  destruct (signature_checked (demo_sig) demo_net (pace 1000) (fun n m => pace_mono 1000 n m ltac:(lia)) 300 601 7 (signed_at "4" "n")
    (registered 1000) ltac:(lia)) as [Hp _].
  - intros user [= <-]. vm_compute. split; discriminate.
  - destruct Hp as [Hx|[Hx|Hx]]; [|discriminate Hx|destruct Hx; discriminate|exact Hx].
    assert (Ha : accepted (demo_verify 1000 300 601 (signed_at "4" "n") (registered 1000)) = true) by (vm_compute; reflexivity).
    exact (f_equal snd (accepted_end _ Ha)).
Defined.
