(* ===== verification/Rbac.v ===== *)
(** * Roles: permissions and gateway access

    [crates/auth/src/rbac.rs]: the policy documents a user's roles bring, the permissions and
    denials they give at the console, what the user may reach at the two gateways and under
    which limits.  The tables are lists of rows.  serde's reading of a document into the structs
    below, [policy_from_value], is an argument, as is the length of its text. *)
From Stdlib Require Import Ascii.
From S2P Require Import Prelude Interfaces LimitTypes LimitStore Policy Constraints GatewayDeps Text Glob.

#[export] Instance SurfaceBlock_eq_dec : EqDecision SurfaceBlock.
Proof. solve_decision. Defined.
#[export] Instance SurfaceConstraints_eq_dec : EqDecision SurfaceConstraints.
Proof. solve_decision. Defined.

(** ** The policy engine *)

Inductive Effect := Allow | Deny.
Inductive ActionPattern := SingleAction (s : string) | MultipleActions (v : list string).
Inductive ResourcePattern := SingleResource (s : string) | MultipleResources (v : list string).
Definition action_patterns (p : ActionPattern) : list string :=
  match p with SingleAction s => [s] | MultipleActions v => v end.
Definition resource_patterns (p : ResourcePattern) : list string :=
  match p with SingleResource s => [s] | MultipleResources v => v end.

Record Statement {V : Type} := {
  st_sid : option string;
  st_effect : Effect;
  st_action : ActionPattern;
  st_resource : ResourcePattern;
  st_condition : option V;
}.
#[global] Arguments Statement : clear implicits.
Record PolicyDocument {V : Type} := {
  pd_version : string;
  pd_statement : list (Statement V);
}.
#[global] Arguments PolicyDocument : clear implicits.

Inductive PolicyResult := PolicyAllow | PolicyDeny | NoMatch.
#[export] Instance PolicyResult_eq_dec : EqDecision PolicyResult.
Proof. solve_decision. Defined.

Section Engine.
Context {V : Type}.

Definition evaluate_statement (stmt : Statement V) (action resource : string) : PolicyResult :=
  if negb (existsb (fun p => glob_match p action) (action_patterns (st_action stmt))) then NoMatch
  else if negb (existsb (fun p => glob_match p resource) (resource_patterns (st_resource stmt))) then NoMatch
  else match st_effect stmt with Allow => PolicyAllow | Deny => PolicyDeny end.

Fixpoint evaluate_loop (stmts : list (Statement V)) (action resource : string) (has_allow : bool) : PolicyResult :=
  match stmts with
  | [] => if has_allow then PolicyAllow else NoMatch
  | stmt :: stmts =>
      match evaluate_statement stmt action resource with
      | PolicyDeny => PolicyDeny
      | PolicyAllow => evaluate_loop stmts action resource true
      | NoMatch => evaluate_loop stmts action resource has_allow
      end
  end.
Definition evaluate_policy (policy : PolicyDocument V) (action resource : string) : PolicyResult :=
  evaluate_loop (pd_statement policy) action resource false.

Fixpoint policies_loop (policies : list (PolicyDocument V)) (action resource : string) (has_allow : bool) : bool :=
  match policies with
  | [] => has_allow
  | policy :: policies =>
      match evaluate_policy policy action resource with
      | PolicyDeny => false
      | PolicyAllow => policies_loop policies action resource true
      | NoMatch => policies_loop policies action resource has_allow
      end
  end.
Definition evaluate_policies (policies : list (PolicyDocument V)) (action resource : string) : bool :=
  policies_loop policies action resource false.
End Engine.

(** ** The setup wizard's closed list of roles *)

Module SystemRole.
Inductive t := SuperAdmin | Admin | TeamManager | Developer | Viewer.
Definition as_str (r : t) : string :=
  match r with
  | SuperAdmin => "super_admin" | Admin => "admin" | TeamManager => "team_manager"
  | Developer => "developer" | Viewer => "viewer"
  end.
Definition parse (s : string) : option t :=
  if decide (s = "super_admin") then Some SuperAdmin
  else if decide (s = "admin") then Some Admin
  else if decide (s = "team_manager") then Some TeamManager
  else if decide (s = "developer") then Some Developer
  else if decide (s = "viewer") then Some Viewer
  else None.
End SystemRole.

(** ** Roles and who holds them *)

Record rbac_tables {U V : Type} := {
  (** [rbac_roles]: id, name, document. *)
  rt_roles : list (U * string * V);
  (** [rbac_role_assignments]: user, role, scope kind, scope id. *)
  rt_assignments : list (U * U * string * option U);
  (** [team_members]: team, user. *)
  rt_members : list (U * U);
  (** [team_role_assignments]: team, role. *)
  rt_team_roles : list (U * U);
}.
#[global] Arguments rbac_tables : clear implicits.

Record UserResourceLimits := {
  url_ai_gateway : bool;
  url_allowed_models : option (list string);
  url_mcp_gateway : bool;
  url_allowed_mcp_tools : option (list string);
}.
Definition UserResourceLimits_none : UserResourceLimits :=
  {| url_ai_gateway := false; url_allowed_models := Some []; url_mcp_gateway := false;
     url_allowed_mcp_tools := Some [] |}.

(** One gateway surface, folded across roles; the items a sorted set. *)
Record SurfaceGrant := { sg_granted : bool; sg_unrestricted : bool; sg_items : list string }.
Definition SurfaceGrant_new : SurfaceGrant :=
  {| sg_granted := false; sg_unrestricted := false; sg_items := [] |}.
Definition grant_add (g : SurfaceGrant) (scope : ResourceScope) : SurfaceGrant :=
  match scope with
  | NotGranted => g
  | All => {| sg_granted := true; sg_unrestricted := true; sg_items := sg_items g |}
  | Only l => {| sg_granted := true; sg_unrestricted := sg_unrestricted g;
                 sg_items := btree_extend (sg_items g) l |}
  end.
Definition grant_finish (g : SurfaceGrant) (denied : bool) : bool * option (list string) :=
  if negb (sg_granted g) || denied then (false, Some [])
  else if sg_unrestricted g then (true, None)
  else (true, Some (sg_items g)).

Section Rbac.
Context {U V : Type} `{EqDecision U, EqDecision V, JsonValue V}.
Context (policy_from_value : V -> result string (PolicyDocument V)).
Context (decode_constraints : V -> option PolicyConstraints).
Definition policy_of_json (v : V) : option (PolicyDocument V) :=
  match policy_from_value v with Ok d => Some d | Err _ => None end.

(** ** Which roles count *)

(** The teams a user is in bring their roles. *)
Definition team_roles_of (T : rbac_tables U V) (user : U) : list U :=
  snd <$> filter (fun tra => (tra.1, user) ∈ rt_members T) (rt_team_roles T).
Definition roles_of (T : rbac_tables U V) (user : U) : list U :=
  ((fun ra => ra.1.1.2) <$> filter (fun ra => ra.1.1.1 = user) (rt_assignments T)) ++ team_roles_of T user.
Definition gateway_roles_of (T : rbac_tables U V) (user : U) : list U :=
  ((fun ra => ra.1.1.2) <$> filter (fun ra => ra.1.1.1 = user /\ ra.1.2 = "global") (rt_assignments T))
  ++ team_roles_of T user.

(** [SELECT DISTINCT r.policy_document .. JOIN rbac_roles]. *)
Definition documents_of_roles (T : rbac_tables U V) (ids : list U) : list V :=
  remove_dups (snd <$> filter (fun r => r.1.1 ∈ ids) (rt_roles T)).
Definition load_user_policy_documents (T : rbac_tables U V) (user : U) : list V :=
  documents_of_roles T (roles_of T user).
Definition load_gateway_policy_documents (T : rbac_tables U V) (user : U) : list V :=
  documents_of_roles T (gateway_roles_of T user).

(** The names of the roles; those whose names the database sorts alike keep one order here. *)
Definition load_user_role_names (T : rbac_tables U V) (user : U) : list string :=
  btree_extend [] ((fun r => r.1.2) <$> filter (fun r => r.1.1 ∈ roles_of T user) (rt_roles T)).

(** ** Permissions *)

Definition compute_user_permissions (T : rbac_tables U V) (user : U) (all_perm_keys : list string) : list string :=
  foldl (fun perms doc => btree_extend perms (extract_permissions doc all_perm_keys)) []
    (load_user_policy_documents T user).

Definition denies (policies : list (PolicyDocument V)) (action : string) : bool :=
  existsb (fun doc => bool_decide (evaluate_policy doc action "*" = PolicyDeny)) policies.

Definition compute_denied_permissions (T : rbac_tables U V) (user : U) (allowed : list string) : list string :=
  let docs := load_user_policy_documents T user in
  if bool_decide (docs = []) then []
  else
    let policies := omap policy_of_json docs in
    match policies with [] => [] | _ => filter (fun perm => denies policies perm = true) allowed end.

(** ** Gateway access *)

Definition resource_limits_from_documents (docs : list V) : UserResourceLimits :=
  let models := foldl (fun g doc => grant_add g (extract_model_scope doc)) SurfaceGrant_new docs in
  let tools := foldl (fun g doc => grant_add g (extract_mcp_tool_scope doc)) SurfaceGrant_new docs in
  let policies := omap policy_of_json docs in
  let '(ai_gateway, allowed_models) := grant_finish models (denies policies "ai_gateway:use") in
  let '(mcp_gateway, allowed_mcp_tools) := grant_finish tools (denies policies "mcp_gateway:use") in
  {| url_ai_gateway := ai_gateway; url_allowed_models := allowed_models;
     url_mcp_gateway := mcp_gateway; url_allowed_mcp_tools := allowed_mcp_tools |}.

Definition compute_user_resource_limits (T : rbac_tables U V) (user : U) : UserResourceLimits :=
  resource_limits_from_documents (load_gateway_policy_documents T user).

(** ** Limits *)

Definition compute_user_role_constraints (T : rbac_tables U V) (user : U) : SurfaceConstraints :=
  merge_most_restrictive (extract_surface_constraints decode_constraints <$> load_gateway_policy_documents T user).

Definition compute_user_surface_constraints (T : rbac_tables U V) (L : limit_tables U) (now : Z) (user : U)
    : SurfaceConstraints :=
  let role_merged := compute_user_role_constraints T user in
  let rule_overrides := list_enabled_rules_for_subjects L now [(RateLimitSubject.User, user)] in
  let cap_overrides := list_enabled_caps_for_subjects L now [(BudgetSubject.User, user)] in
  let override_constraints := side_table_as_constraints rule_overrides cap_overrides in
  if decide (override_constraints = SurfaceConstraints_default) then role_merged
  else apply_user_overrides role_merged override_constraints.

Definition compute_key_surface_constraints (L : limit_tables U) (now : Z) (lineage_id : U) : SurfaceConstraints :=
  side_table_as_constraints
    (list_enabled_rules_for_subjects L now [(RateLimitSubject.ApiKeyLineage, lineage_id)])
    (list_enabled_caps_for_subjects L now [(BudgetSubject.ApiKeyLineage, lineage_id)]).

(** ** Validation of a document *)

Context (json_text_len : V -> Z).

Definition statement_error (i : nat) (what : string) : result string unit :=
  Err ("Statement[" +:+ pretty i +:+ "]: " +:+ what).

Definition validate_statement (i : nat) (stmt : Statement V) : result string unit :=
  let actions := action_patterns (st_action stmt) in
  let resources := resource_patterns (st_resource stmt) in
  if bool_decide (actions = []) then statement_error i "Action must not be empty"
  else if bool_decide (resources = []) then statement_error i "Resource must not be empty"
  else if (50 <? length actions)%nat then statement_error i "Too many action patterns (max 50)"
  else if (50 <? length resources)%nat then statement_error i "Too many resource patterns (max 50)"
  else if existsb (fun a => bool_decide (a = "")) actions then statement_error i "Action pattern must not be empty"
  else if existsb (fun r => bool_decide (r = "")) resources then statement_error i "Resource pattern must not be empty"
  else Ok tt.

Definition validate_policy_document (value : V) : result string (PolicyDocument V) :=
  if 65536 <? json_text_len value then Err "Policy document too large (max 64 KB)"
  else match policy_from_value value with
  | Err e => Err ("Invalid policy JSON: " +:+ e)
  | Ok doc =>
      if (length (pd_statement doc) =? 0)%nat then Err "Policy must contain at least one Statement"
      else if (100 <? length (pd_statement doc))%nat then Err "Policy contains too many statements (max 100)"
      else _ ← try_enumerate validate_statement (pd_statement doc); Ok doc
  end.
End Rbac.

(** * What roles give

    Theorems about [Rbac]: a user's permissions and denials, and what the user reaches at the two
    gateways, in terms of the documents of the roles the user has. *)

Section Spec.
Context {U V : Type} `{EqDecision U, EqDecision V, JsonValue V}.
Context (policy_from_value : V -> result string (PolicyDocument V)).
Abbreviation reads := (policy_of_json policy_from_value).

Implicit Types (T : rbac_tables U V) (doc : V).

(** ** Which roles a user has *)

Definition in_team_of (T : rbac_tables U V) (user role : U) : Prop :=
  exists team, (team, user) ∈ rt_members T /\ (team, role) ∈ rt_team_roles T.
Definition assigned (T : rbac_tables U V) (user role : U) (kind : string) : Prop :=
  exists scope, (user, role, kind, scope) ∈ rt_assignments T.
(** The document is one of a role the user has, at any scope or through a team; and of one that
    counts at the gateways. *)
Definition console_document (T : rbac_tables U V) (user : U) (doc : V) : Prop :=
  exists role name, (role, name, doc) ∈ rt_roles T /\
    ((exists kind, assigned T user role kind) \/ in_team_of T user role).
Definition gateway_document (T : rbac_tables U V) (user : U) (doc : V) : Prop :=
  exists role name, (role, name, doc) ∈ rt_roles T /\ (assigned T user role "global" \/ in_team_of T user role).

Lemma elem_of_team_roles T user role : role ∈ team_roles_of T user <-> in_team_of T user role.
Proof.
  unfold team_roles_of, in_team_of. rewrite list_elem_of_fmap. split.
  - intros ([team r] & -> & [Hm Hr]%list_elem_of_filter). by exists team.
  - intros (team & Hm & Hr). exists (team, role). split; [done|]. by apply list_elem_of_filter.
Qed.

Lemma elem_of_documents T ids doc : doc ∈ documents_of_roles T ids <->
  exists role name, (role, name, doc) ∈ rt_roles T /\ role ∈ ids.
Proof.
  unfold documents_of_roles. rewrite elem_of_remove_dups, list_elem_of_fmap. split.
  - intros ([[role name] d] & -> & [Hi Hr]%list_elem_of_filter). by exists role, name.
  - intros (role & name & Hr & Hi). exists (role, name, doc). split; [done|]. by apply list_elem_of_filter.
Qed.

Lemma elem_of_user_documents T user doc : doc ∈ load_user_policy_documents T user <-> console_document T user doc.
Proof.
  unfold load_user_policy_documents, roles_of, console_document, assigned. rewrite elem_of_documents.
  do 2 (apply exist_proper; intros ?). apply and_iff_compat_l. rewrite elem_of_app, elem_of_team_roles.
  apply or_iff_compat_r. rewrite list_elem_of_fmap. split.
  - intros ([[[u r] k] s] & -> & [Hu Hr]%list_elem_of_filter). simpl in Hu. subst u. eauto.
  - intros (k & s & Hr). eexists (_, _, k, s). split; [|by apply list_elem_of_filter]. done.
Qed.

Lemma elem_of_gateway_documents T user doc : doc ∈ load_gateway_policy_documents T user <-> gateway_document T user doc.
Proof.
  unfold load_gateway_policy_documents, gateway_roles_of, gateway_document, assigned. rewrite elem_of_documents.
  do 2 (apply exist_proper; intros ?). apply and_iff_compat_l. rewrite elem_of_app, elem_of_team_roles.
  apply or_iff_compat_r. rewrite list_elem_of_fmap. split.
  - intros ([[[u r] k] s] & -> & [[Hu Hk] Hr]%list_elem_of_filter). simpl in Hu, Hk. subst u k. eauto.
  - intros (s & Hr). eexists (_, _, _, s). split; [|by apply list_elem_of_filter]. done.
Qed.

(** ** Denials *)

(** The document denies [action] outright: a Deny whose patterns take it and the resource [*]. *)
Definition denied_by (doc : V) (action : string) : Prop :=
  exists policy stmt a r, reads doc = Some policy /\ stmt ∈ pd_statement policy /\ st_effect stmt = Deny /\
    a ∈ action_patterns (st_action stmt) /\ glob_match a action = true /\
    r ∈ resource_patterns (st_resource stmt) /\ glob_match r "*" = true.

Lemma existsb_elem {A} (f : A -> bool) l : existsb f l = true <-> exists x, x ∈ l /\ f x = true.
Proof. rewrite existsb_exists. by setoid_rewrite list_elem_of_In. Qed.

Lemma evaluate_statement_deny (stmt : Statement V) action resource :
  evaluate_statement stmt action resource = PolicyDeny <-> st_effect stmt = Deny /\
    (exists a, a ∈ action_patterns (st_action stmt) /\ glob_match a action = true) /\
    (exists r, r ∈ resource_patterns (st_resource stmt) /\ glob_match r resource = true).
Proof.
  rewrite <- !existsb_elem. unfold evaluate_statement.
  destruct (existsb _ (action_patterns _)); [|naive_solver]. destruct (existsb _ (resource_patterns _)); [|naive_solver].
  destruct (st_effect stmt); naive_solver.
Qed.

Lemma evaluate_loop_deny (stmts : list (Statement V)) action resource has_allow :
  evaluate_loop stmts action resource has_allow = PolicyDeny <->
  exists stmt, stmt ∈ stmts /\ evaluate_statement stmt action resource = PolicyDeny.
Proof.
  revert has_allow. induction stmts as [|stmt stmts IH]; intros has_allow; cbn [evaluate_loop].
  - split; [by destruct has_allow|]. intros (? & Hin & _). by apply elem_of_nil in Hin.
  - setoid_rewrite elem_of_cons. destruct (evaluate_statement stmt action resource) eqn:E.
    + rewrite IH. clear IH. split; [naive_solver|]. intros (x & [->|Hx] & Hd); [congruence|eauto].
    + split; [|done]. intros _. exists stmt. auto.
    + rewrite IH. clear IH. split; [naive_solver|]. intros (x & [->|Hx] & Hd); [congruence|eauto].
Qed.

Lemma denies_spec docs action : denies (omap reads docs) action = true <-> exists doc, doc ∈ docs /\ denied_by doc action.
Proof.
  unfold denies. rewrite existsb_elem. unfold denied_by. split.
  - intros (policy & (doc & Hin & Hr)%list_elem_of_omap & Hd). apply bool_decide_eq_true in Hd.
    apply evaluate_loop_deny in Hd as (stmt & Hs & (He & (a & Ha & Hga) & (r & Hr' & Hgr))%evaluate_statement_deny).
    exists doc. split; [done|]. by exists policy, stmt, a, r.
  - intros (doc & Hin & policy & stmt & a & r & Hr & Hs & He & Ha & Hga & Hr' & Hgr). exists policy.
    split; [apply list_elem_of_omap; eauto|]. apply bool_decide_eq_true, evaluate_loop_deny. exists stmt.
    split; [done|]. apply evaluate_statement_deny. eauto 10.
Qed.

(** ** Permissions *)

Lemma elem_of_user_permissions T user all p :
  p ∈ compute_user_permissions T user all <->
  exists doc, console_document T user doc /\ p ∈ extract_permissions doc all.
Proof.
  unfold compute_user_permissions.
  rewrite (foldl_or (fun l => p ∈ l) (fun doc => p ∈ extract_permissions doc all))
    by (intros; apply elem_of_btree_extend). setoid_rewrite elem_of_user_documents.
  split; [intros [Hin|?]; [by apply elem_of_nil in Hin|done]|auto].
Qed.

Lemma elem_of_denied T user allowed p :
  p ∈ compute_denied_permissions policy_from_value T user allowed <->
  p ∈ allowed /\ exists doc, console_document T user doc /\ denied_by doc p.
Proof.
  unfold compute_denied_permissions. cbv zeta. setoid_rewrite <- elem_of_user_documents.
  rewrite <- denies_spec. case_bool_decide as Hdocs.
  - rewrite Hdocs. simpl. split; [intros Hin; by apply elem_of_nil in Hin|naive_solver].
  - destruct (omap reads _) as [|d ds] eqn:E; [simpl; split; [intros Hin; by apply elem_of_nil in Hin|naive_solver]|].
    rewrite list_elem_of_filter. tauto.
Qed.

(** A user has a permission of the catalogue at the console, and not a denial of it, exactly
    when the document of some role of the user, held at any scope or through a team, has an Allow
    statement covering it and no document of the user's roles that is read denies it outright. *)
Lemma console_permission_iff T user all p : p ∈ all ->
  let perms := compute_user_permissions T user all in
  (p ∈ perms /\ p ∉ compute_denied_permissions policy_from_value T user perms) <->
  (exists doc stmt, console_document T user doc /\ stmt ∈ default [] (statements doc) /\ grants p stmt) /\
  (forall doc, console_document T user doc -> ~ denied_by doc p).
Proof.
  intros Hall perms. rewrite elem_of_denied. unfold perms. rewrite elem_of_user_permissions.
  setoid_rewrite (elem_of_permissions _ _ _ Hall). naive_solver.
Qed.

(** ** The gateways *)

Definition grants_surface (docs : list V) (action prefix : string) : SurfaceGrant :=
  foldl (fun g doc => grant_add g (extract_resource_scope doc action prefix)) SurfaceGrant_new docs.

(** Folded over documents, a surface is granted when one grants it, unrestricted when one has a
    granting statement for every resource, and otherwise holds what they list. *)
Lemma grants_surface_spec docs action prefix (g := grants_surface docs action prefix) :
  (sg_granted g = true <-> exists doc, doc ∈ docs /\ extract_resource_scope doc action prefix <> NotGranted) /\
  (sg_unrestricted g = true <-> exists doc, doc ∈ docs /\ extract_resource_scope doc action prefix = All) /\
  (forall x, x ∈ sg_items g <-> exists doc, doc ∈ docs /\ exists l, extract_resource_scope doc action prefix = Only l /\ x ∈ l).
Proof.
  unfold g, grants_surface. split_and!.
  - rewrite (foldl_or (fun g => sg_granted g = true) (fun doc => extract_resource_scope doc action prefix <> NotGranted)).
    + simpl. intuition congruence.
    + intros acc doc. unfold grant_add. destruct (extract_resource_scope _ _ _); simpl; intuition congruence.
  - rewrite (foldl_or (fun g => sg_unrestricted g = true) (fun doc => extract_resource_scope doc action prefix = All)).
    + simpl. intuition congruence.
    + intros acc doc. unfold grant_add. destruct (extract_resource_scope _ _ _); simpl; intuition congruence.
  - intros x. rewrite (foldl_or (fun g => x ∈ sg_items g)
      (fun doc => exists l, extract_resource_scope doc action prefix = Only l /\ x ∈ l)).
    + simpl. rewrite elem_of_nil. tauto.
    + intros acc doc. unfold grant_add. destruct (extract_resource_scope _ _ _); simpl; [naive_solver..|].
      rewrite elem_of_btree_extend. naive_solver.
Qed.

(** Some document that counts at the gateways has a statement granting [action] of which [Q]. *)
Definition granting T (user : U) (action : string) (Q : V -> Prop) : Prop :=
  exists doc stmt, gateway_document T user doc /\ stmt ∈ default [] (statements doc) /\ grants action stmt /\ Q stmt.

Lemma scope_not_granted doc action prefix :
  extract_resource_scope doc action prefix <> NotGranted <->
  exists stmt, stmt ∈ default [] (statements doc) /\ grants action stmt.
Proof.
  pose proof (extract_resource_scope_spec doc action prefix) as Hs.
  destruct (extract_resource_scope doc action prefix) as [| |l]; simpl in Hs; [naive_solver| |].
  - split; [|done]. destruct Hs as (stmt & ? & ? & _). by exists stmt.
  - split; [|done]. by destruct Hs as (_ & [?|?] & _).
Qed.

Lemma scope_all doc action prefix :
  extract_resource_scope doc action prefix = All <->
  exists stmt, stmt ∈ default [] (statements doc) /\ grants action stmt /\ "*" ∈ stmt_resources stmt.
Proof.
  pose proof (extract_resource_scope_spec doc action prefix) as Hs.
  destruct (extract_resource_scope doc action prefix) as [| |l]; simpl in Hs; [|done|].
  - split; [done|]. intros (stmt & Hin & Hg & _). by destruct (proj2 Hs stmt Hin).
  - split; [done|]. intros (stmt & Hin & Hg & Hall). destruct Hs as (_ & _ & Hno & _). by destruct (Hno stmt Hin Hg).
Qed.

Definition surface_is T (user : U) (action prefix : string) (is_open : bool) (allowed : option (list string)) : Prop :=
  (is_open = true <-> granting T user action (fun _ => True) /\
                      forall doc, gateway_document T user doc -> ~ denied_by doc action) /\
  (is_open = false -> allowed = Some []) /\
  (is_open = true ->
     (allowed = None <-> granting T user action (fun stmt => "*" ∈ stmt_resources stmt)) /\
     forall l, allowed = Some l -> forall x, x ∈ l <-> granting T user action (fun stmt => prefix +:+ x ∈ stmt_resources stmt)).

Lemma surface_finish T user action prefix :
  let '(is_open, allowed) := grant_finish (grants_surface (load_gateway_policy_documents T user) action prefix)
                             (denies (omap reads (load_gateway_policy_documents T user)) action) in
  surface_is T user action prefix is_open allowed.
Proof.
  destruct (grants_surface_spec (load_gateway_policy_documents T user) action prefix) as (Hg & Hu & Hi).
  assert (Hgrant : sg_granted (grants_surface (load_gateway_policy_documents T user) action prefix) = true <-> granting T user action (fun _ => True)).
  { rewrite Hg. setoid_rewrite scope_not_granted. setoid_rewrite elem_of_gateway_documents. unfold granting. naive_solver. }
  assert (Hall : sg_unrestricted (grants_surface (load_gateway_policy_documents T user) action prefix) = true <->
                 granting T user action (fun stmt => "*" ∈ stmt_resources stmt)).
  { rewrite Hu. setoid_rewrite scope_all. setoid_rewrite elem_of_gateway_documents. unfold granting. naive_solver. }
  assert (Hden : denies (omap reads (load_gateway_policy_documents T user)) action = true <-> exists doc, gateway_document T user doc /\ denied_by doc action).
  { rewrite denies_spec. by setoid_rewrite elem_of_gateway_documents. }
  unfold grant_finish. destruct (sg_granted _) eqn:Eg; cbn [negb orb].
  2: { split; [|split; [done|done]]. split; [done|]. intros [Hx _]. apply Hgrant in Hx. congruence. }
  destruct (denies _ _) eqn:Ed.
  { split; [|split; [done|done]]. split; [done|]. intros [_ Hx].
    destruct (proj1 Hden eq_refl) as (doc & ? & ?). by destruct (Hx doc). }
  assert (Hopen : granting T user action (fun _ => True) /\ forall doc, gateway_document T user doc -> ~ denied_by doc action).
  { split; [by apply Hgrant|]. intros doc Hdoc Hd. pose proof (proj2 Hden (ex_intro _ doc (conj Hdoc Hd))). congruence. }
  destruct (sg_unrestricted _) eqn:Eu; (split; [by split|]; split; [done|]; intros _; split).
  - split; [by intros _; apply Hall|done].
  - done.
  - split; [done|]. intros Hx. apply Hall in Hx. congruence.
  - intros l [= <-] x. rewrite Hi. setoid_rewrite elem_of_gateway_documents. split.
    + intros (doc & Hdoc & l & E & Hx). pose proof (extract_resource_scope_spec doc action prefix) as Hs. rewrite E in Hs.
      destruct Hs as (_ & _ & _ & Hl). apply Hl in Hx as [Hx|(stmt & Hin & Hgs & Hx)]; [by apply elem_of_nil in Hx|].
      by exists doc, stmt.
    + intros (doc & stmt & Hdoc & Hin & Hgs & Hx). exists doc. split; [done|].
      pose proof (extract_resource_scope_spec doc action prefix) as Hs.
      destruct (extract_resource_scope doc action prefix) as [| |l] eqn:E; simpl in Hs.
      * by destruct (proj2 Hs stmt Hin).
      * exfalso. assert (Hx' : granting T user action (fun stmt => "*" ∈ stmt_resources stmt)).
        { destruct Hs as (s & ? & ? & ?). by exists doc, s. }
        apply Hall in Hx'. congruence.
      * exists l. split; [done|]. apply Hs. right. by exists stmt.
Qed.

(** C7: What a user reaches at each gateway is decided by the documents of the roles held at
    global scope or through a team, a role granted at team scope counting for nothing: a surface
    is open exactly when one of them has an Allow covering its use action and none denies that
    action outright; it is then unrestricted exactly when a covering Allow names every resource,
    and otherwise lists exactly the resources the covering Allows name; closed, it lists nothing. *)
Theorem gateway_access_iff T user (L := compute_user_resource_limits policy_from_value T user) :
  surface_is T user "ai_gateway:use" "model:" (url_ai_gateway L) (url_allowed_models L) /\
  surface_is T user "mcp_gateway:use" "mcp_tool:" (url_mcp_gateway L) (url_allowed_mcp_tools L).
Proof.
  pose proof (surface_finish T user "ai_gateway:use" "model:") as Ha.
  pose proof (surface_finish T user "mcp_gateway:use" "mcp_tool:") as Hm.
  unfold L, compute_user_resource_limits, resource_limits_from_documents.
  unfold extract_model_scope, extract_mcp_tool_scope. fold (grants_surface (load_gateway_policy_documents T user) "ai_gateway:use" "model:").
  fold (grants_surface (load_gateway_policy_documents T user) "mcp_gateway:use" "mcp_tool:").
  cbv zeta in *. destruct (grant_finish _ (denies _ "ai_gateway:use")). by destruct (grant_finish _ (denies _ "mcp_gateway:use")).
Qed.

(** ** A user's limits *)

Context (decode_constraints : V -> option PolicyConstraints).

Lemma overrides_none base : apply_user_overrides base SurfaceConstraints_default = base.
Proof. by destruct base. Qed.

Lemma surface_constraints_eq T L now user :
  compute_user_surface_constraints decode_constraints T L now user =
  apply_user_overrides (compute_user_role_constraints decode_constraints T user)
    (side_table_as_constraints (list_enabled_rules_for_subjects L now [(RateLimitSubject.User, user)])
                               (list_enabled_caps_for_subjects L now [(BudgetSubject.User, user)])).
Proof.
  unfold compute_user_surface_constraints. cbv zeta. case_decide as Hd; [|done]. by rewrite Hd, overrides_none.
Qed.

(** The override stored for a slot of the user, if it is in force. *)
Definition override_in_force (S : rules_spec (U := U) * caps_spec (U := U)) (now : Z) (user : U) (s : Surface.t)
    (metric : RateMetric.t) (window : Z) : option Z :=
  match S.1 (RateLimitSubject.as_str RateLimitSubject.User, user, Surface.as_str s, RateMetric.as_str metric, window) with
  | Some (_, req) => if decide (ur_enabled req = true /\ unexpired now (ur_expires_at req)) then Some (ur_max_count req) else None
  | None => None
  end.

Definition in_slot (s : Surface.t) (metric : RateMetric.t) (window : Z) (r : RateLimitRule U) : Prop :=
  rr_enabled r = true /\ rr_surface r = s /\ rr_metric r = metric /\ rr_window_secs r = window.

#[local] Instance in_slot_dec s metric window r : Decision (in_slot s metric window r).
Proof. unfold in_slot. apply _. Defined.

Lemma override_listed os now user s metric window c :
  override_in_force (run_spec os) now user s metric window = Some c <->
  exists r, r ∈ enabled_rules_of (run_ops os) now RateLimitSubject.User user /\ in_slot s metric window r /\ rr_max_count r = c.
Proof.
  pose proof (represents_run os) as HTS. setoid_rewrite (elem_of_enabled_rules _ _ _ _ _ _ HTS).
  destruct HTS as [(_ & _ & Hkey) _]. unfold override_in_force, in_slot. split.
  - destruct ((run_spec os).1 _) as [[i req]|] eqn:E; [|done]. case_decide as Hf; [|done]. intros [= <-].
    apply Hkey in E as Hk. injection Hk as Hk1 Hk2 Hk3 Hk4 Hk5.
    exists (rule_of_request i req). split; [|simpl; split_and!; try done; [by apply Hf| |]].
    + eexists _, i, req. split; [exact E|]. split; [by apply rl_subject_as_str_inj|]. by split_and!; try apply Hf.
    + apply (f_equal Surface.parse) in Hk3. rewrite !surface_parse_as_str in Hk3. by injection Hk3.
    + apply (f_equal RateMetric.parse) in Hk4. rewrite !metric_parse_as_str in Hk4. by injection Hk4.
  - intros (r & (k & i & req & E & Hkind & Hid & He & Hx & ->) & (_ & Hs & Hm & Hw) & <-). simpl in *.
    apply Hkey in E as Hk. rewrite <- Hk in E. unfold LimitStore.rule_key in E. simpl in E.
    rewrite Hkind, Hid, Hs, Hm, Hw in E. simpl in E. rewrite E. by rewrite decide_True.
Qed.

Lemma listed_override os now user s metric window :
  (fun p => rr_max_count p.2) <$> list_find (in_slot s metric window) (enabled_rules_of (run_ops os) now RateLimitSubject.User user)
    = override_in_force (run_spec os) now user s metric window.
Proof.
  destruct (list_find _ _) as [[i row]|] eqn:E; symmetry; simpl.
  - apply list_find_Some in E as (Hi%list_elem_of_lookup_2 & Hp & _). apply override_listed. by exists row.
  - destruct (override_in_force _ _ _ _ _ _) as [c|] eqn:Hc; [|done].
    apply override_listed in Hc as (r & Hr & Hp & _). apply list_find_None in E. rewrite Forall_forall in E. by destruct (E r).
Qed.

(** The limit a user is held to on a surface, for a metric and window, is the largest count
    of the override stored for exactly that slot, where one is enabled and not expired, whatever
    the roles say; and otherwise the least count that a granting statement of the roles counting
    at the gateways sets. *)
Theorem user_limit_is os T now user s metric window n :
  {| sr_metric := metric; sr_window_secs := window; sr_max_count := n; sr_enabled := true |}
    ∈ block_rules (compute_user_surface_constraints decode_constraints T (run_ops os) now user) s <->
  match override_in_force (run_spec os) now user s metric window with
  | Some count => n = count
  | None => is_min (rule_candidate (extract_surface_constraints decode_constraints <$> load_gateway_policy_documents T user)
                      s metric window) n
  end.
Proof.
  rewrite surface_constraints_eq, <- listed_override. unfold compute_user_role_constraints.
  rewrite override_or_min.
  - unfold list_enabled_rules_for_subjects. simpl. rewrite app_nil_r. unfold in_slot. by destruct (list_find _ _) as [[i row]|].
  - unfold list_enabled_rules_for_subjects. simpl. rewrite app_nil_r. eapply enabled_rules_slots, represents_run.
Qed.
End Spec.
