(* ===== verification/Scope.v ===== *)
(** * Console authorisation

    The gates of [AuthUser] in [crates/server/src/middleware/auth_guard.rs]: the permission check,
    and the scope queries that say where a permission counts.  The queries read the live tables;
    [q] says whether a query goes through.  A document is taken to be an object with a list of
    statements whose actions are texts, as [validate_policy_document] admits; the queries fail on
    others. *)
From Stdlib Require Import Ascii.
From S2P Require Import Prelude Interfaces LimitTypes LimitStore Policy Constraints Sliding Effects GatewayDeps Text AuditRow ExpiringKeys Glob Validation Lockout Login Sessions Rbac.

(** ** The permission check *)

Definition require_permission {U} (a : AuthUser U) (perm : string) : result AppError unit :=
  if bool_decide (perm ∈ au_denied_permissions a) then Err (Forbidden ("Permission explicitly denied: " +:+ perm))
  else if bool_decide (perm ∈ au_permissions a) then Ok tt
  else Err (Forbidden ("Missing required permission: " +:+ perm)).

Section Scope.
Context {U V : Type} `{Uuid U, EqDecision U, EqDecision V, JsonValue V}.

(** An API key's row, as far as the scope checks read it: id, lineage, owner. *)
Record console_tables := {
  ct_rbac : rbac_tables U V;
  ct_api_keys : list (U * U * option U);
}.

(** The [EXISTS] over a document's statements. *)
Definition doc_allows (doc : V) (perm : string) : bool :=
  existsb (fun stmt => is_allow stmt && existsb (fun act => act_matches act perm) (stmt_actions stmt))
    (default [] (statements doc)).
Definition role_allows (T : rbac_tables U V) (role : U) (perm : string) : bool :=
  existsb (fun r => bool_decide (r.1.1 = role) && doc_allows r.2 perm) (rt_roles T).

(** An assignment of the user's satisfying [where_scope], or a role inherited from a team. *)
Definition scope_exists (T : rbac_tables U V) (user : U) (perm : string)
    (where_scope : string -> option U -> bool) : bool :=
  existsb (fun ra => bool_decide (ra.1.1.1 = user) && role_allows T ra.1.1.2 perm && where_scope ra.1.2 ra.2)
    (rt_assignments T)
  || existsb (fun role => role_allows T role perm) (team_roles_of T user).

Definition is_global (kind : string) (_ : option U) : bool := bool_decide (kind = "global").
Definition teams_of (T : rbac_tables U V) (user : U) : list U := fst <$> filter (fun m => m.2 = user) (rt_members T).
Definition covers_user (T : rbac_tables U V) (target : U) (kind : string) (scope : option U) : bool :=
  is_global kind scope ||
  bool_decide (kind = "team") && match scope with Some team => bool_decide (team ∈ teams_of T target) | None => false end.
Definition covers_team (target : U) (kind : string) (scope : option U) : bool :=
  is_global kind scope || bool_decide (kind = "team") && bool_decide (scope = Some target).

(** Whether a query goes through. *)
Definition query {A} (q : link) (what : string) (a : A) : result AppError A :=
  match q with LinkOk => Ok a | _ => Err (Internal what) end.

Definition assert_scope_global (a : AuthUser U) (q : link) (T : rbac_tables U V) (perm : string) : result AppError unit :=
  has ← query q "scope check failed" (scope_exists T (cl_sub (au_claims a)) perm is_global);
  if has : bool then Ok tt
  else Err (Forbidden (perm +:+ " requires global scope (this is a platform-wide resource)")).

Definition require_global_permission (a : AuthUser U) (q : link) (T : rbac_tables U V) (perm : string) : result AppError unit :=
  _ ← require_permission a perm; assert_scope_global a q T perm.

Definition assert_scope_for_user (a : AuthUser U) (q : link) (T : rbac_tables U V) (perm : string) (target_user_id : U)
    : result AppError unit :=
  if decide (cl_sub (au_claims a) = target_user_id) then Ok tt
  else
    has ← query q "scope check failed" (scope_exists T (cl_sub (au_claims a)) perm (covers_user T target_user_id));
    if has : bool then Ok tt else Err (Forbidden (perm +:+ " not granted in any scope covering this user")).

Definition assert_scope_for_team (a : AuthUser U) (q : link) (T : rbac_tables U V) (perm : string) (target_team_id : U)
    : result AppError unit :=
  has ← query q "scope check failed" (scope_exists T (cl_sub (au_claims a)) perm (covers_team target_team_id));
  if has : bool then Ok tt
  else Err (Forbidden (perm +:+ " not granted in any scope covering team " +:+ uuid_str target_team_id)).

(** The owner of a key by its id, or by its lineage; of several rows, one. *)
Definition key_owner (keys : list (U * U * option U)) (by_lineage : bool) (id : U) : option U :=
  head (filter (fun k => (if by_lineage then k.1.2 else k.1.1) = id) keys) ≫= snd.

(** [q1] is the lookup of a key's owner, [q2] the scope query. *)
Definition assert_scope_for_subject (a : AuthUser U) (q1 q2 : link) (C : console_tables) (perm subject_kind : string)
    (subject_id : U) : result AppError unit :=
  let T := ct_rbac C in
  let finish (owner : option U) :=
    match owner with
    | Some user_id =>
        if decide (user_id <> cl_sub (au_claims a)) then assert_scope_for_user a q2 T perm user_id
        else assert_scope_global a q2 T perm
    | None => assert_scope_global a q2 T perm
    end in
  if decide (subject_kind = "role") then assert_scope_global a q2 T perm
  else if decide (subject_kind = "user") then finish (Some subject_id)
  else if decide (subject_kind = "api_key") then
    owner ← query q1 "scope check failed" (key_owner (ct_api_keys C) false subject_id); finish owner
  else if decide (subject_kind = "api_key_lineage") then
    owner ← query q1 "scope check failed" (key_owner (ct_api_keys C) true subject_id); finish owner
  else Err (BadRequest ("unknown subject_kind '" +:+ subject_kind +:+ "' (expected: user, api_key, role)")).

(** The teams a list is narrowed to: [None] for all of them.  [cache] is the request's memo. *)
Definition team_scopes (T : rbac_tables U V) (user : U) (perm : string) : list U :=
  remove_dups (omap snd (filter (fun ra => ra.1.1.1 = user /\ ra.1.2 = "team" /\ role_allows T ra.1.1.2 perm = true)
                           (rt_assignments T))).
Definition owned_team_scope_for_perm (a : AuthUser U) (q1 q2 : link) (T : rbac_tables U V) (perm : string)
    (cache : gmap string (option (list U))) : gmap string (option (list U)) * result AppError (option (list U)) :=
  match cache !! perm with
  | Some cached => (cache, Ok cached)
  | None =>
      match query q1 "scope lookup failed" (scope_exists T (cl_sub (au_claims a)) perm is_global) with
      | Err e => (cache, Err e)
      | Ok true => (<[perm := None]> cache, Ok None)
      | Ok false =>
          match query q2 "scope lookup failed" (team_scopes T (cl_sub (au_claims a)) perm) with
          | Err e => (cache, Err e)
          | Ok scope => (<[perm := Some scope]> cache, Ok (Some scope))
          end
      end
  end.
End Scope.
#[global] Arguments console_tables : clear implicits.

(** * Where a permission counts

    Theorems about [Scope]: who may touch whose limits, and what the platform-wide gate demands;
    with a role that widens a grant it does not itself give. *)

Section Spec.
Context {U V : Type} `{Uuid U, EqDecision U, EqDecision V, JsonValue V}.
Implicit Types (T : rbac_tables U V) (a : AuthUser U) (doc : V).
Abbreviation sub a := (cl_sub (au_claims a)).

(** A role whose document allows [perm], as the scope queries read it. *)
Definition role_has T (role : U) (perm : string) : Prop :=
  exists name doc, (role, name, doc) ∈ rt_roles T /\ exists stmt act, stmt ∈ default [] (statements doc) /\
    is_allow stmt = true /\ act ∈ stmt_actions stmt /\ act_matches act perm = true.

(** Held everywhere: at global scope, or through a team. *)
Definition holds_globally T (user : U) (perm : string) : Prop :=
  exists role, role_has T role perm /\ (assigned T user role "global" \/ in_team_of T user role).
(** Held for a team; and for a team [target] is in. *)
Definition holds_in_team T (user : U) (perm : string) (team : U) : Prop :=
  exists role, role_has T role perm /\ (user, role, "team", Some team) ∈ rt_assignments T.
Definition holds_for_user T (user : U) (perm : string) (target : U) : Prop :=
  exists team, holds_in_team T user perm team /\ (team, target) ∈ rt_members T.

Lemma role_allows_spec T role perm : role_allows T role perm = true <-> role_has T role perm.
Proof.
  unfold role_allows, role_has, doc_allows. rewrite existsb_elem. split.
  - intros ([[r name] doc] & Hin & [Hr (stmt & Hs & [Ha (act & Hact & Hm)%existsb_elem]%andb_true_iff)%existsb_elem]%andb_true_iff).
    apply bool_decide_eq_true in Hr. simpl in Hr. subst r. exists name, doc. split; [done|]. by exists stmt, act.
  - intros (name & doc & Hin & stmt & act & Hs & Ha & Hact & Hm). exists (role, name, doc). split; [done|].
    apply andb_true_iff. split; [by apply bool_decide_eq_true|]. apply existsb_elem. exists stmt. split; [done|].
    apply andb_true_iff. split; [done|]. apply existsb_elem. by exists act.
Qed.

Lemma scope_exists_spec T user perm where_scope :
  scope_exists T user perm where_scope = true <->
  (exists role kind scope, (user, role, kind, scope) ∈ rt_assignments T /\ role_has T role perm /\ where_scope kind scope = true) \/
  exists role, in_team_of T user role /\ role_has T role perm.
Proof.
  unfold scope_exists. rewrite orb_true_iff, !existsb_elem. setoid_rewrite elem_of_team_roles.
  setoid_rewrite role_allows_spec. apply or_iff_compat_r. split.
  - intros ([[[u role] kind] scope] & Hin & [[Hu Hr]%andb_true_iff Hs]%andb_true_iff).
    apply bool_decide_eq_true in Hu. simpl in *. subst u. apply role_allows_spec in Hr. eauto 6.
  - intros (role & kind & scope & Hin & Hr & Hs). exists (user, role, kind, scope). split; [done|].
    rewrite !andb_true_iff, bool_decide_eq_true, role_allows_spec. done.
Qed.

Lemma global_scope_spec T user perm : scope_exists T user perm is_global = true <-> holds_globally T user perm.
Proof.
  rewrite scope_exists_spec. unfold holds_globally, assigned, is_global. setoid_rewrite bool_decide_eq_true. split.
  - intros [(role & kind & scope & Hin & Hr & ->)|(role & Ht & Hr)]; exists role; eauto.
  - intros (role & Hr & [[scope Hin]|Ht]); [left; by exists role, "global", scope|right; by exists role].
Qed.

Lemma user_scope_spec T user perm target :
  scope_exists T user perm (covers_user T target) = true <-> holds_globally T user perm \/ holds_for_user T user perm target.
Proof.
  rewrite scope_exists_spec. unfold covers_user. split.
  - intros [(role & kind & scope & Hin & Hr & [Hg|Hs]%orb_true_iff)|(role & Ht & Hr)].
    + apply bool_decide_eq_true in Hg as ->. left. exists role. split; [done|]. left. by exists scope.
    + apply andb_true_iff in Hs as [->%bool_decide_eq_true Hs]. destruct scope as [team|]; [|done].
      apply bool_decide_eq_true in Hs. unfold teams_of in Hs.
      apply list_elem_of_fmap in Hs as ([t m] & -> & [Hm Hmem]%list_elem_of_filter). simpl in Hm. subst m.
      right. exists t. split; [|done]. by exists role.
    + left. exists role. auto.
  - intros [(role & Hr & [[scope Hin]|Ht])|(team & (role & Hr & Hin) & Hm)].
    + left. exists role, "global", scope. done.
    + right. by exists role.
    + left. exists role, "team", (Some team). split; [done|]. split; [done|]. simpl.
      apply bool_decide_eq_true. unfold teams_of. apply list_elem_of_fmap. exists (team, target).
      split; [done|]. by apply list_elem_of_filter.
Qed.

Lemma team_scope_spec T user perm team :
  scope_exists T user perm (covers_team team) = true <-> holds_globally T user perm \/ holds_in_team T user perm team.
Proof.
  rewrite scope_exists_spec. unfold covers_team. split.
  - intros [(role & kind & scope & Hin & Hr & [Hg|Hs]%orb_true_iff)|(role & Ht & Hr)].
    + apply bool_decide_eq_true in Hg as ->. left. exists role. split; [done|]. left. by exists scope.
    + apply andb_true_iff in Hs as [->%bool_decide_eq_true ->%bool_decide_eq_true]. right. by exists role.
    + left. exists role. auto.
  - intros [(role & Hr & [[scope Hin]|Ht])|(role & Hr & Hin)].
    + left. exists role, "global", scope. done.
    + right. by exists role.
    + left. exists role, "team", (Some team). split; [done|]. split; [done|]. simpl. by apply bool_decide_eq_true.
Qed.

Lemma query_Ok {A} q what (x y : A) : query q what x = Ok y <-> q = LinkOk /\ y = x.
Proof. destruct q; simpl; naive_solver. Qed.

Lemma assert_global_Ok a q T perm : assert_scope_global a q T perm = Ok tt <-> q = LinkOk /\ holds_globally T (sub a) perm.
Proof.
  rewrite <- global_scope_spec. unfold assert_scope_global. destruct q; simpl; [|naive_solver..].
  destruct (scope_exists _ _ _ _); naive_solver.
Qed.

Lemma assert_user_Ok a q T perm target : assert_scope_for_user a q T perm target = Ok tt <->
  sub a = target \/ q = LinkOk /\ (holds_globally T (sub a) perm \/ holds_for_user T (sub a) perm target).
Proof.
  rewrite <- user_scope_spec. unfold assert_scope_for_user. case_decide; [naive_solver|].
  destruct q; simpl; [|naive_solver..]. destruct (scope_exists _ _ _ _); naive_solver.
Qed.

(** ** Whose limits a caller may set *)

(** The subject kinds and who owns them; [None] for an unknown kind. *)
Definition subject_owner (C : console_tables U V) (kind : string) (id : U) : option (option U) :=
  if decide (kind = "role") then Some None
  else if decide (kind = "user") then Some (Some id)
  else if decide (kind = "api_key") then Some (key_owner (ct_api_keys C) false id)
  else if decide (kind = "api_key_lineage") then Some (key_owner (ct_api_keys C) true id)
  else None.
Definition looks_up_key (kind : string) : Prop := kind = "api_key" \/ kind = "api_key_lineage".

Lemma scope_for_subject_cases a q1 q2 C perm kind id (T := ct_rbac C) :
  assert_scope_for_subject a q1 q2 C perm kind id = Ok tt <->
  q2 = LinkOk /\ (looks_up_key kind -> q1 = LinkOk) /\
  exists owner, subject_owner C kind id = Some owner /\
    (holds_globally T (sub a) perm \/
     exists user, owner = Some user /\ user <> sub a /\ holds_for_user T (sub a) perm user).
Proof.
  assert (Hfinish : forall owner,
    match owner with
    | Some user_id => if decide (user_id <> sub a) then assert_scope_for_user a q2 T perm user_id
                      else assert_scope_global a q2 T perm
    | None => assert_scope_global a q2 T perm
    end = Ok tt <-> q2 = LinkOk /\ (holds_globally T (sub a) perm \/
      exists user, owner = Some user /\ user <> sub a /\ holds_for_user T (sub a) perm user)).
  { intros [user|]; [case_decide as Hd|]; rewrite ?assert_user_Ok, ?assert_global_Ok; naive_solver. }
  unfold assert_scope_for_subject, subject_owner, looks_up_key. fold T.
  destruct (decide (kind = "role")) as [->|]; [rewrite assert_global_Ok; naive_solver|].
  destruct (decide (kind = "user")) as [->|]; [rewrite (Hfinish (Some id)); naive_solver|].
  destruct (decide (kind = "api_key")) as [->|].
  { destruct q1; cbn [query mbind result_bind]; [rewrite Hfinish; naive_solver|naive_solver..]. }
  destruct (decide (kind = "api_key_lineage")) as [->|].
  { destruct q1; cbn [query mbind result_bind]; [rewrite Hfinish; naive_solver|naive_solver..]. }
  naive_solver.
Qed.

(** C2: A caller may set the limits of a subject exactly when the subject is of a known kind and
    the caller holds the permission everywhere, or the subject is another user, or another
    user's key, and the caller holds it for a team that user is in; so a grant scoped to a team
    never reaches the caller's own limits, a role's, or an ownerless key's, and a query that fails
    refuses. *)
Theorem scope_for_subject_iff a q1 q2 C perm kind id (T := ct_rbac C) :
  assert_scope_for_subject a q1 q2 C perm kind id = Ok tt <->
  q2 = LinkOk /\ (looks_up_key kind -> q1 = LinkOk) /\
  exists owner, subject_owner C kind id = Some owner /\
    (holds_globally T (sub a) perm \/
     exists user, owner = Some user /\ user <> sub a /\ holds_for_user T (sub a) perm user).
Proof. apply scope_for_subject_cases. Qed.

(** ** The gate of a platform-wide action *)

Context (policy_from_value : V -> result string (PolicyDocument V)).

(** What a request carries: the permissions and denials of its user's roles. *)
Definition carries T (all : list string) a : Prop :=
  au_permissions a = compute_user_permissions T (sub a) all /\
  au_denied_permissions a = compute_denied_permissions policy_from_value T (sub a) (au_permissions a).

Lemma require_permission_Ok a perm :
  require_permission a perm = Ok tt <-> perm ∈ au_permissions a /\ perm ∉ au_denied_permissions a.
Proof. unfold require_permission. repeat case_bool_decide; naive_solver. Qed.

(** A permission of the catalogue: ASCII, without a star. *)
Definition plain (perm : string) : Prop := is_ascii perm = true /\ has_char "*" perm = false.

Lemma granted_globally T user doc stmt perm : gateway_document T user doc -> stmt ∈ default [] (statements doc) ->
  grants perm stmt -> plain perm -> Forall (fun act => has_char "\" act = false) (stmt_actions stmt) ->
  holds_globally T user perm.
Proof.
  intros (role & name & Hrole & Hscope) Hstmt [Hallow Hact] [Hascii Hstar] Hclean.
  apply action_matches_any_spec in Hact as (act & Hin & Hcov). exists role. split; [|done].
  exists name, doc. split; [done|]. exists stmt, act. split_and!; [done..|].
  rewrite Forall_forall in Hclean.
  apply act_matches_glob; [by apply Hclean|done|]. by apply action_globs.
Qed.

(** A platform-wide action is let through exactly when the scope query answers, some role of
    the user has an Allow covering the permission, no role's document denies it, and some role
    held at global scope or through a team allows it as the scope query reads patterns; and an
    Allow of a role so held is read by the query as allowing it too, so that the gate never turns
    away the holder of a global grant that nothing denies. *)
Theorem global_permission_iff T all a q perm : carries T all a -> perm ∈ all ->
  (require_global_permission a q T perm = Ok tt <->
   q = LinkOk /\
   (exists doc stmt, console_document T (sub a) doc /\ stmt ∈ default [] (statements doc) /\ grants perm stmt) /\
   (forall doc, console_document T (sub a) doc -> ~ denied_by policy_from_value doc perm) /\
   holds_globally T (sub a) perm) /\
  (forall doc stmt, gateway_document T (sub a) doc -> stmt ∈ default [] (statements doc) -> grants perm stmt ->
     plain perm -> Forall (fun act => has_char "\" act = false) (stmt_actions stmt) ->
     (forall doc, console_document T (sub a) doc -> ~ denied_by policy_from_value doc perm) ->
     require_global_permission a LinkOk T perm = Ok tt).
Proof.
  intros [Hp Hd] Hall.
  assert (Hiff : forall q, require_global_permission a q T perm = Ok tt <-> q = LinkOk /\
   (exists doc stmt, console_document T (sub a) doc /\ stmt ∈ default [] (statements doc) /\ grants perm stmt) /\
   (forall doc, console_document T (sub a) doc -> ~ denied_by policy_from_value doc perm) /\
   holds_globally T (sub a) perm).
  { intros q'. pose proof (console_permission_iff policy_from_value T (sub a) all perm Hall) as Hc. cbv zeta in Hc.
    rewrite <- Hp, <- Hd, <- require_permission_Ok in Hc. unfold require_global_permission.
    pose proof (assert_global_Ok a q' T perm) as Hg.
    destruct (require_permission a perm) as [[]|e]; cbn [mbind result_bind]; [rewrite Hg|]; naive_solver. }
  split; [apply Hiff|]. intros doc stmt Hdoc Hs Hgr Hascii Hclean Hden. apply Hiff. split_and!; [done| |done|].
  - exists doc, stmt. split; [|done]. destruct Hdoc as (role & name & Hr & Hsc). exists role, name.
    split; [done|]. destruct Hsc as [?|?]; [left; by exists "global"|by right].
  - by eapply granted_globally.
Qed.
End Spec.

(** * Roles on concrete tables

    The gates of [Scope] on JSON documents, with serde's reading of the fields the roles use; and a
    role that widens where another role's permission counts. *)

(** A document as serde reads it: strings or lists of strings. *)
Definition demo_statement (v : json) : option (Statement json) :=
  effect ← json_get "Effect" v ≫= json_as_str;
  let strings k := str_or_array (json_get k v) in
  Some {| st_sid := None; st_effect := if decide (effect = "Deny") then Deny else Allow;
          st_action := MultipleActions (strings "Action"); st_resource := MultipleResources (strings "Resource");
          st_condition := None |}.
Definition demo_policy (v : json) : result string (PolicyDocument json) :=
  match json_get "Statement" v ≫= json_as_array with
  | Some stmts => Ok {| pd_version := ""; pd_statement := omap demo_statement stmts |}
  | None => Err "missing field `Statement`"
  end.

Definition demo_role (effect action : string) : json :=
  Interfaces.JObj [("Statement", Interfaces.JArr [Interfaces.JObj [("Effect", Interfaces.JStr effect); ("Action", Interfaces.JStr action); ("Resource", Interfaces.JStr "*")]])].
Definition demo_catalogue : list string := ["users:read"; "users:update"; "roles:read"].
Definition demo_user (T : rbac_tables demo_uuid json) (user : demo_uuid) : AuthUser demo_uuid :=
  let perms := compute_user_permissions T user demo_catalogue in
  {| au_claims := {| cl_sub := user; cl_email := "a@example.com"; cl_exp := 0; cl_iat := 0; cl_token_type := "access" |};
     au_ip := None; au_user_agent := None; au_permissions := perms;
     au_denied_permissions := compute_denied_permissions demo_policy T user perms |}.

(** Alice holds "users:read" and "users:update" everywhere. *)
Definition demo_tables : rbac_tables demo_uuid json := {|
  rt_roles := [(UKey1, "support", demo_role "Allow" "users:*")];
  rt_assignments := [(UAlice, UKey1, "global", None)];
  rt_members := []; rt_team_roles := [];
|}.

Lemma global_permission_iff_witness :
  require_global_permission (demo_user demo_tables UAlice) LinkOk demo_tables "users:read" = Ok tt.
Proof.
  apply (global_permission_iff demo_policy demo_tables demo_catalogue (demo_user demo_tables UAlice) LinkOk "users:read");
    [by split|left|].
  assert (Hden : forall doc, console_document demo_tables UAlice doc -> ~ denied_by demo_policy doc "users:read").
  { intros doc (role & name & Hin & _) (policy & stmt & a & r & Hr & Hs & Hd & _).
    apply list_elem_of_singleton in Hin as [= -> -> ->]. injection Hr as <-.
    apply list_elem_of_singleton in Hs as ->. done. }
  split_and!; [done| |done|].
  - exists (demo_role "Allow" "users:*"). eexists. split; [|split; [left|by split]].
    exists UKey1, "support". split; [left|]. left. exists "global", None. left.
  - exists UKey1. split; [|left; exists None; left]. exists "support". eexists. split; [left|].
    eexists _, "users:*". split; [left|]. split; [done|]. split; [left|done].
Defined.

(** Alice reads users through a role held for one team only; a role held everywhere, whose pattern
    gives no permission of the catalogue, makes the gate take the team grant for a global one. *)
Definition widened_tables : rbac_tables demo_uuid json := {|
  rt_roles := [(UKey1, "team reader", demo_role "Allow" "users:read"); (UNil, "odd", demo_role "Allow" "users:*d")];
  rt_assignments := [(UAlice, UKey1, "team", Some UNil); (UAlice, UNil, "global", None)];
  rt_members := []; rt_team_roles := [];
|}.
Definition without_odd : rbac_tables demo_uuid json := {|
  rt_roles := rt_roles widened_tables; rt_assignments := [(UAlice, UKey1, "team", Some UNil)];
  rt_members := []; rt_team_roles := [];
|}.

Lemma scope_widened :
  extract_permissions (demo_role "Allow" "users:*d") demo_catalogue = ["users:*d"] /\
  is_ok (require_global_permission (demo_user without_odd UAlice) LinkOk without_odd "users:read") = false /\
  require_global_permission (demo_user widened_tables UAlice) LinkOk widened_tables "users:read" = Ok tt.
Proof. split_and!; vm_compute; reflexivity. Qed.
