(* ===== verification/AllowList.v ===== *)
(** * Allow-lists: a key's against its owner's roles

    The lists of models and tools a key and a role name, as
    [crates/server/src/middleware/api_key_auth.rs] intersects them when the key is used and
    [crates/server/src/handlers/api_keys.rs] checks them when it is made.  An entry is a pattern:
    a model entry a prefix, a tool entry one of [*], [<server>__*], [<server>__<tool>]. *)

From Stdlib Require Import Ascii.
From S2P Require Import Prelude Interfaces GatewayDeps Text McpRegistry.

(** ** When a key is used *)

Definition model_entry_covers (general specific : string) : bool := starts_with general specific.

Definition mcp_entry_covers (general specific : string) : bool :=
  if bool_decide (general = "*") || bool_decide (general = specific) then true
  else if bool_decide (specific = "*") || ends_with "__*" specific then false
  else is_tool_allowed (Some [general]) specific.

(** The entries of one side that the other covers. *)
Definition kept (covers : string -> string -> bool) (side other : list string) : list string :=
  filter (fun entry => existsb (fun g => covers g entry) other = true) side.

Definition intersect_allowlists (key_list role_list : option (list string)) (covers : string -> string -> bool)
    : option (list string) :=
  match key_list, role_list with
  | None, None => None
  | Some k, None => Some k
  | None, Some r => Some r
  | Some k, Some r => Some (btree_extend (btree_extend [] (kept covers k r)) (kept covers r k))
  end.

(** ** When a key is made *)

Definition model_granted (granted : list string) (m : string) : bool :=
  existsb (fun g => bool_decide (m = g) || starts_with g m) granted.
Definition first_uncovered_model (requested granted : list string) : option string :=
  snd <$> list_find (fun m => model_granted granted m = false) requested.

Definition mcp_pattern_covered (requested : string) (granted : list string) : bool :=
  if bool_decide ("*" ∈ granted) then true
  else if bool_decide (requested ∈ granted) then true
  else if ends_with "__*" requested then false
  else match split_str "__" requested with
       | Some (server, _) => bool_decide (server +:+ "__*" ∈ granted)
       | None => false
       end.
Definition first_uncovered_mcp_tool (requested granted : list string) : option string :=
  snd <$> list_find (fun p => mcp_pattern_covered p granted = false) requested.

(** ** What the lists let through *)

(** The gateway's own reading of a list of models ([GatewayRequestIdentity::may_call]). *)
Definition model_listed (allowed : option (list string)) (model : string) : bool :=
  match allowed with
  | None => true
  | Some l => existsb (fun m => String.eqb model m || starts_with m model) l
  end.

Lemma existsb_elem_of {A} (f : A -> bool) l : existsb f l = true <-> exists x, x ∈ l /\ f x = true.
Proof. rewrite existsb_exists. by setoid_rewrite list_elem_of_In. Qed.

Lemma elem_of_kept covers side other e :
  e ∈ kept covers side other <-> e ∈ side /\ exists g, g ∈ other /\ covers g e = true.
Proof. unfold kept. rewrite list_elem_of_filter, existsb_elem_of. tauto. Qed.

(** ** Intersection over any patterns *)

(** [matches e x]: the entry lets [x] through.  A cover lets through all its entry does, and of two
    entries that let the same [x] through one covers the other. *)
Class PatternCover (matches covers : string -> string -> bool) : Prop := {
  cover_sound g e x : covers g e = true -> matches e x = true -> matches g x = true;
  cover_complete a b x : matches a x = true -> matches b x = true -> covers a b = true \/ covers b a = true;
}.

Section Intersect.
Context (matches covers : string -> string -> bool) `{!PatternCover matches covers}.

Definition lets_through (l : option (list string)) (x : string) : bool :=
  match l with None => true | Some l => existsb (fun e => matches e x) l end.

Lemma intersect_lets_through k r x :
  lets_through (intersect_allowlists k r covers) x = lets_through k x && lets_through r x.
Proof.
  destruct k as [k|], r as [r|]; simpl; rewrite ?andb_true_r; [|done..].
  apply Bool.eq_true_iff_eq. rewrite andb_true_iff, !existsb_elem_of. split.
  - intros (e & He & Hm). rewrite !elem_of_btree_extend, !elem_of_kept in He.
    destruct He as [[Hnil|(He & g & Hg & Hc)]|(He & g & Hg & Hc)]; [by apply elem_of_nil in Hnil|..];
      pose proof (cover_sound _ _ _ Hc Hm); split; eauto.
  - intros [(a & Ha & Hma) (b & Hb & Hmb)].
    destruct (cover_complete _ _ _ Hma Hmb) as [Hc|Hc]; [exists b|exists a];
      (split; [|done]); rewrite !elem_of_btree_extend, !elem_of_kept; eauto 6.
Qed.
End Intersect.

(** ** The two surfaces *)

Definition model_matches (e m : string) : bool := String.eqb m e || starts_with e m.

Lemma model_matches_prefix e m : model_matches e m = true <-> starts_with e m = true.
Proof.
  unfold model_matches. rewrite orb_true_iff, String.eqb_eq. split; [intros [->|?]; [|done]|auto].
  apply starts_with_spec. exists "". by rewrite str_app_nil_r.
Qed.

Lemma prefixes_comparable a b m : starts_with a m = true -> starts_with b m = true ->
  starts_with a b = true \/ starts_with b a = true.
Proof.
  rewrite !starts_with_spec. intros [u ->] [v E]. revert b v E. induction a as [|c a IH]; intros b v E.
  - left. by exists b.
  - destruct b as [|d b]; [right; by exists (String c a)|]. injection E as <- E.
    destruct (IH b v E) as [[t ->]|[t ->]]; [left|right]; by exists t.
Qed.

#[export] Instance model_cover : PatternCover model_matches model_entry_covers.
Proof.
  split; unfold model_entry_covers.
  - intros g e x Hc Hm. apply model_matches_prefix. apply model_matches_prefix in Hm.
    apply starts_with_spec in Hc as [u ->]. apply starts_with_spec in Hm as [v ->].
    apply starts_with_spec. exists (u +:+ v). by rewrite str_app_assoc.
  - intros a b x Ha%model_matches_prefix Hb%model_matches_prefix. by eapply prefixes_comparable.
Qed.

Lemma pattern_exact_parts p t : p <> "*" -> ends_with "__*" p = false -> pattern_matches p t = true ->
  p = t /\ has_char "*" p = false /\ exists s u, split_str "__" p = Some (s, u) /\ s <> "" /\ u <> "".
Proof.
  unfold pattern_matches, ends_with. intros Hs He. destruct (String.eqb_spec p "*"); [done|].
  destruct (strip_suffix _ p); [done|]. destruct (has_char _ _); [done|].
  destruct (split_str _ p) as [[a b]|]; [|done]. destruct (negb _ && negb _) eqn:Hn; [|done]. intros ->%String.eqb_eq.
  apply andb_true_iff in Hn as [Ha%negb_true_iff%is_empty_false Hb%negb_true_iff%is_empty_false].
  split_and!; [done..|]. by exists a, b.
Qed.

Lemma pattern_exact p t : p <> "*" -> ends_with "__*" p = false -> pattern_matches p t = true -> p = t.
Proof. intros. by eapply pattern_exact_parts. Qed.

(** The server of a wildcard that lets a tool through is the tool's. *)
Lemma pattern_server p t : p <> "*" -> ends_with "__*" p = true -> pattern_matches p t = true ->
  exists s u, split_str "__" t = Some (s, u) /\ p = s +:+ "__*".
Proof.
  unfold pattern_matches, ends_with. intros Hs He. destruct (String.eqb_spec p "*"); [done|].
  destruct (strip_suffix _ p) as [server|] eqn:E; [|done]. apply strip_suffix_Some in E as ->.
  destruct (_ || _); [done|]. destruct (split_str "__" t) as [[s u]|]; [|done].
  intros [->%String.eqb_eq _]%andb_true_iff. by exists server, u.
Qed.

Lemma mcp_entry_covers_true g e : mcp_entry_covers g e = true <->
  g = "*" \/ g = e \/ e <> "*" /\ ends_with "__*" e = false /\ pattern_matches g e = true.
Proof.
  unfold mcp_entry_covers, is_tool_allowed. simpl. rewrite orb_false_r.
  repeat case_bool_decide; simpl; try naive_solver; destruct (ends_with _ e); naive_solver.
Qed.

#[export] Instance mcp_cover : PatternCover pattern_matches mcp_entry_covers.
Proof.
  split.
  - intros g e x [->|[->|(Hs & He & Hg)]]%mcp_entry_covers_true Hm; [done|done|].
    by rewrite <- (pattern_exact e x).
  - intros a b x Ha Hb. rewrite !mcp_entry_covers_true.
    destruct (decide (a = "*")) as [|Hsa]; [auto|]. destruct (decide (b = "*")) as [|Hsb]; [auto|].
    destruct (ends_with "__*" a) eqn:Ea, (ends_with "__*" b) eqn:Eb.
    + destruct (pattern_server a x) as (s & u & E & ->); [done..|].
      destruct (pattern_server b x) as (s' & u' & E' & ->); [done..|]. rewrite E in E'. simplify_eq. auto.
    + pose proof (pattern_exact b x Hsb Eb Hb). subst. auto 6.
    + pose proof (pattern_exact a x Hsa Ea Ha). subst. auto 6.
    + rewrite (pattern_exact a x), (pattern_exact b x) by done. auto.
Qed.

Lemma model_granted_listed granted m : model_granted granted m = model_listed (Some granted) m.
Proof.
  unfold model_granted, model_listed. induction granted as [|g l IH]; [done|]. simpl. rewrite IH. f_equal. f_equal.
  apply Bool.eq_true_iff_eq. by rewrite bool_decide_eq_true, String.eqb_eq.
Qed.

Lemma uncovered_none {P : string -> Prop} `{!forall x, Decision (P x)} (l : list string) :
  snd <$> list_find P l = None -> forall x, x ∈ l -> ~ P x.
Proof.
  intros Hf x Hx. apply fmap_None, list_find_None in Hf. rewrite Forall_forall in Hf. by apply Hf.
Qed.

Lemma mcp_pattern_within requested granted t :
  mcp_pattern_covered requested granted = true -> pattern_matches requested t = true ->
  is_tool_allowed (Some granted) t = true.
Proof.
  unfold mcp_pattern_covered. intros Hc Hm. simpl. apply existsb_elem_of.
  case_bool_decide; [by exists "*"|]. case_bool_decide; [by exists requested|].
  destruct (ends_with "__*" requested) eqn:He; [done|].
  destruct (decide (requested = "*")) as [->|Hs]; [done|].
  destruct (pattern_exact_parts _ _ Hs He Hm) as (<- & Hstar & s & u & Es & Hn1 & Hn2). rewrite Es in Hc.
  apply bool_decide_eq_true in Hc. exists (s +:+ "__*"). split; [done|].
  pose proof (split_str_app _ _ _ _ Es) as E. rewrite E in Es, Hstar |- *.
  apply (pattern_matches_split _ s u Es Hn1 Hn2). right. left. split; [done|].
  rewrite has_char_app in Hstar. by apply orb_false_iff in Hstar as [? _].
Qed.

(** C28: The list a request carries lets through exactly the models, and exactly the tools, that
    both the key's list and its owner's roles let through, whatever patterns the two lists name;
    and a list that passed the check made when a key is created or edited lets through nothing
    the roles of then did not. *)
Theorem allowlists_intersect :
  (forall key role m, model_listed (intersect_allowlists key role model_entry_covers) m =
                      model_listed key m && model_listed role m) /\
  (forall key role t, is_tool_allowed (intersect_allowlists key role mcp_entry_covers) t =
                      is_tool_allowed key t && is_tool_allowed role t) /\
  (forall requested granted m, first_uncovered_model requested granted = None ->
     model_listed (Some requested) m = true -> model_listed (Some granted) m = true) /\
  (forall requested granted t, first_uncovered_mcp_tool requested granted = None ->
     is_tool_allowed (Some requested) t = true -> is_tool_allowed (Some granted) t = true).
Proof.
  split_and!.
  - intros. exact (intersect_lets_through model_matches model_entry_covers key role m).
  - intros. exact (intersect_lets_through pattern_matches mcp_entry_covers key role t).
  - intros requested granted m Hf Hm. apply existsb_elem_of in Hm as (e & He & Hm).
    pose proof (uncovered_none _ Hf e He) as Hg. apply not_false_is_true in Hg. rewrite model_granted_listed in Hg.
    apply existsb_elem_of in Hg as (g & Hg & Hge). apply existsb_elem_of. exists g. split; [done|].
    exact (cover_sound g e m (proj1 (model_matches_prefix g e) Hge) Hm).
  - intros requested granted t Hf Ht. apply existsb_elem_of in Ht as (e & He & Hm).
    pose proof (uncovered_none _ Hf e He) as Hg. apply not_false_is_true in Hg. by eapply mcp_pattern_within.
Qed.
