(* ===== verification/ApiKeys.v ===== *)
(** * API keys: the table and what changes it

    [crates/server/src/services/api_key_repository.rs], the statements on [api_keys] elsewhere
    (use, the cascades when a user is disabled or deleted, the first key of the setup, the
    retention sweep) and the periodic pass of [crates/server/src/tasks/api_key_lifecycle.rs].
    Times are milliseconds; the database's [now()] is the time the statement reaches it.  Days
    added to a timestamp are 24 hours long, as they are in UTC, and intervals stay within the
    range of timestamps. *)

From Stdlib Require Import Ascii.
From stdpp Require Import sorting.
From S2P Require Import Prelude Interfaces LimitTypes LimitStore GatewayDeps Text Glob Sliding Effects AuditRow Validation Lockout Rbac.

(** ** The rows *)

(** [crates/common/src/models/api_key.rs], with the one column of the table it leaves out,
    [last_expiry_warning_days]. *)
Record ApiKey {U V : Type} := {
  ak_id : U;
  ak_key_prefix : string;
  ak_key_hash : string;
  ak_name : string;
  ak_user_id : option U;
  ak_surfaces : list string;
  ak_allowed_models : option (list string);
  ak_allowed_mcp_tools : option (list string);
  ak_mcp_account_overrides : V;
  ak_expires_at : option Z;
  ak_is_active : bool;
  ak_last_used_at : option Z;
  ak_created_at : Z;
  ak_deleted_at : option Z;
  ak_rotation_period_days : option Z;
  ak_rotated_from_id : option U;
  ak_grace_period_ends_at : option Z;
  ak_inactivity_timeout_days : option Z;
  ak_disabled_reason : option string;
  ak_last_rotation_at : option Z;
  ak_lineage_id : U;
  ak_cost_center : option string;
  ak_last_expiry_warning_days : option Z;
}.
#[global] Arguments ApiKey : clear implicits.

(** What the database holds of what the keys' code reads. *)
Record key_db {U V : Type} := {
  kd_keys : list (ApiKey U V);
  kd_users : list (User U);
  kd_rbac : rbac_tables U V;
  kd_limits : limit_tables U;
  (** [mcp_user_credentials]: server, user, label. *)
  kd_credentials : list (U * U * string);
}.
#[global] Arguments key_db : clear implicits.

Record key_world {U V St : Type} := {
  kw_calls : nat;
  kw_db : key_db U V;
  kw_redis : St;
  kw_audit : list AuditEntry;
}.
#[global] Arguments key_world : clear implicits.

Definition day_ms : Z := 86400000.

(** [sqlx::Error] as the handlers see it. *)
Definition db_unavailable : AppError := ServiceUnavailable "Database unavailable".
Definition db_error : AppError := Internal "Database error".
Definition unique_violation : AppError := Conflict "Resource already exists".

(** The characters of a text: the bytes that do not continue one. *)
Fixpoint chars_count (s : string) : nat :=
  match s with
  | EmptyString => 0
  | String c s => (if continuation c then chars_count s else S (chars_count s))%nat
  end.
(** [chars().take(n).collect()]. *)
Fixpoint chars_take (n : nat) (s : string) : string :=
  match s with
  | EmptyString => ""
  | String c s =>
      if continuation c then String c (chars_take n s)
      else match n with O => "" | S n => String c (chars_take n s) end
  end.

Definition set_keys {U V} (rows : list (ApiKey U V)) (d : key_db U V) : key_db U V :=
  {| kd_keys := rows; kd_users := kd_users d; kd_rbac := kd_rbac d; kd_limits := kd_limits d;
     kd_credentials := kd_credentials d |}.

(** An [UPDATE .. WHERE]: the table after it, and the rows it changed, as [RETURNING] gives them. *)
Definition update_where {A} (P : A -> bool) (f : A -> A) (rows : list A) : list A * list A :=
  ((fun r => if P r then f r else r) <$> rows, f <$> filter (fun r => P r = true) rows).

(** ** The statements *)

Section Statements.
Context {U V St : Type} `{Uuid U, EqDecision U}.
Context (net : nat -> link) (clock : nat -> Z).
Abbreviation W := (key_world U V St).
Implicit Types (k : ApiKey U V) (d : key_db U V).

(** One statement, or one transaction; its own errors are values. *)
Definition statement {A} (q : Z -> key_db U V -> key_db U V * result AppError A) : io W AppError A := fun w =>
  let n := kw_calls w in
  let next d := {| kw_calls := S n; kw_db := d; kw_redis := kw_redis w; kw_audit := kw_audit w |} in
  match net n with
  | LinkOk => let '(d, r) := q (clock n) (kw_db w) in (next d, r)
  | LinkDown => (next (kw_db w), Err db_unavailable)
  | ReplyLost => (next (q (clock n) (kw_db w)).1, Err db_unavailable)
  end.
Definition select {A} (q : key_db U V -> result AppError A) : io W AppError A := statement (fun _ d => (d, q d)).
Definition select_at {A} (q : Z -> key_db U V -> A) : io W AppError A := statement (fun t d => (d, Ok (q t d))).

Definition key_now : io W AppError Z := fun w => (w, Ok (clock (kw_calls w))).
Definition key_log (e : AuditEntry) : io W AppError unit := fun w =>
  ({| kw_calls := kw_calls w; kw_db := kw_db w; kw_redis := kw_redis w; kw_audit := kw_audit w ++ [e] |}, Ok tt).
Fixpoint key_log_each (es : list AuditEntry) : io W AppError unit :=
  match es with [] => mret tt | e :: es => _ ← key_log e; key_log_each es end.

Definition live k : bool := bool_decide (ak_deleted_at k = None).
Definition is_live_key (id : U) k : bool := bool_decide (ak_id k = id) && live k.

(** An owner's column that is [NULL] is not the [Uuid] the query asks for. *)
Definition owner_of_live (id : U) : io W AppError (option U) :=
  select (fun d =>
    match head (filter (fun k => is_live_key id k = true) (kd_keys d)) with
    | None => Ok None
    | Some k => match ak_user_id k with Some u => Ok (Some u) | None => Err db_error end
    end).

Definition find_live (id : U) : io W AppError (option (ApiKey U V)) :=
  select (fun d => Ok (head (filter (fun k => is_live_key id k = true) (kd_keys d)))).

Definition mcp_credential_exists (server user : U) (label : string) : io W AppError bool :=
  select (fun d => Ok (bool_decide ((server, user, label) ∈ kd_credentials d))).

(** ** Lists *)

Definition visible (archived : bool) k : bool :=
  if archived then
    negb (live k) && match ak_disabled_reason k with
                     | Some r => bool_decide (r = "revoked") || starts_with "force_revoked:" r
                     | None => false
                     end
  else live k.

Definition newest_first k1 k2 : Prop := ak_created_at k2 <= ak_created_at k1.
#[local] Instance newest_first_dec k1 k2 : Decision (newest_first k1 k2).
Proof. unfold newest_first. apply _. Defined.

(** A page; rows created at the same time may come in any order, here the table's. *)
Definition page (limit offset : Z) (l : list (ApiKey U V)) : list (ApiKey U V) :=
  take (Z.to_nat limit) (drop (Z.to_nat offset) (merge_sort newest_first l)).
Definition of_owner (owner : option U) k : bool :=
  match owner with Some u => bool_decide (ak_user_id k = Some u) | None => true end.
Definition shown (archived : bool) (owner : option U) (rows : list (ApiKey U V)) : list (ApiKey U V) :=
  filter (fun k => visible archived k && of_owner owner k = true) rows.

Definition count_keys (archived : bool) (owner : option U) : io W AppError Z :=
  select (fun d => Ok (Z.of_nat (length (shown archived owner (kd_keys d))))).
Definition list_page (archived : bool) (owner : option U) (limit offset : Z) : io W AppError (list (ApiKey U V)) :=
  select (fun d => Ok (page limit offset (shown archived owner (kd_keys d)))).

Definition soonest_first k1 k2 : Prop :=
  match ak_expires_at k1, ak_expires_at k2 with Some a, Some b => a <= b | _, _ => True end.
#[local] Instance soonest_first_dec k1 k2 : Decision (soonest_first k1 k2).
Proof. unfold soonest_first. repeat case_match; apply _. Defined.
Definition expires_by (threshold : Z) (owner : option U) k : bool :=
  ak_is_active k && live k && match ak_expires_at k with Some e => e <=? threshold | None => false end
  && of_owner owner k.
Definition list_expiring (threshold : Z) (owner : option U) : io W AppError (list (ApiKey U V)) :=
  select (fun d => Ok (merge_sort soonest_first (filter (fun k => expires_by threshold owner k = true) (kd_keys d)))).

Definition cost_centers : io W AppError (list string) :=
  select (fun d => Ok (btree_extend [] (omap (fun k => if live k then ak_cost_center k else None) (kd_keys d)))).

(** ** Creating, revoking *)

Record NewApiKey := {
  nk_id : U;
  nk_key_prefix : string;
  nk_key_hash : string;
  nk_name : string;
  nk_user_id : U;
  nk_surfaces : list string;
  nk_allowed_models : option (list string);
  nk_allowed_mcp_tools : option (list string);
  nk_mcp_account_overrides : V;
  nk_expires_at : option Z;
  nk_cost_center : option string;
  nk_rotation_period_days : option Z;
}.

(** What the table refuses of a row: lengths, the unique id and hash, the checks on the surfaces
    and the two periods. *)
Definition row_allowed (k : ApiKey U V) : bool :=
  (chars_count (ak_name k) <=? 255)%nat
  && match ak_cost_center k with Some c => (chars_count c <=? 64)%nat | None => true end
  && negb (bool_decide (ak_surfaces k = []))
  && forallb (fun s => bool_decide (s ∈ ["ai_gateway"; "mcp_gateway"; "console"])) (ak_surfaces k)
  && match ak_rotation_period_days k with Some n => 0 <? n | None => true end
  && match ak_inactivity_timeout_days k with Some n => 0 <=? n | None => true end.

Definition insert_row k d : key_db U V * result AppError (ApiKey U V) :=
  if negb (row_allowed k) then (d, Err db_error)
  else if existsb (fun k' => bool_decide (ak_id k' = ak_id k) || bool_decide (ak_key_hash k' = ak_key_hash k)) (kd_keys d)
  then (d, Err unique_violation)
  else (set_keys (kd_keys d ++ [k]) d, Ok k).

Definition insert_key (key : NewApiKey) : io W AppError (ApiKey U V) :=
  statement (fun t => insert_row
    {| ak_id := nk_id key; ak_key_prefix := nk_key_prefix key; ak_key_hash := nk_key_hash key;
       ak_name := nk_name key; ak_user_id := Some (nk_user_id key); ak_surfaces := nk_surfaces key;
       ak_allowed_models := nk_allowed_models key; ak_allowed_mcp_tools := nk_allowed_mcp_tools key;
       ak_mcp_account_overrides := nk_mcp_account_overrides key; ak_expires_at := nk_expires_at key;
       ak_is_active := true; ak_last_used_at := None; ak_created_at := t; ak_deleted_at := None;
       ak_rotation_period_days := nk_rotation_period_days key; ak_rotated_from_id := None;
       ak_grace_period_ends_at := None; ak_inactivity_timeout_days := None; ak_disabled_reason := None;
       ak_last_rotation_at := None; ak_lineage_id := nk_id key; ak_cost_center := nk_cost_center key;
       ak_last_expiry_warning_days := None |}).

(** A row with its activity, grace end, reason, deletion and last warning replaced. *)
Definition with_state (active : bool) (grace : option Z) (reason : option string) (deleted : option Z) k : ApiKey U V :=
  {| ak_id := ak_id k; ak_key_prefix := ak_key_prefix k; ak_key_hash := ak_key_hash k; ak_name := ak_name k;
     ak_user_id := ak_user_id k; ak_surfaces := ak_surfaces k; ak_allowed_models := ak_allowed_models k;
     ak_allowed_mcp_tools := ak_allowed_mcp_tools k; ak_mcp_account_overrides := ak_mcp_account_overrides k;
     ak_expires_at := ak_expires_at k; ak_is_active := active; ak_last_used_at := ak_last_used_at k;
     ak_created_at := ak_created_at k; ak_deleted_at := deleted; ak_rotation_period_days := ak_rotation_period_days k;
     ak_rotated_from_id := ak_rotated_from_id k; ak_grace_period_ends_at := grace;
     ak_inactivity_timeout_days := ak_inactivity_timeout_days k; ak_disabled_reason := reason;
     ak_last_rotation_at := ak_last_rotation_at k; ak_lineage_id := ak_lineage_id k;
     ak_cost_center := ak_cost_center k; ak_last_expiry_warning_days := ak_last_expiry_warning_days k |}.
Definition deactivate k : ApiKey U V :=
  with_state false (ak_grace_period_ends_at k) (ak_disabled_reason k) (ak_deleted_at k) k.
Definition disable (reason : string) k : ApiKey U V :=
  with_state false (ak_grace_period_ends_at k) (Some reason) (ak_deleted_at k) k.

(** An update whose rows the table takes, with the rows changed. *)
Definition change (P : Z -> ApiKey U V -> bool) (f : Z -> ApiKey U V -> ApiKey U V) : io W AppError (list (ApiKey U V)) :=
  statement (fun t d => let '(rows, changed) := update_where (P t) (f t) (kd_keys d) in (set_keys rows d, Ok changed)).

Definition archive (reason : string) (t : Z) k : ApiKey U V := with_state false None (Some reason) (Some t) k.
Definition revoke (id : U) : io W AppError nat :=
  changed ← change (fun _ => is_live_key id) (archive "revoked"); mret (length changed).
Definition force_revoke (id : U) (disabled_reason : string) : io W AppError nat :=
  changed ← change (fun _ => is_live_key id) (archive disabled_reason); mret (length changed).

(** ** Editing *)

Record ApiKeyPatch := {
  pt_allowed_models : option (option (list string));
  pt_allowed_mcp_tools : option (option (list string));
  pt_surfaces : option (list string);
  pt_expires_at : option Z;
  pt_rotation_period_days : option Z;
  pt_inactivity_timeout_days : option Z;
  pt_cost_center : option (option string);
  pt_mcp_account_overrides : option V;
  pt_expiry_extended : bool;
}.

Definition patch_row (p : ApiKeyPatch) k : ApiKey U V :=
  {| ak_id := ak_id k; ak_key_prefix := ak_key_prefix k; ak_key_hash := ak_key_hash k; ak_name := ak_name k;
     ak_user_id := ak_user_id k; ak_surfaces := default (ak_surfaces k) (pt_surfaces p);
     ak_allowed_models := default (ak_allowed_models k) (pt_allowed_models p);
     ak_allowed_mcp_tools := default (ak_allowed_mcp_tools k) (pt_allowed_mcp_tools p);
     ak_mcp_account_overrides := default (ak_mcp_account_overrides k) (pt_mcp_account_overrides p);
     ak_expires_at := pt_expires_at p; ak_is_active := ak_is_active k; ak_last_used_at := ak_last_used_at k;
     ak_created_at := ak_created_at k; ak_deleted_at := ak_deleted_at k;
     ak_rotation_period_days := pt_rotation_period_days p ∪ ak_rotation_period_days k;
     ak_rotated_from_id := ak_rotated_from_id k; ak_grace_period_ends_at := ak_grace_period_ends_at k;
     ak_inactivity_timeout_days := pt_inactivity_timeout_days p ∪ ak_inactivity_timeout_days k;
     ak_disabled_reason := ak_disabled_reason k; ak_last_rotation_at := ak_last_rotation_at k;
     ak_lineage_id := ak_lineage_id k; ak_cost_center := default (ak_cost_center k) (pt_cost_center p);
     ak_last_expiry_warning_days := if pt_expiry_extended p then None else ak_last_expiry_warning_days k |}.

(** [WHERE id = $8 RETURNING *], of which one row is expected; a row the table refuses ends it. *)
Definition update_key_row (id : U) (p : ApiKeyPatch) : io W AppError (ApiKey U V) :=
  statement (fun _ d =>
    let '(rows, changed) := update_where (fun k => bool_decide (ak_id k = id)) (patch_row p) (kd_keys d) in
    if negb (forallb row_allowed changed) then (d, Err db_error)
    else match changed with
         | [] => (d, Err db_error)
         | k :: _ => (set_keys rows d, Ok k)
         end).

(** ** Rotating *)

(** The successor has a fresh [id] and a table's default for what the statement leaves out. *)
Definition successor (no_overrides : V) (new_id : U) (key_prefix key_hash : string) (t : Z) (old_key : ApiKey U V)
    : ApiKey U V :=
  {| ak_id := new_id; ak_key_prefix := key_prefix; ak_key_hash := key_hash; ak_name := ak_name old_key;
     ak_user_id := ak_user_id old_key; ak_surfaces := ak_surfaces old_key;
     ak_allowed_models := ak_allowed_models old_key; ak_allowed_mcp_tools := ak_allowed_mcp_tools old_key;
     ak_mcp_account_overrides := no_overrides; ak_expires_at := ak_expires_at old_key; ak_is_active := true;
     ak_last_used_at := None; ak_created_at := t; ak_deleted_at := None;
     ak_rotation_period_days := ak_rotation_period_days old_key; ak_rotated_from_id := Some (ak_id old_key);
     ak_grace_period_ends_at := None; ak_inactivity_timeout_days := ak_inactivity_timeout_days old_key;
     ak_disabled_reason := None; ak_last_rotation_at := Some t; ak_lineage_id := ak_lineage_id old_key;
     ak_cost_center := ak_cost_center old_key; ak_last_expiry_warning_days := None |}.
Definition enter_grace (grace_period_ends_at : Z) k : ApiKey U V :=
  with_state (ak_is_active k) (Some grace_period_ends_at) (Some "rotated") (ak_deleted_at k) k.

(** One transaction. *)
Definition rotate_rows (no_overrides : V) (old_key : ApiKey U V) (new_id : U) (key_prefix key_hash : string)
    (grace_period_ends_at t : Z) d : key_db U V * result AppError (ApiKey U V) :=
  match insert_row (successor no_overrides new_id key_prefix key_hash t old_key) d with
  | (d, Ok new_key) =>
      (set_keys (update_where (fun k => bool_decide (ak_id k = ak_id old_key)) (enter_grace grace_period_ends_at)
                   (kd_keys d)).1 d, Ok new_key)
  | (_, Err e) => (d, Err e)
  end.
Definition rotate (no_overrides : V) (old_key : ApiKey U V) (new_id : U) (key_prefix key_hash : string)
    (grace_period_ends_at : Z) : io W AppError (ApiKey U V) :=
  statement (rotate_rows no_overrides old_key new_id key_prefix key_hash grace_period_ends_at).

(** ** The statements elsewhere *)

(** A use of the key, on a task of its own. *)
Definition touch_row (t : Z) k : ApiKey U V :=
  {| ak_id := ak_id k; ak_key_prefix := ak_key_prefix k; ak_key_hash := ak_key_hash k; ak_name := ak_name k;
     ak_user_id := ak_user_id k; ak_surfaces := ak_surfaces k; ak_allowed_models := ak_allowed_models k;
     ak_allowed_mcp_tools := ak_allowed_mcp_tools k; ak_mcp_account_overrides := ak_mcp_account_overrides k;
     ak_expires_at := ak_expires_at k; ak_is_active := ak_is_active k; ak_last_used_at := Some t;
     ak_created_at := ak_created_at k; ak_deleted_at := ak_deleted_at k;
     ak_rotation_period_days := ak_rotation_period_days k; ak_rotated_from_id := ak_rotated_from_id k;
     ak_grace_period_ends_at := ak_grace_period_ends_at k; ak_inactivity_timeout_days := ak_inactivity_timeout_days k;
     ak_disabled_reason := ak_disabled_reason k; ak_last_rotation_at := ak_last_rotation_at k;
     ak_lineage_id := ak_lineage_id k; ak_cost_center := ak_cost_center k;
     ak_last_expiry_warning_days := ak_last_expiry_warning_days k |}.
Definition touch (id : U) : io W AppError unit := ignore (change (fun _ k => bool_decide (ak_id k = id)) touch_row).

Definition owned_live (user : U) k : bool := bool_decide (ak_user_id k = Some user) && live k.
Definition cascade (reason : string) (t : Z) k : ApiKey U V :=
  with_state false (ak_grace_period_ends_at k) (Some reason) (Some t) k.
Definition disable_api_keys_of_disabled_user (user : U) : io W AppError unit :=
  _ ← change (fun _ => owned_live user) (cascade "user_disabled"); mret tt.
Definition disable_api_keys_of_deleted_user (user : U) : io W AppError unit :=
  _ ← change (fun _ => owned_live user) (cascade "user_deleted"); mret tt.
(** The account's own deletion archives every key again, the archived ones too. *)
Definition account_keys_deleted (user : U) : io W AppError unit :=
  _ ← change (fun _ k => bool_decide (ak_user_id k = Some user)) (cascade "account_deleted"); mret tt.

(** The key made when the system is set up leaves the lineage to the column's default, a random id. *)
Definition setup_key (id lineage : U) (key_prefix key_hash key_name : string) (user : U) (key_surfaces : list string)
    (no_overrides : V) : io W AppError (ApiKey U V) :=
  statement (fun t => insert_row
    {| ak_id := id; ak_key_prefix := key_prefix; ak_key_hash := key_hash; ak_name := key_name;
       ak_user_id := Some user; ak_surfaces := key_surfaces; ak_allowed_models := None; ak_allowed_mcp_tools := None;
       ak_mcp_account_overrides := no_overrides; ak_expires_at := None; ak_is_active := true; ak_last_used_at := None;
       ak_created_at := t; ak_deleted_at := None; ak_rotation_period_days := None; ak_rotated_from_id := None;
       ak_grace_period_ends_at := None; ak_inactivity_timeout_days := None; ak_disabled_reason := None;
       ak_last_rotation_at := None; ak_lineage_id := lineage; ak_cost_center := None;
       ak_last_expiry_warning_days := None |}).

(** The retention sweep: archived users older than the cutoff go, and their keys lose their owner
    ([ON DELETE SET NULL]); then the archived keys older than it. *)
Definition with_owner (user : option U) k : ApiKey U V :=
  {| ak_id := ak_id k; ak_key_prefix := ak_key_prefix k; ak_key_hash := ak_key_hash k; ak_name := ak_name k;
     ak_user_id := user; ak_surfaces := ak_surfaces k; ak_allowed_models := ak_allowed_models k;
     ak_allowed_mcp_tools := ak_allowed_mcp_tools k; ak_mcp_account_overrides := ak_mcp_account_overrides k;
     ak_expires_at := ak_expires_at k; ak_is_active := ak_is_active k; ak_last_used_at := ak_last_used_at k;
     ak_created_at := ak_created_at k; ak_deleted_at := ak_deleted_at k;
     ak_rotation_period_days := ak_rotation_period_days k; ak_rotated_from_id := ak_rotated_from_id k;
     ak_grace_period_ends_at := ak_grace_period_ends_at k; ak_inactivity_timeout_days := ak_inactivity_timeout_days k;
     ak_disabled_reason := ak_disabled_reason k; ak_last_rotation_at := ak_last_rotation_at k;
     ak_lineage_id := ak_lineage_id k; ak_cost_center := ak_cost_center k;
     ak_last_expiry_warning_days := ak_last_expiry_warning_days k |}.
Definition retention_users (cutoff : Z) : io W AppError unit :=
  statement (fun _ d =>
    let gone u := match us_deleted_at u with Some x => x <? cutoff | None => false end in
    let kept := filter (fun u => gone u = false) (kd_users d) in
    let orphaned k := match ak_user_id k with
                      | Some uid => negb (existsb (fun u => bool_decide (us_id u = uid)) kept)
                      | None => false
                      end in
    ({| kd_keys := (update_where orphaned (with_owner None) (kd_keys d)).1; kd_users := kept; kd_rbac := kd_rbac d;
        kd_limits := kd_limits d; kd_credentials := kd_credentials d |}, Ok tt)).
Definition retention_delete (cutoff : Z) : io W AppError nat :=
  statement (fun _ d =>
    let gone k := match ak_deleted_at k with Some x => x <? cutoff | None => false end in
    (set_keys (filter (fun k => gone k = false) (kd_keys d)) d,
     Ok (length (filter (fun k => gone k = true) (kd_keys d))))).

(** ** The periodic pass *)

Definition emit_disable_audits (action : string) (rows : list (ApiKey U V)) (reason : string) : io W AppError unit :=
  key_log_each ((fun row =>
    let entry := with_detail (JObj [("api_key_id", JStr (uuid_str (ak_id row))); ("disabled_reason", JStr reason)])
                   (with_resource ("api_key:" +:+ uuid_str (ak_id row)) LogAudit (SystemActor_audit action)) in
    match ak_user_id row with Some uid => with_user_id (uuid_str uid) entry | None => entry end) <$> rows).

Definition no_reason k : bool := bool_decide (ak_disabled_reason k = None).
Definition expired_at (now : Z) k : bool :=
  ak_is_active k && match ak_expires_at k with Some e => e <? now | None => false end && no_reason k.
Definition idle_globally (threshold : Z) k : bool :=
  ak_is_active k && match ak_last_used_at k with Some u => u <? threshold | None => false end && no_reason k
  && match ak_inactivity_timeout_days k with None => true | Some n => n =? 0 end.
Definition idle_by_own (t : Z) k : bool :=
  ak_is_active k
  && match ak_inactivity_timeout_days k, ak_last_used_at k with
     | Some n, Some u => (0 <? n) && (u <? t - n * day_ms)
     | _, _ => false
     end && no_reason k.
Definition grace_over (now : Z) k : bool :=
  ak_is_active k && match ak_grace_period_ends_at k with Some g => g <? now | None => false end.

(** The bucket of a key's remaining days, for the keys warned about. *)
Definition warning_bucket (t : Z) k : option Z :=
  if ak_is_active k && live k && bool_decide (ak_grace_period_ends_at k = None) then
    match ak_expires_at k with
    | Some e =>
        if t <? e then
          if e <=? t + day_ms then Some 1
          else if e <=? t + 3 * day_ms then Some 3
          else if e <=? t + 7 * day_ms then Some 7
          else None
        else None
    | None => None
    end
  else None.
Definition warns (t : Z) k : bool :=
  match warning_bucket t k with
  | Some b => match ak_last_expiry_warning_days k with None => true | Some last => b <? last end
  | None => false
  end.
Definition warned (t : Z) k : ApiKey U V :=
  {| ak_id := ak_id k; ak_key_prefix := ak_key_prefix k; ak_key_hash := ak_key_hash k; ak_name := ak_name k;
     ak_user_id := ak_user_id k; ak_surfaces := ak_surfaces k; ak_allowed_models := ak_allowed_models k;
     ak_allowed_mcp_tools := ak_allowed_mcp_tools k; ak_mcp_account_overrides := ak_mcp_account_overrides k;
     ak_expires_at := ak_expires_at k; ak_is_active := ak_is_active k; ak_last_used_at := ak_last_used_at k;
     ak_created_at := ak_created_at k; ak_deleted_at := ak_deleted_at k;
     ak_rotation_period_days := ak_rotation_period_days k; ak_rotated_from_id := ak_rotated_from_id k;
     ak_grace_period_ends_at := ak_grace_period_ends_at k; ak_inactivity_timeout_days := ak_inactivity_timeout_days k;
     ak_disabled_reason := ak_disabled_reason k; ak_last_rotation_at := ak_last_rotation_at k;
     ak_lineage_id := ak_lineage_id k; ak_cost_center := ak_cost_center k;
     ak_last_expiry_warning_days := warning_bucket t k |}.

Context (rfc3339 : Z -> string).
(** The rows the update returns, each with its bucket in [ak_last_expiry_warning_days]. *)
Definition warning_row k : AuditEntry :=
  let entry := with_detail (JObj [("api_key_id", JStr (uuid_str (ak_id k)));
                                  ("expires_at", JStr (rfc3339 (default 0 (ak_expires_at k))));
                                  ("days_remaining_bucket", JNum (default 0 (ak_last_expiry_warning_days k)))])
                 (with_resource ("api_key:" +:+ uuid_str (ak_id k)) LogAudit (SystemActor_audit "key.expiry_warning")) in
  match ak_user_id k with Some uid => with_user_id (uuid_str uid) entry | None => entry end.

Definition run_lifecycle_check (global_inactivity_days : Z) : io W AppError unit :=
  now ← key_now;
  expired ← change (fun _ => expired_at now) (fun _ => disable "expired");
  _ ← emit_disable_audits "api_key.disable" expired "expired";
  _ ← (if 0 <? global_inactivity_days then
         inactive ← change (fun _ => idle_globally (now - global_inactivity_days * day_ms)) (fun _ => disable "inactive");
         emit_disable_audits "api_key.disable" inactive "inactive_global"
       else mret tt);
  per_key_inactive ← change idle_by_own (fun _ => disable "inactive");
  _ ← emit_disable_audits "api_key.disable" per_key_inactive "inactive_per_key";
  grace_expired ← change (fun _ => grace_over now) (fun _ => deactivate);
  _ ← emit_disable_audits "api_key.revoke" grace_expired "grace_period_expired";
  warnings ← change warns warned;
  key_log_each (warning_row <$> warnings).
End Statements.
#[global] Arguments NewApiKey : clear implicits.
#[global] Arguments ApiKeyPatch : clear implicits.
