(* ===== verification/ApiKeyHandlers.v ===== *)
(** * The handlers of [/api/keys]

    [crates/server/src/handlers/api_keys.rs]: listing, creating, editing, revoking and rotating
    keys, with the checks of their fields and of who may touch them.  Settings are inputs, as are
    the random bytes of a key and the ids of new rows; [serde_json]'s objects and the formats of
    times are arguments. *)

From Stdlib Require Import Ascii.
From S2P Require Import Prelude Interfaces LimitTypes LimitStore Policy Constraints GatewayDeps Text Glob Sliding Effects AuditRow ExpiringKeys Validation Lockout Login Sessions Rbac Scope McpRegistry AllowList ApiKeys.

(** ** Fields *)

Definition ALLOWED_SURFACES : list string := ["ai_gateway"; "mcp_gateway"; "console"].

(** The loop that checks and drops repetitions, then the sort. *)
Fixpoint collect_surfaces (input out : list string) : result AppError (list string) :=
  match input with
  | [] => Ok out
  | s :: input =>
      if negb (bool_decide (s ∈ ALLOWED_SURFACES))
      then Err (BadRequest ("Unknown surface '" +:+ s +:+ "' (allowed: ai_gateway, mcp_gateway, console)"))
      else collect_surfaces input (if bool_decide (s ∈ out) then out else out ++ [s])
  end.
Definition normalize_surfaces (input : list string) : result AppError (list string) :=
  match input with
  | [] => Err (BadRequest "API key must be enabled for at least one gateway surface")
  | _ => out ← collect_surfaces input []; Ok (btree_extend [] out)
  end.

Definition validate_cost_center (input : option string) : result AppError (option string) :=
  match input with
  | None => Ok None
  | Some raw =>
      let trimmed := trim raw in
      if bool_decide (trimmed = "") then Ok None
      else if (64 <? chars_count trimmed)%nat
      then Err (BadRequest "cost_center must be 64 characters or fewer")
      else Ok (Some trimmed)
  end.

(** ** Keys and their hashes *)

Definition KEY_PREFIX : string := "tw-".

Record GeneratedApiKey := { gk_plaintext : string; gk_prefix : string; gk_hash : string }.
(** [encoded] is the hex of the 48 random bytes. *)
Definition generate_api_key (hash_api_key : string -> string) (encoded : string) : GeneratedApiKey :=
  let plaintext := KEY_PREFIX +:+ encoded in
  {| gk_plaintext := plaintext; gk_prefix := String.substring 0 15 plaintext; gk_hash := hash_api_key plaintext |}.

(** ** Requests *)

Record CreateApiKeyRequest {V : Type} := {
  cr_name : string;
  cr_surfaces : list string;
  cr_allowed_models : option (list string);
  cr_allowed_mcp_tools : option (list string);
  cr_mcp_account_overrides : option V;
  cr_expires_in_days : option Z;
  cr_cost_center : option string;
}.
#[global] Arguments CreateApiKeyRequest : clear implicits.

(** A field that may be absent, [null] or given is an option of an option. *)
Record UpdateKeyRequest {V : Type} := {
  uk_allowed_models : option (option (list string));
  uk_allowed_mcp_tools : option (option (list string));
  uk_surfaces : option (list string);
  uk_expires_in_days : option Z;
  uk_rotation_period_days : option Z;
  uk_inactivity_timeout_days : option Z;
  uk_cost_center : option string;
  uk_mcp_account_overrides : option (option V);
}.
#[global] Arguments UpdateKeyRequest : clear implicits.

Record ListKeysParams := { lp_page : option Z; lp_per_page : option Z; lp_archived : bool }.
Definition per_page (p : ListKeysParams) : Z := Z.min (default 20 (lp_per_page p)) 100.
Definition wrap_u32 (z : Z) : Z := z mod 2 ^ 32.
Definition page_of (p : ListKeysParams) : Z := Z.max (default 1 (lp_page p)) 1.
Definition offset (p : ListKeysParams) : Z := wrap_u32 ((page_of p - 1) * per_page p).

(** [as i32] of a setting. *)
Definition wrap_i32 (z : Z) : Z := (z + 2 ^ 31) mod 2 ^ 32 - 2 ^ 31.

(** The last instant of [chrono]; adding past it panics, and the request ends there. *)
Definition CHRONO_MAX : Z := 8210266876799999.
Definition panicked : AppError := Internal "`DateTime + TimeDelta` overflowed".

Record CreateApiKeyResponse {U : Type} := { ca_id : U; ca_key : string; ca_name : string; ca_key_prefix : string }.
#[global] Arguments CreateApiKeyResponse : clear implicits.

Section Handlers.
Context {U V St : Type} `{UuidParse U, EqDecision U, EqDecision V, JsonValue V}.
Context (net : nat -> link) (clock : nat -> Z).
Context (policy_from_value : V -> result string (PolicyDocument V)).
Context (hash_api_key : string -> string).
Context (json_entries : V -> list (string * V)) (json_empty : V).
Context (rfc3339 json_time : Z -> string).
Abbreviation W := (key_world U V St).
Implicit Types (auth_user : AuthUser U).

Definition from_now (ms : Z) : io W AppError Z :=
  t ← key_now clock; if t + ms <=? CHRONO_MAX then mret (t + ms) else throw panicked.

(** ** Who may touch a key *)

Definition caller_is_admin_tier auth_user : bool :=
  negb (bool_decide ("api_keys:admin" ∈ au_denied_permissions auth_user))
  && bool_decide ("api_keys:admin" ∈ au_permissions auth_user).

Definition assert_owner_or_admin auth_user (key_id : U) : io W AppError unit :=
  found ← owner_of_live net clock key_id;
  owner ← lift (ok_or found (NotFound "API key not found"));
  if decide (cl_sub (au_claims auth_user) = owner) then mret tt
  else if caller_is_admin_tier auth_user then mret tt
  else throw (Forbidden "api_keys:admin required to operate on another user's key").

(** Two scope queries at most; the request has asked for none before. *)
Definition caller_has_global auth_user (perm : string) : io W AppError bool := fun w =>
  let n := kw_calls w in
  let '(_, r) := owned_team_scope_for_perm auth_user (net n) (net (S n)) (kd_rbac (kw_db w)) perm ∅ in
  ({| kw_calls := S (S n); kw_db := kw_db w; kw_redis := kw_redis w; kw_audit := kw_audit w |},
   match r with Ok scope => Ok (bool_decide (scope = None)) | Err e => Err e end).

(** ** What a key may be given *)

Definition load_role_limits (user_id : U) : io W AppError UserResourceLimits := fun w =>
  match select net clock (fun d => Ok (compute_user_resource_limits policy_from_value (kd_rbac d) user_id)) w with
  | (w, Ok limits) => (w, Ok limits)
  | (w, Err _) => (w, Err (Internal "Failed to load role limits"))
  end.

Definition validate_allowlists_within_role (user_id : U) (requested_models requested_mcp_tools : option (list string))
    : io W AppError unit :=
  match requested_models, requested_mcp_tools with
  | None, None => mret tt
  | _, _ =>
      limits ← load_role_limits user_id;
      match (req ← requested_models; granted ← url_allowed_models limits; first_uncovered_model req granted) with
      | Some bad => throw (BadRequest ("allowed_models entry '" +:+ bad +:+ "' is not granted by your roles"))
      | None =>
          match (req ← requested_mcp_tools; granted ← url_allowed_mcp_tools limits; first_uncovered_mcp_tool req granted) with
          | Some bad => throw (BadRequest ("allowed_mcp_tools entry '" +:+ bad +:+ "' is not granted by your roles"))
          | None => mret tt
          end
      end
  end.

Fixpoint check_overrides (user_id : U) (entries : list (string * V)) : io W AppError unit :=
  match entries with
  | [] => mret tt
  | (server_id_str, label_val) :: entries =>
      server_id ← lift (ok_or (uuid_parse server_id_str)
        (BadRequest ("mcp_account_overrides key '" +:+ server_id_str +:+ "' is not a UUID")));
      label ← lift (ok_or (json_as_str label_val) (BadRequest "mcp_account_overrides values must be strings"));
      held ← mcp_credential_exists net clock server_id user_id label;
      if held : bool then check_overrides user_id entries
      else throw (BadRequest ("mcp_account_overrides points at '" +:+ label +:+ "' for server " +:+ server_id_str +:+
             ", but you have no credential with that label"))
  end.
Definition validate_mcp_account_overrides (user_id : U) (overrides : option V) : io W AppError V :=
  match overrides with
  | None => mret json_empty
  | Some v =>
      if json_is_object v then
        match json_entries v with
        | [] => mret json_empty
        | entries => _ ← check_overrides user_id entries; mret v
        end
      else if json_is_null v then mret json_empty
      else throw (BadRequest "mcp_account_overrides must be a JSON object")
  end.

(** ** Reading *)

Definition list_keys auth_user (params : ListKeysParams) : io W AppError (Z * list (ApiKey U V)) :=
  _ ← lift (require_permission auth_user "api_keys:read");
  let owner := if caller_is_admin_tier auth_user then None else Some (cl_sub (au_claims auth_user)) in
  total ← count_keys net clock (lp_archived params) owner;
  keys ← list_page net clock (lp_archived params) owner (per_page params) (offset params);
  mret (total, keys).

Definition get_key auth_user (id : U) : io W AppError (ApiKey U V) :=
  _ ← lift (require_permission auth_user "api_keys:read");
  _ ← assert_owner_or_admin auth_user id;
  found ← find_live net clock id;
  lift (ok_or found (NotFound "API key not found")).

Definition list_expiring_keys auth_user (query_days : option Z) : io W AppError (list (ApiKey U V)) :=
  _ ← lift (require_permission auth_user "api_keys:read");
  threshold ← from_now (Z.max 0 (Z.min (default 7 query_days) 365) * day_ms);
  list_expiring net clock threshold
    (if caller_is_admin_tier auth_user then None else Some (cl_sub (au_claims auth_user))).

Definition list_cost_centers auth_user : io W AppError (list string) :=
  _ ← lift (require_permission auth_user "api_keys:read"); cost_centers net clock.

Definition get_policy_scope auth_user : io W AppError (option (list string) * option (list string)) :=
  _ ← lift (require_permission auth_user "api_keys:read");
  limits ← load_role_limits (cl_sub (au_claims auth_user));
  mret (url_allowed_models limits, url_allowed_mcp_tools limits).

(** ** Creating *)

Definition create_key auth_user (req : CreateApiKeyRequest V) (encoded : string)
    (default_expiry_days default_rotation_period_days : Z) (id : U) : io W AppError (CreateApiKeyResponse U) :=
  _ ← lift (require_permission auth_user "api_keys:create");
  surfaces ← lift (normalize_surfaces (cr_surfaces req));
  _ ← validate_allowlists_within_role (cl_sub (au_claims auth_user)) (cr_allowed_models req) (cr_allowed_mcp_tools req);
  let generated := generate_api_key hash_api_key encoded in
  if match cr_expires_in_days req with Some d => d <? 0 | None => false end
  then throw (BadRequest "expires_in_days must be >= 0")
  else
    let default_expiry_override := if 0 <? default_expiry_days then Some (wrap_i32 default_expiry_days) else None in
    let effective_expiry_days := cr_expires_in_days req ∪ default_expiry_override in
    expires_at ← match effective_expiry_days with
                 | Some days => if 0 <? days then (e ← from_now (days * day_ms); mret (Some e)) else mret None
                 | None => mret None
                 end;
    let rotation_period_days :=
      if 0 <? default_rotation_period_days then Some (wrap_i32 default_rotation_period_days) else None in
    cost_center ← lift (validate_cost_center (cr_cost_center req));
    mcp_account_overrides ← validate_mcp_account_overrides (cl_sub (au_claims auth_user)) (cr_mcp_account_overrides req);
    row ← insert_key net clock
      {| nk_id := id; nk_key_prefix := gk_prefix generated; nk_key_hash := gk_hash generated; nk_name := cr_name req;
         nk_user_id := cl_sub (au_claims auth_user); nk_surfaces := surfaces; nk_allowed_models := cr_allowed_models req;
         nk_allowed_mcp_tools := cr_allowed_mcp_tools req; nk_mcp_account_overrides := mcp_account_overrides;
         nk_expires_at := expires_at; nk_cost_center := cost_center; nk_rotation_period_days := rotation_period_days |};
    mret {| ca_id := ak_id row; ca_key := gk_plaintext generated; ca_name := ak_name row; ca_key_prefix := ak_key_prefix row |}.

(** ** Revoking *)

Definition key_row auth_user (action : string) (id : U) : AuditEntry :=
  with_resource ("api_key:" +:+ uuid_str id) LogAudit (AuthUser_audit auth_user action).

Definition revoke_key auth_user (id : U) : io W AppError unit :=
  _ ← lift (require_permission auth_user "api_keys:delete");
  _ ← assert_owner_or_admin auth_user id;
  changed ← revoke net clock id;
  if (changed =? 0)%nat then throw (NotFound "API key not found")
  else key_log (key_row auth_user "api_key.revoke" id).

Definition force_revoke_key auth_user (id : U) (reason : string) : io W AppError unit :=
  _ ← lift (require_permission auth_user "api_keys:delete");
  global ← caller_has_global auth_user "api_keys:delete";
  if negb global then throw (Forbidden "Force-revoke requires api_keys:delete at global scope")
  else
    let reason := trim reason in
    if bool_decide (reason = "") then throw (BadRequest "reason is required")
    else if (500 <? String.length reason)%nat then throw (BadRequest "reason must be 500 characters or fewer")
    else
      changed ← force_revoke net clock id ("force_revoked:" +:+ chars_take 64 reason);
      if (changed =? 0)%nat then throw (NotFound "API key not found")
      else key_log (with_detail (AuditRow.JObj [("reason", AuditRow.JStr reason)]) (key_row auth_user "api_key.force_revoke" id)).

(** ** Editing *)

Fixpoint days_not_negative (fields : list (string * option Z)) : result AppError unit :=
  match fields with
  | [] => Ok tt
  | (name, value) :: fields =>
      if match value with Some v => v <? 0 | None => false end then Err (BadRequest (name +:+ " must be >= 0"))
      else days_not_negative fields
  end.

Definition jlist (l : option (list string)) : jval :=
  match l with Some l => AuditRow.JArr (AuditRow.JStr <$> l) | None => AuditRow.JNull end.
Definition jnum (n : option Z) : jval := match n with Some n => AuditRow.JNum n | None => AuditRow.JNull end.
Definition jtime (t : option Z) : jval := match t with Some t => AuditRow.JStr (json_time t) | None => AuditRow.JNull end.
Definition changed_field (name : string) (changed : bool) (before after : jval) : list (string * jval) :=
  if changed then [(name, AuditRow.JObj [("before", before); ("after", after)])] else [].
Definition key_changes (req : UpdateKeyRequest V) (surfaces : option (list string)) (expires_at : option Z)
    (key updated : ApiKey U V) : jval :=
  AuditRow.JObj (
    changed_field "allowed_models"
      (bool_decide (is_Some (uk_allowed_models req)) && negb (bool_decide (ak_allowed_models key = ak_allowed_models updated)))
      (jlist (ak_allowed_models key)) (jlist (ak_allowed_models updated)) ++
    changed_field "allowed_mcp_tools"
      (bool_decide (is_Some (uk_allowed_mcp_tools req)) && negb (bool_decide (ak_allowed_mcp_tools key = ak_allowed_mcp_tools updated)))
      (jlist (ak_allowed_mcp_tools key)) (jlist (ak_allowed_mcp_tools updated)) ++
    changed_field "surfaces"
      (bool_decide (is_Some surfaces) && negb (bool_decide (surfaces = Some (ak_surfaces key))))
      (jlist (Some (ak_surfaces key))) (jlist (Some (ak_surfaces updated))) ++
    changed_field "expires_at" (negb (bool_decide (expires_at = ak_expires_at key)))
      (jtime (ak_expires_at key)) (jtime (ak_expires_at updated)) ++
    changed_field "rotation_period_days"
      (bool_decide (is_Some (uk_rotation_period_days req))
       && negb (bool_decide (uk_rotation_period_days req = ak_rotation_period_days key)))
      (jnum (ak_rotation_period_days key)) (jnum (ak_rotation_period_days updated)) ++
    changed_field "inactivity_timeout_days"
      (bool_decide (is_Some (uk_inactivity_timeout_days req))
       && negb (bool_decide (uk_inactivity_timeout_days req = ak_inactivity_timeout_days key)))
      (jnum (ak_inactivity_timeout_days key)) (jnum (ak_inactivity_timeout_days updated))).

Definition update_key auth_user (id : U) (req : UpdateKeyRequest V) : io W AppError (ApiKey U V) :=
  _ ← lift (require_permission auth_user "api_keys:update");
  _ ← assert_owner_or_admin auth_user id;
  _ ← lift (days_not_negative [("expires_in_days", uk_expires_in_days req);
                               ("rotation_period_days", uk_rotation_period_days req);
                               ("inactivity_timeout_days", uk_inactivity_timeout_days req)]);
  found ← find_live net clock id;
  key ← lift (ok_or found (NotFound "API key not found"));
  _ ← match ak_user_id key with
      | Some owner => validate_allowlists_within_role owner (mjoin (uk_allowed_models req)) (mjoin (uk_allowed_mcp_tools req))
      | None => mret tt
      end;
  surfaces ← match uk_surfaces req with
             | Some s => (n ← lift (normalize_surfaces s); mret (Some n))
             | None => mret None
             end;
  expires_at ← match uk_expires_in_days req with
               | Some days => if 0 <? days then (e ← from_now (days * day_ms); mret (Some e)) else mret None
               | None => mret (ak_expires_at key)
               end;
  cost_center ← match uk_cost_center req with
                | None => mret None
                | Some s => if bool_decide (s = "") then mret (Some None)
                            else (c ← lift (validate_cost_center (Some s)); mret (Some c))
                end;
  let expiry_extended := match ak_expires_at key, expires_at with
                         | Some prev, Some new_val => prev <? new_val
                         | Some _, None => true
                         | _, _ => false
                         end in
  overrides ← match uk_mcp_account_overrides req with
              | None => mret None
              | Some None => mret (Some json_empty)
              | Some (Some v) =>
                  owner ← lift (ok_or (ak_user_id key) (BadRequest "service-account keys cannot use mcp_account_overrides"));
                  (o ← validate_mcp_account_overrides owner (Some v); mret (Some o))
              end;
  updated ← update_key_row net clock id
    {| pt_allowed_models := uk_allowed_models req; pt_allowed_mcp_tools := uk_allowed_mcp_tools req;
       pt_surfaces := surfaces; pt_expires_at := expires_at; pt_rotation_period_days := uk_rotation_period_days req;
       pt_inactivity_timeout_days := uk_inactivity_timeout_days req; pt_cost_center := cost_center;
       pt_mcp_account_overrides := overrides; pt_expiry_extended := expiry_extended |};
  _ ← key_log (with_detail (key_changes req surfaces expires_at key updated) (key_row auth_user "api_key.update" id));
  mret updated.

(** ** Rotating *)

Definition rotate_key auth_user (id : U) (encoded : string) (grace_hours : Z) (new_id : U)
    : io W AppError (CreateApiKeyResponse U) :=
  _ ← lift (require_permission auth_user "api_keys:rotate");
  _ ← assert_owner_or_admin auth_user id;
  found ← find_live net clock id;
  old_key ← lift (ok_or found (NotFound "API key not found"));
  if negb (ak_is_active old_key) then throw (BadRequest "Cannot rotate an inactive key")
  else if bool_decide (ak_disabled_reason old_key = Some "rotated")
  then throw (BadRequest "Key is already rotated and inside its grace period — rotate the new key instead, or revoke this one to short-circuit the grace window")
  else
    grace_period_ends_at ← from_now (grace_hours * 3600000);
    let generated := generate_api_key hash_api_key encoded in
    new_key ← rotate net clock json_empty old_key new_id (gk_prefix generated) (gk_hash generated) grace_period_ends_at;
    _ ← key_log (with_detail (AuditRow.JObj [("new_key_id", AuditRow.JStr (uuid_str (ak_id new_key)));
                                             ("grace_period_ends_at", AuditRow.JStr (rfc3339 grace_period_ends_at))])
                  (key_row auth_user "api_key.rotate" id));
    mret {| ca_id := ak_id new_key; ca_key := gk_plaintext generated; ca_name := ak_name new_key;
            ca_key_prefix := ak_key_prefix new_key |}.
End Handlers.
