(* ===== verification/ApiKeyAuth.v ===== *)
(** * Authenticating with an API key

    [crates/server/src/middleware/api_key_auth.rs] (the two gateways) and [auth_via_api_key] of
    [auth_guard.rs] (the console): which keys are let in, and what identity a request goes on
    with.  Headers are a function from names to values; the client's address and the settings are
    inputs.  The guard that logs a request whose client leaves early is left out, as are the
    bodies of the refusals.  The update of [last_used_at], which runs on a task of its own, is
    placed where it is started. *)

From Stdlib Require Import Ascii.
From S2P Require Import Prelude Interfaces LimitTypes LimitStore Policy Constraints GatewayDeps GatewayError Text Glob Sliding Effects AuditRow ExpiringKeys Validation Lockout Login Sessions Rbac Scope McpRegistry Lifecycle Pipeline AllowList ApiKeys ApiKeyHandlers.

(** ** The key a client presents *)

Definition non_empty (v : option string) : option string :=
  s ← v; if bool_decide (s = "") then None else Some s.

Definition presented_key (header : string -> option string) (query : option string) : option string :=
  match non_empty (header "x-api-key") with
  | Some k => Some k
  | None =>
      match non_empty (header "x-goog-api-key") with
      | Some k => Some k
      | None =>
          match non_empty (non_empty (header "authorization") ≫= strip_prefix "Bearer ") with
          | Some k => Some k
          | None => q ← query; non_empty (head (omap (strip_prefix "key=") (split "&" q)))
          end
      end
  end.

(** ** What a refusal is written in *)

Inductive client_format := Anthropic | Gemini | Responses | Chat.
Definition client_dialect (path : string) : client_format :=
  if bool_decide (path = "/v1/messages") then Anthropic
  else if starts_with "/v1beta/" path || starts_with "/v1/models/" path then Gemini
  else if bool_decide (path = "/v1/responses") then Responses
  else Chat.

Definition LIMITS_UNAVAILABLE : string := "limits_unavailable".

(** The refusals: a bare status, a database failure, or a body in the caller's format ([None] for
    JSON-RPC). *)
Inductive key_refusal :=
  | Status (code : Z)
  | DbFailure (e : AppError)
  | GatewayUseRefused (format : option client_format) (message : string)
  | LimitsUnavailable (format : option client_format) (e : GatewayError)
  | UsageUnavailable.

Definition format_of (surface path : string) : option client_format :=
  if bool_decide (surface = "mcp_gateway") then None else Some (client_dialect path).
Definition gateway_use_refused (surface path : string) : key_refusal :=
  GatewayUseRefused (format_of surface path)
    ("Access denied: no role held by the owner of this API key grants " +:+ surface +:+ ":use.").
Definition limits_unavailable (surface path : string) : key_refusal :=
  LimitsUnavailable (format_of surface path) (limiter_unavailable LIMITS_UNAVAILABLE).

(** [None]: refuse. *)
Definition limits_or_refusal {E} (loaded : result E (SurfaceConstraints * SurfaceConstraints)) (fail_closed : bool)
    : option (SurfaceConstraints * SurfaceConstraints) :=
  match loaded with
  | Ok limits => Some limits
  | Err _ => if fail_closed then None else Some (SurfaceConstraints_default, SurfaceConstraints_default)
  end.

Definition stops_authenticating_at (expires_at grace_period_ends_at : option Z) : option Z :=
  match expires_at, grace_period_ends_at with
  | Some a, Some b => Some (Z.min a b)
  | a, b => a ∪ b
  end.

Inductive KeyUse := Call | Read.
#[export] Instance KeyUse_eq_dec : EqDecision KeyUse.
Proof. solve_decision. Defined.

Record McpRequestIdentity {U V : Type} := {
  mi_user_id : U;
  mi_user_email : string;
  mi_user_roles : list string;
  mi_surface_constraints : SurfaceConstraints;
  mi_api_key_lineage_id : U;
  mi_key_constraints : SurfaceConstraints;
  mi_allowed_mcp_tools : option (list string);
  mi_mcp_account_overrides : V;
  mi_ip_address : option string;
}.
#[global] Arguments McpRequestIdentity : clear implicits.

Section Auth.
Context {U V St : Type} `{UuidParse U, EqDecision U, EqDecision V, JsonValue V, ExpiringKeys St}.
Context (net : nat -> link) (clock : nat -> Z).
Context (policy_from_value : V -> result string (PolicyDocument V)).
Context (decode_constraints : V -> option PolicyConstraints).
Context (hash_api_key : string -> string).
Abbreviation W := (key_world U V St).
Implicit Types (k : ApiKey U V).

(** ** The lookup both surfaces share *)

Definition INACTIVITY_NEVER_DAYS : Z := 999999.
Definition inactivity_days (global : Z) k : Z :=
  match ak_inactivity_timeout_days k with
  | Some n => if 0 <? n then n else if 0 <? global then global else INACTIVITY_NEVER_DAYS
  | None => if 0 <? global then global else INACTIVITY_NEVER_DAYS
  end.
Definition owner_active (users : list (User U)) k : bool :=
  existsb (fun u => bool_decide (Some (us_id u) = ak_user_id k) && us_is_active u && bool_decide (us_deleted_at u = None)) users.
Definition not_stopped (t : Z) k : bool :=
  ak_is_active k || match ak_grace_period_ends_at k with Some g => t <? g | None => false end.
Definition not_idle (t global : Z) k : bool :=
  match ak_last_used_at k with None => true | Some u => t - inactivity_days global k * day_ms <? u end.
Definition key_matches (users : list (User U)) (key_hash : string) (global t : Z) k : bool :=
  bool_decide (ak_key_hash k = key_hash) && live k && owner_active users k && not_stopped t k && not_idle t global k.

Definition lookup_key (key_hash : string) (global : Z) : io W AppError (option (ApiKey U V)) :=
  select_at net clock (fun t d => head (filter (fun k => key_matches (kd_users d) key_hash global t k = true) (kd_keys d))).

(** A failed step of the database ends the request with the answer handlers give. *)
Definition or_db_failure {A} (p : io W AppError A) : io W key_refusal A := fun w =>
  match p w with (w, Ok a) => (w, Ok a) | (w, Err e) => (w, Err (DbFailure e)) end.
(** A step whose failure the caller looks at. *)
Definition try {A} (p : io W AppError A) : io W key_refusal (result AppError A) := fun w =>
  let '(w, r) := p w in (w, Ok r).
Definition at_now : io W key_refusal Z := fun w => (w, Ok (clock (kw_calls w))).
Definition log_refusal (e : AuditEntry) : io W key_refusal unit := fun w =>
  ({| kw_calls := kw_calls w; kw_db := kw_db w; kw_redis := kw_redis w; kw_audit := kw_audit w ++ [e] |}, Ok tt).

(** The lookup, the surface and the expiry. *)
Definition find_key (surface token : string) (global : Z) : io W key_refusal (ApiKey U V) :=
  found ← or_db_failure (lookup_key (hash_api_key token) global);
  row ← lift (ok_or found (Status 401));
  if negb (bool_decide (surface ∈ ak_surfaces row)) then throw (Status 403)
  else
    t ← at_now;
    if match ak_expires_at row with Some e => e <? t | None => false end then throw (Status 401)
    else mret row.

(** ** The gateways *)

Definition load_request_limits (user_id lineage_id : U) : io W AppError (SurfaceConstraints * SurfaceConstraints) :=
  user ← select_at net clock (fun t d => compute_user_surface_constraints decode_constraints (kd_rbac d) (kd_limits d) t user_id);
  key ← select_at net clock (fun t d => compute_key_surface_constraints (kd_limits d) t lineage_id);
  mret (user, key).

Definition load_owner (row : ApiKey U V) : io W key_refusal
    (UserResourceLimits * list string * result AppError (SurfaceConstraints * SurfaceConstraints)) :=
  match ak_user_id row with
  | None => mret (UserResourceLimits_none, [], Ok (SurfaceConstraints_default, SurfaceConstraints_default))
  | Some uid =>
      limits ← or_db_failure (select net clock (fun d => Ok (compute_user_resource_limits policy_from_value (kd_rbac d) uid)));
      names ← try (select net clock (fun d => Ok (load_user_role_names (kd_rbac d) uid)));
      loaded ← try (load_request_limits uid (ak_lineage_id row));
      mret (limits, match names with Ok l => l | Err _ => [] end, loaded)
  end.

Definition surface_granted (surface : string) (limits : UserResourceLimits) : bool :=
  if bool_decide (surface = "ai_gateway") then url_ai_gateway limits
  else if bool_decide (surface = "mcp_gateway") then url_mcp_gateway limits
  else false.

Definition refusal_row (row : ApiKey U V) (surface : string) : AuditEntry :=
  with_detail (JObj [("surface", JStr surface)])
    (GatewayActor_audit (U := U)
       {| ga_user_id := uuid_str <$> ak_user_id row; ga_user_email := None; ga_api_key_id := Some (uuid_str (ak_id row));
          ga_api_key_lineage_id := Some (uuid_str (ak_lineage_id row)); ga_ip := None; ga_session_id := None |}
       LIMITS_UNAVAILABLE).

Definition user_email_of (user : option U) : io W key_refusal (option string) :=
  match user with
  | None => mret None
  | Some uid =>
      r ← try (select net clock (fun d => Ok (us_email <$> head (filter (fun u => us_id u = uid) (kd_users d)))));
      mret (match r with Ok e => e | Err _ => None end)
  end.

Definition identity_of (row : ApiKey U V) (user_email : option string) (allowed_models : option (list string))
    (surface_constraints key_constraints : SurfaceConstraints) (client_ip : option string) : GatewayRequestIdentity :=
  {| gi_user_id := uuid_str <$> ak_user_id row; gi_user_email := user_email;
     gi_api_key_id := Some (uuid_str (ak_id row)); gi_api_key_lineage_id := Some (uuid_str (ak_lineage_id row));
     gi_allowed_models := allowed_models; gi_surface_constraints := surface_constraints;
     gi_key_constraints := key_constraints; gi_ip_address := client_ip;
     gi_key_expires_at := stops_authenticating_at (ak_expires_at row) (ak_grace_period_ends_at row) |}.

(** After the key is found: its owner, the limits, the identities. *)
Definition authorize_key (surface : string) (key_use : KeyUse) (path : string) (fail_closed : bool)
    (client_ip : option string) (row : ApiKey U V)
    : io W key_refusal (GatewayRequestIdentity * option (McpRequestIdentity U V)) :=
  _ ← (if decide (key_use = Call) then or_db_failure (touch net clock (ak_id row)) else mret tt);
  '(role_limits, user_roles, loaded_limits) ← load_owner row;
  if negb (surface_granted surface role_limits) then throw (gateway_use_refused surface path)
  else if bool_decide (key_use = Read) && negb (is_ok loaded_limits) then throw UsageUnavailable
  else
    match limits_or_refusal loaded_limits (if is_ok loaded_limits then false else fail_closed) with
    | None => _ ← log_refusal (refusal_row row surface); throw (limits_unavailable surface path)
    | Some (surface_constraints, key_constraints) =>
        let merged_models := intersect_allowlists (ak_allowed_models row) (url_allowed_models role_limits) model_entry_covers in
        let merged_mcp_tools := intersect_allowlists (ak_allowed_mcp_tools row) (url_allowed_mcp_tools role_limits) mcp_entry_covers in
        user_email ← user_email_of (ak_user_id row);
        let identity := identity_of row user_email merged_models surface_constraints key_constraints client_ip in
        if bool_decide (surface = "mcp_gateway") then
          uid ← lift (ok_or (ak_user_id row) (Status 401));
          email ← lift (ok_or user_email (Status 401));
          mret (identity, Some {| mi_user_id := uid; mi_user_email := email; mi_user_roles := user_roles;
                                  mi_surface_constraints := surface_constraints; mi_api_key_lineage_id := ak_lineage_id row;
                                  mi_key_constraints := key_constraints; mi_allowed_mcp_tools := merged_mcp_tools;
                                  mi_mcp_account_overrides := ak_mcp_account_overrides row; mi_ip_address := client_ip |})
        else mret (identity, None)
    end.

Definition authenticate (surface : string) (key_use : KeyUse) (header : string -> option string) (query : option string)
    (path : string) (global_inactivity_days : Z) (fail_closed : bool) (client_ip : option string)
    : io W key_refusal (GatewayRequestIdentity * option (McpRequestIdentity U V)) :=
  token ← lift (ok_or (presented_key header query) (Status 401));
  if negb (starts_with KEY_PREFIX token) then throw (Status 401)
  else
    row ← find_key surface token global_inactivity_days;
    authorize_key surface key_use path fail_closed client_ip row.

(** ** The console *)

Definition CONSOLE_API_KEY_LIMIT_PER_MIN : Z := 120.
Definition console_rate_key (id : U) : string := "rl:console_key:" +:+ uuid_str id.

Definition console_rate (id : U) : io W key_refusal (result redis_error Z) := fun w =>
  let n := kw_calls w in
  let '(s, r) := fixed_window_incr (net n) (net (S n)) (clock n) (clock (S n)) (console_rate_key id) 60 (kw_redis w) in
  ({| kw_calls := S (S n); kw_db := kw_db w; kw_redis := s; kw_audit := kw_audit w |}, Ok r).

Definition auth_via_api_key (all_perm_keys : list string) (token : string) (global_inactivity_days : Z)
    (client_ip user_agent : option string) : io W key_refusal (AuthUser U) :=
  row ← find_key "console" token global_inactivity_days;
  count ← console_rate (ak_id row);
  if match count with Ok c => CONSOLE_API_KEY_LIMIT_PER_MIN <? c | Err _ => false end then throw (Status 429)
  else
    user_id ← lift (ok_or (ak_user_id row) (Status 403));
    permissions ← or_db_failure (select net clock (fun d => Ok (compute_user_permissions (kd_rbac d) user_id all_perm_keys)));
    denied ← or_db_failure (select net clock (fun d => Ok (compute_denied_permissions policy_from_value (kd_rbac d) user_id permissions)));
    found ← or_db_failure (select net clock (fun d =>
      Ok (us_email <$> head (filter (fun u => us_id u = user_id /\ us_is_active u = true /\ us_deleted_at u = None) (kd_users d)))));
    email ← lift (ok_or found (Status 401));
    _ ← or_db_failure (touch net clock (ak_id row));
    t ← at_now;
    mret {| au_claims := {| cl_sub := user_id; cl_email := email; cl_exp := t / 1000 + 86400; cl_iat := t / 1000;
                            cl_token_type := "access" |};
            au_ip := client_ip; au_user_agent := user_agent; au_permissions := permissions;
            au_denied_permissions := denied |}.
End Auth.
