(* ===== verification/ApiKeySpec.v ===== *)
(** * What becomes of a key

    Theorems about [ApiKeys], [ApiKeyHandlers] and [ApiKeyAuth] over any history of the keys'
    table: a key that stopped never authenticates again, and a rotated one ends. *)

From Stdlib Require Import Ascii.
From S2P Require Import Prelude Interfaces LimitTypes LimitStore Policy Constraints GatewayDeps GatewayError Text Glob Sliding Effects AuditRow ExpiringKeys Validation Lockout Login Sessions Rbac Scope McpRegistry Lifecycle Pipeline AllowList ApiKeys ApiKeyHandlers ApiKeyAuth.

Section Spec.
Context {U V St : Type} `{UuidParse U, EqDecision U, EqDecision V, JsonValue V, ExpiringKeys St}.
Context (net : nat -> link) (clock : nat -> Z).
Context (policy_from_value : V -> result string (PolicyDocument V)).
Context (decode_constraints : V -> option PolicyConstraints).
Context (hash_api_key : string -> string).
Context (json_entries : V -> list (string * V)) (json_empty : V).
Context (rfc3339 json_time : Z -> string).
Abbreviation W := (key_world U V St).
Implicit Types (k : ApiKey U V) (d : key_db U V) (w : W).
Abbreviation ids d := (ak_id <$> kd_keys d).

Abbreviation create := (create_key (St := St) net clock policy_from_value hash_api_key json_entries json_empty).
Abbreviation edit := (update_key (St := St) net clock policy_from_value json_entries json_empty json_time).
Abbreviation rotated := (rotate_key (St := St) net clock hash_api_key json_empty rfc3339).
Abbreviation sweep := (run_lifecycle_check (V := V) (St := St) net clock rfc3339).
Abbreviation call := (authenticate net clock policy_from_value decode_constraints hash_api_key).
Abbreviation console := (auth_via_api_key (V := V) net clock policy_from_value hash_api_key).

(** ** A key that has stopped *)

(** From [t] on, nothing but a change of the row would let the key in. *)
Definition dead (t : Z) k : Prop :=
  ak_deleted_at k <> None \/
  ak_is_active k = false /\ match ak_grace_period_ends_at k with Some g => g <= t | None => True end.

(** Rotated, with a grace that ends by [g]; or archived since. *)
Definition ending (g : Z) k : Prop :=
  ak_deleted_at k <> None \/
  ak_disabled_reason k = Some "rotated" /\ exists g', ak_grace_period_ends_at k = Some g' /\ g' <= g.

(** A row as a statement leaves it: the same key, and as near its end. *)
Definition row_step k k' : Prop :=
  ak_id k' = ak_id k /\ ak_key_hash k' = ak_key_hash k /\ ak_lineage_id k' = ak_lineage_id k /\
  (forall t, dead t k -> dead t k') /\ (forall g, ending g k -> ending g k').

#[local] Instance row_step_refl : Reflexive row_step.
Proof. by intros k. Qed.
#[local] Instance row_step_trans : Transitive row_step.
Proof. intros a b c (E1 & E2 & E3 & Hab & Hab') (E4 & E5 & E6 & Hbc & Hbc'). split_and!; try congruence; auto. Qed.

Lemma dead_later t t' k : t <= t' -> dead t k -> dead t' k.
Proof. intros Ht [Hd|[Ha Hg]]; [by left|right]. split; [done|]. destruct (ak_grace_period_ends_at k); [lia|done]. Qed.

Lemma dead_no_match users h g t k : dead t k -> key_matches users h g t k = false.
Proof.
  unfold key_matches, live, not_stopped. intros [Hd|[-> Hg]].
  - by rewrite (bool_decide_eq_false_2 (ak_deleted_at k = None)), andb_false_r.
  - simpl. destruct (ak_grace_period_ends_at k) as [g'|]; [rewrite (proj2 (Z.ltb_ge t g')) by done|]; by rewrite !andb_false_r.
Qed.

(** ** What a step does to the keys of a hash *)

Section Hash.
Context (h : string).

Definition db_evolves d d' : Prop :=
  NoDup (ids d) -> NoDup (ids d') /\
  forall k', k' ∈ kd_keys d' -> ak_key_hash k' = h -> exists k, k ∈ kd_keys d /\ row_step k k'.
Definition evolves w w' : Prop := (kw_calls w <= kw_calls w')%nat /\ db_evolves (kw_db w) (kw_db w').
Definition keeps {E A} (p : io W E A) : Prop := forall w, evolves w (p w).1.

#[local] Instance db_evolves_refl : Reflexive db_evolves.
Proof. intros d Hn. split; [done|]. intros k' Hk' _. by exists k'. Qed.
#[local] Instance db_evolves_trans : Transitive db_evolves.
Proof.
  intros a b c Hab Hbc Hn. destruct (Hab Hn) as [Hnb Hb]. destruct (Hbc Hnb) as [Hnc Hc]. split; [done|].
  intros k' Hk' Hh. destruct (Hc _ Hk' Hh) as (k & Hk & Hs).
  destruct (Hb k Hk) as (k0 & Hk0 & Hs0); [destruct Hs as (_ & E & _); congruence|].
  exists k0. split; [done|]. by transitivity k.
Qed.
#[local] Instance evolves_refl : Reflexive evolves.
Proof. by intros w. Qed.
#[local] Instance evolves_trans : Transitive evolves.
Proof. intros a b c [H1' H2'] [H3' H4']. split; [lia|]. by transitivity (kw_db b). Qed.

Lemma keeps_mret {E A} (a : A) : keeps (mret a : io W E A).
Proof. by intros w. Qed.
Lemma keeps_throw {E A} (e : E) : keeps (throw e : io W E A).
Proof. by intros w. Qed.
Lemma keeps_lift {E A} (r : result E A) : keeps (lift r : io W E A).
Proof. by intros w. Qed.
Lemma evolves_bind {E A B} (p : io W E A) (f : A -> io W E B) : keeps p -> (forall a, keeps (f a)) -> keeps (p ≫= f).
Proof.
  intros Hp Hf w. rewrite io_bind_run. pose proof (Hp w) as Hw. destruct ((p w).2) as [a|e]; [|done].
  by transitivity (p w).1; [|apply Hf].
Qed.
Lemma keeps_ignore {E A} (p : io W E A) : keeps p -> keeps (ignore p).
Proof. intros Hp w. exact (Hp w). Qed.

Lemma keeps_statement {A} (q : Z -> key_db U V -> key_db U V * result AppError A) :
  (forall t d, db_evolves d (q t d).1) -> keeps (statement (St := St) net clock q).
Proof.
  intros Hq w. unfold statement. destruct (net (kw_calls w)).
  - pose proof (Hq (clock (kw_calls w)) (kw_db w)) as Hd. destruct (q _ _) as [d r]. split; simpl; [lia|done].
  - split; simpl; [lia|done].
  - split; simpl; [lia|]. apply Hq.
Qed.
Lemma keeps_select {A} (q : key_db U V -> result AppError A) : keeps (select (St := St) net clock q).
Proof. by apply keeps_statement. Qed.
Lemma keeps_select_at {A} (q : Z -> key_db U V -> A) : keeps (select_at (St := St) net clock q).
Proof. by apply keeps_statement. Qed.

(** Rows changed in place, one by one. *)
Lemma db_evolves_map (f : ApiKey U V -> ApiKey U V) d :
  (forall k, k ∈ kd_keys d -> row_step k (f k)) -> db_evolves d (set_keys (f <$> kd_keys d) d).
Proof.
  intros Hf Hn. simpl. split.
  - rewrite <- list_fmap_compose. rewrite (list_fmap_ext (ak_id ∘ f) ak_id (kd_keys d)); [done|].
    intros i k Hk%list_elem_of_lookup_2. apply Hf, Hk.
  - intros k' (k & -> & Hk)%list_elem_of_fmap _. exists k. split; [done|]. by apply Hf.
Qed.

Lemma update_where_step (P : ApiKey U V -> bool) f d : (forall k, k ∈ kd_keys d -> P k = true -> row_step k (f k)) ->
  db_evolves d (set_keys (update_where P f (kd_keys d)).1 d).
Proof. intros Hf. apply (db_evolves_map (fun k => if P k then f k else k)). intros k Hk. destruct (P k) eqn:E; [by apply Hf|done]. Qed.

Lemma keeps_change P f : (forall t k, P t k = true -> row_step k (f t k)) -> keeps (change (St := St) net clock P f).
Proof. intros Hf. apply keeps_statement. intros t d. apply update_where_step. auto. Qed.

Lemma insert_evolves k d : ak_key_hash k <> h -> db_evolves d (insert_row k d).1.
Proof.
  intros Hk. unfold insert_row. destruct (negb (row_allowed k)); [done|].
  destruct (existsb _ _) eqn:Ex; [done|]. intros Hn. simpl. rewrite fmap_app. split.
  - apply NoDup_app. split; [done|]. split; [|apply NoDup_singleton]. intros x Hx ->%list_elem_of_singleton.
    apply list_elem_of_fmap in Hx as (k' & E & Hk'). apply not_true_iff_false in Ex. apply Ex.
    apply existsb_elem_of. exists k'. split; [done|]. by rewrite (bool_decide_eq_true_2 (ak_id k' = ak_id k)).
  - intros k' [Hk'| ->%list_elem_of_singleton]%elem_of_app; [|done]. intros _. by exists k'.
Qed.

Lemma keeps_insert_key key : nk_key_hash key <> h -> keeps (insert_key (St := St) net clock key).
Proof. intros Hk. apply keeps_statement. intros t d. by apply insert_evolves. Qed.

(** ** The rows the statements write *)

Lemma step_archive r t k : row_step k (archive r t k).
Proof. split_and!; try done; intros ? _; by left. Qed.
Lemma step_cascade r t k : row_step k (cascade r t k).
Proof. split_and!; try done; intros ? _; by left. Qed.
Lemma step_disable r k : no_reason k = true -> row_step k (disable r k).
Proof.
  unfold no_reason. intros Hr%bool_decide_eq_true. split_and!; try done.
  - intros t [Hd|[Ha Hg]]; [by left|by right].
  - intros g [Hd|[Hg _]]; [by left|congruence].
Qed.
Lemma step_deactivate k : row_step k (deactivate k).
Proof. split_and!; try done. intros t [Hd|[Ha Hg]]; [by left|by right]. Qed.
Lemma step_touch t k : row_step k (touch_row t k).
Proof. by split_and!. Qed.
Lemma step_warned t k : row_step k (warned t k).
Proof. by split_and!. Qed.
Lemma step_patch p k : row_step k (patch_row p k).
Proof. by split_and!. Qed.
Lemma step_grace g k : ak_deleted_at k = None -> ak_is_active k = true -> ak_disabled_reason k <> Some "rotated" ->
  row_step k (enter_grace g k).
Proof. intros Hd Ha Hr. split_and!; try done; [intros t [?|[? _]]; congruence|]. intros g' [?|[? _]]; congruence. Qed.
Lemma step_expired now r k : expired_at now k = true -> row_step k (disable r k).
Proof. unfold expired_at. intros [_ Hr]%andb_true_iff. by apply step_disable. Qed.
Lemma step_idle_globally th r k : idle_globally th k = true -> row_step k (disable r k).
Proof. unfold idle_globally. intros [[_ Hr]%andb_true_iff _]%andb_true_iff. by apply step_disable. Qed.
Lemma step_idle_by_own t r k : idle_by_own t k = true -> row_step k (disable r k).
Proof. unfold idle_by_own. intros [_ Hr]%andb_true_iff. by apply step_disable. Qed.

Lemma db_evolves_same d d' : kd_keys d' = kd_keys d -> db_evolves d d'.
Proof. intros E. unfold db_evolves. rewrite E. exact (db_evolves_refl d). Qed.

Lemma step_owner u k : row_step k (with_owner u k).
Proof. by split_and!. Qed.

Lemma keeps_log e : keeps (key_log (U := U) (V := V) (St := St) e).
Proof. by intros w. Qed.
Lemma keeps_log_each es : keeps (key_log_each (U := U) (V := V) (St := St) es).
Proof. induction es; simpl; [apply keeps_mret|apply evolves_bind; [apply keeps_log|done]]. Qed.
Lemma keeps_now : keeps (key_now (U := U) (V := V) (St := St) clock).
Proof. by intros w. Qed.

Lemma keeps_update_row id p : keeps (update_key_row (St := St) net clock id p).
Proof.
  apply keeps_statement. intros t d.
  pose proof (update_where_step (fun k => bool_decide (ak_id k = id)) (patch_row p) d) as Hs.
  destruct (update_where _ _ _) as [rows changed]. simpl in *. destruct (negb _); [done|].
  destruct changed; [done|]. apply Hs. intros. apply step_patch.
Qed.

Lemma keeps_or_db_failure {A} (p : io W AppError A) : keeps p -> keeps (or_db_failure p).
Proof. intros Hp w. specialize (Hp w). unfold or_db_failure. by destruct (p w) as [? []]. Qed.
Lemma keeps_try {A} (p : io W AppError A) : keeps p -> keeps (try p).
Proof. intros Hp w. specialize (Hp w). unfold try. by destruct (p w) as [? []]. Qed.

Hint Resolve keeps_mret keeps_throw keeps_lift keeps_select keeps_select_at keeps_log keeps_log_each keeps_now
  keeps_update_row step_archive step_cascade step_deactivate step_touch step_warned step_owner
  step_expired step_idle_globally step_idle_by_own : core.

(** Through the code of a handler. *)
Ltac keep := repeat first
  [ solve [auto]
  | match goal with
    | |- keeps (mbind _ _) => apply evolves_bind; [|intros ?]
    | |- keeps (ignore _) => apply keeps_ignore
    | |- keeps (change _ _ _ _) => apply keeps_change; intros ? ? ?; solve [eauto]
    | |- keeps (or_db_failure _) => apply keeps_or_db_failure
    | |- keeps (try _) => apply keeps_try
    | |- keeps (match _ with _ => _ end) => case_match
    | |- keeps (let '(_, _) := _ in _) => case_match
    end ].

Lemma keeps_from_now ms : keeps (from_now (U := U) (V := V) (St := St) clock ms).
Proof. unfold from_now. keep. Qed.
Lemma keeps_touch id : keeps (touch (St := St) net clock id : io W AppError unit).
Proof. unfold touch. keep. Qed.
Lemma keeps_owner_check a id : keeps (assert_owner_or_admin (V := V) (St := St) net clock a id).
Proof. unfold assert_owner_or_admin, owner_of_live. keep. Qed.
Lemma keeps_has_global a perm : keeps (caller_has_global (V := V) (St := St) net a perm).
Proof. intros w. unfold caller_has_global. destruct (owned_team_scope_for_perm _ _ _ _ _ _). split; simpl; [lia|done]. Qed.
Lemma keeps_load_limits u : keeps (load_role_limits (V := V) (St := St) net clock policy_from_value u).
Proof.
  intros w. unfold load_role_limits. pose proof (keeps_select (fun d => Ok (compute_user_resource_limits policy_from_value (kd_rbac d) u)) w).
  by destruct (select _ _ _ w) as [? []].
Qed.
Hint Resolve keeps_from_now keeps_touch keeps_owner_check keeps_has_global keeps_load_limits : core.
Lemma keeps_allowlists u l1 l2 : keeps (validate_allowlists_within_role (St := St) net clock policy_from_value u l1 l2).
Proof. unfold validate_allowlists_within_role. keep. Qed.
Lemma keeps_check_overrides u es : keeps (check_overrides (V := V) (St := St) net clock u es).
Proof. induction es as [|[? ?] es IH]; simpl; unfold mcp_credential_exists; keep. Qed.
Hint Resolve keeps_allowlists keeps_check_overrides : core.
Lemma keeps_overrides u v : keeps (validate_mcp_account_overrides (St := St) net clock json_entries json_empty u v).
Proof. unfold validate_mcp_account_overrides. keep. Qed.
Hint Resolve keeps_overrides : core.

(** ** The handlers *)

Lemma keeps_create a req encoded ded drd id : hash_api_key (KEY_PREFIX +:+ encoded) <> h ->
  keeps (create a req encoded ded drd id).
Proof. intros Hh. unfold create_key. cbv zeta. keep. by apply keeps_insert_key. Qed.

Lemma keeps_edit a id req : keeps (edit a id req).
Proof. unfold update_key, find_live. keep. Qed.

Lemma keeps_revoke a id : keeps (revoke_key (V := V) (St := St) net clock a id).
Proof. unfold revoke_key, revoke. keep. Qed.
Lemma keeps_force_revoke a id reason : keeps (force_revoke_key (V := V) (St := St) net clock a id reason).
Proof. unfold force_revoke_key, force_revoke. cbv zeta. keep. Qed.

Lemma keeps_sweep days : keeps (sweep days).
Proof. unfold run_lifecycle_check, emit_disable_audits. keep. Qed.

Lemma keeps_cascades u : keeps (disable_api_keys_of_disabled_user (V := V) (St := St) net clock u) /\
  keeps (disable_api_keys_of_deleted_user (V := V) (St := St) net clock u) /\
  keeps (account_keys_deleted (V := V) (St := St) net clock u).
Proof.
  unfold disable_api_keys_of_disabled_user, disable_api_keys_of_deleted_user, account_keys_deleted. split_and!; keep.
Qed.

Lemma db_evolves_filter (P : ApiKey U V -> Prop) `{!forall k, Decision (P k)} d :
  db_evolves d (set_keys (filter P (kd_keys d)) d).
Proof.
  intros Hn. simpl. split; [|intros k' [_ Hk']%list_elem_of_filter _; by exists k'].
  eapply sublist_NoDup; [exact Hn|]. apply fmap_sublist, sublist_filter.
Qed.
Lemma keeps_retention cutoff : keeps (retention_delete (U := U) (V := V) (St := St) net clock cutoff).
Proof. apply keeps_statement. intros t d. apply db_evolves_filter. Qed.
Lemma keeps_retention_users cutoff : keeps (retention_users (V := V) (St := St) net clock cutoff).
Proof.
  apply keeps_statement. intros t d. simpl.
  transitivity (set_keys (update_where (fun k => match ak_user_id k with
    | Some uid => negb (existsb (fun u => bool_decide (us_id u = uid))
                    (filter (fun u => match us_deleted_at u with Some x => x <? cutoff | None => false end = false) (kd_users d)))
    | None => false end) (with_owner None) (kd_keys d)).1 d); [|by apply db_evolves_same].
  apply update_where_step. intros. apply step_owner.
Qed.

Lemma keeps_find_key surface token g : keeps (find_key net clock hash_api_key surface token g : io W _ _).
Proof. unfold find_key, lookup_key. keep. Qed.

Lemma keeps_call surface use header query path g fc ip : keeps (call surface use header query path g fc ip).
Proof.
  unfold authenticate, authorize_key, load_owner, load_request_limits, user_email_of. cbv zeta. keep.
  all: try apply keeps_find_key. all: try (by intros w).
Qed.

Lemma keeps_console all token g ip ua : keeps (console all token g ip ua).
Proof.
  unfold auth_via_api_key. keep; [apply keeps_find_key|].
  intros w. unfold console_rate. destruct (fixed_window_incr _ _ _ _ _ _ _). split; simpl; [lia|done].
Qed.

(** The rotation finds its key live and active, so the row it changes was not dead. *)
Lemma find_row_Some w w1 id k : find_live net clock id w = (w1, Ok (Some k)) ->
  kw_db w1 = kw_db w /\ k ∈ kd_keys (kw_db w) /\ ak_id k = id /\ ak_deleted_at k = None.
Proof.
  unfold find_live, select, statement. destruct (net _); [|done..]. intros [= <- Hk].
  apply head_Some_elem_of, list_elem_of_filter in Hk as [Hl Hk]. unfold is_live_key, live in Hl.
  apply andb_true_iff in Hl as [->%bool_decide_eq_true ->%bool_decide_eq_true]. done.
Qed.

Lemma same_row d k1 k2 : NoDup (ids d) -> k1 ∈ kd_keys d -> k2 ∈ kd_keys d -> ak_id k1 = ak_id k2 -> k1 = k2.
Proof.
  intros Hn [i Hi]%list_elem_of_lookup [j Hj]%list_elem_of_lookup E.
  assert (i = j) as ->; [|congruence].
  eapply NoDup_lookup; [exact Hn|rewrite list_lookup_fmap, Hi; reflexivity|]. rewrite list_lookup_fmap, Hj. simpl. by rewrite E.
Qed.

Lemma rotate_rows_evolves old_key new_id prefix hash g t d : hash <> h ->
  old_key ∈ kd_keys d -> ak_deleted_at old_key = None -> ak_is_active old_key = true ->
  ak_disabled_reason old_key <> Some "rotated" ->
  db_evolves d (rotate_rows json_empty old_key new_id prefix hash g t d).1.
Proof.
  intros Hh Hold Hd Ha Hr. unfold rotate_rows.
  pose proof (insert_evolves (successor json_empty new_id prefix hash t old_key) d Hh) as Hi.
  assert (Hin : forall r, (insert_row (successor json_empty new_id prefix hash t old_key) d).2 = Ok r ->
    old_key ∈ kd_keys (insert_row (successor json_empty new_id prefix hash t old_key) d).1).
  { unfold insert_row. destruct (negb _); [done|]. destruct (existsb _ _); [done|]. intros r _. simpl. apply elem_of_app. by left. }
  destruct (insert_row _ d) as [d1 [k1|e]]; simpl in *; [|done]. specialize (Hin k1 eq_refl).
  intros Hn. destruct (Hi Hn) as [Hn1 _]. revert Hn. change (db_evolves d
    (set_keys (update_where (fun k => bool_decide (ak_id k = ak_id old_key)) (enter_grace g) (kd_keys d1)).1 d1)).
  transitivity d1; [exact Hi|]. apply update_where_step. intros k Hk Hid%bool_decide_eq_true.
  rewrite (same_row d1 k old_key) by done. by apply step_grace.
Qed.

Lemma rotate_evolves old_key new_id prefix hash g w : hash <> h ->
  old_key ∈ kd_keys (kw_db w) -> ak_deleted_at old_key = None -> ak_is_active old_key = true ->
  ak_disabled_reason old_key <> Some "rotated" ->
  evolves w (rotate net clock json_empty old_key new_id prefix hash g w).1.
Proof.
  intros Hh Hold Hd Ha Hr. pose proof (rotate_rows_evolves old_key new_id prefix hash g (clock (kw_calls w)) _ Hh Hold Hd Ha Hr) as Hq.
  unfold rotate, statement. destruct (net (kw_calls w)); [destruct (rotate_rows _ _ _ _ _ _ _ _)|..]; (split; simpl; [lia|done]).
Qed.

Lemma keeps_rotate a id encoded gh new_id : hash_api_key (KEY_PREFIX +:+ encoded) <> h ->
  keeps (rotated a id encoded gh new_id).
Proof.
  intros Hh. unfold rotate_key. cbv zeta. apply evolves_bind; [keep|intros _]. apply evolves_bind; [keep|intros _].
  intros w. rewrite io_bind_run. pose proof (keeps_select (fun d => Ok (head (filter (fun k => is_live_key id k = true) (kd_keys d)))) w) as Hf.
  change (select _ _ _) with (find_live (V := V) (St := St) net clock id) in Hf.
  destruct (find_live net clock id w) as [w1 [found|e]] eqn:E; [|done]. simpl in Hf |- *.
  destruct found as [old_key|]; [|done]. apply find_row_Some in E as (E1 & Hin & _ & Hd).
  rewrite io_bind_run. cbn [lift ok_or fst snd]. destruct (ak_is_active old_key) eqn:Ha; [|done]. cbn [negb].
  case_bool_decide as Hr; [done|]. transitivity w1; [done|]. rewrite io_bind_run. unfold from_now, key_now.
  rewrite io_bind_run. simpl. destruct (_ <=? _); [|done]. simpl. rewrite io_bind_run.
  rewrite <- E1 in Hin. pose proof (rotate_evolves old_key new_id (gk_prefix (generate_api_key hash_api_key encoded))
    (gk_hash (generate_api_key hash_api_key encoded)) (clock (kw_calls w1) + gh * 3600000) w1 Hh Hin Hd Ha Hr) as Hev.
  destruct (rotate _ _ _ _ _ _ _ _ w1) as [w2 [k|e]]; [|done]. simpl in *. transitivity w2; [done|].
  assert (Hk : forall e, keeps (_ ← key_log (U := U) (V := V) (St := St) e; mret (k : ApiKey U V))) by (intros e; keep).
  split; [simpl; lia|done].
Qed.
End Hash.
#[local] Existing Instances db_evolves_refl evolves_refl evolves_trans.

(** ** Histories *)

(** What acts on the keys: the handlers, the middlewares, the setup, the cascades, the two sweeps,
    and whoever edits the other tables and the Redis keys. *)
Inductive key_op :=
  | OpCreate (a : AuthUser U) (req : CreateApiKeyRequest V) (encoded : string) (expiry rotation : Z) (id : U)
  | OpSetup (id lineage : U) (prefix hash name : string) (user : U) (surfaces : list string)
  | OpUpdate (a : AuthUser U) (id : U) (req : UpdateKeyRequest V)
  | OpRevoke (a : AuthUser U) (id : U)
  | OpForceRevoke (a : AuthUser U) (id : U) (reason : string)
  | OpRotate (a : AuthUser U) (id : U) (encoded : string) (grace_hours : Z) (new_id : U)
  | OpCall (surface : string) (use : KeyUse) (header : string -> option string) (query : option string)
      (path : string) (inactivity : Z) (fail_closed : bool) (ip : option string)
  | OpConsole (all : list string) (token : string) (inactivity : Z) (ip ua : option string)
  | OpSweep (inactivity : Z)
  | OpUserDisabled (u : U)
  | OpUserDeleted (u : U)
  | OpAccountDeleted (u : U)
  | OpRetention (cutoff : Z)
  | OpElsewhere (users : list (User U)) (rbac : rbac_tables U V) (limits : limit_tables U)
      (credentials : list (U * U * string)) (redis : St).

Definition run_op (o : key_op) w : W :=
  match o with
  | OpCreate a req encoded ded drd id => (create a req encoded ded drd id w).1
  | OpSetup id lineage prefix hash name user surfaces =>
      (setup_key net clock id lineage prefix hash name user surfaces json_empty w).1
  | OpUpdate a id req => (edit a id req w).1
  | OpRevoke a id => (revoke_key net clock a id w).1
  | OpForceRevoke a id reason => (force_revoke_key net clock a id reason w).1
  | OpRotate a id encoded gh new_id => (rotated a id encoded gh new_id w).1
  | OpCall surface use header query path g fc ip => (call surface use header query path g fc ip w).1
  | OpConsole all token g ip ua => (console all token g ip ua w).1
  | OpSweep g => (sweep g w).1
  | OpUserDisabled u => (disable_api_keys_of_disabled_user net clock u w).1
  | OpUserDeleted u => (disable_api_keys_of_deleted_user net clock u w).1
  | OpAccountDeleted u => (account_keys_deleted net clock u w).1
  | OpRetention cutoff => (retention_delete net clock cutoff (retention_users net clock cutoff w).1).1
  | OpElsewhere users rbac limits credentials redis =>
      {| kw_calls := kw_calls w; kw_db := {| kd_keys := kd_keys (kw_db w); kd_users := users; kd_rbac := rbac;
           kd_limits := limits; kd_credentials := credentials |}; kw_redis := redis; kw_audit := kw_audit w |}
  end.
Definition run_ops (ops : list key_op) w : W := foldl (fun w o => run_op o w) w ops.

(** No key made has the hash [h]: what random bytes are for. *)
Definition makes_other (h : string) (o : key_op) : Prop :=
  match o with
  | OpCreate _ _ encoded _ _ _ | OpRotate _ _ encoded _ _ => hash_api_key (KEY_PREFIX +:+ encoded) <> h
  | OpSetup _ _ _ hash _ _ _ => hash <> h
  | _ => True
  end.

Lemma run_op_evolves h o w : makes_other h o -> evolves h w (run_op o w).
Proof.
  destruct o; simpl; intros Hh; try done.
  - by apply keeps_create.
  - apply keeps_statement. intros t d. by apply insert_evolves.
  - apply keeps_edit.
  - apply keeps_revoke.
  - apply keeps_force_revoke.
  - by apply keeps_rotate.
  - apply keeps_call.
  - apply keeps_console.
  - apply keeps_sweep.
  - apply keeps_cascades.
  - apply keeps_cascades.
  - apply keeps_cascades.
  - etransitivity; [apply (keeps_retention_users h cutoff)|apply keeps_retention].
  - split; [done|]. by apply db_evolves_same.
Qed.

Lemma run_ops_evolves h ops w : Forall (makes_other h) ops -> evolves h w (run_ops ops w).
Proof.
  intros Hf. revert w. induction Hf as [|o ops Ho Hf IH]; intros w; [done|]. simpl.
  etransitivity; [by apply (run_op_evolves h o)|apply IH].
Qed.

Context (clock_mono : forall i j, (i <= j)%nat -> clock i <= clock j).

Definition of_hash (h : string) (P : ApiKey U V -> Prop) w : Prop :=
  NoDup (ids (kw_db w)) /\ forall k, k ∈ kd_keys (kw_db w) -> ak_key_hash k = h -> P k.

Lemma evolves_of_hash h (P : ApiKey U V -> Prop) w w' : (forall k k', row_step k k' -> P k -> P k') ->
  evolves h w w' -> of_hash h P w -> of_hash h P w'.
Proof.
  intros HP [_ Hd] [Hn Hk]. destruct (Hd Hn) as [Hn' Hk']. split; [done|]. intros k' Hin Hh.
  destruct (Hk' _ Hin Hh) as (k & Hk0 & Hs). apply (HP k); [done|]. apply Hk; [done|]. destruct Hs as (_ & E & _). congruence.
Qed.

Lemma stays_dead h w w' : evolves h w w' -> of_hash h (dead (clock (kw_calls w))) w -> of_hash h (dead (clock (kw_calls w'))) w'.
Proof.
  intros He [Hn Hd]. assert (Hl : of_hash h (dead (clock (kw_calls w'))) w).
  { split; [done|]. intros k Hk Hh. eapply dead_later; [|by apply Hd]. apply clock_mono, He. }
  eapply evolves_of_hash; [|exact He|exact Hl]. intros k k' Hs. apply Hs.
Qed.

(** No row lets the token in. *)
Lemma dead_refused surface token g w : of_hash (hash_api_key token) (dead (clock (kw_calls w))) w ->
  forall row, (find_key net clock hash_api_key surface token g w).2 <> Ok row.
Proof.
  intros [_ Hd] row. unfold find_key. rewrite io_bind_run. unfold or_db_failure, lookup_key, select_at, statement.
  destruct (net (kw_calls w)); [|done..]. simpl.
  destruct (head _) as [k|] eqn:E; [|done]. apply head_Some_elem_of, list_elem_of_filter in E as [Hm Hk].
  rewrite dead_no_match in Hm; [done|]. apply Hd; [done|]. unfold key_matches in Hm.
  destruct (bool_decide (ak_key_hash k = _)) eqn:Eb; [by apply bool_decide_eq_true in Eb|done].
Qed.

(** Whoever presents the key, at a gateway or at the console, is refused. *)
Definition stays_out (token : string) w : Prop :=
  (forall surface use header query path g fc ip, presented_key header query = Some token ->
     forall i, (call surface use header query path g fc ip w).2 <> Ok i) /\
  (forall all g ip ua i, (console all token g ip ua w).2 <> Ok i).

Lemma dead_stays_out token w : of_hash (hash_api_key token) (dead (clock (kw_calls w))) w -> stays_out token w.
Proof.
  intros Hd. split.
  - intros surface use header query path g fc ip Hp i. unfold authenticate. rewrite Hp. unfold mbind at 1, io_bind at 1, lift. simpl.
    destruct (negb _); [done|]. rewrite io_bind_run. pose proof (dead_refused surface token g w Hd) as Hr.
    destruct (find_key _ _ _ _ _ _ w) as [w1 [row|e]]; [by destruct (Hr row)|done].
  - intros all g ip ua i. unfold auth_via_api_key. rewrite io_bind_run. pose proof (dead_refused "console" token g w Hd) as Hr.
    destruct (find_key _ _ _ _ _ _ w) as [w1 [row|e]]; [by destruct (Hr row)|done].
Qed.

(** ** Revoked *)

Definition archived_row k : Prop := ak_deleted_at k <> None.

Lemma change_run P f w w1 rows : change (St := St) net clock P f w = (w1, Ok rows) ->
  kw_calls w1 = S (kw_calls w) /\
  kw_db w1 = set_keys (update_where (P (clock (kw_calls w))) (f (clock (kw_calls w))) (kd_keys (kw_db w))).1 (kw_db w).
Proof. unfold change, statement. destruct (net _); simpl; [|done..]. by intros [= <- _]. Qed.

Lemma change_archives h (Q : ApiKey U V -> Prop) P f w w1 rows :
  (forall t k, Q k -> ak_deleted_at k = None -> P t k = true) -> (forall t k, archived_row (f t k)) ->
  (forall t k, row_step k (f t k)) -> of_hash h Q w -> change (St := St) net clock P f w = (w1, Ok rows) ->
  of_hash h archived_row w1.
Proof.
  intros HP Hf Hs [Hn Hq] Hrun. pose proof (keeps_change h P f (fun t k _ => Hs t k) w) as [_ He].
  rewrite Hrun in He. destruct (He Hn) as [Hn1 _]. split; [done|].
  apply change_run in Hrun as [_ ->]. simpl. intros k' (k & -> & Hk)%list_elem_of_fmap Hh.
  destruct (P _ k) eqn:Ep; [apply Hf|]. intros Hd. by rewrite HP in Ep by auto.
Qed.

(** Something that stops the key took effect and said so: its owner or an administrator revoked
    it, or its owner was disabled or deleted. *)
Definition stopped_by w k w1 : Prop :=
  (exists a, revoke_key net clock a (ak_id k) w = (w1, Ok tt)) \/
  (exists a reason, force_revoke_key net clock a (ak_id k) reason w = (w1, Ok tt)) \/
  exists u, ak_user_id k = Some u /\
    (disable_api_keys_of_disabled_user net clock u w = (w1, Ok tt) \/
     disable_api_keys_of_deleted_user net clock u w = (w1, Ok tt) \/
     account_keys_deleted net clock u w = (w1, Ok tt)).

Lemma of_hash_row (P : ApiKey U V -> Prop) w k : NoDup (ids (kw_db w)) -> NoDup (ak_key_hash <$> kd_keys (kw_db w)) ->
  k ∈ kd_keys (kw_db w) -> P k -> of_hash (ak_key_hash k) P w.
Proof.
  intros Hn Hh Hk HP. split; [done|]. intros k' Hk' E.
  apply list_elem_of_lookup in Hk as [i Hi]. apply list_elem_of_lookup in Hk' as [j Hj].
  assert (i = j) as ->; [|congruence].
  eapply NoDup_lookup; [exact Hh|rewrite list_lookup_fmap, Hi; reflexivity|]. rewrite list_lookup_fmap, Hj. simpl. by rewrite E.
Qed.

Lemma has_id h id w w' : evolves h w w' -> of_hash h (fun k => ak_id k = id) w -> of_hash h (fun k => ak_id k = id) w'.
Proof. intros He. apply evolves_of_hash; [|done]. intros k k' (E & _) <-. done. Qed.

Lemma stopped_archived w k w1 : NoDup (ids (kw_db w)) -> NoDup (ak_key_hash <$> kd_keys (kw_db w)) ->
  k ∈ kd_keys (kw_db w) -> stopped_by w k w1 -> of_hash (ak_key_hash k) archived_row w1.
Proof.
  intros Hn Hh Hk Hs. set (h := ak_key_hash k) in *.
  assert (Hlive : forall (t : Z) k', ak_id k' = ak_id k -> ak_deleted_at k' = None -> (fun _ => is_live_key (ak_id k)) t k' = true).
  { intros t k' E Hd. unfold is_live_key, live. by rewrite !bool_decide_eq_true_2. }
  pose proof (of_hash_row (fun k' => ak_id k' = ak_id k) w k Hn Hh Hk eq_refl) as Hid. fold h in Hid.
  destruct Hs as [(a & Hr)|[(a & reason & Hr)|(u & Hu & Hr)]].
  - unfold revoke_key, revoke in Hr. apply io_bind_Ok in Hr as (wa & [] & Ha & Hr). injection Ha as -> _.
    apply io_bind_Ok in Hr as (wb & [] & Hb & Hr). pose proof (keeps_owner_check h a (ak_id k) wa) as He. rewrite Hb in He.
    apply io_bind_Ok in Hr as (wc & n & Hc & Hr). apply io_bind_Ok in Hc as (wd & rows & Hc & [= <- <-]).
    assert (Har : of_hash h archived_row wd).
    { eapply change_archives; [apply Hlive| | |by eapply has_id|exact Hc]; [done|intros; apply step_archive]. }
    destruct (_ =? _)%nat; [done|]. by injection Hr as <-.
  - unfold force_revoke_key, force_revoke in Hr. apply io_bind_Ok in Hr as (wa & [] & Ha & Hr). injection Ha as -> _.
    apply io_bind_Ok in Hr as (wb & global & Hb & Hr). pose proof (keeps_has_global h a "api_keys:delete" wa) as He. rewrite Hb in He.
    destruct (negb global); [done|]. cbv zeta in Hr. case_bool_decide; [done|]. destruct (_ <? _)%nat; [done|].
    apply io_bind_Ok in Hr as (wc & n & Hc & Hr). apply io_bind_Ok in Hc as (wd & rows & Hc & [= <- <-]).
    assert (Har : of_hash h archived_row wd).
    { eapply change_archives; [apply Hlive| | |by eapply has_id|exact Hc]; [done|intros; apply step_archive]. }
    destruct (_ =? _)%nat; [done|]. by injection Hr as <-.
  - pose proof (of_hash_row (fun k' => ak_user_id k' = Some u) w k Hn Hh Hk Hu) as Hown. fold h in Hown.
    destruct Hr as [Hr|[Hr|Hr]]; apply io_bind_Ok in Hr as (wd & rows & Hc & [= <-]);
      (eapply change_archives; [| | |exact Hown|exact Hc]; [|done|intros; apply step_cascade]);
      intros t k' E Hd; unfold owned_live, live; simpl; by rewrite ?E, ?Hd, !bool_decide_eq_true_2.
Qed.

(** C16: Once a key is revoked, by its owner or by force, or its owner is disabled or deletes the
    account, whoever presents it is refused, at both gateways and at the console, whatever happens
    to the tables afterwards: nothing brings a stopped key back. *)
Theorem revoked_key_stays_out token k w w1 ops :
  hash_api_key token = ak_key_hash k ->
  NoDup (ids (kw_db w)) -> NoDup (ak_key_hash <$> kd_keys (kw_db w)) -> k ∈ kd_keys (kw_db w) ->
  stopped_by w k w1 -> Forall (makes_other (ak_key_hash k)) ops ->
  stays_out token (run_ops ops w1).
Proof.
  intros Ht Hn Hh Hk Hs Hops. apply dead_stays_out. rewrite Ht.
  apply (stays_dead _ w1); [by apply run_ops_evolves|].
  destruct (stopped_archived w k w1 Hn Hh Hk Hs) as [Hn1 Hd]. split; [done|]. intros k' Hk' E. left. by apply Hd.
Qed.

(** ** Rotated *)

Lemma insert_row_Ok k d d1 k1 : insert_row k d = (d1, Ok k1) -> k1 = k /\ d1 = set_keys (kd_keys d ++ [k]) d /\
  forall k', k' ∈ kd_keys d -> ak_id k' <> ak_id k /\ ak_key_hash k' <> ak_key_hash k.
Proof.
  unfold insert_row. destruct (negb _); [done|]. destruct (existsb _ _) eqn:Ex; [done|]. intros [= <- <-].
  split_and!; [done|done|]. intros k' Hk'. apply not_true_iff_false in Ex.
  split; intros E; apply Ex, existsb_elem_of; exists k'; (split; [done|]); rewrite orb_true_iff, !bool_decide_eq_true; auto.
Qed.

Lemma from_now_Ok ms w w1 g : from_now (U := U) (V := V) (St := St) clock ms w = (w1, Ok g) ->
  w1 = w /\ g = clock (kw_calls w) + ms.
Proof.
  unfold from_now, key_now. intros (w2 & t & [= <- <-] & Hr)%io_bind_Ok. destruct (_ <=? _); [|done]. by injection Hr as <- <-.
Qed.

Lemma select_db {A} (q : key_db U V -> result AppError A) w w1 r : select (St := St) net clock q w = (w1, r) ->
  kw_db w1 = kw_db w.
Proof. unfold select, statement. destruct (net _); simpl; by intros [= <- _]. Qed.
Lemma owner_check_db a id w w1 r : assert_owner_or_admin (V := V) (St := St) net clock a id w = (w1, r) -> kw_db w1 = kw_db w.
Proof.
  unfold assert_owner_or_admin, owner_of_live. rewrite io_bind_run. destruct (select _ _ _ w) as [w2 r2] eqn:E.
  apply select_db in E. simpl. destruct r2 as [[owner|]|]; simpl; [|by intros [= <- _]..].
  rewrite io_bind_run. simpl. repeat case_match; by intros [= <- _].
Qed.

Lemma rotated_ending a encoded gh new_id k w w1 resp :
  NoDup (ids (kw_db w)) -> NoDup (ak_key_hash <$> kd_keys (kw_db w)) -> k ∈ kd_keys (kw_db w) ->
  rotated a (ak_id k) encoded gh new_id w = (w1, Ok resp) ->
  of_hash (ak_key_hash k) (ending (clock (kw_calls w1) + gh * 3600000)) w1.
Proof.
  intros Hn Hh Hk Hr. unfold rotate_key in Hr. cbv zeta in Hr.
  apply io_bind_Ok in Hr as (wa & [] & Ha & Hr). injection Ha as -> _.
  apply io_bind_Ok in Hr as (wb & [] & Hb & Hr). apply owner_check_db in Hb.
  apply io_bind_Ok in Hr as (wc & found & Hc & Hr). apply io_bind_Ok in Hr as (wd & old_key & Hd & Hr).
  unfold lift, ok_or in Hd. destruct found as [old|]; [|done]. injection Hd as -> ->.
  apply find_row_Some in Hc as (Ec & Hin & Hid & Hlive). rewrite Hb in *. apply (same_row _ _ _ Hn Hin Hk) in Hid as ->.
  destruct (negb _); [done|]. case_bool_decide; [done|].
  apply io_bind_Ok in Hr as (we & g & Hg & Hr). apply from_now_Ok in Hg as [-> ->].
  apply io_bind_Ok in Hr as (wf & new & Hf & Hr). apply io_bind_Ok in Hr as (wg & [] & Hlog & Hr).
  injection Hr as -> _. injection Hlog as <-. unfold rotate, statement in Hf. destruct (net (kw_calls wd)); [|done..].
  unfold rotate_rows in Hf. rewrite Ec in Hf. destruct (insert_row _ _) as [d1 [k1|]] eqn:Ei; [|done]. injection Hf as <- ->.
  apply insert_row_Ok in Ei as (-> & -> & Hother). simpl. split.
  - simpl. rewrite <- list_fmap_compose, (list_fmap_ext _ ak_id) by (intros i k' _; simpl; by case_bool_decide).
    rewrite fmap_app. apply NoDup_app. split; [done|]. split; [|apply NoDup_singleton].
    intros x (k' & -> & Hk')%list_elem_of_fmap Hx%list_elem_of_singleton. by destruct (Hother k' Hk').
  - intros k' (k0 & -> & Hk0)%list_elem_of_fmap E. case_bool_decide as Hid0.
    + right. split; [done|]. eexists. split; [done|]. apply Z.add_le_mono_r, clock_mono. lia.
    + apply elem_of_app in Hk0 as [Hk0|Hk0%list_elem_of_singleton].
      * exfalso. apply Hid0. f_equal. by apply (of_hash_row (fun k' => k' = k) _ k Hn Hh Hk eq_refl).
      * exfalso. subst k0. by destruct (Hother k Hk).
Qed.

(** From its fourth statement on, a pass leaves every key whose grace is over dead. *)
Lemma grace_statement_ends h g now w w1 rows : g < now -> now <= clock (kw_calls w) -> of_hash h (ending g) w ->
  change (St := St) net clock (fun _ => grace_over now) (fun _ => deactivate) w = (w1, Ok rows) ->
  of_hash h (dead (clock (kw_calls w1))) w1.
Proof.
  intros Hg Hnow [Hn Hf] Hrun.
  pose proof (keeps_change h (fun _ => grace_over now) (fun _ => deactivate) (fun _ k _ => step_deactivate k) w) as [_ Hev].
  rewrite Hrun in Hev. destruct (Hev Hn) as [Hn' _]. split; [done|].
  apply change_run in Hrun as [Hcalls ->]. simpl. intros k' (k & -> & Hk)%list_elem_of_fmap E.
  assert (Hek : ending g k) by (apply Hf; [done|]; by destruct (grace_over now k)).
  assert (Hlater : now <= clock (kw_calls w1)) by (transitivity (clock (kw_calls w)); [done|]; apply clock_mono; lia).
  destruct Hek as [Hd|(_ & g' & Hg' & Hle)]; [destruct (grace_over now k); by left|].
  unfold grace_over. rewrite Hg', (proj2 (Z.ltb_lt g' now)), andb_true_r by lia.
  destruct (ak_is_active k) eqn:Ha; right; simpl; rewrite Hg'; (split; [done|lia]).
Qed.

Lemma sweep_ends h g days w w1 : g < clock (kw_calls w) -> of_hash h (ending g) w -> sweep days w = (w1, Ok tt) ->
  of_hash h (dead (clock (kw_calls w1))) w1.
Proof.
  intros Hg He Hr. set (now := clock (kw_calls w)) in *. unfold run_lifecycle_check in Hr.
  assert (Hkeep : forall {A} (p : io W AppError A) v v1 r, keeps h p -> now <= clock (kw_calls v) /\ of_hash h (ending g) v ->
    p v = (v1, r) -> now <= clock (kw_calls v1) /\ of_hash h (ending g) v1).
  { intros A p v v1 r Hp [Hc Hv] E. pose proof (Hp v) as Hev. rewrite E in Hev. split.
    - transitivity (clock (kw_calls v)); [done|]. apply clock_mono, Hev.
    - eapply evolves_of_hash; [|exact Hev|exact Hv]. intros k k' Hs. apply Hs. }
  apply io_bind_Ok in Hr as (wa & t & Ha & Hr). injection Ha as -> <-. fold now in Hr.
  assert (H0' : now <= clock (kw_calls wa) /\ of_hash h (ending g) wa) by done.
  apply io_bind_Ok in Hr as (wb & l1 & Hb & Hr). eapply Hkeep in Hb; [|apply keeps_change; intros; by eapply step_expired|done].
  apply io_bind_Ok in Hr as (wc & [] & Hc & Hr). eapply Hkeep in Hc; [|apply keeps_log_each|exact Hb].
  apply io_bind_Ok in Hr as (wd & [] & Hd & Hr). eapply Hkeep in Hd; [| |exact Hc].
  2: { destruct (0 <? days); [|apply keeps_mret]. apply evolves_bind; [|intros; apply keeps_log_each].
       apply keeps_change. intros; by eapply step_idle_globally. }
  apply io_bind_Ok in Hr as (we & l2 & Hl2 & Hr). eapply Hkeep in Hl2; [|apply keeps_change; intros; by eapply step_idle_by_own|exact Hd].
  apply io_bind_Ok in Hr as (wf & [] & Hf & Hr). eapply Hkeep in Hf; [|apply keeps_log_each|exact Hl2].
  apply io_bind_Ok in Hr as (wg & l3 & Hl3 & Hr). destruct Hf as [Hnow Hf].
  pose proof (grace_statement_ends h g now wf wg l3 Hg Hnow Hf Hl3) as Hdead.
  assert (Hrest : keeps h (_ ← emit_disable_audits "api_key.revoke" l3 "grace_period_expired";
                           warnings ← change net clock warns warned; key_log_each (U := U) (V := V) (St := St) (warning_row rfc3339 <$> warnings))).
  { apply evolves_bind; [apply keeps_log_each|intros _]. apply evolves_bind; [|intros; apply keeps_log_each].
    apply keeps_change. intros. apply step_warned. }
  specialize (Hrest wg). rewrite Hr in Hrest. by eapply stays_dead.
Qed.

(** C17: A rotated key ends: once a pass of the lifecycle task that began after the end of the
    rotation's grace period is through, whoever presents the old key is refused, whatever happened
    between the rotation and the pass and whatever happens after. *)
Theorem rotated_key_ends token k a encoded grace_hours new_id w w1 resp ops1 days w3 ops2 :
  hash_api_key token = ak_key_hash k ->
  NoDup (ids (kw_db w)) -> NoDup (ak_key_hash <$> kd_keys (kw_db w)) -> k ∈ kd_keys (kw_db w) ->
  rotated a (ak_id k) encoded grace_hours new_id w = (w1, Ok resp) ->
  Forall (makes_other (ak_key_hash k)) ops1 -> Forall (makes_other (ak_key_hash k)) ops2 ->
  clock (kw_calls w1) + grace_hours * 3600000 < clock (kw_calls (run_ops ops1 w1)) ->
  sweep days (run_ops ops1 w1) = (w3, Ok tt) ->
  stays_out token (run_ops ops2 w3).
Proof.
  intros Ht Hn Hh Hk Hrot H1' H2' Htime Hsweep. apply dead_stays_out. rewrite Ht.
  apply (stays_dead _ w3); [by apply run_ops_evolves|].
  pose proof (rotated_ending a encoded grace_hours new_id k w w1 resp Hn Hh Hk Hrot) as He.
  eapply sweep_ends; [exact Htime| |exact Hsweep].
  eapply evolves_of_hash; [|by apply run_ops_evolves|exact He]. intros k1 k2 Hs. apply Hs.
Qed.
End Spec.
