(* ===== verification/ApiKeyAccess.v ===== *)
(** * Who a key lets in, and as whom

    Theorems about [ApiKeyAuth.authenticate]: exactly when a gateway request with a key passes, and
    that the identity it goes on with holds both what the key and what its owner's roles allow. *)
From Stdlib Require Import Ascii.
From S2P Require Import Prelude Interfaces LimitTypes LimitStore Policy Constraints Sliding Effects GatewayDeps Text GatewayError AuditRow Lifecycle Pipeline McpRegistry ExpiringKeys Glob Validation Lockout Login LoginSpec Sessions SessionSpec Rbac Scope AllowList ApiKeys ApiKeyHandlers ApiKeyAuth ApiKeySpec.

Section Access.
Context {U V St : Type} `{UuidParse U, EqDecision U, EqDecision V, JsonValue V, ExpiringKeys St}.
Context (net : nat -> link) (clock : nat -> Z).
Context (policy_from_value : V -> result string (PolicyDocument V)).
Context (decode_constraints : V -> option PolicyConstraints).
Context (hash_api_key : string -> string).
Abbreviation W := (key_world U V St).
Abbreviation call := (authenticate net clock policy_from_value decode_constraints hash_api_key).
Implicit Types (k row : ApiKey U V) (w : W).

(** The days a key may lie unused: its own if any, else the deployment's, else as good as ever. *)
Definition idle_days (global : Z) row : Z :=
  let own := default 0 (ak_inactivity_timeout_days row) in
  if 0 <? own then own else if 0 <? global then global else 999999.

(** The key is one of the table's that authenticates at [t], checked for its expiry at [t'], for the
    surface; and its owner's roles open the surface. *)
Record admitted (surface : string) (header : string -> option string) (query : option string) (inactivity t t' : Z)
    (d : key_db U V) (token : string) row (uid : U) : Prop := {
  ad_presented : presented_key header query = Some token;
  ad_prefix : starts_with KEY_PREFIX token = true;
  ad_row : row ∈ kd_keys d;
  ad_hash : ak_key_hash row = hash_api_key token;
  ad_live : ak_deleted_at row = None;
  ad_owner : ak_user_id row = Some uid;
  ad_active : exists u, u ∈ kd_users d /\ us_id u = uid /\ us_is_active u = true /\ us_deleted_at u = None;
  ad_not_stopped : ak_is_active row = true \/ exists g, ak_grace_period_ends_at row = Some g /\ t < g;
  ad_not_idle : forall used, ak_last_used_at row = Some used -> t < used + idle_days inactivity row * 86400000;
  ad_surface : surface ∈ ak_surfaces row;
  ad_not_expired : forall e, ak_expires_at row = Some e -> t' <= e;
  ad_granted : let limits := compute_user_resource_limits policy_from_value (kd_rbac d) uid in
    surface = "ai_gateway" /\ url_ai_gateway limits = true \/ surface = "mcp_gateway" /\ url_mcp_gateway limits = true;
}.

Lemma key_matches_spec (users : list (User U)) h g t row : key_matches users h g t row = true <->
  ak_key_hash row = h /\ ak_deleted_at row = None /\ not_stopped t row = true /\ not_idle t g row = true /\
  exists u, u ∈ users /\ ak_user_id row = Some (us_id u) /\ us_is_active u = true /\ us_deleted_at u = None.
Proof.
  unfold key_matches, live, owner_active. rewrite !andb_true_iff, !bool_decide_eq_true, existsb_elem_of.
  setoid_rewrite andb_true_iff. setoid_rewrite andb_true_iff. setoid_rewrite bool_decide_eq_true. naive_solver.
Qed.

Lemma not_stopped_spec t row : not_stopped t row = true <->
  ak_is_active row = true \/ exists g, ak_grace_period_ends_at row = Some g /\ t < g.
Proof.
  unfold not_stopped. rewrite orb_true_iff. destruct (ak_grace_period_ends_at row) as [g|]; [rewrite Z.ltb_lt|]; naive_solver.
Qed.
Lemma not_idle_spec t global row : not_idle t global row = true <->
  forall used, ak_last_used_at row = Some used -> t < used + idle_days global row * 86400000.
Proof.
  unfold not_idle. destruct (ak_last_used_at row) as [u|]; [|naive_solver]. rewrite Z.ltb_lt.
  assert (E : inactivity_days global row = idle_days global row).
  { unfold inactivity_days, idle_days. by destruct (ak_inactivity_timeout_days row). }
  rewrite E. unfold day_ms. split; [intros ? ? [= <-]; lia|]. intros Hu. specialize (Hu u eq_refl). lia.
Qed.
Lemma surface_granted_spec surface limits : surface_granted surface limits = true <->
  surface = "ai_gateway" /\ url_ai_gateway limits = true \/ surface = "mcp_gateway" /\ url_mcp_gateway limits = true.
Proof. unfold surface_granted. repeat case_bool_decide; subst; naive_solver. Qed.

Lemma find_key_Ok surface token g w w1 row : find_key net clock hash_api_key surface token g w = (w1, Ok row) ->
  kw_db w1 = kw_db w /\ kw_calls w1 = S (kw_calls w) /\ row ∈ kd_keys (kw_db w) /\
  key_matches (kd_users (kw_db w)) (hash_api_key token) g (clock (kw_calls w)) row = true /\
  surface ∈ ak_surfaces row /\ forall e, ak_expires_at row = Some e -> clock (S (kw_calls w)) <= e.
Proof.
  unfold find_key, or_db_failure, lookup_key, select_at, statement. rewrite io_bind_run.
  destruct (net (kw_calls w)); simpl; [|done..]. destruct (head _) as [k|] eqn:E; simpl; [|done].
  apply head_Some_elem_of, list_elem_of_filter in E as [Hm Hk]. unfold mbind, io_bind. simpl.
  case_bool_decide as Hs; simpl; [|done].
  destruct (ak_expires_at k) as [e|] eqn:Ee.
  - destruct (Z.ltb_spec e (clock (S (kw_calls w)))); [done|]. intros [= <- <-]. split_and!; try done. intros e' E'.
    rewrite Ee in E'. by injection E' as <-.
  - intros [= <- <-]. split_and!; try done. congruence.
Qed.

(** A use of the key changes the table of keys only. *)
Definition same_owners w w' : Prop :=
  (kw_calls w <= kw_calls w')%nat /\ kd_rbac (kw_db w') = kd_rbac (kw_db w) /\ kd_limits (kw_db w') = kd_limits (kw_db w) /\
  kd_users (kw_db w') = kd_users (kw_db w).
Lemma touch_same w id : same_owners w (touch net clock id w).1.
Proof. unfold touch, ignore, change, statement. destruct (net _); (split; simpl; [lia|done]). Qed.
Lemma select_at_run {A} (q : Z -> key_db U V -> A) w : exists r, select_at net clock q w =
  ({| kw_calls := S (kw_calls w); kw_db := kw_db w; kw_redis := kw_redis w; kw_audit := kw_audit w |}, r) /\
  (forall a, r = Ok a -> a = q (clock (kw_calls w)) (kw_db w)) /\ (net (kw_calls w) = LinkOk -> is_ok r = true).
Proof. unfold select_at, statement. destruct (net _); simpl; eexists; (split; [reflexivity|]); naive_solver. Qed.

(** The limits an identity carries: those in force for the owner and the key's lineage, read a
    moment later; or none at all, when they could not be read and failing open. *)
Definition limits_of (use : KeyUse) (fail_closed : bool) (t : Z) (d : key_db U V) row (uid : U)
    (user key : SurfaceConstraints) : Prop :=
  (exists t1 t2, t <= t1 /\ t1 <= t2 /\
     user = compute_user_surface_constraints decode_constraints (kd_rbac d) (kd_limits d) t1 uid /\
     key = compute_key_surface_constraints (kd_limits d) t2 (ak_lineage_id row)) \/
  use = Call /\ fail_closed = false /\ user = SurfaceConstraints_default /\ key = SurfaceConstraints_default.

Context (clock_mono : forall i j, (i <= j)%nat -> clock i <= clock j).

Lemma load_owner_Ok row uid w w1 limits roles loaded : ak_user_id row = Some uid ->
  load_owner net clock policy_from_value decode_constraints row w = (w1, Ok (limits, roles, loaded)) ->
  same_owners w w1 /\ limits = compute_user_resource_limits policy_from_value (kd_rbac (kw_db w)) uid /\
  forall user key, loaded = Ok (user, key) -> exists t1 t2, clock (kw_calls w) <= t1 /\ t1 <= t2 /\
     user = compute_user_surface_constraints decode_constraints (kd_rbac (kw_db w)) (kd_limits (kw_db w)) t1 uid /\
     key = compute_key_surface_constraints (kd_limits (kw_db w)) t2 (ak_lineage_id row).
Proof.
  intros Hu. unfold load_owner, load_request_limits, or_db_failure, try. rewrite Hu.
  intros (wa & l & Ha & Hr)%io_bind_Ok. unfold select, statement in Ha. destruct (net (kw_calls w)); simplify_eq/=.
  apply io_bind_Ok in Hr as (wb & names & Hb & Hr). unfold select, statement in Hb. simpl in Hb.
  assert (Hwb : same_owners w wb /\ kw_db wb = kw_db w).
  { destruct (net (S (kw_calls w))); injection Hb as <- _; (split; [split; simpl; [lia|done]|done]). }
  clear Hb. destruct Hwb as [Hwb Edb]. apply io_bind_Ok in Hr as (wc & r & Hc & Hr). injection Hr as <- <- Hl.
  subst loaded.
  rewrite io_bind_run in Hc. destruct (select_at_run (fun t d => compute_user_surface_constraints decode_constraints (kd_rbac d) (kd_limits d) t uid) wb)
    as (r1 & E1 & Hr1 & _). rewrite E1 in Hc. destruct r1 as [u1|e1]; simpl in Hc.
  - clear E1. rewrite io_bind_run in Hc. match type of Hc with context [select_at net clock ?q ?v] =>
      destruct (select_at_run q v) as (r2 & E2 & Hr2 & _); rewrite E2 in Hc end.
    simpl in Hr2. rewrite Edb in *. destruct r2 as [k2|e2]; simpl in Hc; injection Hc as <- <-; (split; [|split; [done|]]).
    1, 3: destruct Hwb as (? & ?); split; simpl; [lia|done].
    + intros user key [= <- <-]. eexists (clock (kw_calls wb)), (clock (S (kw_calls wb))). split; [apply clock_mono, Hwb|].
      split; [apply clock_mono; lia|]. split; [by apply Hr1|by apply Hr2].
    + done.
  - injection Hc as <- <-. split; [|split; [done|done]]. destruct Hwb as (? & ?). split; simpl; [lia|by rewrite Edb].
Qed.

Lemma may_call_listed identity m : may_call identity m = model_listed (gi_allowed_models identity) m.
Proof. unfold may_call, model_listed. by destruct (gi_allowed_models _). Qed.

Lemma user_email_Ok owner w w1 email : user_email_of (V := V) (St := St) net clock owner w = (w1, Ok email) -> same_owners w w1.
Proof.
  unfold user_email_of. destruct owner as [uid|]; [|intros [= <- <-]; split; [lia|done]].
  intros (wa & r & Ha & Hr)%io_bind_Ok. injection Hr as <- _. unfold try, select, statement in Ha.
  destruct (net _); simpl in Ha; injection Ha as <- _; (split; simpl; [lia|done]).
Qed.

Lemma touch_step (use : KeyUse) id w w1 : (if decide (use = Call) then or_db_failure (touch net clock id) else mret tt) w = (w1, Ok tt) ->
  same_owners w w1.
Proof.
  destruct (decide _); [|intros [= <-]; split; [lia|done]]. pose proof (touch_same w id) as Ht. unfold or_db_failure.
  destruct (touch _ _ _ _) as [w2 [a|err]]; [|done]. intros [= <- _]. done.
Qed.

Lemma limits_of_loaded use fail_closed t d row uid (loaded : result AppError (SurfaceConstraints * SurfaceConstraints)) user key :
  bool_decide (use = Read) && negb (is_ok loaded) = false ->
  limits_or_refusal loaded (if is_ok loaded then false else fail_closed) = Some (user, key) ->
  (forall (user key : SurfaceConstraints), loaded = Ok (user, key) -> exists t1 t2, t <= t1 /\ t1 <= t2 /\
     user = compute_user_surface_constraints decode_constraints (kd_rbac d) (kd_limits d) t1 uid /\
     key = compute_key_surface_constraints (kd_limits d) t2 (ak_lineage_id row)) ->
  limits_of use fail_closed t d row uid user key.
Proof.
  destruct loaded as [[u1 k1]|err]; simpl.
  - intros _ [= <- <-] Hl. left. by apply Hl.
  - rewrite andb_true_r. intros Hu%bool_decide_eq_false. destruct fail_closed; [done|]. intros [= <- <-] _. right.
    split_and!; [by destruct use|done..].
Qed.

(** What a request goes on with: the key and its owner, what both allow, and for the MCP gateway
    the tools as well. *)
Record carries (surface : string) (use : KeyUse) (fail_closed : bool) (client_ip : option string) (t : Z) (d : key_db U V)
    row (uid : U) (identity : GatewayRequestIdentity) (mcp : option (McpRequestIdentity U V)) : Prop := {
  ca_user : gi_user_id identity = Some (uuid_str uid);
  ca_key : gi_api_key_id identity = Some (uuid_str (ak_id row));
  ca_lineage : gi_api_key_lineage_id identity = Some (uuid_str (ak_lineage_id row));
  ca_ip : gi_ip_address identity = client_ip;
  ca_expires : gi_key_expires_at identity = stops_authenticating_at (ak_expires_at row) (ak_grace_period_ends_at row);
  ca_models : forall m, may_call identity m = model_listed (ak_allowed_models row) m &&
    model_listed (url_allowed_models (compute_user_resource_limits policy_from_value (kd_rbac d) uid)) m;
  ca_limits : limits_of use fail_closed t d row uid (gi_surface_constraints identity) (gi_key_constraints identity);
  ca_mcp : is_Some mcp <-> surface = "mcp_gateway";
  ca_tools : forall mi, mcp = Some mi -> mi_user_id mi = uid /\ mi_api_key_lineage_id mi = ak_lineage_id row /\
    mi_surface_constraints mi = gi_surface_constraints identity /\ mi_key_constraints mi = gi_key_constraints identity /\
    mi_mcp_account_overrides mi = ak_mcp_account_overrides row /\
    forall tool, is_tool_allowed (mi_allowed_mcp_tools mi) tool = is_tool_allowed (ak_allowed_mcp_tools row) tool &&
      is_tool_allowed (url_allowed_mcp_tools (compute_user_resource_limits policy_from_value (kd_rbac d) uid)) tool;
}.

Lemma tools_within key role tool : is_tool_allowed (intersect_allowlists key role mcp_entry_covers) tool =
  is_tool_allowed key tool && is_tool_allowed role tool.
Proof. exact (intersect_lets_through pattern_matches mcp_entry_covers key role tool). Qed.
Lemma models_within key role m : model_listed (intersect_allowlists key role model_entry_covers) m =
  model_listed key m && model_listed role m.
Proof. exact (intersect_lets_through model_matches model_entry_covers key role m). Qed.

Lemma limits_of_same use fc t t' d d' row uid user key : t <= t' -> kd_rbac d' = kd_rbac d -> kd_limits d' = kd_limits d ->
  limits_of use fc t' d' row uid user key -> limits_of use fc t d row uid user key.
Proof.
  unfold limits_of. intros Ht -> ->. intros [(t1 & t2 & ? & ? & ? & ?)|?]; [left|by right]. exists t1, t2. split_and!; [lia|done..].
Qed.

Lemma authorize_Ok surface use path fc ip row uid w w' identity mcp : ak_user_id row = Some uid ->
  authorize_key net clock policy_from_value decode_constraints surface use path fc ip row w = (w', Ok (identity, mcp)) ->
  surface_granted surface (compute_user_resource_limits policy_from_value (kd_rbac (kw_db w)) uid) = true /\
  carries surface use fc ip (clock (kw_calls w)) (kw_db w) row uid identity mcp.
Proof.
  intros Hu. unfold authorize_key. intros (wa & [] & Ha & Hr)%io_bind_Ok. apply touch_step in Ha as (Hc & Er & El & _).
  apply io_bind_Ok in Hr as (wb & [[limits roles] loaded] & Hb & Hr). eapply load_owner_Ok in Hb as (_ & El' & Hl); [|done].
  rewrite Er in El'. destruct (surface_granted _ limits) eqn:Hs; [|done]. simpl in Hr. split; [by rewrite <- El'|].
  destruct (bool_decide _ && _) eqn:Hread; [done|].
  destruct (limits_or_refusal _ _) as [[user key]|] eqn:Hlim;
    [|by apply io_bind_Ok in Hr as (? & ? & ? & Hr)].
  eapply limits_of_loaded in Hlim; [|done|exact Hl]. rewrite Hu in Hr.
  apply io_bind_Ok in Hr as (wc & email & _ & Hr).
  eapply limits_of_same in Hlim; [|apply clock_mono, Hc|exact Er|exact El].
  case_bool_decide as Hmcp.
  - apply io_bind_Ok in Hr as (wd & id & Hd & Hr). injection Hd as <- <-.
    apply io_bind_Ok in Hr as (we & e & _ & Hr). injection Hr as _ <- <-.
    split; simpl; rewrite ?Hu; try done.
    + intros m. rewrite may_call_listed. simpl. by rewrite models_within, El'.
    + intros mi [= <-]. split_and!; try done. simpl. intros tool. by rewrite tools_within, El'.
  - injection Hr as _ <- <-. split; simpl; rewrite ?Hu; try done.
    + intros m. rewrite may_call_listed. simpl. by rewrite models_within, El'.
Qed.


Lemma authenticate_Ok surface use header query path inactivity fail_closed ip w w' identity mcp :
  call surface use header query path inactivity fail_closed ip w = (w', Ok (identity, mcp)) ->
  exists token row uid,
    admitted surface header query inactivity (clock (kw_calls w)) (clock (S (kw_calls w))) (kw_db w) token row uid /\
    carries surface use fail_closed ip (clock (S (kw_calls w))) (kw_db w) row uid identity mcp.
Proof.
  unfold authenticate. intros (wa & token & Ha & Hr)%io_bind_Ok. unfold lift, ok_or in Ha.
  destruct (presented_key _ _) as [token'|] eqn:Hp; [|done]. injection Ha as <- <-.
  destruct (starts_with _ _) eqn:Hpre; [|done]. simpl in Hr. apply io_bind_Ok in Hr as (wb & row & Hf & Hr).
  apply find_key_Ok in Hf as (Ed & Ec & Hin & Hm & Hs & He).
  apply key_matches_spec in Hm as (Hh & Hl & Hst & Hi & u & Hu & Ho & Ha & Hdel).
  eapply authorize_Ok in Hr as [Hg Hc]; [|exact Ho]. rewrite Ed, Ec in *. exists token', row, (us_id u).
  split; [|done]. split; try done; [by exists u|by apply not_stopped_spec|by apply not_idle_spec|by apply surface_granted_spec].
Qed.

(** *** With the database up *)

Section Up.
Context (link_up : forall n, net n = LinkOk).

Lemma up_statement {A} (q : Z -> key_db U V -> key_db U V * result AppError A) w : statement net clock q w =
  let '(d, r) := q (clock (kw_calls w)) (kw_db w) in
  ({| kw_calls := S (kw_calls w); kw_db := d; kw_redis := kw_redis w; kw_audit := kw_audit w |}, r).
Proof. unfold statement. by rewrite link_up. Qed.

Lemma find_key_admitted surface header query g w token row uid : NoDup (ak_key_hash <$> kd_keys (kw_db w)) ->
  admitted surface header query g (clock (kw_calls w)) (clock (S (kw_calls w))) (kw_db w) token row uid ->
  exists w1, find_key net clock hash_api_key surface token g w = (w1, Ok row) /\ kw_db w1 = kw_db w.
Proof.
  intros Hn [_ _ Hin Hh Hl Ho (u & Hu & Hid & Ha & Hd) Hst Hi Hs He _].
  unfold find_key, or_db_failure, lookup_key, select_at. rewrite io_bind_run, up_statement. simpl.
  assert (Hm : forall k, k ∈ kd_keys (kw_db w) -> key_matches (kd_users (kw_db w)) (hash_api_key token) g (clock (kw_calls w)) k = true -> k = row).
  { intros k Hk (E & _)%key_matches_spec. eapply (NoDup_fmap_elem ak_key_hash (kd_keys (kw_db w))); [done..|congruence]. }
  assert (Hrow : key_matches (kd_users (kw_db w)) (hash_api_key token) g (clock (kw_calls w)) row = true).
  { apply key_matches_spec. split_and!; [done|done|by apply not_stopped_spec|by apply not_idle_spec|]. exists u. split_and!; try done. by rewrite Hid. }
  destruct (head _) as [k|] eqn:E.
  - apply head_Some_elem_of, list_elem_of_filter in E as [Hk Hin']. rewrite (Hm k) by done. simpl.
    rewrite io_bind_run. simpl. rewrite (bool_decide_eq_true_2 (surface ∈ ak_surfaces row)) by done. simpl. rewrite io_bind_run. simpl.
    destruct (ak_expires_at row) as [e|] eqn:Ee; [rewrite (proj2 (Z.ltb_ge e _)) by (by apply He)|]; by eexists.
  - apply head_None in E. assert (Hnil : row ∈ filter (fun k => key_matches (kd_users (kw_db w)) (hash_api_key token) g
      (clock (kw_calls w)) k = true) (kd_keys (kw_db w))) by by apply list_elem_of_filter. rewrite E in Hnil. by apply elem_of_nil in Hnil.
Qed.

Lemma load_owner_up row uid w : ak_user_id row = Some uid ->
  exists w' names limits, load_owner net clock policy_from_value decode_constraints row w =
    (w', Ok (compute_user_resource_limits policy_from_value (kd_rbac (kw_db w)) uid, names, Ok limits)) /\
    kw_db w' = kw_db w.
Proof.
  intros Ho. unfold load_owner. rewrite Ho. unfold or_db_failure, try, load_request_limits, select, select_at.
  repeat (rewrite !io_bind_run; cbn [fst snd]; rewrite ?up_statement; cbn [fst snd kw_db kw_calls]). simpl. eauto 6.
Qed.

Lemma user_email_up uid w : (exists u, u ∈ kd_users (kw_db w) /\ us_id u = uid) ->
  exists w' email, user_email_of net clock (Some uid) w = (w', Ok (Some email)).
Proof.
  intros (u & Hu & Hid). unfold user_email_of, try, select. rewrite io_bind_run. rewrite up_statement. simpl.
  destruct (head _) as [u'|] eqn:E; [simpl; eauto|]. apply head_None in E.
  assert (Hnil : u ∈ filter (fun u => us_id u = uid) (kd_users (kw_db w))) by by apply list_elem_of_filter.
  rewrite E in Hnil. by apply elem_of_nil in Hnil.
Qed.

Lemma authorize_admitted surface use path fc ip row uid w : ak_user_id row = Some uid ->
  surface_granted surface (compute_user_resource_limits policy_from_value (kd_rbac (kw_db w)) uid) = true ->
  (exists u, u ∈ kd_users (kw_db w) /\ us_id u = uid) ->
  exists w' r, authorize_key net clock policy_from_value decode_constraints surface use path fc ip row w = (w', Ok r).
Proof.
  intros Ho Hg Hu. unfold authorize_key.
  assert (Ht : exists w1, (if decide (use = Call) then or_db_failure (touch net clock (ak_id row)) else mret tt) w = (w1, Ok tt) /\
     kd_rbac (kw_db w1) = kd_rbac (kw_db w) /\ kd_users (kw_db w1) = kd_users (kw_db w)).
  { destruct (decide _); [|by exists w]. unfold or_db_failure, touch, ignore, change. rewrite up_statement. by eexists. }
  destruct Ht as (w1 & Ht & Er & Eu). rewrite io_bind_run, Ht. cbn [fst snd].
  destruct (load_owner_up row uid w1 Ho) as (w2 & names & limits & Hl & E2). rewrite io_bind_run, Hl, Er. simpl. rewrite Hg. simpl.
  destruct limits as [user key]. simpl. rewrite andb_false_r, io_bind_run, Ho.
  destruct (user_email_up uid w2) as (w3 & email & He); [by rewrite E2, Eu|]. rewrite He. cbn [fst snd].
  case_bool_decide; [|by eexists _, _]. rewrite io_bind_run. simpl. rewrite io_bind_run. by eexists _, _.
Qed.
End Up.

(** C4: A request that passes the check of its API key at a gateway presented a live key of the
    table that has not expired, stopped or gone idle and carries the surface, whose owner is
    active and holds a role granting the surface; and it goes on as that owner, with exactly the
    models and tools both the key and the owner's roles allow and the limits in force for both
    (or, when they could not be read and the deployment fails open, none, and never to read
    usage).  With the database up, every request with such a key passes. *)
Theorem key_admission surface use header query path inactivity fail_closed ip w :
  (forall w' identity mcp,
     call surface use header query path inactivity fail_closed ip w = (w', Ok (identity, mcp)) ->
     exists token row uid,
       admitted surface header query inactivity (clock (kw_calls w)) (clock (S (kw_calls w))) (kw_db w) token row uid /\
       carries surface use fail_closed ip (clock (S (kw_calls w))) (kw_db w) row uid identity mcp) /\
  ((forall n, net n = LinkOk) -> NoDup (ak_key_hash <$> kd_keys (kw_db w)) ->
   forall token row uid,
     admitted surface header query inactivity (clock (kw_calls w)) (clock (S (kw_calls w))) (kw_db w) token row uid ->
     exists w' r, call surface use header query path inactivity fail_closed ip w = (w', Ok r)).
Proof.
  split; [intros w' identity mcp; apply authenticate_Ok|]. intros Hup Hn token row uid Had.
  destruct (find_key_admitted Hup _ _ _ _ _ _ _ _ Hn Had) as (w1 & Hf & E1).
  unfold authenticate. rewrite io_bind_run, (ad_presented _ _ _ _ _ _ _ _ _ _ Had). simpl.
  rewrite (ad_prefix _ _ _ _ _ _ _ _ _ _ Had). simpl. rewrite io_bind_run, Hf. cbn [fst snd].
  apply (authorize_admitted Hup _ _ _ _ _ row uid); [apply Had|rewrite E1; apply surface_granted_spec, Had|].
  rewrite E1. destruct (ad_active _ _ _ _ _ _ _ _ _ _ Had) as (u & Hu & Hid & _). eauto.
Qed.
End Access.

(** * API keys, run

    One key through its life on a concrete table: used, revoked, rotated; and what the pass of the
    lifecycle task leaves open until it runs. *)

(** Alice holds a role that opens the AI gateway; a key is its own hash. *)
Definition alice_key : ApiKey demo_uuid json := {|
  ak_id := UKey1; ak_key_prefix := "tw-aaaa"; ak_key_hash := "tw-a"; ak_name := "ci"; ak_user_id := Some UAlice;
  ak_surfaces := ["ai_gateway"]; ak_allowed_models := Some ["gpt-4"]; ak_allowed_mcp_tools := None;
  ak_mcp_account_overrides := Interfaces.JObj [("m", Interfaces.JStr "work")]; ak_expires_at := None; ak_is_active := true;
  ak_last_used_at := None; ak_created_at := 0; ak_deleted_at := None; ak_rotation_period_days := Some 90;
  ak_rotated_from_id := None; ak_grace_period_ends_at := None; ak_inactivity_timeout_days := None;
  ak_disabled_reason := None; ak_last_rotation_at := None; ak_lineage_id := UKey1; ak_cost_center := None;
  ak_last_expiry_warning_days := None |}.

Definition key_tables : rbac_tables demo_uuid json := {|
  rt_roles := [(UNil, "developer", demo_role "Allow" "ai_gateway:use")];
  rt_assignments := [(UAlice, UNil, "global", None)]; rt_members := []; rt_team_roles := [] |}.

Definition key_demo_world : key_world demo_uuid json demo_keys := {|
  kw_calls := 0;
  kw_db := {| kd_keys := [alice_key]; kd_users := [LoginSpec.demo_user false]; kd_rbac := key_tables;
              kd_limits := {| lt_rules := []; lt_caps := [] |}; kd_credentials := [] |};
  kw_redis := ∅; kw_audit := [] |}.

Definition key_holder : AuthUser demo_uuid :=
  {| au_claims := demo_token "access" 0; au_ip := None; au_user_agent := None;
     au_permissions := ["api_keys:delete"; "api_keys:rotate"]; au_denied_permissions := [] |}.

Definition header_of (token : string) (name : string) : option string := if decide (name = "x-api-key") then Some token else None.
Abbreviation demo_call token := (authenticate (St := demo_keys) demo_net slowing demo_policy (fun _ => None) (fun s => s) "ai_gateway" Call
  (header_of token) None "/v1/messages" 0 true None).
Definition admits (token : string) (w : key_world demo_uuid json demo_keys) : bool :=
  Prelude.is_ok (demo_call token w).2.
Abbreviation demo_rotate grace := (rotate_key (St := demo_keys) demo_net slowing (fun s => s) (Interfaces.JObj []) dec_of_Z key_holder
  (ak_id alice_key) "b" grace UNil).
Abbreviation demo_sweep := (run_lifecycle_check (V := json) (St := demo_keys) demo_net slowing dec_of_Z 0).
Abbreviation demo_revoke := (revoke_key (V := json) (St := demo_keys) demo_net slowing key_holder (ak_id alice_key)).
Abbreviation demo_ops := (run_ops (U := demo_uuid) (V := json) (St := demo_keys) demo_net slowing demo_policy (fun _ => None) (fun s => s)
  (fun _ => []) (Interfaces.JObj []) dec_of_Z dec_of_Z).

(** A call with the key, and the same at other times. *)
Definition use_it : key_op (U := demo_uuid) (V := json) (St := demo_keys) :=
  OpCall "ai_gateway" Call (header_of "tw-a") None "/v1/messages" 0 true None.

Lemma is_ok_end {E A} (p : key_world demo_uuid json demo_keys * result E A) : Prelude.is_ok p.2 = true -> exists a, p = (p.1, Ok a).
Proof. destruct p as [w [a|e]]; [by exists a|done]. Qed.
Lemma is_ok_tt {E} (p : key_world demo_uuid json demo_keys * result E unit) : Prelude.is_ok p.2 = true -> p = (p.1, Ok tt).
Proof. by destruct p as [w [[]|e]]. Qed.

Lemma one_key {A} (f : ApiKey demo_uuid json -> A) : NoDup (f <$> kd_keys (kw_db key_demo_world)).
Proof. apply NoDup_singleton. Qed.

Lemma key_admission_witness :
  admits "tw-a" key_demo_world = true /\
  (exists token row uid,
    admitted demo_policy (fun s => s) "ai_gateway" (header_of "tw-a") None 0 0 hour (kw_db key_demo_world) token row uid) /\
  exists w' r, demo_call "tw-a" key_demo_world = (w', Ok r).
Proof.
  split; [vm_compute; reflexivity|].
  pose proof (key_admission demo_net slowing demo_policy (fun _ => None) (fun s => s) slowing_mono "ai_gateway" Call
                (header_of "tw-a") None "/v1/messages" 0 true None key_demo_world) as [Hin Hout].
  assert (Had : exists token row uid,
    admitted demo_policy (fun s => s) "ai_gateway" (header_of "tw-a") None 0 0 hour (kw_db key_demo_world) token row uid).
  { destruct (is_ok_end (demo_call "tw-a" key_demo_world)) as [[identity mcp] E]; [vm_compute; reflexivity|].
    destruct (Hin _ _ _ E) as (token & row & uid & Had & _). exists token, row, uid. exact Had. }
  split; [exact Had|]. destruct Had as (token & row & uid & Had).
  exact (Hout ltac:(reflexivity) (one_key ak_key_hash) token row uid Had).
Defined.

Lemma revoked_key_stays_out_witness :
  admits "tw-a" key_demo_world = true /\
  admits "tw-a" (demo_ops [OpSweep 0; use_it] (demo_revoke key_demo_world).1) = false.
Proof.
  split; [vm_compute; reflexivity|].
  pose proof (revoked_key_stays_out demo_net slowing demo_policy (fun _ => None) (fun s => s) (fun _ => []) (Interfaces.JObj [])
    dec_of_Z dec_of_Z slowing_mono "tw-a" alice_key key_demo_world (demo_revoke key_demo_world).1 [OpSweep 0; use_it]
    eq_refl (one_key ak_id) (one_key ak_key_hash) ltac:(left)
    ltac:(left; exists key_holder; apply is_ok_tt; vm_compute; reflexivity) ltac:(repeat constructor)) as [Hout _].
  unfold admits. destruct (demo_call _ _).2 as [i|e] eqn:E; [|reflexivity].
  destruct (Hout "ai_gateway" Call (header_of "tw-a") None "/v1/messages" 0 true None eq_refl i E).
Defined.

(** Rotated in the second hour with one hour of grace; a pass starts in the tenth. *)
Abbreviation rotated_world := (demo_rotate 1 key_demo_world).1.
Abbreviation swept_world := (demo_sweep (demo_ops [use_it] rotated_world)).1.

Lemma rotated_key_ends_witness :
  admits "tw-a" rotated_world = true /\ admits "tw-b" swept_world = true /\
  admits "tw-a" (demo_ops [use_it] swept_world) = false.
Proof.
  split; [vm_compute; reflexivity|]. split; [vm_compute; reflexivity|].
  destruct (is_ok_end (demo_rotate 1 key_demo_world)) as [resp E]; [vm_compute; reflexivity|].
  assert (Ed : Prelude.is_ok (demo_sweep (demo_ops [use_it] rotated_world)).2 = true) by (vm_compute; reflexivity).
  apply is_ok_tt in Ed.
  assert (Et : slowing (kw_calls rotated_world) + 1 * 3600000 < slowing (kw_calls (demo_ops [use_it] rotated_world))).
  { apply Z.ltb_lt. vm_compute. reflexivity. }
  pose proof (rotated_key_ends demo_net slowing demo_policy (fun _ => None) (fun s => s) (fun _ => []) (Interfaces.JObj [])
    dec_of_Z dec_of_Z slowing_mono "tw-a" alice_key key_holder "b" 1 UNil key_demo_world rotated_world resp [use_it] 0 swept_world
    [use_it] eq_refl (one_key ak_id) (one_key ak_key_hash) ltac:(left) E ltac:(repeat constructor) ltac:(repeat constructor) Et Ed)
    as [Hout _].
  unfold admits. destruct (demo_call _ _).2 as [i|e] eqn:E'; [|reflexivity].
  destruct (Hout "ai_gateway" Call (header_of "tw-a") None "/v1/messages" 0 true None eq_refl i E').
Defined.

(** Seven hours after the grace ended, and before a pass, the old key still works: its row stays
    active, and the lookup asks for either an active row or a running grace. *)
Lemma grace_outlived :
  let w := demo_ops [use_it] rotated_world in
  (head (kd_keys (kw_db w)) ≫= ak_grace_period_ends_at) = Some (3 * hour) /\ slowing (kw_calls w) = 10 * hour /\
  admits "tw-a" w = true.
Proof. split_and!; vm_compute; reflexivity. Qed.

(** The key made by a rotation loses the accounts its calls were bound to. *)
Lemma overrides_lost_on_rotation :
  ak_mcp_account_overrides <$> kd_keys (kw_db rotated_world) =
    [Interfaces.JObj [("m", Interfaces.JStr "work")]; Interfaces.JObj []].
Proof. vm_compute. reflexivity. Qed.
