(* ===== verification/LimitHandlers.v ===== *)
(** * The handlers of [/api/admin/limits]

    [crates/server/src/handlers/limits.rs] and [limits_bulk.rs], with the statements of
    [crates/server/src/services/limits_repository.rs]: listing, upserting and deleting the rules
    and caps of a subject, their use so far, and the same over many subjects or rows at once.
    The calls of the database and of Redis are numbered; [net] says how each ends, [fresh] is the
    id the database would give a row inserted by one. *)

From Stdlib Require Import Ascii.
From S2P Require Import Prelude Interfaces LimitTypes LimitStore Policy Constraints GatewayDeps Text Glob Sliding Budget Effects AuditRow ExpiringKeys Validation Lockout Login Sessions Rbac Scope ApiKeys.

(** ** Wire types *)

Record RuleRow {U : Type} := {
  rrow_id : U; rrow_subject_kind : string; rrow_subject_id : U; rrow_surface : string; rrow_metric : string;
  rrow_window_secs : Z; rrow_max_count : Z; rrow_enabled : bool;
  rrow_expires_at : option Z; rrow_reason : option string; rrow_created_by : option U;
}.
#[global] Arguments RuleRow : clear implicits.
Definition RuleRow_from {U} (r : RateLimitRule U) : RuleRow U :=
  {| rrow_id := rr_id r; rrow_subject_kind := RateLimitSubject.as_str (rr_subject_kind r);
     rrow_subject_id := rr_subject_id r; rrow_surface := Surface.as_str (rr_surface r);
     rrow_metric := RateMetric.as_str (rr_metric r); rrow_window_secs := rr_window_secs r;
     rrow_max_count := rr_max_count r; rrow_enabled := rr_enabled r; rrow_expires_at := rr_expires_at r;
     rrow_reason := rr_reason r; rrow_created_by := rr_created_by r |}.

Record CapRow {U : Type} := {
  crow_id : U; crow_subject_kind : string; crow_subject_id : U; crow_period : string;
  crow_limit_tokens : Z; crow_enabled : bool;
  crow_expires_at : option Z; crow_reason : option string; crow_created_by : option U;
}.
#[global] Arguments CapRow : clear implicits.
Definition CapRow_from {U} (c : BudgetCap U) : CapRow U :=
  {| crow_id := bc_id c; crow_subject_kind := BudgetSubject.as_str (bc_subject_kind c);
     crow_subject_id := bc_subject_id c; crow_period := BudgetPeriod.as_str (bc_period c);
     crow_limit_tokens := bc_limit_tokens c; crow_enabled := bc_enabled c; crow_expires_at := bc_expires_at c;
     crow_reason := bc_reason c; crow_created_by := bc_created_by c |}.

Record UpsertRuleRequest := {
  rq_surface : string; rq_metric : string; rq_window_secs : Z; rq_max_count : Z; rq_enabled : bool;
  rq_expires_at : option Z; rq_reason : option string;
}.
Record UpsertCapRequest := {
  cq_period : string; cq_limit_tokens : Z; cq_enabled : bool; cq_expires_at : option Z; cq_reason : option string;
}.

Record RuleUsage {U : Type} := { rus_rule_id : U; rus_current : Z; rus_limit : Z }.
Record CapUsage {U : Type} := { cus_cap_id : U; cus_current : Z; cus_limit : Z }.
#[global] Arguments RuleUsage : clear implicits.
#[global] Arguments CapUsage : clear implicits.

Record SubjectRef {U : Type} := { sr_kind : string; sr_id : U }.
Record BulkOutcome {U : Type} := {
  bo_subject_kind : string; bo_subject_id : U; bo_row_id : option U; bo_error : option string;
}.
Record BulkIdsOutcome {U : Type} := { bi_id : U; bi_success : bool; bi_error : option string }.
#[global] Arguments SubjectRef : clear implicits.
#[global] Arguments BulkOutcome : clear implicits.
#[global] Arguments BulkIdsOutcome : clear implicits.
(** The outcomes, how many succeeded and how many failed. *)
Record BulkResponse {O : Type} := { br_outcomes : list O; br_success_count : nat; br_error_count : nat }.
#[global] Arguments BulkResponse : clear implicits.

(** ** Path parameters *)

Definition ROLE_INLINE_MSG : string := "Role limits are inline on the role; use the role endpoint".
Definition reject_role_kind (kind : string) : result AppError unit :=
  if bool_decide (kind = "role") then Err (BadRequest ROLE_INLINE_MSG) else Ok tt.

Definition parse_rate_subject (kind : string) : result AppError RateLimitSubject.t :=
  _ ← reject_role_kind kind;
  if bool_decide (kind = "user") then Ok RateLimitSubject.User
  else if bool_decide (kind = "api_key") then Ok RateLimitSubject.ApiKeyLineage
  else Err (BadRequest ("Unknown rate-limit subject kind '" +:+ kind +:+ "' (allowed: user, api_key)")).
Definition parse_budget_subject (kind : string) : result AppError BudgetSubject.t :=
  _ ← reject_role_kind kind;
  if bool_decide (kind = "user") then Ok BudgetSubject.User
  else if bool_decide (kind = "api_key") then Ok BudgetSubject.ApiKeyLineage
  else Err (BadRequest ("Unknown budget subject kind '" +:+ kind +:+ "' (allowed: user, api_key)")).

Definition budget_kind_for (subject : RateLimitSubject.t) : option BudgetSubject.t :=
  match subject with
  | RateLimitSubject.User => Some BudgetSubject.User
  | RateLimitSubject.ApiKeyLineage => Some BudgetSubject.ApiKeyLineage
  end.

(** ** Override metadata *)

Definition MAX_OVERRIDE_HORIZON_DAYS : Z := 90.
Definition MAX_REASON_LEN : nat := 500.

(** [len] counts bytes. *)
Definition validate_override_meta (now : Z) (expires_at : option Z) (reason : option string)
    : result AppError (option Z * option string) :=
  _ ← match expires_at with
      | Some t =>
          if t <=? now then Err (BadRequest "expires_at must be in the future")
          else if MAX_OVERRIDE_HORIZON_DAYS * day_ms <? t - now
          then Err (BadRequest ("expires_at must be within " +:+ pretty MAX_OVERRIDE_HORIZON_DAYS
                 +:+ " days — edit the role for a permanent change"))
          else Ok tt
      | None => Ok tt
      end;
  let trimmed := s ← reason; let s := trim s in if bool_decide (s = "") then None else Some s in
  match trimmed with
  | Some r => if (MAX_REASON_LEN <? String.length r)%nat
              then Err (BadRequest ("reason must be at most " +:+ pretty (Z.of_nat MAX_REASON_LEN) +:+ " characters"))
              else Ok (expires_at, trimmed)
  | None => Ok (expires_at, trimmed)
  end.

(** ** Errors *)

(** [sqlx::Error]: the engine's refusals travel as [Protocol]; the database cannot be reached. *)
Inductive sqlx_error := Protocol (msg : string) | Unreachable.
Definition of_sqlx (e : sqlx_error) : AppError :=
  match e with Protocol _ => db_error | Unreachable => db_unavailable end.
Definition map_validation_error (e : sqlx_error) : AppError :=
  match e with Protocol msg => BadRequest msg | _ => of_sqlx e end.
(** [unreachable] is [sqlx]'s own text. *)
Definition db_error_message (unreachable : string) (e : sqlx_error) : string :=
  match e with Protocol msg => msg | Unreachable => unreachable end.

(** [{e}] of an [AppError]. *)
Definition app_error_text (e : AppError) : string :=
  match e with
  | Unauthorized => "Authentication required"
  | TotpEnrollmentRequired => "Two-factor authentication must be set up before continuing"
  | RateLimited => "Rate limit exceeded"
  | Forbidden m | NotFound m | BadRequest m | Conflict m | ModelNotServed m => m
  | ServiceUnavailable m => "Service unavailable: " +:+ m
  | Internal m => "Internal error: " +:+ m
  end.

(** ** The world *)

(** [lw_published] is what was published to the other pods: channel and message. *)
Record limit_world {U V St : Type} := {
  lw_core : key_world U V St;
  lw_published : list (string * string);
}.
#[global] Arguments limit_world : clear implicits.

Definition LIMITS_CHANGED_CHANNEL : string := "limits:changed".

Section Handlers.
Context {U V St : Type} `{Uuid U, EqDecision U, EqDecision V, JsonValue V, Redis St, RedisKV St, Calendar}.
Context (net : nat -> link) (clock : nat -> Z) (fresh : nat -> U).
Context (json_time : Z -> string) (unreachable : string).
Abbreviation W := (limit_world U V St).
Implicit Types (auth_user : AuthUser U) (d : key_db U V) (T : limit_tables U).

Definition on_core {E A} (p : io (key_world U V St) E A) : io W E A := fun w =>
  let '(c, r) := p (lw_core w) in ({| lw_core := c; lw_published := lw_published w |}, r).

Definition set_limits T d : key_db U V :=
  {| kd_keys := kd_keys d; kd_users := kd_users d; kd_rbac := kd_rbac d; kd_limits := T;
     kd_credentials := kd_credentials d |}.
(** What the scope checks read. *)
Definition console_of d : console_tables U V :=
  {| ct_rbac := kd_rbac d; ct_api_keys := (fun k => (ak_id k, ak_lineage_id k, ak_user_id k)) <$> kd_keys d |}.

(** A statement on the limit tables: the [n]-th call. *)
Definition on_limits {A} (q : nat -> limit_tables U -> limit_tables U * result sqlx_error A) : io W sqlx_error A :=
  on_core (fun w =>
    let n := kw_calls w in
    let next T := {| kw_calls := S n; kw_db := set_limits T (kw_db w); kw_redis := kw_redis w; kw_audit := kw_audit w |} in
    let '(T, r) := q n (kd_limits (kw_db w)) in
    match net n with
    | LinkOk => (next T, r)
    | LinkDown => (next (kd_limits (kw_db w)), Err Unreachable)
    | ReplyLost => (next T, Err Unreachable)
    end).
Definition map_error {E E' A} (f : E -> E') (p : io W E A) : io W E' A := fun w =>
  let '(w, r) := p w in (w, match r with Ok a => Ok a | Err e => Err (f e) end).
(** The step's result as a value. *)
Definition observe {E E' A} (p : io W E A) : io W E' (result E A) := fun w =>
  let '(w, r) := p w in (w, Ok r).
Definition log_row (e : AuditEntry) : io W AppError unit := on_core (key_log e).
Definition limits_now : io W AppError Z := on_core (key_now clock).

(** [notify_limits_changed]. *)
Definition notify_limits_changed : io W AppError unit := fun w =>
  let c := lw_core w in
  ({| lw_core := {| kw_calls := S (kw_calls c); kw_db := kw_db c; kw_redis := kw_redis c; kw_audit := kw_audit c |};
      lw_published := match net (kw_calls c) with
                      | LinkDown => lw_published w
                      | _ => lw_published w ++ [(LIMITS_CHANGED_CHANNEL, "reload")]
                      end |}, Ok tt).

(** Two lookups at most. *)
Definition scope_for_subject auth_user (perm kind : string) (subject_id : U) : io W AppError unit := on_core (fun w =>
  let n := kw_calls w in
  ({| kw_calls := S (S n); kw_db := kw_db w; kw_redis := kw_redis w; kw_audit := kw_audit w |},
   assert_scope_for_subject auth_user (net n) (net (S n)) (console_of (kw_db w)) perm kind subject_id)).

Definition resolve_subject_id (kind : string) (id : U) : io W AppError U :=
  if negb (bool_decide (kind = "api_key")) then mret id
  else
    lineage_id ← on_core (select net clock (fun d => Ok (ak_lineage_id <$> head (filter (fun k => ak_id k = id) (kd_keys d)))));
    lift (ok_or lineage_id (NotFound ("api_key " +:+ uuid_str id +:+ " not found"))).

(** What the engine refuses before it asks the database. *)
Definition protocol {A} (r : result string A) : result sqlx_error A :=
  match r with Ok a => Ok a | Err m => Err (Protocol m) end.
Definition engine_upsert_rule (req : UpsertRule U) : io W sqlx_error (RateLimitRule U) := fun w =>
  if rule_accepted req
  then on_limits (fun n T => let '(T, r) := LimitStore.upsert_rule T (fresh n) req in (T, protocol r)) w
  else (w, protocol (LimitStore.upsert_rule (kd_limits (kw_db (lw_core w))) (fresh 0) req).2).
Definition engine_upsert_cap (req : UpsertCap U) : io W sqlx_error (BudgetCap U) := fun w =>
  if cap_accepted req
  then on_limits (fun n T => let '(T, r) := LimitStore.upsert_cap T (fresh n) req in (T, protocol r)) w
  else (w, protocol (LimitStore.upsert_cap (kd_limits (kw_db (lw_core w))) (fresh 0) req).2).

Definition jopt {A} (f : A -> jval) (o : option A) : jval := match o with Some a => f a | None => AuditRow.JNull end.
Definition jwhen (t : option Z) : jval := jopt (fun t => AuditRow.JStr (json_time t)) t.
Definition limit_row auth_user (action resource : string) (row : U) : AuditEntry :=
  with_resource_id (uuid_str row) (with_resource resource LogAudit (AuthUser_audit auth_user action)).

(** ** One subject *)

Definition list_rules auth_user (kind : string) (subject_id : U) : io W AppError (list (RuleRow U)) :=
  _ ← lift (require_permission auth_user "rate_limits:read");
  _ ← scope_for_subject auth_user "rate_limits:read" kind subject_id;
  subject_kind ← lift (parse_rate_subject kind);
  storage_id ← resolve_subject_id kind subject_id;
  rules ← map_error of_sqlx (on_limits (fun _ T => (T, Ok (LimitStore.list_rules T subject_kind storage_id))));
  mret (RuleRow_from <$> rules).

Definition upsert_rule auth_user (kind : string) (subject_id : U) (req : UpsertRuleRequest) : io W AppError (RuleRow U) :=
  _ ← lift (require_permission auth_user "rate_limits:write");
  _ ← scope_for_subject auth_user "rate_limits:write" kind subject_id;
  subject_kind ← lift (parse_rate_subject kind);
  storage_id ← resolve_subject_id kind subject_id;
  surface ← lift (ok_or (Surface.parse (rq_surface req))
    (BadRequest ("Unknown surface '" +:+ rq_surface req +:+ "' (allowed: ai_gateway, mcp_gateway)")));
  metric ← lift (ok_or (RateMetric.parse (rq_metric req))
    (BadRequest ("Unknown metric '" +:+ rq_metric req +:+ "' (allowed: requests, tokens)")));
  now ← limits_now;
  meta ← lift (validate_override_meta now (rq_expires_at req) (rq_reason req));
  row ← map_error map_validation_error (engine_upsert_rule
    {| ur_subject_kind := subject_kind; ur_subject_id := storage_id; ur_surface := surface; ur_metric := metric;
       ur_window_secs := rq_window_secs req; ur_max_count := rq_max_count req; ur_enabled := rq_enabled req;
       ur_expires_at := meta.1; ur_reason := meta.2; ur_created_by := Some (cl_sub (au_claims auth_user)) |});
  _ ← notify_limits_changed;
  _ ← log_row (with_detail (AuditRow.JObj
        [("subject_kind", AuditRow.JStr kind); ("subject_id", AuditRow.JStr (uuid_str subject_id));
         ("surface", AuditRow.JStr (rq_surface req)); ("metric", AuditRow.JStr (rq_metric req));
         ("window_secs", AuditRow.JNum (rq_window_secs req)); ("max_count", AuditRow.JNum (rq_max_count req));
         ("enabled", AuditRow.JBool (rq_enabled req)); ("expires_at", jwhen meta.1);
         ("reason", jopt AuditRow.JStr meta.2)])
        (limit_row auth_user "rate_limit.upsert" "rate_limit_rule" (rr_id row)));
  mret (RuleRow_from row).

Definition delete_rule auth_user (kind : string) (subject_id rule_id : U) : io W AppError unit :=
  _ ← lift (require_permission auth_user "rate_limits:write");
  _ ← scope_for_subject auth_user "rate_limits:write" kind subject_id;
  subject_kind ← lift (parse_rate_subject kind);
  storage_id ← resolve_subject_id kind subject_id;
  removed ← map_error of_sqlx (on_limits (fun _ T =>
    let '(T, hit) := LimitStore.delete_rule T rule_id subject_kind storage_id in (T, Ok hit)));
  if negb removed then throw (NotFound "Rate limit rule not found")
  else
    _ ← notify_limits_changed;
    log_row (limit_row auth_user "rate_limit.delete" "rate_limit_rule" rule_id).

Definition list_caps auth_user (kind : string) (subject_id : U) : io W AppError (list (CapRow U)) :=
  _ ← lift (require_permission auth_user "rate_limits:read");
  _ ← scope_for_subject auth_user "rate_limits:read" kind subject_id;
  subject_kind ← lift (parse_budget_subject kind);
  storage_id ← resolve_subject_id kind subject_id;
  caps ← map_error of_sqlx (on_limits (fun _ T => (T, Ok (LimitStore.list_caps T subject_kind storage_id))));
  mret (CapRow_from <$> caps).

Definition upsert_cap auth_user (kind : string) (subject_id : U) (req : UpsertCapRequest) : io W AppError (CapRow U) :=
  _ ← lift (require_permission auth_user "rate_limits:write");
  _ ← scope_for_subject auth_user "rate_limits:write" kind subject_id;
  subject_kind ← lift (parse_budget_subject kind);
  storage_id ← resolve_subject_id kind subject_id;
  period ← lift (ok_or (BudgetPeriod.parse (cq_period req))
    (BadRequest ("Unknown period '" +:+ cq_period req +:+ "' (allowed: daily, weekly, monthly)")));
  now ← limits_now;
  meta ← lift (validate_override_meta now (cq_expires_at req) (cq_reason req));
  row ← map_error map_validation_error (engine_upsert_cap
    {| uc_subject_kind := subject_kind; uc_subject_id := storage_id; uc_period := period;
       uc_limit_tokens := cq_limit_tokens req; uc_enabled := cq_enabled req;
       uc_expires_at := meta.1; uc_reason := meta.2; uc_created_by := Some (cl_sub (au_claims auth_user)) |});
  _ ← notify_limits_changed;
  _ ← log_row (with_detail (AuditRow.JObj
        [("subject_kind", AuditRow.JStr kind); ("subject_id", AuditRow.JStr (uuid_str subject_id));
         ("period", AuditRow.JStr (cq_period req)); ("limit_tokens", AuditRow.JNum (cq_limit_tokens req));
         ("enabled", AuditRow.JBool (cq_enabled req)); ("expires_at", jwhen meta.1);
         ("reason", jopt AuditRow.JStr meta.2)])
        (limit_row auth_user "budget_cap.upsert" "budget_cap" (bc_id row)));
  mret (CapRow_from row).

Definition delete_cap auth_user (kind : string) (subject_id cap_id : U) : io W AppError unit :=
  _ ← lift (require_permission auth_user "rate_limits:write");
  _ ← scope_for_subject auth_user "rate_limits:write" kind subject_id;
  subject_kind ← lift (parse_budget_subject kind);
  storage_id ← resolve_subject_id kind subject_id;
  removed ← map_error of_sqlx (on_limits (fun _ T =>
    let '(T, hit) := LimitStore.delete_cap T cap_id subject_kind storage_id in (T, Ok hit)));
  if negb removed then throw (NotFound "Budget cap not found")
  else
    _ ← notify_limits_changed;
    log_row (limit_row auth_user "budget_cap.delete" "budget_cap" cap_id).

(** ** Use so far *)

(** [sliding::current_count]: 0 when Redis does not answer. *)
Definition current_count (r : ResolvedRule (U := U)) : io W AppError Z := on_core (fun w =>
  let n := kw_calls w in
  ({| kw_calls := S n; kw_db := kw_db w; kw_redis := kw_redis w; kw_audit := kw_audit w |},
   Ok (match net n with
       | LinkOk => default 0 (read_count (rsv_key r) (rsv_bucket_secs r) (clock n / 1000) (kw_redis w))
       | _ => 0
       end))).

Fixpoint rules_usage (owner : option U) (rules : list (RateLimitRule U)) : io W AppError (list (RuleUsage U)) :=
  match rules with
  | [] => mret []
  | r :: rules =>
      current ← match owner with Some owner => current_count (ResolvedRule_new r owner) | None => mret 0 end;
      rest ← rules_usage owner rules;
      mret ({| rus_rule_id := rr_id r; rus_current := current; rus_limit := rr_max_count r |} :: rest)
  end.

(** [budget::current_spend], of which an error reads as no caps. *)
Definition caps_usage (caps : list (BudgetCap U)) : io W AppError (list (CapUsage U)) := on_core (fun w =>
  let n := kw_calls w in
  let statuses := match read_spend (fun i => net (n + i)%nat) caps (clock n * 1000000) (kw_redis w) with
                  | Ok statuses => statuses | Err _ => [] end in
  ({| kw_calls := (n + length caps)%nat; kw_db := kw_db w; kw_redis := kw_redis w; kw_audit := kw_audit w |},
   Ok ((fun s => {| cus_cap_id := cs_cap_id s; cus_current := cs_current s; cus_limit := cs_limit s |}) <$> statuses))).

Definition get_usage auth_user (kind : string) (subject_id : U) : io W AppError (list (RuleUsage U) * list (CapUsage U)) :=
  _ ← lift (require_permission auth_user "rate_limits:read");
  _ ← scope_for_subject auth_user "rate_limits:read" kind subject_id;
  rate_subject ← lift (parse_rate_subject kind);
  storage_id ← resolve_subject_id kind subject_id;
  rules ← map_error of_sqlx (on_limits (fun _ T => (T, Ok (LimitStore.list_rules T rate_subject storage_id))));
  owner ← match rate_subject with
          | RateLimitSubject.User => mret (Some subject_id)
          | RateLimitSubject.ApiKeyLineage =>
              on_core (select net clock (fun d => Ok (head (filter (fun k => ak_id k = subject_id) (kd_keys d)) ≫= ak_user_id)))
          end;
  rule_usage ← rules_usage owner rules;
  cap_usage ← match budget_kind_for rate_subject with
              | Some budget_kind =>
                  caps ← map_error of_sqlx (on_limits (fun _ T => (T, Ok (LimitStore.list_caps T budget_kind storage_id))));
                  caps_usage caps
              | None => mret []
              end;
  mret (rule_usage, cap_usage).

(** ** Many subjects *)

Record bulk_counts {O : Type} := { bk_outcomes : list O; bk_success : nat; bk_errors : nat }.
#[global] Arguments bulk_counts : clear implicits.
Definition bulk_push {O} (ok : bool) (o : O) (b : bulk_counts O) : bulk_counts O :=
  {| bk_outcomes := bk_outcomes b ++ [o]; bk_success := if ok then S (bk_success b) else bk_success b;
     bk_errors := if ok then bk_errors b else S (bk_errors b) |}.
Definition bulk_start {O} : bulk_counts O := {| bk_outcomes := []; bk_success := 0; bk_errors := 0 |}.
Definition bulk_done {O} (b : bulk_counts O) : io W AppError (BulkResponse O) :=
  _ ← (if (0 <? bk_success b)%nat then notify_limits_changed else mret tt);
  mret {| br_outcomes := bk_outcomes b; br_success_count := bk_success b; br_error_count := bk_errors b |}.

(** One turn of the loop over targets: [parse] is the kind's, [put] the engine's upsert giving
    the row's id, [audit] the row written. *)
Definition bulk_target {K} (parse : string -> option K) (put : K -> U -> io W sqlx_error U)
    (audit : SubjectRef U -> U -> AuditEntry) auth_user (target : SubjectRef U) (b : bulk_counts (BulkOutcome U))
    : io W AppError (bulk_counts (BulkOutcome U)) :=
  let failed text := bulk_push false {| bo_subject_kind := sr_kind target; bo_subject_id := sr_id target;
                                        bo_row_id := None; bo_error := Some text |} b in
  match parse (sr_kind target) with
  | None => mret (failed ("Unknown subject kind '" +:+ sr_kind target +:+ "'"))
  | Some kind =>
      scope ← observe (scope_for_subject auth_user "rate_limits:write" (sr_kind target) (sr_id target));
      match scope with
      | Err e => mret (failed (app_error_text e))
      | Ok _ =>
          r ← observe (put kind (sr_id target));
          match r with
          | Ok row =>
              _ ← log_row (audit target row);
              mret (bulk_push true {| bo_subject_kind := sr_kind target; bo_subject_id := sr_id target;
                                      bo_row_id := Some row; bo_error := None |} b)
          | Err e => mret (failed (db_error_message unreachable e))
          end
      end
  end.
Fixpoint bulk_targets {K} (parse : string -> option K) (put : K -> U -> io W sqlx_error U)
    (audit : SubjectRef U -> U -> AuditEntry) auth_user (targets : list (SubjectRef U)) (b : bulk_counts (BulkOutcome U))
    : io W AppError (bulk_counts (BulkOutcome U)) :=
  match targets with
  | [] => mret b
  | target :: targets =>
      b ← bulk_target parse put audit auth_user target b;
      bulk_targets parse put audit auth_user targets b
  end.

Definition check_targets (targets : list (SubjectRef U)) : result AppError unit :=
  if bool_decide (targets = []) then Err (BadRequest "targets cannot be empty")
  else if (500 <? length targets)%nat then Err (BadRequest "targets capped at 500 per request")
  else Ok tt.

Definition bulk_apply_rule auth_user (targets : list (SubjectRef U)) (req : UpsertRuleRequest)
    : io W AppError (BulkResponse (BulkOutcome U)) :=
  _ ← lift (require_permission auth_user "rate_limits:write");
  _ ← lift (check_targets targets);
  surface ← lift (ok_or (Surface.parse (rq_surface req)) (BadRequest ("Unknown surface '" +:+ rq_surface req +:+ "'")));
  metric ← lift (ok_or (RateMetric.parse (rq_metric req)) (BadRequest ("Unknown metric '" +:+ rq_metric req +:+ "'")));
  now ← limits_now;
  meta ← lift (validate_override_meta now (rq_expires_at req) (rq_reason req));
  b ← bulk_targets RateLimitSubject.parse
        (fun kind id => row ← engine_upsert_rule
           {| ur_subject_kind := kind; ur_subject_id := id; ur_surface := surface; ur_metric := metric;
              ur_window_secs := rq_window_secs req; ur_max_count := rq_max_count req; ur_enabled := rq_enabled req;
              ur_expires_at := meta.1; ur_reason := meta.2; ur_created_by := Some (cl_sub (au_claims auth_user)) |};
           mret (rr_id row))
        (fun target row => with_detail (AuditRow.JObj
           [("subject_kind", AuditRow.JStr (sr_kind target)); ("subject_id", AuditRow.JStr (uuid_str (sr_id target)));
            ("surface", AuditRow.JStr (rq_surface req)); ("metric", AuditRow.JStr (rq_metric req));
            ("window_secs", AuditRow.JNum (rq_window_secs req)); ("max_count", AuditRow.JNum (rq_max_count req));
            ("expires_at", jwhen meta.1); ("reason", jopt AuditRow.JStr meta.2)])
           (limit_row auth_user "rate_limit.bulk_upsert" "rate_limit_rule" row))
        auth_user targets bulk_start;
  bulk_done b.

Definition bulk_apply_cap auth_user (targets : list (SubjectRef U)) (req : UpsertCapRequest)
    : io W AppError (BulkResponse (BulkOutcome U)) :=
  _ ← lift (require_permission auth_user "rate_limits:write");
  _ ← lift (check_targets targets);
  period ← lift (ok_or (BudgetPeriod.parse (cq_period req)) (BadRequest ("Unknown period '" +:+ cq_period req +:+ "'")));
  now ← limits_now;
  meta ← lift (validate_override_meta now (cq_expires_at req) (cq_reason req));
  b ← bulk_targets BudgetSubject.parse
        (fun kind id => row ← engine_upsert_cap
           {| uc_subject_kind := kind; uc_subject_id := id; uc_period := period;
              uc_limit_tokens := cq_limit_tokens req; uc_enabled := cq_enabled req;
              uc_expires_at := meta.1; uc_reason := meta.2; uc_created_by := Some (cl_sub (au_claims auth_user)) |};
           mret (bc_id row))
        (fun target row => with_detail (AuditRow.JObj
           [("subject_kind", AuditRow.JStr (sr_kind target)); ("subject_id", AuditRow.JStr (uuid_str (sr_id target)));
            ("period", AuditRow.JStr (cq_period req)); ("limit_tokens", AuditRow.JNum (cq_limit_tokens req));
            ("expires_at", jwhen meta.1); ("reason", jopt AuditRow.JStr meta.2)])
           (limit_row auth_user "budget_cap.bulk_upsert" "budget_cap" row))
        auth_user targets bulk_start;
  bulk_done b.

(** ** Many rows *)

Inductive limit_table := RateLimitRules | BudgetCaps.
Inductive BulkIdOp := BulkDisable | BulkDelete.

(** The statements of [limits_repository.rs], on the table they are given: the subject of a row,
    a row turned off, a row deleted, with how many there were. *)
Definition off_rule (r : rule_row U) : rule_row U :=
  {| rw_id := rw_id r; rw_subject_kind := rw_subject_kind r; rw_subject_id := rw_subject_id r;
     rw_surface := rw_surface r; rw_metric := rw_metric r; rw_window_secs := rw_window_secs r;
     rw_max_count := rw_max_count r; rw_enabled := false; rw_expires_at := rw_expires_at r;
     rw_reason := rw_reason r; rw_created_by := rw_created_by r |}.
Definition off_cap (c : cap_row U) : cap_row U :=
  {| cw_id := cw_id c; cw_subject_kind := cw_subject_kind c; cw_subject_id := cw_subject_id c;
     cw_period := cw_period c; cw_limit_tokens := cw_limit_tokens c; cw_enabled := false;
     cw_expires_at := cw_expires_at c; cw_reason := cw_reason c; cw_created_by := cw_created_by c |}.

Definition row_subject (table : limit_table) (id : U) T : option (string * U) :=
  match table with
  | RateLimitRules => (fun r => (rw_subject_kind r, rw_subject_id r)) <$> head (filter (fun r => rw_id r = id) (lt_rules T))
  | BudgetCaps => (fun c => (cw_subject_kind c, cw_subject_id c)) <$> head (filter (fun c => cw_id c = id) (lt_caps T))
  end.
Definition row_off (table : limit_table) (id : U) T : limit_tables U * nat :=
  match table with
  | RateLimitRules =>
      let '(rules, changed) := update_where (fun r => bool_decide (rw_id r = id)) off_rule (lt_rules T) in
      ({| lt_rules := rules; lt_caps := lt_caps T |}, length changed)
  | BudgetCaps =>
      let '(caps, changed) := update_where (fun c => bool_decide (cw_id c = id)) off_cap (lt_caps T) in
      ({| lt_rules := lt_rules T; lt_caps := caps |}, length changed)
  end.
Definition row_deleted (table : limit_table) (id : U) T : limit_tables U * nat :=
  match table with
  | RateLimitRules =>
      ({| lt_rules := filter (fun r => rw_id r <> id) (lt_rules T); lt_caps := lt_caps T |},
       length (filter (fun r => rw_id r = id) (lt_rules T)))
  | BudgetCaps =>
      ({| lt_rules := lt_rules T; lt_caps := filter (fun c => cw_id c <> id) (lt_caps T) |},
       length (filter (fun c => cw_id c = id) (lt_caps T)))
  end.
Definition subject_of (table : limit_table) (id : U) : io W sqlx_error (option (string * U)) :=
  on_limits (fun _ T => (T, Ok (row_subject table id T))).
Definition disable (table : limit_table) (id : U) : io W sqlx_error nat :=
  on_limits (fun _ T => let '(T, changed) := row_off table id T in (T, Ok changed)).
Definition delete (table : limit_table) (id : U) : io W sqlx_error nat :=
  on_limits (fun _ T => let '(T, deleted) := row_deleted table id T in (T, Ok deleted)).

(** One turn of the loop over ids. *)
Definition bulk_id auth_user (table : limit_table) (op : BulkIdOp) (audit : U -> AuditEntry) (id : U)
    (b : bulk_counts (BulkIdsOutcome U)) : io W AppError (bulk_counts (BulkIdsOutcome U)) :=
  let failed text := bulk_push false {| bi_id := id; bi_success := false; bi_error := Some text |} b in
  subject ← observe (subject_of table id);
  match subject with
  | Err e => mret (failed (db_error_message unreachable e))
  | Ok None => mret (failed "not found")
  | Ok (Some (subject_kind, subject_id)) =>
      scope ← observe (scope_for_subject auth_user "rate_limits:write" subject_kind subject_id);
      match scope with
      | Err e => mret (failed ("forbidden: " +:+ app_error_text e))
      | Ok _ =>
          r ← observe (match op with BulkDisable => disable table id | BulkDelete => delete table id end);
          match r with
          | Err e => mret (failed (db_error_message unreachable e))
          | Ok rows =>
              if (0 <? rows)%nat
              then _ ← log_row (audit id);
                   mret (bulk_push true {| bi_id := id; bi_success := true; bi_error := None |} b)
              else mret (failed "not found")
          end
      end
  end.
Fixpoint bulk_ids auth_user (table : limit_table) (op : BulkIdOp) (audit : U -> AuditEntry) (ids : list U)
    (b : bulk_counts (BulkIdsOutcome U)) : io W AppError (bulk_counts (BulkIdsOutcome U)) :=
  match ids with
  | [] => mret b
  | id :: ids => b ← bulk_id auth_user table op audit id b; bulk_ids auth_user table op audit ids b
  end.

Definition run_bulk_id_op auth_user (ids : list U) (table : limit_table) (op : BulkIdOp) (audit : U -> AuditEntry)
    : io W AppError (BulkResponse (BulkIdsOutcome U)) :=
  if bool_decide (ids = []) then throw (BadRequest "ids cannot be empty")
  else if (500 <? length ids)%nat then throw (BadRequest "ids capped at 500 per request")
  else b ← bulk_ids auth_user table op audit ids bulk_start; bulk_done b.

Definition bulk_disable_rules auth_user (ids : list U) : io W AppError (BulkResponse (BulkIdsOutcome U)) :=
  _ ← lift (require_permission auth_user "rate_limits:write");
  run_bulk_id_op auth_user ids RateLimitRules BulkDisable (limit_row auth_user "rate_limit.bulk_disable" "rate_limit_rule").
Definition bulk_delete_rules auth_user (ids : list U) : io W AppError (BulkResponse (BulkIdsOutcome U)) :=
  _ ← lift (require_permission auth_user "rate_limits:write");
  run_bulk_id_op auth_user ids RateLimitRules BulkDelete (limit_row auth_user "rate_limit.bulk_delete" "rate_limit_rule").
Definition bulk_disable_caps auth_user (ids : list U) : io W AppError (BulkResponse (BulkIdsOutcome U)) :=
  _ ← lift (require_permission auth_user "rate_limits:write");
  run_bulk_id_op auth_user ids BudgetCaps BulkDisable (limit_row auth_user "budget_cap.bulk_disable" "budget_cap").
Definition bulk_delete_caps auth_user (ids : list U) : io W AppError (BulkResponse (BulkIdsOutcome U)) :=
  _ ← lift (require_permission auth_user "rate_limits:write");
  run_bulk_id_op auth_user ids BudgetCaps BulkDelete (limit_row auth_user "budget_cap.bulk_delete" "budget_cap").
End Handlers.

(** ** Kinds and their names *)

Lemma rate_subject_named s k : RateLimitSubject.parse s = Some k -> RateLimitSubject.as_str k = s.
Proof. unfold RateLimitSubject.parse. repeat case_decide; try done; by intros [= <-]. Qed.
Lemma budget_subject_named s k : BudgetSubject.parse s = Some k -> BudgetSubject.as_str k = s.
Proof. unfold BudgetSubject.parse. repeat case_decide; try done; by intros [= <-]. Qed.
