(* ===== verification/LimitAccess.v ===== *)
(** * What the limit handlers may write

    Theorems about [LimitHandlers]: whichever call a user makes, the rows it changes are of
    subjects in the user's reach, and the rows it makes keep within the bounds of an override. *)

From Stdlib Require Import Ascii.
From S2P Require Import Prelude Interfaces LimitTypes LimitStore Policy Constraints GatewayDeps Text Glob Sliding Budget Effects AuditRow ExpiringKeys Validation Lockout Login Sessions Rbac Scope ApiKeys LimitHandlers.

(** ** Rows a step wrote *)

Section Rows.
Context {R : Type} (reach : R -> Prop) (off : R -> R).
Context (off_off : forall r, off (off r) = off r) (reach_off : forall r, reach (off r) <-> reach r).

(** Rows are lost or changed only in reach; a row that was not there is one [made], or an old one
    turned off. *)
Definition rows_written (made : R -> Prop) (rows rows' : list R) : Prop :=
  (forall r, r ∈ rows -> r ∈ rows' \/ reach r) /\
  forall r, r ∈ rows' -> r ∈ rows \/ reach r /\ (made r \/ exists r0, r0 ∈ rows /\ r = off r0).

Lemma rows_written_same made rows : rows_written made rows rows.
Proof. split; auto. Qed.

Lemma rows_written_trans (made made' : R -> Prop) a b c : (forall r, made r -> made' r) -> (forall r, made' r -> made' (off r)) ->
  rows_written made a b -> rows_written made' b c -> rows_written made' a c.
Proof.
  intros Hm Hoff [Hab Hba] [Hbc Hcb]. split.
  - intros r Hr. destruct (Hab r Hr) as [Hr'|?]; [|by right]. apply Hbc, Hr'.
  - intros r Hr. destruct (Hcb r Hr) as [Hr'|[Hreach [Hmade|(r0 & Hr0 & ->)]]].
    + destruct (Hba r Hr') as [?|[? [?|?]]]; [by left|right; auto..].
    + right. auto.
    + right. split; [done|]. destruct (Hba r0 Hr0) as [?|[? [?|(r1 & ? & ->)]]]; [right; by exists r0|left; auto|].
      right. exists r1. by rewrite off_off.
Qed.

Lemma rows_written_filter made (P : R -> Prop) `{!forall r, Decision (P r)} rows :
  (forall r, r ∈ rows -> ~ P r -> reach r) -> rows_written made rows (filter P rows).
Proof.
  intros HP. split.
  - intros r Hr. destruct (decide (P r)); [left; by apply list_elem_of_filter|right; auto].
  - intros r [_ ?]%list_elem_of_filter. by left.
Qed.

Lemma rows_written_off made (P : R -> bool) rows :
  (forall r, r ∈ rows -> P r = true -> reach r) -> rows_written made rows (update_where P off rows).1.
Proof.
  intros HP. split; simpl.
  - intros r Hr. destruct (P r) eqn:E; [right; auto|]. left. apply list_elem_of_fmap. exists r. by rewrite E.
  - intros r (r0 & -> & Hr0)%list_elem_of_fmap. destruct (P r0) eqn:E; [|by left].
    right. split; [apply reach_off; auto|]. right. by exists r0.
Qed.

Lemma rows_written_upsert {K} `{EqDecision K} (key : R -> K) made new change rows :
  (forall r, key r = key new -> reach r /\ reach (change r) /\ made (change r)) -> made new ->
  rows_written made rows (upsert_row key new change rows).
Proof.
  intros Hk Hnew. assert (reach new) by by apply (Hk new). unfold upsert_row. case_decide; split.
  - intros r Hr. destruct (decide (key r = key new)); [right; by apply Hk|]. left. apply list_elem_of_fmap.
    exists r. by rewrite decide_False.
  - intros r (r0 & -> & Hr0)%list_elem_of_fmap. case_decide; [|by left]. right. split; [|left]; by apply Hk.
  - intros r Hr. left. apply elem_of_app. auto.
  - intros r [?| ->%list_elem_of_singleton]%elem_of_app; auto.
Qed.
End Rows.

Section Access.
Context {U V St : Type} `{Uuid U, EqDecision U, EqDecision V, JsonValue V, Redis St, RedisKV St, Calendar}.
Context (net : nat -> link) (clock : nat -> Z) (fresh : nat -> U) (json_time : Z -> string) (unreachable : string).
Abbreviation W := (limit_world U V St).
Abbreviation sub a := (cl_sub (au_claims a)).
Abbreviation db w := (kw_db (lw_core w)).
Abbreviation calls w := (kw_calls (lw_core w)).
Implicit Types (d : key_db U V) (w : W).

(** ** The reach of a caller *)

(** The user a stored subject is, or whose key it is. *)
Definition subject_user d (kind : string) (id user : U) : Prop :=
  kind = "user" /\ id = user \/
  kind = "api_key" /\ (exists k, k ∈ kd_keys d /\ ak_id k = id /\ ak_user_id k = Some user) \/
  kind = "api_key_lineage" /\ (exists k, k ∈ kd_keys d /\ ak_lineage_id k = id /\ ak_user_id k = Some user).

(** The caller has the permission, and holds it everywhere, or for a team of the other user
    the subject belongs to. *)
Definition in_reach (a : AuthUser U) d (kind : string) (id : U) : Prop :=
  "rate_limits:write" ∈ au_permissions a /\ "rate_limits:write" ∉ au_denied_permissions a /\
  (holds_globally (kd_rbac d) (sub a) "rate_limits:write" \/
   exists user, subject_user d kind id user /\ user <> sub a /\ holds_for_user (kd_rbac d) (sub a) "rate_limits:write" user).

Section Caller.
Context (a : AuthUser U) (n0 : nat) (d0 : key_db U V).

(** An override is made by the caller, within bounds at a time of the call. *)
Definition override_bounds (n : nat) (expires_at : option Z) (reason : option string) (created_by : option U) : Prop :=
  created_by = Some (sub a) /\
  (forall e, expires_at = Some e -> exists m, (n0 <= m <= n)%nat /\ clock m < e <= clock m + 90 * day_ms) /\
  (forall s, reason = Some s -> s <> "" /\ (String.length s <= 500)%nat).
Definition made_rule (n : nat) (r : rule_row U) : Prop :=
  is_allowed_window (rw_window_secs r) = true /\ 0 < rw_max_count r /\
  override_bounds n (rw_expires_at r) (rw_reason r) (rw_created_by r).
Definition made_cap (n : nat) (c : cap_row U) : Prop :=
  0 < cw_limit_tokens c /\ override_bounds n (cw_expires_at c) (cw_reason c) (cw_created_by c).

Definition rule_reach (r : rule_row U) : Prop := in_reach a d0 (rw_subject_kind r) (rw_subject_id r).
Definition cap_reach (c : cap_row U) : Prop := in_reach a d0 (cw_subject_kind c) (cw_subject_id c).
Definition tables_written (n : nat) (T T' : limit_tables U) : Prop :=
  rows_written rule_reach off_rule (made_rule n) (lt_rules T) (lt_rules T') /\
  rows_written cap_reach off_cap (made_cap n) (lt_caps T) (lt_caps T').

Lemma override_bounds_mono n n' e r c : (n <= n')%nat -> override_bounds n e r c -> override_bounds n' e r c.
Proof. intros Hn (? & He & ?). split_and!; [done| |done]. intros e' Hee. destruct (He e' Hee) as (m & ? & ?). exists m. split; [lia|done]. Qed.

Lemma tables_written_same n T : tables_written n T T.
Proof. split; apply rows_written_same. Qed.
Lemma tables_written_trans n n' T1 T2 T3 : (n <= n')%nat ->
  tables_written n T1 T2 -> tables_written n' T2 T3 -> tables_written n' T1 T3.
Proof.
  intros Hn [Hr1 Hc1] [Hr2 Hc2]. split.
  - refine (rows_written_trans _ _ _ _ _ _ _ _ _ _ Hr1 Hr2); [done|intros r (? & ? & Hb)|done].
    split_and!; [done..|by eapply override_bounds_mono].
  - refine (rows_written_trans _ _ _ _ _ _ _ _ _ _ Hc1 Hc2); [done|intros r (? & Hb)|done].
    split; [done|by eapply override_bounds_mono].
Qed.

(** Nothing but the limits moves, and they only as [tables_written] says. *)
Definition written w w' : Prop :=
  (calls w <= calls w')%nat /\ db w' = set_limits (kd_limits (db w')) (db w) /\
  tables_written (calls w') (kd_limits (db w)) (kd_limits (db w')).

Lemma set_limits_same d : d = set_limits (kd_limits d) d.
Proof. by destruct d. Qed.

#[local] Instance written_refl : Reflexive written.
Proof. intros w. split_and!; [done|apply set_limits_same|apply tables_written_same]. Qed.
#[local] Instance written_trans : Transitive written.
Proof.
  intros w1 w2 w3 (H1' & H2' & H3') (H4' & H5' & H6'). split_and!; [lia| |by eapply tables_written_trans].
  rewrite H5', H2'. done.
Qed.

(** A world of the call, the [n]-th step or later. *)
Definition over (n : nat) w : Prop := (n0 <= n <= calls w)%nat /\ db w = set_limits (kd_limits (db w)) d0.
Definition writes {E A} (n : nat) (p : io W E A) : Prop := forall w, over n w -> written w (p w).1.
Definition yields {E A} (n : nat) (p : io W E A) (Q : A -> Prop) : Prop := forall w x, over n w -> (p w).2 = Ok x -> Q x.

Lemma over_written n w w' : over n w -> written w w' -> over n w'.
Proof. intros (? & Hd) (? & Hd' & _). split; [lia|]. rewrite Hd', Hd. done. Qed.

Lemma writes_bind_yields {E A B} n Q (p : io W E A) (f : A -> io W E B) :
  writes n p -> yields n p Q -> (forall x, Q x -> writes n (f x)) -> writes n (p ≫= f).
Proof.
  intros Hp Hy Hf w Hw. rewrite io_bind_run. pose proof (Hp w Hw) as Hpw. pose proof (Hy w) as Hyw.
  destruct ((p w).2) as [x|e]; [|done]. etransitivity; [exact Hpw|].
  apply (Hf x); [by apply Hyw|]. by eapply over_written.
Qed.
Lemma writes_bind {E A B} n (p : io W E A) (f : A -> io W E B) :
  writes n p -> (forall x, writes n (f x)) -> writes n (p ≫= f).
Proof. intros Hp Hf. by apply (writes_bind_yields _ (fun _ => True)). Qed.
Lemma writes_mret {E A} n (x : A) : writes n (mret x : io W E A).
Proof. by intros w _. Qed.
Lemma writes_throw {E A} n (e : E) : writes n (throw e : io W E A).
Proof. by intros w _. Qed.
Lemma writes_lift {E A} n (r : result E A) : writes n (lift r : io W E A).
Proof. by intros w _. Qed.
Lemma writes_bind_lift {E A B} n (r : result E A) (f : A -> io W E B) :
  (forall x, r = Ok x -> writes n (f x)) -> writes n (lift r ≫= f).
Proof. intros Hf. apply (writes_bind_yields _ (fun x => r = Ok x)); [apply writes_lift|by intros w x _|done]. Qed.
Lemma writes_map_error {E E' A} n (g : E -> E') (p : io W E A) : writes n p -> writes n (map_error g p).
Proof. intros Hp w Hw. specialize (Hp w Hw). unfold map_error. by destruct (p w). Qed.
Lemma writes_observe {E E' A} n (p : io W E A) : writes n p -> writes n (observe p : io W E' _).
Proof. intros Hp w Hw. specialize (Hp w Hw). unfold observe. by destruct (p w). Qed.

(** Steps that leave the limits alone. *)
Lemma writes_core {E A} n (p : io (key_world U V St) E A) :
  (forall c, (kw_calls c <= kw_calls (p c).1)%nat /\ kw_db (p c).1 = kw_db c) -> writes n (on_core p).
Proof.
  intros Hp w _. unfold on_core. pose proof (Hp (lw_core w)) as [Hc Hd]. destruct (p (lw_core w)) as [c r]. simpl in *.
  split_and!; simpl; [done| |]; rewrite Hd; [apply set_limits_same|apply tables_written_same].
Qed.
Lemma writes_log n e : writes n (log_row e).
Proof. by apply writes_core. Qed.
Lemma writes_select {A} n (q : key_db U V -> result AppError A) : writes n (on_core (select (St := St) net clock q)).
Proof. apply writes_core. intros c. unfold select, statement. destruct (net _); simpl; split; (lia || done). Qed.
Lemma writes_notify n : writes n (notify_limits_changed net).
Proof. intros w _. split_and!; simpl; [lia|apply set_limits_same|apply tables_written_same]. Qed.
Lemma writes_scope n perm kind id : writes n (scope_for_subject net a perm kind id).
Proof. apply writes_core. intros c. simpl. split; [lia|done]. Qed.
Lemma writes_current_count n r : writes n (current_count net clock r).
Proof. apply writes_core. intros c. simpl. split; [lia|done]. Qed.
Lemma writes_caps_usage n caps : writes n (caps_usage net clock caps).
Proof. apply writes_core. intros c. simpl. split; [lia|done]. Qed.
Lemma writes_rules_usage n owner rules : writes n (rules_usage net clock owner rules).
Proof.
  induction rules as [|r rules IH]; [apply writes_mret|]. simpl. apply writes_bind.
  - destruct owner; [apply writes_current_count|apply writes_mret].
  - intros x. apply writes_bind; [done|]. intros ?. apply writes_mret.
Qed.
Lemma writes_resolve n kind id : writes n (resolve_subject_id net clock kind id).
Proof.
  unfold resolve_subject_id. destruct (negb _); [apply writes_mret|]. apply writes_bind; [apply writes_select|].
  intros ?. apply writes_lift.
Qed.

(** The time of a check. *)
Lemma writes_now {B} n (f : Z -> io W AppError B) :
  (forall m, (n0 <= m)%nat -> writes m (f (clock m))) -> writes n (limits_now clock ≫= f).
Proof.
  intros Hf w [Hn Hd]. rewrite io_bind_run. unfold limits_now, on_core, key_now. simpl.
  replace {| lw_core := lw_core w; lw_published := lw_published w |} with w by by destruct w.
  apply Hf; [lia|]. split; [lia|done].
Qed.

Lemma writes_on_limits {A} n (q : nat -> limit_tables U -> limit_tables U * result sqlx_error A) :
  (forall k T k', (n <= k')%nat -> tables_written k' T (q k T).1) -> writes n (on_limits net q).
Proof.
  intros Hq w [Hn _]. unfold on_limits, on_core. specialize (Hq (calls w) (kd_limits (db w)) (S (calls w))).
  destruct (q _ _) as [T r]. simpl in Hq. destruct (net _); split_and!; simpl; (lia || done || (apply Hq; lia) || apply tables_written_same).
Qed.
Lemma writes_select_limits {A} n (f : limit_tables U -> result sqlx_error A) : writes n (on_limits net (fun _ T => (T, f T))).
Proof. apply writes_on_limits. intros k T k' _. apply tables_written_same. Qed.

(** ** From the scope check to the rows *)

Definition allowed : Prop := "rate_limits:write" ∈ au_permissions a /\ "rate_limits:write" ∉ au_denied_permissions a.
Definition granted (kind : string) (id : U) : Prop :=
  exists owner, subject_owner (console_of d0) kind id = Some owner /\
    (holds_globally (kd_rbac d0) (sub a) "rate_limits:write" \/
     exists user, owner = Some user /\ user <> sub a /\ holds_for_user (kd_rbac d0) (sub a) "rate_limits:write" user).

Lemma scope_yields n kind id : yields n (scope_for_subject net a "rate_limits:write" kind id) (fun _ => granted kind id).
Proof.
  intros w [] [_ Hd] Hok. unfold scope_for_subject, on_core in Hok. simpl in Hok. rewrite Hd in Hok.
  apply scope_for_subject_cases in Hok as (_ & _ & Hg). exact Hg.
Qed.

Lemma key_owner_Some lineage id user : key_owner (ct_api_keys (console_of d0)) lineage id = Some user ->
  exists k, k ∈ kd_keys d0 /\ (if lineage : bool then ak_lineage_id k else ak_id k) = id /\ ak_user_id k = Some user.
Proof.
  unfold key_owner. intros (p & Hp & Hu)%bind_Some.
  destruct (filter _ _) as [|p' ps] eqn:E; [done|]. injection Hp as ->.
  assert (Hin : p ∈ p :: ps) by left. rewrite <- E in Hin.
  apply list_elem_of_filter in Hin as [Hid (k & -> & Hk)%list_elem_of_fmap]. exists k. split; [done|].
  split; [by destruct lineage|done].
Qed.

Lemma granted_reach kind id : allowed -> granted kind id -> in_reach a d0 kind id.
Proof.
  intros [Hp Hd] (owner & Ho & Hg). split_and!; [done..|]. destruct Hg as [?|(user & -> & Hne & Hu)]; [by left|].
  right. exists user. split; [|done]. unfold subject_owner in Ho. unfold subject_user.
  case_decide; [done|]. case_decide; [injection Ho as ->; auto|].
  case_decide; [injection Ho as Ho; apply key_owner_Some in Ho; auto|].
  case_decide; [injection Ho as Ho; apply key_owner_Some in Ho; auto|done].
Qed.

Lemma granted_key_reach k : allowed -> granted "api_key" (ak_id k) ->
  head (filter (fun k' => ak_id k' = ak_id k) (kd_keys d0)) = Some k -> in_reach a d0 "api_key_lineage" (ak_lineage_id k).
Proof.
  intros [Hp Hd] (owner & Ho & Hg) Hk. split_and!; [done..|]. destruct Hg as [?|(user & -> & Hne & Hu)]; [by left|].
  right. exists user. split; [|done]. right. right. split; [done|]. exists k. split_and!; [|done|].
  - destruct (filter _ _) as [|k' ks] eqn:E; [done|]. injection Hk as ->.
    assert (Hin : k ∈ k :: ks) by left. rewrite <- E in Hin. by apply list_elem_of_filter in Hin as [_ ?].
  - unfold subject_owner in Ho. cbn in Ho. injection Ho as Ho. unfold key_owner in Ho. revert Ho Hk. clear.
    simpl. induction (kd_keys d0) as [|k' ks IH]; [done|]. rewrite fmap_cons, !filter_cons. simpl.
    case_decide; [|done]. simpl. intros ? [= ->]. done.
Qed.

Lemma resolve_yields n kind id : yields n (resolve_subject_id net clock kind id)
  (fun s => kind <> "api_key" /\ s = id \/
            kind = "api_key" /\ exists k, head (filter (fun k => ak_id k = id) (kd_keys d0)) = Some k /\ ak_id k = id /\ s = ak_lineage_id k).
Proof.
  intros w s [_ Hd]. unfold resolve_subject_id. case_bool_decide as Hk; simpl; [|intros [= <-]; by left].
  rewrite io_bind_run. unfold on_core, select, statement. destruct (net _); simpl; [|done..]. rewrite Hd. simpl.
  destruct (filter _ _) as [|k ks] eqn:E; simpl; [done|]. intros [= <-]. right. split; [done|]. exists k.
  split_and!; [done| |done]. assert (Hin : k ∈ k :: ks) by left. rewrite <- E in Hin. by apply list_elem_of_filter in Hin as [? _].
Qed.

(** The prefix of a handler of one subject. *)
Lemma writes_target {K B} n (parse : string -> result AppError K) (as_str : K -> string) kind id (f : K -> U -> io W AppError B) :
  (forall k, parse kind = Ok k -> kind = "user" /\ as_str k = "user" \/ kind = "api_key" /\ as_str k = "api_key_lineage") ->
  (forall k s, in_reach a d0 (as_str k) s -> writes n (f k s)) ->
  writes n (_ ← lift (require_permission a "rate_limits:write");
            _ ← scope_for_subject net a "rate_limits:write" kind id;
            k ← lift (parse kind); s ← resolve_subject_id net clock kind id; f k s).
Proof.
  intros Hparse Hf. apply writes_bind_lift. intros [] Hperm%require_permission_Ok.
  apply (writes_bind_yields _ (fun _ => granted kind id)); [apply writes_scope|apply scope_yields|]. intros _ Hg.
  apply writes_bind_lift. intros k Hk. eapply writes_bind_yields; [apply writes_resolve|apply resolve_yields|].
  intros s Hs. apply Hf. destruct (Hparse k Hk) as [[-> ->]|[-> ->]]; destruct Hs as [[Hne ->]|(Heq & Hs)]; try done.
  - by apply granted_reach.
  - destruct Hs as (k' & Hhead & Hid & ->). subst id. by apply granted_key_reach.
Qed.

Lemma parse_rate_kinds kind k : parse_rate_subject kind = Ok k ->
  kind = "user" /\ RateLimitSubject.as_str k = "user" \/ kind = "api_key" /\ RateLimitSubject.as_str k = "api_key_lineage".
Proof. unfold parse_rate_subject, reject_role_kind. repeat case_bool_decide; try done; intros [= <-]; auto. Qed.
Lemma parse_budget_kinds kind k : parse_budget_subject kind = Ok k ->
  kind = "user" /\ BudgetSubject.as_str k = "user" \/ kind = "api_key" /\ BudgetSubject.as_str k = "api_key_lineage".
Proof. unfold parse_budget_subject, reject_role_kind. repeat case_bool_decide; try done; intros [= <-]; auto. Qed.

(** ** What the engine is asked to write *)

Lemma override_meta_bounds m n e r meta created : (n0 <= m <= n)%nat -> created = Some (sub a) ->
  validate_override_meta (clock m) e r = Ok meta -> override_bounds n meta.1 meta.2 created.
Proof.
  intros Hm -> Hv. unfold validate_override_meta in Hv.
  assert (He : forall e', e = Some e' -> clock m < e' <= clock m + 90 * day_ms).
  { intros e' ->. destruct (e' <=? clock m) eqn:E1; [done|]. destruct (_ <? e' - clock m) eqn:E2; [done|].
    unfold MAX_OVERRIDE_HORIZON_DAYS in E2. lia. }
  assert (Hmeta : meta.1 = e /\ forall s, meta.2 = Some s -> s <> "" /\ (String.length s <= 500)%nat).
  { destruct (match e with Some _ => _ | None => _ end) as [[]|]; [|done]. simpl in Hv. destruct r as [s|]; simpl in Hv.
    - case_bool_decide; [injection Hv as <-; split; [done|by intros s']|].
      destruct (_ <? String.length (trim s))%nat eqn:E; [done|]. injection Hv as <-. split; [done|].
      intros s' [= <-]. split; [done|]. by apply Nat.ltb_ge in E.
    - injection Hv as <-. split; [done|]. by intros s'. }
  destruct Hmeta as [-> Hr]. split_and!; [done| |done]. intros e' Hee. exists m. split; [lia|auto].
Qed.

Definition rule_bounded (n : nat) (req : UpsertRule U) : Prop :=
  in_reach a d0 (RateLimitSubject.as_str (ur_subject_kind req)) (ur_subject_id req) /\
  forall n', (n <= n')%nat -> override_bounds n' (ur_expires_at req) (ur_reason req) (ur_created_by req).
Definition cap_bounded (n : nat) (req : UpsertCap U) : Prop :=
  in_reach a d0 (BudgetSubject.as_str (uc_subject_kind req)) (uc_subject_id req) /\
  forall n', (n <= n')%nat -> override_bounds n' (uc_expires_at req) (uc_reason req) (uc_created_by req).

Lemma writes_engine_rule n req : rule_bounded n req -> writes n (engine_upsert_rule net fresh req).
Proof.
  intros [Hreach Hb]. unfold engine_upsert_rule. destruct (rule_accepted req) eqn:E; [|by intros w _].
  assert (Hw : writes n (on_limits net (fun k T => let '(T, r) := LimitStore.upsert_rule T (fresh k) req in (T, protocol r)))); [|exact Hw].
  apply writes_on_limits. intros k T k' Hk. unfold LimitStore.upsert_rule. unfold rule_accepted in E.
  apply andb_true_iff in E as [Hwin Hmax]. rewrite Hwin. replace (ur_max_count req <=? 0) with false by lia. simpl.
  split; [|apply rows_written_same]. simpl.
  assert (Hmade : forall i, made_rule k' (new_rule i req)) by (intros i; split_and!; simpl; [done|lia|auto]).
  apply rows_written_upsert; [|apply Hmade]. intros r Hr. unfold LimitStore.rule_key in Hr. simpl in Hr. injection Hr as Hkind Hid _ _ _.
  split_and!; [unfold rule_reach; by rewrite Hkind, Hid|exact Hreach|apply Hmade].
Qed.

Lemma writes_engine_cap n req : cap_bounded n req -> writes n (engine_upsert_cap net fresh req).
Proof.
  intros [Hreach Hb]. unfold engine_upsert_cap. destruct (cap_accepted req) eqn:E; [|by intros w _].
  assert (Hw : writes n (on_limits net (fun k T => let '(T, r) := LimitStore.upsert_cap T (fresh k) req in (T, protocol r)))); [|exact Hw].
  apply writes_on_limits. intros k T k' Hk. unfold LimitStore.upsert_cap. unfold cap_accepted in E.
  replace (uc_limit_tokens req <=? 0) with false by lia. simpl.
  split; [apply rows_written_same|]. simpl.
  assert (Hmade : forall i, made_cap k' (new_cap i req)) by (intros i; split; simpl; [lia|auto]).
  apply rows_written_upsert; [|apply Hmade]. intros r Hr. unfold LimitStore.cap_key in Hr. simpl in Hr. injection Hr as Hkind Hid _.
  split_and!; [unfold cap_reach; by rewrite Hkind, Hid|exact Hreach|apply Hmade].
Qed.

(** ** The handlers *)

Ltac writing := repeat first
  [ apply writes_mret | apply writes_throw | apply writes_lift | apply writes_log | apply writes_notify
  | apply writes_scope | apply writes_resolve | apply writes_select | apply writes_caps_usage | apply writes_rules_usage
  | apply writes_map_error | apply writes_select_limits
  | match goal with
    | |- writes _ (mbind _ _) => apply writes_bind; [|intros ?]
    | |- writes _ (match _ with _ => _ end) => case_match
    end ].

Lemma writes_list_rules n kind id : writes n (list_rules net clock a kind id).
Proof. unfold list_rules. writing. Qed.
Lemma writes_list_caps n kind id : writes n (list_caps net clock a kind id).
Proof. unfold list_caps. writing. Qed.
Lemma writes_get_usage n kind id : writes n (get_usage net clock a kind id).
Proof. unfold get_usage. writing. Qed.

Lemma writes_upsert_rule n kind id req : writes n (upsert_rule net clock fresh json_time a kind id req).
Proof.
  unfold upsert_rule. eapply writes_target; [exact (parse_rate_kinds kind)|]. intros k s Hreach.
  do 2 (apply writes_bind; [apply writes_lift|intros ?]). apply writes_now. intros m Hm.
  apply writes_bind_lift. intros meta Hmeta. apply writes_bind; [|intros row; writing].
  apply writes_map_error, writes_engine_rule. split; [done|]. intros n' Hn'. simpl. by eapply override_meta_bounds.
Qed.
Lemma writes_upsert_cap n kind id req : writes n (upsert_cap net clock fresh json_time a kind id req).
Proof.
  unfold upsert_cap. eapply writes_target; [exact (parse_budget_kinds kind)|]. intros k s Hreach.
  apply writes_bind; [apply writes_lift|intros ?]. apply writes_now. intros m Hm.
  apply writes_bind_lift. intros meta Hmeta. apply writes_bind; [|intros row; writing].
  apply writes_map_error, writes_engine_cap. split; [done|]. intros n' Hn'. simpl. by eapply override_meta_bounds.
Qed.

Lemma writes_delete_rule n kind id rule : writes n (delete_rule net clock a kind id rule).
Proof.
  unfold delete_rule. eapply writes_target; [exact (parse_rate_kinds kind)|]. intros k s Hreach.
  apply writes_bind; [|intros hit; writing]. apply writes_map_error, writes_on_limits. intros k' T n' _.
  split; [|apply rows_written_same]. apply rows_written_filter. intros r _ [_ [Hk Hs]]%dec_stable.
  unfold rule_reach. by rewrite Hk, Hs.
Qed.
Lemma writes_delete_cap n kind id cap : writes n (delete_cap net clock a kind id cap).
Proof.
  unfold delete_cap. eapply writes_target; [exact (parse_budget_kinds kind)|]. intros k s Hreach.
  apply writes_bind; [|intros hit; writing]. apply writes_map_error, writes_on_limits. intros k' T n' _.
  split; [apply rows_written_same|]. apply rows_written_filter. intros r _ [_ [Hk Hs]]%dec_stable.
  unfold cap_reach. by rewrite Hk, Hs.
Qed.

(** *** Many subjects *)

Lemma observe_yields {E E' A} n (p : io W E A) Q : yields n p Q ->
  yields n (observe p : io W E' _) (fun r => forall x, r = Ok x -> Q x).
Proof. intros Hp w r Hw Hr x ->. unfold observe in Hr. specialize (Hp w x Hw). destruct (p w). injection Hr as Hr. auto. Qed.

Lemma writes_bulk_targets {K} n (parse : string -> option K) (as_str : K -> string) put audit targets b :
  allowed -> (forall s k, parse s = Some k -> as_str k = s) ->
  (forall k id, in_reach a d0 (as_str k) id -> writes n (put k id)) ->
  writes n (bulk_targets net unreachable parse put audit a targets b).
Proof.
  intros Ha Hparse Hput. revert b. induction targets as [|t targets IH]; intros b; [apply writes_mret|]. cbn [bulk_targets].
  apply writes_bind; [|done]. unfold bulk_target. destruct (parse (sr_kind t)) as [k|] eqn:Ek; [|apply writes_mret].
  eapply writes_bind_yields; [apply writes_observe, writes_scope|apply observe_yields, scope_yields|].
  intros [[]|e] Hg; [|apply writes_mret]. apply writes_bind; [|intros r; writing].
  apply writes_observe, Hput. rewrite (Hparse _ _ Ek). apply granted_reach; [done|]. by apply (Hg tt).
Qed.

Lemma writes_bulk_done {O} n (b : bulk_counts O) : writes n (bulk_done net b).
Proof. unfold bulk_done. writing. Qed.

Lemma writes_bulk_rule n targets req : writes n (bulk_apply_rule net clock fresh json_time unreachable a targets req).
Proof.
  unfold bulk_apply_rule. apply writes_bind_lift. intros [] Ha%require_permission_Ok.
  do 3 (apply writes_bind; [apply writes_lift|intros ?]). apply writes_now. intros m Hm.
  apply writes_bind_lift. intros meta Hmeta. apply writes_bind; [|intros ?; apply writes_bulk_done].
  apply (writes_bulk_targets _ _ RateLimitSubject.as_str); [done|exact rate_subject_named|].
  intros k id Hreach. apply writes_bind; [|intros ?; apply writes_mret]. apply writes_engine_rule.
  split; [done|]. intros n' Hn'. simpl. by eapply override_meta_bounds.
Qed.
Lemma writes_bulk_cap n targets req : writes n (bulk_apply_cap net clock fresh json_time unreachable a targets req).
Proof.
  unfold bulk_apply_cap. apply writes_bind_lift. intros [] Ha%require_permission_Ok.
  do 2 (apply writes_bind; [apply writes_lift|intros ?]). apply writes_now. intros m Hm.
  apply writes_bind_lift. intros meta Hmeta. apply writes_bind; [|intros ?; apply writes_bulk_done].
  apply (writes_bulk_targets _ _ BudgetSubject.as_str); [done|exact budget_subject_named|].
  intros k id Hreach. apply writes_bind; [|intros ?; apply writes_mret]. apply writes_engine_cap.
  split; [done|]. intros n' Hn'. simpl. by eapply override_meta_bounds.
Qed.

(** *** Many rows *)

(** The primary keys of the two tables. *)
Definition keyed (T : limit_tables U) : Prop := NoDup (rw_id <$> lt_rules T) /\ NoDup (cw_id <$> lt_caps T).

Lemma one_row {R} (key : R -> U) (rows : list R) id r r' : NoDup (key <$> rows) ->
  head (filter (fun r => key r = id) rows) = Some r -> r' ∈ rows -> key r' = id -> r' = r.
Proof.
  intros Hn Hh Hin Hid. destruct (filter _ _) as [|r0 rs] eqn:E; [done|]. injection Hh as ->.
  assert (Hr : r ∈ r :: rs) by left. rewrite <- E in Hr. apply list_elem_of_filter in Hr as [Hr ?].
  eapply (NoDup_fmap_elem key); eauto. congruence.
Qed.

Lemma keyed_filter {R} (key : R -> U) (P : R -> Prop) `{!forall r, Decision (P r)} rows :
  NoDup (key <$> rows) -> NoDup (key <$> filter P rows).
Proof. intros Hn. eapply sublist_NoDup; [exact Hn|]. apply fmap_sublist, sublist_filter. Qed.
Lemma keyed_off {R} (key : R -> U) (off : R -> R) (P : R -> bool) rows : (forall r, key (off r) = key r) ->
  NoDup (key <$> rows) -> NoDup (key <$> (update_where P off rows).1).
Proof.
  intros Hk Hn. simpl. rewrite <- list_fmap_compose. erewrite list_fmap_ext; [exact Hn|].
  intros i r _. unfold compose. by destruct (P r).
Qed.

Section Row.
Context (table : limit_table) (id : U) (n : nat) (T : limit_tables U) (Hkeyed : keyed T).
Context (Hsubject : forall kind sid, row_subject table id T = Some (kind, sid) -> in_reach a d0 kind sid).

Lemma row_rule_reach r : table = RateLimitRules -> r ∈ lt_rules T -> rw_id r = id -> rule_reach r.
Proof.
  intros -> Hin Hid. unfold row_subject in Hsubject. destruct (head _) as [r0|] eqn:E.
  - rewrite (one_row _ _ _ _ r (proj1 Hkeyed) E Hin Hid). by apply Hsubject.
  - assert (Hf : r ∈ filter (fun r => rw_id r = id) (lt_rules T)) by by apply list_elem_of_filter.
    destruct (filter _ _); [by apply elem_of_nil in Hf|done].
Qed.
Lemma row_cap_reach c : table = BudgetCaps -> c ∈ lt_caps T -> cw_id c = id -> cap_reach c.
Proof.
  intros -> Hin Hid. unfold row_subject in Hsubject. destruct (head _) as [c0|] eqn:E.
  - rewrite (one_row _ _ _ _ c (proj2 Hkeyed) E Hin Hid). by apply Hsubject.
  - assert (Hf : c ∈ filter (fun c => cw_id c = id) (lt_caps T)) by by apply list_elem_of_filter.
    destruct (filter _ _); [by apply elem_of_nil in Hf|done].
Qed.

Lemma row_off_written : tables_written n T (row_off table id T).1 /\ keyed (row_off table id T).1.
Proof.
  pose proof row_rule_reach as HR. pose proof row_cap_reach as HC.
  destruct Hkeyed as [Hr Hc], table; simpl; (split; [split|split]); simpl; try done; try apply rows_written_same.
  - apply rows_written_off; [done|]. intros r Hin Hid%bool_decide_eq_true. by apply HR.
  - by apply (keyed_off _ _ (fun r => bool_decide (rw_id r = id))).
  - apply rows_written_off; [done|]. intros r Hin Hid%bool_decide_eq_true. by apply HC.
  - by apply (keyed_off _ _ (fun c => bool_decide (cw_id c = id))).
Qed.
Lemma row_deleted_written : tables_written n T (row_deleted table id T).1 /\ keyed (row_deleted table id T).1.
Proof.
  pose proof row_rule_reach as HR. pose proof row_cap_reach as HC.
  destruct Hkeyed as [Hr Hc], table; simpl; (split; [split|split]); simpl; try done;
    try apply rows_written_same; try by apply keyed_filter.
  - apply rows_written_filter. intros r Hin Hid%dec_stable. by apply HR.
  - apply rows_written_filter. intros r Hin Hid%dec_stable. by apply HC.
Qed.
End Row.

(** A statement at a world. *)
Lemma on_limits_written {A} (q : nat -> limit_tables U -> limit_tables U * result sqlx_error A) w :
  let T' := (q (calls w) (kd_limits (db w))).1 in
  keyed (kd_limits (db w)) -> tables_written (S (calls w)) (kd_limits (db w)) T' /\ keyed T' ->
  written w (on_limits net q w).1 /\ keyed (kd_limits (db (on_limits net q w).1)).
Proof.
  intros T' Hk [Ht Hk']. unfold T' in *. unfold on_limits, on_core. destruct (q _ _) as [T r]. simpl in *.
  destruct (net _); split; simpl; try done; (split_and!; simpl; [lia|done|done || apply tables_written_same]).
Qed.

Lemma keyed_bind {E A B} n Q (p : io W E A) (f : A -> io W E B) w :
  over n w -> (written w (p w).1 /\ keyed (kd_limits (db (p w).1))) -> (forall x, (p w).2 = Ok x -> Q x (p w).1) ->
  (forall x w', over n w' -> keyed (kd_limits (db w')) -> Q x w' -> written w' (f x w').1 /\ keyed (kd_limits (db (f x w').1))) ->
  written w ((p ≫= f) w).1 /\ keyed (kd_limits (db ((p ≫= f) w).1)).
Proof.
  intros Hw [Hp Hk] HQ Hf. rewrite io_bind_run. destruct ((p w).2) as [x|e] eqn:Er; [|done].
  destruct (Hf x (p w).1) as [Hf1 Hf2]; [by eapply over_written|done|by apply HQ|]. split; [by etransitivity|done].
Qed.

Lemma bulk_id_written n table op audit id b w : allowed -> over n w -> keyed (kd_limits (db w)) ->
  written w (bulk_id net unreachable a table op audit id b w).1 /\
  keyed (kd_limits (db (bulk_id net unreachable a table op audit id b w).1)).
Proof.
  intros Ha Hw Hk. unfold bulk_id.
  apply (keyed_bind n (fun x w' => forall s, x = Ok s -> s = row_subject table id (kd_limits (db w')))); [done| | |].
  - pose proof (on_limits_written (fun _ T => (T, Ok (row_subject table id T))) w Hk) as H'.
    unfold observe, subject_of. destruct (on_limits _ _ w) as [w' r]. simpl in *. apply H'. split; [apply tables_written_same|done].
  - intros x Hx s ->. unfold observe, subject_of, on_limits, on_core in *. simpl in *. destruct (net _); simpl in *; congruence.
  - clear w Hw Hk. intros [[[kind sid]|]|e] w Hw Hk Hs; [|by split|by split].
    apply (keyed_bind n (fun x w' => forall s, x = Ok s -> granted kind sid /\ row_subject table id (kd_limits (db w')) = Some (kind, sid))); [done| | |].
    + split; [|done]. apply (writes_observe n _ (writes_scope n _ _ _)), Hw.
    + intros x Hx [] ->. split; [|symmetry; by apply (Hs _ eq_refl)].
      by apply (observe_yields n _ _ (scope_yields n kind sid) w _ Hw Hx tt).
    + clear w Hw Hk Hs. intros [[]|e] w Hw Hk Hs; [|by split]. destruct (Hs tt eq_refl) as [Hg Hrow].
      assert (Hsub : forall kind' sid', row_subject table id (kd_limits (db w)) = Some (kind', sid') -> in_reach a d0 kind' sid').
      { rewrite Hrow. intros ? ? [= <- <-]. by apply granted_reach. }
      apply (keyed_bind n (fun _ _ => True)); [done| |done|].
      * set (p := match op with BulkDisable => _ | BulkDelete => _ end).
        assert (Hp : written w (p w).1 /\ keyed (kd_limits (db (p w).1))).
        { unfold p. destruct op; [unfold disable|unfold delete]; apply on_limits_written; try done.
          - destruct (row_off _ _ _) as [T' c] eqn:E. pose proof (row_off_written table id (S (calls w)) _ Hk Hsub) as Ht.
            by rewrite E in Ht.
          - destruct (row_deleted _ _ _) as [T' c] eqn:E. pose proof (row_deleted_written table id (S (calls w)) _ Hk Hsub) as Ht.
            by rewrite E in Ht. }
        unfold observe. by destruct (p w).
      * intros [c|e] w' Hw' Hk' _; [|by split]. destruct (0 <? c)%nat; [|by split]. split; [|done].
        apply (writes_bind n _ (fun _ => mret _) (writes_log n _) (fun _ => writes_mret n _)), Hw'.
Qed.

Lemma bulk_ids_written n table op audit ids b w : allowed -> over n w -> keyed (kd_limits (db w)) ->
  written w (bulk_ids net unreachable a table op audit ids b w).1 /\
  keyed (kd_limits (db (bulk_ids net unreachable a table op audit ids b w).1)).
Proof.
  intros Ha. revert b w. induction ids as [|id ids IH]; intros b w Hw Hk; [by split|]. cbn [bulk_ids].
  apply (keyed_bind n (fun _ _ => True)); [done|by eapply bulk_id_written|done|]. intros ? ? ? ? _. by eapply IH.
Qed.

Lemma writes_bulk_ids n table op audit ids w : over n w -> keyed (kd_limits (db w)) ->
  written w ((_ ← lift (require_permission a "rate_limits:write");
              run_bulk_id_op net unreachable a ids table op audit) w).1.
Proof.
  intros Hw Hk. rewrite io_bind_run. simpl. destruct (require_permission a _) as [[]|] eqn:E; [|done].
  apply require_permission_Ok in E. unfold run_bulk_id_op. destruct (bool_decide _); [done|]. destruct (_ <? _)%nat; [done|].
  rewrite io_bind_run. destruct (bulk_ids_written n table op audit ids bulk_start w E Hw Hk) as [H1' _].
  destruct (bulk_ids _ _ _ _ _ _ _ _ w) as [w' [b|e]]; [|done]. simpl in *. etransitivity; [exact H1'|].
  apply (writes_bulk_done n). by eapply over_written.
Qed.
End Caller.

(** ** Any call *)

Inductive limit_call :=
  | ListRules (kind : string) (subject : U)
  | UpsertRuleCall (kind : string) (subject : U) (req : UpsertRuleRequest)
  | DeleteRule (kind : string) (subject rule : U)
  | ListCaps (kind : string) (subject : U)
  | UpsertCapCall (kind : string) (subject : U) (req : UpsertCapRequest)
  | DeleteCap (kind : string) (subject cap : U)
  | GetUsage (kind : string) (subject : U)
  | BulkApplyRule (targets : list (SubjectRef U)) (req : UpsertRuleRequest)
  | BulkApplyCap (targets : list (SubjectRef U)) (req : UpsertCapRequest)
  | BulkDisableRules (ids : list U) | BulkDeleteRules (ids : list U)
  | BulkDisableCaps (ids : list U) | BulkDeleteCaps (ids : list U).

Definition run_limit_call (a : AuthUser U) (c : limit_call) (w : W) : W :=
  match c with
  | ListRules kind id => (list_rules net clock a kind id w).1
  | UpsertRuleCall kind id req => (upsert_rule net clock fresh json_time a kind id req w).1
  | DeleteRule kind id rule => (delete_rule net clock a kind id rule w).1
  | ListCaps kind id => (list_caps net clock a kind id w).1
  | UpsertCapCall kind id req => (upsert_cap net clock fresh json_time a kind id req w).1
  | DeleteCap kind id cap => (delete_cap net clock a kind id cap w).1
  | GetUsage kind id => (get_usage net clock a kind id w).1
  | BulkApplyRule targets req => (bulk_apply_rule net clock fresh json_time unreachable a targets req w).1
  | BulkApplyCap targets req => (bulk_apply_cap net clock fresh json_time unreachable a targets req w).1
  | BulkDisableRules ids => (bulk_disable_rules net unreachable a ids w).1
  | BulkDeleteRules ids => (bulk_delete_rules net unreachable a ids w).1
  | BulkDisableCaps ids => (bulk_disable_caps net unreachable a ids w).1
  | BulkDeleteCaps ids => (bulk_delete_caps net unreachable a ids w).1
  end.

(** C27: Whatever call a user makes, and however the database's and Redis's replies end, nothing but
    the limits changes; every rule and cap that is changed or gone was of a subject in the user's
    reach: the user carries [rate_limits:write] undenied, and holds it globally or for a team of
    another user whose limits they are, directly or through a key's lineage.  Every row that was
    not there before is in reach too, and is an old one turned off, or has an admitted window, a
    positive limit, the user as its author, a reason of at most 500 bytes, and an expiry, if any,
    between a time of the call and 90 days after it. *)
Theorem limits_written_in_scope a c w (w' := run_limit_call a c w) (T := kd_limits (db w)) (T' := kd_limits (db w')) :
  keyed T ->
  db w' = set_limits T' (db w) /\
  rows_written (rule_reach a (db w)) off_rule (made_rule a (calls w) (calls w')) (lt_rules T) (lt_rules T') /\
  rows_written (cap_reach a (db w)) off_cap (made_cap a (calls w) (calls w')) (lt_caps T) (lt_caps T').
Proof.
  intros Hk. assert (Hw : over (calls w) (db w) (calls w) w) by (split; [lia|apply set_limits_same]).
  assert (Hw' : written a (calls w) (db w) w w'); [|apply Hw'].
  unfold w'. destruct c; simpl.
  - by eapply writes_list_rules.
  - by eapply writes_upsert_rule.
  - by eapply writes_delete_rule.
  - by eapply writes_list_caps.
  - by eapply writes_upsert_cap.
  - by eapply writes_delete_cap.
  - by eapply writes_get_usage.
  - by eapply writes_bulk_rule.
  - by eapply writes_bulk_cap.
  - by eapply writes_bulk_ids.
  - by eapply writes_bulk_ids.
  - by eapply writes_bulk_ids.
  - by eapply writes_bulk_ids.
Qed.
End Access.
