(* ===== verification/LimitBulk.v ===== *)
(** * What a bulk call answers

    Theorems about the loops over targets of [LimitHandlers]: one outcome per target, in order,
    the counts that go with them, and a row behind each success. *)
From Stdlib Require Import Ascii.
From S2P Require Import Prelude Interfaces LimitTypes LimitStore Policy Constraints Sliding Budget Effects GatewayDeps Text AuditRow ExpiringKeys Glob Validation Lockout Login LoginSpec Sessions SessionSpec Rbac Scope ApiKeys LimitHandlers LimitAccess.

(** An upsert into a table with a unique key leaves every row's id and key as they were, and what
    it returns is in the table. *)
Section Upsert.
Context {R K I : Type} `{EqDecision K} (key : R -> K) (id_of : R -> I) (new : R) (change : R -> R).
Context (key_change : forall r, key (change r) = key new) (id_change : forall r, id_of (change r) = id_of r).

Lemma upsert_keeps_row rows r : r ∈ rows ->
  exists r', r' ∈ upsert_row key new change rows /\ key r' = key r /\ id_of r' = id_of r.
Proof.
  intros Hr. unfold upsert_row. case_decide.
  - destruct (decide (key r = key new)) as [Hk|Hk].
    + exists (change r). split; [|by rewrite key_change]. apply list_elem_of_fmap. exists r. by rewrite decide_True.
    + exists r. split; [|done]. apply list_elem_of_fmap. exists r. by rewrite decide_False.
  - exists r. split; [|done]. apply elem_of_app. by left.
Qed.
Lemma row_of_elem k rows r : row_of key k rows = Some r -> r ∈ rows /\ key r = k.
Proof.
  unfold row_of. destruct (filter _ _) as [|r' rs] eqn:E; [done|]. intros [= ->].
  assert (Hin : r ∈ r :: rs) by left. rewrite <- E in Hin. by apply list_elem_of_filter in Hin as [? ?].
Qed.
End Upsert.

Section Bulk.
Context {U V St : Type} `{Uuid U, EqDecision U, EqDecision V, JsonValue V, Redis St, RedisKV St, Calendar}.
Context (net : nat -> link) (clock : nat -> Z) (fresh : nat -> U) (json_time : Z -> string) (unreachable : string).
Abbreviation W := (limit_world U V St).
Abbreviation tables w := (kd_limits (kw_db (lw_core w))).
Implicit Types (w : W) (T : limit_tables U).

(** The table has a row of this id and subject. *)
Definition rule_there (T : limit_tables U) (i : U) (kind : string) (id : U) : Prop :=
  exists r, r ∈ lt_rules T /\ rw_id r = i /\ rw_subject_kind r = kind /\ rw_subject_id r = id.
Definition cap_there (T : limit_tables U) (i : U) (kind : string) (id : U) : Prop :=
  exists c, c ∈ lt_caps T /\ cw_id c = i /\ cw_subject_kind c = kind /\ cw_subject_id c = id.

(** One outcome per target; a success names a row that is there, a failure says why. *)
Definition accounts (there : U -> string -> U -> Prop) (targets : list (SubjectRef U))
    (outcomes : list (BulkOutcome U)) (success errors : nat) : Prop :=
  (fun o => (bo_subject_kind o, bo_subject_id o)) <$> outcomes = (fun t => (sr_kind t, sr_id t)) <$> targets /\
  success = length (filter (fun o => is_Some (bo_row_id o)) outcomes) /\
  (success + errors)%nat = length targets /\
  forall o, o ∈ outcomes -> match bo_row_id o with
                         | Some i => bo_error o = None /\ there i (bo_subject_kind o) (bo_subject_id o)
                         | None => is_Some (bo_error o)
                         end.

Lemma accounts_push (there there' : U -> string -> U -> Prop) targets b t row err :
  accounts there targets (bk_outcomes b) (bk_success b) (bk_errors b) ->
  (forall i k id, there i k id -> there' i k id) ->
  match row with Some i => err = None /\ there' i (sr_kind t) (sr_id t) | None => is_Some err end ->
  let b' := bulk_push (bool_decide (is_Some row))
              {| bo_subject_kind := sr_kind t; bo_subject_id := sr_id t; bo_row_id := row; bo_error := err |} b in
  accounts there' (targets ++ [t]) (bk_outcomes b') (bk_success b') (bk_errors b').
Proof.
  intros (Hl & Hs & Hn & Ho) Hmono Hrow. simpl. split_and!.
  - by rewrite !fmap_app, Hl.
  - rewrite filter_app, length_app, <- Hs, filter_cons, filter_nil. simpl. destruct row as [i|].
    + rewrite decide_True by by eexists. simpl. lia.
    + rewrite decide_False by by intros [? [=]]. simpl. lia.
  - rewrite length_app. simpl. case_bool_decide; lia.
  - intros o [Hin| ->%list_elem_of_singleton]%elem_of_app.
    + specialize (Ho o Hin). destruct (bo_row_id o); naive_solver.
    + simpl. by destruct row.
Qed.

Lemma accounts_mono (there there' : U -> string -> U -> Prop) targets outcomes s e :
  (forall i k id, there i k id -> there' i k id) -> accounts there targets outcomes s e -> accounts there' targets outcomes s e.
Proof.
  intros Hmono (? & ? & ? & Ho). split_and!; [done..|]. intros o Hin. specialize (Ho o Hin).
  destruct (bo_row_id o); naive_solver.
Qed.

Section Loop.
Context {K : Type} (parse : string -> option K) (as_str : K -> string) (put : K -> U -> io W sqlx_error U).
Context (audit : SubjectRef U -> U -> AuditEntry) (a : AuthUser U).
Context (there : limit_tables U -> U -> string -> U -> Prop).
Context (parse_named : forall s k, parse s = Some k -> as_str k = s).
Context (put_there : forall k id w i, (put k id w).2 = Ok i -> there (tables (put k id w).1) i (as_str k) id).
Context (put_keeps : forall k id w i s u, there (tables w) i s u -> there (tables (put k id w).1) i s u).
Abbreviation target := (bulk_target net unreachable parse put audit a).
Abbreviation good w targets b := (accounts (there (tables w)) targets (bk_outcomes b) (bk_success b) (bk_errors b)).

Lemma bulk_target_account t targets b w : good w targets b ->
  exists b', (target t b w).2 = Ok b' /\ good (target t b w).1 (targets ++ [t]) b'.
Proof.
  intros Hb. unfold bulk_target. destruct (parse (sr_kind t)) as [k|] eqn:Ek.
  - cbv [mbind io_bind observe scope_for_subject on_core]. simpl.
    set (w1 := {| lw_core := _; lw_published := _ |}).
    destruct (assert_scope_for_subject _ _ _ _ _ _ _) as [[]|e].
    + pose proof (put_there k (sr_id t) w1) as Hput. pose proof (put_keeps k (sr_id t) w1) as Hkeep.
      destruct (put k (sr_id t) w1) as [w2 [i|e]] eqn:Ep; simpl in *.
      * eexists. split; [reflexivity|]. apply (accounts_push (there (tables w1)) _ _ _ _ (Some i)); [done|exact Hkeep|].
        split; [done|]. rewrite <- (parse_named _ _ Ek). by apply Hput.
      * eexists. split; [reflexivity|]. by apply (accounts_push (there (tables w1)) _ _ _ _ None).
    + eexists. split; [reflexivity|]. by apply (accounts_push (there (tables w)) _ _ _ _ None).
  - eexists. split; [reflexivity|]. by apply (accounts_push (there (tables w)) _ _ _ _ None).
Qed.

Lemma bulk_targets_account targets done b w : good w done b ->
  exists b', (bulk_targets net unreachable parse put audit a targets b w).2 = Ok b' /\
    good (bulk_targets net unreachable parse put audit a targets b w).1 (done ++ targets) b'.
Proof.
  revert done b w. induction targets as [|t targets IH]; intros done b w Hb.
  - exists b. by rewrite app_nil_r.
  - destruct (bulk_target_account t done b w Hb) as (b1 & H1' & H2'). cbn [bulk_targets]. rewrite io_bind_run, H1'.
    destruct (IH (done ++ [t]) b1 _ H2') as (b' & ? & ?). exists b'. by rewrite <- app_assoc in *.
Qed.

Lemma bulk_call_account targets w :
  exists w' r, (b ← bulk_targets net unreachable parse put audit a targets bulk_start; bulk_done net b) w = (w', Ok r) /\
    accounts (there (tables w')) targets (br_outcomes r) (br_success_count r) (br_error_count r).
Proof.
  destruct (bulk_targets_account targets [] bulk_start w) as (b & Hb & Hacc).
  { split_and!; [done..|]. intros o Ho. by apply elem_of_nil in Ho. }
  rewrite io_bind_run, Hb. unfold bulk_done. rewrite io_bind_run. destruct (_ <? _)%nat; simpl; eauto.
Qed.
End Loop.

(** ** The engine's upserts *)

Lemma put_rule_there req w i : (engine_upsert_rule net fresh req w).2 = Ok i ->
  rule_there (tables (engine_upsert_rule net fresh req w).1) (rr_id i) (RateLimitSubject.as_str (ur_subject_kind req)) (ur_subject_id req).
Proof.
  unfold engine_upsert_rule. destruct (rule_accepted req) eqn:E.
  - unfold on_limits, on_core, LimitStore.upsert_rule. unfold rule_accepted in E. apply andb_true_iff in E as [-> E].
    replace (ur_max_count req <=? 0) with false by lia. simpl. destruct (net _); simpl; try done.
    destruct (row_of _ _ _) as [r|] eqn:Er; simpl; [|done].
    destruct (row_to_rule r) as [r'|] eqn:Er'; simpl; [|done]. intros [= <-].
    apply row_of_elem in Er as [Hin Hk]. exists r. split; [done|]. injection Hk as Hkind Hid _ _ _. split_and!; [|done..].
    unfold row_to_rule in Er'. repeat (apply bind_Some in Er' as (? & ? & Er')). by injection Er' as <-.
  - unfold LimitStore.upsert_rule. unfold rule_accepted in E. simpl. destruct (is_allowed_window _); simpl; [|done].
    simpl in E. replace (ur_max_count req <=? 0) with true by lia. done.
Qed.
Lemma put_rule_keeps req w i s u : rule_there (tables w) i s u -> rule_there (tables (engine_upsert_rule net fresh req w).1) i s u.
Proof.
  intros Hr. unfold engine_upsert_rule. destruct (rule_accepted req) eqn:E; [|done].
  assert (Hnew : rule_there (LimitStore.upsert_rule (tables w) (fresh (kw_calls (lw_core w))) req).1 i s u).
  { destruct Hr as (r & Hin & <- & <- & <-). unfold LimitStore.upsert_rule. repeat case_match; try by exists r.
    destruct (upsert_keeps_row LimitStore.rule_key rw_id (new_rule (fresh (kw_calls (lw_core w))) req) (change_rule req)
                (fun _ => eq_refl) (fun _ => eq_refl) _ _ Hin) as (r' & Hin' & Hk & Hi).
    exists r'. injection Hk as ? ? _ _ _. done. }
  unfold on_limits, on_core. simpl. destruct (LimitStore.upsert_rule _ _ _) as [T' x]. by destruct (net _).
Qed.

Lemma put_cap_there req w i : (engine_upsert_cap net fresh req w).2 = Ok i ->
  cap_there (tables (engine_upsert_cap net fresh req w).1) (bc_id i) (BudgetSubject.as_str (uc_subject_kind req)) (uc_subject_id req).
Proof.
  unfold engine_upsert_cap. destruct (cap_accepted req) eqn:E.
  - unfold on_limits, on_core, LimitStore.upsert_cap. unfold cap_accepted in E.
    replace (uc_limit_tokens req <=? 0) with false by lia. simpl. destruct (net _); simpl; try done.
    destruct (row_of _ _ _) as [r|] eqn:Er; simpl; [|done].
    destruct (row_to_cap r) as [r'|] eqn:Er'; simpl; [|done]. intros [= <-].
    apply row_of_elem in Er as [Hin Hk]. exists r. split; [done|]. injection Hk as Hkind Hid _. split_and!; [|done..].
    unfold row_to_cap in Er'. repeat (apply bind_Some in Er' as (? & ? & Er')). by injection Er' as <-.
  - unfold LimitStore.upsert_cap. unfold cap_accepted in E. simpl.
    replace (uc_limit_tokens req <=? 0) with true by lia. done.
Qed.
Lemma put_cap_keeps req w i s u : cap_there (tables w) i s u -> cap_there (tables (engine_upsert_cap net fresh req w).1) i s u.
Proof.
  intros Hr. unfold engine_upsert_cap. destruct (cap_accepted req) eqn:E; [|done].
  assert (Hnew : cap_there (LimitStore.upsert_cap (tables w) (fresh (kw_calls (lw_core w))) req).1 i s u).
  { destruct Hr as (r & Hin & <- & <- & <-). unfold LimitStore.upsert_cap. repeat case_match; try by exists r.
    destruct (upsert_keeps_row LimitStore.cap_key cw_id (new_cap (fresh (kw_calls (lw_core w))) req) (change_cap req)
                (fun _ => eq_refl) (fun _ => eq_refl) _ _ Hin) as (r' & Hin' & Hk & Hi).
    exists r'. injection Hk as ? ? _. done. }
  unfold on_limits, on_core. simpl. destruct (LimitStore.upsert_cap _ _ _) as [T' x]. by destruct (net _).
Qed.

Lemma put_id {A} (f : A -> U) (p : io W sqlx_error A) w i : ((r ← p; mret (f r)) w).2 = Ok i ->
  exists r, (p w).2 = Ok r /\ f r = i /\ ((r ← p; mret (f r)) w).1 = (p w).1.
Proof. rewrite io_bind_run. destruct (p w) as [w' [r|e]]; simpl; [|done]. intros [= <-]. eauto. Qed.
Lemma put_world {A} (f : A -> U) (p : io W sqlx_error A) w : ((r ← p; mret (f r)) w).1 = (p w).1.
Proof. rewrite io_bind_run. by destruct (p w) as [w' [r|e]]. Qed.

(** A bulk call over up to 500 targets that the caller may make, with a surface, a metric (or
    a period) and override fields that pass, always answers: one outcome per target, in order, the
    successes and failures adding up to the targets, a text for each failure, and for each success
    the id of a row of the target's that the table holds in the end, whatever the database did in
    between. *)
Theorem bulk_outcomes_account a targets w :
  require_permission a "rate_limits:write" = Ok tt -> targets <> [] -> (length targets <= 500)%nat ->
  (forall req, is_Some (Surface.parse (rq_surface req)) -> is_Some (RateMetric.parse (rq_metric req)) ->
     Prelude.is_ok (validate_override_meta (clock (kw_calls (lw_core w))) (rq_expires_at req) (rq_reason req)) = true ->
     exists w' r, bulk_apply_rule net clock fresh json_time unreachable a targets req w = (w', Ok r) /\
       accounts (rule_there (tables w')) targets (br_outcomes r) (br_success_count r) (br_error_count r)) /\
  (forall req, is_Some (BudgetPeriod.parse (cq_period req)) ->
     Prelude.is_ok (validate_override_meta (clock (kw_calls (lw_core w))) (cq_expires_at req) (cq_reason req)) = true ->
     exists w' r, bulk_apply_cap net clock fresh json_time unreachable a targets req w = (w', Ok r) /\
       accounts (cap_there (tables w')) targets (br_outcomes r) (br_success_count r) (br_error_count r)).
Proof.
  intros Ha Hne Hlen. assert (Hc : check_targets targets = Ok tt).
  { unfold check_targets. rewrite bool_decide_false by done. replace (500 <? length targets)%nat with false; [done|].
    symmetry. by apply Nat.ltb_ge. }
  split.
  - intros req [s Hs] [m Hm] Hv. unfold bulk_apply_rule. rewrite io_bind_run. simpl. rewrite Ha.
    rewrite io_bind_run. simpl. rewrite Hc. rewrite io_bind_run. simpl. rewrite Hs. simpl.
    rewrite io_bind_run. simpl. rewrite Hm. simpl. rewrite io_bind_run. unfold limits_now, on_core, key_now. simpl.
    rewrite io_bind_run. simpl. destruct (validate_override_meta _ _ _) as [meta|] eqn:Ev; [|done].
    apply (bulk_call_account _ RateLimitSubject.as_str _ _ _ rule_there); [exact rate_subject_named| |].
    + intros k id w1 i Hi. apply put_id in Hi as (r & Hr & <- & ->). by apply put_rule_there in Hr.
    + intros k id w1 i t u Hi. rewrite put_world. by apply put_rule_keeps.
  - intros req [p Hp] Hv. unfold bulk_apply_cap. rewrite io_bind_run. simpl. rewrite Ha.
    rewrite io_bind_run. simpl. rewrite Hc. rewrite io_bind_run. simpl. rewrite Hp. simpl.
    rewrite io_bind_run. unfold limits_now, on_core, key_now. simpl.
    rewrite io_bind_run. simpl. destruct (validate_override_meta _ _ _) as [meta|] eqn:Ev; [|done].
    apply (bulk_call_account _ BudgetSubject.as_str _ _ _ cap_there); [exact budget_subject_named| |].
    + intros k id w1 i Hi. apply put_id in Hi as (r & Hr & <- & ->). by apply put_cap_there in Hr.
    + intros k id w1 i t u Hi. rewrite put_world. by apply put_cap_keeps.
Qed.
End Bulk.

(** * Limits, set by a team's manager

    The handlers of [LimitHandlers] on concrete tables: a manager whose permission counts for one
    team sets the limits of its member; what bulk calls refuse; and a reason counted in bytes. *)

(** A store without counters. *)
#[local] Instance no_counters : RedisKV hstore :=
  {| kget _ _ := Ok None; kincrby _ _ s := Some s; kexpire _ _ s := s |}.

(** Alice manages a team, of which the user [UKey1] is a member; the key [UNil] is theirs. *)
Definition manager_tables : rbac_tables demo_uuid json := {|
  rt_roles := [(UNil, "team_manager", demo_role "Allow" "rate_limits:write")];
  rt_assignments := [(UAlice, UNil, "team", Some UNil)]; rt_members := [(UNil, UKey1)]; rt_team_roles := [] |}.
Definition manager : AuthUser demo_uuid :=
  {| au_claims := demo_token "access" 0; au_ip := None; au_user_agent := None;
     au_permissions := ["rate_limits:write"]; au_denied_permissions := [] |}.
Definition manager_world : limit_world demo_uuid json hstore := {|
  lw_core := {| kw_calls := 0;
                kw_db := {| kd_keys := []; kd_users := []; kd_rbac := manager_tables;
                            kd_limits := {| lt_rules := []; lt_caps := [] |}; kd_credentials := [] |};
                kw_redis := hs_empty; kw_audit := [] |};
  lw_published := [] |}.
Definition hourly (reason : string) : UpsertRuleRequest :=
  {| rq_surface := "ai_gateway"; rq_metric := "requests"; rq_window_secs := 3600; rq_max_count := 100; rq_enabled := true;
     rq_expires_at := Some (7 * day_ms); rq_reason := Some reason |}.
Abbreviation demo_limit_call := (run_limit_call (V := json) (St := hstore) demo_net slowing (fun _ => UNil) dec_of_Z "down" manager).
Abbreviation demo_bulk := (bulk_apply_rule (V := json) (St := hstore) demo_net slowing (fun _ => UNil) dec_of_Z "down" manager).
Definition subject (kind : string) (id : demo_uuid) : SubjectRef demo_uuid := {| sr_kind := kind; sr_id := id |}.

Lemma limits_written_in_scope_witness :
  let w' := demo_limit_call (UpsertRuleCall "user" UKey1 (hourly "launch")) manager_world in
  length (lt_rules (kd_limits (kw_db (lw_core w')))) = 1%nat /\ lw_published w' = [("limits:changed", "reload")] /\
  lt_rules (kd_limits (kw_db (lw_core (demo_limit_call (UpsertRuleCall "user" UAlice (hourly "launch")) manager_world)))) = [] /\
  kw_db (lw_core w') = set_limits (kd_limits (kw_db (lw_core w'))) (kw_db (lw_core manager_world)).
Proof.
  split_and!; [vm_compute; reflexivity..|].
  refine (proj1 (limits_written_in_scope demo_net slowing (fun _ => UNil) dec_of_Z "down" manager
                   (UpsertRuleCall "user" UKey1 (hourly "launch")) manager_world _)).
  split; constructor.
Defined.

Lemma bulk_outcomes_account_witness :
  exists w' r, demo_bulk [subject "user" UKey1; subject "api_key" UNil; subject "user" UAlice] (hourly "launch") manager_world = (w', Ok r) /\
    accounts (rule_there (kd_limits (kw_db (lw_core w')))) [subject "user" UKey1; subject "api_key" UNil; subject "user" UAlice]
      (br_outcomes r) (br_success_count r) (br_error_count r).
Proof.
  apply (proj1 (bulk_outcomes_account demo_net slowing (fun _ => UNil) dec_of_Z "down" manager
           [subject "user" UKey1; subject "api_key" UNil; subject "user" UAlice] manager_world
           ltac:(vm_compute; reflexivity) ltac:(done) ltac:(simpl; lia))).
  - by eexists.
  - by eexists.
  - vm_compute. reflexivity.
Defined.

(** A bulk call takes no key by its id: the kind must be the stored one. *)
Lemma bulk_takes_no_key_id {U V St : Type} `{Uuid U, EqDecision U, EqDecision V, JsonValue V, Redis St, RedisKV St, Calendar}
    net unreachable put audit (a : AuthUser U) (id : U) b (w : limit_world U V St) :
  bulk_target net unreachable RateLimitSubject.parse put audit a {| sr_kind := "api_key"; sr_id := id |} b w =
  (w, Ok (bulk_push false {| bo_subject_kind := "api_key"; bo_subject_id := id; bo_row_id := None;
                             bo_error := Some "Unknown subject kind 'api_key'" |} b)).
Proof. reflexivity. Qed.

(** 251 characters of two bytes are too long a reason. *)
Lemma reason_counts_bytes : let reason := String.concat "" (replicate 251 "é") in
  chars_count reason = 251%nat /\
  validate_override_meta 0 None (Some reason) = Err (BadRequest "reason must be at most 500 characters").
Proof. split; vm_compute; reflexivity. Qed.
