(* ===== verification/AdminDb.v ===== *)
(** * Users, roles and teams: the tables and the statements on them

    The repositories of the administration, [crates/server/src/services/user_repository.rs],
    [role_repository.rs], [team_repository.rs] and [rbac_service.rs], over the tables they share;
    transactions; and the invalidation of cached permissions
    ([crates/server/src/middleware/auth_guard.rs]).  A table is the list of its rows in some
    order; text columns are ordered byte by byte. *)

From Stdlib Require Import Ascii.
From stdpp Require Import sorting.
From S2P Require Import Prelude Interfaces LimitTypes LimitStore Policy Constraints GatewayDeps Text Glob Sliding Effects AuditRow ExpiringKeys Validation Lockout Login Sessions Rbac Scope McpCache ApiKeys.

(** ** Rows *)

Record role_row {U V : Type} := {
  ro_id : U; ro_name : string; ro_description : option string; ro_is_system : bool; ro_document : V;
  ro_created_by : option U; ro_created_at : Z; ro_updated_at : Z;
}.
Record assignment_row {U : Type} := {
  as_user : U; as_role : U; as_kind : string; as_scope : option U; as_by : option U; as_at : Z;
}.
Record Team {U : Type} := { te_id : U; te_name : string; te_description : option string; te_created_at : Z }.
Record member_row {U : Type} := { me_team : U; me_user : U; me_joined_at : Z }.
Record team_role_row {U : Type} := { tr_team : U; tr_role : U; tr_by : option U; tr_at : Z }.
#[global] Arguments role_row : clear implicits.
#[global] Arguments assignment_row : clear implicits.
#[global] Arguments Team : clear implicits.
#[global] Arguments member_row : clear implicits.
#[global] Arguments team_role_row : clear implicits.

Record admin_db {U V : Type} := {
  ad_users : list (User U);
  ad_roles : list (role_row U V);
  ad_assignments : list (assignment_row U);
  ad_teams : list (Team U);
  ad_members : list (member_row U);
  ad_team_roles : list (team_role_row U);
  ad_keys : list (ApiKey U V);
}.
#[global] Arguments admin_db : clear implicits.

(** The Redis keys, the cached tool responses and the audit log beside the database. *)
Record admin_world {U V St : Type} := {
  mw_calls : nat;
  mw_db : admin_db U V;
  mw_keys : St;
  mw_cache : cache_redis;
  mw_audit : list AuditEntry;
}.
#[global] Arguments admin_world : clear implicits.

(** What the handlers use that is not theirs: how the calls go and when, the ids of new rows, the
    Redis of the response cache, hashing, settings, serde, [ILIKE]. *)
Record admin_env {U V : Type} := {
  en_net : nat -> link;
  en_clock : nat -> Z;
  en_fresh : nat -> U;
  en_slot : string -> Z;
  en_cache_net : nat -> bool;
  en_clustered : bool;
  en_scan : string -> gmap string string -> list (result unit string);
  en_hash_password : string -> result AppError string;
  en_refresh_ttl_days : Z;
  en_json_len : V -> Z;
  en_policy_from_value : V -> result string (PolicyDocument V);
  en_decode_constraints : V -> result string PolicyConstraints;
  en_parse_json : string -> option V;
  en_ilike : string -> string -> bool;
  en_rfc3339 : Z -> string;
}.
#[global] Arguments admin_env : clear implicits.

(** What a statement can fail with: a constraint by its name, another refusal, a lost connection. *)
Inductive db_failure := UniqueViolation (constraint : string) | ForeignKeyViolation (constraint : string) | Refused | Lost.
Definition of_db (e : db_failure) : AppError :=
  match e with UniqueViolation _ => unique_violation | Lost => db_unavailable | _ => db_error end.

Definition sort_by {A} (le : A -> A -> bool) : list A -> list A :=
  merge_sort (fun a b => le a b = true) (H := fun a b => decide (le a b = true)).

Section Admin.
Context {U V St : Type} `{Uuid U, !CacheText U, EqDecision U, EqDecision V, JsonValue V, ExpiringKeys St}.
Context (E : admin_env U V).
Abbreviation W := (admin_world U V St).
Abbreviation DB := (admin_db U V).
Implicit Types (d : admin_db U V) (w : W).

(** The tables as the permission checks read them. *)
Definition rbac_of d : rbac_tables U V :=
  {| rt_roles := (fun r => (ro_id r, ro_name r, ro_document r)) <$> ad_roles d;
     rt_assignments := (fun a => (as_user a, as_role a, as_kind a, as_scope a)) <$> ad_assignments d;
     rt_members := (fun m => (me_team m, me_user m)) <$> ad_members d;
     rt_team_roles := (fun t => (tr_team t, tr_role t)) <$> ad_team_roles d |}.

Definition set_users us d : DB :=
  {| ad_users := us; ad_roles := ad_roles d; ad_assignments := ad_assignments d; ad_teams := ad_teams d;
     ad_members := ad_members d; ad_team_roles := ad_team_roles d; ad_keys := ad_keys d |}.
Definition set_roles rs d : DB :=
  {| ad_users := ad_users d; ad_roles := rs; ad_assignments := ad_assignments d; ad_teams := ad_teams d;
     ad_members := ad_members d; ad_team_roles := ad_team_roles d; ad_keys := ad_keys d |}.
Definition set_assignments l d : DB :=
  {| ad_users := ad_users d; ad_roles := ad_roles d; ad_assignments := l; ad_teams := ad_teams d;
     ad_members := ad_members d; ad_team_roles := ad_team_roles d; ad_keys := ad_keys d |}.
Definition set_teams ts d : DB :=
  {| ad_users := ad_users d; ad_roles := ad_roles d; ad_assignments := ad_assignments d; ad_teams := ts;
     ad_members := ad_members d; ad_team_roles := ad_team_roles d; ad_keys := ad_keys d |}.
Definition set_members ms d : DB :=
  {| ad_users := ad_users d; ad_roles := ad_roles d; ad_assignments := ad_assignments d; ad_teams := ad_teams d;
     ad_members := ms; ad_team_roles := ad_team_roles d; ad_keys := ad_keys d |}.
Definition set_team_roles l d : DB :=
  {| ad_users := ad_users d; ad_roles := ad_roles d; ad_assignments := ad_assignments d; ad_teams := ad_teams d;
     ad_members := ad_members d; ad_team_roles := l; ad_keys := ad_keys d |}.
Definition set_ad_keys ks d : DB :=
  {| ad_users := ad_users d; ad_roles := ad_roles d; ad_assignments := ad_assignments d; ad_teams := ad_teams d;
     ad_members := ad_members d; ad_team_roles := ad_team_roles d; ad_keys := ks |}.

(** ** Steps *)

Definition at_call (n : nat) d w : W :=
  {| mw_calls := n; mw_db := d; mw_keys := mw_keys w; mw_cache := mw_cache w; mw_audit := mw_audit w |}.

(** One statement, at the time it reaches the database (in a transaction, [now()] is the time of
    its start); [n] is the call's number. *)
Definition stmt {A} (q : nat -> Z -> DB -> DB * result db_failure A) : io W db_failure A := fun w =>
  let n := mw_calls w in
  match en_net E n with
  | LinkOk => let '(d, r) := q n (en_clock E n) (mw_db w) in (at_call (S n) d w, r)
  | LinkDown => (at_call (S n) (mw_db w) w, Err Lost)
  | ReplyLost => (at_call (S n) (q n (en_clock E n) (mw_db w)).1 w, Err Lost)
  end.
Definition fetch {A} (q : DB -> A) : io W db_failure A := stmt (fun _ _ d => (d, Ok (q d))).
Definition exec (q : Z -> DB -> DB) : io W db_failure unit := stmt (fun _ t d => (q t d, Ok tt)).
(** [?] on a statement. *)
Definition db {A} (p : io W db_failure A) : io W AppError A := fun w =>
  let '(w, r) := p w in (w, match r with Ok a => Ok a | Err e => Err (of_db e) end).
(** [.unwrap_or(x)]. *)
Definition db_or {A} (x : A) (p : io W db_failure A) : io W AppError A := fun w =>
  let '(w, r) := p w in (w, Ok (match r with Ok a => a | Err _ => x end)).

(** [begin] .. [commit]: an error on the way rolls back. *)
Definition transaction {A} (body : io W AppError A) : io W AppError A := fun w =>
  let d := mw_db w in
  let n := mw_calls w in
  match en_net E n with
  | LinkOk =>
      let '(w, r) := body (at_call (S n) d w) in
      match r with
      | Err e => (at_call (mw_calls w) d w, Err e)
      | Ok a =>
          let n := mw_calls w in
          match en_net E n with
          | LinkOk => (at_call (S n) (mw_db w) w, Ok a)
          | LinkDown => (at_call (S n) d w, Err db_unavailable)
          | ReplyLost => (at_call (S n) (mw_db w) w, Err db_unavailable)
          end
      end
  | _ => (at_call (S n) d w, Err db_unavailable)
  end.

(** Steps on the Redis keys, as the session code takes them. *)
Definition on_auth {A} (p : io (auth_world St U) AppError A) : io W AppError A := fun w =>
  let '(a, r) := p {| aw_calls := mw_calls w; aw_keys := mw_keys w; aw_users := ad_users (mw_db w); aw_audit := mw_audit w |} in
  ({| mw_calls := aw_calls a; mw_db := set_users (aw_users a) (mw_db w); mw_keys := aw_keys a; mw_cache := mw_cache w;
      mw_audit := aw_audit a |}, r).
Definition redis_del (key : string) : io W AppError unit := on_auth (del (en_net E) (en_clock E) key).
Definition log_entry (e : AuditEntry) : io W AppError unit := on_auth (log_audit e).

(** [invalidate_user_lane_all_servers] of the tools' response cache. *)
Definition invalidate_cache_lane (user : U) : io W AppError unit := fun w =>
  ({| mw_calls := mw_calls w; mw_db := mw_db w; mw_keys := mw_keys w;
      mw_cache := (invalidate_user_lane_all_servers (en_slot E) (en_cache_net E) (en_clustered E) (en_scan E) user (mw_cache w)).1;
      mw_audit := mw_audit w |}, Ok tt).

(** ** The permission checks *)

(** One scope query. *)
Definition scope_query {A} (f : link -> rbac_tables U V -> result AppError A) : io W AppError A := fun w =>
  let n := mw_calls w in (at_call (S n) (mw_db w) w, f (en_net E n) (rbac_of (mw_db w))).
Definition global_permission (a : AuthUser U) (perm : string) : io W AppError unit :=
  _ ← lift (require_permission a perm); scope_query (fun q T => assert_scope_global a q T perm).
Definition scope_for_user (a : AuthUser U) (perm : string) (user : U) : io W AppError unit :=
  scope_query (fun q T => assert_scope_for_user a q T perm user).
Definition scope_for_team (a : AuthUser U) (perm : string) (team : U) : io W AppError unit :=
  scope_query (fun q T => assert_scope_for_team a q T perm team).
(** Two queries at most, the request's memo being empty. *)
Definition owned_teams (a : AuthUser U) (perm : string) : io W AppError (option (list U)) := fun w =>
  let n := mw_calls w in
  (at_call (S (S n)) (mw_db w) w,
   (owned_team_scope_for_perm a (en_net E n) (en_net E (S n)) (rbac_of (mw_db w)) perm ∅).2).

(** ** Roles *)

(** A row with its creator's email: id, name, description, system, document, email, created,
    updated. *)
Definition RoleRow : Type := U * string * option string * bool * V * option string * Z * Z.
Definition email_of d (u : option U) : option string :=
  u ≫= fun u => us_email <$> head (filter (fun x => us_id x = u) (ad_users d)).
Definition role_select d (r : role_row U V) : RoleRow :=
  (ro_id r, ro_name r, ro_description r, ro_is_system r, ro_document r, email_of d (ro_created_by r),
   ro_created_at r, ro_updated_at r).
Definition system_first (sys1 sys2 : bool) (name1 name2 : string) : bool :=
  if bool_decide (sys1 = sys2) then text_le name1 name2 else sys1.
Definition find_role d (id : U) : option (role_row U V) := head (filter (fun r => ro_id r = id) (ad_roles d)).

Definition policy_documents : io W db_failure (list (string * V)) :=
  fetch (fun d => (fun r => (ro_name r, ro_document r)) <$> ad_roles d).
Definition role_list : io W AppError (list RoleRow) :=
  db (fetch (fun d => role_select d <$>
    sort_by (fun a b => system_first (ro_is_system a) (ro_is_system b) (ro_name a) (ro_name b)) (ad_roles d))).
(** No row is an error of [fetch_one]. *)
Definition role_get (id : U) : io W AppError RoleRow :=
  db (stmt (fun _ _ d => (d, match find_role d id with Some r => Ok (role_select d r) | None => Err Refused end))).
Definition find_kind (id : U) : io W AppError (option (bool * string)) :=
  db (fetch (fun d => (fun r => (ro_is_system r, ro_name r)) <$> find_role d id)).
Definition role_exists (id : U) : io W AppError bool := db (fetch (fun d => bool_decide (is_Some (find_role d id)))).
Definition names_of (ids : list U) : io W AppError (list string) :=
  db (fetch (fun d => ro_name <$> filter (fun r => ro_id r ∈ ids) (ad_roles d))).

(** What the table refuses of a role, beside the [others]. *)
Definition role_refused (r : role_row U V) (others : list (role_row U V)) : option db_failure :=
  if (100 <? chars_count (ro_name r))%nat then Some Refused
  else if bool_decide (ro_id r ∈ ro_id <$> others) then Some (UniqueViolation "rbac_roles_pkey")
  else if bool_decide (ro_name r ∈ ro_name <$> others) then Some (UniqueViolation "rbac_roles_name_key")
  else None.
Definition role_insert (name : string) (description : option string) (document : V) (created_by : U) : io W db_failure RoleRow :=
  stmt (fun n t d =>
    let r := {| ro_id := en_fresh E n; ro_name := name; ro_description := description; ro_is_system := false;
                ro_document := document; ro_created_by := Some created_by; ro_created_at := t; ro_updated_at := t |} in
    match role_refused r (ad_roles d) with
    | Some e => (d, Err e)
    | None => (set_roles (ad_roles d ++ [r]) d, Ok (role_select d r))
    end).
Definition patch_role (t : Z) (name : option string) (description : option string) (document : option V)
    (description_set : bool) (r : role_row U V) : role_row U V :=
  {| ro_id := ro_id r; ro_name := default (ro_name r) name;
     ro_description := if description_set then description else ro_description r; ro_is_system := ro_is_system r;
     ro_document := default (ro_document r) document; ro_created_by := ro_created_by r;
     ro_created_at := ro_created_at r; ro_updated_at := t |}.
Definition update_roles (id : U) (f : role_row U V -> role_row U V) d : DB * result db_failure unit :=
  match find_role d id with
  | None => (d, Ok tt)
  | Some r =>
      match role_refused (f r) (filter (fun r => ro_id r <> id) (ad_roles d)) with
      | Some e => (d, Err e)
      | None => (set_roles ((fun r => if decide (ro_id r = id) then f r else r) <$> ad_roles d) d, Ok tt)
      end
  end.
Definition role_update (id : U) (name description : option string) (document : option V) (description_set : bool)
    : io W AppError unit :=
  db (stmt (fun _ t => update_roles id (patch_role t name description document description_set))).
Definition set_policy_document (id : U) (document : V) : io W AppError unit :=
  db (stmt (fun _ t => update_roles id (patch_role t None None (Some document) false))).

(** The assignments of a role, to users and to teams, go with it. *)
Definition delete_custom (id : U) : io W AppError unit :=
  db (exec (fun _ d =>
    let gone := filter (fun r => ro_id r = id /\ ro_is_system r = false) (ad_roles d) in
    set_team_roles (filter (fun t => tr_role t ∉ ro_id <$> gone) (ad_team_roles d))
      (set_assignments (filter (fun a => as_role a ∉ ro_id <$> gone) (ad_assignments d))
        (set_roles (filter (fun r => ~ (ro_id r = id /\ ro_is_system r = false)) (ad_roles d)) d)))).

Definition assignments_to (id : U) d : list (assignment_row U) := filter (fun a => as_role a = id) (ad_assignments d).
Definition assignment_counts (ids : list U) : io W AppError (list (U * Z)) :=
  db (fetch (fun d => omap (fun id => let c := length (assignments_to id d) in
    if (c =? 0)%nat then None else Some (id, Z.of_nat c)) (remove_dups ids))).
Definition assignment_count (id : U) : io W db_failure Z := fetch (fun d => Z.of_nat (length (assignments_to id d))).

(** id, email, display name, scope kind, scope id, assigned. *)
Definition RoleMemberRow : Type := U * string * string * string * option U * Z.
Definition role_members (id : U) : io W AppError (list RoleMemberRow) :=
  db (fetch (fun d => (fun p : assignment_row U * User U =>
      (us_id p.2, us_email p.2, us_display_name p.2, as_kind p.1, as_scope p.1, as_at p.1)) <$>
    sort_by (fun p q : assignment_row U * User U => text_le (us_email p.2) (us_email q.2))
      (a ← assignments_to id d; u ← filter (fun u => us_id u = as_user a) (ad_users d); [(a, u)]))).

(** [ON CONFLICT DO NOTHING], row by row. *)
Definition assignment_key (a : assignment_row U) : U * U * string * option U := (as_user a, as_role a, as_kind a, as_scope a).
Definition add_assignment (l : list (assignment_row U)) (a : assignment_row U) : list (assignment_row U) :=
  if bool_decide (assignment_key a ∈ assignment_key <$> l) then l else l ++ [a].
Definition copy_assignments (from to : U) (assigned_by : U) : io W AppError unit :=
  db (exec (fun t d => set_assignments (foldl add_assignment (ad_assignments d)
    ((fun a => {| as_user := as_user a; as_role := to; as_kind := as_kind a; as_scope := as_scope a;
                  as_by := Some assigned_by; as_at := t |}) <$> assignments_to from d)) d)).
Definition delete_assignments (id : U) : io W AppError unit :=
  db (exec (fun _ d => set_assignments (filter (fun a => as_role a <> id) (ad_assignments d)) d)).

(** ** Teams *)

Record TeamWithCount := { tc_team : Team U; tc_member_count : Z }.
Definition members_of (team : U) d : list (member_row U) := filter (fun m => me_team m = team) (ad_members d).
Definition teams_with (user : U) d : list (member_row U) := filter (fun m => me_user m = user) (ad_members d).
Definition in_team d (user team : U) : bool := bool_decide ((team, user) ∈ (fun m => (me_team m, me_user m)) <$> ad_members d).
Definition with_count d (t : Team U) : TeamWithCount :=
  {| tc_team := t; tc_member_count := Z.of_nat (length (members_of (te_id t) d)) |}.
Definition by_team_name (a b : Team U) : bool := text_le (te_name a) (te_name b).
Definition find_team d (id : U) : option (Team U) := head (filter (fun t => te_id t = id) (ad_teams d)).

Definition team_list : io W AppError (list TeamWithCount) :=
  db (fetch (fun d => with_count d <$> sort_by by_team_name (ad_teams d))).
Definition list_for_member_or_in (user : U) (team_ids : list U) : io W AppError (list TeamWithCount) :=
  db (fetch (fun d => with_count d <$> sort_by by_team_name
    (filter (fun t => in_team d user (te_id t) = true \/ te_id t ∈ team_ids) (ad_teams d)))).
Definition find_with_count (id : U) : io W AppError (option TeamWithCount) :=
  db (fetch (fun d => with_count d <$> find_team d id)).
Definition team_find (id : U) : io W AppError (option (Team U)) := db (fetch (fun d => find_team d id)).
Definition team_name_of (id : U) : io W AppError (option string) := db (fetch (fun d => te_name <$> find_team d id)).

Definition team_refused (t : Team U) (others : list (Team U)) : option db_failure :=
  if (255 <? chars_count (te_name t))%nat then Some Refused
  else if bool_decide (te_id t ∈ te_id <$> others) then Some (UniqueViolation "teams_pkey")
  else if bool_decide (te_name t ∈ te_name <$> others) then Some (UniqueViolation "teams_name_key")
  else None.
Definition team_insert (name : string) (description : option string) : io W db_failure (Team U) :=
  stmt (fun n t d =>
    let row := {| te_id := en_fresh E n; te_name := name; te_description := description; te_created_at := t |} in
    match team_refused row (ad_teams d) with
    | Some e => (d, Err e)
    | None => (set_teams (ad_teams d ++ [row]) d, Ok row)
    end).
Definition team_update (id : U) (name : string) (description : option string) : io W db_failure (Team U) :=
  stmt (fun _ _ d =>
    match find_team d id with
    | None => (d, Err Refused)
    | Some old =>
        let row := {| te_id := te_id old; te_name := name; te_description := description; te_created_at := te_created_at old |} in
        match team_refused row (filter (fun t => te_id t <> id) (ad_teams d)) with
        | Some e => (d, Err e)
        | None => (set_teams ((fun t => if decide (te_id t = id) then row else t) <$> ad_teams d) d, Ok row)
        end
    end).
(** Memberships, roles of the team and assignments scoped to it go with it. *)
Definition team_delete (id : U) : io W AppError unit :=
  db (exec (fun _ d =>
    set_members (filter (fun m => me_team m <> id) (ad_members d))
      (set_team_roles (filter (fun t => tr_team t <> id) (ad_team_roles d))
        (set_assignments (filter (fun a => as_scope a <> Some id) (ad_assignments d))
          (set_teams (filter (fun t => te_id t <> id) (ad_teams d)) d))))).

Definition is_member (user team : U) : io W db_failure bool := fetch (fun d => in_team d user team).
Definition live_user (u : User U) : bool := bool_decide (us_deleted_at u = None).
(** id, email, display name, joined. *)
Definition TeamMemberTuple : Type := U * string * string * Z.
Definition team_members (team : U) : io W AppError (list TeamMemberTuple) :=
  db (fetch (fun d => (fun p : member_row U * User U => (us_id p.2, us_email p.2, us_display_name p.2, me_joined_at p.1)) <$>
    sort_by (fun p q : member_row U * User U => me_joined_at p.1 <=? me_joined_at q.1)
      (m ← members_of team d; u ← filter (fun u => us_id u = me_user m /\ live_user u = true) (ad_users d); [(m, u)]))).

Definition capped_insert (user team : U) (max_teams t : Z) d : DB * result db_failure nat :=
  if negb (Z.of_nat (length (teams_with user d)) <? max_teams) then (d, Ok 0%nat)
  else if in_team d user team then (d, Ok 0%nat)
  else if negb (bool_decide (is_Some (find_team d team)) && bool_decide (user ∈ us_id <$> ad_users d))
  then (d, Err (ForeignKeyViolation "team_members"))
  else (set_members (ad_members d ++ [{| me_team := team; me_user := user; me_joined_at := t |}]) d, Ok 1%nat).
Definition add_member_capped (user team : U) (max_teams : Z) : io W AppError nat :=
  db (stmt (fun _ t => capped_insert user team max_teams t)).
Definition remove_member_row (team user : U) : io W AppError nat :=
  db (stmt (fun _ _ d =>
    let hit m := me_team m = team /\ me_user m = user in
    (set_members (filter (fun m => ~ hit m) (ad_members d)) d, Ok (length (filter hit (ad_members d)))))).

Record TeamRoleRow := { trr_role_id : U; trr_name : string; trr_is_system : bool; trr_assigned_at : Z }.
Definition team_roles (team : U) : io W AppError (list TeamRoleRow) :=
  db (fetch (fun d => sort_by (fun a b => system_first (trr_is_system a) (trr_is_system b) (trr_name a) (trr_name b))
    (t ← filter (fun t => tr_team t = team) (ad_team_roles d);
     r ← filter (fun r => ro_id r = tr_role t) (ad_roles d);
     [{| trr_role_id := tr_role t; trr_name := ro_name r; trr_is_system := ro_is_system r; trr_assigned_at := tr_at t |}]))).
Definition assign_role (team role assigned_by : U) : io W AppError unit :=
  db (stmt (fun _ t d =>
    if bool_decide ((team, role) ∈ (fun x => (tr_team x, tr_role x)) <$> ad_team_roles d) then (d, Ok tt)
    else if negb (bool_decide (is_Some (find_team d team)) && bool_decide (is_Some (find_role d role)))
    then (d, Err (ForeignKeyViolation "team_role_assignments"))
    else (set_team_roles (ad_team_roles d ++ [{| tr_team := team; tr_role := role; tr_by := Some assigned_by; tr_at := t |}]) d, Ok tt))).
Definition remove_role (team role : U) : io W AppError unit :=
  db (exec (fun _ d => set_team_roles (filter (fun t => ~ (tr_team t = team /\ tr_role t = role)) (ad_team_roles d)) d)).

(** ** Users *)

Definition matches_search (search : option string) (u : User U) : bool :=
  match search with None => true | Some p => en_ilike E p (us_email u) || en_ilike E p (us_display_name u) end.
Definition user_page (limit offset : Z) (us : list (User U)) : list (User U) :=
  take (Z.to_nat limit) (drop (Z.to_nat offset) (sort_by (fun a b => us_created_at b <=? us_created_at a) us)).
(** Two statements: the count, then the page. *)
Definition counted_page (P : DB -> User U -> bool) (limit offset : Z) : io W AppError (Z * list (User U)) :=
  total ← db (fetch (fun d => Z.of_nat (length (filter (fun u => P d u = true) (ad_users d)))));
  users ← db (fetch (fun d => user_page limit offset (filter (fun u => P d u = true) (ad_users d))));
  mret (total, users).
Definition user_list (search : option string) (limit offset : Z) : io W AppError (Z * list (User U)) :=
  counted_page (fun _ u => live_user u && matches_search search u) limit offset.
Definition seen_by (caller : U) (team_ids : list U) d (u : User U) : bool :=
  bool_decide (us_id u = caller) || existsb (fun m => bool_decide (me_user m = us_id u) && bool_decide (me_team m ∈ team_ids)) (ad_members d).
Definition list_in_teams (caller : U) (team_ids : list U) (search : option string) (limit offset : Z)
    : io W AppError (Z * list (User U)) :=
  counted_page (fun d u => live_user u && matches_search search u && seen_by caller team_ids d u) limit offset.

(** user, role, name, system, scope kind, scope id. *)
Definition UserAssignmentRow : Type := U * U * string * bool * string * option U.
Definition role_assignments_of (ids : list U) : io W db_failure (list UserAssignmentRow) :=
  fetch (fun d => sort_by (fun a b : UserAssignmentRow => system_first a.1.1.2 b.1.1.2 a.1.1.1.2 b.1.1.1.2)
    (a ← filter (fun a => as_user a ∈ ids) (ad_assignments d);
     r ← filter (fun r => ro_id r = as_role a) (ad_roles d);
     [(as_user a, ro_id r, ro_name r, ro_is_system r, as_kind a, as_scope a)])).
Definition user_teams_of (ids : list U) : io W db_failure (list (U * U * string)) :=
  fetch (fun d => sort_by (fun a b : U * U * string => text_le a.2 b.2)
    (m ← filter (fun m => me_user m ∈ ids) (ad_members d);
     t ← filter (fun t => te_id t = me_team m) (ad_teams d);
     [(me_user m, te_id t, te_name t)])).

Definition email_taken (email : string) : io W AppError bool :=
  db (fetch (fun d => bool_decide (email ∈ us_email <$> ad_users d))).
(** Addresses are unique, whatever their case. *)
Definition user_insert (email display_name password_hash : string) (password_change_required : bool) : io W AppError (User U) :=
  db (stmt (fun n t d =>
    let u := {| us_id := en_fresh E n; us_email := email; us_display_name := display_name; us_password_hash := Some password_hash;
                us_oidc_subject := None; us_oidc_issuer := None; us_avatar_url := None; us_is_active := true;
                us_totp_secret := None; us_totp_enabled := false; us_totp_recovery_codes := None;
                us_password_change_required := password_change_required; us_created_at := t; us_updated_at := t;
                us_deleted_at := None |} in
    if (255 <? chars_count email)%nat || (255 <? chars_count display_name)%nat then (d, Err Refused)
    else if bool_decide (us_id u ∈ us_id <$> ad_users d) then (d, Err (UniqueViolation "users_pkey"))
    else if bool_decide (to_ascii_lowercase email ∈ (fun u => to_ascii_lowercase (us_email u)) <$> ad_users d)
    then (d, Err (UniqueViolation "users_email_key"))
    else (set_users (ad_users d ++ [u]) d, Ok u))).
Definition user_exists (id : U) : io W AppError bool :=
  db (fetch (fun d => existsb (fun u => bool_decide (us_id u = id) && live_user u) (ad_users d))).
Definition active_exists (id : U) : io W AppError bool :=
  db (fetch (fun d => existsb (fun u => bool_decide (us_id u = id) && us_is_active u && live_user u) (ad_users d))).

(** A row with its name, password, activity, flag of a password to change and deletion replaced. *)
Definition with_user (t : Z) (name : string) (hash : option string) (active change : bool) (deleted : option Z) (u : User U) : User U :=
  {| us_id := us_id u; us_email := us_email u; us_display_name := name; us_password_hash := hash;
     us_oidc_subject := us_oidc_subject u; us_oidc_issuer := us_oidc_issuer u; us_avatar_url := us_avatar_url u;
     us_is_active := active; us_totp_secret := us_totp_secret u; us_totp_enabled := us_totp_enabled u;
     us_totp_recovery_codes := us_totp_recovery_codes u; us_password_change_required := change;
     us_created_at := us_created_at u; us_updated_at := t; us_deleted_at := deleted |}.
Definition update_user_row (id : U) (f : User U -> User U) d : DB :=
  set_users ((fun u => if decide (us_id u = id) then f u else u) <$> ad_users d) d.
Definition set_display_name (id : U) (name : string) : io W AppError unit :=
  db (stmt (fun _ t d =>
    if (255 <? chars_count name)%nat && bool_decide (id ∈ us_id <$> ad_users d) then (d, Err Refused)
    else (update_user_row id (fun u => with_user t name (us_password_hash u) (us_is_active u) (us_password_change_required u) (us_deleted_at u) u) d, Ok tt))).
Definition set_active (id : U) (active : bool) : io W AppError unit :=
  db (exec (fun t => update_user_row id (fun u =>
    with_user t (us_display_name u) (us_password_hash u) active (us_password_change_required u) (us_deleted_at u) u))).
Definition update_password_hash (id : U) (hash : string) (force_change : bool) : io W AppError unit :=
  db (exec (fun t => update_user_row id (fun u =>
    with_user t (us_display_name u) (Some hash) (us_is_active u) force_change (us_deleted_at u) u))).
Definition soft_delete (id : U) : io W AppError nat :=
  db (stmt (fun _ t d =>
    let hit u := bool_decide (us_id u = id) && live_user u in
    let '(us, hits) := update_where hit (fun u =>
      with_user t (us_display_name u) (us_password_hash u) false (us_password_change_required u) (Some t) u) (ad_users d) in
    (set_users us d, Ok (length hits)))).
Definition keys_follow (reason : string) (user : U) : io W db_failure unit :=
  exec (fun t d => set_ad_keys (update_where (owned_live user) (cascade reason t) (ad_keys d)).1 d).

Definition delete_role_assignments (user : U) : io W AppError unit :=
  db (exec (fun _ d => set_assignments (filter (fun a => as_user a <> user) (ad_assignments d)) d)).
Definition insert_role_assignment (user role : U) (kind : string) (scope : option U) (assigned_by : U)
    : io W db_failure (option (string * bool)) :=
  stmt (fun _ t d =>
    let a := {| as_user := user; as_role := role; as_kind := kind; as_scope := scope; as_by := Some assigned_by; as_at := t |} in
    if bool_decide (assignment_key a ∈ assignment_key <$> ad_assignments d)
    then (d, Ok ((fun r => (ro_name r, ro_is_system r)) <$> find_role d role))
    else match find_role d role with
         | None => (d, Err (ForeignKeyViolation "rbac_role_assignments_role_id_fkey"))
         | Some r =>
             if match scope with Some team => bool_decide (find_team d team = None) | None => false end
             then (d, Err (ForeignKeyViolation "rbac_role_assignments_scope_id_fkey"))
             else (set_assignments (ad_assignments d ++ [a]) d, Ok (Some (ro_name r, ro_is_system r)))
         end).

(** ** The super admins *)

(** A role of this name, held directly in any scope or through a team. *)
Definition holds_role_named d (name : string) (user : U) : bool :=
  existsb (fun r => bool_decide (ro_name r = name) &&
    (existsb (fun a => bool_decide (as_role a = ro_id r) && bool_decide (as_user a = user)) (ad_assignments d) ||
     existsb (fun t => bool_decide (tr_role t = ro_id r) && in_team d user (tr_team t)) (ad_team_roles d))) (ad_roles d).
Definition super_admins d : list U :=
  remove_dups (us_id <$> filter (fun u => (us_is_active u && live_user u && holds_role_named d "super_admin" (us_id u)) = true) (ad_users d)).
Definition super_admin_ids : io W AppError (list U) := db (fetch super_admins).
(** The lock orders transactions; in one of them it only takes a call. *)
Definition acquire_super_admin_guard_lock : io W AppError unit := db (fetch (fun _ => tt)).
Definition assert_super_admin_quorum : io W AppError unit :=
  count ← db (fetch (fun d => length (super_admins d)));
  if (count =? 0)%nat
  then throw (BadRequest "Operation would leave the platform with zero active super admins. Add another super admin (directly or via a team role) before continuing.")
  else mret tt.

(** ** Cached permissions *)

Definition perms_key (user : U) : string := "user_perms:" +:+ uuid_str user.
Definition invalidate_user_perms (user : U) : io W AppError unit := redis_del (perms_key user).
Fixpoint invalidate_users (users : list U) : io W AppError unit :=
  match users with [] => mret tt | u :: users => _ ← invalidate_user_perms u; invalidate_users users end.
Definition invalidate_role_perms (role : U) : io W AppError unit :=
  direct ← db_or [] (fetch (fun d => remove_dups (as_user <$> assignments_to role d)));
  team ← db_or [] (fetch (fun d => remove_dups
    (t ← filter (fun t => tr_role t = role) (ad_team_roles d); me_user <$> members_of (tr_team t) d)));
  invalidate_users (direct ++ team).
Definition invalidate_team_perms (team : U) : io W AppError unit :=
  members ← db_or [] (fetch (fun d => me_user <$> members_of team d));
  invalidate_users members.
End Admin.
#[global] Arguments TeamWithCount : clear implicits.
#[global] Arguments TeamRoleRow : clear implicits.
