(* ===== verification/AdminUsers.v ===== *)
(** * The handlers of [/api/admin/users]

    [crates/server/src/handlers/admin/users.rs]: listing, creating, editing and deleting users,
    replacing their roles, resetting their passwords and logging them out.  Generated passwords
    and the settings are inputs. *)
From Stdlib Require Import Ascii.
From S2P Require Import Prelude Interfaces LimitTypes LimitStore Policy Constraints Sliding Effects GatewayDeps Text AuditRow McpCache ExpiringKeys Glob Validation Lockout Login Sessions Rbac Scope ApiKeys AdminDb.

Record RoleAssignmentRequest {U : Type} := { rar_role_id : U; rar_scope : option string }.
Record RoleAssignment {U : Type} := { ras_role_id : U; ras_name : string; ras_is_system : bool; ras_scope : string }.
#[global] Arguments RoleAssignmentRequest : clear implicits.
#[global] Arguments RoleAssignment : clear implicits.

Record UserResponse {U : Type} := {
  ure_id : U; ure_email : string; ure_display_name : string; ure_avatar_url : option string; ure_is_active : bool;
  ure_oidc_subject : option string; ure_role_assignments : list (RoleAssignment U);
  ure_permissions : list string; ure_denied_permissions : list string; ure_teams : list (U * string); ure_created_at : Z;
}.
#[global] Arguments UserResponse : clear implicits.
Definition user_response {U} (u : User U) (roles : list (RoleAssignment U)) (teams : list (U * string)) : UserResponse U :=
  {| ure_id := us_id u; ure_email := us_email u; ure_display_name := us_display_name u; ure_avatar_url := us_avatar_url u;
     ure_is_active := us_is_active u; ure_oidc_subject := us_oidc_subject u; ure_role_assignments := roles;
     ure_permissions := []; ure_denied_permissions := []; ure_teams := teams; ure_created_at := us_created_at u |}.

Record ListUsersQuery := { lu_page : option Z; lu_per_page : option Z; lu_search : option string }.
Record PaginatedResponse {T : Type} := { pr_data : list T; pr_total : Z; pr_page : Z; pr_per_page : Z }.
#[global] Arguments PaginatedResponse : clear implicits.

Record CreateUserByAdminRequest {U : Type} := {
  cu_email : string; cu_display_name : string; cu_password : option string; cu_role_assignments : list (RoleAssignmentRequest U);
}.
Record UpdateUserRequest {U : Type} := {
  uu_display_name : option string; uu_is_active : option bool; uu_role_assignments : option (list (RoleAssignmentRequest U));
}.
#[global] Arguments CreateUserByAdminRequest : clear implicits.
#[global] Arguments UpdateUserRequest : clear implicits.

(** [PaginationParams]: 32-bit pages, multiplied without wrapping. *)
Definition page_size (q : ListUsersQuery) : Z := Z.min (default 20 (lu_per_page q)) 100.
Definition page_offset (q : ListUsersQuery) : Z :=
  Z.min ((Z.max (default 1 (lu_page q)) 1 - 1) * page_size q) (2 ^ 32 - 1).

(** [replace] of a character by itself after a backslash. *)
Fixpoint escape (c : ascii) (s : string) : string :=
  match s with
  | EmptyString => ""
  | String d s => if Ascii.eqb d c then String "\" (String d (escape c s)) else String d (escape c s)
  end.
Definition build_ilike_pattern (raw : string) : string :=
  "%" +:+ escape "_" (escape "%" (escape "\" raw)) +:+ "%".

Section Users.
Context {U V St : Type} `{Uuid U, !CacheText U, !UuidParse U, EqDecision U, EqDecision V, JsonValue V, ExpiringKeys St}.
Context (E : admin_env U V).
Abbreviation W := (admin_world U V St).
Implicit Types (auth_user : AuthUser U).

Definition parse_scope (input : string) : result AppError (string * option U) :=
  let trimmed := trim input in
  if bool_decide (trimmed = "global") || bool_decide (trimmed = "") then Ok ("global", None)
  else match split_once ":" trimmed with
  | Some (kind, rest) =>
      let kind := trim kind in
      if negb (bool_decide (kind = "team"))
      then Err (BadRequest ("Unknown scope kind '" +:+ kind +:+ "' (expected 'global' or 'team:<uuid>')"))
      else match uuid_parse (trim rest) with
      | None => Err (BadRequest ("Invalid UUID in scope '" +:+ input +:+ "'"))
      | Some id => Ok (kind, Some id)
      end
  | None => Err (BadRequest ("Invalid scope '" +:+ input +:+ "' (expected 'global' or 'team:<uuid>')"))
  end.

(** How a stored scope reads. *)
Definition scope_text (kind : string) (scope : option U) : string :=
  if bool_decide (kind = "global") then "global"
  else match scope with Some id => kind +:+ ":" +:+ uuid_str id | None => kind end.

(** ** Reading *)

Definition list_users auth_user (query : ListUsersQuery) : io W AppError (PaginatedResponse (UserResponse U)) :=
  _ ← lift (require_permission auth_user "users:read");
  let search_pattern := s ← lu_search query; let s := trim s in
    if bool_decide (s = "") then None else Some (build_ilike_pattern s) in
  owned ← owned_teams E auth_user "users:read";
  found ← match owned with
          | None => user_list E search_pattern (page_size query) (page_offset query)
          | Some team_ids => list_in_teams E (cl_sub (au_claims auth_user)) team_ids search_pattern (page_size query) (page_offset query)
          end;
  let '(total, users) := found in
  let answer data := {| pr_data := data; pr_total := total; pr_page := Z.max (default 1 (lu_page query)) 1; pr_per_page := page_size query |} in
  let user_ids := us_id <$> users in
  if bool_decide (user_ids = []) then mret (answer [])
  else
    rows ← db_or [] (role_assignments_of E user_ids);
    team_rows ← db_or [] (user_teams_of E user_ids);
    mret (answer ((fun u => user_response u
      ((fun r : UserAssignmentRow => {| ras_role_id := r.1.1.1.1.2; ras_name := r.1.1.1.2; ras_is_system := r.1.1.2;
                     ras_scope := scope_text r.1.2 r.2 |}) <$> filter (fun r : UserAssignmentRow => r.1.1.1.1.1 = us_id u) rows)
      ((fun t => (t.1.2, t.2)) <$> filter (fun t : U * U * string => t.1.1 = us_id u) team_rows)) <$> users)).

Definition list_super_admin_ids auth_user : io W AppError (list U) :=
  _ ← lift (require_permission auth_user "users:read"); super_admin_ids E.

(** ** Roles of a user *)

Fixpoint insert_role_assignments (user : U) (assignments : list (RoleAssignmentRequest U)) (assigned_by : U)
    : io W AppError (list (RoleAssignment U)) :=
  match assignments with
  | [] => mret []
  | a :: assignments =>
      let raw_scope := default "global" (rar_scope a) in
      let unknown := BadRequest ("Unknown role id: " +:+ uuid_str (rar_role_id a)) in
      scope ← lift (parse_scope raw_scope);
      row ← (fun w => let '(w, r) := insert_role_assignment E user (rar_role_id a) scope.1 scope.2 assigned_by w in
               (w, match r with
                   | Ok row => Ok row
                   | Err (ForeignKeyViolation "rbac_role_assignments_role_id_fkey") => Err unknown
                   | Err e => Err (of_db e)
                   end));
      meta ← lift (ok_or row unknown);
      rest ← insert_role_assignments user assignments assigned_by;
      mret ({| ras_role_id := rar_role_id a; ras_name := meta.1; ras_is_system := meta.2; ras_scope := raw_scope |} :: rest)
  end.
Definition write_user_role_assignments (user : U) (assignments : list (RoleAssignmentRequest U)) (assigned_by : U)
    : io W AppError (list (RoleAssignment U)) :=
  _ ← delete_role_assignments E user; insert_role_assignments user assignments assigned_by.

(** The roles of the caller, none when they cannot be read. *)
Definition caller_roles auth_user : io W AppError (list string) :=
  db_or [] (fetch E (fun d => load_user_role_names (rbac_of d) (cl_sub (au_claims auth_user)))).
Definition may_assign (caller_roles requested : list string) : result AppError unit :=
  let caller_has_super := bool_decide ("super_admin" ∈ caller_roles) in
  let caller_has_admin := caller_has_super || bool_decide ("admin" ∈ caller_roles) in
  foldr (fun name rest =>
    if bool_decide (name = "super_admin") && negb caller_has_super
    then Err (Forbidden "Only super_admin can assign the super_admin role")
    else if bool_decide (name = "admin") && negb caller_has_admin
    then Err (Forbidden "Only admin/super_admin can assign the admin role")
    else rest) (Ok tt) requested.

(** ** Creating *)

Definition mark_temporary_password (user : U) : io W AppError unit :=
  on_auth (t ← now (en_clock E);
           ignore (set_ex (en_net E) (en_clock E) Unauthorized (temp_password_marker_key user) (dec_of_Z (t / 1000)) TEMP_PASSWORD_TTL_SECS)).
Definition temp_expires_at : io W AppError string := fun w =>
  (w, Ok (en_rfc3339 E (en_clock E (mw_calls w) + 1000 * TEMP_PASSWORD_TTL_SECS))).
Definition user_entry auth_user (action : string) (user : U) : AuditEntry :=
  with_resource ("user:" +:+ uuid_str user) LogAudit (AuthUser_audit auth_user action).

(** The password given, or one to be changed. *)
Definition chosen_password (req : CreateUserByAdminRequest U) (generated : string) : result AppError (string * bool) :=
  match cu_password req with
  | Some p => _ ← validate_password p; Ok (p, false)
  | None => Ok (generated, true)
  end.

Definition create_user auth_user (req : CreateUserByAdminRequest U) (generated : string)
    : io W AppError (UserResponse U * option string) :=
  _ ← global_permission E auth_user "users:create";
  let email := normalize_email (cu_email req) in
  _ ← lift (validate_email email);
  password ← lift (chosen_password req generated);
  let '(raw_password, force_change) := (password : string * bool) in
  roles ← caller_roles auth_user;
  let role_ids := rar_role_id <$> cu_role_assignments req in
  requested ← names_of E role_ids;
  _ ← lift (may_assign roles requested);
  taken ← email_taken E email;
  if taken : bool then throw (Conflict "Email already registered")
  else
    password_hash ← lift (en_hash_password E raw_password);
    made ← transaction E (
      user ← user_insert E email (cu_display_name req) password_hash force_change;
      role_assignments ← write_user_role_assignments (us_id user) (cu_role_assignments req) (cl_sub (au_claims auth_user));
      mret (user, role_assignments));
    let '(user, role_assignments) := made in
    _ ← (if force_change then mark_temporary_password (us_id user) else mret tt);
    expires ← (if force_change then e ← temp_expires_at; mret (Some e) else mret None);
    _ ← log_entry (with_detail (AuditRow.JObj
          [("email", AuditRow.JStr (us_email user)); ("role_ids", AuditRow.JArr ((fun r => AuditRow.JStr (uuid_str r)) <$> role_ids));
           ("force_password_change", AuditRow.JBool force_change);
           ("temp_password_expires_at", match expires with Some e => AuditRow.JStr e | None => AuditRow.JNull end)])
          (with_resource_id (uuid_str (us_id user)) (with_resource "user" LogAudit (AuthUser_audit auth_user "admin.create_user"))));
    mret (user_response user role_assignments [], if force_change then Some raw_password else None).

(** ** Logging out *)

Definition signing_key (user : U) : string := "signing_pubkey:" +:+ uuid_str user.
Definition invalidate_tokens (user : U) : io W AppError unit :=
  on_auth (invalidate_refresh_tokens (en_net E) (en_clock E) user (en_refresh_ttl_days E)).

Definition force_logout_user auth_user (user_id : U) : io W AppError unit :=
  _ ← lift (require_permission auth_user "sessions:revoke");
  _ ← scope_for_user E auth_user "sessions:revoke" user_id;
  _ ← redis_del E (signing_key user_id);
  _ ← invalidate_tokens user_id;
  _ ← on_auth (ignore (set_ex (en_net E) (en_clock E) Unauthorized (user_revoked_key user_id) "1" 300));
  log_entry (user_entry auth_user "admin.force_logout" user_id).

(** ** Editing *)

(** The transaction of an edit. *)
Definition edit_user (user_id : U) (req : UpdateUserRequest U) (sub : U) (touches_quorum : bool) : io W AppError unit :=
  _ ← (if touches_quorum then acquire_super_admin_guard_lock E else mret tt);
  _ ← match uu_display_name req with
      | Some name => if bool_decide (trim name = "") then throw (BadRequest "Display name cannot be empty")
                     else set_display_name E user_id (trim name)
      | None => mret tt
      end;
  _ ← match uu_is_active req with Some active => set_active E user_id active | None => mret tt end;
  _ ← match uu_role_assignments req with
      | Some assignments => _ ← write_user_role_assignments user_id assignments sub; mret tt
      | None => mret tt
      end;
  if touches_quorum then assert_super_admin_quorum E else mret tt.

Definition update_user auth_user (user_id : U) (req : UpdateUserRequest U) : io W AppError unit :=
  _ ← lift (require_permission auth_user "users:update");
  _ ← scope_for_user E auth_user "users:update" user_id;
  let sub := cl_sub (au_claims auth_user) in
  let disabling := bool_decide (uu_is_active req = Some false) in
  if disabling && bool_decide (user_id = sub) then throw (BadRequest "Cannot deactivate your own account")
  else
    exists_ ← user_exists E user_id;
    if negb exists_ then throw (NotFound "User not found")
    else
      _ ← match uu_role_assignments req with
          | None => mret tt
          | Some assignments =>
              _ ← global_permission E auth_user "roles:update";
              roles ← caller_roles auth_user;
              requested ← names_of E (rar_role_id <$> assignments);
              _ ← lift (may_assign roles requested);
              if bool_decide (user_id = sub) && bool_decide ("super_admin" ∈ roles) && negb (bool_decide ("super_admin" ∈ requested))
              then throw (BadRequest "Cannot remove your own super_admin role")
              else mret tt
          end;
      let touches_quorum := disabling || bool_decide (is_Some (uu_role_assignments req)) in
      _ ← transaction E (edit_user user_id req sub touches_quorum);
      _ ← (if disabling then
             _ ← invalidate_tokens user_id;
             _ ← invalidate_user_perms E user_id;
             _ ← redis_del E (signing_key user_id);
             _ ← db_or tt (keys_follow E "user_disabled" user_id);
             invalidate_cache_lane E user_id
           else mret tt);
      _ ← (if bool_decide (is_Some (uu_role_assignments req)) then invalidate_user_perms E user_id else mret tt);
      log_entry (user_entry auth_user "admin.update_user" user_id).

(** ** Deleting *)

(** The transaction of a deletion. *)
Definition remove_user (user_id : U) : io W AppError unit :=
  _ ← acquire_super_admin_guard_lock E;
  rows ← soft_delete E user_id;
  if (rows =? 0)%nat then throw (NotFound "User not found")
  else
    _ ← db (keys_follow E "user_deleted" user_id);
    assert_super_admin_quorum E.

Definition delete_user auth_user (user_id : U) : io W AppError unit :=
  _ ← lift (require_permission auth_user "users:delete");
  if bool_decide (user_id = cl_sub (au_claims auth_user)) then throw (BadRequest "Cannot delete your own account from admin panel")
  else
    _ ← scope_for_user E auth_user "users:delete" user_id;
    _ ← transaction E (remove_user user_id);
    _ ← invalidate_tokens user_id;
    _ ← invalidate_user_perms E user_id;
    _ ← redis_del E (signing_key user_id);
    _ ← invalidate_cache_lane E user_id;
    log_entry (user_entry auth_user "admin.delete_user" user_id).

(** ** Resetting a password *)

Definition reset_user_password auth_user (user_id : U) (new_password : string) : io W AppError string :=
  _ ← lift (require_permission auth_user "users:update");
  _ ← scope_for_user E auth_user "users:update" user_id;
  exists_ ← user_exists E user_id;
  if negb exists_ then throw (NotFound "User not found")
  else
    hash ← lift (en_hash_password E new_password);
    _ ← update_password_hash E user_id hash true;
    _ ← redis_del E (signing_key user_id);
    _ ← mark_temporary_password user_id;
    expires ← temp_expires_at;
    _ ← log_entry (with_detail (AuditRow.JObj [("temp_password_expires_at", AuditRow.JStr expires)])
          (user_entry auth_user "admin.reset_password" user_id));
    mret new_password.
End Users.

(** * The handlers of [/api/admin/teams]

    [crates/server/src/handlers/teams.rs]: the catalogue of teams, their members, and the roles
    that members inherit. *)

Record CreateTeamRequest := { ct_name : string; ct_description : option string }.
(** A description may be absent, [null] or given. *)
Record UpdateTeamRequest := { ut_name : option string; ut_description : option (option string) }.

Definition MAX_TEAMS_PER_USER : Z := 10.

Section Teams.
Context {U V St : Type} `{Uuid U, !CacheText U, EqDecision U, EqDecision V, JsonValue V, ExpiringKeys St}.
Context (E : admin_env U V).
Abbreviation W := (admin_world U V St).
Implicit Types (auth_user : AuthUser U).

Definition team_entry auth_user (action : string) (team : U) (detail : list (string * jval)) : AuditEntry :=
  with_detail (AuditRow.JObj detail) (with_resource_id (uuid_str team) (with_resource "team" LogAudit (AuthUser_audit auth_user action))).
Definition jid (id : U) : jval := AuditRow.JStr (uuid_str id).

Definition caller_is_team_member (caller team : U) : io W AppError bool := fun w =>
  let '(w, r) := is_member E caller team w in
  (w, match r with Ok b => Ok b | Err _ => Err (Internal "team membership check failed") end).
Definition assert_can_view_team auth_user (team : U) : io W AppError unit :=
  member ← caller_is_team_member (cl_sub (au_claims auth_user)) team;
  if member : bool then mret tt else scope_for_team E auth_user "teams:read" team.

(** [map_err] of the two writes of a name. *)
Definition name_taken {A} (name : string) (p : io W db_failure A) : io W AppError A := fun w =>
  let '(w, r) := p w in
  (w, match r with
      | Ok a => Ok a
      | Err (UniqueViolation _) => Err (Conflict ("Team '" +:+ name +:+ "' already exists"))
      | Err e => Err (of_db e)
      end).

(** ** The catalogue *)

Definition list_teams auth_user : io W AppError (list (TeamWithCount U)) :=
  _ ← lift (require_permission auth_user "teams:read");
  scope ← owned_teams E auth_user "teams:read";
  match scope with
  | None => team_list E
  | Some scoped => list_for_member_or_in E (cl_sub (au_claims auth_user)) scoped
  end.

Definition get_team auth_user (id : U) : io W AppError (TeamWithCount U) :=
  _ ← lift (require_permission auth_user "teams:read");
  _ ← assert_can_view_team auth_user id;
  row ← find_with_count E id;
  lift (ok_or row (NotFound "Team not found")).

Definition create_team auth_user (req : CreateTeamRequest) : io W AppError (Team U) :=
  _ ← global_permission E auth_user "teams:create";
  let name := trim (ct_name req) in
  if bool_decide (name = "") then throw (BadRequest "Team name is required")
  else if (255 <? chars_count name)%nat then throw (BadRequest "Team name too long")
  else
    team ← name_taken name (team_insert E name (trim <$> ct_description req));
    _ ← log_entry (team_entry auth_user "team.create" (te_id team) [("name", AuditRow.JStr (te_name team))]);
    mret team.

Definition new_name (req : UpdateTeamRequest) (existing : Team U) : result AppError string :=
  match trim <$> ut_name req with
  | None => Ok (te_name existing)
  | Some s => if bool_decide (s = "") then Err (BadRequest "Team name cannot be empty or whitespace") else Ok s
  end.
Definition new_desc (req : UpdateTeamRequest) (existing : Team U) : option string :=
  match ut_description req with
  | None => te_description existing
  | Some None => None
  | Some (Some s) => let trimmed := trim s in if bool_decide (trimmed = "") then None else Some trimmed
  end.
Definition update_team auth_user (id : U) (req : UpdateTeamRequest) : io W AppError (Team U) :=
  _ ← lift (require_permission auth_user "teams:update");
  _ ← scope_for_team E auth_user "teams:update" id;
  found ← team_find E id;
  existing ← lift (ok_or found (NotFound "Team not found"));
  name ← lift (new_name req existing);
  updated ← name_taken name (team_update E id name (new_desc req existing));
  _ ← log_entry (team_entry auth_user "team.update" id [("name", AuditRow.JStr name)]);
  mret updated.

Definition delete_team auth_user (id : U) : io W AppError unit :=
  _ ← global_permission E auth_user "teams:delete";
  found ← team_name_of E id;
  name ← lift (ok_or found (NotFound "Team not found"));
  _ ← team_delete E id;
  log_entry (team_entry auth_user "team.delete" id [("name", AuditRow.JStr name)]).

(** ** Members *)

Definition list_members auth_user (team : U) : io W AppError (list TeamMemberTuple) :=
  member ← caller_is_team_member (cl_sub (au_claims auth_user)) team;
  _ ← (if member : bool then mret tt
       else _ ← lift (require_permission auth_user "teams:read"); scope_for_team E auth_user "teams:read" team);
  team_members E team.

Definition add_member auth_user (team user : U) : io W AppError unit :=
  _ ← lift (require_permission auth_user "team_members:write");
  _ ← scope_for_team E auth_user "team_members:write" team;
  exists_ ← active_exists E user;
  if negb exists_ then throw (NotFound "User not found")
  else
    inserted ← add_member_capped E user team MAX_TEAMS_PER_USER;
    already ← (if (inserted =? 0)%nat then db (is_member E user team) else mret true);
    if negb already
    then throw (BadRequest ("User already belongs to " +:+ pretty MAX_TEAMS_PER_USER +:+ " teams (maximum)"))
    else
      _ ← invalidate_user_perms E user;
      log_entry (team_entry auth_user "team_member.add" team [("user_id", jid user)]).

Definition remove_member auth_user (team user : U) : io W AppError unit :=
  _ ← lift (require_permission auth_user "team_members:write");
  _ ← scope_for_team E auth_user "team_members:write" team;
  removed ← remove_member_row E team user;
  if (removed =? 0)%nat then throw (NotFound "Member not found")
  else
    _ ← invalidate_user_perms E user;
    log_entry (team_entry auth_user "team_member.remove" team [("user_id", jid user)]).

(** ** Roles of a team *)

Definition list_team_roles auth_user (team : U) : io W AppError (list (TeamRoleRow U)) :=
  _ ← lift (require_permission auth_user "teams:read");
  _ ← scope_for_team E auth_user "teams:read" team;
  team_roles E team.

Definition assign_team_role auth_user (team role : U) : io W AppError unit :=
  _ ← lift (require_permission auth_user "teams:update");
  _ ← scope_for_team E auth_user "teams:update" team;
  _ ← assign_role E team role (cl_sub (au_claims auth_user));
  _ ← invalidate_team_perms E team;
  log_entry (team_entry auth_user "team_role.assigned" team [("role_id", jid role)]).

Definition remove_team_role auth_user (team role : U) : io W AppError unit :=
  _ ← lift (require_permission auth_user "teams:update");
  _ ← scope_for_team E auth_user "teams:update" team;
  _ ← remove_role E team role;
  _ ← invalidate_team_perms E team;
  log_entry (team_entry auth_user "team_role.removed" team [("role_id", jid role)]).
End Teams.
