(* ===== verification/AdminRoles.v ===== *)
(** * The handlers of [/api/admin/roles]

    [crates/server/src/handlers/roles.rs]: the catalogue of permissions, the documents of the
    system's own roles and the check of them at start-up, and the handlers of roles.  A role's
    history, read from ClickHouse, is left out. *)

From Stdlib Require Import Ascii.
From S2P Require Import Prelude Interfaces LimitTypes LimitStore Policy Constraints GatewayDeps Text Glob Sliding Effects AuditRow ExpiringKeys Validation Lockout Login Sessions Rbac Scope McpCache ApiKeys AdminDb.

(** ** The catalogue *)

Record PermissionDef := { pm_key : string; pm_resource : string; pm_action : string; pm_dangerous : bool }.
Definition p (key resource action : string) : PermissionDef :=
  {| pm_key := key; pm_resource := resource; pm_action := action; pm_dangerous := false |}.
Definition d (key resource action : string) : PermissionDef :=
  {| pm_key := key; pm_resource := resource; pm_action := action; pm_dangerous := true |}.

Definition PERMISSIONS : list PermissionDef :=
  [p "ai_gateway:use" "ai_gateway" "use";
   p "mcp_gateway:use" "mcp_gateway" "use";
   p "mcp:connect" "mcp" "connect";
   p "api_keys:read" "api_keys" "read";
   p "api_keys:create" "api_keys" "create";
   p "api_keys:update" "api_keys" "update";
   d "api_keys:rotate" "api_keys" "rotate";
   d "api_keys:delete" "api_keys" "delete";
   d "api_keys:admin" "api_keys" "admin";
   p "teams:read" "teams" "read";
   p "teams:create" "teams" "create";
   p "teams:update" "teams" "update";
   d "teams:delete" "teams" "delete";
   d "team_members:write" "team_members" "write";
   p "providers:read" "providers" "read";
   p "providers:create" "providers" "create";
   p "providers:update" "providers" "update";
   d "providers:delete" "providers" "delete";
   d "providers:rotate_key" "providers" "rotate_key";
   p "models:read" "models" "read";
   d "models:write" "models" "write";
   p "mcp_servers:read" "mcp_servers" "read";
   p "mcp_servers:create" "mcp_servers" "create";
   p "mcp_servers:update" "mcp_servers" "update";
   d "mcp_servers:delete" "mcp_servers" "delete";
   p "users:read" "users" "read";
   p "users:create" "users" "create";
   p "users:update" "users" "update";
   d "users:delete" "users" "delete";
   d "sessions:revoke" "sessions" "revoke";
   p "roles:read" "roles" "read";
   d "roles:create" "roles" "create";
   d "roles:update" "roles" "update";
   d "roles:delete" "roles" "delete";
   d "roles:edit_system" "roles" "edit_system";
   p "analytics:read_own" "analytics" "read_own";
   p "analytics:read_team" "analytics" "read_team";
   p "analytics:read_all" "analytics" "read_all";
   d "logs:read_all" "logs" "read_all";
   d "logs:read_bodies" "logs" "read_bodies";
   p "log_forwarders:read" "log_forwarders" "read";
   d "log_forwarders:write" "log_forwarders" "write";
   p "webhooks:read" "webhooks" "read";
   d "webhooks:write" "webhooks" "write";
   p "content_filter:read" "content_filter" "read";
   d "content_filter:write" "content_filter" "write";
   p "pii_redactor:read" "pii_redactor" "read";
   d "pii_redactor:write" "pii_redactor" "write";
   p "rate_limits:read" "rate_limits" "read";
   d "rate_limits:write" "rate_limits" "write";
   p "settings:read" "settings" "read";
   d "settings:write" "settings" "write";
   d "system:configure_oidc" "system" "configure_oidc"].
Definition all_permission_keys : list string := pm_key <$> PERMISSIONS.
Definition is_known_permission (key : string) : bool := existsb (fun p => bool_decide (pm_key p = key)) PERMISSIONS.
Definition RETIRED_PERMISSIONS : list string :=
  ["team:read"; "team:write"; "logs:read_own"; "logs:read_team"; "audit_logs:read_own"; "audit_logs:read_team";
   "audit_logs:read_all"].

(** ** The system's own roles *)

(** The texts of the documents, by what they differ in: the statement's name and its action or
    actions. *)
Inductive default_action := OneAction (a : string) | ManyActions (l : list string).
Definition quoted (s : string) : string := String "034" (s +:+ String "034" EmptyString).
Definition field (name value : string) : string := quoted name +:+ ":" +:+ value.
Definition action_text (a : default_action) : string :=
  match a with OneAction a => quoted a | ManyActions l => "[" +:+ String.concat "," (quoted <$> l) +:+ "]" end.
Definition default_text (sid : string) (action : default_action) : string :=
  "{" +:+ field "Version" (quoted "2024-01-01") +:+ "," +:+
  field "Statement" ("[{" +:+ String.concat "," [field "Sid" (quoted sid); field "Effect" (quoted "Allow");
    field "Action" (action_text action); field "Resource" (quoted "*")] +:+ "}]") +:+ "}".
Definition SYSTEM_ROLES : list (string * (string * default_action)) :=
  [
   ("super_admin", ("FullAccess", OneAction "*"));
   ("admin", ("AdminAccess", ManyActions ["ai_gateway:use"; "mcp_gateway:use"; "mcp:connect"; "api_keys:read"; "api_keys:create";
      "api_keys:update"; "api_keys:rotate"; "api_keys:delete"; "api_keys:admin"; "providers:read"; "providers:create";
      "providers:update"; "providers:delete"; "providers:rotate_key"; "models:read"; "models:write";
      "mcp_servers:read"; "mcp_servers:create"; "mcp_servers:update"; "mcp_servers:delete"; "users:read";
      "users:create"; "users:update"; "teams:read"; "teams:create"; "teams:update"; "teams:delete";
      "team_members:write"; "sessions:revoke"; "roles:read"; "roles:create"; "roles:update"; "roles:delete";
      "analytics:read_all"; "logs:read_all"; "log_forwarders:read"; "log_forwarders:write"; "webhooks:read";
      "webhooks:write"; "content_filter:read"; "content_filter:write"; "pii_redactor:read"; "pii_redactor:write";
      "rate_limits:read"; "rate_limits:write"; "settings:read"; "settings:write"]));
   ("team_manager", ("TeamManagement", ManyActions ["ai_gateway:use"; "mcp_gateway:use"; "mcp:connect"; "api_keys:read"; "api_keys:create";
      "api_keys:update"; "api_keys:rotate"; "providers:read"; "models:read"; "mcp_servers:read"; "users:read";
      "users:update"; "team_members:write"; "teams:read"; "analytics:read_team"; "rate_limits:read";
      "rate_limits:write"]));
   ("developer", ("DeveloperAccess", ManyActions ["ai_gateway:use"; "mcp_gateway:use"; "mcp:connect"; "api_keys:read"; "api_keys:create";
      "api_keys:update"; "providers:read"; "models:read"; "mcp_servers:read"; "analytics:read_own"]));
   ("viewer", ("ViewerAccess", ManyActions ["api_keys:read"; "providers:read"; "models:read"; "mcp_servers:read"; "analytics:read_own"]))].
Definition SYSTEM_ROLE_DEFAULTS : list (string * string) :=
  (fun r => (r.1, default_text r.2.1 r.2.2)) <$> SYSTEM_ROLES.

Record CreateRoleRequest {V : Type} := { cro_name : string; cro_description : option string; cro_policy_document : V }.
Record UpdateRoleRequest {V : Type} := {
  uro_name : option string; uro_description : option (option string); uro_policy_document : option V;
}.
#[global] Arguments CreateRoleRequest : clear implicits.
#[global] Arguments UpdateRoleRequest : clear implicits.

Record RoleResponse {U V : Type} := {
  rre_id : U; rre_name : string; rre_description : option string; rre_is_system : bool; rre_policy_document : V;
  rre_user_count : Z; rre_created_by_email : option string; rre_created_at : string; rre_updated_at : string;
}.
#[global] Arguments RoleResponse : clear implicits.
Record RoleMember {U : Type} := {
  rm_user_id : U; rm_email : string; rm_display_name : string; rm_scope : string; rm_assigned_at : string;
}.
#[global] Arguments RoleMember : clear implicits.

Section Roles.
Context {U V St : Type} `{Uuid U, !CacheText U, EqDecision U, EqDecision V, JsonValue V, ExpiringKeys St}.
Context (E : admin_env U V).
Abbreviation W := (admin_world U V St).
Implicit Types (auth_user : AuthUser U).

(** ** Documents *)

Definition check_statement (i : nat) (stmt : V) : result AppError unit :=
  match json_get "Constraints" stmt with
  | Some c =>
      if json_is_null c then Ok tt
      else match en_decode_constraints E c with
           | Err e => Err (BadRequest ("Statement[" +:+ pretty i +:+ "].Constraints: " +:+ e))
           | Ok constraints =>
               match validate_policy_constraints constraints with
               | Err e => Err (BadRequest ("Statement[" +:+ pretty i +:+ "]." +:+ e))
               | Ok _ => Ok tt
               end
           end
  | None => Ok tt
  end.
Definition validate_policy_constraints_in_doc (doc : V) : result AppError unit :=
  match json_get "Statement" doc ≫= json_as_array with
  | None => Ok tt
  | Some statements => try_enumerate check_statement statements
  end.
Definition check_document (doc : V) : result AppError unit :=
  match validate_policy_document (en_policy_from_value E) (en_json_len E) doc with
  | Err e => Err (BadRequest e)
  | Ok _ => validate_policy_constraints_in_doc doc
  end.

Definition classify_role_permissions (rows : list (string * V)) : list string * list string :=
  let entries := row ← rows; perm ← extract_permissions row.2 all_permission_keys;
                 if is_known_permission perm then [] else [(perm, row.1 +:+ ": " +:+ perm)] in
  (snd <$> filter (fun e => e.1 ∉ RETIRED_PERMISSIONS) entries, snd <$> filter (fun e => e.1 ∈ RETIRED_PERMISSIONS) entries).
(** The server refuses to start on an error. *)
Definition validate_seeded_roles : io W AppError unit :=
  rows ← db (policy_documents E);
  let '(unknown, _) := classify_role_permissions rows in
  if bool_decide (unknown = []) then mret tt
  else throw (Internal ("Found " +:+ pretty (length unknown) +:+ " role permission(s) not in PERMISSION_CATALOG")).

Definition system_role_default_policy (name : string) : option V :=
  r ← head (filter (fun r => r.1 = name) SYSTEM_ROLE_DEFAULTS); en_parse_json E r.2.

(** ** Reading *)

Definition row_to_response (row : RoleRow (U := U) (V := V)) (user_count : Z) : RoleResponse U V :=
  let '(id, name, description, is_system, document, created_by_email, created_at, updated_at) := row in
  {| rre_id := id; rre_name := name; rre_description := description; rre_is_system := is_system;
     rre_policy_document := document; rre_user_count := user_count; rre_created_by_email := created_by_email;
     rre_created_at := en_rfc3339 E created_at; rre_updated_at := en_rfc3339 E updated_at |}.
Definition role_entry auth_user (action : string) (role : U) (detail : list (string * jval)) : AuditEntry :=
  with_detail (AuditRow.JObj detail) (with_resource_id (uuid_str role) (with_resource "role" LogAudit (AuthUser_audit auth_user action))).
Definition role_of_row (row : RoleRow (U := U) (V := V)) : U := row.1.1.1.1.1.1.1.

Definition list_roles auth_user : io W AppError (list (RoleResponse U V)) :=
  _ ← global_permission E auth_user "roles:read";
  rows ← role_list E;
  counts ← assignment_counts E (role_of_row <$> rows);
  mret ((fun row => row_to_response row (default 0 (snd <$> head (filter (fun c => c.1 = role_of_row row) counts)))) <$> rows).

Definition list_role_members auth_user (id : U) : io W AppError (list (RoleMember U)) :=
  _ ← global_permission E auth_user "roles:read";
  found ← role_exists E id;
  if negb found then throw (NotFound "Role not found")
  else
    rows ← role_members E id;
    mret ((fun r : RoleMemberRow (U := U) =>
      let '(user, email, display_name, kind, scope, assigned_at) := r in
      {| rm_user_id := user; rm_email := email; rm_display_name := display_name;
         rm_scope := if bool_decide (kind = "global") then "global"
                     else match scope with Some id => kind +:+ ":" +:+ uuid_str id | None => kind end;
         rm_assigned_at := en_rfc3339 E assigned_at |}) <$> rows).

Definition list_permissions auth_user : io W AppError (list PermissionDef) :=
  _ ← global_permission E auth_user "roles:read"; mret PERMISSIONS.

(** ** Writing *)

Definition create_role auth_user (payload : CreateRoleRequest V) : io W AppError (RoleResponse U V) :=
  _ ← global_permission E auth_user "roles:create";
  let name := trim (cro_name payload) in
  if bool_decide (name = "") || (100 <? String.length name)%nat then throw (BadRequest "Role name must be 1-100 characters")
  else
    _ ← lift (check_document (cro_policy_document payload));
    row ← (fun w => let '(w, r) := role_insert E name (cro_description payload) (cro_policy_document payload) (cl_sub (au_claims auth_user)) w in
             (w, match r with
                 | Ok row => Ok row
                 | Err (UniqueViolation "rbac_roles_name_key") => Err (BadRequest ("Role name '" +:+ name +:+ "' already exists"))
                 | Err e => Err (of_db e)
                 end));
    let response := row_to_response row 0 in
    _ ← log_entry (role_entry auth_user "role.created" (rre_id response) [("name", AuditRow.JStr name)]);
    mret response.

(** What an edit ends with: the row again, how many hold it, the caches, the audit log. *)
Definition answer_role auth_user (action : string) (id : U) (name : string) : io W AppError (RoleResponse U V) :=
  row ← role_get E id;
  user_count ← db_or 0 (assignment_count E id);
  _ ← invalidate_role_perms E id;
  _ ← log_entry (role_entry auth_user action id [("name", AuditRow.JStr name)]);
  mret (row_to_response row user_count).

Definition update_role auth_user (id : U) (payload : UpdateRoleRequest V) : io W AppError (RoleResponse U V) :=
  _ ← global_permission E auth_user "roles:update";
  found ← find_kind E id;
  existing ← lift (ok_or found (NotFound "Role not found"));
  let '(is_system, old_name) := existing : bool * string in
  _ ← (if is_system then
         _ ← global_permission E auth_user "roles:edit_system";
         if bool_decide (is_Some (uro_name payload)) then throw (BadRequest "Cannot rename system roles") else mret tt
       else mret tt);
  _ ← match uro_policy_document payload with Some doc => lift (check_document doc) | None => mret tt end;
  _ ← role_update E id (trim <$> uro_name payload) (mjoin (uro_description payload)) (uro_policy_document payload)
        (bool_decide (is_Some (uro_description payload)));
  answer_role auth_user "role.updated" id old_name.

Definition reset_role auth_user (id : U) : io W AppError (RoleResponse U V) :=
  _ ← global_permission E auth_user "roles:edit_system";
  found ← find_kind E id;
  existing ← lift (ok_or found (NotFound "Role not found"));
  let '(is_system, name) := existing : bool * string in
  if negb is_system then throw (BadRequest "Reset is only available for system roles")
  else
    default_doc ← lift (ok_or (system_role_default_policy name) (BadRequest ("No defaults registered for system role '" +:+ name +:+ "'")));
    _ ← set_policy_document E id default_doc;
    answer_role auth_user "role.reset" id name.

(** The transaction of a deletion: the members move, the role goes. *)
Definition retire_role (id : U) (reassign_to : option U) (assigned : Z) (sub : U) : io W AppError unit :=
  _ ← (if 0 <? assigned then
         match reassign_to with
         | Some target_id =>
             if bool_decide (target_id = id) then throw (BadRequest "reassign_to must be a different role")
             else
               target_exists ← role_exists E target_id;
               if negb target_exists then throw (BadRequest "reassign_to role not found")
               else
                 _ ← copy_assignments E id target_id sub;
                 delete_assignments E id
         | None => throw (BadRequest ("Role still has " +:+ pretty assigned +:+
             " member(s). Pass reassign_to=<other_role_id> to migrate them."))
         end
       else mret tt);
  delete_custom E id.

(** The assignments counted before the transaction decide what it does. *)
Definition delete_role auth_user (id : U) (reassign_to : option U) : io W AppError Z :=
  _ ← global_permission E auth_user "roles:delete";
  found ← find_kind E id;
  existing ← lift (ok_or found (NotFound "Role not found"));
  let '(is_system, role_name) := existing : bool * string in
  if is_system : bool then throw (BadRequest "Cannot delete system roles")
  else
    assigned ← db_or 0 (assignment_count E id);
    _ ← transaction E (retire_role id reassign_to assigned (cl_sub (au_claims auth_user)));
    _ ← log_entry (role_entry auth_user "role.deleted" id
          [("name", AuditRow.JStr role_name);
           ("reassign_to", match reassign_to with Some t => AuditRow.JStr (uuid_str t) | None => AuditRow.JNull end);
           ("members_migrated", AuditRow.JNum assigned)]);
    mret assigned.
End Roles.
