(* ===== verification/AdminSteps.v ===== *)
(** * Reasoning about the administration's steps

    What a step does to the database, as triples; the steps that leave it; what is kept by every
    step.  [run_admin_call] is one call of a handler, with the state it leaves. *)
From Stdlib Require Import Ascii.
From S2P Require Import Prelude Interfaces LimitTypes LimitStore Policy Constraints Sliding Effects GatewayDeps Text AuditRow McpCache ExpiringKeys Glob Validation Lockout Login Sessions Rbac Scope ApiKeys AdminDb AdminUsers AdminRoles.

Section Steps.
Context {U V St : Type} `{Uuid U, !CacheText U, !UuidParse U, EqDecision U, EqDecision V, JsonValue V, ExpiringKeys St}.
Context (E : admin_env U V).
Abbreviation W := (admin_world U V St).
Abbreviation DB := (admin_db U V).
Implicit Types (d : DB) (w : W) (a : AuthUser U).

(** ** Triples over the database

    From a database in [P], the step ends with its result and database in [Q], or fails with its
    database in [F]. *)

Definition triple {X A} (P : DB -> Prop) (p : io W X A) (Q : A -> DB -> Prop) (F : DB -> Prop) : Prop :=
  forall w, P (mw_db w) -> match p w with (w', Ok x) => Q x (mw_db w') | (w', Err _) => F (mw_db w') end.

Lemma triple_bind {X A B} P Q R F (p : io W X A) (f : A -> io W X B) :
  triple P p Q F -> (forall x, triple (Q x) (f x) R F) -> triple P (p ≫= f) R F.
Proof.
  intros Hp Hf w Hw. specialize (Hp w Hw). unfold mbind, io_bind. destruct (p w) as [w' [x|e]]; [|done].
  by apply (Hf x).
Qed.
Lemma triple_weaken {X A} (P P' : DB -> Prop) (Q Q' : A -> DB -> Prop) (F F' : DB -> Prop) (p : io W X A) :
  (forall d, P' d -> P d) -> (forall x d, Q x d -> Q' x d) -> (forall d, F d -> F' d) -> triple P p Q F -> triple P' p Q' F'.
Proof. intros HP HQ HF Hp w Hw. specialize (Hp w (HP _ Hw)). destruct (p w) as [w' [x|e]]; auto. Qed.

Lemma triple_mret {X A} (P : DB -> Prop) F (x : A) : triple P (mret x : io W X A) (fun y d => y = x /\ P d) F.
Proof. by intros w Hw. Qed.
Lemma triple_throw {X A} (P F : DB -> Prop) Q (e : X) : (forall d, P d -> F d) -> triple P (throw e : io W X A) Q F.
Proof. intros HF w Hw. by apply HF. Qed.
Lemma triple_lift {X A} (P F : DB -> Prop) (r : result X A) : (forall d, P d -> F d) ->
  triple P (lift r : io W X A) (fun x d => r = Ok x /\ P d) F.
Proof. intros HF w Hw. unfold lift. destruct r; [done|by apply HF]. Qed.

Lemma triple_stmt {A} (P : DB -> Prop) Q (F : DB -> Prop) (q : nat -> Z -> DB -> DB * result db_failure A) :
  (forall n t d, P d -> match q n t d with (d', Ok x) => Q x d' /\ F d' | (d', Err _) => F d' end) -> (forall d, P d -> F d) ->
  triple P (stmt E q) Q F.
Proof.
  intros Hq HF w Hw. unfold stmt. specialize (Hq (mw_calls w) (en_clock E (mw_calls w)) (mw_db w) Hw).
  destruct (en_net E _); simpl; [|by apply HF|]; destruct (q _ _ _) as [d' [x|e]]; simpl in *; naive_solver.
Qed.
Lemma triple_fetch {A} (P F : DB -> Prop) (q : DB -> A) : (forall d, P d -> F d) ->
  triple P (fetch E q) (fun x d => x = q d /\ P d) F.
Proof. intros HF. apply triple_stmt; [|done]. intros n t d Hd. split; [done|auto]. Qed.
Lemma triple_db {A} (P : DB -> Prop) Q (F : DB -> Prop) (p : io W db_failure A) : triple P p Q F -> triple P (db p) Q F.
Proof. intros Hp w Hw. specialize (Hp w Hw). unfold db. by destruct (p w) as [w' [x|e]]. Qed.
Lemma triple_db_or {A} (P : DB -> Prop) Q (F : DB -> Prop) (x : A) (p : io W db_failure A) :
  triple P p Q (Q x) -> triple P (db_or x p) Q F.
Proof. intros Hp w Hw. specialize (Hp w Hw). unfold db_or. by destruct (p w) as [w' [y|e]]. Qed.

Lemma triple_transaction {A} (P : DB -> Prop) Q (F : DB -> Prop) (body : io W AppError A) :
  triple P body (fun x d => Q x d /\ F d) (fun _ => True) -> (forall d, P d -> F d) -> triple P (transaction E body) Q F.
Proof.
  intros Hb HF w Hw. unfold transaction. destruct (en_net E _); [|by apply HF..].
  specialize (Hb (at_call (S (mw_calls w)) (mw_db w) w) Hw). destruct (body _) as [w' [x|e]]; [|by apply HF].
  destruct (en_net E _); simpl; [by apply Hb|by apply HF|by apply Hb].
Qed.

(** A step that leaves the database. *)
Definition quiet {X A} (p : io W X A) : Prop := forall w, mw_db (p w).1 = mw_db w.
Lemma triple_quiet {X A} (P F : DB -> Prop) (p : io W X A) : quiet p -> (forall d, P d -> F d) -> triple P p (fun _ => P) F.
Proof. intros Hp HF w Hw. specialize (Hp w). destruct (p w) as [w' [x|e]]; simpl in Hp; rewrite Hp; auto. Qed.

(** Session code that leaves the users. *)
Definition same_users {A} (p : io (auth_world St U) AppError A) : Prop := forall v, aw_users (p v).1 = aw_users v.
Lemma same_users_bind {A B} (p : io (auth_world St U) AppError A) (f : A -> io (auth_world St U) AppError B) :
  same_users p -> (forall x, same_users (f x)) -> same_users (p ≫= f).
Proof. intros Hp Hf v. rewrite io_bind_run. specialize (Hp v). destruct ((p v).2); [|done]. by rewrite Hf. Qed.
Lemma same_users_set_ex fail key value secs : same_users (set_ex (en_net E) (en_clock E) fail key value secs).
Proof. intros v. unfold set_ex, Lockout.redis. by destruct (run_script _ _ _). Qed.
Lemma same_users_attempt {A} (p : io (auth_world St U) AppError A) : same_users p -> same_users (attempt p).
Proof. intros Hp v. specialize (Hp v). unfold attempt. by destruct (p v). Qed.

Lemma quiet_auth {A} (p : io (auth_world St U) AppError A) : same_users p -> quiet (on_auth p).
Proof.
  intros Hp w. unfold on_auth. specialize (Hp {| aw_calls := mw_calls w; aw_keys := mw_keys w; aw_users := ad_users (mw_db w); aw_audit := mw_audit w |}).
  destruct (p _) as [v r]. simpl in *. rewrite Hp. by destruct (mw_db w).
Qed.
Lemma quiet_redis_del key : quiet (redis_del E key).
Proof. apply quiet_auth. intros v. unfold del, ignore, Lockout.redis. by destruct (run_script _ _ _). Qed.
Lemma quiet_log e : quiet (log_entry e).
Proof. by apply quiet_auth. Qed.
Lemma quiet_set_ex fail key value secs : quiet (on_auth (ignore (set_ex (en_net E) (en_clock E) fail key value secs))).
Proof. apply quiet_auth. intros v. apply same_users_set_ex. Qed.
Lemma quiet_mark user : quiet (mark_temporary_password E user).
Proof. apply quiet_auth, same_users_bind; [done|]. intros t v. apply same_users_set_ex. Qed.
Lemma quiet_invalidate_tokens user : quiet (invalidate_tokens E user).
Proof.
  apply quiet_auth. unfold invalidate_refresh_tokens. cbv zeta.
  assert (Hs : same_users (t ← now (en_clock E);
    attempt (set_ex (en_net E) (en_clock E) Unauthorized (epoch_key user) (dec_of_Z (t / 1000)) (en_refresh_ttl_days E * 86400)))).
  { apply same_users_bind; [done|]. intros t. apply same_users_attempt, same_users_set_ex. }
  apply same_users_bind; [exact Hs|]. intros [|]; [done|]. apply same_users_bind; [done|intros _].
  by apply same_users_bind.
Qed.
Lemma quiet_cache user : quiet (invalidate_cache_lane E user).
Proof. done. Qed.
Lemma quiet_perms user : quiet (invalidate_user_perms E user).
Proof. apply quiet_redis_del. Qed.
Lemma quiet_scope {A} (f : link -> rbac_tables U V -> result AppError A) : quiet (scope_query E f).
Proof. done. Qed.
Lemma quiet_bind {X A B} (p : io W X A) (f : A -> io W X B) : quiet p -> (forall x, quiet (f x)) -> quiet (p ≫= f).
Proof. intros Hp Hf w. rewrite io_bind_run. specialize (Hp w). destruct ((p w).2); [|done]. by rewrite Hf. Qed.
Lemma quiet_mret {X A} (x : A) : quiet (mret x : io W X A).
Proof. done. Qed.
Lemma quiet_throw {X A} (e : X) : quiet (throw e : io W X A).
Proof. done. Qed.
Lemma quiet_lift {X A} (r : result X A) : quiet (lift r : io W X A).
Proof. done. Qed.
Lemma quiet_fetch {A} (q : DB -> A) : quiet (fetch E q).
Proof. intros w. unfold fetch, stmt. by destruct (en_net E _). Qed.
Lemma quiet_db {A} (p : io W db_failure A) : quiet p -> quiet (db p).
Proof. intros Hp w. specialize (Hp w). unfold db. by destruct (p w). Qed.
Lemma quiet_db_or {A} (x : A) (p : io W db_failure A) : quiet p -> quiet (db_or x p).
Proof. intros Hp w. specialize (Hp w). unfold db_or. by destruct (p w). Qed.
Lemma quiet_invalidate_users us : quiet (invalidate_users E us).
Proof. induction us; [done|]. apply quiet_bind; [apply quiet_perms|done]. Qed.
Lemma quiet_role_perms role : quiet (invalidate_role_perms E role).
Proof. apply quiet_bind; [apply quiet_db_or, quiet_fetch|intros x]. apply quiet_bind; [apply quiet_db_or, quiet_fetch|intros y]. apply quiet_invalidate_users. Qed.
Lemma quiet_team_perms team : quiet (invalidate_team_perms E team).
Proof. apply quiet_bind; [apply quiet_db_or, quiet_fetch|intros x]. apply quiet_invalidate_users. Qed.
Lemma quiet_temp_expires : quiet (temp_expires_at E : io W AppError string).
Proof. done. Qed.
Lemma quiet_owned_teams a perm : quiet (owned_teams E a perm).
Proof. done. Qed.
Lemma quiet_global a perm : quiet (global_permission E a perm).
Proof. by apply quiet_bind. Qed.

Lemma quiet_role_get id : quiet (role_get E id).
Proof. apply quiet_db. intros w. unfold stmt. by destruct (en_net E _). Qed.

(** ** Calls *)

Inductive admin_call :=
  | ListUsers (query : ListUsersQuery) | ListSuperAdminIds
  | CreateUser (req : CreateUserByAdminRequest U) (generated : string)
  | UpdateUser (user : U) (req : UpdateUserRequest U) | DeleteUser (user : U) | ForceLogout (user : U)
  | ResetPassword (user : U) (new_password : string)
  | ListTeams | GetTeam (team : U) | CreateTeam (req : CreateTeamRequest) | UpdateTeam (team : U) (req : UpdateTeamRequest)
  | DeleteTeam (team : U) | ListMembers (team : U) | AddMember (team user : U) | RemoveMember (team user : U)
  | ListTeamRoles (team : U) | AssignTeamRole (team role : U) | RemoveTeamRole (team role : U)
  | ListRoles | ListRoleMembers (role : U) | ListPermissions | CreateRole (req : CreateRoleRequest V)
  | UpdateRole (role : U) (req : UpdateRoleRequest V) | ResetRole (role : U) | DeleteRole (role : U) (reassign_to : option U).

Definition run_admin_call a (c : admin_call) (w : W) : W :=
  match c with
  | ListUsers query => (list_users E a query w).1
  | ListSuperAdminIds => (list_super_admin_ids E a w).1
  | CreateUser req generated => (create_user E a req generated w).1
  | UpdateUser user req => (update_user E a user req w).1
  | DeleteUser user => (delete_user E a user w).1
  | ForceLogout user => (force_logout_user E a user w).1
  | ResetPassword user new_password => (reset_user_password E a user new_password w).1
  | ListTeams => (list_teams E a w).1
  | GetTeam team => (get_team E a team w).1
  | CreateTeam req => (create_team E a req w).1
  | UpdateTeam team req => (update_team E a team req w).1
  | DeleteTeam team => (delete_team E a team w).1
  | ListMembers team => (list_members E a team w).1
  | AddMember team user => (add_member E a team user w).1
  | RemoveMember team user => (remove_member E a team user w).1
  | ListTeamRoles team => (list_team_roles E a team w).1
  | AssignTeamRole team role => (assign_team_role E a team role w).1
  | RemoveTeamRole team role => (remove_team_role E a team role w).1
  | ListRoles => (list_roles E a w).1
  | ListRoleMembers role => (list_role_members E a role w).1
  | ListPermissions => (list_permissions E a w).1
  | CreateRole req => (create_role E a req w).1
  | UpdateRole role req => (update_role E a role req w).1
  | ResetRole role => (reset_role E a role w).1
  | DeleteRole role reassign_to => (delete_role E a role reassign_to w).1
  end.

(** ** Invariants *)

Section Keeps.
Context (I : DB -> Prop).
Definition keeps {X A} (p : io W X A) : Prop := forall w, I (mw_db w) -> I (mw_db (p w).1).

Lemma keeps_quiet {X A} (p : io W X A) : quiet p -> keeps p.
Proof. intros Hp w Hw. by rewrite Hp. Qed.
Lemma admin_keeps_bind {X A B} (p : io W X A) (f : A -> io W X B) : keeps p -> (forall x, keeps (f x)) -> keeps (p ≫= f).
Proof. intros Hp Hf w Hw. rewrite io_bind_run. specialize (Hp w Hw). destruct ((p w).2); [|done]. by apply Hf. Qed.
Lemma keeps_stmt {A} (q : nat -> Z -> DB -> DB * result db_failure A) : (forall n t d, I d -> I (q n t d).1) -> keeps (stmt E q).
Proof. intros Hq w Hw. unfold stmt. specialize (Hq (mw_calls w) (en_clock E (mw_calls w)) (mw_db w) Hw). destruct (en_net E _); simpl; [|done..]. by destruct (q _ _ _). Qed.
Lemma keeps_db {A} (p : io W db_failure A) : keeps p -> keeps (db p).
Proof. intros Hp w Hw. specialize (Hp w Hw). unfold db. by destruct (p w). Qed.
Lemma keeps_db_or {A} (x : A) (p : io W db_failure A) : keeps p -> keeps (db_or x p).
Proof. intros Hp w Hw. specialize (Hp w Hw). unfold db_or. by destruct (p w). Qed.
(** What a handler makes of a failure. *)
Lemma keeps_mapped {A B} (p : io W db_failure A) (f : result db_failure A -> result AppError B) :
  keeps p -> keeps (fun w => let '(w, r) := p w in (w, f r)).
Proof. intros Hp w Hw. specialize (Hp w Hw). by destruct (p w). Qed.
Lemma keeps_transaction {A} (body : io W AppError A) : keeps body -> keeps (transaction E body).
Proof.
  intros Hb w Hw. unfold transaction. destruct (en_net E _); [|done..].
  specialize (Hb (at_call (S (mw_calls w)) (mw_db w) w) Hw). destruct (body _) as [w' [x|e]]; [|done].
  by destruct (en_net E _).
Qed.

End Keeps.
End Steps.

Create HintDb quiet.
#[export] Hint Resolve quiet_role_get quiet_redis_del quiet_log quiet_set_ex quiet_mark quiet_invalidate_tokens quiet_cache quiet_perms quiet_scope
  quiet_mret quiet_throw quiet_lift quiet_fetch quiet_db quiet_db_or quiet_role_perms quiet_team_perms quiet_temp_expires
  quiet_owned_teams quiet_global : quiet.

#[global] Arguments keeps {U V} St I {X A} p.

Ltac head_of t := match t with ?f _ => head_of f | _ => t end.
Ltac keep_db := repeat first
  [ solve [eauto with nocore]
  | solve [apply keeps_quiet; auto with quiet nocore]
  | match goal with
    | |- keeps _ _ (mbind _ _) => apply admin_keeps_bind; [|intros ?]
    | |- keeps _ _ (transaction _ _) => apply keeps_transaction
    | |- keeps _ _ (db _) => apply keeps_db
    | |- keeps _ _ (db_or _ _) => apply keeps_db_or
    | |- keeps _ _ (fetch _ _) => apply keeps_quiet, quiet_fetch
    | |- keeps _ _ (match _ with _ => _ end) => case_match
    | |- keeps _ _ (let '(_, _) := _ in _) => case_match
    | |- keeps _ _ (fun w => let '(w, r) := _ w in _) => apply keeps_mapped
    | |- keeps _ _ ?p => let h := head_of p in unfold h; cbv zeta
    end ].

(** * What the administration keeps

    A state every write keeps, every call keeps: the cap on the teams of a user. *)

Section Spec.
Context {U V St : Type} `{Uuid U, !CacheText U, !UuidParse U, EqDecision U, EqDecision V, JsonValue V, ExpiringKeys St}.
Context (E : admin_env U V).
Abbreviation W := (admin_world U V St).
Abbreviation DB := (admin_db U V).
Implicit Types (d : DB) (w : W) (a : AuthUser U).

(** ** Invariants *)

Section Keeps.
Context (I : DB -> Prop).
(** Statements are reads or one of these writes. *)
Record writes_keep : Prop := {
  wk_user_insert e n h c : keeps St I (user_insert E e n h c);
  wk_set_display_name id n : keeps St I (set_display_name E id n);
  wk_set_active id b : keeps St I (set_active E id b);
  wk_update_password id h c : keeps St I (update_password_hash E id h c);
  wk_soft_delete id : keeps St I (soft_delete E id);
  wk_keys_follow r id : keeps St I (keys_follow E r id);
  wk_delete_user_roles id : keeps St I (delete_role_assignments E id);
  wk_assign id r k s b : keeps St I (insert_role_assignment E id r k s b);
  wk_team_insert n t : keeps St I (team_insert E n t);
  wk_team_update id n t : keeps St I (team_update E id n t);
  wk_team_delete id : keeps St I (team_delete E id);
  wk_add_member u t : keeps St I (add_member_capped E u t MAX_TEAMS_PER_USER);
  wk_remove_member t u : keeps St I (remove_member_row E t u);
  wk_assign_role t r b : keeps St I (assign_role E t r b);
  wk_remove_role t r : keeps St I (remove_role E t r);
  wk_role_insert n t v b : keeps St I (role_insert E n t v b);
  wk_role_update id n t v s : keeps St I (role_update E id n t v s);
  wk_set_document id v : keeps St I (set_policy_document E id v);
  wk_delete_custom id : keeps St I (delete_custom E id);
  wk_copy f t b : keeps St I (copy_assignments E f t b);
  wk_delete_assignments id : keeps St I (delete_assignments E id);
}.

(** What every write keeps, every call keeps. *)
Lemma writes_kept (Hk : writes_keep) a c w : I (mw_db w) -> I (mw_db (run_admin_call E a c w)).
Proof.
  destruct Hk as [H1' H2' H3' H4' H5' H6' H7' H8' H9' H10 H11 H12 H13 H14 H15 H16 H17 H18 H19 H20 H21].
  assert (Hins : forall id l by_, keeps St I (insert_role_assignments E id l by_)).
  { intros id l by_. induction l as [|x l IH]; simpl; [keep_db|]. apply admin_keeps_bind; [keep_db|intros scope].
    apply admin_keeps_bind; [apply (keeps_mapped _ (insert_role_assignment E id _ _ _ _)), H8'|intros row]. keep_db. }
  assert (Hw : forall id l by_, keeps St I (write_user_role_assignments E id l by_)) by (intros; unfold write_user_role_assignments; keep_db; auto).
  revert w. destruct c; match goal with |- forall w, I (mw_db w) -> I (mw_db (run_admin_call E a ?c w)) =>
    let p := eval cbn [run_admin_call] in (fun w => run_admin_call E a c w) in
    match p with (fun w => (?q w).1) => change (keeps St I q) | (fun w => (?q w).1) => idtac end end.
  all: keep_db.
Qed.
End Keeps.

(** ** Teams of a user *)

(** No user is in more than ten teams. *)
Definition teams_capped d : Prop := forall user, Z.of_nat (length (teams_with user d)) <= MAX_TEAMS_PER_USER.

Lemma keeps_same_members {A} (q : nat -> Z -> DB -> DB * result db_failure A) :
  (forall n t d, ad_members (q n t d).1 = ad_members d) -> keeps St teams_capped (stmt E q).
Proof. intros Hq. apply keeps_stmt. intros n t d Hd user. unfold teams_with. rewrite Hq. apply Hd. Qed.

Lemma filter_filter_length {A} (P Q : A -> Prop) `{!forall x, Decision (P x), !forall x, Decision (Q x)} (l : list A) :
  (length (filter P (filter Q l)) <= length (filter P l))%nat.
Proof. induction l as [|x l IH]; [done|]. rewrite !filter_cons. repeat case_decide; rewrite ?filter_cons; repeat case_decide; simpl; try done; lia. Qed.

Lemma keeps_fewer_members {A} (q : nat -> Z -> DB -> DB * result db_failure A) :
  (forall n t d user, length (filter (fun m => me_user m = user) (ad_members (q n t d).1)) <= length (teams_with user d))%nat ->
  keeps St teams_capped (stmt E q).
Proof. intros Hq. apply keeps_stmt. intros n t d Hd user. specialize (Hq n t d user). specialize (Hd user). unfold teams_with in *. lia. Qed.

Lemma keeps_add_member user team : keeps St teams_capped (add_member_capped E user team MAX_TEAMS_PER_USER).
Proof.
  apply keeps_db, keeps_stmt. intros n t d Hd. unfold capped_insert. destruct (_ <? _) eqn:El; [|done]. simpl.
  destruct (in_team _ _ _); [done|]. destruct (negb _); [done|]. intros user'. unfold teams_with. simpl.
  rewrite filter_app, length_app. specialize (Hd user'). unfold teams_with in Hd, El. rewrite filter_cons, filter_nil. simpl.
  destruct (decide (user = user')) as [<-|]; simpl; lia.
Qed.

Lemma writes_keep_capped : writes_keep teams_capped.
Proof.
  split; intros; try (apply keeps_add_member);
    first [apply keeps_db, keeps_same_members; intros; simpl; repeat case_match; (done || by simplify_eq/=)
          |apply keeps_same_members; intros; simpl; repeat case_match; (done || by simplify_eq/=)
          |apply keeps_db, keeps_fewer_members; intros; simpl; apply filter_filter_length
          |apply keeps_db, keeps_same_members; intros; unfold update_roles; by repeat case_match].
Qed.

(** No call of the administration, whoever makes it and however its steps end, takes a user
    past ten teams. *)
Theorem teams_stay_capped a c w : teams_capped (mw_db w) -> teams_capped (mw_db (run_admin_call E a c w)).
Proof. apply writes_kept, writes_keep_capped. Qed.

End Spec.
