(* ===== verification/AdminQuorum.v ===== *)
(** * The last super admin

    No call takes the last super admin away, but for those that edit teams. *)

From Stdlib Require Import Ascii.
From S2P Require Import Prelude Interfaces LimitTypes LimitStore Policy Constraints GatewayDeps Text Glob Sliding Effects AuditRow ExpiringKeys Validation Lockout Login Sessions Rbac Scope McpCache ApiKeys AdminDb AdminUsers AdminRoles AdminSteps.

Section Quorum.
Context {U V St : Type} `{Uuid U, !CacheText U, !UuidParse U, EqDecision U, EqDecision V, JsonValue V, ExpiringKeys St}.
Context (E : admin_env U V).
Abbreviation W := (admin_world U V St).
Abbreviation DB := (admin_db U V).
Implicit Types (d : DB) (w : W) (a : AuthUser U).

(** ** The last super admin *)

(** Someone active holds the role, in some scope or through a team. *)
Definition super_held d : Prop :=
  exists u r, u ∈ ad_users d /\ us_is_active u = true /\ us_deleted_at u = None /\
    r ∈ ad_roles d /\ ro_name r = "super_admin" /\
    ((exists x, x ∈ ad_assignments d /\ as_role x = ro_id r /\ as_user x = us_id u) \/
     exists t m, t ∈ ad_team_roles d /\ tr_role t = ro_id r /\ m ∈ ad_members d /\ me_team m = tr_team t /\ me_user m = us_id u).

Lemma super_admins_held d : super_admins d <> [] <-> super_held d.
Proof.
  unfold super_admins, super_held, holds_role_named, in_team, live_user. split.
  - intros Hne. destruct (remove_dups _) as [|x xs] eqn:Ex; [done|]. clear Hne.
    assert (Hx : x ∈ x :: xs) by left. rewrite <- Ex in Hx. apply elem_of_remove_dups, list_elem_of_fmap in Hx as (u & -> & [Hu Hin]%list_elem_of_filter).
    apply andb_true_iff in Hu as [[Ha Hl]%andb_true_iff Hr]. apply bool_decide_eq_true in Hl.
    apply existsb_elem in Hr as (r & Hr & [Hn Hh]%andb_true_iff). apply bool_decide_eq_true in Hn.
    exists u, r. split_and!; [done..|]. apply orb_true_iff in Hh as [Hh|Hh]; [left|right].
    + apply existsb_elem in Hh as (y & Hy & [H1'%bool_decide_eq_true H2'%bool_decide_eq_true]%andb_true_iff). by exists y.
    + apply existsb_elem in Hh as (t & Ht & [H1'%bool_decide_eq_true H2'%bool_decide_eq_true]%andb_true_iff).
      apply list_elem_of_fmap in H2' as (m & [= Hm1 Hm2] & Hm). exists t, m. done.
  - intros (u & r & Hu & Ha & Hl & Hr & Hn & Hh) Hnil.
    assert (Hin : us_id u ∈ @nil U); [|by apply elem_of_nil in Hin]. rewrite <- Hnil.
    apply elem_of_remove_dups, list_elem_of_fmap. exists u. split; [done|]. apply list_elem_of_filter. split; [|done].
    rewrite Ha. simpl. apply andb_true_iff. split; [by apply bool_decide_eq_true|]. apply existsb_elem. exists r. split; [done|].
    apply andb_true_iff. split; [by apply bool_decide_eq_true|]. apply orb_true_iff. destruct Hh as [(y & Hy & H1' & H2')|(t & m & Ht & H1' & Hm & H2' & H3')]; [left|right].
    + apply existsb_elem. exists y. split; [done|]. apply andb_true_iff. by split; apply bool_decide_eq_true.
    + apply existsb_elem. exists t. split; [done|]. apply andb_true_iff. split; [by apply bool_decide_eq_true|].
      apply bool_decide_eq_true, list_elem_of_fmap. exists m. by rewrite H2', H3'.
Qed.

(** The tables say at least what they said. *)
Definition grows d d' : Prop :=
  (forall u, u ∈ ad_users d -> us_is_active u = true -> us_deleted_at u = None ->
     exists u', u' ∈ ad_users d' /\ us_id u' = us_id u /\ us_is_active u' = true /\ us_deleted_at u' = None) /\
  (forall r, r ∈ ad_roles d -> ro_name r = "super_admin" -> exists r', r' ∈ ad_roles d' /\ ro_id r' = ro_id r /\ ro_name r' = "super_admin") /\
  (forall x r, x ∈ ad_assignments d -> r ∈ ad_roles d -> ro_name r = "super_admin" -> as_role x = ro_id r ->
     exists x', x' ∈ ad_assignments d' /\ as_role x' = as_role x /\ as_user x' = as_user x) /\
  (forall t, t ∈ ad_team_roles d -> t ∈ ad_team_roles d') /\
  (forall m, m ∈ ad_members d -> m ∈ ad_members d').
Lemma grows_held d d' : grows d d' -> super_held d -> super_held d'.
Proof.
  intros (Hu & Hr & Hx & Ht & Hm) (u & r & Hu0 & Ha & Hl & Hr0 & Hn & Hh).
  destruct (Hu u Hu0 Ha Hl) as (u' & ? & Eu & ? & ?). destruct (Hr r Hr0 Hn) as (r' & ? & Er & ?).
  exists u', r'. split_and!; [done..|]. rewrite Eu, Er. destruct Hh as [(x & Hx0 & E1 & E2)|(t & m & Ht0 & E1 & Hm0 & E2 & E3)].
  - left. destruct (Hx x r Hx0 Hr0 Hn E1) as (x' & ? & E3 & E4). exists x'. by rewrite E3, E4.
  - right. exists t, m. auto 8.
Qed.

(** Ids are unique, the role of super admins is the system's, and someone holds it. *)
Definition governed d : Prop :=
  NoDup (ro_id <$> ad_roles d) /\ (forall r, r ∈ ad_roles d -> ro_name r = "super_admin" -> ro_is_system r = true).
Definition rooted d : Prop := governed d /\ super_admins d <> [].

Lemma find_role_elem d id r : find_role d id = Some r -> r ∈ ad_roles d /\ ro_id r = id.
Proof. unfold find_role. intros Hh. apply head_Some_elem_of in Hh. by apply list_elem_of_filter in Hh as [? ?]. Qed.
Lemma find_role_unique d r : NoDup (ro_id <$> ad_roles d) -> r ∈ ad_roles d -> find_role d (ro_id r) = Some r.
Proof.
  intros Hn Hr. unfold find_role. destruct (filter _ _) as [|r' l] eqn:Ef.
  - assert (Hin : r ∈ filter (fun r0 => ro_id r0 = ro_id r) (ad_roles d)) by (by apply list_elem_of_filter). rewrite Ef in Hin. by apply elem_of_nil in Hin.
  - assert (Hin : r' ∈ filter (fun r0 => ro_id r0 = ro_id r) (ad_roles d)) by (rewrite Ef; left).
    apply list_elem_of_filter in Hin as [He Hin]. simpl. f_equal.
    apply list_elem_of_lookup in Hin as [i Hi], Hr as [j Hj]. assert (i = j); [|by simplify_eq].
    apply (NoDup_lookup (ro_id <$> ad_roles d) i j (ro_id r)); [done| |]; rewrite list_lookup_fmap; [by rewrite Hi, <- He|by rewrite Hj].
Qed.

Lemma rooted_grows d d' : ad_roles d' = ad_roles d -> grows d d' -> rooted d -> rooted d'.
Proof.
  intros Hr Hg [Hgov Hs]. split; [unfold governed in *; by rewrite Hr|].
  apply super_admins_held. apply super_admins_held in Hs. by apply (grows_held d).
Qed.
Lemma grows_same d d' :
  (forall u, u ∈ ad_users d -> us_is_active u = true -> us_deleted_at u = None ->
     exists u', u' ∈ ad_users d' /\ us_id u' = us_id u /\ us_is_active u' = true /\ us_deleted_at u' = None) ->
  ad_roles d' = ad_roles d -> (forall x, x ∈ ad_assignments d -> x ∈ ad_assignments d') ->
  (forall t, t ∈ ad_team_roles d -> t ∈ ad_team_roles d') -> (forall m, m ∈ ad_members d -> m ∈ ad_members d') ->
  rooted d -> rooted d'.
Proof.
  intros Hu Hr Ha Ht Hm. apply rooted_grows; [done|]. split_and!; [done| |intros x r Hx Hin Hn Hrole; exists x; by auto|done..].
  rewrite Hr. intros r Hin Hn. by exists r.
Qed.
Lemma live_self d : forall u, u ∈ ad_users d -> us_is_active u = true -> us_deleted_at u = None ->
  exists u', u' ∈ ad_users d /\ us_id u' = us_id u /\ us_is_active u' = true /\ us_deleted_at u' = None.
Proof. intros u ???. by exists u. Qed.

(** ** Writes that keep it *)

Abbreviation keeps_rooted := (keeps St rooted).
Ltac each_case := cbv beta zeta; repeat (case_match; simplify_eq/=; try done).
Ltac same_or_more := apply grows_same; simpl; try done; try apply live_self; try (intros x Hx; rewrite elem_of_app; by left).

Lemma rooted_user_row id f d :
  (forall u, us_id (f u) = us_id u) -> (forall u, us_is_active u = true -> us_is_active (f u) = true) ->
  (forall u, us_deleted_at (f u) = us_deleted_at u) -> rooted d -> rooted (update_user_row id f d).
Proof.
  intros Hi Ha Hd. apply grows_same; [|done..]. intros u Hu Hact Hlive. simpl.
  exists (if decide (us_id u = id) then f u else u). split; [apply list_elem_of_fmap; by exists u|].
  case_decide; [|done]. rewrite Hi, Hd. split_and!; auto.
Qed.
Lemma rooted_set_display_name id name : keeps_rooted (set_display_name E id name).
Proof. apply keeps_db, keeps_stmt. intros n t d Hd. destruct (_ && _); [done|]. by apply rooted_user_row. Qed.
Lemma rooted_set_active id : keeps_rooted (set_active E id true).
Proof. apply keeps_db, keeps_stmt. intros n t d Hd. by apply rooted_user_row. Qed.
Lemma rooted_update_password id hash b : keeps_rooted (update_password_hash E id hash b).
Proof. apply keeps_db, keeps_stmt. intros n t d Hd. by apply rooted_user_row. Qed.
Lemma rooted_assign u r k s b : keeps_rooted (insert_role_assignment E u r k s b).
Proof. apply keeps_stmt. intros n t d Hd. each_case. all: revert Hd; same_or_more. Qed.
Lemma rooted_keys_follow reason id : keeps_rooted (keys_follow E reason id).
Proof. apply keeps_stmt. intros n t d Hd. revert Hd. simpl. same_or_more. Qed.
Lemma rooted_team_insert n t : keeps_rooted (team_insert E n t).
Proof. apply keeps_stmt. intros k s d Hd. each_case; revert Hd; same_or_more. Qed.
Lemma rooted_team_update id n t : keeps_rooted (team_update E id n t).
Proof. apply keeps_stmt. intros k s d Hd. each_case; revert Hd; same_or_more. Qed.
Lemma rooted_add_member u t : keeps_rooted (add_member_capped E u t MAX_TEAMS_PER_USER).
Proof. apply keeps_db, keeps_stmt. intros n s d Hd. unfold capped_insert. each_case; revert Hd; same_or_more. Qed.
Lemma rooted_assign_role t r b : keeps_rooted (assign_role E t r b).
Proof. apply keeps_db, keeps_stmt. intros n s d Hd. each_case; revert Hd; same_or_more. Qed.

Lemma elem_of_others id (r : role_row U V) d : r ∈ ad_roles d -> ro_id r <> id -> ro_name r ∈ ro_name <$> filter (fun r => ro_id r <> id) (ad_roles d).
Proof. intros Hr Hi. apply list_elem_of_fmap. exists r. split; [done|]. by apply list_elem_of_filter. Qed.
Lemma refused_name (r : role_row U V) others : role_refused r others = None -> ro_name r ∈ ro_name <$> others -> False.
Proof. unfold role_refused. intros Hr Hin. repeat case_match; try done. by apply bool_decide_eq_false in H4. Qed.
Lemma refused_id (r : role_row U V) others : role_refused r others = None -> ro_id r ∈ ro_id <$> others -> False.
Proof. unfold role_refused. intros Hr Hin. repeat case_match; try done. by apply bool_decide_eq_false in H3. Qed.
Lemma rooted_super d : rooted d -> exists r, r ∈ ad_roles d /\ ro_name r = "super_admin" /\ ro_is_system r = true.
Proof. intros [[Hn Hs] Hh]. apply super_admins_held in Hh as (u & r & _ & _ & _ & Hr & Hnm & _). exists r. auto. Qed.

Lemma rooted_role_insert n t v b : keeps_rooted (role_insert E n t v b).
Proof.
  apply keeps_stmt. intros k s d Hd. cbv beta zeta. destruct (role_refused _ _) eqn:Er; [done|]. simpl.
  destruct (rooted_super _ Hd) as (rs & Hrs & Hns & _). destruct Hd as [[Hn Hsys] Hh]. split; [split|].
  - simpl. rewrite fmap_app. apply NoDup_app. split_and!; [done| |apply NoDup_singleton].
    intros x Hx ->%list_elem_of_singleton. exact (refused_id _ _ Er Hx).
  - simpl. intros r [Hr| ->%list_elem_of_singleton]%elem_of_app Hnm; [auto|]. exfalso. apply (refused_name _ _ Er).
    rewrite Hnm, <- Hns. by apply list_elem_of_fmap_2.
  - apply super_admins_held. apply super_admins_held in Hh. revert Hh. apply grows_held. split_and!; simpl; try done; try apply live_self.
    + intros r Hr Hnm. exists r. split; [rewrite elem_of_app; by left|done].
    + intros x r Hx _ _ _. by exists x.
Qed.

(** An edit that leaves the ids, the mark of the system and, on its roles, the names. *)
Lemma rooted_update_roles id f d :
  (forall r, ro_id (f r) = ro_id r) -> (forall r, ro_is_system (f r) = ro_is_system r) ->
  (forall r, find_role d id = Some r -> ro_name (f r) = ro_name r \/ ro_is_system r = false) ->
  rooted d -> rooted (update_roles id f d).1.
Proof.
  intros Hi Hsf Hname Hd. unfold update_roles. destruct (find_role d id) as [r0|] eqn:Ef; [|done].
  destruct (role_refused _ _) eqn:Er; [done|]. simpl. destruct (rooted_super _ Hd) as (rs & Hrs & Hns & Hss).
  specialize (Hname r0 eq_refl). pose proof (find_role_elem _ _ _ Ef) as [Hr0 Hid]. destruct Hd as [[Hn Hsys] Hh].
  assert (Huniq : forall r, r ∈ ad_roles d -> ro_id r = id -> r = r0).
  { intros r Hr He. pose proof (find_role_unique d r Hn Hr) as Hu. rewrite He, Ef in Hu. by simplify_eq. }
  split; [split|].
  - simpl. rewrite <- list_fmap_compose. erewrite list_fmap_ext; [exact Hn|]. intros i r _. simpl. by case_decide.
  - simpl. intros r' (r & -> & Hr)%list_elem_of_fmap Hnm. case_decide as Hc; [|auto]. rewrite Hsf. pose proof (Huniq r Hr Hc) as ->.
    destruct Hname as [Hk|Hk]; [apply Hsys; congruence|]. destruct (decide (ro_id rs = id)) as [He|He].
    + pose proof (Huniq rs Hrs He) as ->. congruence.
    + exfalso. apply (refused_name _ _ Er). rewrite Hnm, <- Hns. by apply elem_of_others.
  - apply super_admins_held. apply super_admins_held in Hh. revert Hh. apply grows_held. split_and!; simpl; try done; try apply live_self.
    + intros r Hr Hnm. exists (if decide (ro_id r = id) then f r else r). split; [apply list_elem_of_fmap; by exists r|].
      case_decide as Hc; [|done]. rewrite Hi. pose proof (Huniq r Hr Hc) as ->. destruct Hname as [->|Hk]; [done|].
      rewrite (Hsys _ Hr Hnm) in Hk. done.
    + intros x r Hx _ _ _. by exists x.
Qed.
Lemma rooted_set_document id v : keeps_rooted (set_policy_document E id v).
Proof. apply keeps_db, keeps_stmt. intros n t d Hd. apply rooted_update_roles; [done..|by left|done]. Qed.

Lemma add_assignment_keeps (l : list (assignment_row U)) x0 x : x ∈ l -> x ∈ add_assignment l x0.
Proof. intros Hx. unfold add_assignment. case_bool_decide; [done|]. rewrite elem_of_app. by left. Qed.
Lemma add_assignments_keep (rows l : list (assignment_row U)) x : x ∈ l -> x ∈ foldl add_assignment l rows.
Proof. revert l. induction rows as [|a rows IH]; [done|]. intros l Hx. simpl. by apply IH, add_assignment_keeps. Qed.
Lemma rooted_copy f t b : keeps_rooted (copy_assignments E f t b).
Proof. apply keeps_db, keeps_stmt. intros n s d Hd. revert Hd. same_or_more. intros x. apply add_assignments_keep. Qed.

(** A role that is not the system's, and what goes with it. *)
Definition plain_role (id : U) d : Prop := forall r, r ∈ ad_roles d -> ro_id r = id -> ro_is_system r = false.
Lemma plain_not_super id d r : plain_role id d -> rooted d -> r ∈ ad_roles d -> ro_name r = "super_admin" -> ro_id r <> id.
Proof. intros Hp [[_ Hs] _] Hr Hn He. specialize (Hs r Hr Hn). rewrite (Hp r Hr He) in Hs. done. Qed.
Lemma rooted_delete_assignments id d : plain_role id d -> rooted d ->
  rooted (set_assignments (filter (fun x => as_role x <> id) (ad_assignments d)) d).
Proof.
  intros Hp Hd. apply (rooted_grows d); [done| |done]. split_and!; simpl; try done; try apply live_self.
  - intros r Hr Hn. by exists r.
  - intros x r Hx Hr Hn Hx'. exists x. split; [|done]. apply list_elem_of_filter. split; [|done]. rewrite Hx'.
    by apply (plain_not_super _ d).
Qed.
Lemma rooted_delete_custom id : keeps_rooted (delete_custom E id).
Proof.
  apply keeps_db, keeps_stmt. intros n t d Hd. simpl. set (gone := filter _ (ad_roles d)).
  assert (Hgone : forall r, r ∈ ad_roles d -> ro_name r = "super_admin" -> ro_id r ∉ ro_id <$> gone).
  { destruct Hd as [[Hn Hsys] _]. intros r Hr Hnm (r' & He & [[_ Hs'] Hr']%list_elem_of_filter)%list_elem_of_fmap.
    pose proof (find_role_unique d r Hn Hr) as H1'. pose proof (find_role_unique d r' Hn Hr') as H2'. rewrite He, H2' in H1'. simplify_eq.
    by rewrite (Hsys r Hr Hnm) in Hs'. }
  assert (Hstay : forall r, r ∈ ad_roles d -> ro_name r = "super_admin" -> r ∈ filter (fun r => ~ (ro_id r = id /\ ro_is_system r = false)) (ad_roles d)).
  { destruct Hd as [[Hn Hsys] _]. intros r Hr Hnm. apply list_elem_of_filter. split; [|done]. intros [_ Hs']. by rewrite (Hsys r Hr Hnm) in Hs'. }
  destruct Hd as [[Hn Hsys] Hh]. split; [split|].
  - simpl. clear -Hn. induction (ad_roles d) as [|r l IH]; [done|]. apply NoDup_cons in Hn as [Hx Hl]. rewrite filter_cons. case_decide; [|by apply IH].
    simpl. apply NoDup_cons. split; [|by apply IH]. intros (r' & He & [_ Hr']%list_elem_of_filter)%list_elem_of_fmap. apply Hx. rewrite He. by apply list_elem_of_fmap_2.
  - simpl. intros r [_ Hr]%list_elem_of_filter. auto.
  - apply super_admins_held. apply super_admins_held in Hh as (u & r & Hu & Ha & Hl & Hr & Hnm & Hx). exists u, r. simpl. split_and!; try done; [auto|].
    destruct Hx as [(x & Hx & E1 & E2)|(t' & m & Ht & E1 & Hm)]; [left; exists x|right; exists t', m].
    + split; [|done]. apply list_elem_of_filter. split; [|done]. rewrite E1. auto.
    + split; [|done]. apply list_elem_of_filter. split; [|done]. rewrite E1. auto.
Qed.

(** ** Handlers that keep it *)

Lemma triple_keeps {X A} (I : DB -> Prop) (p : io W X A) : keeps St I p -> triple I p (fun _ => I) (fun _ => True).
Proof. intros Hp w Hw. specialize (Hp w Hw). by destruct (p w) as [w' [x|e]]. Qed.
Lemma triple_step {X A B} (I : DB -> Prop) R (p : io W X A) (f : A -> io W X B) :
  keeps St I p -> (forall x, triple I (f x) R (fun _ => True)) -> triple I (p ≫= f) R (fun _ => True).
Proof. intros Hp. by apply triple_bind, triple_keeps. Qed.
Lemma keeps_triple {X A} (I : DB -> Prop) (p : io W X A) : triple I p (fun _ => I) I -> keeps St I p.
Proof. intros Hp w Hw. specialize (Hp w Hw). by destruct (p w) as [w' [x|e]]. Qed.
Lemma keeps_transaction_of {A} (I J : DB -> Prop) (body : io W AppError A) :
  (forall d, I d -> J d) -> triple J body (fun _ => I) (fun _ => True) -> keeps St I (transaction E body).
Proof.
  intros HIJ Hb. apply keeps_triple, triple_transaction; [|done].
  apply (triple_weaken J _ (fun _ => I) _ (fun _ => True) _); [done|done|done|exact Hb].
Qed.

Lemma keeps_governed {A} (q : nat -> Z -> DB -> DB * result db_failure A) :
  (forall n t d, ad_roles (q n t d).1 = ad_roles d) -> keeps St governed (stmt E q).
Proof. intros Hq. apply keeps_stmt. intros n t d Hd. unfold governed. by rewrite Hq. Qed.

Lemma quorum_checked : triple governed (assert_super_admin_quorum E : io W AppError unit) (fun _ => rooted) (fun _ => True).
Proof.
  eapply triple_bind; [apply triple_db, (triple_fetch E); intros d _; exact I|]. intros count w [-> Hw]. simpl.
  destruct (length _) eqn:El; [done|]. split; [done|]. intros Hnil. by rewrite Hnil in El.
Qed.

Lemma governed_write id l by_ : keeps St governed (write_user_role_assignments E id l by_).
Proof.
  apply admin_keeps_bind; [apply keeps_db, keeps_governed; done|intros _]. induction l as [|x l IH]; simpl; [keep_db|].
  apply admin_keeps_bind; [keep_db|intros scope].
  apply admin_keeps_bind; [apply (keeps_mapped _ (insert_role_assignment E id _ _ _ _)), keeps_governed; intros; simpl; each_case|intros row]. keep_db.
Qed.
Lemma governed_set_active id b : keeps St governed (set_active E id b).
Proof. by apply keeps_db, keeps_governed. Qed.
Lemma governed_set_display_name id n : keeps St governed (set_display_name E id n).
Proof. apply keeps_db, keeps_governed. intros. cbv beta zeta. by case_match. Qed.
Lemma governed_soft_delete id : keeps St governed (soft_delete E id).
Proof. apply keeps_db, keeps_governed. intros. cbv beta zeta. by case_match. Qed.
Lemma governed_keys_follow r id : keeps St governed (db (keys_follow E r id)).
Proof. by apply keeps_db, keeps_governed. Qed.

Lemma rooted_write id l by_ : keeps_rooted (insert_role_assignments E id l by_).
Proof.
  induction l as [|x l IH]; simpl; [keep_db|]. apply admin_keeps_bind; [keep_db|intros scope].
  apply admin_keeps_bind; [apply (keeps_mapped _ (insert_role_assignment E id _ _ _ _)), rooted_assign|intros row]. keep_db.
Qed.

(** An edit that touches the super admins counts them. *)
Lemma rooted_edit_user id req sub (touches : bool) :
  (touches = false -> uu_is_active req <> Some false /\ uu_role_assignments req = None) ->
  keeps_rooted (transaction E (edit_user E id req sub touches)).
Proof.
  intros Ht. destruct touches.
  - apply (keeps_transaction_of _ governed); [by intros d [? _]|].
    pose proof governed_write. pose proof governed_set_active. pose proof governed_set_display_name.
    apply triple_step; [keep_db|intros _]. apply triple_step; [keep_db|intros _]. apply triple_step; [keep_db|intros _].
    apply triple_step; [keep_db|intros _]. apply quorum_checked.
  - apply keeps_transaction. destruct (Ht eq_refl) as [Hact Hr]. unfold edit_user. rewrite Hr. pose proof rooted_set_display_name. pose proof rooted_set_active.
    destruct (uu_is_active req) as [[|]|]; [|done|]; keep_db.
Qed.
Lemma rooted_remove_user id : keeps_rooted (transaction E (remove_user E id)).
Proof.
  apply (keeps_transaction_of _ governed); [by intros d [? _]|].
  apply triple_step; [keep_db|intros _]. apply triple_step; [apply governed_soft_delete|intros rows].
  destruct (rows =? 0)%nat; [by apply triple_throw|]. apply triple_step; [apply governed_keys_follow|intros _; apply quorum_checked].
Qed.

Lemma rooted_update_user a id req : keeps_rooted (update_user E a id req).
Proof.
  pose proof (rooted_edit_user id req (cl_sub (au_claims a)) (bool_decide (uu_is_active req = Some false) || bool_decide (is_Some (uu_role_assignments req)))) as Hedit.
  assert (Hw : keeps_rooted (transaction E (edit_user E id req (cl_sub (au_claims a)) (bool_decide (uu_is_active req = Some false) || bool_decide (is_Some (uu_role_assignments req)))))).
  { apply Hedit. intros [Ha%bool_decide_eq_false Hr%bool_decide_eq_false]%orb_false_iff. split; [done|]. by apply eq_None_not_Some. }
  clear Hedit. pose proof rooted_keys_follow. keep_db.
Qed.
Lemma rooted_delete_user a id : keeps_rooted (delete_user E a id).
Proof. pose proof rooted_remove_user. keep_db. Qed.

(** What is known of the role an edit is about. *)
Lemma triple_find_kind id (P F : DB -> Prop) : (forall d, P d -> F d) ->
  triple P (find_kind E id : io W AppError _) (fun x d => x = (fun r => (ro_is_system r, ro_name r)) <$> find_role d id /\ P d) F.
Proof. intros HF. apply triple_db, triple_fetch, HF. Qed.
Definition role_is (id : U) (is_system : bool) d : Prop := forall r, find_role d id = Some r -> ro_is_system r = is_system.
Lemma role_is_plain id d : rooted d -> role_is id false d -> plain_role id d.
Proof. intros [[Hn _] _] Hi r Hr <-. apply Hi. by apply find_role_unique. Qed.

Lemma rooted_update_role a id req : keeps_rooted (update_role E a id req).
Proof.
  apply keeps_triple. eapply triple_bind; [apply triple_quiet; [auto with quiet|done]|intros ?].
  eapply triple_bind; [apply triple_find_kind; done|intros found]. simpl.
  eapply triple_bind; [apply triple_lift; by intros d [_ ?]|intros [is_system old]]. simpl.
  apply (triple_weaken (fun d => rooted d /\ role_is id is_system d) _ (fun _ => rooted) _ rooted _); [|done|done|].
  { intros d (Hok & Hf & Hd). split; [done|]. intros r Hr. rewrite Hr in Hf. destruct found as [[??]|]; by simplify_eq/=. }
  assert (Hpre : triple (fun d => rooted d /\ role_is id is_system d)
      (if is_system then _ ← global_permission E a "roles:edit_system"; if bool_decide (is_Some (uro_name req)) then throw (BadRequest "Cannot rename system roles") else mret tt
       else mret tt : io W AppError unit) (fun _ d => rooted d /\ (uro_name req = None \/ role_is id false d)) rooted).
  { destruct is_system; [|intros w [? ?]; simpl; auto]. eapply triple_bind; [apply triple_quiet; [auto with quiet|by intros d [? ?]]|intros ?].
    case_bool_decide as Hs; [apply triple_throw; by intros d [? ?]|]. intros w [? ?]. simpl. split; [done|]. left. by apply eq_None_not_Some. }
  eapply triple_bind; [exact Hpre|intros ?].
  eapply triple_bind; [apply triple_quiet; [destruct (uro_policy_document req); auto with quiet|by intros d [? ?]]|intros ?].
  eapply triple_bind with (Q := fun _ => rooted).
  - apply triple_db, triple_stmt; [|by intros d [? ?]]. intros n t d [Hd Hnm].
    assert (Hu : rooted (update_roles id (patch_role t (trim <$> uro_name req) (mjoin (uro_description req)) (uro_policy_document req) (bool_decide (is_Some (uro_description req)))) d).1).
    { apply rooted_update_roles; [done..| |done]. intros r Hr. destruct Hnm as [->|Hnm]; [by left|right; auto]. }
    destruct (update_roles _ _ _) as [d' [[]|e]]; done.
  - intros ?. assert (Hq : keeps_rooted (answer_role E a "role.updated" id old)) by keep_db.
    intros w Hw. specialize (Hq w Hw). by destruct (answer_role _ _ _ _ _ w) as [w' [y|e]].
Qed.

Lemma rooted_reset_role a id : keeps_rooted (reset_role E a id).
Proof. pose proof rooted_set_document. keep_db. Qed.

Definition plainly (id : U) d : Prop := rooted d /\ plain_role id d.
Lemma plainly_copy id t b : keeps St (plainly id) (copy_assignments E id t b).
Proof. apply keeps_db, keeps_stmt. intros n s d [Hd Hp]. split; [|done]. revert Hd. simpl. same_or_more. intros x. apply add_assignments_keep. Qed.
Lemma plainly_delete_assignments id : keeps St (plainly id) (delete_assignments E id).
Proof. apply keeps_db, keeps_stmt. intros n s d [Hd Hp]. split; [|done]. by apply rooted_delete_assignments. Qed.
Lemma rooted_retire_role id to assigned sub : triple (plainly id) (retire_role E id to assigned sub : io W AppError unit) (fun _ => rooted) (fun _ => True).
Proof.
  apply triple_step.
  - pose proof plainly_copy. pose proof plainly_delete_assignments. keep_db.
  - intros _ w [Hd _]. pose proof (rooted_delete_custom id w Hd) as Hc. by destruct (delete_custom E id w) as [w' [x|e]].
Qed.
Lemma rooted_delete_role a id to : keeps_rooted (delete_role E a id to).
Proof.
  apply keeps_triple. eapply triple_bind; [apply triple_quiet; [auto with quiet|done]|intros ?].
  eapply triple_bind; [apply triple_find_kind; done|intros found]. simpl.
  eapply triple_bind; [apply triple_lift; by intros d [_ ?]|intros [is_system old]]. simpl.
  apply (triple_weaken (fun d => rooted d /\ role_is id is_system d) _ (fun _ => rooted) _ rooted _); [|done|done|].
  { intros d (Hok & Hf & Hd). split; [done|]. intros r Hr. rewrite Hr in Hf. destruct found as [[??]|]; by simplify_eq/=. }
  destruct is_system; [apply triple_throw; by intros d [? ?]|].
  apply (triple_weaken (plainly id) _ (fun _ => rooted) _ rooted _); [|done|done|].
  { intros d [Hd Hi]. split; [done|]. by apply role_is_plain. }
  eapply triple_bind; [apply triple_quiet; [apply quiet_db_or, quiet_fetch|by intros d [? ?]]|intros assigned].
  eapply triple_bind with (Q := fun _ => rooted).
  - apply triple_transaction; [|by intros d [? ?]].
    apply (triple_weaken (plainly id) _ (fun _ => rooted) _ (fun _ => True) _); [done|done|done|apply rooted_retire_role].
  - intros ?. eapply triple_bind; [apply triple_quiet; [auto with quiet|done]|intros ? w Hw; exact Hw].
Qed.

(** A new user comes without assignments: dropping those of its id takes nothing away. *)
Definition held_beside (id : U) d : Prop := rooted d /\ id ∉ us_id <$> ad_users d.
Lemma rooted_drop_beside id d users :
  held_beside id d -> (forall u, u ∈ ad_users d -> u ∈ users) ->
  rooted (set_assignments (filter (fun x => as_user x <> id) (ad_assignments d)) (set_users users d)).
Proof.
  intros [[Hg Hh] Hid] Hu. split; [done|]. apply super_admins_held. apply super_admins_held in Hh as (u & r & Hin & Ha & Hl & Hr & Hnm & Hx).
  exists u, r. simpl. split_and!; try done; [auto|]. destruct Hx as [(x & Hx & E1 & E2)|Hx]; [left; exists x|by right].
  split; [|done]. apply list_elem_of_filter. split; [|done]. rewrite E2. intros <-. apply Hid, list_elem_of_fmap. by exists u.
Qed.
Lemma inserted_user e n h c (I : DB -> Prop) :
  triple I (user_insert E e n h c : io W AppError (User U))
    (fun u d => exists d0, I d0 /\ us_id u ∉ us_id <$> ad_users d0 /\ d = set_users (ad_users d0 ++ [u]) d0) (fun _ => True).
Proof.
  apply triple_db, triple_stmt; [|done]. intros k t d Hd. cbv beta zeta.
  destruct (_ || _); [done|]. destruct (bool_decide (_ ∈ _)) eqn:Hi; [done|]. apply bool_decide_eq_false in Hi.
  destruct (bool_decide _); [done|]. split; [|done]. exists d. done.
Qed.
Lemma rooted_create e n h c (l : list (RoleAssignmentRequest U)) by_ : keeps_rooted (transaction E (
  user ← user_insert E e n h c; role_assignments ← write_user_role_assignments E (us_id user) l by_; mret (user, role_assignments))).
Proof.
  apply (keeps_transaction_of _ rooted); [done|]. eapply triple_bind; [apply inserted_user|intros u].
  unfold write_user_role_assignments. apply triple_bind with (Q := fun _ => rooted).
  - eapply triple_bind with (Q := fun _ => rooted); [|intros _; apply triple_keeps, rooted_write].
    apply triple_db, triple_stmt; [|done]. intros k t d (d0 & Hd & Hid & ->). split; [|done].
    apply (rooted_drop_beside (us_id u) d0); [done|]. intros u' Hu'. rewrite elem_of_app. by left.
  - intros rows. by intros w Hw.
Qed.
Lemma rooted_create_user a req generated : keeps_rooted (create_user E a req generated).
Proof. pose proof rooted_create. keep_db. Qed.

(** Calls that take a member, a role or everything from a team. *)
Definition takes_from_team (c : admin_call (U := U) (V := V)) : bool :=
  match c with DeleteTeam _ | RemoveMember _ _ | RemoveTeamRole _ _ => true | _ => false end.

(** C8: While someone active holds the role of super admin, in some scope or through a team, no call
    of the administration takes the last holder away, whoever makes it and however its steps end:
    no edit or deletion of a user, no edit or deletion of a role.  Removing a member or a role from
    a team, and deleting a team, are left out: they do not count the holders. *)
Theorem last_super_admin_kept a c w : takes_from_team c = false -> rooted (mw_db w) -> rooted (mw_db (run_admin_call E a c w)).
Proof.
  pose proof rooted_update_password. pose proof rooted_keys_follow.
  pose proof rooted_team_insert. pose proof rooted_team_update. pose proof rooted_add_member. pose proof rooted_assign_role. pose proof rooted_role_insert.
  pose proof rooted_create_user. pose proof rooted_update_user. pose proof rooted_delete_user. pose proof rooted_update_role. pose proof rooted_reset_role. pose proof rooted_delete_role.
  intros Hc. revert w. destruct c; try done; match goal with |- forall w, rooted (mw_db w) -> rooted (mw_db (run_admin_call E a ?c w)) =>
    let p := eval cbn [run_admin_call] in (fun w => run_admin_call E a c w) in
    match p with (fun w => (?q w).1) => change (keeps_rooted q) | (fun w => (?q w).1) => idtac end end.
  all: keep_db.
Qed.
End Quorum.
