(* ===== verification/AdminGuard.v ===== *)
(** * Who hands out the roles of administrators

    A new assignment of the role of admin or super admin is made by someone who has it. *)
From Stdlib Require Import Ascii.
From S2P Require Import Prelude Interfaces LimitTypes LimitStore Policy Constraints Sliding Effects GatewayDeps Text AuditRow McpCache ExpiringKeys Glob Validation Lockout Login LoginSpec Sessions SessionSpec Rbac Scope ApiKeys AdminDb AdminUsers AdminRoles AdminSteps AdminQuorum.

Section Guard.
Context {U V St : Type} `{Uuid U, !CacheText U, !UuidParse U, EqDecision U, EqDecision V, JsonValue V, ExpiringKeys St}.
Context (E : admin_env U V).
Abbreviation W := (admin_world U V St).
Abbreviation DB := (admin_db U V).
Implicit Types (d : DB) (w : W) (a : AuthUser U).

Definition caller a : U := cl_sub (au_claims a).
Definition role_names d a : list string := load_user_role_names (rbac_of d) (caller a).

(** What [may_assign] lets pass. *)
Definition may_give (roles : list string) (name : string) : Prop :=
  (name = "super_admin" -> "super_admin" ∈ roles) /\ (name = "admin" -> "super_admin" ∈ roles \/ "admin" ∈ roles).
Lemma may_assign_ok roles requested name : may_assign roles requested = Ok tt -> name ∈ requested -> may_give roles name.
Proof.
  intros Hm Hin. induction requested as [|n requested IH]; [by apply elem_of_nil in Hin|].
  unfold may_assign in *. simpl in Hm. destruct (bool_decide (n = _) && _) eqn:E1; [done|]. destruct (bool_decide (n = _) && _) eqn:E2 in Hm; [done|].
  apply elem_of_cons in Hin as [->|Hin]; [|by apply IH]. split; intros ->.
  - apply andb_false_iff in E1 as [E1%bool_decide_eq_false|E1%negb_false_iff]; [done|]. by apply bool_decide_eq_true in E1.
  - apply andb_false_iff in E2 as [E2%bool_decide_eq_false|E2%negb_false_iff]; [done|].
    apply orb_true_iff in E2 as [E2|E2]; [left|right]; by apply bool_decide_eq_true in E2.
Qed.

(** ** What a call adds *)

(** Since [d0]: the same roles; what is new among the assignments is one of [ids], given by
    [sub]. *)
Definition adds (d0 : DB) (ids : list U) (sub : U) d : Prop :=
  ad_roles d = ad_roles d0 /\
  forall x, x ∈ ad_assignments d -> x ∈ ad_assignments d0 \/ (as_role x ∈ ids /\ as_by x = Some sub).
Definition fewer (d0 : DB) d : Prop := forall x, x ∈ ad_assignments d -> x ∈ ad_assignments d0.

Lemma adds_write d0 ids sub id l : rar_role_id <$> l ⊆ ids -> keeps St (adds d0 ids sub) (insert_role_assignments E id l sub).
Proof.
  induction l as [|x l IH]; intros Hl; simpl; [keep_db|]. apply admin_keeps_bind; [keep_db|intros scope].
  assert (IH' : keeps St (adds d0 ids sub) (insert_role_assignments E id l sub)) by (apply IH; set_solver). clear IH.
  apply admin_keeps_bind; [apply (keeps_mapped _ (insert_role_assignment E id _ _ _ _))|intros row; keep_db].
  apply keeps_stmt. intros n t d Hd. cbv zeta. destruct (bool_decide _); [done|]. destruct (find_role _ _); [|done].
  destruct (match scope.2 with Some _ => _ | None => _ end); [done|]. simpl. destruct Hd as [Hr Hx]. split; [done|].
  intros y [Hy| ->%list_elem_of_singleton]%elem_of_app; [by apply Hx|]. right. split; [|done]. simpl. set_solver.
Qed.
Lemma adds_drop d0 ids sub id : keeps St (adds d0 ids sub) (delete_role_assignments E id).
Proof. apply keeps_db, keeps_stmt. intros n t d [Hr Hx]. split; [done|]. simpl. intros x [_ Hin]%list_elem_of_filter. by apply Hx. Qed.
Lemma adds_same {A} d0 ids sub (q : nat -> Z -> DB -> DB * result db_failure A) :
  (forall n t d, ad_roles (q n t d).1 = ad_roles d /\ ad_assignments (q n t d).1 = ad_assignments d) -> keeps St (adds d0 ids sub) (stmt E q).
Proof. intros Hq. apply keeps_stmt. intros n t d [Hr Hx]. destruct (Hq n t d) as [E1 E2]. unfold adds. by rewrite E1, E2. Qed.
Lemma adds_set_display_name d0 ids sub id n : keeps St (adds d0 ids sub) (set_display_name E id n).
Proof. apply keeps_db, adds_same. intros. cbv beta zeta. by case_match. Qed.
Lemma adds_set_active d0 ids sub id b : keeps St (adds d0 ids sub) (set_active E id b).
Proof. by apply keeps_db, adds_same. Qed.
Lemma adds_user_insert d0 ids sub e n h c : keeps St (adds d0 ids sub) (user_insert E e n h c).
Proof. apply keeps_db, adds_same. intros. cbv beta zeta. by repeat case_match. Qed.
Lemma adds_keys_follow d0 ids sub r id : keeps St (adds d0 ids sub) (keys_follow E r id).
Proof. by apply adds_same. Qed.

Lemma fewer_stmt {A} d0 (q : nat -> Z -> DB -> DB * result db_failure A) :
  (forall n t d, ad_assignments (q n t d).1 ⊆ ad_assignments d) -> keeps St (fewer d0) (stmt E q).
Proof. intros Hq. apply keeps_stmt. intros n t d Hd x Hx. by apply Hd, (Hq n t d). Qed.

(** ** Calls *)

(** Roles as they were, and what is new among the assignments is the caller's to give. *)
Definition given (d0 : DB) a d : Prop :=
  exists ids, adds d0 ids (caller a) d /\ forall r, r ∈ ad_roles d0 -> ro_id r ∈ ids -> may_give (role_names d0 a) (ro_name r).
Lemma given_self d0 a : given d0 a d0.
Proof. exists []. split; [|intros r _ Hr; by apply elem_of_nil in Hr]. split; [done|]. intros x Hx. by left. Qed.
Definition requested_ok (d0 : DB) a (ids : list U) : Prop := forall r, r ∈ ad_roles d0 -> ro_id r ∈ ids -> may_give (role_names d0 a) (ro_name r).

Lemma triple_pure {X A} (phi : Prop) P Q F (p : io W X A) : (phi -> triple P p Q F) -> triple (fun d => phi /\ P d) p Q F.
Proof. intros Hp w [Hphi Hw]. by apply Hp. Qed.

Lemma caller_roles_read d0 a : triple (fun d => d = d0) (caller_roles E a : io W AppError _) (fun x d => (x = [] \/ x = role_names d0 a) /\ d = d0) (given d0 a).
Proof.
  intros w Hw. subst d0. unfold caller_roles, db_or, fetch, stmt. destruct (en_net E _); simpl; auto.
Qed.
Lemma names_of_read d0 a ids : triple (fun d => d = d0) (names_of E ids : io W AppError _)
  (fun x d => x = ro_name <$> filter (fun r => ro_id r ∈ ids) (ad_roles d0) /\ d = d0) (given d0 a).
Proof.
  apply triple_db. apply (triple_weaken (fun d => d = d0) _ (fun x d => x = ro_name <$> filter (fun r => ro_id r ∈ ids) (ad_roles d) /\ d = d0) _ (fun d => d = d0) _);
    [done|by intros x d [-> ->]|intros d ->; apply given_self|by apply triple_fetch].
Qed.
Lemma may_assign_requested d0 a ids roles : (roles = [] \/ roles = role_names d0 a) ->
  may_assign roles (ro_name <$> filter (fun r => ro_id r ∈ ids) (ad_roles d0)) = Ok tt -> requested_ok d0 a ids.
Proof.
  intros Hr Hm r Hin Hid. assert (Hg : may_give roles (ro_name r)).
  { apply (may_assign_ok _ _ _ Hm), list_elem_of_fmap. exists r. split; [done|]. by apply list_elem_of_filter. }
  destruct Hr as [->| ->]; [|done]. destruct Hg as [H1' H2']. split; intros Hn; exfalso.
  - specialize (H1' Hn). by apply elem_of_nil in H1'.
  - destruct (H2' Hn) as [Hx|Hx]; by apply elem_of_nil in Hx.
Qed.

(** Reading the caller's roles and the names asked for, and comparing them. *)
Lemma triple_checked {B} d0 a ids (f : list string -> list string -> io W AppError B) Q :
  (forall roles requested, requested_ok d0 a ids -> triple (fun d => d = d0) (f roles requested) Q (given d0 a)) ->
  triple (fun d => d = d0) (roles ← caller_roles E a; requested ← names_of E ids; _ ← lift (may_assign roles requested); f roles requested) Q (given d0 a).
Proof.
  intros Hf. eapply triple_bind; [apply caller_roles_read|intros roles].
  apply triple_pure. intros Hr. eapply triple_bind; [apply names_of_read|intros requested]. apply triple_pure. intros ->.
  eapply triple_bind; [apply triple_lift; intros d ->; apply given_self|intros []]. apply triple_pure. intros Hm.
  apply Hf. by apply (may_assign_requested d0 a ids roles).
Qed.

Lemma triple_rest {A} d0 a ids (p : io W AppError A) : requested_ok d0 a ids -> keeps St (adds d0 ids (caller a)) p ->
  triple (fun d => d = d0) p (fun _ => given d0 a) (given d0 a).
Proof.
  intros Hok Hp w Hw. assert (Ha : adds d0 ids (caller a) (mw_db w)) by (split; [by rewrite Hw|]; intros x; rewrite Hw; by left).
  specialize (Hp w Ha). destruct (p w) as [w' [x|e]]; by exists ids.
Qed.
Lemma triple_quiet_self {X A} d0 a (p : io W X A) : quiet p -> triple (fun d => d = d0) p (fun _ d => d = d0) (given d0 a).
Proof. intros Hp. apply triple_quiet; [done|]. intros d ->. apply given_self. Qed.

Lemma given_create_user d0 a req generated : triple (fun d => d = d0) (create_user E a req generated) (fun _ => given d0 a) (given d0 a).
Proof.
  unfold create_user. eapply triple_bind; [apply triple_quiet_self; auto with quiet|intros ?]. cbv zeta.
  eapply triple_bind; [apply triple_quiet_self; auto with quiet|intros ?].
  eapply triple_bind; [apply triple_quiet_self; auto with quiet|intros [raw change]].
  apply triple_checked. intros roles requested Hok. apply (triple_rest d0 a _ _ Hok).
  assert (Hins : forall id, keeps St (adds d0 (rar_role_id <$> cu_role_assignments req) (caller a)) (insert_role_assignments E id (cu_role_assignments req) (caller a)))
    by (intros; by apply adds_write). unfold caller in Hins.
  pose proof adds_user_insert. pose proof adds_drop. keep_db.
Qed.
Lemma given_update_user d0 a id req : triple (fun d => d = d0) (update_user E a id req) (fun _ => given d0 a) (given d0 a).
Proof.
  unfold update_user. eapply triple_bind; [apply triple_quiet_self; auto with quiet|intros ?]. cbv zeta.
  eapply triple_bind; [apply triple_quiet_self, quiet_scope|intros ?].
  cbv beta zeta; case_match; [apply triple_throw; intros d ->; apply given_self|].
  eapply triple_bind; [apply triple_quiet_self, quiet_db, quiet_fetch|intros found].
  cbv beta zeta; case_match; [apply triple_throw; intros d ->; apply given_self|].
  set (ids := match uu_role_assignments req with Some l => rar_role_id <$> l | None => [] end).
  apply triple_bind with (Q := fun _ d => requested_ok d0 a ids /\ d = d0).
  - subst ids. destruct (uu_role_assignments req) as [l|].
    + eapply triple_bind; [apply triple_quiet_self; auto with quiet|intros ?].
      apply triple_checked. intros roles requested Hok. case_match; [apply triple_throw; intros d ->; apply given_self|]. intros w Hw. by split.
    + intros w Hw. split; [|done]. intros r _ Hr. by apply elem_of_nil in Hr.
  - intros ?. apply triple_pure. intros Hok. apply (triple_rest d0 a ids _ Hok).
    assert (Hins : forall l id, uu_role_assignments req = Some l -> keeps St (adds d0 ids (caller a)) (insert_role_assignments E id l (caller a))).
    { intros l id' Hl. apply adds_write. subst ids. by rewrite Hl. } unfold caller in *.
    pose proof adds_drop. pose proof adds_set_display_name. pose proof adds_set_active. pose proof adds_keys_follow.
    destruct (uu_role_assignments req) as [l|] eqn:El; simpl; [specialize (fun id' => Hins l id' eq_refl) as Hw; clear Hins|]; unfold edit_user; rewrite ?El; keep_db.
Qed.

(** ** The calls that give nothing *)

Ltac fewer_solve := first [apply keeps_db, fewer_stmt|apply fewer_stmt]; intros ? ? ? y; cbv beta zeta;
  repeat (case_match; simplify_eq/=; try done); try done; intros Hy; by apply list_elem_of_filter in Hy as [_ Hy].
Lemma fewer_update_password d0 id h c : keeps St (fewer d0) (update_password_hash E id h c). Proof. fewer_solve. Qed.
Lemma fewer_soft_delete d0 id : keeps St (fewer d0) (soft_delete E id). Proof. fewer_solve. Qed.
Lemma fewer_keys_follow d0 r id : keeps St (fewer d0) (keys_follow E r id). Proof. fewer_solve. Qed.
Lemma fewer_team_insert d0 n t : keeps St (fewer d0) (team_insert E n t). Proof. fewer_solve. Qed.
Lemma fewer_team_update d0 id n t : keeps St (fewer d0) (team_update E id n t). Proof. fewer_solve. Qed.
Lemma fewer_team_delete d0 id : keeps St (fewer d0) (team_delete E id). Proof. fewer_solve. Qed.
Lemma fewer_add_member d0 u t : keeps St (fewer d0) (add_member_capped E u t MAX_TEAMS_PER_USER).
Proof. unfold add_member_capped, capped_insert. fewer_solve. Qed.
Lemma fewer_remove_member d0 t u : keeps St (fewer d0) (remove_member_row E t u). Proof. fewer_solve. Qed.
Lemma fewer_assign_role d0 t r b : keeps St (fewer d0) (assign_role E t r b). Proof. fewer_solve. Qed.
Lemma fewer_remove_role d0 t r : keeps St (fewer d0) (remove_role E t r). Proof. fewer_solve. Qed.
Lemma fewer_role_insert d0 n t v b : keeps St (fewer d0) (role_insert E n t v b). Proof. fewer_solve. Qed.
Lemma fewer_role_update d0 id n t v s : keeps St (fewer d0) (role_update E id n t v s).
Proof. unfold role_update, update_roles. fewer_solve. Qed.
Lemma fewer_set_document d0 id v : keeps St (fewer d0) (set_policy_document E id v).
Proof. unfold set_policy_document, update_roles. fewer_solve. Qed.

Definition assigns (c : admin_call (U := U) (V := V)) : bool :=
  match c with CreateUser _ _ | UpdateUser _ _ | DeleteRole _ _ => true | _ => false end.
Lemma fewer_call d0 a c w : assigns c = false -> fewer d0 (mw_db w) -> fewer d0 (mw_db (run_admin_call E a c w)).
Proof.
  pose proof fewer_update_password. pose proof fewer_soft_delete. pose proof fewer_keys_follow. pose proof fewer_team_insert.
  pose proof fewer_team_update. pose proof fewer_team_delete. pose proof fewer_add_member. pose proof fewer_remove_member.
  pose proof fewer_assign_role. pose proof fewer_remove_role. pose proof fewer_role_insert. pose proof fewer_role_update. pose proof fewer_set_document.
  intros Hc. revert w. destruct c; try done; match goal with |- forall w, fewer d0 (mw_db w) -> fewer d0 (mw_db (run_admin_call E a ?c w)) =>
    let p := eval cbn [run_admin_call] in (fun w => run_admin_call E a c w) in
    match p with (fun w => (?q w).1) => change (keeps St (fewer d0) q) | (fun w => (?q w).1) => idtac end end.
  all: keep_db.
Qed.

Lemma triple_run {A} (p : io W AppError A) Q w : triple (fun d => d = mw_db w) p (fun _ => Q) Q -> Q (mw_db (p w).1).
Proof. intros Hp. specialize (Hp w eq_refl). by destruct (p w) as [w' [x|e]]. Qed.

(** C9: But for the deletion of a role, which moves its members to another, no call of the
    administration assigns the role of super admin to a user unless its caller holds that role,
    nor the role of admin unless its caller holds it or is a super admin; and the new row names
    the caller. *)
Theorem admin_roles_guarded a c w x r :
  (forall id to, c <> DeleteRole id to) ->
  x ∈ ad_assignments (mw_db (run_admin_call E a c w)) -> x ∉ ad_assignments (mw_db w) ->
  r ∈ ad_roles (mw_db (run_admin_call E a c w)) -> as_role x = ro_id r ->
  may_give (role_names (mw_db w) a) (ro_name r) /\ as_by x = Some (caller a).
Proof.
  intros Hc Hx Hnew Hr Hid.
  assert (Hg : given (mw_db w) a (mw_db (run_admin_call E a c w)) -> may_give (role_names (mw_db w) a) (ro_name r) /\ as_by x = Some (caller a)).
  { intros (ids & [Hroles Hadd] & Hok). destruct (Hadd x Hx) as [|[Hin Hby]]; [done|]. split; [|done].
    apply Hok; [by rewrite <- Hroles|]. by rewrite <- Hid. }
  destruct (assigns c) eqn:Ec.
  - destruct c; try done.
    + apply Hg. refine (triple_run (create_user E a req generated) _ w _). apply given_create_user.
    + apply Hg. refine (triple_run (update_user E a user req) _ w _). apply given_update_user.
    + by destruct (Hc role reassign_to).
  - exfalso. apply Hnew. refine (fewer_call (mw_db w) a c w Ec _ x Hx). by intros y Hy.
Qed.
End Guard.

(** * The administration on concrete tables

    Witnesses of the theorems on [AdminUsers], [AdminUsers] and [AdminRoles], and what the
    handlers let pass: the role of super admin handed out through a team or a deletion, the last
    super admin gone with a membership, an administrator's password reset by a team's manager. *)

Definition demo_admin_env : admin_env demo_uuid json := {|
  en_net _ := LinkOk; en_clock := steady 1000; en_fresh _ := UNil; en_slot _ := 0; en_cache_net _ := true;
  en_clustered := false; en_scan _ _ := []; en_hash_password p := Ok ("hash of " +:+ p); en_refresh_ttl_days := 7;
  en_json_len _ := 0; en_policy_from_value := demo_policy; en_decode_constraints _ := Err ""; en_parse_json _ := None;
  en_ilike _ _ := true; en_rfc3339 := dec_of_Z;
|}.

Definition admin_user (id : demo_uuid) (name : string) : User demo_uuid := {|
  us_id := id; us_email := name +:+ "@example.com"; us_display_name := name; us_password_hash := Some ("hash of " +:+ name);
  us_oidc_subject := None; us_oidc_issuer := None; us_avatar_url := None; us_is_active := true; us_totp_secret := None;
  us_totp_enabled := false; us_totp_recovery_codes := None; us_password_change_required := false; us_created_at := 0;
  us_updated_at := 0; us_deleted_at := None;
|}.
Definition a_role (id : demo_uuid) (name : string) (is_system : bool) (document : json) : role_row demo_uuid json := {|
  ro_id := id; ro_name := name; ro_description := None; ro_is_system := is_system; ro_document := document;
  ro_created_by := None; ro_created_at := 0; ro_updated_at := 0;
|}.
Definition assigned (user role : demo_uuid) (kind : string) (scope : option demo_uuid) : assignment_row demo_uuid :=
  {| as_user := user; as_role := role; as_kind := kind; as_scope := scope; as_by := None; as_at := 0 |}.
Definition joined (team user : demo_uuid) : member_row demo_uuid := {| me_team := team; me_user := user; me_joined_at := 0 |}.

(** Root ([UKey1]) is the super admin, by the role [UNil]; Alice holds the role [UAlice], with
    this document; there is one team, [UNil]. *)
Definition demo_admin_db (document : json) (kind : string) (scope : option demo_uuid) (members : list (member_row demo_uuid)) : admin_db demo_uuid json := {|
  ad_users := [admin_user UAlice "alice"; admin_user UKey1 "root"];
  ad_roles := [a_role UNil "super_admin" true (demo_role "Allow" "*"); a_role UAlice "manager" false document];
  ad_assignments := [assigned UKey1 UNil "global" None; assigned UAlice UAlice kind scope];
  ad_teams := [{| te_id := UNil; te_name := "team"; te_description := None; te_created_at := 0 |}];
  ad_members := members; ad_team_roles := []; ad_keys := [];
|}.
Definition admin_start (d : admin_db demo_uuid json) : admin_world demo_uuid json (gmap string entry) :=
  {| mw_calls := 0; mw_db := d; mw_keys := ∅; mw_cache := Build_cache_redis ∅ 0; mw_audit := [] |}.
Definition acting (user : demo_uuid) (perms : list string) : AuthUser demo_uuid := {|
  au_claims := {| cl_sub := user; cl_email := ""; cl_exp := 0; cl_iat := 0; cl_token_type := "access" |};
  au_ip := None; au_user_agent := None; au_permissions := perms; au_denied_permissions := [];
|}.
Abbreviation demo_call := (run_admin_call demo_admin_env).

(** ** Witnesses *)

Definition plain_db : admin_db demo_uuid json := demo_admin_db (demo_role "Allow" "*") "global" None [].
Lemma teams_stay_capped_witness :
  length (teams_with UKey1 (mw_db (demo_call (acting UAlice ["team_members:write"]) (AddMember UNil UKey1) (admin_start plain_db)))) = 1%nat /\
  teams_capped (mw_db (demo_call (acting UAlice ["team_members:write"]) (AddMember UNil UKey1) (admin_start plain_db))).
Proof.
  split; [vm_compute; reflexivity|].
  apply (teams_stay_capped demo_admin_env (acting UAlice ["team_members:write"]) (AddMember UNil UKey1) (admin_start plain_db)).
  intros user. unfold teams_with. simpl. done.
Defined.

Lemma plain_rooted : rooted plain_db.
Proof.
  split; [split|]; [by repeat constructor; set_solver| |by vm_compute].
  intros r [->|[->| []%elem_of_nil]%elem_of_cons]%elem_of_cons; done.
Qed.
Lemma last_super_admin_kept_witness :
  (delete_user demo_admin_env (acting UAlice ["users:delete"]) UKey1 (admin_start plain_db)).2 =
    Err (BadRequest "Operation would leave the platform with zero active super admins. Add another super admin (directly or via a team role) before continuing.") /\
  rooted (mw_db (demo_call (acting UAlice ["users:delete"]) (DeleteUser UKey1) (admin_start plain_db))).
Proof.
  split; [vm_compute; reflexivity|].
  apply (last_super_admin_kept demo_admin_env (acting UAlice ["users:delete"]) (DeleteUser UKey1) (admin_start plain_db));
    [reflexivity|exact plain_rooted].
Defined.

Definition new_super : CreateUserByAdminRequest demo_uuid := {|
  cu_email := "new@example.com"; cu_display_name := "New"; cu_password := None;
  cu_role_assignments := [{| rar_role_id := UNil; rar_scope := None |}] |}.
Definition new_super_row (t : Z) : assignment_row demo_uuid :=
  {| as_user := UNil; as_role := UNil; as_kind := "global"; as_scope := None; as_by := Some UKey1; as_at := t |}.
Abbreviation after_new_super := (mw_db (demo_call (acting UKey1 ["users:create"]) (CreateUser new_super "pw") (admin_start plain_db))).
Lemma admin_roles_guarded_witness :
  ad_assignments after_new_super = ad_assignments plain_db ++ [new_super_row 7000] /\
  may_give (role_names plain_db (acting UKey1 ["users:create"])) "super_admin" /\ as_by (new_super_row 7000) = Some UKey1 /\
  ad_assignments (mw_db (demo_call (acting UAlice ["users:create"]) (CreateUser new_super "pw") (admin_start plain_db))) = ad_assignments plain_db.
Proof.
  assert (Ha : ad_assignments after_new_super = ad_assignments plain_db ++ [new_super_row 7000]) by (vm_compute; reflexivity).
  assert (Hr : ad_roles after_new_super = ad_roles plain_db) by (vm_compute; reflexivity).
  destruct (admin_roles_guarded demo_admin_env (acting UKey1 ["users:create"]) (CreateUser new_super "pw") (admin_start plain_db)
    (new_super_row 7000) (a_role UNil "super_admin" true (demo_role "Allow" "*"))) as [Hg Hb].
  - done.
  - rewrite Ha. apply elem_of_app. right. by left.
  - intros [H|[H|H%elem_of_nil]%elem_of_cons]%elem_of_cons; done.
  - rewrite Hr. left.
  - done.
  - split_and!; [exact Ha|exact Hg|exact Hb|vm_compute; reflexivity].
Defined.

(** ** What the handlers let pass *)

(** Alice edits one team: she gives it the role of super admin, and has it. *)
Definition team_editor : admin_db demo_uuid json :=
  demo_admin_db (demo_role "Allow" "teams:update") "team" (Some UNil) [joined UNil UAlice].
Lemma team_role_escalates :
  super_admins team_editor = [UKey1] /\
  super_admins (mw_db (demo_call (acting UAlice ["teams:update"]) (AssignTeamRole UNil UNil) (admin_start team_editor))) = [UAlice; UKey1].
Proof. split; vm_compute; reflexivity. Qed.

(** Alice deletes her own role in favour of super admin. *)
Definition role_deleter : admin_db demo_uuid json := demo_admin_db (demo_role "Allow" "roles:delete") "global" None [].
Lemma deleted_role_escalates :
  super_admins role_deleter = [UKey1] /\
  super_admins (mw_db (demo_call (acting UAlice ["roles:delete"]) (DeleteRole UAlice (Some UNil)) (admin_start role_deleter))) = [UAlice; UKey1].
Proof. split; vm_compute; reflexivity. Qed.
(** When the members cannot be counted, the role goes with its members. *)
Definition uncounted_env : admin_env demo_uuid json := {|
  en_net n := if (n =? 2)%nat then LinkDown else LinkOk; en_clock := steady 1000; en_fresh _ := UNil; en_slot _ := 0; en_cache_net _ := true;
  en_clustered := false; en_scan _ _ := []; en_hash_password p := Ok p; en_refresh_ttl_days := 7;
  en_json_len _ := 0; en_policy_from_value := demo_policy; en_decode_constraints _ := Err ""; en_parse_json _ := None;
  en_ilike _ _ := true; en_rfc3339 := dec_of_Z;
|}.
Lemma uncounted_role_goes :
  (delete_role demo_admin_env (acting UAlice ["roles:delete"]) UAlice None (admin_start role_deleter)).2 =
    Err (BadRequest "Role still has 1 member(s). Pass reassign_to=<other_role_id> to migrate them.") /\
  let '(w', r) := delete_role uncounted_env (acting UAlice ["roles:delete"]) UAlice None (admin_start role_deleter) in
  r = Ok 0 /\ ad_assignments (mw_db w') = [assigned UKey1 UNil "global" None].
Proof. split; vm_compute; [reflexivity|by split]. Qed.

(** The only super admin is one through a team: removing the membership, the team's role or the
    team leaves none. *)
Definition through_team : admin_db demo_uuid json := {|
  ad_users := ad_users plain_db; ad_roles := ad_roles plain_db; ad_assignments := [assigned UAlice UAlice "global" None];
  ad_teams := ad_teams plain_db; ad_members := [joined UNil UKey1];
  ad_team_roles := [{| tr_team := UNil; tr_role := UNil; tr_by := None; tr_at := 0 |}]; ad_keys := [];
|}.
Lemma last_super_admin_leaves :
  super_admins through_team = [UKey1] /\
  super_admins (mw_db (demo_call (acting UAlice ["team_members:write"]) (RemoveMember UNil UKey1) (admin_start through_team))) = [] /\
  super_admins (mw_db (demo_call (acting UAlice ["teams:update"]) (RemoveTeamRole UNil UNil) (admin_start through_team))) = [] /\
  super_admins (mw_db (demo_call (acting UAlice ["teams:delete"]) (DeleteTeam UNil) (admin_start through_team))) = [].
Proof. split_and!; vm_compute; reflexivity. Qed.

(** One who holds the role in a team's scope only is counted. *)
Lemma scoped_super_admin_counts :
  super_admins {| ad_users := ad_users plain_db; ad_roles := ad_roles plain_db; ad_assignments := [assigned UAlice UNil "team" (Some UNil)];
                  ad_teams := ad_teams plain_db; ad_members := []; ad_team_roles := []; ad_keys := [] |} = [UAlice].
Proof. vm_compute. reflexivity. Qed.

(** A team's manager takes the super admin into the team and resets their password; the epoch of
    their tokens is not moved. *)
Definition two_actions : json := Interfaces.JObj [("Statement", Interfaces.JArr [Interfaces.JObj
  [("Effect", Interfaces.JStr "Allow"); ("Action", Interfaces.JArr [Interfaces.JStr "team_members:write"; Interfaces.JStr "users:update"]);
   ("Resource", Interfaces.JStr "*")]])].
Definition manager_db : admin_db demo_uuid json := demo_admin_db two_actions "team" (Some UNil) [joined UNil UAlice].
Abbreviation manager := (acting UAlice ["team_members:write"; "users:update"]).
Lemma manager_takes_over :
  (reset_user_password demo_admin_env manager UKey1 "temporary" (admin_start manager_db)).2 =
    Err (Forbidden "users:update not granted in any scope covering this user") /\
  let '(w', r) := reset_user_password demo_admin_env manager UKey1 "temporary" (demo_call manager (AddMember UNil UKey1) (admin_start manager_db)) in
  r = Ok "temporary" /\ us_password_hash <$> ad_users (mw_db w') = [Some "hash of alice"; Some "hash of temporary"] /\ mw_keys w' !! epoch_key UKey1 = None.
Proof. split; vm_compute; [reflexivity|by split]. Qed.

(** An edit renames a role to nothing; a role is not created so. *)
Lemma role_renamed_to_nothing :
  ro_name <$> ad_roles (mw_db (demo_call (acting UAlice ["roles:update"])
    (UpdateRole UAlice {| uro_name := Some "  "; uro_description := None; uro_policy_document := None |}) (admin_start plain_db))) = ["super_admin"; ""] /\
  (create_role demo_admin_env (acting UAlice ["roles:create"])
    {| cro_name := "  "; cro_description := None; cro_policy_document := demo_role "Allow" "*" |} (admin_start plain_db)).2 =
  Err (BadRequest "Role name must be 1-100 characters").
Proof. split; vm_compute; reflexivity. Qed.

(** Deleting a role or a team leaves the permissions cached for their members. *)
Definition cached_start (d : admin_db demo_uuid json) : admin_world demo_uuid json (gmap string entry) :=
  {| mw_calls := 0; mw_db := d; mw_keys := {[ perms_key UAlice := ("{}", None) ]}; mw_cache := Build_cache_redis ∅ 0; mw_audit := [] |}.
Lemma deletions_leave_caches :
  mw_keys (demo_call (acting UAlice ["roles:delete"]) (DeleteRole UAlice (Some UNil)) (cached_start role_deleter)) = mw_keys (cached_start role_deleter) /\
  mw_keys (demo_call (acting UAlice ["teams:delete"]) (DeleteTeam UNil) (cached_start plain_db)) = mw_keys (cached_start plain_db).
Proof. split; vm_compute; reflexivity. Qed.
