(* ===== verification/Memory.v ===== *)
(** * Admission of memory and processor time

    [crates/common/src/resources.rs] and [resources/http.rs]: how much the process may hold in
    buffers, the byte budgets every buffered body is charged to, the readers of responses and
    requests, and the slots for work on the processor. *)
From S2P Require Import Prelude Interfaces Effects.

Definition MIB : Z := 1024 * 1024.
Definition BODY_HEADROOM : Z := 32.

(** ** The policy *)

Record Policy := {
  po_io_workers : Z; po_cpu_jobs : Z; po_argon_jobs : Z;
  po_body_bytes : Z; po_audit_bytes : Z; po_max_body_bytes : Z;
}.
(** [Ord::clamp]. *)
Definition clamp (lo hi z : Z) : Z := if z <? lo then lo else if hi <? z then hi else z.
(** [memory] fits [usize] on the 64-bit machines it is built for. *)
Definition for_machine (cpus memory : Z) : Policy :=
  let cpus := Z.max cpus 1 in
  let body_bytes := clamp (8 * MIB) (8 * 1024 * MIB) (memory / 4) in
  {| po_io_workers := Z.min cpus 8;
     po_cpu_jobs := Z.min cpus (Z.max (memory / (128 * MIB)) 1);
     po_argon_jobs := Z.min cpus (Z.max (memory / 8 / (32 * MIB)) 1);
     po_body_bytes := body_bytes;
     po_audit_bytes := clamp (2 * MIB) (128 * MIB) (memory / 16);
     po_max_body_bytes := Z.min (body_bytes / BODY_HEADROOM) (64 * MIB) |}.

(** ** Byte budgets

    A reservation is owned by a reader, then by the [Bytes] it is wrapped in and by every
    clone and slice of them; it is dropped with its last owner. *)

Record Reservation := { re_charged : Z; re_owners : nat }.
Record ByteBudget := { bb_limit : Z; bb_used : Z; bb_leases : gmap nat Reservation }.

Definition ByteBudget_new (limit : Z) : ByteBudget := {| bb_limit := limit; bb_used := 0; bb_leases := empty |}.
Definition with_lease (id : nat) (r : Reservation) (used : Z) (b : ByteBudget) : ByteBudget :=
  {| bb_limit := bb_limit b; bb_used := used; bb_leases := <[id := r]> (bb_leases b) |}.

Definition reserve : prog ByteBudget nat := fun b =>
  let id := fresh (dom (bb_leases b)) in (with_lease id {| re_charged := 0; re_owners := 1 |} (bb_used b) b, id).
Definition grow (id : nat) (bytes : Z) : prog ByteBudget bool := fun b =>
  match bb_leases b !! id with
  | None => (b, false)
  | Some r =>
      let extra := sat_sub_u64 bytes (re_charged r) in
      if sat_sub_u64 (bb_limit b) (bb_used b) <? extra then (b, false)
      else (with_lease id {| re_charged := re_charged r + extra; re_owners := re_owners r |} (bb_used b + extra) b, true)
  end.
(** A clone or a slice of wrapped bytes. *)
Definition share (id : nat) : prog ByteBudget unit := fun b =>
  match bb_leases b !! id with
  | None => (b, tt)
  | Some r => (with_lease id {| re_charged := re_charged r; re_owners := S (re_owners r) |} (bb_used b) b, tt)
  end.
(** An owner is dropped; the last one gives the bytes back. *)
Definition release (id : nat) : prog ByteBudget unit := fun b =>
  match bb_leases b !! id with
  | None => (b, tt)
  | Some r =>
      match re_owners r with
      | S (S n) => (with_lease id {| re_charged := re_charged r; re_owners := S n |} (bb_used b) b, tt)
      | _ => ({| bb_limit := bb_limit b; bb_used := bb_used b - re_charged r; bb_leases := delete id (bb_leases b) |}, tt)
      end
  end.

(** *** The timeline of a stream *)

Record StreamBudget := { sb_lease : nat; sb_received : Z; sb_max : Z }.
Definition StreamBudget_new (max : Z) : prog ByteBudget StreamBudget :=
  id ← reserve; mret {| sb_lease := id; sb_received := 0; sb_max := max |}.
Definition append (bytes : Z) (sb : StreamBudget) : prog ByteBudget (StreamBudget * bool) :=
  let received := sat_add_u64 (sb_received sb) bytes in
  if sb_max sb <? received then mret (sb, false)
  else
    ok ← grow (sb_lease sb) (sat_mul_u64 received BODY_HEADROOM);
    mret (if ok : bool then {| sb_lease := sb_lease sb; sb_received := received; sb_max := sb_max sb |} else sb, ok).

(** *** Reading a response

    [others i] is what the other tasks do to the budget while the [i]-th chunk is awaited. *)

Inductive ReadError := TooLarge | Busy | Transport (message : string).
Section Reading.
Context (others : nat -> ByteBudget -> ByteBudget).

Definition len (s : string) : Z := Z.of_nat (String.length s).
Definition refuse_read {A E} (id : nat) (e : E) : prog ByteBudget (result E A) := _ ← release id; mret (Err e).
Fixpoint read_chunks_of (i : nat) (id : nat) (max : Z) (data : string) (chunks : list (result string string))
    : prog ByteBudget (result ReadError string) := fun b =>
  let b := others i b in
  match chunks with
  | [] => (b, Ok data)
  | Err message :: _ => refuse_read id (Transport message) b
  | Ok chunk :: chunks =>
      let size := len data + len chunk in
      if u64_max <? size then refuse_read id TooLarge b
      else if max <? size then refuse_read id TooLarge b
      else
        let '(b, grown) := grow id (sat_mul_u64 size BODY_HEADROOM) b in
        if grown then read_chunks_of (S i) id max (data +:+ chunk) chunks b else refuse_read id Busy b
  end.
Definition read_response_with_budget (content_length : option Z) (max : Z) (chunks : list (result string string))
    : prog ByteBudget (result ReadError (string * nat)) := fun b =>
  if match content_length with Some n => max <? n | None => false end then (b, Err TooLarge) else
  let '(b, id) := reserve b in
  let '(b, r) := read_chunks_of O id max "" chunks b in
  (b, match r with Ok data => Ok (data, id) | Err e => Err e end).
Definition read_response (p : Policy) (content_length : option Z) (max : Z) (chunks : list (result string string)) :=
  read_response_with_budget content_length (Z.min max (po_max_body_bytes p)) chunks.

(** *** Reading a request

    A chunk that cannot be read says whether axum's own limit was the cause. *)
Definition rejection (status : Z) : string * string * option string :=
  let busy := status =? 429 in
  (if busy then "rate_limit_error" else "invalid_request_error",
   if busy then "The gateway is buffering other requests. Retry shortly."
   else if status =? 413 then "The request body exceeds the gateway buffering limit."
   else "The request body could not be read.",
   if busy then Some "1" else None).
Fixpoint admit_chunks (i : nat) (id : nat) (max : Z) (data : string) (chunks : list (result bool string))
    : prog ByteBudget (result Z string) := fun b =>
  let b := others i b in
  match chunks with
  | [] => (b, Ok data)
  | Err length_limit :: _ => refuse_read id (if length_limit : bool then 413 else 400) b
  | Ok chunk :: chunks =>
      let size := sat_add_u64 (len data) (len chunk) in
      if max <? size then refuse_read id 413 b
      else
        let '(b, grown) := grow id (sat_mul_u64 size BODY_HEADROOM) b in
        if grown then admit_chunks (S i) id max (data +:+ chunk) chunks b else refuse_read id 429 b
  end.
(** What is admitted is held by the request's body and by the response's: [handler] is what
    the route does with them, the last owner goes when the response's body does. *)
Definition admit_with_budget {A} (size_hint : option Z) (max : Z) (chunks : list (result bool string))
    (handler : string -> prog ByteBudget A) : prog ByteBudget (result Z (A * nat)) := fun b =>
  if match size_hint with Some n => max <? n | None => false end then (b, Err 413) else
  let '(b, id) := reserve b in
  let '(b, r) := admit_chunks O id max "" chunks b in
  match r with
  | Err status => (b, Err status)
  | Ok data =>
      let '(b, _) := share id b in
      let '(b, answer) := handler data b in
      let '(b, _) := release id b in
      (b, Ok (answer, id))
  end.

(** *** A cached body *)

(** [length] and [range] are Redis's answers to [STRLEN] and [GETRANGE]. *)
Definition cached_body (p : Policy) (length : option Z) (range : option string) : prog ByteBudget (option (string * nat)) := fun b =>
  match length with
  | None => (b, None)
  | Some n =>
      if (n =? 0) || (po_max_body_bytes p <? n) then (b, None) else
      let '(b, id) := reserve b in
      let '(b, grown) := grow id (sat_mul_u64 n BODY_HEADROOM) b in
      if negb grown then let '(b, _) := release id b in (b, None) else
      let b := others O b in
      match range with
      | Some data => if n <? len data then let '(b, _) := release id b in (b, None) else (b, Some (data, id))
      | None => let '(b, _) := release id b in (b, None)
      end
  end.
End Reading.

(** ** Slots for the processor *)

(** A closure over so many bytes ([cpu]), or a password to hash, which needs its memory first
    ([password_slot]). *)
Inductive job := CpuJob (bytes : Z) | PasswordJob.
Inductive phase := Waiting | HasMemory | Running (inline : bool) | Done.
(** The permits left of the three semaphores, and the tasks. *)
Record sched := { sc_slots : Z; sc_inline : Z; sc_passwords : Z; sc_tasks : list (job * phase) }.
Definition Scheduler_new (p : Policy) : sched :=
  {| sc_slots := po_cpu_jobs p; sc_inline := div_ceil (po_io_workers p) 2; sc_passwords := po_argon_jobs p; sc_tasks := [] |}.

Inductive sched_event := Submit (j : job) | Acquire (i : nat) | Finish (i : nat) | Cancel (i : nat).
Definition set_task (i : nat) (t : job * phase) (slots inline passwords : Z) (s : sched) : sched :=
  {| sc_slots := slots; sc_inline := inline; sc_passwords := passwords; sc_tasks := <[i := t]> (sc_tasks s) |}.
(** [Acquire]: the task gets the next permit it waits for.  [Cancel]: its caller goes away; the
    closure is past cancelling once it runs. *)
Definition sched_step (e : sched_event) (s : sched) : option sched :=
  match e with
  | Submit j => Some {| sc_slots := sc_slots s; sc_inline := sc_inline s; sc_passwords := sc_passwords s; sc_tasks := sc_tasks s ++ [(j, Waiting)] |}
  | Acquire i =>
      match sc_tasks s !! i with
      | Some (CpuJob bytes, Waiting) =>
          if 0 <? sc_slots s then
            let inline := (bytes <? MIB) && (0 <? sc_inline s) in
            Some (set_task i (CpuJob bytes, Running inline) (sc_slots s - 1) (if inline then sc_inline s - 1 else sc_inline s) (sc_passwords s) s)
          else None
      | Some (PasswordJob, Waiting) =>
          if 0 <? sc_passwords s then Some (set_task i (PasswordJob, HasMemory) (sc_slots s) (sc_inline s) (sc_passwords s - 1) s) else None
      | Some (PasswordJob, HasMemory) =>
          if 0 <? sc_slots s then Some (set_task i (PasswordJob, Running false) (sc_slots s - 1) (sc_inline s) (sc_passwords s) s) else None
      | _ => None
      end
  | Finish i =>
      match sc_tasks s !! i with
      | Some (j, Running inline) =>
          Some (set_task i (j, Done) (sc_slots s + 1) (if inline then sc_inline s + 1 else sc_inline s)
                  (match j with PasswordJob => sc_passwords s + 1 | CpuJob _ => sc_passwords s end) s)
      | _ => None
      end
  | Cancel i =>
      match sc_tasks s !! i with
      | Some (j, Waiting) => Some (set_task i (j, Done) (sc_slots s) (sc_inline s) (sc_passwords s) s)
      | Some (PasswordJob, HasMemory) => Some (set_task i (PasswordJob, Done) (sc_slots s) (sc_inline s) (sc_passwords s + 1) s)
      | _ => None
      end
  end.

(** * What the budgets promise

    Bytes are neither lost nor counted twice, whoever holds them and in whatever order they are
    dropped; a reader keeps exactly what it read; and no schedule of the processor's slots ends
    with tasks that wait for each other. *)

(** ** The policy *)

Lemma clamp_range lo hi z : lo <= hi -> lo <= clamp lo hi z <= hi.
Proof. unfold clamp. intros. cases. Qed.

(** A body of the greatest size fits an idle budget, and slots are never none. *)
Lemma policy_bounds cpus memory : 0 <= memory ->
  let p := for_machine cpus memory in
  0 < po_cpu_jobs p /\ 0 < po_argon_jobs p /\ 0 < po_io_workers p <= 8 /\
  0 < po_max_body_bytes p /\ po_max_body_bytes p * BODY_HEADROOM <= po_body_bytes p <= u64_max.
Proof.
  intros Hm. cbn -[Z.mul Z.div]. pose proof (clamp_range (8 * MIB) (8 * 1024 * MIB) (memory / 4) ltac:(by vm_compute)) as Hb.
  set (body := clamp _ _ _) in *. clearbody body. unfold MIB, BODY_HEADROOM, u64_max in *. pose proof (Z.mul_div_le body 32).
  pose proof (Z.div_le_lower_bound body 32 1). split_and!; lia.
Qed.

(** ** Sums over leases *)

Definition charged_sum (m : gmap nat Reservation) : Z := map_fold (fun _ r acc => re_charged r + acc) 0 m.
Lemma charged_sum_insert id r m : m !! id = None -> charged_sum (<[id := r]> m) = re_charged r + charged_sum m.
Proof. intros Hid. unfold charged_sum. apply (map_fold_insert_L (fun _ r acc => re_charged r + acc)); [|done]. intros. lia. Qed.
Lemma charged_sum_delete id r m : m !! id = Some r -> charged_sum m = re_charged r + charged_sum (delete id m).
Proof. intros Hid. rewrite <- (insert_delete_id m id r) at 1 by done. rewrite charged_sum_insert; [done|apply lookup_delete_eq]. Qed.
Lemma charged_sum_update id r r' m : m !! id = Some r -> charged_sum (<[id := r']> m) = charged_sum m - re_charged r + re_charged r'.
Proof.
  intros Hid. rewrite (charged_sum_delete id r m) by done. rewrite <- insert_delete_eq.
  rewrite charged_sum_insert by apply lookup_delete_eq. lia.
Qed.
Lemma charged_sum_nonneg m : map_Forall (fun _ r => 0 <= re_charged r) m -> 0 <= charged_sum m.
Proof.
  induction m as [|id r m Hid IH] using map_ind; [done|]. intros Hall. rewrite charged_sum_insert by done.
  apply map_Forall_insert in Hall as [Hr Hall]; [|done]. specialize (IH Hall). lia.
Qed.

(** ** The budget *)

Record budget_wf (b : ByteBudget) : Prop := {
  bw_limit : 0 <= bb_limit b <= u64_max;
  bw_used : bb_used b = charged_sum (bb_leases b) /\ bb_used b <= bb_limit b;
  bw_leases : map_Forall (fun _ r => 0 <= re_charged r /\ re_owners r <> O) (bb_leases b);
}.
Lemma budget_used_nonneg b : budget_wf b -> 0 <= bb_used b.
Proof. intros [_ [-> _] Hl]. apply charged_sum_nonneg. by eapply map_Forall_impl; [exact Hl|]; intros ? ? [? _]. Qed.
Lemma lease_within b id r : budget_wf b -> bb_leases b !! id = Some r -> 0 <= re_charged r <= bb_used b.
Proof.
  intros Hw Hid. destruct Hw as [_ [Hu _] Hl]. pose proof (Hl id r Hid) as [Hr _]. rewrite Hu, (charged_sum_delete id r _ Hid).
  assert (0 <= charged_sum (delete id (bb_leases b))); [|lia]. apply charged_sum_nonneg, map_Forall_delete.
  by eapply map_Forall_impl; [exact Hl|]; intros ? ? [? _].
Qed.

Lemma new_wf limit : 0 <= limit <= u64_max -> budget_wf (ByteBudget_new limit).
Proof. intros Hl. constructor; simpl; [done| |apply map_Forall_empty]. split; [done|lia]. Qed.

Lemma update_wf id r r' used b : budget_wf b -> bb_leases b !! id = Some r ->
  0 <= re_charged r' -> re_owners r' <> O -> used = bb_used b - re_charged r + re_charged r' -> used <= bb_limit b ->
  budget_wf (with_lease id r' used b).
Proof.
  intros [Hlim [Hu Hle] Hl] Hid Hc Ho -> Hused. constructor; [done| |].
  - simpl. rewrite (charged_sum_update id r) by done. lia.
  - apply map_Forall_insert_2; [done|exact Hl].
Qed.
Lemma fresh_lease (b : ByteBudget) : bb_leases b !! fresh (dom (bb_leases b)) = None.
Proof. apply not_elem_of_dom, is_fresh. Qed.
Lemma reserve_wf b : budget_wf b -> budget_wf (reserve b).1.
Proof.
  intros [Hlim [Hu Hle] Hl]. constructor; [done| |]; simpl.
  - rewrite charged_sum_insert by apply fresh_lease. simpl. lia.
  - apply map_Forall_insert_2; [done|exact Hl].
Qed.
Lemma grow_wf id bytes b : budget_wf b -> 0 <= bytes <= u64_max -> budget_wf (grow id bytes b).1.
Proof.
  intros Hw Hb. unfold grow. destruct (bb_leases b !! id) as [r|] eqn:Hid; [|done].
  pose proof (lease_within b id r Hw Hid) as Hr. pose proof (bw_leases b Hw id r Hid) as [_ Ho]. pose proof (bw_used b Hw) as [_ Hle].
  pose proof (bw_limit b Hw). case_match eqn:E; [done|]. apply Z.ltb_ge in E. unfold sat_sub_u64, clamp_u64 in *.
  simpl. eapply (update_wf id r); simpl; (done || lia).
Qed.
Lemma share_wf id b : budget_wf b -> budget_wf (share id b).1.
Proof.
  intros Hw. unfold share. destruct (bb_leases b !! id) as [r|] eqn:Hid; [|done]. pose proof (lease_within b id r Hw Hid).
  pose proof (bw_used b Hw) as [_ ?]. simpl. eapply (update_wf id r); simpl; (done || lia).
Qed.
Lemma release_wf id b : budget_wf b -> budget_wf (release id b).1.
Proof.
  intros Hw. unfold release. destruct (bb_leases b !! id) as [r|] eqn:Hid; [|done]. pose proof (lease_within b id r Hw Hid).
  pose proof (bw_used b Hw) as [Hu Hle]. assert (Hdel : budget_wf {| bb_limit := bb_limit b; bb_used := bb_used b - re_charged r; bb_leases := delete id (bb_leases b) |}).
  { constructor; simpl; [apply (bw_limit b Hw)| |apply map_Forall_delete, (bw_leases b Hw)].
    rewrite Hu, (charged_sum_delete id r _ Hid) in *. lia. }
  destruct (re_owners r) as [|[|n]]; [exact Hdel..|]. simpl. eapply (update_wf id r); simpl; (done || lia).
Qed.

Create HintDb budget discriminated.
#[export] Hint Resolve reserve_wf grow_wf share_wf release_wf new_wf : budget.

(** What tasks do to a budget, in any order. *)
Inductive budget_op := OpReserve | OpGrow (id : nat) (bytes : Z) | OpShare (id : nat) | OpRelease (id : nat).
Definition run_op (b : ByteBudget) (op : budget_op) : ByteBudget :=
  match op with
  | OpReserve => (reserve b).1 | OpGrow id bytes => (grow id bytes b).1
  | OpShare id => (share id b).1 | OpRelease id => (release id b).1
  end.
Definition op_fits (op : budget_op) : Prop := match op with OpGrow _ bytes => 0 <= bytes <= u64_max | _ => True end.
Lemma run_op_wf ops b : Forall op_fits ops -> budget_wf b -> budget_wf (foldl run_op b ops).
Proof.
  revert b. induction ops as [|op ops IH]; intros b Hf Hw; [done|]. apply Forall_cons in Hf as [Ho Hf].
  apply IH; [done|]. destruct op; cbn [run_op op_fits] in *; auto with budget.
Qed.
Lemma run_op_limit b op : bb_limit (run_op b op) = bb_limit b.
Proof. destruct op; simpl; [done|unfold grow|unfold share|unfold release]; repeat case_match; done. Qed.

(** C14: Whatever the tasks of the process do with their reservations, in whatever order, the
    bytes counted are at every moment the sum of what the living reservations are charged: never
    below zero, never over the limit, and none once all of them are dropped; a growth that is
    refused changes nothing. *)
Theorem budget_accounts limit ops id bytes :
  0 <= limit <= u64_max -> Forall op_fits ops ->
  let b := foldl run_op (ByteBudget_new limit) ops in
  bb_used b = charged_sum (bb_leases b) /\ 0 <= bb_used b <= limit /\
  (bb_leases b = empty -> bb_used b = 0) /\ ((grow id bytes b).2 = false -> (grow id bytes b).1 = b).
Proof.
  intros Hl Hf b. assert (Hw : budget_wf b) by (apply run_op_wf; auto with budget).
  assert (Hlim : bb_limit b = limit).
  { subst b. clear Hw. assert (Hk : forall b0, bb_limit (foldl run_op b0 ops) = bb_limit b0); [|by rewrite Hk].
    clear. induction ops as [|op ops IH]; intros b0; [done|]. simpl. by rewrite IH, run_op_limit. }
  pose proof (budget_used_nonneg b Hw). pose proof (bw_used b Hw) as [Hu Hle]. split_and!; [done..|lia| |].
  - intros He. by rewrite Hu, He.
  - unfold grow. by repeat case_match.
Qed.

(** ** Readers *)

Lemma len_app a b : len (a +:+ b) = len a + len b.
Proof. unfold len. rewrite str_length_app. lia. Qed.
Definition joined (cs : list string) : string := foldr (fun c s => c +:+ s) EmptyString cs.
(** The other tasks leave the lease alone. *)
Definition keeps_lease (id : nat) (others : nat -> ByteBudget -> ByteBudget) : Prop :=
  forall i b, budget_wf b -> budget_wf (others i b) /\ bb_leases (others i b) !! id = bb_leases b !! id.
Definition read_lease (data : string) : Reservation := {| re_charged := len data * BODY_HEADROOM; re_owners := 1 |}.

Lemma release_only id r b : bb_leases b !! id = Some r -> re_owners r = 1%nat -> bb_leases (release id b).1 !! id = None.
Proof. intros Hid Ho. unfold release. rewrite Hid, Ho. simpl. apply lookup_delete_eq. Qed.
Lemma refuse_read_spec {A E} id (e : E) data b : budget_wf b -> bb_leases b !! id = Some (read_lease data) ->
  exists b', refuse_read (A := A) id e b = (b', Err e) /\ budget_wf b' /\ bb_leases b' !! id = None.
Proof.
  intros Hw Hid. exists (release id b).1. unfold refuse_read, mbind, prog_bind. pose proof (release_wf id b Hw). pose proof (release_only id _ b Hid eq_refl).
  destruct (release id b) as [b' u]. done.
Qed.
Lemma grow_lease id data chunk b : budget_wf b -> bb_leases b !! id = Some (read_lease data) ->
  (len data + len chunk) * BODY_HEADROOM <= u64_max ->
  let '(b', grown) := grow id (sat_mul_u64 (len data + len chunk) BODY_HEADROOM) b in
  budget_wf b' /\ bb_leases b' !! id = Some (if grown then read_lease (data +:+ chunk) else read_lease data).
Proof.
  intros Hw Hid Hfit. assert (0 <= len data /\ 0 <= len chunk) by (unfold len; lia). unfold BODY_HEADROOM in *.
  pose proof (grow_wf id (sat_mul_u64 (len data + len chunk) 32) b Hw ltac:(apply clamp_u64_range)) as Hg.
  revert Hg. unfold grow. rewrite Hid. destruct (_ <? _); simpl; intros Hg; (split; [done|]); [done|]. rewrite lookup_insert_eq. unfold read_lease. f_equal. f_equal.
  rewrite len_app. unfold sat_sub_u64, sat_mul_u64, clamp_u64, BODY_HEADROOM, u64_max in *. lia.
Qed.

Section Readers.
Context (others : nat -> ByteBudget -> ByteBudget).

Lemma read_chunks_spec id max chunks i data b :
  keeps_lease id others -> max * BODY_HEADROOM <= u64_max ->
  budget_wf b -> bb_leases b !! id = Some (read_lease data) -> len data <= max ->
  let '(b', r) := read_chunks_of others i id max data chunks b in
  budget_wf b' /\
  match r with
  | Ok d => exists cs, chunks = Ok <$> cs /\ d = data +:+ joined cs /\ len d <= max /\ bb_leases b' !! id = Some (read_lease d)
  | Err _ => bb_leases b' !! id = None
  end.
Proof.
  intros Hkeep Hmax. revert i data b. induction chunks as [|[chunk|message] chunks IH]; intros i data b Hw Hid Hlen; cbn [read_chunks_of];
    (destruct (Hkeep i b Hw) as [Hw' Hid']; rewrite Hid in Hid').
  - split; [done|]. exists []. simpl. by rewrite str_app_nil_r.
  - assert (0 <= len data /\ 0 <= len chunk) by (unfold len; lia). pose proof (refuse_read_spec (A := string) id TooLarge data _ Hw' Hid') as (b1 & Hb1 & ? & ?).
    unfold BODY_HEADROOM in *. destruct (_ <? _) eqn:E1; [by rewrite Hb1|]. destruct (max <? _) eqn:E2; [by rewrite Hb1|].
    apply Z.ltb_ge in E2. pose proof (grow_lease id data chunk _ Hw' Hid' ltac:(unfold BODY_HEADROOM; lia)) as Hg. unfold BODY_HEADROOM in Hg.
    destruct (grow id _ _) as [b2 grown]. destruct Hg as [Hw2 Hid2]. destruct grown.
    + pose proof (IH (S i) (data +:+ chunk) b2 Hw2 Hid2 ltac:(rewrite len_app; lia)) as Hr.
      destruct (read_chunks_of _ _ _ _ _ _ _) as [b3 [d|e]]; [|done]. destruct Hr as (? & cs & -> & -> & ? & ?). split; [done|].
      exists (chunk :: cs). simpl. by rewrite str_app_assoc in *.
    + by destruct (refuse_read_spec (A := string) id Busy data _ Hw2 Hid2) as (b' & -> & ? & ?).
  - by destruct (refuse_read_spec (A := string) id (Transport message) data _ Hw' Hid') as (b' & -> & ? & ?).
Qed.

(** Reading a request is reading a response, but for the names of the errors. *)
Definition read_status (e : ReadError) : Z :=
  match e with TooLarge => 413 | Busy => 429 | Transport m => if decide (m = "length limit") then 413 else 400 end.
Definition transport_chunk (c : result bool string) : result string string :=
  match c with Ok s => Ok s | Err length_limit => Err (if length_limit : bool then "length limit" else "") end.
Lemma admit_chunks_read id max chunks i data b : 0 <= max < u64_max ->
  admit_chunks others i id max data chunks b =
    let '(b', r) := read_chunks_of others i id max data (transport_chunk <$> chunks) b in
    (b', match r with Ok d => Ok d | Err e => Err (read_status e) end).
Proof.
  intros Hmax. revert i data b. induction chunks as [|[chunk|[]] chunks IH]; intros i data b; cbn [admit_chunks read_chunks_of fmap list_fmap transport_chunk]; [done| |..].
  2-3: unfold refuse_read, mbind, prog_bind; by destruct (release id _).
  assert (0 <= len data + len chunk) by (unfold len; lia). assert (Hsat : sat_add_u64 (len data) (len chunk) = Z.min (len data + len chunk) u64_max) by (unfold sat_add_u64, clamp_u64; lia).
  rewrite Hsat. destruct (u64_max <? _) eqn:E1.
  - apply Z.ltb_lt in E1. rewrite Z.min_r by lia. destruct (max <? u64_max) eqn:E2; [|apply Z.ltb_ge in E2; lia].
    unfold refuse_read, mbind, prog_bind. by destruct (release id _).
  - apply Z.ltb_ge in E1. rewrite Z.min_l by lia. destruct (max <? _); [unfold refuse_read, mbind, prog_bind; by destruct (release id _)|].
    destruct (grow id _ _) as [b2 []]; [apply IH|]. unfold refuse_read, mbind, prog_bind. by destruct (release id _).
Qed.
End Readers.

Lemma reserve_spec b : budget_wf b -> budget_wf (reserve b).1 /\ bb_leases (reserve b).1 !! (reserve b).2 = Some (read_lease "").
Proof. intros Hw. split; [by apply reserve_wf|]. simpl. apply lookup_insert_eq. Qed.

(** What reading an upstream's answer costs.  Whatever the other tasks do to the budget
    meanwhile short of touching the reader's reservation: an answer that is read is the whole of
    what was sent, within the limit, and charged exactly thirty-two times its length; one that
    is refused, for its size, for want of room or for a broken transport, leaves nothing
    charged. *)
Theorem response_charged others p content_length max chunks b :
  budget_wf b -> keeps_lease (reserve b).2 others -> 0 <= max -> po_max_body_bytes p * BODY_HEADROOM <= u64_max -> 0 <= po_max_body_bytes p ->
  let '(b', r) := read_response others p content_length max chunks b in
  budget_wf b' /\
  match r with
  | Ok (data, id) =>
      exists cs, chunks = Ok <$> cs /\ data = joined cs /\ len data <= max /\ len data <= po_max_body_bytes p /\
        bb_leases b' !! id = Some {| re_charged := len data * BODY_HEADROOM; re_owners := 1 |}
  | Err _ => bb_leases b' !! (reserve b).2 = None
  end.
Proof.
  intros Hw Hkeep Hmax Hpol Hpos. unfold read_response, read_response_with_budget. destruct (match content_length with Some n => _ | None => _ end).
  { split; [done|]. apply fresh_lease. }
  destruct (reserve_spec b Hw) as [Hw1 Hid1]. destruct (reserve b) as [b1 id]. simpl in *.
  pose proof (read_chunks_spec others id (Z.min max (po_max_body_bytes p)) chunks O "" b1 Hkeep ltac:(unfold BODY_HEADROOM in *; lia) Hw1 Hid1 ltac:(unfold len; simpl; lia)) as Hr.
  destruct (read_chunks_of _ _ _ _ _ _ _) as [b2 [d|e]]; [|done]. destruct Hr as (? & cs & -> & -> & ? & ?). split; [done|].
  exists cs. split_and!; [done|done|simpl in *; lia..|done].
Qed.

(** A request body is read by the same rules: it is refused with 413, 429 or 400 exactly when
    the response reader refuses the same chunks for their size, for want of room, or for a broken
    transport. *)
Theorem request_read_as_response others {A} size_hint max chunks (handler : string -> prog ByteBudget A) b : 0 <= max < u64_max ->
  (admit_with_budget others size_hint max chunks handler b).2 =
    match read_response_with_budget others size_hint max (transport_chunk <$> chunks) b with
    | (b', Ok (data, id)) => Ok ((handler data (share id b').1).2, id)
    | (_, Err e) => Err (read_status e)
    end.
Proof.
  intros Hmax. unfold admit_with_budget, read_response_with_budget. destruct (match size_hint with Some n => _ | None => _ end); [done|].
  destruct (reserve b) as [b1 id]. rewrite admit_chunks_read by done. destruct (read_chunks_of _ _ _ _ _ _ _) as [b2 [d|e]]; [|done].
  destruct (share id b2) as [b3 u]. simpl. destruct (handler d b3) as [b4 answer]. by destruct (release id b4).
Qed.

(** Alone, a reader is only refused what does not fit. *)
Definition alone : nat -> ByteBudget -> ByteBudget := fun _ b => b.
Lemma grow_free id data chunk b : bb_leases b !! id = Some (read_lease data) -> bb_limit b <= u64_max -> 0 <= bb_used b ->
  (len data + len chunk) * BODY_HEADROOM <= u64_max -> len chunk * BODY_HEADROOM <= bb_limit b - bb_used b ->
  exists b', grow id (sat_mul_u64 (len data + len chunk) BODY_HEADROOM) b = (b', true) /\
    bb_leases b' !! id = Some (read_lease (data +:+ chunk)) /\ bb_used b' = bb_used b + len chunk * BODY_HEADROOM /\ bb_limit b' = bb_limit b.
Proof.
  intros Hid Hlim Hused Hfit Hfree. assert (0 <= len data /\ 0 <= len chunk) by (unfold len; lia).
  assert (Hx : sat_sub_u64 (sat_mul_u64 (len data + len chunk) BODY_HEADROOM) (re_charged (read_lease data)) = len chunk * BODY_HEADROOM).
  { cbn [re_charged read_lease]. unfold sat_sub_u64, sat_mul_u64, clamp_u64, BODY_HEADROOM in *. lia. }
  unfold grow. rewrite Hid, Hx. destruct (_ <? _) eqn:E.
  { apply Z.ltb_lt in E. unfold sat_sub_u64, clamp_u64, BODY_HEADROOM in *. lia. }
  eexists. split; [done|]. cbn [with_lease bb_leases bb_used bb_limit]. split_and!; [|done..]. rewrite lookup_insert_eq. unfold read_lease.
  rewrite len_app. cbn [re_charged re_owners]. do 2 f_equal. lia.
Qed.
Lemma reads_when_free id max cs i data b :
  bb_leases b !! id = Some (read_lease data) -> bb_limit b <= u64_max -> 0 <= bb_used b -> max * BODY_HEADROOM <= u64_max ->
  len data + len (joined cs) <= max -> len (joined cs) * BODY_HEADROOM <= bb_limit b - bb_used b ->
  exists b', read_chunks_of alone i id max data (Ok <$> cs) b = (b', Ok (data +:+ joined cs)) /\
    bb_used b' = bb_used b + len (joined cs) * BODY_HEADROOM.
Proof.
  revert i data b. induction cs as [|c cs IH]; intros i data b Hid Hlim Hused Hmax Hlen Hfree; cbn [fmap list_fmap read_chunks_of]; change (alone i b) with b.
  - exists b. simpl. rewrite str_app_nil_r. split; [done|]. change (len "") with 0. lia.
  - simpl in Hlen, Hfree. rewrite !len_app in *. unfold BODY_HEADROOM in *.
    assert (0 <= len data /\ 0 <= len c /\ 0 <= len (joined cs)) by (unfold len; lia).
    destruct (_ <? _) eqn:E1; [apply Z.ltb_lt in E1; lia|]. destruct (max <? _) eqn:E2; [apply Z.ltb_lt in E2; lia|]. clear E1 E2.
    destruct (grow_free id data c b Hid) as (b2 & Hg & Hid2 & Hu2 & Hl2); unfold BODY_HEADROOM in *; [lia..|]. rewrite Hg.
    destruct (IH (S i) (data +:+ c) b2 Hid2) as (b' & Hr & Hu); rewrite ?len_app; [lia..|].
    exists b'. rewrite str_app_assoc in Hr. split; [exact Hr|]. change (joined (c :: cs)) with (c +:+ joined cs). rewrite len_app. lia.
Qed.

(** An idle gateway reads every body up to the process's limit, whatever the machine: the
    budget for bodies holds the headroom of the greatest one. *)
Theorem idle_gateway_reads cpus memory cs : 0 <= memory ->
  let p := for_machine cpus memory in
  len (joined cs) <= po_max_body_bytes p ->
  exists b id, read_response alone p (Some (len (joined cs))) u64_max (Ok <$> cs) (ByteBudget_new (po_body_bytes p)) = (b, Ok (joined cs, id)) /\
    bb_used b = len (joined cs) * BODY_HEADROOM.
Proof.
  intros Hm p Hlen. destruct (policy_bounds cpus memory Hm) as (_ & _ & _ & Hpos & Hfit). fold p in Hpos, Hfit. clearbody p. unfold BODY_HEADROOM in *.
  unfold read_response, read_response_with_budget. assert (Hmin : Z.min u64_max (po_max_body_bytes p) = po_max_body_bytes p) by lia. rewrite Hmin.
  destruct (_ <? _) eqn:E; [apply Z.ltb_lt in E; lia|]. clear E.
  destruct (reserve_spec (ByteBudget_new (po_body_bytes p))) as [_ Hid]; [apply new_wf; lia|].
  set (b0 := ByteBudget_new _) in *. assert (Hb : bb_limit (reserve b0).1 = po_body_bytes p /\ bb_used (reserve b0).1 = 0) by done.
  destruct (reserve b0) as [b1 id]. cbn [fst snd] in *. destruct Hb as [Hl Hu].
  destruct (reads_when_free id (po_max_body_bytes p) cs O "" b1 Hid) as (b' & Hr & Hu'); unfold BODY_HEADROOM; [change (len "") with 0 in *; lia..|].
  rewrite Hr. exists b', id. split; [done|]. rewrite Hu', Hu. unfold BODY_HEADROOM. lia.
Qed.

(** * The processor's slots are never deadlocked

    Every job that is submitted ends, however the tasks are scheduled: a password job, which
    holds its memory while it waits for a slot, never waits for one that waits for memory. *)

(** ** Counting tasks *)

Definition count {A} (P : A -> bool) (l : list A) : Z := Z.of_nat (length (filter (fun x => P x = true) l)).
Lemma count_cons {A} (P : A -> bool) x l : count P (x :: l) = Z.b2z (P x) + count P l.
Proof. unfold count. rewrite filter_cons. destruct (P x); simpl; lia. Qed.
Lemma count_app {A} (P : A -> bool) l l' : count P (l ++ l') = count P l + count P l'.
Proof. unfold count. rewrite filter_app, length_app. lia. Qed.
Lemma count_update {A} (P : A -> bool) l i x y : l !! i = Some x -> count P (<[i := y]> l) = count P l - Z.b2z (P x) + Z.b2z (P y).
Proof.
  revert i. induction l as [|z l IH]; intros [|i] Hi; simpl in Hi; [done..| |]; change (<[_ := y]> (z :: l)) with (z :: <[i := y]> l) || injection Hi as ->.
  - change (<[0%nat := y]> (x :: l)) with (y :: l). rewrite !count_cons. lia.
  - rewrite !count_cons, (IH i Hi). lia.
Qed.
Lemma count_none {A} (P : A -> bool) l : (forall x, x ∈ l -> P x = false) -> count P l = 0.
Proof. induction l as [|x l IH]; intros Hx; [done|]. rewrite count_cons, IH by (intros; apply Hx; by right). rewrite Hx by by left. done. Qed.
Lemma count_nonneg {A} (P : A -> bool) l : 0 <= count P l.
Proof. unfold count. lia. Qed.

Definition is_running (t : job * phase) : bool := match t.2 with Running _ => true | _ => false end.
Definition is_inline (t : job * phase) : bool := match t.2 with Running true => true | _ => false end.
Definition has_memory (t : job * phase) : bool := match t with (PasswordJob, HasMemory) | (PasswordJob, Running _) => true | _ => false end.
Definition task_ok (t : job * phase) : Prop := match t with (CpuJob _, HasMemory) => False | _ => True end.

Record sched_wf (p : Policy) (s : sched) : Prop := {
  sw_slots : sc_slots s = po_cpu_jobs p - count is_running (sc_tasks s) /\ 0 <= sc_slots s;
  sw_inline : sc_inline s = div_ceil (po_io_workers p) 2 - count is_inline (sc_tasks s) /\ 0 <= sc_inline s;
  sw_passwords : sc_passwords s = po_argon_jobs p - count has_memory (sc_tasks s) /\ 0 <= sc_passwords s;
  sw_tasks : Forall task_ok (sc_tasks s);
}.

(** How many steps a task still needs. *)
Definition left_of (t : job * phase) : nat :=
  match t with (CpuJob _, Waiting) => 2 | (PasswordJob, Waiting) => 3 | (_, HasMemory) => 2 | (_, Running _) => 1 | (_, Done) => 0 end%nat.
Definition left (s : sched) : nat := foldr (fun t n => left_of t + n)%nat 0%nat (sc_tasks s).
Definition progress (e : sched_event) : bool := match e with Acquire _ | Finish _ => true | _ => false end.

Lemma left_update (l : list (job * phase)) i x y : l !! i = Some x ->
  (foldr (fun t n => left_of t + n) 0 (<[i := y]> l) + left_of x = foldr (fun t n => left_of t + n) 0 l + left_of y)%nat.
Proof.
  revert i. induction l as [|z l IH]; intros [|i] Hi; simpl in *; [done..| |].
  - injection Hi as ->. lia.
  - specialize (IH i Hi). lia.
Qed.

Ltac sched_case H :=
  repeat match type of H with
  | context [match ?x with _ => _ end] => destruct x eqn:?
  end; simplify_eq.
Ltac sched_done :=
  simpl; match goal with Hi : _ !! _ = Some _ |- _ => rewrite ?(count_update _ _ _ _ _ Hi) end; simpl in *;
  repeat match goal with H : _ && _ = true |- _ => apply andb_true_iff in H as [] end; zbool; lia.

Lemma sched_step_wf p e s s' : sched_wf p s -> sched_step e s = Some s' -> sched_wf p s'.
Proof.
  intros [[Hs Hs0] [Hi Hi0] [Hp Hp0] Ht] Hstep. destruct e as [j|i|i|i]; simpl in Hstep.
  { simplify_eq. constructor; simpl; rewrite ?count_app, ?count_cons; simpl; [destruct j; simpl; change (count _ []) with 0; lia..|].
    apply Forall_app_2; [done|]. repeat constructor. by destruct j. }
  all: sched_case Hstep; constructor; first [sched_done | simpl; apply Forall_insert; [done|]; done || by destruct j].
Qed.

Lemma sched_step_left e s s' : progress e = true -> sched_step e s = Some s' -> left s = S (left s').
Proof.
  intros He Hstep. destruct e as [j|i|i|i]; [done| | |done]; simpl in Hstep; sched_case Hstep; unfold left; simpl;
    match goal with Hi : _ !! _ = Some ?x |- context [<[_ := ?y]> _] => pose proof (left_update _ _ x y Hi) as Hl; simpl in Hl; lia end.
Qed.

Fixpoint run_sched (es : list sched_event) (s : sched) : option sched :=
  match es with [] => Some s | e :: es => s ← sched_step e s; run_sched es s end.
Lemma run_sched_wf p es s s' : sched_wf p s -> run_sched es s = Some s' -> sched_wf p s'.
Proof.
  revert s. induction es as [|e es IH]; intros s Hw Hr; simpl in Hr; [by simplify_eq|].
  destruct (sched_step e s) as [s1|] eqn:E; [|done]. eapply IH; [by eapply sched_step_wf|done].
Qed.
Lemma new_sched_wf p : 0 <= po_cpu_jobs p -> 0 <= po_argon_jobs p -> 0 <= po_io_workers p -> sched_wf p (Scheduler_new p).
Proof.
  intros Hc Ha Hi. constructor; simpl; change (count _ []) with 0; [lia| |lia|constructor].
  pose proof (div_ceil_spec (po_io_workers p) 2). lia.
Qed.

(** A task that has not ended can go on, or another can. *)
Lemma sched_progress p s : sched_wf p s -> 0 < po_cpu_jobs p -> 0 < po_argon_jobs p ->
  (forall e, progress e = true -> sched_step e s = None) -> Forall (fun t => t.2 = Done) (sc_tasks s).
Proof.
  intros [[Hs _] _ [Hp _] Ht] Hc Ha Hstuck. rewrite Forall_lookup in Ht.
  assert (Hrun : forall i j b, sc_tasks s !! i <> Some (j, Running b)).
  { intros i j b Hi. specialize (Hstuck (Finish i) eq_refl). simpl in Hstuck. by rewrite Hi in Hstuck. }
  assert (Hslots : 0 < sc_slots s).
  { rewrite Hs, count_none; [lia|]. intros [j ph] [i Hi]%list_elem_of_lookup. destruct ph as [| |b|]; try done. by apply Hrun in Hi. }
  assert (Hmem : forall i j, sc_tasks s !! i <> Some (j, HasMemory)).
  { intros i j Hi. specialize (Hstuck (Acquire i) eq_refl). simpl in Hstuck. rewrite Hi in Hstuck. destruct j; [by apply (Ht i _ Hi)|].
    by rewrite (proj2 (Z.ltb_lt _ _) Hslots) in Hstuck. }
  assert (Hpass : 0 < sc_passwords s).
  { rewrite Hp, count_none; [lia|]. intros [j ph] [i Hi]%list_elem_of_lookup. destruct j, ph as [| |b|]; try done; [by apply Hmem in Hi|by apply Hrun in Hi]. }
  apply Forall_lookup. intros i [j ph] Hi. destruct ph as [| |b|]; [|by apply Hmem in Hi|by apply Hrun in Hi|done].
  specialize (Hstuck (Acquire i) eq_refl). simpl in Hstuck. rewrite Hi in Hstuck.
  destruct j; [by rewrite (proj2 (Z.ltb_lt _ _) Hslots) in Hstuck|by rewrite (proj2 (Z.ltb_lt _ _) Hpass) in Hstuck].
Qed.

(** C22: The slots for work on the processor, on any machine and after any history of submissions,
    acquisitions, endings and cancellations: never more closures run than there are processor
    slots, never more passwords hold memory than the policy allows, never more run inline than
    half the workers; every way of going on without new submissions comes to an end, and where
    none can go on every task is done. *)
Theorem slots_never_deadlock cpus memory es s : 0 <= memory ->
  let p := for_machine cpus memory in
  run_sched es (Scheduler_new p) = Some s ->
  count is_running (sc_tasks s) <= po_cpu_jobs p /\
  count has_memory (sc_tasks s) <= po_argon_jobs p /\
  count is_inline (sc_tasks s) <= div_ceil (po_io_workers p) 2 /\
  (forall es' s', Forall (fun e => progress e = true) es' -> run_sched es' s = Some s' -> (length es' <= left s)%nat) /\
  ((forall e, progress e = true -> sched_step e s = None) -> Forall (fun t => t.2 = Done) (sc_tasks s)).
Proof.
  intros Hm p Hrun. destruct (policy_bounds cpus memory Hm) as (Hc & Ha & Hio & _). fold p in Hc, Ha, Hio.
  assert (Hw : sched_wf p s) by (eapply run_sched_wf; [|exact Hrun]; apply new_sched_wf; lia).
  pose proof (sw_slots p s Hw). pose proof (sw_passwords p s Hw). pose proof (sw_inline p s Hw). split_and!; [lia..| |by apply (sched_progress p)].
  clear -Hw. intros es' s'. revert s Hw. induction es' as [|e es' IH]; intros s Hw Hpr Hr; [simpl; lia|].
  apply Forall_cons in Hpr as [He Hpr]. simpl in Hr. destruct (sched_step e s) as [s1|] eqn:E; [|done].
  pose proof (sched_step_left e s s1 He E) as Hl. specialize (IH s1 ltac:(by eapply sched_step_wf) Hpr Hr). simpl. lia.
Qed.

(** * Budgets and slots on concrete machines *)

Definition GIB : Z := 1024 * MIB.

(** Two readers of one budget: the second is refused, then has room when the first is done. *)
Definition ops_demo : list budget_op := [OpReserve; OpGrow 0 800; OpReserve; OpGrow 1 300; OpShare 0; OpRelease 0; OpRelease 0; OpGrow 1 300].
Lemma budget_accounts_witness :
  let b := foldl run_op (ByteBudget_new 1000) ops_demo in bb_used b = charged_sum (bb_leases b) /\ bb_used b = 300.
Proof.
  split; [|vm_compute; reflexivity].
  refine (proj1 (budget_accounts 1000 ops_demo 0 0 _ _)); [by vm_compute|]. repeat constructor; by vm_compute.
Defined.
Example second_reader_refused :
  let b := foldl run_op (ByteBudget_new 1000) (take 3 ops_demo) in (grow 1 300 b).2 = false /\ (grow 1 200 b).2 = true.
Proof. vm_compute. done. Qed.

Lemma response_charged_witness :
  let p := for_machine 4 GIB in
  let '(b, r) := read_response alone p None 100 [Ok "tool"; Ok "s"] (ByteBudget_new (po_body_bytes p)) in
  r = Ok ("tools", 0%nat) /\ bb_used b = 160 /\ budget_wf b.
Proof.
  assert (Hw : budget_wf (ByteBudget_new (po_body_bytes (for_machine 4 GIB)))) by (apply new_wf; by vm_compute).
  pose proof (response_charged alone (for_machine 4 GIB) None 100 [Ok "tool"; Ok "s"] _ Hw ltac:(by intros i b Hb) ltac:(by vm_compute) ltac:(by vm_compute) ltac:(by vm_compute)) as H.
  assert (Hr : (read_response alone (for_machine 4 GIB) None 100 [Ok "tool"; Ok "s"] (ByteBudget_new (po_body_bytes (for_machine 4 GIB)))).2 = Ok ("tools", 0%nat)) by (vm_compute; reflexivity).
  assert (Hu : bb_used (read_response alone (for_machine 4 GIB) None 100 [Ok "tool"; Ok "s"] (ByteBudget_new (po_body_bytes (for_machine 4 GIB)))).1 = 160) by (vm_compute; reflexivity).
  cbn zeta. destruct (read_response _ _ _ _ _ _) as [b r]. simpl in Hr, Hu. split_and!; [done..|]. apply H.
Defined.
Lemma idle_gateway_reads_witness :
  exists b id, read_response alone (for_machine 4 GIB) (Some (len "tools")) u64_max (Ok <$> ["tool"; "s"]) (ByteBudget_new (po_body_bytes (for_machine 4 GIB))) = (b, Ok ("tools", id)) /\ bb_used b = 160.
Proof. apply (idle_gateway_reads 4 GIB ["tool"; "s"]); by vm_compute. Defined.
Lemma request_read_as_response_witness :
  (admit_with_budget alone None 3 [Ok "tools"] (fun d : string => mret d) (ByteBudget_new 1000)).2 = Err 413.
Proof.
  rewrite (request_read_as_response alone None 3 [Ok "tools"] (fun d : string => mret d) (ByteBudget_new 1000)) by (by vm_compute).
  vm_compute. reflexivity.
Defined.

(** One core: a password waits with its memory for the closure that runs, and ends after it. *)
Definition history_demo : list sched_event := [Submit (CpuJob 10); Submit PasswordJob; Acquire 0; Acquire 1].
Lemma slots_never_deadlock_witness :
  exists s, run_sched history_demo (Scheduler_new (for_machine 1 GIB)) = Some s /\ sched_step (Acquire 1) s = None /\
    count is_running (sc_tasks s) <= 1 /\ count has_memory (sc_tasks s) <= 1.
Proof.
  eexists. split; [vm_compute; reflexivity|]. split; [vm_compute; reflexivity|].
  refine ((fun H => conj (proj1 H) (proj1 (proj2 H))) (slots_never_deadlock 1 GIB history_demo _ _ _)); [by vm_compute|vm_compute; reflexivity].
Defined.
Example password_ends :
  (sc_tasks <$> run_sched (history_demo ++ [Finish 0; Acquire 1; Finish 1]) (Scheduler_new (for_machine 1 GIB))) = Some [(CpuJob 10, Done); (PasswordJob, Done)].
Proof. vm_compute. done. Qed.
