(* ===== verification/McpSse.v ===== *)
(** * Server-sent events of MCP servers

    The two readers of an upstream's event stream: the whole body at once
    ([parse_sse_json_rpc] of [crates/mcp-gateway/src/pool.rs]) and as its chunks arrive
    ([crates/mcp-gateway/src/proxy/streaming.rs]).  Parsing JSON is a parameter. *)

From Stdlib Require Import Ascii.
From S2P Require Import Prelude Interfaces GatewayDeps Text McpRegistry Lifecycle.

Definition LF : ascii := "010".
Definition CR : ascii := "013".

(** ** [str] *)

(** The first [n] bytes, and the others. *)
Fixpoint str_take (n : nat) (s : string) : string :=
  match n, s with S n, String c s => String c (str_take n s) | _, _ => EmptyString end.
Fixpoint str_drop (n : nat) (s : string) : string :=
  match n, s with S n, String _ s => str_drop n s | _, _ => s end.

(** [str::find]: the first occurrence. *)
Definition str_find (sep s : string) : option nat := (fun p => String.length p.1) <$> split_str sep s.

(** [split_inclusive('\n')]. *)
Fixpoint split_inclusive (s : string) : list string :=
  match s with
  | EmptyString => []
  | String c s =>
      if decide (c = LF) then String LF EmptyString :: split_inclusive s
      else match split_inclusive s with [] => [String c EmptyString] | l :: ls => String c l :: ls end
  end.
Definition without_end (l : string) : string :=
  match strip_suffix (String LF EmptyString) l with
  | None => l
  | Some l => default l (strip_suffix (String CR EmptyString) l)
  end.
Definition lines (s : string) : list string := without_end <$> split_inclusive s.

Definition trim_start (s : string) : string := strip_all strip_prefix (String.length s) s.

(** [trim_end_matches(['\n', '\r'])]. *)
Fixpoint trim_line_ends (s : string) : string :=
  match s with
  | EmptyString => EmptyString
  | String c s =>
      match trim_line_ends s with
      | EmptyString => if decide (c = LF \/ c = CR) then EmptyString else String c EmptyString
      | s => String c s
      end
  end.

(** [String::from_utf8_lossy]: a maximal ill-formed subpart becomes U+FFFD. *)
Definition between (lo hi : nat) (c : ascii) : bool := let n := nat_of_ascii c in (lo <=? n)%nat && (n <=? hi)%nat.
Definition replacement : string := bytes_string [239; 191; 189]%nat.
(** How many continuation bytes a first byte asks for, and the range of the first of them. *)
Definition utf8_lead (c : ascii) : option (nat * nat * nat) :=
  if between 0 127 c then Some (0, 0, 0)%nat
  else if between 194 223 c then Some (1, 128, 191)%nat
  else if between 224 224 c then Some (2, 160, 191)%nat
  else if between 237 237 c then Some (2, 128, 159)%nat
  else if between 225 239 c then Some (2, 128, 191)%nat
  else if between 240 240 c then Some (3, 144, 191)%nat
  else if between 241 243 c then Some (3, 128, 191)%nat
  else if between 244 244 c then Some (3, 128, 143)%nat
  else None.
(** [pending]: the character begun, how many bytes it still asks for, and the range of the next. *)
Fixpoint lossy_from (pending : option (string * nat * nat * nat)) (s : string) : string :=
  let start c s :=
    match utf8_lead c with
    | None => replacement +:+ lossy_from None s
    | Some (O, _, _) => String c (lossy_from None s)
    | Some (n, lo, hi) => lossy_from (Some (String c EmptyString, n, lo, hi)) s
    end in
  match s with
  | EmptyString => match pending with None => EmptyString | Some _ => replacement end
  | String c s =>
      match pending with
      | None => start c s
      | Some (begun, n, lo, hi) =>
          if between lo hi c then
            match n with
            | S (S m) => lossy_from (Some (begun +:+ String c EmptyString, S m, 128, 191)%nat) s
            | _ => begun +:+ String c (lossy_from None s)
            end
          else replacement +:+ start c s
      end
  end.
Definition from_utf8_lossy (s : string) : string := lossy_from None s.

Section Sse.
Context {V : Type} `{JsonValue V, EqDecision V}.
(** [serde_json]: text to a value, a string as a value, the count of what was left out. *)
Context (parse_json : string -> option V) (json_string : string -> V) (truncated_events : nat -> V).

Definition parse_event (payload : string) : V := default (json_string payload) (parse_json payload).
Definition response_shaped (e : V) : bool :=
  bool_decide (is_Some (json_get "result" e)) || bool_decide (is_Some (json_get "error" e)).

(** ** The whole body *)

Definition MAX_AUDIT_EVENTS : nat := 1024.
Record sse_read := { sr_events : list V; sr_truncated : nat; sr_buf : string }.

Definition flush (st : sse_read) : sse_read :=
  if bool_decide (sr_buf st = "") then st
  else
    let parsed := parse_event (sr_buf st) in
    if response_shaped parsed || (length (sr_events st) <? MAX_AUDIT_EVENTS)%nat
    then {| sr_events := sr_events st ++ [parsed]; sr_truncated := sr_truncated st; sr_buf := "" |}
    else {| sr_events := sr_events st; sr_truncated := S (sr_truncated st); sr_buf := "" |}.
Definition read_line (st : sse_read) (line : string) : sse_read :=
  match strip_prefix "data:" line with
  | Some payload =>
      {| sr_events := sr_events st; sr_truncated := sr_truncated st;
         sr_buf := if bool_decide (sr_buf st = "") then trim_start payload
                   else sr_buf st +:+ String LF (trim_start payload) |}
  | None => if bool_decide (line = "") then flush st else st
  end.
Definition read_body (text : string) : sse_read :=
  flush (foldl read_line {| sr_events := []; sr_truncated := 0; sr_buf := "" |} (lines text)).
Definition audit_events (st : sse_read) : list V :=
  if (0 <? sr_truncated st)%nat then sr_events st ++ [truncated_events (sr_truncated st)] else sr_events st.

Definition last_such (P : V -> bool) (events : list V) : option V := head (filter (fun e => P e = true) (reverse events)).
Definition answers (request_id e : V) : bool := bool_decide (json_get "id" e = Some request_id) && response_shaped e.
Definition response_event (events : list V) (request_id : option V) : option V :=
  match request_id with
  | Some id => match last_such (answers id) events with Some e => Some e | None => last_such response_shaped events end
  | None => last_such response_shaped events
  end.

(** [decode] is [serde_json::from_value] to a response, [to_text] the text of the array of
    events. *)
Context {R : Type} (decode : V -> result string R) (to_text : list V -> string).
Definition parse_sse_json_rpc (text : string) (request_id : option V) : result string (R * string) :=
  let events := audit_events (read_body text) in
  if bool_decide (events = []) then Err "No SSE events found in stream"
  else match response_event events request_id with
  | None => Err ("SSE stream had " +:+ pretty (length events) +:+ " event(s) but none carried a result or error")
  | Some e =>
      match decode e with
      | Err e => Err ("matched SSE event failed to deserialize: " +:+ e)
      | Ok response => Ok (response, to_text events)
      end
  end.

(** ** As the chunks arrive *)

Definition find_sse_event_terminator (s : string) : option nat :=
  let lf := (fun i => i + 2)%nat <$> str_find (String LF (String LF EmptyString)) s in
  let crlf := (fun i => i + 4)%nat <$> str_find (String CR (String LF (String CR (String LF EmptyString)))) s in
  match lf, crlf with
  | Some a, Some b => Some (Nat.min a b)
  | Some a, None => Some a
  | None, b => b
  end.

Definition add_data (out : option string) (line : string) : option string :=
  match strip_prefix "data:" line with
  | Some payload => Some (match out with None => trim_start payload | Some s => s +:+ String LF (trim_start payload) end)
  | None => out
  end.
Definition extract_sse_data_payload (event_block : string) : option string := foldl add_data None (lines event_block).

Definition pick (request_id : option V) (with_id : bool) (events : list V) : option V :=
  last_such (fun e =>
    if negb (response_shaped e) then false
    else if with_id then match request_id with Some rid => bool_decide (json_get "id" e = Some rid) | None => false end
    else true) events.
Definition pick_response_envelope (events : list V) (request_id : option V) : option R :=
  match (match pick request_id true events with Some e => Some e | None => pick request_id false events end) with
  | Some e => match decode e with Ok r => Some r | Err _ => None end
  | None => None
  end.

Definition MAX_SSE_EVENT_BYTES : Z := 8 * 1024 * 1024.

(** What the pump holds: the bytes without their end yet, the events so far, what went
    downstream, how it ended. *)
Record pump := { pu_buf : string; pu_events : list V; pu_sent : list string; pu_done : option StreamOutcome }.
Definition send_block (event_block : string) (st : pump) : pump :=
  match extract_sse_data_payload event_block with
  | Some payload =>
      if bool_decide (payload = "") then st
      else {| pu_buf := pu_buf st; pu_events := pu_events st ++ [parse_event payload];
              pu_sent := pu_sent st ++ [payload]; pu_done := pu_done st |}
  | None => st
  end.
Definition with_buf (buf : string) (st : pump) : pump :=
  {| pu_buf := buf; pu_events := pu_events st; pu_sent := pu_sent st; pu_done := pu_done st |}.
Definition ended (o : StreamOutcome) (st : pump) : pump :=
  {| pu_buf := pu_buf st; pu_events := pu_events st; pu_sent := pu_sent st; pu_done := Some o |}.
(** A block has a byte at least, so that the length of the buffer is fuel enough
    ([drain_done]). *)
Fixpoint drain (fuel : nat) (st : pump) : pump :=
  match fuel, find_sse_event_terminator (pu_buf st) with
  | S fuel, Some end_ => drain fuel (send_block (str_take end_ (pu_buf st)) (with_buf (str_drop end_ (pu_buf st)) st))
  | _, _ => st
  end.

(** A chunk, or the error that ends the source; whether the gateway has room for the chunk. *)
Definition chunk : Type := result string string.
Context (busy : string).
Fixpoint read_chunks (admitted : nat -> bool) (source : list chunk) (st : pump) : pump :=
  match source with
  | [] => st
  | Ok bytes :: source =>
      if negb (admitted O) then
        with_buf "" {| pu_buf := ""; pu_events := pu_events st; pu_sent := pu_sent st ++ [busy];
                       pu_done := Some (UpstreamError "gateway_memory" "Gateway buffering capacity is occupied; retry shortly" 429) |}
      else if MAX_SSE_EVENT_BYTES <? Z.of_nat (String.length (pu_buf st)) + Z.of_nat (String.length bytes) then
        ended (UpstreamError "transport" ("MCP SSE event exceeded " +:+ pretty MAX_SSE_EVENT_BYTES +:+ " bytes without delimiter") 502) st
      else
        let buf := pu_buf st +:+ from_utf8_lossy bytes in
        read_chunks (fun n => admitted (S n)) source (drain (String.length buf) (with_buf buf st))
  | Err message :: _ => ended (UpstreamError "transport" message 502) st
  end.
Definition build_passthrough_body (admitted : nat -> bool) (source : list chunk) : pump :=
  let st := read_chunks admitted source {| pu_buf := ""; pu_events := []; pu_sent := []; pu_done := None |} in
  let trailing := trim_line_ends (pu_buf st) in
  let st := if bool_decide (trailing = "") then st else send_block trailing st in
  match pu_done st with None => ended Natural st | Some _ => st end.
End Sse.
#[global] Arguments sse_read : clear implicits.
#[global] Arguments pump : clear implicits.
