(* ===== verification/McpSseSpec.v ===== *)
(** * The two readers agree

    However the bytes of an event stream are cut into chunks, the pump sends the same events
    downstream; and for the texts the protocol has, they are the events the whole-body reader
    finds, with the same answer among them. *)
From Stdlib Require Import Ascii.
From S2P Require Import Prelude Interfaces GatewayDeps Text Lifecycle McpRegistry McpSse.

(** ** Occurrences *)

Lemma str_take_drop n s : str_take n s +:+ str_drop n s = s.
Proof. revert s. induction n as [|n IH]; intros [|c s]; simpl; [done..|]. change (String c (str_take n s +:+ str_drop n s) = String c s). by rewrite IH. Qed.
Lemma str_take_app a b : str_take (String.length a) (a +:+ b) = a.
Proof. induction a as [|c a IH]; [by destruct b|]. change (String c a +:+ b) with (String c (a +:+ b)). simpl. by rewrite IH. Qed.
Lemma str_drop_app a b : str_drop (String.length a) (a +:+ b) = b.
Proof. induction a as [|c a IH]; [by destruct b|]. exact IH. Qed.
Lemma str_take_le n s b : (n <= String.length s)%nat -> str_take n (s +:+ b) = str_take n s.
Proof.
  revert s. induction n as [|n IH]; intros [|c s] Hn; simpl in *; [by destruct b|done|lia|].
  change (String c s +:+ b) with (String c (s +:+ b)). simpl. rewrite IH by lia. done.
Qed.
Lemma str_drop_le n s b : (n <= String.length s)%nat -> str_drop n (s +:+ b) = str_drop n s +:+ b.
Proof.
  revert s. induction n as [|n IH]; intros [|c s] Hn; simpl in *; [by destruct b|done|lia|]. apply IH. lia.
Qed.
Lemma str_drop_length n s : String.length (str_drop n s) = (String.length s - n)%nat.
Proof. revert s. induction n as [|n IH]; intros [|c s]; simpl; [done..|apply IH]. Qed.

Lemma strip_prefix_app p s t b : strip_prefix p s = Some t -> strip_prefix p (s +:+ b) = Some (t +:+ b).
Proof. rewrite !strip_prefix_Some. intros ->. by rewrite str_app_assoc. Qed.
(** A prefix of [s ++ b] that is none of [s] is longer than [s]. *)
Lemma strip_prefix_new p s b t : strip_prefix p s = None -> strip_prefix p (s +:+ b) = Some t -> (String.length s < String.length p)%nat.
Proof.
  intros Hn Hs. destruct (Nat.lt_ge_cases (String.length s) (String.length p)) as [|Hle]; [done|]. exfalso.
  apply strip_prefix_Some in Hs. assert (Hp : str_take (String.length p) s = p).
  { rewrite <- (str_take_le _ _ b) by done. rewrite Hs. apply str_take_app. }
  rewrite <- (str_take_drop (String.length p) s), Hp in Hn. 
  destruct (strip_prefix p (p +:+ _)) eqn:E; [done|]. clear Hn. apply eq_None_not_Some in E. apply E.
  eexists. by apply strip_prefix_Some.
Qed.

Lemma str_find_cons sep c s : str_find sep (String c s) =
  match strip_prefix sep (String c s) with Some _ => Some O | None => S <$> str_find sep s end.
Proof. unfold str_find. simpl. destruct (strip_prefix _ _); [done|]. by destruct (split_str sep s) as [[a b]|]. Qed.
Lemma str_find_app sep s b i : str_find sep s = Some i -> str_find sep (s +:+ b) = Some i.
Proof.
  revert i. induction s as [|c s IH]; intros i.
  - unfold str_find. simpl. destruct (strip_prefix sep "") as [t|] eqn:E; [|done]. intros [= <-].
    apply strip_prefix_Some in E. destruct sep; [|done]. by destruct b.
  - change (String c s +:+ b) with (String c (s +:+ b)). rewrite !str_find_cons.
    destruct (strip_prefix sep (String c s)) as [t|] eqn:E.
    + intros [= <-]. apply (strip_prefix_app _ _ _ b) in E. change (String c s +:+ b) with (String c (s +:+ b)) in E. by rewrite E.
    + intros Hf. destruct (str_find sep s) as [j|] eqn:Ej; [|done]. injection Hf as <-.
      destruct (strip_prefix sep (String c (s +:+ b))) as [t|] eqn:E'; [|by rewrite (IH j)].
      apply (strip_prefix_new sep (String c s) b) in E'; [|done]. exfalso.
      unfold str_find in Ej. destruct (split_str sep s) as [[x y]|] eqn:Es; [|done]. apply split_str_app in Es.
      rewrite Es in E'. simpl in E'. rewrite !str_length_app in E'. lia.
Qed.
Lemma str_find_new sep s b i : str_find sep s = None -> str_find sep (s +:+ b) = Some i -> (String.length s < i + String.length sep)%nat.
Proof.
  revert i. induction s as [|c s IH]; intros i.
  - unfold str_find. simpl. destruct (strip_prefix sep "") eqn:E; [done|]. intros _ _. destruct sep; [done|]. simpl. lia.
  - change (String c s +:+ b) with (String c (s +:+ b)). rewrite !str_find_cons.
    destruct (strip_prefix sep (String c s)) as [t|] eqn:E; [done|]. destruct (str_find sep s) as [j|] eqn:Ej; [done|]. intros _.
    destruct (strip_prefix sep (String c (s +:+ b))) as [t|] eqn:E'.
    + intros [= <-]. apply (strip_prefix_new sep (String c s) b) in E'; [|done]. lia.
    + destruct (str_find sep (s +:+ b)) as [k|] eqn:Ek; [|done]. intros [= <-]. specialize (IH k eq_refl eq_refl). simpl. lia.
Qed.
Lemma str_find_le sep s i : str_find sep s = Some i -> (i + String.length sep <= String.length s)%nat.
Proof.
  unfold str_find. destruct (split_str sep s) as [[x y]|] eqn:Es; [|done]. intros [= <-]. apply split_str_app in Es. subst s.
  rewrite !str_length_app. simpl. lia.
Qed.

Abbreviation term := find_sse_event_terminator.
Lemma term_bounds s e : term s = Some e -> (2 <= e <= String.length s)%nat.
Proof.
  unfold term. destruct (str_find (String LF (String LF "")) s) as [i|] eqn:E1, (str_find (String CR (String LF (String CR (String LF "")))) s) as [j|] eqn:E2;
    simpl; intros [= <-]; try apply str_find_le in E1; try apply str_find_le in E2; simpl in *; lia.
Qed.
Lemma term_app s b e : term s = Some e -> term (s +:+ b) = Some e.
Proof.
  intros Ht. pose proof (term_bounds _ _ Ht) as He. revert Ht. unfold term.
  destruct (str_find (String LF (String LF "")) s) as [i|] eqn:E1; [rewrite (str_find_app _ _ b _ E1)|];
    (destruct (str_find (String CR (String LF (String CR (String LF "")))) s) as [j|] eqn:E2; [rewrite (str_find_app _ _ b _ E2)|]); simpl; intros [= <-].
  - done.
  - destruct (str_find _ (s +:+ b)) as [k|] eqn:Ek; simpl; [|done]. pose proof (str_find_new _ _ _ _ E2 Ek) as Hk. simpl in Hk. f_equal. lia.
  - destruct (str_find (String LF (String LF "")) (s +:+ b)) as [k|] eqn:Ek; simpl; [|done]. pose proof (str_find_new _ _ _ _ E1 Ek) as Hk. simpl in Hk. f_equal. lia.
Qed.

(** ** Draining the buffer *)

Section Pump.
Context {V : Type} `{JsonValue V, EqDecision V}.
Context (parse_json : string -> option V) (json_string : string -> V) (busy : string).
Implicit Types (st : pump V) (admitted : nat -> bool).
Abbreviation send := (send_block parse_json json_string).
Abbreviation drains := (drain parse_json json_string).
Definition drained st : pump V := drains (String.length (pu_buf st)) st.

Lemma send_buf block st : pu_buf (send block st) = pu_buf st.
Proof. unfold send_block. destruct (extract_sse_data_payload block); [|done]. by case_bool_decide. Qed.
Lemma send_done block st : pu_done (send block st) = pu_done st.
Proof. unfold send_block. destruct (extract_sse_data_payload block); [|done]. by case_bool_decide. Qed.
Lemma send_with_buf block buf st : send block (with_buf buf st) = with_buf buf (send block st).
Proof. unfold send_block. destruct (extract_sse_data_payload block); [|done]. by case_bool_decide. Qed.
Lemma with_buf_twice a b st : with_buf a (with_buf b st) = with_buf a st.
Proof. done. Qed.
Lemma with_buf_same st : with_buf (pu_buf st) st = st.
Proof. by destruct st. Qed.

Lemma drain_step fuel st e : term (pu_buf st) = Some e ->
  drains (S fuel) st = drains fuel (send (str_take e (pu_buf st)) (with_buf (str_drop e (pu_buf st)) st)).
Proof. intros He. simpl. by rewrite He. Qed.
Lemma drain_stop fuel st : term (pu_buf st) = None -> drains fuel st = st.
Proof. intros He. destruct fuel; simpl; [done|]. by rewrite He. Qed.

(** More fuel than bytes is enough fuel. *)
Lemma drain_fuel fuel fuel' st :
  (String.length (pu_buf st) <= fuel)%nat -> (String.length (pu_buf st) <= fuel')%nat -> drains fuel st = drains fuel' st.
Proof.
  revert fuel' st. induction fuel as [|fuel IH]; intros fuel' st Hf Hf'.
  - destruct (term (pu_buf st)) as [e|] eqn:E; [apply term_bounds in E; lia|]. by rewrite !drain_stop.
  - destruct (term (pu_buf st)) as [e|] eqn:E; [|by rewrite !drain_stop]. pose proof (term_bounds _ _ E).
    destruct fuel' as [|fuel']; [lia|]. rewrite !(drain_step _ _ _ E).
    apply IH; rewrite send_buf; simpl; rewrite str_drop_length; lia.
Qed.
Lemma drained_step st e : term (pu_buf st) = Some e ->
  drained st = drained (send (str_take e (pu_buf st)) (with_buf (str_drop e (pu_buf st)) st)).
Proof.
  intros E. unfold drained. pose proof (term_bounds _ _ E). destruct (String.length (pu_buf st)) as [|n] eqn:En; [lia|].
  rewrite (drain_step _ _ _ E). apply drain_fuel; rewrite ?send_buf; simpl; rewrite ?str_drop_length; lia.
Qed.
Lemma drained_stop st : term (pu_buf st) = None -> drained st = st.
Proof. apply drain_stop. Qed.
Lemma drain_done st : term (pu_buf (drained st)) = None.
Proof.
  remember (String.length (pu_buf st)) as n eqn:En. revert st En. induction (lt_wf n) as [n _ IH]. intros st ->.
  destruct (term (pu_buf st)) as [e|] eqn:E; [|by rewrite drained_stop]. pose proof (term_bounds _ _ E). rewrite (drained_step _ _ E).
  eapply IH; [|done]. rewrite send_buf. simpl. rewrite str_drop_length. lia.
Qed.

(** Bytes that come later do not change what has been sent. *)
Lemma drained_app st b : drained (with_buf (pu_buf st +:+ b) st) =
  drained (with_buf (pu_buf (drained st) +:+ b) (drained st)).
Proof.
  remember (String.length (pu_buf st)) as n eqn:En. revert st En. induction (lt_wf n) as [n _ IH]. intros st ->.
  destruct (term (pu_buf st)) as [e|] eqn:E; [|by rewrite (drained_stop st)].
  pose proof (term_bounds _ _ E) as He. rewrite (drained_step st e E).
  rewrite (drained_step (with_buf (pu_buf st +:+ b) st) e) by (by apply term_app). simpl.
  rewrite str_take_le, str_drop_le by lia. rewrite with_buf_twice.
  set (st' := send (str_take e (pu_buf st)) (with_buf (str_drop e (pu_buf st)) st)).
  specialize (IH (String.length (pu_buf st'))).
  rewrite <- (IH ltac:(subst st'; rewrite send_buf; simpl; rewrite str_drop_length; lia) st' eq_refl).
  f_equal. subst st'. rewrite send_buf. simpl. rewrite <- send_with_buf. done.
Qed.
Lemma drained_twice st : drained (drained st) = drained st.
Proof. apply drained_stop, drain_done. Qed.
Lemma drained_field st : pu_done (drained st) = pu_done st.
Proof.
  remember (String.length (pu_buf st)) as n eqn:En. revert st En. induction (lt_wf n) as [n _ IH]. intros st ->.
  destruct (term (pu_buf st)) as [e|] eqn:E; [|by rewrite drained_stop]. pose proof (term_bounds _ _ E). rewrite (drained_step _ _ E).
  erewrite IH; [|shelve|done]. by rewrite send_done.
  Unshelve. rewrite send_buf. simpl. rewrite str_drop_length. lia.
Qed.

(** ** Chunks *)

Definition text_of (chunks : list string) : string := foldr (fun c s => from_utf8_lossy c +:+ s) EmptyString chunks.
(** Every chunk is admitted, and finds room in the buffer behind what is left of an event that
    is not over yet. *)
Fixpoint chunks_fit admitted st (chunks : list string) : Prop :=
  match chunks with
  | [] => True
  | c :: chunks =>
      admitted O = true /\ Z.of_nat (String.length (pu_buf st)) + Z.of_nat (String.length c) <= MAX_SSE_EVENT_BYTES /\
      chunks_fit (fun n => admitted (S n)) (drained (with_buf (pu_buf st +:+ from_utf8_lossy c) st)) chunks
  end.
#[export] Instance chunks_fit_dec admitted st chunks : Decision (chunks_fit admitted st chunks).
Proof. revert admitted st. induction chunks as [|c chunks IH]; intros admitted st; simpl; apply _. Defined.

Lemma read_chunks_text admitted chunks st :
  term (pu_buf st) = None -> chunks_fit admitted st chunks ->
  read_chunks parse_json json_string busy admitted (Ok <$> chunks) st = drained (with_buf (pu_buf st +:+ text_of chunks) st).
Proof.
  revert admitted st. induction chunks as [|c chunks IH]; intros admitted st Hterm Hfit.
  - simpl. rewrite str_app_nil_r, with_buf_same. by rewrite drained_stop.
  - destruct Hfit as (Hadm & Hroom & Hfit). simpl. rewrite Hadm. simpl.
    destruct (_ <? _) eqn:El; [apply Z.ltb_lt in El; lia|].
    set (st1 := with_buf (pu_buf st +:+ from_utf8_lossy c) st) in *.
    change (drain parse_json json_string (String.length (pu_buf st +:+ from_utf8_lossy c)) st1) with (drained st1).
    rewrite IH; [|apply drain_done|done].
    rewrite <- (drained_app st1). f_equal. subst st1. simpl. by rewrite str_app_assoc.
Qed.
Lemma read_chunks_unfit admitted chunks st : ~ chunks_fit admitted st chunks ->
  exists message status, (exists error_type, pu_done (read_chunks parse_json json_string busy admitted (Ok <$> chunks) st) = Some (UpstreamError error_type message status)) /\
    (status = 429 \/ status = 502).
Proof.
  revert admitted st. induction chunks as [|c chunks IH]; intros admitted st Hfit; [by destruct Hfit|]. simpl in *.
  destruct (admitted O); simpl; [|by eexists _, 429; split; [eexists|left]].
  destruct (_ <? _) eqn:El; [by eexists _, 502; split; [eexists|right]|]. apply Z.ltb_ge in El. apply IH. intros Hf. by apply Hfit.
Qed.
End Pump.

(** ** Lines *)

Abbreviation blank := (String LF EmptyString).
Lemma split_inclusive_app a b : split_inclusive (a +:+ String LF b) = split_inclusive (a +:+ blank) ++ split_inclusive b.
Proof.
  induction a as [|c a IH]; [done|].
  change (String c a +:+ String LF b) with (String c (a +:+ String LF b)). change (String c a +:+ blank) with (String c (a +:+ blank)). simpl.
  destruct (decide (c = LF)); [by rewrite IH|]. rewrite IH. destruct (split_inclusive (a +:+ blank)) as [|l ls] eqn:E; [|done].
  exfalso. clear -E. destruct a as [|d a]; [done|]. change (String d a +:+ blank) with (String d (a +:+ blank)) in E. simpl in E.
  destruct (decide (d = LF)); [done|]. by destruct (split_inclusive (a +:+ blank)).
Qed.
Lemma lines_app a b : lines (a +:+ String LF b) = lines (a +:+ blank) ++ lines b.
Proof. unfold lines. by rewrite split_inclusive_app, fmap_app. Qed.

Definition no_cr (s : string) : Prop := has_char CR s = false.
Definition no_blank_line (s : string) : Prop := str_find (String LF blank) s = None.

Lemma no_cr_app a b : no_cr (a +:+ b) <-> no_cr a /\ no_cr b.
Proof. unfold no_cr. by rewrite has_char_app, orb_false_iff. Qed.
Lemma no_cr_cons c s : no_cr (String c s) <-> c <> CR /\ no_cr s.
Proof. unfold no_cr. simpl. rewrite orb_false_iff, bool_decide_eq_false. naive_solver. Qed.

(** Without carriage returns a line is what stands before its line feed. *)
Lemma without_end_cons c l : c <> LF -> c <> CR -> without_end (String c l) = String c (without_end l).
Proof.
  intros Hl Hc. unfold without_end. destruct (strip_suffix blank (String c l)) as [s|] eqn:E.
  - apply strip_suffix_Some in E. destruct s as [|d s]; [injection E as -> ->; done|]. injection E as -> ->.
    assert (Hs : strip_suffix blank (s +:+ blank) = Some s) by (by apply strip_suffix_Some). rewrite Hs.
    destruct (strip_suffix (String CR "") (String d s)) as [u|] eqn:Eu.
    + apply strip_suffix_Some in Eu. destruct u as [|x u]; [injection Eu as -> ->; done|]. injection Eu as -> ->.
      assert (Hu : strip_suffix (String CR "") (u +:+ String CR "") = Some u) by (by apply strip_suffix_Some). by rewrite Hu.
    + simpl. destruct (strip_suffix (String CR "") s) as [u|] eqn:Eu'; [|done]. apply strip_suffix_Some in Eu' as ->.
      exfalso. assert (strip_suffix (String CR "") (String d (u +:+ String CR "")) = Some (String d u)) by (by apply strip_suffix_Some). congruence.
  - destruct (strip_suffix blank l) as [s|] eqn:E'; [|done]. apply strip_suffix_Some in E' as ->.
    assert (strip_suffix blank (String c (s +:+ blank)) = Some (String c s)) by (by apply strip_suffix_Some). congruence.
Qed.

Lemma lines_blank s : lines (String LF s) = "" :: lines s.
Proof. done. Qed.
Lemma lines_tail c s : c <> LF -> tail (lines (String c s)) = tail (lines s).
Proof. intros Hl. unfold lines. simpl. rewrite decide_False by done. by destruct (split_inclusive s). Qed.
(** A line but the first is blank only after a blank line. *)
Lemma head_nonblank c s l : c <> LF -> c <> CR -> head (lines (String c s)) = Some l -> l <> "".
Proof.
  intros Hl Hc. unfold lines. simpl. rewrite decide_False by done.
  destruct (split_inclusive s) as [|x xs]; simpl; intros [= <-]; by rewrite without_end_cons.
Qed.
Lemma tail_nonblank s : no_cr s -> no_blank_line s -> Forall (fun l => l <> "") (tail (lines s)).
Proof.
  induction s as [|c s IH]; [constructor|]. rewrite no_cr_cons. intros [Hc Hcr] Hb. unfold no_blank_line in *.
  rewrite str_find_cons in Hb. destruct (strip_prefix (String LF blank) (String c s)) as [t|] eqn:Ep; [done|].
  assert (Hs : str_find (String LF blank) s = None) by (by destruct (str_find (String LF blank) s)).
  specialize (IH Hcr Hs). destruct (decide (c = LF)) as [->|Hl]; [|by rewrite lines_tail].
  rewrite lines_blank. simpl. destruct s as [|d s]; [constructor|]. apply no_cr_cons in Hcr as [Hd Hcr'].
  assert (Hdl : d <> LF). { intros ->. assert (strip_prefix (String LF blank) (String LF (String LF s)) = Some s) by (by apply strip_prefix_Some). congruence. }
  pose proof (head_nonblank d s) as Hh. destruct (lines (String d s)) as [|x xs]; [constructor|]. constructor; [by apply Hh|done].
Qed.

(** ** Payloads *)

Definition join_data (buf payload : string) : string :=
  if bool_decide (buf = "") then trim_start payload else buf +:+ String LF (trim_start payload).
Fixpoint payloads (buf : string) (ls : list string) : list string :=
  match ls with
  | [] => if bool_decide (buf = "") then [] else [buf]
  | l :: ls =>
      match strip_prefix "data:" l with
      | Some p => payloads (join_data buf p) ls
      | None => if bool_decide (l = "")
                then if bool_decide (buf = "") then payloads "" ls else buf :: payloads "" ls
                else payloads buf ls
      end
  end.
(** No [data:] line is empty. *)
Definition full_data (ls : list string) : Prop := Forall (fun l => forall p, strip_prefix "data:" l = Some p -> trim_start p <> "") ls.
Definition text_or_none (buf : string) : option string := if bool_decide (buf = "") then None else Some buf.

Lemma join_add buf l p : strip_prefix "data:" l = Some p -> trim_start p <> "" -> text_or_none (join_data buf p) = add_data (text_or_none buf) l.
Proof.
  intros Hp Hne. unfold add_data, text_or_none, join_data. rewrite Hp. destruct (bool_decide (buf = "")) eqn:E.
  - by rewrite bool_decide_false.
  - rewrite bool_decide_false; [done|]. intros He. by destruct buf.
Qed.
(** Up to the next blank line the payloads are one, what the block reader extracts. *)
Lemma payloads_block buf ls rest : full_data ls -> Forall (fun l => l <> "") ls ->
  payloads buf (ls ++ "" :: rest) =
    match foldl add_data (text_or_none buf) ls with Some p => p :: payloads "" rest | None => payloads "" rest end.
Proof.
  revert buf. induction ls as [|l ls IH]; intros buf Hf Hn.
  - simpl. unfold text_or_none. by case_bool_decide.
  - apply Forall_cons in Hf as [Hl Hf]. apply Forall_cons in Hn as [Hb Hn]. cbn [payloads app foldl]. destruct (strip_prefix "data:" l) as [p|] eqn:Ep.
    + rewrite IH by done. by rewrite (join_add buf l p) by auto.
    + rewrite bool_decide_false by done. rewrite IH by done. assert (Ha : add_data (text_or_none buf) l = text_or_none buf) by (unfold add_data; by rewrite Ep). by rewrite Ha.
Qed.
Lemma payloads_end buf ls : full_data ls -> Forall (fun l => l <> "") ls ->
  payloads buf ls = match foldl add_data (text_or_none buf) ls with Some p => [p] | None => [] end.
Proof.
  revert buf. induction ls as [|l ls IH]; intros buf Hf Hn.
  - simpl. unfold text_or_none. by case_bool_decide.
  - apply Forall_cons in Hf as [Hl Hf]. apply Forall_cons in Hn as [Hb Hn]. cbn [payloads app foldl]. destruct (strip_prefix "data:" l) as [p|] eqn:Ep.
    + rewrite IH by done. by rewrite (join_add buf l p) by auto.
    + rewrite bool_decide_false by done. rewrite IH by done. assert (Ha : add_data (text_or_none buf) l = text_or_none buf) by (unfold add_data; by rewrite Ep). by rewrite Ha.
Qed.
(** A blank line before any data is nothing. *)
Lemma payloads_first_blank ls : payloads "" ("" :: ls) = payloads "" ls.
Proof. done. Qed.
Lemma add_first_blank ls : foldl add_data None ("" :: ls) = foldl add_data None ls.
Proof. done. Qed.

Lemma extract_nonempty ls out p : full_data ls -> out <> Some "" -> foldl add_data out ls = Some p -> p <> "".
Proof.
  revert out. induction ls as [|l ls IH]; intros out Hf Ho; simpl; [naive_solver|]. apply Forall_cons in Hf as [Hl Hf].
  apply IH; [done|]. unfold add_data. destruct (strip_prefix "data:" l) as [q|] eqn:Eq; [|done]. specialize (Hl _ eq_refl).
  destruct out as [s|]; [by destruct s|]. congruence.
Qed.

Lemma lines_cons c s : c <> LF -> c <> CR ->
  lines (String c s) = match lines s with [] => [String c ""] | l :: ls => String c l :: ls end.
Proof.
  intros Hl Hc. unfold lines. simpl. rewrite decide_False by done.
  destruct (split_inclusive s) as [|l ls]; simpl; by rewrite without_end_cons.
Qed.
Lemma lines_ended s : no_cr s -> lines (s +:+ blank) = lines s \/ lines (s +:+ blank) = lines s ++ [""].
Proof.
  induction s as [|c s IH]; [by right|]. intros [Hc Hs]%no_cr_cons. change (String c s +:+ blank) with (String c (s +:+ blank)).
  destruct (decide (c = LF)) as [->|Hl].
  - rewrite !lines_blank. destruct (IH Hs) as [-> | ->]; [by left|by right].
  - rewrite !lines_cons by done. destruct (IH Hs) as [-> | ->]; [by left|]. destruct (lines s); [by left|by right].
Qed.
Lemma add_lines_ended out s : no_cr s -> foldl add_data out (lines (s +:+ blank)) = foldl add_data out (lines s).
Proof. intros Hs. destruct (lines_ended s Hs) as [-> | ->]; [done|]. by rewrite foldl_app. Qed.

Lemma trimmed s : no_cr s -> no_blank_line s -> s = trim_line_ends s \/ s = trim_line_ends s +:+ blank.
Proof.
  induction s as [|c s IH]; [by left|]. intros [Hc Hcr]%no_cr_cons Hb. unfold no_blank_line in *. rewrite str_find_cons in Hb.
  destruct (strip_prefix (String LF blank) (String c s)) as [t|] eqn:Ep; [done|].
  assert (Hs : str_find (String LF blank) s = None) by (by destruct (str_find (String LF blank) s)).
  specialize (IH Hcr Hs). simpl. destruct (trim_line_ends s) as [|d t] eqn:Et.
  - case_decide as Hd.
    + destruct Hd as [-> | ->]; [|done]. right. destruct IH as [-> | ->]; [done|]. exfalso.
      assert (strip_prefix (String LF blank) (String LF ("" +:+ blank)) = Some "") by (by apply strip_prefix_Some). congruence.
    + destruct IH as [-> | ->]; [by left|by right].
  - destruct IH as [-> | ->]; [by left|by right].
Qed.
Lemma add_trimmed s : no_cr s -> no_blank_line s -> foldl add_data None (lines (trim_line_ends s)) = foldl add_data None (lines s).
Proof.
  intros Hc Hb. destruct (trimmed s Hc Hb) as [He|He]; [by rewrite <- He|]. rewrite He at 2. rewrite add_lines_ended; [done|].
  rewrite He in Hc. by apply no_cr_app in Hc as [? _].
Qed.

(** The end of a block, in a text without carriage returns. *)
Lemma term_block s e : no_cr s -> term s = Some e ->
  exists b rest, s = b +:+ String LF (String LF rest) /\ e = (String.length b + 2)%nat /\ no_blank_line (b +:+ blank).
Proof.
  intros Hc. unfold term. assert (Hcr : str_find (String CR (String LF (String CR blank))) s = None).
  { unfold str_find. destruct (split_str _ s) as [[x y]|] eqn:E; [|done]. apply split_str_app in E. rewrite E in Hc. by apply no_cr_app in Hc as [_ Hc]. }
  rewrite Hcr. destruct (str_find (String LF blank) s) as [i|] eqn:Ei; simpl; [|done]. intros [= <-].
  unfold str_find in Ei. destruct (split_str (String LF blank) s) as [[b rest]|] eqn:E; [|done]. injection Ei as <-.
  pose proof (split_str_app _ _ _ _ E) as Hs. exists b, rest. split_and!; [done..|]. unfold no_blank_line.
  destruct (str_find (String LF blank) (b +:+ blank)) as [j|] eqn:Ej; [|done]. exfalso.
  pose proof (str_find_le _ _ _ Ej) as Hle. rewrite str_length_app in Hle. simpl in Hle.
  pose proof (str_find_app _ _ (String LF rest) _ Ej) as Hf. rewrite str_app_assoc in Hf. change (blank +:+ String LF rest) with (String LF blank +:+ rest) in Hf. rewrite <- Hs in Hf.
  unfold str_find in Hf. rewrite E in Hf. injection Hf as Hf. simpl in Hf. lia.
Qed.
Lemma term_none s : term s = None -> no_blank_line s.
Proof. unfold term, no_blank_line. by destruct (str_find (String LF blank) s), (str_find (String CR (String LF (String CR blank))) s). Qed.

Lemma full_data_app ls ls' : full_data (ls ++ ls') <-> full_data ls /\ full_data ls'.
Proof. apply Forall_app. Qed.

(** The payloads up to a blank line, and after it. *)
Lemma payloads_lines b rest : no_cr b -> no_blank_line (b +:+ blank) -> full_data (lines (b +:+ blank)) ->
  payloads "" (lines (b +:+ String LF (String LF rest))) =
    match extract_sse_data_payload (b +:+ String LF blank) with Some p => p :: payloads "" (lines rest) | None => payloads "" (lines rest) end.
Proof.
  intros Hc Hb Hf. unfold extract_sse_data_payload. rewrite (lines_app b (String LF rest)), (lines_app b blank), foldl_app, lines_blank. simpl.
  assert (Ht : Forall (fun l => l <> "") (tail (lines (b +:+ blank)))) by (apply tail_nonblank; [|done]; by apply no_cr_app).
  destruct (lines (b +:+ blank)) as [|l ls]; [done|]. simpl in Ht. destruct (decide (l = "")) as [->|Hl].
  - apply Forall_cons in Hf as [_ Hf]. simpl. by rewrite payloads_block.
  - rewrite payloads_block by (done || by constructor). done.
Qed.
Lemma payloads_last s : no_cr s -> no_blank_line s -> full_data (lines s) ->
  payloads "" (lines s) = match extract_sse_data_payload (trim_line_ends s) with Some p => [p] | None => [] end.
Proof.
  intros Hc Hb Hf. unfold extract_sse_data_payload. rewrite add_trimmed by done. pose proof (tail_nonblank s Hc Hb) as Ht.
  destruct (lines s) as [|l ls]; [done|]. simpl in Ht. destruct (decide (l = "")) as [->|Hl].
  - apply Forall_cons in Hf as [_ Hf]. simpl. by rewrite payloads_end.
  - by rewrite payloads_end by (done || by constructor).
Qed.
Lemma extract_block_nonempty ls0 s p : full_data ls0 -> lines s = ls0 -> extract_sse_data_payload s = Some p -> p <> "".
Proof. intros Hf <-. unfold extract_sse_data_payload. by apply extract_nonempty. Qed.

(** ** What is sent *)

Section Sent.
Context {V : Type} `{JsonValue V, EqDecision V}.
Context (parse_json : string -> option V) (json_string : string -> V) (truncated_events : nat -> V) (busy : string).
Implicit Types (st : pump V) (admitted : nat -> bool).
Abbreviation send := (send_block parse_json json_string).
Abbreviation parsed := (parse_event parse_json json_string).

Definition sends (ps : list string) st : pump V :=
  {| pu_buf := pu_buf st; pu_events := pu_events st ++ (parsed <$> ps); pu_sent := pu_sent st ++ ps; pu_done := pu_done st |}.
Definition finish st : pump V :=
  let trailing := trim_line_ends (pu_buf st) in if bool_decide (trailing = "") then st else send trailing st.

Lemma sends_none st : sends [] st = st.
Proof. destruct st. unfold sends. simpl. by rewrite !app_nil_r. Qed.
Lemma sends_app ps qs st : sends qs (sends ps st) = sends (ps ++ qs) st.
Proof. unfold sends. simpl. by rewrite fmap_app, !app_assoc. Qed.
Lemma sends_with_buf ps buf st : sends ps (with_buf buf st) = with_buf buf (sends ps st).
Proof. done. Qed.
Lemma send_block_sends block st : (forall p, extract_sse_data_payload block = Some p -> p <> "") ->
  send block st = sends (match extract_sse_data_payload block with Some p => [p] | None => [] end) st.
Proof.
  intros Hn. unfold send_block. destruct (extract_sse_data_payload block) as [p|]; [|by rewrite sends_none].
  rewrite bool_decide_false by auto. done.
Qed.

Lemma blank_full ls : full_data ("" :: ls) <-> full_data ls.
Proof. unfold full_data. rewrite Forall_cons. split; [by intros [_ ?]|]. intros ?. split; [|done]. intros p Hp. by apply strip_prefix_Some in Hp. Qed.
Lemma full_lines b rest : full_data (lines (b +:+ String LF (String LF rest))) -> full_data (lines (b +:+ blank)) /\ full_data (lines rest).
Proof. rewrite lines_app, lines_blank, full_data_app, blank_full. done. Qed.

Lemma finish_text st text : no_cr text -> term text = None -> full_data (lines text) ->
  exists b, finish (with_buf text st) = with_buf b (sends (payloads "" (lines text)) st).
Proof.
  intros Hc Ht Hf. apply term_none in Ht. exists text. rewrite (payloads_last text Hc Ht Hf), <- sends_with_buf. unfold finish. simpl.
  case_bool_decide as He; [rewrite He; simpl; by rewrite sends_none|]. apply send_block_sends. intros p Hp.
  unfold extract_sse_data_payload in Hp. rewrite (add_trimmed text Hc Ht) in Hp. by apply extract_nonempty in Hp.
Qed.

(** Draining a text and flushing what is left sends the payloads of its lines. *)
Lemma drained_payloads text st : no_cr text -> full_data (lines text) ->
  exists b, finish (drained parse_json json_string (with_buf text st)) = with_buf b (sends (payloads "" (lines text)) st).
Proof.
  remember (String.length text) as n eqn:En. revert text st En. induction (lt_wf n) as [n _ IH]. intros text st -> Hc Hf.
  destruct (term text) as [e|] eqn:E; [|rewrite drained_stop by done; by apply finish_text].
  pose proof (term_bounds _ _ E) as He. rewrite (drained_step _ _ (with_buf text st) e) by done. simpl. rewrite with_buf_twice.
  destruct (term_block text e Hc E) as (b & rest & -> & -> & Hb).
  pose proof Hf as [Hfb Hfr]%full_lines. pose proof Hc as [Hcb Hcr]%no_cr_app.
  assert (Hsplit : b +:+ String LF (String LF rest) = (b +:+ String LF blank) +:+ rest) by (by rewrite str_app_assoc).
  assert (Hlen : (String.length b + 2)%nat = String.length (b +:+ String LF blank)) by (by rewrite str_length_app).
  assert (Htake : str_take (String.length b + 2) (b +:+ String LF (String LF rest)) = b +:+ String LF blank) by (by rewrite Hlen, Hsplit, str_take_app).
  assert (Hdrop : str_drop (String.length b + 2) (b +:+ String LF (String LF rest)) = rest) by (by rewrite Hlen, Hsplit, str_drop_app).
  rewrite (payloads_lines b rest Hcb Hb Hfb), Htake, Hdrop.
  rewrite send_with_buf, send_block_sends.
  - destruct (IH (String.length rest) ltac:(rewrite str_length_app; simpl; lia) rest (sends (match extract_sse_data_payload (b +:+ String LF blank) with Some p => [p] | None => [] end) st) eq_refl) as [b' Hb'];
      [by apply no_cr_cons in Hcr as [_ [_ Hcr]%no_cr_cons]|done|]. exists b'. rewrite Hb', sends_app.
    by destruct (extract_sse_data_payload _).
  - intros p. apply extract_block_nonempty with (ls0 := lines (b +:+ String LF blank)); [|done].
    rewrite (lines_app b blank), full_data_app. split; [done|]. apply blank_full. constructor.
Qed.

(** ** The whole body *)

Definition record (st : sse_read V) (p : string) : sse_read V :=
  flush parse_json json_string {| sr_events := sr_events st; sr_truncated := sr_truncated st; sr_buf := p |}.
Definition with_sr (buf : string) (st : sse_read V) : sse_read V :=
  {| sr_events := sr_events st; sr_truncated := sr_truncated st; sr_buf := buf |}.
Lemma flush_buf (st : sse_read V) : sr_buf (flush parse_json json_string st) = "".
Proof. unfold flush. case_bool_decide; [done|]. by destruct (_ || _). Qed.
Lemma join_nonempty buf p : trim_start p <> "" -> join_data buf p <> "".
Proof. intros Hp. unfold join_data. case_bool_decide; [done|]. by destruct buf. Qed.
Lemma read_lines_payloads ls (st : sse_read V) : full_data ls ->
  flush parse_json json_string (foldl (read_line parse_json json_string) st ls) = foldl record (with_sr "" st) (payloads (sr_buf st) ls).
Proof.
  revert st. induction ls as [|l ls IH]; intros st Hf; cbn [foldl payloads].
  - case_bool_decide as Hb; simpl.
    + unfold flush. rewrite bool_decide_true by done. destruct st. simpl in *. by subst.
    + by destruct st.
  - apply Forall_cons in Hf as [_ Hf]. rewrite IH by done. unfold read_line. destruct (strip_prefix "data:" l) as [p|]; [done|].
    case_bool_decide as Hl; [|done]. rewrite flush_buf. case_bool_decide as Hb.
    + unfold flush. by rewrite bool_decide_true by done.
    + cbn [foldl]. f_equal. unfold record, with_sr. destruct st as [ev tr buf]. simpl in *.
      pose proof (flush_buf {| sr_events := ev; sr_truncated := tr; sr_buf := buf |}) as Hfb. destruct (flush _ _ _). simpl in *. by subst.
Qed.
Lemma read_body_payloads text : full_data (lines text) ->
  read_body parse_json json_string text = foldl record {| sr_events := []; sr_truncated := 0; sr_buf := "" |} (payloads "" (lines text)).
Proof. intros Hf. unfold read_body. by rewrite read_lines_payloads. Qed.
Lemma payloads_nonempty buf ls : full_data ls -> Forall (fun p => p <> "") (payloads buf ls).
Proof.
  revert buf. induction ls as [|l ls IH]; intros buf Hf; cbn [payloads].
  - case_bool_decide; by repeat constructor.
  - apply Forall_cons in Hf as [_ Hf]. destruct (strip_prefix "data:" l); [by apply IH|]. case_bool_decide; [|by apply IH].
    case_bool_decide; [by apply IH|]. constructor; [done|by apply IH].
Qed.
End Sent.

(** ** The answer among the events *)

Lemma head_filter_both {A} (P Q : A -> bool) (l l' : list A) : (forall x, P x = true -> Q x = true) ->
  filter (fun x => Q x = true) l = filter (fun x => Q x = true) l' ->
  filter (fun x => P x = true) l = filter (fun x => P x = true) l'.
Proof.
  intros HPQ Hl. assert (Hf : forall k : list A, filter (fun x => P x = true) k = filter (fun x => P x = true) (filter (fun x => Q x = true) k)).
  { intros k. rewrite list_filter_filter. apply list_filter_iff. intros x. naive_solver. }
  by rewrite (Hf l), (Hf l'), Hl.
Qed.

Section Answer.
Context {V : Type} `{JsonValue V, EqDecision V} {R : Type}.
Context (parse_json : string -> option V) (json_string : string -> V) (truncated_events : nat -> V) (busy : string).
Context (decode : V -> result string R) (to_text : list V -> string).
Abbreviation parsed := (parse_event parse_json json_string).
Definition shaped_events (events : list V) : list V := filter (fun e => response_shaped e = true) events.

Lemma last_such_shaped (P : V -> bool) events events' : (forall e, P e = true -> response_shaped e = true) ->
  shaped_events events = shaped_events events' -> last_such P events = last_such P events'.
Proof.
  intros HP He. unfold last_such. rewrite !filter_reverse. f_equal. f_equal. eapply head_filter_both; [exact HP|]. exact He.
Qed.
Lemma answers_shaped rid e : answers rid e = true -> response_shaped e = true.
Proof. unfold answers. by intros [_ ?]%andb_true_iff. Qed.
Lemma response_event_shaped rid events events' : shaped_events events = shaped_events events' ->
  response_event events rid = response_event events' rid.
Proof.
  intros He. unfold response_event. rewrite (last_such_shaped response_shaped events events') by done.
  destruct rid as [i|]; [|done]. by rewrite (last_such_shaped (answers i) events events') by (done || apply answers_shaped).
Qed.
Lemma last_such_ext (P Q : V -> bool) events : (forall e, P e = Q e) -> last_such P events = last_such Q events.
Proof. intros HPQ. unfold last_such. f_equal. apply list_filter_iff. intros e. by rewrite HPQ. Qed.
(** The streaming picker chooses the event of the whole-body reader. *)
Lemma pick_response rid events :
  (match pick rid true events with Some e => Some e | None => pick rid false events end) = response_event events rid.
Proof.
  assert (Hf : pick rid false events = last_such response_shaped events) by (apply last_such_ext; intros e; by destruct (response_shaped e)).
  unfold response_event. rewrite Hf. destruct rid as [i|].
  - assert (Ht : pick (Some i) true events = last_such (answers i) events).
    { apply last_such_ext. intros e. unfold answers. destruct (response_shaped e); simpl; [by rewrite andb_true_r|by rewrite andb_false_r]. }
    by rewrite Ht.
  - assert (Ht : pick None true events = None) by (unfold pick, last_such; induction (reverse events) as [|e l IH]; [done|]; simpl; rewrite filter_cons_False; [done|]; by destruct (response_shaped e)).
    by rewrite Ht.
Qed.

Lemma record_shaped ps st : Forall (fun p => p <> "") ps ->
  shaped_events (sr_events (foldl (record parse_json json_string) st ps)) = shaped_events (sr_events st) ++ shaped_events (parsed <$> ps).
Proof.
  revert st. induction ps as [|p ps IH]; intros st Hn; cbn [foldl fmap list_fmap]; [by rewrite app_nil_r|].
  apply Forall_cons in Hn as [Hp Hn]. rewrite IH by done. rewrite <- (app_nil_l (parsed p :: _)). 
  change ([] ++ parsed p :: (parsed <$> ps)) with ([parsed p] ++ (parsed <$> ps)). unfold shaped_events. rewrite filter_app, app_assoc. f_equal.
  unfold record, flush. simpl. rewrite bool_decide_false by done. destruct (response_shaped (parsed p)) eqn:Es; simpl.
  - by rewrite filter_app.
  - assert (Hnil : filter (fun e => response_shaped e = true) [parsed p] = []) by (rewrite filter_cons_False; [done|congruence]).
    rewrite Hnil, app_nil_r. destruct (_ <? _)%nat; simpl; [|done]. by rewrite filter_app, Hnil, app_nil_r.
Qed.
Lemma record_all ps st : Forall (fun p => p <> "") ps -> (length (sr_events st) + length ps <= MAX_AUDIT_EVENTS)%nat ->
  let st' := foldl (record parse_json json_string) st ps in
  sr_events st' = sr_events st ++ (parsed <$> ps) /\ sr_truncated st' = sr_truncated st.
Proof.
  cbn zeta. revert st. induction ps as [|p ps IH]; intros st Hn Hlen; cbn [foldl fmap list_fmap]; [by rewrite app_nil_r|].
  apply Forall_cons in Hn as [Hp Hn]. cbn [length] in Hlen.
  assert (Hrec : record parse_json json_string st p = {| sr_events := sr_events st ++ [parsed p]; sr_truncated := sr_truncated st; sr_buf := "" |}).
  { unfold record, flush. simpl. rewrite bool_decide_false by done. destruct (_ || _) eqn:Eo; [done|]. apply orb_false_iff in Eo as [_ Eo].
    apply Nat.ltb_ge in Eo. lia. }
  destruct (IH (record parse_json json_string st p) Hn) as [He Ht]; rewrite Hrec in *; simpl in *.
  - rewrite length_app. simpl. lia.
  - by rewrite He, <- app_assoc.
Qed.
Lemma audit_shaped (st : sse_read V) : (forall n, response_shaped (truncated_events n) = false) ->
  shaped_events (audit_events truncated_events st) = shaped_events (sr_events st).
Proof.
  intros Hn. unfold audit_events. destruct (_ <? _)%nat; [|done]. unfold shaped_events. rewrite filter_app, filter_cons_False; [by rewrite app_nil_r|].
  by rewrite Hn.
Qed.
End Answer.

(** ** The two readers *)

(** No character is cut at the end of the chunk. *)
Definition whole (c : string) : Prop := forall s, from_utf8_lossy (c +:+ s) = from_utf8_lossy c +:+ from_utf8_lossy s.
Lemma whole_text chunks : Forall whole chunks -> from_utf8_lossy (foldr (fun c s => c +:+ s) EmptyString chunks) = text_of chunks.
Proof. induction 1 as [|c cs Hc _ IH]; [done|]. simpl. by rewrite Hc, IH. Qed.
Lemma ascii_lossy c s : utf8_lead c = Some (0, 0, 0)%nat -> from_utf8_lossy (String c s) = String c (from_utf8_lossy s).
Proof. intros Hc. unfold from_utf8_lossy. simpl. by rewrite Hc. Qed.
Fixpoint ascii_only (s : string) : bool := match s with EmptyString => true | String c s => between 0 127 c && ascii_only s end.
Lemma ascii_whole c : ascii_only c = true -> whole c.
Proof.
  intros Hc s. induction c as [|x c IH]; [done|]. simpl in Hc. apply andb_true_iff in Hc as [Hx Hc].
  assert (Hl : utf8_lead x = Some (0, 0, 0)%nat) by (unfold utf8_lead; by rewrite Hx).
  change (String x c +:+ s) with (String x (c +:+ s)). rewrite !(ascii_lossy x) by done. by rewrite IH.
Qed.

Section Agree.
Context {V : Type} `{JsonValue V, EqDecision V} {R : Type}.
Context (parse_json : string -> option V) (json_string : string -> V) (truncated_events : nat -> V) (busy : string).
Context (decode : V -> result string R) (to_text : list V -> string).
Abbreviation build := (build_passthrough_body parse_json json_string busy).
Abbreviation fresh := {| pu_buf := ""; pu_events := []; pu_sent := []; pu_done := None |}.

Lemma build_text admitted chunks : chunks_fit parse_json json_string admitted fresh chunks ->
  build admitted (Ok <$> chunks) =
    ended Natural (finish parse_json json_string (drained parse_json json_string (with_buf (text_of chunks) (fresh : pump V)))).
Proof.
  intros Hfit. unfold build_passthrough_body. rewrite read_chunks_text; [|done|exact Hfit]. simpl.
  set (st := drained _ _ _). assert (Hd : pu_done (finish parse_json json_string st) = None).
  { unfold finish. case_bool_decide; rewrite ?send_done; subst st; by rewrite drained_field. }
  unfold finish in *. by rewrite Hd.
Qed.

Lemma build_unfit admitted chunks : ~ chunks_fit parse_json json_string admitted fresh chunks ->
  exists error_type message status, pu_done (build admitted (Ok <$> chunks)) = Some (UpstreamError error_type message status) /\ (status = 429 \/ status = 502).
Proof.
  intros Hfit. destruct (read_chunks_unfit parse_json json_string busy admitted chunks fresh Hfit) as (message & status & [error_type Hd] & Hs). exists error_type, message, status. split; [|done].
  unfold build_passthrough_body. set (st := read_chunks _ _ _ admitted _ _) in *. cbn zeta.
  assert (Hst : pu_done (if bool_decide (trim_line_ends (pu_buf st) = "") then st else send_block parse_json json_string (trim_line_ends (pu_buf st)) st) = pu_done st).
  { case_bool_decide; [done|]. apply send_done. }
  rewrite Hst, Hd. rewrite <- Hd. exact Hst.
Qed.

(** Splitting an MCP server's event stream into other chunks changes nothing: when no chunk is
    refused for lack of room, what the pump sends downstream, the events it records and how it
    ends depend on the decoded text only. *)
Theorem chunks_do_not_matter admitted admitted' chunks chunks' :
  chunks_fit parse_json json_string admitted fresh chunks -> chunks_fit parse_json json_string admitted' fresh chunks' -> text_of chunks = text_of chunks' ->
  build admitted (Ok <$> chunks) = build admitted' (Ok <$> chunks').
Proof. intros Hc Hc' Ht. by rewrite !build_text, Ht. Qed.

(** C33: The pass-through pump and the whole-body reader agree.  For an event stream without
    carriage returns and without empty [data:] lines, cut into chunks at character boundaries:
    if the memory admits every chunk and no event outgrows the buffer's 8 MiB, the pump ends
    naturally, sends one payload per event it records, and picks from the events the very answer
    [parse_sse_json_rpc] picks from the whole text (none where that reader reports an error);
    up to [MAX_AUDIT_EVENTS] events the transcripts for the audit are equal too.  Otherwise it
    ends with an error, a 429 or a 502. *)
Theorem stream_answers_as_buffered admitted chunks (request_id : option V) :
  Forall whole chunks ->
  let text := from_utf8_lossy (foldr (fun c s => c +:+ s) EmptyString chunks) in
  no_cr text -> full_data (lines text) -> (forall n, response_shaped (truncated_events n) = false) ->
  let st := build admitted (Ok <$> chunks) in
  let body := read_body parse_json json_string text in
  (chunks_fit parse_json json_string admitted fresh chunks ->
     pu_done st = Some Natural /\
     pu_events st = (parse_event parse_json json_string <$> pu_sent st) /\
     pick_response_envelope decode (pu_events st) request_id =
       match parse_sse_json_rpc parse_json json_string truncated_events decode to_text text request_id with Ok (r, _) => Some r | Err _ => None end /\
     ((length (pu_sent st) <= MAX_AUDIT_EVENTS)%nat -> audit_events truncated_events body = pu_events st)) /\
  (~ chunks_fit parse_json json_string admitted fresh chunks ->
     exists error_type message status, pu_done st = Some (UpstreamError error_type message status) /\ (status = 429 \/ status = 502)).
Proof.
  intros Hw. cbn zeta. rewrite (whole_text chunks Hw). intros Hc Hf Htr. split; [|apply build_unfit]. intros Hfit. rewrite (build_text admitted chunks Hfit).
  destruct (drained_payloads parse_json json_string (text_of chunks) fresh Hc Hf) as [b Hb]. rewrite Hb. clear Hb. simpl.
  pose proof (payloads_nonempty "" _ Hf) as Hn. set (ps := payloads "" (lines (text_of chunks))) in *.
  assert (Hev : shaped_events (audit_events truncated_events (read_body parse_json json_string (text_of chunks))) = shaped_events (parse_event parse_json json_string <$> ps)).
  { rewrite audit_shaped by done. rewrite read_body_payloads by done. by rewrite record_shaped. }
  split_and!; [done..| |].
  - unfold pick_response_envelope, parse_sse_json_rpc. rewrite pick_response. rewrite <- (response_event_shaped request_id _ _ Hev).
    destruct (response_event _ request_id) as [e|] eqn:Er.
    + rewrite bool_decide_false; [by destruct (decode e)|]. intros Hnil. rewrite Hnil in Er. by destruct request_id.
    + by case_bool_decide.
  - intros Hlen. rewrite read_body_payloads by done. fold ps. destruct (record_all parse_json json_string ps {| sr_events := []; sr_truncated := 0; sr_buf := "" |} Hn Hlen) as [He Ht].
    unfold audit_events. rewrite He, Ht. done.
Qed.
End Agree.

(** * The event streams on concrete bytes

    Instances of [McpSseSpec]'s theorems, and the streams on which the two readers differ. *)

Definition text_lines (ls : list string) : string := foldr (fun l s => l +:+ String LF s) EmptyString ls.
(** A progress notification and the answer to request 7. *)
Definition progress : json := JObj [("method", JStr "notifications/progress")].
Definition answer : json := JObj [("id", JNum 7); ("result", JStr "done")].
Definition parse_demo (s : string) : option json :=
  if bool_decide (s = "progress") then Some progress else if bool_decide (s = "answer") then Some answer else None.
Definition truncated_demo (n : nat) : json := JObj [("_truncated_events", JNum (Z.of_nat n))].
Definition decode_demo (v : json) : result string json := default (Err "no result") (Ok <$> json_get "result" v).
Definition body_demo : string := text_lines ["event: message"; "data: progress"; ""; "data: answer"; ""].
Definition cut_at (n : nat) (s : string) : list string := [str_take n s; str_drop n s].
Abbreviation pump_demo := (build_passthrough_body (V := json) parse_demo JStr "busy" (fun _ => true)).

Abbreviation fresh_demo := {| pu_buf := ""; pu_events := []; pu_sent := []; pu_done := None |}.
Lemma cut_fits n : n = 3%nat \/ n = 20%nat -> chunks_fit parse_demo JStr (fun _ => true) fresh_demo (cut_at n body_demo) /\ Forall whole (cut_at n body_demo).
Proof.
  intros Hn. split.
  - apply (bool_decide_unpack _). by destruct Hn as [-> | ->]; vm_compute.
  - assert (Ha : Forall (fun c => ascii_only c = true) (cut_at n body_demo)) by (destruct Hn as [-> | ->]; repeat constructor).
    eapply Forall_impl; [exact Ha|]. intros c Hc. by apply ascii_whole.
Qed.

Lemma stream_answers_as_buffered_witness :
  pick_response_envelope decode_demo (pu_events (pump_demo (Ok <$> cut_at 20 body_demo))) (Some (JNum 7)) = Some (JStr "done").
Proof.
  destruct (cut_fits 20) as [Hfit Hw]; [by right|].
  destruct (stream_answers_as_buffered parse_demo JStr truncated_demo "busy" decode_demo (fun _ => "") (fun _ => true) (cut_at 20 body_demo) (Some (JNum 7)) Hw)
    as [Hagree _].
  - reflexivity.
  - assert (Hl : lines (from_utf8_lossy (foldr (fun c s => c +:+ s) "" (cut_at 20 body_demo))) = ["event: message"; "data: progress"; ""; "data: answer"; ""]) by (vm_compute; reflexivity).
    rewrite Hl. repeat (constructor; [intros p Hstrip; vm_compute in Hstrip; first [discriminate | injection Hstrip as <-; discriminate]|]). constructor.
  - reflexivity.
  - destruct (Hagree Hfit) as (_ & _ & Hp & _). rewrite Hp. vm_compute. reflexivity.
Defined.

(** The same text in one chunk. *)
Lemma chunks_do_not_matter_demo : pump_demo (Ok <$> cut_at 20 body_demo) = pump_demo (Ok <$> cut_at 3 body_demo).
Proof.
  apply chunks_do_not_matter; [apply cut_fits; auto..|]. vm_compute. reflexivity.
Qed.

(** A character of two bytes cut by the end of a chunk becomes two U+FFFD: the client and the
    audit read another text than the upstream sent. *)
Definition e_acute : string := bytes_string [195; 169]%nat.
Example cut_character_is_lost :
  let text := "data: " +:+ e_acute +:+ String LF (String LF "") in
  pu_sent (pump_demo [Ok text]) = [e_acute] /\
  pu_sent (pump_demo (Ok <$> cut_at 7 text)) = [replacement +:+ replacement].
Proof. vm_compute. done. Qed.

(** An event the upstream did not finish is sent as if it had been. *)
Example broken_event_is_sent :
  let st := pump_demo [Ok "data: {res"; Err "connection reset"] in
  pu_sent st = ["{res"] /\ pu_done st = Some (UpstreamError "transport" "connection reset" 502).
Proof. vm_compute. done. Qed.

(** An empty [data:] line before another: the pump keeps its line feed, the whole-body reader
    drops it. *)
Example empty_data_line_differs :
  let text := text_lines ["data:"; "data: answer"; ""] in
  pu_sent (pump_demo [Ok text]) = [String LF "answer"] /\
  sr_events (read_body parse_demo JStr text) = [answer].
Proof. vm_compute. done. Qed.

(** The pump records every event, the whole-body reader 1024 notifications. *)
Example pump_records_all :
  let event := text_lines ["data: progress"; ""] in
  length (pu_events (pump_demo (replicate 1030 (Ok event)))) = 1030%nat /\
  length (audit_events truncated_demo (read_body parse_demo JStr (foldr (fun c s => c +:+ s) EmptyString (replicate 1030 event)))) = 1025%nat.
Proof. vm_compute. done. Qed.
