(* ===== verification/McpSessions.v ===== *)
(** * Sessions of MCP clients

    [crates/mcp-gateway/src/session.rs]: each pod's map of sessions, backed by Redis.  A
    session remembers which session every upstream server gave it. *)
From Stdlib Require Import Ascii.
From S2P Require Import Prelude Interfaces Effects Text ExpiringKeys.

Definition SESSION_PREFIX : string := "mcp_session:".
Definition DEFAULT_TTL_SECS : Z := 3600.
Definition MAX_UPSTREAM_SESSION_LEN : nat := 256.

(** [HashMap::insert] and [HashMap::get] on an association list. *)
Definition assoc_insert {K A} `{EqDecision K} (k : K) (x : A) (l : list (K * A)) : list (K * A) :=
  (k, x) :: filter (fun p => p.1 <> k) l.
Definition assoc_get {K A} `{EqDecision K} (k : K) (l : list (K * A)) : option A :=
  snd <$> (list_find (fun p => p.1 = k) l ≫= fun p => Some p.2).

Record McpSession {U : Type} := {
  ms_id : string; ms_user_id : U; ms_created_at : Z; ms_last_active : Z;
  ms_upstream_sessions : list (U * string);
}.
#[global] Arguments McpSession : clear implicits.

(** [u8::is_ascii_graphic]. *)
Definition is_ascii_graphic (c : ascii) : bool := in_range "!" "~" c.
Definition sane_upstream_session (s : string) : bool :=
  negb (bool_decide (s = "")) && (String.length s <=? MAX_UPSTREAM_SESSION_LEN)%nat &&
  str_all (fun c => is_ascii_graphic c || bool_decide (c = " "%char)) s.

(** The pods' maps, the sessions ever made with who made them, and Redis with its clock in
    milliseconds. *)
Record session_world {U St : Type} := {
  sw_local : nat -> gmap string (McpSession U);
  sw_issued : gmap string U;
  sw_redis : St;
  sw_clock : Z;
}.
#[global] Arguments session_world : clear implicits.

Section Sessions.
Context {U : Type} `{Uuid U} {St : Type} `{ExpiringKeys St}.
(** [serde_json] on sessions. *)
Context (to_json : McpSession U -> option string) (of_json : string -> option (McpSession U)).
Abbreviation W := (session_world U St).

(** A pod, its clock, whether Redis answers, the configured time to live, and what the other
    pods and requests do while this one waits. *)
Record session_env := {
  se_pod : nat; se_now : Z; se_up : bool; se_ttl : option Z; se_others : nat -> W -> W;
}.
Implicit Types (E : session_env) (w : W).

Definition set_local (pod : nat) (m : gmap string (McpSession U)) w : W :=
  {| sw_local := fun p => if decide (p = pod) then m else sw_local w p; sw_issued := sw_issued w;
     sw_redis := sw_redis w; sw_clock := sw_clock w |}.
Definition set_redis (s : St) w : W := 
  {| sw_local := sw_local w; sw_issued := sw_issued w; sw_redis := s; sw_clock := sw_clock w |}.
Definition await E (i : nat) : prog W unit := fun w => (se_others E i w, tt).

Definition redis_key (id : string) : string := SESSION_PREFIX +:+ id.
Definition ttl_secs E : Z := default DEFAULT_TTL_SECS (se_ttl E).

(** The write to Redis, ignored when it fails; Redis takes no time to live below one second. *)
Definition store E (id : string) (json : option string) : prog W unit := fun w =>
  (match json with
   | Some json => if se_up E && (0 <? ttl_secs E) then set_redis (xset (sw_clock w) (redis_key id) json (ttl_secs E) (sw_redis w)) w else w
   | None => w
   end, tt).

Definition issue (id : string) (user_id : U) : prog W unit := fun w =>
  ({| sw_local := sw_local w; sw_issued := <[id := user_id]> (sw_issued w); sw_redis := sw_redis w; sw_clock := sw_clock w |}, tt).
(** [id] is the new UUID's text. *)
Definition create_session E (id : string) (user_id : U) : prog W string :=
  let session := {| ms_id := id; ms_user_id := user_id; ms_created_at := se_now E; ms_last_active := se_now E; ms_upstream_sessions := [] |} in
  _ ← issue id user_id;
  _ ← await E 0;
  _ ← store E id (to_json session);
  _ ← await E 1;
  (fun w => (set_local (se_pod E) (<[id := session]> (sw_local w (se_pod E))) w, id)) : prog W string.

Definition get_session E (id : string) : prog W (option (McpSession U)) := fun w =>
  match sw_local w (se_pod E) !! id with
  | Some s => (w, Some s)
  | None =>
      let w := se_others E 0 w in
      let json := if se_up E then fst <$> peek (sw_clock w) (redis_key id) (sw_redis w) else None in
      match json ≫= of_json with
      | Some session =>
          let w := se_others E 1 w in
          (set_local (se_pod E) (<[id := session]> (sw_local w (se_pod E))) w, Some session)
      | None => (w, None)
      end
  end.

(** A change under the write lock, then the snapshot to Redis. *)
Definition change_session E (id : string) (f : McpSession U -> McpSession U) : prog W unit := fun w =>
  match sw_local w (se_pod E) !! id with
  | None => (w, tt)
  | Some session =>
      let session := f session in
      let w := set_local (se_pod E) (<[id := session]> (sw_local w (se_pod E))) w in
      store E id (to_json session) (se_others E 0 w)
  end.
Definition update_activity E (id : string) : prog W unit :=
  change_session E id (fun s =>
    {| ms_id := ms_id s; ms_user_id := ms_user_id s; ms_created_at := ms_created_at s; ms_last_active := se_now E;
       ms_upstream_sessions := ms_upstream_sessions s |}).
Definition set_upstream_session E (session_id : string) (server_id : U) (upstream_session_id : string) : prog W unit :=
  if negb (sane_upstream_session upstream_session_id) then mret tt
  else change_session E session_id (fun s =>
    {| ms_id := ms_id s; ms_user_id := ms_user_id s; ms_created_at := ms_created_at s; ms_last_active := ms_last_active s;
       ms_upstream_sessions := assoc_insert server_id upstream_session_id (ms_upstream_sessions s) |}).
Definition get_upstream_session E (session_id : string) (server_id : U) : prog W (option string) :=
  session ← get_session E session_id;
  mret (session ≫= fun s => assoc_get server_id (ms_upstream_sessions s)).

Definition remove_session E (id : string) : prog W (option (McpSession U)) := fun w =>
  let w := if se_up E then set_redis (xdel (sw_clock w) (redis_key id) (sw_redis w)) w else w in
  let w := se_others E 0 w in
  (set_local (se_pod E) (delete id (sw_local w (se_pod E))) w, sw_local w (se_pod E) !! id).

(** Under one write lock, which the other requests of the pod wait for. *)
Fixpoint remove_all E (i : nat) (ids : list string) w : W :=
  match ids with
  | [] => w
  | id :: ids =>
      let w := set_local (se_pod E) (delete id (sw_local w (se_pod E))) w in
      remove_all E (S i) ids (if se_up E then set_redis (xdel (sw_clock w) (redis_key id) (sw_redis w)) w else w)
  end.
Definition cleanup_expired E (max_age : Z) : prog W unit := fun w =>
  let cutoff := se_now E - max_age in
  (remove_all E 0 (filter (fun p => ms_last_active p.2 <= cutoff) (map_to_list (sw_local w (se_pod E)))).*1 w, tt).
End Sessions.
#[global] Arguments session_env : clear implicits.

(** * A session belongs to who made it

    Whatever the pods do with it, and whatever of it they keep after it is gone, every copy of a
    session names the user who made it and only upstream sessions fit for a header. *)

Section Owned.
Context {U : Type} `{Uuid U} {St : Type} `{ExpiringKeysLaws St}.
Context (to_json : McpSession U -> option string) (of_json : string -> option (McpSession U)).
Hypothesis json_round_trip : forall s json, to_json s = Some json -> of_json json = Some s.
Abbreviation W := (session_world U St).
Implicit Types (w : W) (E : session_env U St).

Definition sane_session (s : McpSession U) : Prop := Forall (fun p => sane_upstream_session p.2 = true) (ms_upstream_sessions s).
Definition session_ok w (id : string) (s : McpSession U) : Prop :=
  ms_id s = id /\ sw_issued w !! id = Some (ms_user_id s) /\ sane_session s.
Record sessions_wf w : Prop := {
  sf_local : forall pod id s, sw_local w pod !! id = Some s -> session_ok w id s;
  sf_redis : forall t id json d s, sw_clock w <= t -> peek t (redis_key id) (sw_redis w) = Some (json, d) ->
    of_json json = Some s -> session_ok w id s;
}.
(** Sessions are never forgotten to have been made, and time passes. *)
Definition later w w' : Prop := sw_issued w ⊆ sw_issued w' /\ sw_clock w <= sw_clock w'.
(** What the others may do. *)
Definition others_fair E : Prop := forall i w, sessions_wf w -> sessions_wf (se_others E i w) /\ later w (se_others E i w).
Definition still_wf w w' : Prop := sessions_wf w' /\ later w w'.

Lemma later_refl w : later w w.
Proof. split; [done|lia]. Qed.
Lemma later_trans w1 w2 w3 : later w1 w2 -> later w2 w3 -> later w1 w3.
Proof. intros [? ?] [? ?]. split; [by etransitivity|lia]. Qed.
Lemma kept_trans w1 w2 w3 : later w1 w2 -> still_wf w2 w3 -> still_wf w1 w3.
Proof. intros ? [? ?]. split; [done|by eapply later_trans]. Qed.
Lemma later_same w w' : sw_issued w' = sw_issued w -> sw_clock w' = sw_clock w -> later w w'.
Proof. intros Hi Hc. unfold later. rewrite Hi, Hc. split; [done|lia]. Qed.
Lemma session_ok_later w w' id s : later w w' -> session_ok w id s -> session_ok w' id s.
Proof. intros [Hi _] (? & ? & ?). split_and!; [done| |done]. by eapply lookup_weaken. Qed.

Lemma set_local_kept pod m w : sessions_wf w -> (forall id s, m !! id = Some s -> session_ok w id s) -> still_wf w (set_local pod m w).
Proof.
  intros [Hl Hr] Hm. split; [|by apply later_same]. constructor; simpl; [|exact Hr].
  intros p id s. case_decide; [by apply Hm|by apply Hl].
Qed.
Lemma insert_local_kept pod id s w : sessions_wf w -> session_ok w id s -> still_wf w (set_local pod (<[id := s]> (sw_local w pod)) w).
Proof.
  intros Hw Hs. apply set_local_kept; [done|]. intros id' s'. rewrite lookup_insert_Some. intros [[<- <-]|[_ Hl]]; [done|].
  by eapply sf_local.
Qed.
Lemma delete_local_kept pod id w : sessions_wf w -> still_wf w (set_local pod (delete id (sw_local w pod)) w).
Proof. intros Hw. apply set_local_kept; [done|]. intros id' s'. rewrite lookup_delete_Some. intros [_ Hl]. by eapply sf_local. Qed.
Lemma redis_key_inj id id' : redis_key id = redis_key id' -> id = id'.
Proof. apply str_app_cancel_l. Qed.

Lemma store_kept E id s w : sessions_wf w -> session_ok w id s -> still_wf w (store E id (to_json s) w).1.
Proof.
  intros Hw Hs. unfold store. simpl. destruct (to_json s) as [json|] eqn:Ej; [|by split; [|apply later_refl]].
  destruct (se_up E && (0 <? ttl_secs E)) eqn:Ett; [|by split; [|apply later_refl]]. apply andb_true_iff in Ett as [_ Ett]. apply Z.ltb_lt in Ett.
  split; [|by apply later_same]. destruct Hw as [Hl Hr]. constructor; [exact Hl|]. intros t id' json' d s' Ht Hp Hof. simpl in Ht, Hp.
  rewrite peek_xset in Hp by done. case_decide as Hk.
  - apply redis_key_inj in Hk as ->. apply keep_Some in Hp as [Hp _]. simplify_eq. rewrite (json_round_trip _ _ Ej) in Hof. by simplify_eq.
  - by eapply Hr.
Qed.
Lemma del_kept id w : sessions_wf w -> still_wf w (set_redis (xdel (sw_clock w) (redis_key id) (sw_redis w)) w).
Proof.
  intros [Hl Hr]. split; [|by apply later_same]. constructor; [exact Hl|]. intros t id' json' d s' Ht Hp Hof. simpl in Ht, Hp.
  rewrite peek_xdel in Hp by done. case_decide; [done|]. by eapply Hr.
Qed.
Lemma del_if_up_kept E id w : sessions_wf w -> still_wf w (if se_up E then set_redis (xdel (sw_clock w) (redis_key id) (sw_redis w)) w else w).
Proof. intros Hw. destruct (se_up E); [by apply del_kept|]. by split; [|apply later_refl]. Qed.

Section Calls.
Context E (Hfair : others_fair E).

Lemma create_kept id user w : sessions_wf w -> sw_issued w !! id = None -> still_wf w (create_session to_json E id user w).1.
Proof.
  intros Hw Hnew. set (s := {| ms_id := id; ms_user_id := user; ms_created_at := se_now E; ms_last_active := se_now E; ms_upstream_sessions := [] |}).
  set (w0 := {| sw_local := sw_local w; sw_issued := <[id := user]> (sw_issued w); sw_redis := sw_redis w; sw_clock := sw_clock w |}).
  assert (L0 : later w w0) by (split; [by apply insert_subseteq|simpl; lia]).
  assert (Hw0 : sessions_wf w0).
  { destruct Hw as [Hl Hr]. constructor; intros; eapply session_ok_later; [exact L0|by eapply Hl|exact L0|by eapply Hr]. }
  assert (Hs0 : session_ok w0 id s) by (split_and!; [done|simpl; apply lookup_insert_eq|constructor]).
  destruct (Hfair 0%nat w0 Hw0) as [Hw1 L1].
  destruct (store_kept E id s (se_others E 0 w0) Hw1 ltac:(by eapply session_ok_later)) as [Hw2 L2].
  destruct (Hfair 1%nat _ Hw2) as [Hw3 L3].
  assert (L03 : later w0 (se_others E 1 (store E id (to_json s) (se_others E 0 w0)).1)) by (eapply later_trans; [exact L1|]; by eapply later_trans).
  eapply kept_trans; [eapply later_trans; [exact L0|exact L03]|]. apply insert_local_kept; [done|]. by eapply session_ok_later.
Qed.

Lemma get_kept id w : sessions_wf w ->
  still_wf w (get_session of_json E id w).1 /\ forall s, (get_session of_json E id w).2 = Some s -> session_ok (get_session of_json E id w).1 id s.
Proof.
  intros Hw. unfold get_session. destruct (sw_local w (se_pod E) !! id) as [s0|] eqn:El.
  { split; [by split; [|apply later_refl]|]. simpl. intros s [= <-]. by eapply sf_local. }
  destruct (Hfair 0%nat w Hw) as [Hw1 L1]. set (w1 := se_others E 0 w) in *.
  destruct ((if se_up E then _ else None) ≫= of_json) as [s1|] eqn:Ej; [|by split].
  assert (Hs1 : session_ok w1 id s1).
  { destruct (se_up E); [|done]. destruct (peek (sw_clock w1) (redis_key id) (sw_redis w1)) as [[json d]|] eqn:Ep; [|done].
    apply (sf_redis w1 Hw1 (sw_clock w1) id json d s1); [lia|done|exact Ej]. }
  destruct (Hfair 1%nat w1 Hw1) as [Hw2 L2]. assert (Hs2 : session_ok (se_others E 1 w1) id s1) by by eapply session_ok_later.
  split.
  - eapply kept_trans; [eapply later_trans; [exact L1|exact L2]|]. by apply insert_local_kept.
  - simpl. intros s [= <-]. exact Hs2.
Qed.

Lemma change_kept id f w : sessions_wf w ->
  (forall s, session_ok w id s -> session_ok w id (f s)) -> still_wf w (change_session to_json E id f w).1.
Proof.
  intros Hw Hf. unfold change_session. destruct (sw_local w (se_pod E) !! id) as [s|] eqn:El; [|by split; [|apply later_refl]].
  assert (Hs : session_ok w id (f s)) by (apply Hf; by eapply sf_local).
  destruct (insert_local_kept (se_pod E) id (f s) w Hw Hs) as [Hw1 L1]. destruct (Hfair 0%nat _ Hw1) as [Hw2 L2].
  eapply kept_trans; [eapply later_trans; [exact L1|exact L2]|]. apply store_kept; [done|].
  eapply session_ok_later; [exact L2|]. by eapply session_ok_later.
Qed.

Lemma remove_kept id w : sessions_wf w -> still_wf w (remove_session E id w).1.
Proof.
  intros Hw. unfold remove_session. destruct (del_if_up_kept E id w Hw) as [Hw1 L1]. destruct (Hfair 0%nat _ Hw1) as [Hw2 L2].
  eapply kept_trans; [eapply later_trans; [exact L1|exact L2]|]. simpl. by apply delete_local_kept.
Qed.
Lemma remove_all_kept ids i w : sessions_wf w -> still_wf w (remove_all E i ids w).
Proof.
  revert i w. induction ids as [|id ids IH]; intros i w Hw; [by split; [|apply later_refl]|]. simpl.
  destruct (delete_local_kept (se_pod E) id w Hw) as [Hw1 L1]. destruct (del_if_up_kept E id _ Hw1) as [Hw2 L2].
  eapply kept_trans; [eapply later_trans; [exact L1|exact L2]|]. apply IH, Hw2.
Qed.
End Calls.

Inductive session_call :=
  | CallCreate (id : string) (user : U) | CallGet (id : string) | CallTouch (id : string)
  | CallUpstream (id : string) (server : U) (upstream : string) | CallRemove (id : string) | CallCleanup (max_age : Z).
Definition run_session_call E (c : session_call) w : W :=
  match c with
  | CallCreate id user => (create_session to_json E id user w).1
  | CallGet id => (get_session of_json E id w).1
  | CallTouch id => (update_activity to_json E id w).1
  | CallUpstream id server upstream => (set_upstream_session to_json E id server upstream w).1
  | CallRemove id => (remove_session E id w).1
  | CallCleanup max_age => (cleanup_expired E max_age w).1
  end.
(** A new session's id was never used. *)
Definition call_fresh (c : session_call) w : Prop := match c with CallCreate id _ => sw_issued w !! id = None | _ => True end.

Lemma call_kept E c w : others_fair E -> sessions_wf w -> call_fresh c w -> still_wf w (run_session_call E c w).
Proof.
  intros Hfair Hw Hc. destruct c as [id user|id|id|id server up|id|age]; cbn [run_session_call].
  - by apply create_kept.
  - by apply get_kept.
  - apply change_kept; [done..|]. by intros s (? & ? & ?).
  - unfold set_upstream_session. destruct (sane_upstream_session up) eqn:Eu; [|by split; [|apply later_refl]].
    apply change_kept; [done..|]. intros s (? & ? & Hs). split_and!; [done..|]. constructor; [done|]. apply Forall_forall. intros x [_ Hx]%list_elem_of_filter. by eapply (proj1 (Forall_forall _ _) Hs).
  - by apply remove_kept.
  - by apply remove_all_kept.
Qed.

Fixpoint run_session_calls (calls : list (session_env U St * session_call)) w : W :=
  match calls with [] => w | (E, c) :: calls => run_session_calls calls (run_session_call E c w) end.
Fixpoint calls_fresh (calls : list (session_env U St * session_call)) w : Prop :=
  match calls with [] => True | (E, c) :: calls => others_fair E /\ call_fresh c w /\ calls_fresh calls (run_session_call E c w) end.
Lemma calls_kept calls w : sessions_wf w -> calls_fresh calls w -> still_wf w (run_session_calls calls w).
Proof.
  revert w. induction calls as [|[E c] calls IH]; intros w Hw Hc; [by split; [|apply later_refl]|]. destruct Hc as (Hf & Hc & Hcs).
  destruct (call_kept E c w Hf Hw Hc) as [Hw1 L1]. eapply kept_trans; [exact L1|]. by apply IH.
Qed.
Lemma assoc_get_elem {A} (k : U) (l : list (U * A)) x : assoc_get k l = Some x -> (k, x) ∈ l.
Proof.
  unfold assoc_get. destruct (list_find _ l) as [[i [k' y]]|] eqn:Ef; [|done]. simpl. intros [= ->].
  apply list_find_Some in Ef as (Hx & Hk & _). simpl in Hk. subst k'. by eapply list_elem_of_lookup_2.
Qed.

(** C19: A session belongs to the user it was made for.  Take any calls, on any pods, with anything
    the others do while a call waits for Redis: a session that is found has the id asked for,
    the user who made it, and for the upstream servers only session ids of 1 to 256 printable
    ASCII characters; who made a session never changes. *)
Theorem session_found_is_owners E calls id w : sessions_wf w -> calls_fresh calls w -> others_fair E ->
  let '(w', found) := get_session of_json E id (run_session_calls calls w) in
  sw_issued w ⊆ sw_issued w' /\
  forall s, found = Some s ->
    ms_id s = id /\ sw_issued w' !! id = Some (ms_user_id s) /\
    forall server up, assoc_get server (ms_upstream_sessions s) = Some up -> sane_upstream_session up = true.
Proof.
  intros Hw Hfresh Hfair. destruct (calls_kept calls w Hw Hfresh) as [Hw' Hl].
  destruct (get_kept E Hfair id _ Hw') as [[_ Hl'] Hs]. destruct (get_session _ _ _ _) as [w'' found]. simpl in *.
  split; [by destruct (later_trans _ _ _ Hl Hl')|]. intros s ->. destruct (Hs s eq_refl) as (Hid & Hu & Hsane). split_and!; [done..|].
  intros server up Hup%assoc_get_elem. by apply (proj1 (Forall_forall _ _) Hsane) in Hup.
Qed.
End Owned.
