(* ===== verification/McpUpstream.v ===== *)
(** * Calls to MCP servers

    JSON-RPC messages ([proxy/jsonrpc.rs]), how a server's row becomes a registered server
    ([crates/server/src/mcp_runtime.rs]), the pool of connections and the requests it sends
    ([pool.rs]), and the probes that look at a server ([health.rs], [detect.rs]).  JSON text,
    decryption and the network are arguments. *)

From Stdlib Require Import Ascii.
From S2P Require Import Prelude Interfaces GatewayDeps Text McpRegistry Lifecycle McpSse.

(** ** JSON-RPC *)

Definition INVALID_REQUEST : Z := -32600.
Definition METHOD_NOT_FOUND : Z := -32601.
Definition INVALID_PARAMS : Z := -32602.
Definition INTERNAL_ERROR : Z := -32603.
Definition RESOURCE_BUSY : Z := -32005.
Definition NEEDS_USER_CREDENTIALS : Z := -32050.

Record RpcRequest {V : Type} := { rq_jsonrpc : string; rq_id : option V; rq_method : string; rq_params : option V }.
Record JsonRpcError {V : Type} := { je_code : Z; je_message : string; je_data : option V }.
Record JsonRpcResponse {V : Type} := { rp_jsonrpc : string; rp_id : option V; rp_result : option V; rp_error : option (JsonRpcError (V := V)) }.
#[global] Arguments RpcRequest : clear implicits.
#[global] Arguments JsonRpcError : clear implicits.
#[global] Arguments JsonRpcResponse : clear implicits.

Definition ok_response {V} (id : option V) (result : V) : JsonRpcResponse V :=
  {| rp_jsonrpc := "2.0"; rp_id := id; rp_result := Some result; rp_error := None |}.
Definition err_response {V} (id : option V) (code : Z) (message : string) : JsonRpcResponse V :=
  {| rp_jsonrpc := "2.0"; rp_id := id; rp_result := None; rp_error := Some {| je_code := code; je_message := message; je_data := None |} |}.
Definition with_id {V} (id : option V) (r : JsonRpcResponse V) : JsonRpcResponse V :=
  {| rp_jsonrpc := rp_jsonrpc r; rp_id := id; rp_result := rp_result r; rp_error := rp_error r |}.

(** ** [str::replace]

    Every occurrence, from the left; a text that is searched for has a byte at least, so the
    length of the text is fuel enough ([replace_step]). *)
Fixpoint replace_fuel (fuel : nat) (from to s : string) : string :=
  match fuel, split_str from s with
  | S fuel, Some (a, b) => a +:+ to +:+ replace_fuel fuel from to b
  | _, _ => s
  end.
Definition str_replace (from to s : string) : string := replace_fuel (String.length s) from to s.

(** ** A server's authentication *)

Inductive CredentialOwner := PerUser | AdminShared.
Definition CredentialOwner_as_str (o : CredentialOwner) : string := match o with PerUser => "per_user" | AdminShared => "admin_shared" end.
Definition CredentialOwner_parse (s : string) : CredentialOwner := if decide (s = "admin_shared") then AdminShared else PerUser.
Inductive AuthShape := Anonymous | OAuth | Static.
Definition AuthShape_as_str (a : AuthShape) : string := match a with Anonymous => "anonymous" | OAuth => "oauth" | Static => "static" end.
Definition AuthShape_parse (s : string) : AuthShape :=
  if decide (s = "oauth") then OAuth else if decide (s = "static") then Static else Anonymous.
#[export] Instance CredentialOwner_eq_dec : EqDecision CredentialOwner.
Proof. solve_decision. Defined.
#[export] Instance AuthShape_eq_dec : EqDecision AuthShape.
Proof. solve_decision. Defined.

Record OAuthClientCfg := {
  oc_token_endpoint : string; oc_authorization_endpoint : option string;
  oc_client_id : string; oc_client_secret : option string; oc_scopes : list string;
}.
(** What a registered server carries besides its tools. *)
Record server_config := {
  sc_endpoint_url : string; sc_oauth_cfg : option OAuthClientCfg;
  sc_auth_shape : AuthShape; sc_credential_owner : CredentialOwner;
  sc_auth_header_name : string; sc_auth_value_template : string;
  sc_custom_headers : list (string * string);
}.
Record ServerAuthCfg := {
  ac_credential_owner : CredentialOwner; ac_auth_shape : AuthShape; ac_oauth_cfg : option OAuthClientCfg;
  ac_auth_header_name : string; ac_auth_value_template : string;
}.
Definition auth_cfg (c : server_config) : ServerAuthCfg :=
  {| ac_credential_owner := sc_credential_owner c; ac_auth_shape := sc_auth_shape c; ac_oauth_cfg := sc_oauth_cfg c;
     ac_auth_header_name := sc_auth_header_name c; ac_auth_value_template := sc_auth_value_template c |}.
Definition AuthInjection : Type := string * string.
Definition build_injection (cfg : ServerAuthCfg) (token : string) : AuthInjection :=
  (ac_auth_header_name cfg, str_replace "{{token}}" token (ac_auth_value_template cfg)).
Definition needs_credential (cfg : ServerAuthCfg) : bool := negb (bool_decide (ac_auth_shape cfg = Anonymous)).

(** [find("}}")] cuts at the first; what is between is trimmed.  A cut leaves a shorter text. *)
Fixpoint template_fuel (fuel : nat) (rest : string) : result string unit :=
  match fuel, split_str "{{" rest with
  | S fuel, Some (_, after) =>
      match split_str "}}" after with
      | None => Err "auth_value_template has unmatched `{{`"
      | Some (inner, rest) =>
          let name := trim inner in
          if bool_decide (name = "token") then template_fuel fuel rest
          else Err ("auth_value_template only supports the `{{token}}` placeholder; found `{{" +:+ name +:+ "}}`")
      end
  | _, _ => Ok tt
  end.
Definition validate_auth_value_template (template : string) : result string unit :=
  if bool_decide (template = "") then Err "auth_value_template must not be empty"
  else template_fuel (String.length template) template.

(** ** From the row of a server *)

Definition determine_cache_scope (auth_shape : AuthShape) (custom_headers : list (string * string)) (credential_owner : CredentialOwner) : ServerCacheScope :=
  let header_per_caller := existsb (fun h => contains_str "{{user_id}}" h.2 || contains_str "{{user_email}}" h.2) custom_headers in
  if header_per_caller then PerCaller else
  match credential_owner, auth_shape with
  | _, Anonymous => Global
  | AdminShared, _ => Global
  | PerUser, _ => PerCaller
  end.
Definition parse_server_status (s : string) : ServerStatus :=
  if decide (s = "connected") then Connected else if decide (s = "disconnected") then Disconnected else Unknown.

Record McpServer {U V : Type} := {
  sv_id : U; sv_name : string; sv_namespace_prefix : string; sv_endpoint_url : string;
  sv_oauth_authorization_endpoint : option string; sv_oauth_token_endpoint : option string;
  sv_oauth_client_id : option string; sv_oauth_client_secret_encrypted : option string; sv_oauth_scopes : list string;
  sv_auth_shape : string; sv_credential_owner : string; sv_auth_header_name : string; sv_auth_value_template : string;
  sv_status : string; sv_last_health_check : option Z; sv_config_json : V;
}.
#[global] Arguments McpServer : clear implicits.

Section Rows.
Context {U V ToolInfo : Type} `{Uuid U} `{JsonValue V}.
(** [decrypt_client_secret]; the entries of an object, in order; a JSON number as [u64]. *)
Context (decrypt_client_secret : string -> result string string) (json_entries : V -> option (list (string * V))) (json_as_u64 : V -> option Z).

Definition build_oauth_cfg (server : McpServer U V) : option OAuthClientCfg :=
  token_endpoint ← sv_oauth_token_endpoint server;
  client_id ← sv_oauth_client_id server;
  client_secret ← (match sv_oauth_client_secret_encrypted server with
                   | Some encrypted => match decrypt_client_secret encrypted with Ok s => Some (Some s) | Err _ => None end
                   | None => Some None
                   end);
  Some {| oc_token_endpoint := token_endpoint; oc_authorization_endpoint := sv_oauth_authorization_endpoint server;
          oc_client_id := client_id; oc_client_secret := client_secret; oc_scopes := sv_oauth_scopes server |}.
Definition custom_headers_of (config : V) : list (string * string) :=
  match json_get "custom_headers" config ≫= json_entries with
  | Some entries => omap (fun e => (fun v => (e.1, v)) <$> json_as_str e.2) entries
  | None => []
  end.
(** [tools] are the server's active rows, [None] when they cannot be read. *)
Definition build_registered_server (tools : option (list (McpToolInfo ToolInfo))) (server : McpServer U V)
    : option (RegisteredServer U ToolInfo server_config) :=
  tools ← tools;
  let custom_headers := custom_headers_of (sv_config_json server) in
  let credential_owner := CredentialOwner_parse (sv_credential_owner server) in
  let auth_shape := AuthShape_parse (sv_auth_shape server) in
  Some {| rs_id := sv_id server; rs_name := sv_name server; rs_namespace_prefix := sv_namespace_prefix server;
          rs_tools := tools; rs_status := parse_server_status (sv_status server); rs_last_health_check := sv_last_health_check server;
          rs_cache_ttl_secs := json_get "cache_ttl_secs" (sv_config_json server) ≫= json_as_u64;
          rs_cache_scope := determine_cache_scope auth_shape custom_headers credential_owner;
          rs_upstream := {| sc_endpoint_url := sv_endpoint_url server; sc_oauth_cfg := build_oauth_cfg server;
                            sc_auth_shape := auth_shape; sc_credential_owner := credential_owner;
                            sc_auth_header_name := sv_auth_header_name server; sc_auth_value_template := sv_auth_value_template server;
                            sc_custom_headers := custom_headers |} |}.
End Rows.
