(* ===== verification/McpPool.v ===== *)
(** * Connections to MCP servers and the requests sent over them

    [crates/mcp-gateway/src/pool.rs], [health.rs] and [detect.rs].  A connection is made from
    the server as it is registered and kept by id; who holds which pool matters, since the
    console and the gateway each keep a handle. *)
From Stdlib Require Import Ascii.
From S2P Require Import Prelude Interfaces Effects GatewayDeps Text Lifecycle McpRegistry Memory McpSse McpSessions McpUpstream.

Record CallerIdentity := { ci_user_id : string; ci_user_email : string }.
Record McpConnection {U : Type} := { mc_server_id : U; mc_endpoint_url : string; mc_custom_headers : list (string * string) }.
#[global] Arguments McpConnection : clear implicits.

Inductive PoolError :=
  | RequestFailed (message : string)
  | PoolUpstreamError (status : Z) (body : string)
  | ParseError (message : string)
  | Buffering (e : ReadError).
Definition read_error_text (e : ReadError) : string :=
  match e with
  | TooLarge => "The response exceeds the gateway buffering limit"
  | Busy => "The gateway buffering budget is occupied; retry shortly"
  | Transport m => m
  end.
Definition pool_error_text (e : PoolError) : string :=
  match e with
  | RequestFailed m => "HTTP request to upstream MCP server failed: " +:+ m
  | PoolUpstreamError status body => "Upstream MCP server returned non-success status " +:+ pretty status +:+ ": " +:+ body
  | ParseError m => "Failed to parse upstream JSON-RPC response: " +:+ m
  | Buffering e => read_error_text e
  end.

(** ** The pools of the process

    [pl_state] is the pool the application's state holds; others may hold older ones. *)

Record pools {U : Type} := { pl_pools : nat -> list (U * McpConnection U); pl_state : nat; pl_next : nat }.
#[global] Arguments pools : clear implicits.

Section Pools.
Context {U T : Type} `{Uuid U}.
Abbreviation server := (RegisteredServer U T server_config).

Definition McpConnection_new (s : server) : McpConnection U :=
  {| mc_server_id := rs_id s; mc_endpoint_url := sc_endpoint_url (rs_upstream s); mc_custom_headers := sc_custom_headers (rs_upstream s) |}.
Definition set_pool (pool : nat) (conns : list (U * McpConnection U)) (w : pools U) : pools U :=
  {| pl_pools := fun p => if decide (p = pool) then conns else pl_pools w p; pl_state := pl_state w; pl_next := pl_next w |}.
(** [with_timeout], stored as the application's pool. *)
Definition reload_pool : prog (pools U) unit := fun w =>
  ({| pl_pools := fun p => if decide (p = pl_next w) then [] else pl_pools w p; pl_state := pl_next w; pl_next := S (pl_next w) |}, tt).
Definition get_or_create (pool : nat) (s : server) : prog (pools U) (McpConnection U) := fun w =>
  match assoc_get (rs_id s) (pl_pools w pool) with
  | Some conn => (w, conn)
  | None => let conn := McpConnection_new s in (set_pool pool (assoc_insert (rs_id s) conn (pl_pools w pool)) w, conn)
  end.
Definition pool_remove (pool : nat) (id : U) : prog (pools U) unit := fun w =>
  (set_pool pool (filter (fun p => p.1 <> id) (pl_pools w pool)) w, tt).

(** The end of the console's edit of a server: the application's pool forgets it, the registry
    takes the new row, if it can be built. *)
Definition sync_edited (id : U) (built : option server) (w : pools U * Registry U T server_config) : pools U * Registry U T server_config :=
  ((pool_remove (pl_state w.1) id w.1).1, match built with Some s => register s w.2 | None => w.2 end).
(** One server of the daily refresh of the catalogue: [row] is as it was when the refresh read the
    table; [discovered] whether the upstream listed its tools. *)
Definition refresh_catalog (discovered : bool) (built_from_row : option server) (reg : Registry U T server_config) : Registry U T server_config :=
  if discovered then match built_from_row with Some s => register s reg | None => reg end else reg.
End Pools.

(** ** Requests *)

Record http_request {V : Type} := { hq_url : string; hq_headers : list (string * string); hq_body : RpcRequest V }.
#[global] Arguments http_request : clear implicits.
(** An answer's status, the headers the gateway looks at where they are text, and its body as it
    comes in. *)
Record http_reply := { hp_status : Z; hp_content_type : option string; hp_session_id : option string; hp_body : list (result string string) }.

Section Requests.
Context {U V : Type} `{Uuid U} `{JsonValue V, EqDecision V}.
(** [serde_json]. *)
Context (parse_json : string -> option V) (json_string : string -> V) (truncated_events : nat -> V) (events_text : list V -> string).
Context (decode : V -> result string (JsonRpcResponse V)) (decode_text : string -> result string (JsonRpcResponse V)).
(** How reading a body within so many bytes goes ([Memory.read_response]). *)
Context (read : Z -> http_reply -> result ReadError string) (max_body_bytes : Z).
(** [str::to_lowercase] on a header's value. *)
Context (to_lowercase : string -> string).

Definition fill_header (caller : option CallerIdentity) (template : string) : string :=
  match caller with
  | Some c => str_replace "{{user_email}}" (ci_user_email c) (str_replace "{{user_id}}" (ci_user_id c) template)
  | None => template
  end.
Definition opt_header {A} (f : A -> string * string) (o : option A) : list (string * string) := match o with Some x => [f x] | None => [] end.
Definition build_upstream_request (conn : McpConnection U) (request : RpcRequest V) (auth_header : option AuthInjection)
    (caller : option CallerIdentity) (upstream_session_id trace_id : option string) : http_request V :=
  {| hq_url := mc_endpoint_url conn;
     hq_headers := [("Content-Type", "application/json"); ("Accept", "application/json, text/event-stream")]
       ++ opt_header (fun h => h) auth_header
       ++ opt_header (fun t => ("x-trace-id", t)) trace_id
       ++ ((fun h => (h.1, fill_header caller h.2)) <$> mc_custom_headers conn)
       ++ opt_header (fun s => ("Mcp-Session-Id", s)) upstream_session_id;
     hq_body := request |}.

Definition is_success_status (status : Z) : bool := (200 <=? status) && (status <? 300).
Definition is_sse (reply : http_reply) : bool := contains_str "text/event-stream" (to_lowercase (default "" (hp_content_type reply))).
(** The body of a refusal, or why it could not be read. *)
Definition refusal (reply : http_reply) : PoolError :=
  PoolUpstreamError (hp_status reply)
    (match read (64 * 1024) reply with Ok bytes => from_utf8_lossy bytes | Err e => read_error_text e end).

(** [sent] is the network's answer. *)
Definition send_request (request : RpcRequest V) (sent : result string http_reply)
    : result PoolError (JsonRpcResponse V * option string * option string) :=
  match sent with
  | Err message => Err (RequestFailed message)
  | Ok reply =>
      if negb (is_success_status (hp_status reply)) then Err (refusal reply) else
      match read max_body_bytes reply with
      | Err e => Err (Buffering e)
      | Ok data =>
          let parsed :=
            if is_sse reply then
              match parse_sse_json_rpc parse_json json_string truncated_events decode events_text (from_utf8_lossy data) (rq_id request) with
              | Ok (matched, full_audit) => Ok (matched, Some full_audit)
              | Err e => Err (ParseError e)
              end
            else match decode_text data with Ok envelope => Ok (envelope, None) | Err e => Err (ParseError e) end in
          match parsed with
          | Err e => Err e
          | Ok (json_resp, stream_audit_body) =>
              if negb (bool_decide (rp_jsonrpc json_resp = "2.0")) then Err (ParseError "Invalid JSON-RPC version")
              else Ok (json_resp, hp_session_id reply, stream_audit_body)
          end
      end
  end.
Definition send_request_streaming (sent : result string http_reply) : result PoolError (http_reply * option string) :=
  match sent with
  | Err message => Err (RequestFailed message)
  | Ok reply => if negb (is_success_status (hp_status reply)) then Err (refusal reply) else Ok (reply, hp_session_id reply)
  end.
Definition read_json_response (reply : http_reply) : result PoolError (JsonRpcResponse V) :=
  match read max_body_bytes reply with
  | Err e => Err (Buffering e)
  | Ok data => match decode_text data with Ok r => Ok r | Err e => Err (ParseError e) end
  end.
Definition error_response (id : option V) (error : PoolError) : JsonRpcResponse V :=
  let code := match error with Buffering Busy => RESOURCE_BUSY | _ => INTERNAL_ERROR end in
  err_response id code ("Upstream server error: " +:+ pool_error_text error).

(** ** Probes *)

Record ServerHealth := { he_status : string; he_latency_ms : option Z; he_last_check : Z; he_error : option string }.
Definition check_server (result_ : result PoolError (JsonRpcResponse V * option string * option string)) (elapsed now : Z) : ServerHealth :=
  match result_ with
  | Ok (resp, _, _) =>
      match rp_error resp with
      | None => {| he_status := "healthy"; he_latency_ms := Some elapsed; he_last_check := now; he_error := None |}
      | Some e => {| he_status := "unhealthy"; he_latency_ms := Some elapsed; he_last_check := now; he_error := Some (je_message e) |}
      end
  | Err e =>
      let reachable := match e with PoolUpstreamError status _ => (status =? 401) || (status =? 403) | _ => false end in
      if reachable then {| he_status := "healthy"; he_latency_ms := Some elapsed; he_last_check := now; he_error := None |}
      else {| he_status := "unhealthy"; he_latency_ms := Some elapsed; he_last_check := now; he_error := Some (pool_error_text e) |}
  end.
(** The loop of [spawn_mcp_health_loop]: what the registry is told of each server. *)
Definition health_status (h : ServerHealth) : ServerStatus := match he_error h with None => Connected | Some _ => Disconnected end.

Inductive DetectedTransport := StreamableHttp | Sse.
Definition DetectedTransport_as_str (t : DetectedTransport) : string := match t with StreamableHttp => "streamable_http" | Sse => "sse" end.
(** [post] and [get] are the answers to the two probes: a status, and the GET's content type. *)
Definition detect_transport (post : result string Z) (get : result string http_reply) : result string DetectedTransport :=
  if match post with Ok status => (status <? 500) && negb (status =? 404) && negb (status =? 405) | Err _ => false end
  then Ok StreamableHttp
  else
      match get with
      | Err e => Err ("Cannot reach endpoint: " +:+ e)
      | Ok reply =>
          let status := hp_status reply in
          if is_sse reply then Ok Sse
          else if ((status =? 401) || (status =? 403)) && negb (status =? 404) then Ok Sse
          else Err ("Endpoint returned HTTP " +:+ pretty status +:+ " on both POST and GET — cannot determine transport type")
      end.
End Requests.

(** * What a server is sent

    A server whose answers may be shared between callers is sent the same request for all of
    them; and an edited server is dialled at its new address by whoever holds the pool the
    console clears. *)

(** ** Replacing *)

Lemma contains_str_None sep s : contains_str sep s = false <-> split_str sep s = None.
Proof. unfold contains_str. by destruct (split_str sep s). Qed.
Lemma split_str_shorter sep s a b : sep <> "" -> split_str sep s = Some (a, b) -> (String.length b < String.length s)%nat.
Proof. intros Hs Hsp. apply split_str_app in Hsp as ->. rewrite !str_length_app. destruct sep; [done|]. simpl. lia. Qed.
Lemma replace_fuel_enough from to n m s : from <> "" -> (String.length s <= n)%nat -> (String.length s <= m)%nat ->
  replace_fuel n from to s = replace_fuel m from to s.
Proof.
  intros Hf. revert m s. induction n as [|n IH]; intros m s Hn Hm.
  - destruct s; [|simpl in Hn; lia]. destruct m; [done|]. simpl. destruct from; [done|]. done.
  - destruct m as [|m].
    + destruct s; [|simpl in Hm; lia]. simpl. by destruct from.
    + simpl. destruct (split_str from s) as [[a b]|] eqn:E; [|done]. pose proof (split_str_shorter _ _ _ _ Hf E). do 2 f_equal. apply IH; lia.
Qed.
Lemma replace_step from to s a b : from <> "" -> split_str from s = Some (a, b) -> str_replace from to s = a +:+ to +:+ str_replace from to b.
Proof.
  intros Hf E. unfold str_replace. pose proof (split_str_shorter _ _ _ _ Hf E) as Hl. destruct (String.length s) as [|n] eqn:En; [lia|].
  simpl. rewrite E. do 2 f_equal. apply replace_fuel_enough; [done|lia|done].
Qed.
Lemma replace_none from to s : contains_str from s = false -> str_replace from to s = s.
Proof. rewrite contains_str_None. intros E. unfold str_replace. destruct (String.length s); simpl; [done|]. by rewrite E. Qed.

(** ** Shared answers *)

Lemma fill_plain c h : contains_str "{{user_id}}" h = false -> contains_str "{{user_email}}" h = false -> fill_header (Some c) h = h.
Proof. intros Hi He. unfold fill_header. rewrite (replace_none _ _ h Hi). by apply replace_none. Qed.

Section Shared.
Context {U T V : Type} `{Uuid U}.
Implicit Types (s : RegisteredServer U T server_config) (request : RpcRequest V).

(** Over a connection made for a server whose answers everyone gets, the headers that name the
    caller are the trace and the session alone. *)
Lemma shared_request_shape s request :
  determine_cache_scope (sc_auth_shape (rs_upstream s)) (sc_custom_headers (rs_upstream s)) (sc_credential_owner (rs_upstream s)) = Global ->
  forall header caller session trace,
  build_upstream_request (McpConnection_new s) request header (Some caller) session trace =
    {| hq_url := sc_endpoint_url (rs_upstream s);
       hq_headers := [("Content-Type", "application/json"); ("Accept", "application/json, text/event-stream")] ++ opt_header (fun h => h) header ++
         opt_header (fun t => ("x-trace-id", t)) trace ++ sc_custom_headers (rs_upstream s) ++ opt_header (fun i => ("Mcp-Session-Id", i)) session;
       hq_body := request |}.
Proof.
  unfold determine_cache_scope. intros Hg header caller session trace. destruct (existsb _ _) eqn:Ex; [done|].
  unfold build_upstream_request. f_equal. do 3 f_equal. cbn [mc_custom_headers McpConnection_new]. f_equal.
  rewrite <- (list_fmap_id (sc_custom_headers (rs_upstream s))) at 2. apply list_fmap_ext. intros i [k v] Hi. cbn [fst snd id]. f_equal.
  assert (Hv : (contains_str "{{user_id}}" v || contains_str "{{user_email}}" v) = false).
  { apply not_true_is_false. intros Ht. assert (existsb (fun h => contains_str "{{user_id}}" h.2 || contains_str "{{user_email}}" h.2) (sc_custom_headers (rs_upstream s)) = true); [|congruence].
    apply existsb_exists. exists (k, v). split; [|exact Ht]. apply list_elem_of_In. by eapply list_elem_of_lookup_2. }
  apply orb_false_iff in Hv as [? ?]. by rewrite fill_plain.
Qed.
End Shared.

(** ** Edited servers *)

Section Edited.
Context {U T : Type} `{Uuid U}.
Implicit Types (s : RegisteredServer U T server_config) (w : pools U) (reg : Registry U T server_config).

Lemma assoc_get_filter {A} (k : U) (l : list (U * A)) : assoc_get k (filter (fun p => p.1 <> k) l) = None.
Proof.
  unfold assoc_get. destruct (list_find _ _) as [[i [k' x]]|] eqn:E; [|done]. exfalso. apply list_find_Some in E as (Hx & Hk & _). simpl in Hk. subst k'.
  apply list_elem_of_lookup_2, list_elem_of_filter in Hx as [Hk _]. done.
Qed.
(** Whoever holds the pool the application's state holds dials an edited server at once as it
    is registered. *)
Lemma edited_server_is_dialled s w reg :
  let '(w', reg') := sync_edited (rs_id s) (Some s) (w, reg) in
  (get_or_create (pl_state w) (with_tools (valid_tools (rs_tools s)) s) w').2 = McpConnection_new s /\
  (rs_id s, with_tools (valid_tools (rs_tools s)) s) ∈ reg'.
Proof.
  cbn [sync_edited]. unfold pool_remove, get_or_create. simpl. split.
  - rewrite decide_True by done. unfold with_tools at 1. simpl. by rewrite assoc_get_filter.
  - left.
Qed.
End Edited.
