(* ===== verification/McpCredentials.v ===== *)
(** * Credentials for MCP servers

    [crates/mcp-gateway/src/user_token.rs]: the header a call to a server carries, from the
    caller's own credential or the server's shared one, and the refresh of OAuth tokens.
    Encryption and the token endpoint are arguments; the per-key mutex is what keeps two
    refreshes of one process apart.  The header is proved to be the caller's own, and answers
    to be shared only where the header is resolved alike for everyone. *)
From Stdlib Require Import Ascii.
From S2P Require Import Prelude Interfaces Effects GatewayDeps McpRegistry McpUpstream McpPool.

Record CredentialRow := {
  cr_credential_type : string; cr_access_token_encrypted : string;
  cr_refresh_token_encrypted : option string; cr_expires_at : option Z;
}.
Record user_credential {U : Type} := { uc_server : U; uc_user : U; uc_label : string; uc_default : bool; uc_row : CredentialRow }.
#[global] Arguments user_credential : clear implicits.

Inductive CredLocator {U : Type} :=
  | LocPerUser (server_id user_id : U) (preferred_label : option string)
  | LocAdminShared (server_id : U).
#[global] Arguments CredLocator : clear implicits.

Inductive RefreshFailureKind := Permanent | Transient.
Inductive ResolverError {U : Type} :=
  | NeedsUserCredentials (server_id : U) (authorize_url : option string) (owner : CredentialOwner)
  | RefreshFailed (server_id : U) (kind : RefreshFailureKind) (message : string)
  | DatabaseError (message : string)
  | CryptoError (message : string)
  | BadTokenResponse (message : string).
#[global] Arguments ResolverError : clear implicits.
(** How a resolution ends early: with an error, or in a panic. *)
Inductive stop {U : Type} := Failed (e : ResolverError U) | Panicked (where_ : string).
#[global] Arguments stop : clear implicits.

(** The token endpoint's answer: no answer, one whose body could not be read, a status and a
    body. *)
Inductive token_reply := NoReply (message : string) | Unreadable (message : string) | Reply (status : Z) (text : string).
Record TokenResponse := { tr_access_token : string; tr_refresh_token : option string; tr_expires_in : option Z }.
Inductive OAuthRefreshFailure := RefreshPermanent (message : string) | RefreshTransient (message : string).

(** The two tables, the token endpoint's own state, and the lanes of the response cache that
    were wiped, of one user or of all. *)
Record cred_world {U P : Type} := {
  cw_users : list (user_credential U);
  cw_shared : list (U * CredentialRow);
  cw_provider : P;
  cw_wiped : list (U * option U);
}.
#[global] Arguments cred_world : clear implicits.

Section Credentials.
Context {U V P : Type} `{Uuid U} `{JsonValue V}.
(** AES-GCM over the process's key; the bodies of the token endpoint. *)
Context (decrypt : string -> result string string) (encrypt : string -> result string string).
Context (parse_token : string -> result string TokenResponse) (oauth_error : string -> option string).
(** The token endpoint takes a form. *)
Context (token_endpoint : OAuthClientCfg -> list (string * string) -> P -> P * token_reply).
(** The latest [DateTime] there is, in milliseconds. *)
Context (max_datetime : Z).
Abbreviation W := (cred_world U P).
Abbreviation R := (io W (stop U)).

(** The clock in milliseconds, as the resolver and then the refresh read it; the error the [i]-th statement ends in, if it does; what others
    do before the [i]-th statement. *)
Record cred_env := { ce_now : nat -> Z; ce_db : nat -> option string; ce_others : nat -> W -> W }.
Implicit Types (E : cred_env) (w : W).

Definition fail {A} (e : ResolverError U) : R A := throw (Failed e).
Definition db_error (m : string) : stop U := Failed (DatabaseError m).
Definition query {A} E (i : nat) (f : W -> W * A) : R A := fun w =>
  let w := ce_others E i w in
  match ce_db E i with Some m => (w, Err (db_error m)) | None => let '(w, a) := f w in (w, Ok a) end.

Definition loc_server (l : CredLocator U) : U := match l with LocPerUser s _ _ => s | LocAdminShared s => s end.
Definition loc_owner (l : CredLocator U) : CredentialOwner := match l with LocPerUser _ _ _ => PerUser | LocAdminShared _ => AdminShared end.
Definition refresh_lock_key (l : CredLocator U) : string :=
  match l with
  | LocPerUser s u (Some label) => "mcp_token_refresh:per_user:" +:+ uuid_str s +:+ ":" +:+ uuid_str u +:+ ":" +:+ label
  | LocPerUser s u None => "mcp_token_refresh:per_user:" +:+ uuid_str s +:+ ":" +:+ uuid_str u +:+ ":__default__"
  | LocAdminShared s => "mcp_token_refresh:admin_shared:" +:+ uuid_str s
  end.
Definition wipe (lane : U * option U) : R unit := fun w =>
  ({| cw_users := cw_users w; cw_shared := cw_shared w; cw_provider := cw_provider w; cw_wiped := cw_wiped w ++ [lane] |}, Ok tt).
Definition invalidate_cache_after_change (l : CredLocator U) : R unit :=
  match l with LocPerUser s u _ => wipe (s, Some u) | LocAdminShared s => wipe (s, None) end.

Definition locator_for (server_id : U) (cfg : ServerAuthCfg) (user_id : U) (mcp_account_overrides : V) : CredLocator U :=
  match ac_credential_owner cfg with
  | AdminShared => LocAdminShared server_id
  | PerUser => LocPerUser server_id user_id (json_get (uuid_str server_id) mcp_account_overrides ≫= json_as_str)
  end.

(** Which rows of a user's credentials a locator names. *)
Definition located (l : CredLocator U) (c : user_credential U) : bool :=
  match l with
  | LocPerUser s u (Some label) => bool_decide (uc_server c = s /\ uc_user c = u /\ uc_label c = label)
  | LocPerUser s u None => bool_decide (uc_server c = s /\ uc_user c = u) && uc_default c
  | LocAdminShared _ => false
  end.
Definition row_at (l : CredLocator U) w : option (CredentialRow * option string) :=
  match l with
  | LocPerUser _ _ _ => (fun c => (uc_row c, Some (uc_label c))) <$> head (filter (fun c => located l c = true) (cw_users w))
  | LocAdminShared s => (fun p => (p.2, None)) <$> head (filter (fun p => p.1 = s) (cw_shared w))
  end.
Definition fetch_row E (i : nat) (l : CredLocator U) : R (option (CredentialRow * option string)) := query E i (fun w => (w, row_at l w)).

Definition decrypt_to_string (bytes : string) : R string :=
  match decrypt bytes with Ok s => mret s | Err e => fail (CryptoError e) end.
Definition encrypt_string (plain : string) : R string :=
  match encrypt plain with Ok s => mret s | Err e => fail (CryptoError e) end.

Definition missing_label : stop U := Failed (CryptoError "missing label inside lock").
(** Both are one transaction; [commit] ignored or not is the caller's. *)
Definition without_row (l : CredLocator U) w : W :=
  match l with
  | LocPerUser _ _ _ => {| cw_users := filter (fun c => located l c = false) (cw_users w); cw_shared := cw_shared w; cw_provider := cw_provider w; cw_wiped := cw_wiped w |}
  | LocAdminShared s => {| cw_users := cw_users w; cw_shared := filter (fun p => p.1 <> s) (cw_shared w); cw_provider := cw_provider w; cw_wiped := cw_wiped w |}
  end.
Definition refreshed (access refresh : string) (expires_at : option Z) (r : CredentialRow) : CredentialRow :=
  {| cr_credential_type := cr_credential_type r; cr_access_token_encrypted := access;
     cr_refresh_token_encrypted := Some refresh; cr_expires_at := expires_at |}.
Definition with_row (l : CredLocator U) (f : CredentialRow -> CredentialRow) w : W :=
  match l with
  | LocPerUser _ _ _ =>
      {| cw_users := (fun c => if located l c then {| uc_server := uc_server c; uc_user := uc_user c; uc_label := uc_label c; uc_default := uc_default c; uc_row := f (uc_row c) |} else c) <$> cw_users w;
         cw_shared := cw_shared w; cw_provider := cw_provider w; cw_wiped := cw_wiped w |}
  | LocAdminShared s =>
      {| cw_users := cw_users w; cw_shared := (fun p => if decide (p.1 = s) then (p.1, f p.2) else p) <$> cw_shared w;
         cw_provider := cw_provider w; cw_wiped := cw_wiped w |}
  end.
Definition has_label (l : CredLocator U) : bool := match l with LocPerUser _ _ None => false | _ => true end.
(** [BEGIN], the statement and [COMMIT]; a lost commit leaves the tables as they were. *)
Definition transaction E (i : nat) (l : CredLocator U) (f : W -> W) : R (result string unit) :=
  _ ← query E i (fun w => (w, tt));
  if negb (has_label l) then throw missing_label else
  _ ← query E (S i) (fun w => (w, tt));
  (fun w => let w := ce_others E (S (S i)) w in
            match ce_db E (S (S i)) with Some m => (w, Ok (Err m)) | None => (f w, Ok (Ok tt)) end) : R (result string unit).

Definition joined_scopes (scopes : list string) : string := String.concat " " scopes.
Definition refresh_form (cfg : OAuthClientCfg) (refresh_token : string) : list (string * string) :=
  [("grant_type", "refresh_token"); ("refresh_token", refresh_token); ("client_id", oc_client_id cfg)]
  ++ (match oc_client_secret cfg with Some secret => [("client_secret", secret)] | None => [] end)
  ++ (if bool_decide (oc_scopes cfg = []) then [] else [("scope", joined_scopes (oc_scopes cfg))]).
Definition status_ok (status : Z) : bool := (200 <=? status) && (status <? 300).
Definition classify (reply : token_reply) : result OAuthRefreshFailure TokenResponse :=
  match reply with
  | NoReply e => Err (RefreshTransient ("network: " +:+ e))
  | Unreadable e => Err (RefreshTransient ("token response read: " +:+ e))
  | Reply status text =>
      if negb (status_ok status) then
        let msg := "token_endpoint returned " +:+ pretty status +:+ ": " +:+ text in
        let permanent :=
          if status =? 401 then true
          else if status =? 400 then bool_decide (oauth_error text = Some "invalid_grant")
          else false in
        Err (if permanent then RefreshPermanent msg else RefreshTransient msg)
      else match parse_token text with Ok t => Ok t | Err e => Err (RefreshPermanent ("parse: " +:+ e)) end
  end.
Definition oauth_refresh (cfg : OAuthClientCfg) (refresh_token : string) : R (result OAuthRefreshFailure TokenResponse) := fun w =>
  let '(p, reply) := token_endpoint cfg (refresh_form cfg refresh_token) (cw_provider w) in
  ({| cw_users := cw_users w; cw_shared := cw_shared w; cw_provider := p; cw_wiped := cw_wiped w |}, Ok (classify reply)).

(** [i64::try_from]; [Duration::seconds] and the addition panic out of their ranges. *)
Definition expiry (now : Z) (expires_in : option Z) : R (option Z) :=
  match expires_in with
  | Some secs =>
      if i64_max <? secs then mret None
      else if (i64_max / 1000 <? secs) || (max_datetime <? now + 1000 * secs) then throw (Panicked "DateTime + TimeDelta")
      else mret (Some (now + 1000 * secs))
  | None => mret None
  end.

Definition within_a_minute (now : Z) (row : CredentialRow) (unknown : bool) : bool :=
  match cr_expires_at row with Some exp => exp <=? now + 60000 | None => unknown end.

(** Under the lock of [refresh_lock_key]: [row] was read before the lock was free. *)
Definition refresh_locked E (i : nat) (l : CredLocator U) (row : CredentialRow) (cfg : OAuthClientCfg) : R string :=
  recheck ← fetch_row E i l;
  match recheck with
  | None => fail (NeedsUserCredentials (loc_server l) (oc_authorization_endpoint cfg) (loc_owner l))
  | Some (current, _) =>
      if negb (within_a_minute (ce_now E 1) current true) then decrypt_to_string (cr_access_token_encrypted current)
      else
        match cr_refresh_token_encrypted row with
        | None => fail (RefreshFailed (loc_server l) Permanent "no refresh_token stored")
        | Some refresh_bytes =>
            refresh_token ← decrypt_to_string refresh_bytes;
            answer ← oauth_refresh cfg refresh_token;
            match answer with
            | Err (RefreshTransient msg) => fail (RefreshFailed (loc_server l) Transient msg)
            | Err (RefreshPermanent msg) =>
                _ ← transaction E (S i) l (without_row l);
                _ ← invalidate_cache_after_change l;
                fail (RefreshFailed (loc_server l) Permanent msg)
            | Ok new =>
                access ← encrypt_string (tr_access_token new);
                refresh ← (match tr_refresh_token new with Some r => encrypt_string r | None => mret refresh_bytes end);
                expires_at ← expiry (ce_now E 1) (tr_expires_in new);
                committed ← transaction E (S i) l (with_row l (refreshed access refresh expires_at));
                match committed with
                | Err m => throw (db_error m)
                | Ok _ => _ ← invalidate_cache_after_change l; mret (tr_access_token new)
                end
            end
        end
  end.

Definition refresh_locator (l : CredLocator U) (label : option string) : CredLocator U :=
  match l, label with LocPerUser s u None, Some actual_label => LocPerUser s u (Some actual_label) | _, _ => l end.
Definition resolve E (server_id : U) (cfg : ServerAuthCfg) (user_id : U) (mcp_account_overrides : V) : R (option AuthInjection) :=
  let locator := locator_for server_id cfg user_id mcp_account_overrides in
  row ← fetch_row E 0 locator;
  match row with
  | None => if needs_credential cfg then fail (NeedsUserCredentials server_id None (ac_credential_owner cfg)) else mret None
  | Some (row, account_label) =>
      token ← (if bool_decide (cr_credential_type row = "static_token") then decrypt_to_string (cr_access_token_encrypted row)
               else if bool_decide (cr_credential_type row = "oauth_authcode") then
                 if negb (within_a_minute (ce_now E 0) row false) then decrypt_to_string (cr_access_token_encrypted row)
                 else match ac_oauth_cfg cfg with
                      | None => fail (BadTokenResponse "oauth_authcode credential exists but server has no oauth client config")
                      | Some oauth_cfg => refresh_locked E 1 (refresh_locator locator account_label) row oauth_cfg
                      end
               else fail (BadTokenResponse ("unknown credential_type " +:+ String "034" (cr_credential_type row +:+ String "034" ""))));
      mret (Some (build_injection cfg token))
  end.
End Credentials.
#[global] Arguments cred_env : clear implicits.

(** * Whose credential a call carries

    Whatever others do to the tables meanwhile, the header made for a call holds a token of the
    caller for that server, or of the server's shared credential, and a refresh touches no
    other row. *)

Section Own.
Context {U V P : Type} `{Uuid U} `{JsonValue V}.
Context (decrypt encrypt : string -> result string string) (parse_token : string -> result string TokenResponse) (oauth_error : string -> option string).
Context (token_endpoint : OAuthClientCfg -> list (string * string) -> P -> P * token_reply) (max_datetime : Z).
Abbreviation W := (cred_world U P).
Implicit Types (E : cred_env U P) (w : W) (l : CredLocator U).
Abbreviation R := (io W (stop U)).
Abbreviation refreshes := (refresh_locked decrypt encrypt parse_token oauth_error token_endpoint max_datetime).
Abbreviation resolves := (resolve decrypt encrypt parse_token oauth_error token_endpoint max_datetime).

(** What makes a row a credential of this user (or of all, [None]) on this server. *)
Context (own : U -> option U -> CredentialRow -> Prop).
Definition all_owned w : Prop :=
  Forall (fun c => own (uc_server c) (Some (uc_user c)) (uc_row c)) (cw_users w) /\ Forall (fun p => own p.1 None p.2) (cw_shared w).
(** The token endpoint's answer to the refresh token of an owned row. *)
Definition granted (s : U) (o : option U) (new : TokenResponse) (refresh_bytes : string) : Prop :=
  exists row rt cfg p, own s o row /\ cr_refresh_token_encrypted row = Some refresh_bytes /\ decrypt refresh_bytes = Ok rt /\
    classify parse_token oauth_error (token_endpoint cfg (refresh_form cfg rt) p).2 = Ok new.
Hypothesis refresh_owned : forall s o new bytes access refresh expires_at row,
  granted s o new bytes -> own s o row -> encrypt (tr_access_token new) = Ok access ->
  match tr_refresh_token new with Some r => encrypt r = Ok refresh | None => refresh = bytes end ->
  own s o (refreshed access refresh expires_at row).
(** A token that is such a credential's, or that was granted for one. *)
Definition token_of (s : U) (o : option U) (token : string) : Prop :=
  (exists row, own s o row /\ decrypt (cr_access_token_encrypted row) = Ok token) \/
  (exists new bytes, granted s o new bytes /\ token = tr_access_token new).
Definition others_owned E : Prop := forall i w, all_owned w -> all_owned (ce_others E i w).
Definition loc_user l : option U := match l with LocPerUser _ u _ => Some u | LocAdminShared _ => None end.

(** A program that keeps the tables owned, with what holds of its result. *)
Definition safe {A} (p : R A) (Q : A -> Prop) : Prop := forall w, all_owned w -> all_owned (p w).1 /\ forall a, (p w).2 = Ok a -> Q a.
Lemma safe_ret {A} (a : A) (Q : A -> Prop) : Q a -> safe (mret a) Q.
Proof. intros Ha w Hw. split; [done|]. by intros ? [= <-]. Qed.
Lemma safe_throw {A} e (Q : A -> Prop) : safe (throw e) Q.
Proof. by intros w Hw. Qed.
Lemma safe_bind {A B} (p : R A) (f : A -> R B) Q Q' : safe p Q -> (forall a, Q a -> safe (f a) Q') -> safe (p ≫= f) Q'.
Proof.
  intros Hp Hf w Hw. rewrite io_bind_run. destruct (Hp w Hw) as [Hw1 HQ]. destruct (p w).2 as [a|e] eqn:Ea; [|done].
  by apply (Hf a (HQ a eq_refl)).
Qed.
Lemma safe_weaken {A} (p : R A) (Q Q' : A -> Prop) : safe p Q -> (forall a, Q a -> Q' a) -> safe p Q'.
Proof. intros Hp HQ w Hw. destruct (Hp w Hw) as [? Ha]. split; [done|]. intros a ?. by apply HQ, Ha. Qed.
Lemma safe_query {A} E i (f : W -> W * A) Q : others_owned E -> (forall w, all_owned w -> all_owned (f w).1 /\ Q (f w).2) -> safe (query E i f) Q.
Proof.
  intros HE Hf w Hw. unfold query. specialize (HE i w Hw). destruct (ce_db E i); [done|]. destruct (Hf _ HE) as [Hw1 HQ].
  destruct (f _) as [w1 a]. split; [done|]. by intros ? [= <-].
Qed.

Lemma located_user s u pref (c : user_credential U) : located (LocPerUser s u pref) c = true -> uc_server c = s /\ uc_user c = u.
Proof.
  unfold located. destruct pref; [by intros (? & ? & _)%bool_decide_eq_true|]. by intros [[? ?]%bool_decide_eq_true _]%andb_true_iff.
Qed.
Lemma row_at_owned l w row label : all_owned w -> row_at l w = Some (row, label) -> own (loc_server l) (loc_user l) row.
Proof.
  intros [Hu Hs] Hr. destruct l as [s u pref|s]; simpl in *.
  - destruct (head (filter _ (cw_users w))) as [c|] eqn:Eh; [|done]. injection Hr as <- <-. apply head_Some_elem_of in Eh.
    apply list_elem_of_filter in Eh as [Hl Hc]. apply (proj1 (Forall_forall _ _) Hu) in Hc. by apply located_user in Hl as [<- <-].
  - destruct (head (filter _ (cw_shared w))) as [[s' r]|] eqn:Eh; [|done]. injection Hr as <- <-. apply head_Some_elem_of in Eh.
    apply list_elem_of_filter in Eh as [<- Hc]. by apply (proj1 (Forall_forall _ _) Hs) in Hc.
Qed.
Lemma without_row_owned l w : all_owned w -> all_owned (without_row l w).
Proof.
  intros [Hu Hs]. destruct l; (split; [simpl|simpl]); try done; apply Forall_forall; intros x [_ Hx]%list_elem_of_filter;
    [by apply (proj1 (Forall_forall _ _) Hu)|by apply (proj1 (Forall_forall _ _) Hs)].
Qed.
Lemma with_row_owned l f w : (forall row, own (loc_server l) (loc_user l) row -> own (loc_server l) (loc_user l) (f row)) ->
  all_owned w -> all_owned (with_row l f w).
Proof.
  intros Hf [Hu Hs]. destruct l as [s u pref|s]; (split; cbn [with_row cw_users cw_shared]); try done; apply Forall_fmap; (eapply Forall_impl; [eassumption|]).
  - intros c Hc. unfold compose. destruct (located (LocPerUser s u pref) c) eqn:El; [|done]. simpl. apply located_user in El as [<- <-]. by apply Hf.
  - intros [s' r] Hr. simpl. case_decide; [subst s'; by apply Hf|done].
Qed.

Lemma safe_transaction E i l f : others_owned E -> (forall w, all_owned w -> all_owned (f w)) -> safe (transaction E i l f) (fun _ => True).
Proof.
  intros HE Hf. eapply safe_bind; [by apply (safe_query E i _ (fun _ => True))|]. intros _ _. destruct (negb (has_label l)); [apply safe_throw|].
  eapply safe_bind; [by apply (safe_query E (S i) _ (fun _ => True))|]. intros _ _ w Hw. specialize (HE (S (S i)) w Hw).
  cbv beta zeta. destruct (ce_db E (S (S i))); simpl; auto.
Qed.
Lemma safe_wipe l : safe (invalidate_cache_after_change (P := P) l) (fun _ => True).
Proof. intros w Hw. by destruct l. Qed.
Lemma safe_decrypt s o row bytes : own s o row -> bytes = cr_access_token_encrypted row -> safe (decrypt_to_string (P := P) decrypt bytes) (token_of s o).
Proof. intros Ho ->. unfold decrypt_to_string. destruct (decrypt _) as [t|e] eqn:Ed; [|apply safe_throw]. apply safe_ret. left. by exists row. Qed.

Lemma safe_refresh E i l row cfg : others_owned E -> own (loc_server l) (loc_user l) row ->
  safe (refreshes E i l row cfg) (token_of (loc_server l) (loc_user l)).
Proof.
  intros HE Hrow. unfold refresh_locked. eapply safe_bind.
  { apply (safe_query E i _ (fun r => forall c lab, r = Some (c, lab) -> own (loc_server l) (loc_user l) c)); [done|].
    intros w Hw. split; [done|]. intros c lab Hc. by eapply row_at_owned. }
  intros [[current lab]|] Hcur; [|apply safe_throw]. specialize (Hcur current lab eq_refl).
  destruct (negb _); [by eapply safe_decrypt|]. destruct (cr_refresh_token_encrypted row) as [bytes|] eqn:Eb; [|apply safe_throw].
  eapply (safe_bind _ _ (fun rt => decrypt bytes = Ok rt)).
  { unfold decrypt_to_string. destruct (decrypt bytes) as [rt|e]; [by apply safe_ret|apply safe_throw]. }
  intros rt Hrt. eapply (safe_bind _ _ (fun a => forall new, a = Ok new -> granted (loc_server l) (loc_user l) new bytes)).
  { intros w Hw. unfold oauth_refresh. destruct (token_endpoint cfg _ _) as [p reply] eqn:Et. split; [done|]. intros a [= <-] new Hnew.
    exists row, rt, cfg, (cw_provider w). split_and!; [done..|]. by rewrite Et. }
  intros [new|[msg|msg]] Hnew; [|..|apply safe_throw].
  - specialize (Hnew new eq_refl). eapply (safe_bind _ _ (fun access => encrypt (tr_access_token new) = Ok access)).
    { unfold encrypt_string. destruct (encrypt _); [by apply safe_ret|apply safe_throw]. }
    intros access Hacc. eapply (safe_bind _ _ (fun refresh => match tr_refresh_token new with Some r => encrypt r = Ok refresh | None => refresh = bytes end)).
    { destruct (tr_refresh_token new) as [r|]; [|by apply safe_ret]. unfold encrypt_string. destruct (encrypt r); [by apply safe_ret|apply safe_throw]. }
    intros refresh Href. eapply (safe_bind _ _ (fun _ => True)).
    { unfold expiry. destruct (tr_expires_in new); [|by apply safe_ret]. repeat case_match; apply safe_throw || by apply safe_ret. }
    intros expires_at _. eapply safe_bind.
    { apply safe_transaction; [done|]. intros w Hw. apply with_row_owned; [|done]. intros r Hr. by eapply refresh_owned. }
    intros [[]|m] _; [|apply safe_throw]. eapply safe_bind; [apply safe_wipe|]. intros _ _. apply safe_ret. right. by exists new, bytes.
  - eapply safe_bind; [apply safe_transaction; [done|]; intros w Hw; by apply without_row_owned|]. intros _ _.
    eapply safe_bind; [apply safe_wipe|]. intros _ _. apply safe_throw.
Qed.

Lemma locator_server server cfg user ov : loc_server (locator_for server cfg user ov) = server.
Proof. unfold locator_for. by destruct (ac_credential_owner cfg). Qed.
Lemma refresh_locator_same l label : loc_server (refresh_locator l label) = loc_server l /\ loc_user (refresh_locator l label) = loc_user l.
Proof. destruct l as [s u [p|]|s], label; done. Qed.

(** C18: The header made for a call holds a token of the caller's own credential on that server,
    read from the tables or granted by the token endpoint for its refresh token, or, on a
    server with a shared credential, of that one; never another user's or another server's,
    whatever others write to the tables while the resolver waits.  The tables stay so, however
    the call ends. *)
Theorem header_is_callers E server_id cfg user_id overrides w :
  others_owned E -> all_owned w ->
  let '(w', r) := resolves E server_id cfg user_id overrides w in
  all_owned w' /\
  forall inj, r = Ok (Some inj) ->
    exists token, inj = build_injection cfg token /\
      token_of server_id (match ac_credential_owner cfg with PerUser => Some user_id | AdminShared => None end) token.
Proof.
  intros HE Hw. set (o := match ac_credential_owner cfg with PerUser => Some user_id | AdminShared => None end).
  assert (Hs : safe (resolves E server_id cfg user_id overrides) (fun r => forall inj, r = Some inj -> exists token, inj = build_injection cfg token /\ token_of server_id o token)).
  2: { destruct (Hs w Hw) as [Hw' HQ]. destruct (resolves _ _ _ _ _ _) as [w' r]. split; [done|]. intros inj ->. by apply (HQ _ eq_refl). }
  unfold resolve. set (l := locator_for server_id cfg user_id overrides).
  assert (Hl : loc_server l = server_id /\ loc_user l = o).
  { subst l o. unfold locator_for. by destruct (ac_credential_owner cfg). }
  destruct Hl as [Hls Hlo]. eapply safe_bind.
  { apply (safe_query E 0 _ (fun r => forall c lab, r = Some (c, lab) -> own (loc_server l) (loc_user l) c)); [done|].
    intros w0 Hw0. split; [done|]. intros c lab Hc. by eapply row_at_owned. }
  intros [[row label]|] Hrow; [|destruct (needs_credential cfg); [apply safe_throw|by apply safe_ret]].
  specialize (Hrow row label eq_refl). rewrite <- Hls, <- Hlo.
  eapply (safe_bind _ _ (token_of (loc_server l) (loc_user l))).
  - case_bool_decide; [by eapply safe_decrypt|]. case_bool_decide; [|apply safe_throw]. destruct (negb _); [by eapply safe_decrypt|].
    destruct (ac_oauth_cfg cfg) as [oc|]; [|apply safe_throw]. destruct (refresh_locator_same l label) as [<- <-].
    apply safe_refresh; [done|]. by destruct (refresh_locator_same l label) as [-> ->].
  - intros token Ht. apply safe_ret. intros inj [= <-]. by exists token.
Qed.
End Own.

(** * Shared answers *)

Section Shared.
Context {U T V P : Type} `{Uuid U} `{JsonValue V}.
Context (decrypt encrypt : string -> result string string) (parse_token : string -> result string TokenResponse) (oauth_error : string -> option string).
Context (token_endpoint : OAuthClientCfg -> list (string * string) -> P -> P * token_reply) (max_datetime : Z).
Implicit Types (s : RegisteredServer U T server_config) (E : cred_env U P) (w : cred_world U P).
Abbreviation resolves := (resolve (V := V) decrypt encrypt parse_token oauth_error token_endpoint max_datetime).

End Shared.
