(* ===== verification/AuditBodies.v ===== *)
(** * Bodies in the audit log

    What becomes of a captured request, answer, tool argument or tool result on its way to the
    audit log: the switches, redaction, offloading and truncation of both gateways
    ([crates/gateway/src/proxy/body_capture.rs], [crates/mcp-gateway/src/proxy/audit.rs]), the
    store for large bodies ([crates/common/src/blob_store.rs]), and the secrets struck out when
    rows are written ([crates/common/src/audit/sanitize.rs], [types.rs] and [clickhouse.rs]).  The redaction rules, JSON text
    and signed requests are arguments. *)

From Stdlib Require Import Ascii.
From S2P Require Import Prelude Interfaces GatewayDeps Text McpRegistry McpSse AuditRow Glob.

(** ** Secrets in JSON *)

Definition SAFE_SUFFIXES : list string := ["_per_token"; "_tokens"].
Definition SECRET_WORDS : list string := ["password"; "secret"; "token"; "key"; "authorization"; "credential"].
Definition REDACTED : json := Interfaces.JStr "[REDACTED]".

Section Sanitize.
(** [str::to_lowercase]; [serde_json]. *)
Context (to_lowercase : string -> string) (parse_json : string -> option json) (json_text : json -> string).

Definition is_secret_key_name (key : string) : bool :=
  let lower := to_lowercase key in
  if existsb (fun s => ends_with s lower) SAFE_SUFFIXES then false
  else existsb (fun w => contains_str w lower) SECRET_WORDS.

Fixpoint sanitize_value (value : json) : json :=
  match value with
  | Interfaces.JObj map => Interfaces.JObj ((fun p => (p.1, if is_secret_key_name p.1 then REDACTED else sanitize_value p.2)) <$> map)
  | Interfaces.JArr items => Interfaces.JArr (sanitize_value <$> items)
  | _ => value
  end.
Definition sanitize_detail (detail : option json) : option json := sanitize_value <$> detail.
Definition sanitize_body_if_json (body : option string) : option string :=
  body ← body;
  match parse_json body with
  | None => Some body
  | Some value => Some (json_text (sanitize_value value))
  end.

(** The text of a detail in its row: the tables of [clickhouse.rs] that keep one whole. *)
Definition detail_str (detail : option json) : option string := json_text <$> sanitize_detail detail.
Definition detail_column (t : LogType) (detail : option json) : option string :=
  match t with
  | LogAudit | LogGateway | LogMcp => detail_str detail
  | LogApp => json_text <$> detail
  | LogAccess => None
  end.
End Sanitize.

(** ** The store for large bodies *)

Inductive BlobError :=
  | NotConfigured
  | Signing (message : string)
  | BlobTransport (message : string)
  | BadStatus (status : Z) (body : string)
  | BadUrl (message : string).
Definition blob_error_text (e : BlobError) : string :=
  match e with
  | NotConfigured => "blob store not configured (set S3_BUCKET + S3_ENDPOINT_URL to enable)"
  | Signing m => "S3 SigV4 signing failed: " +:+ m
  | BlobTransport m => "S3 HTTP transport failed: " +:+ m
  | BadStatus status body => "S3 returned HTTP " +:+ pretty status +:+ ": " +:+ body
  | BadUrl m => "malformed s3:// URL: " +:+ m
  end.
Inductive BlobDecision := Inline (content : string) | BlobOffloaded (url : string) (bytes : Z).
Record BlobKeyHint := { bh_table : string; bh_log_id : string; bh_field : string }.

(** A store as the capture uses it. *)
Record BlobStore := {
  can_offload : bool;
  store_if_oversize : BlobKeyHint -> string -> Z -> result BlobError BlobDecision;
}.
Definition InlineStore : BlobStore := {| can_offload := false; store_if_oversize := fun _ content _ => Ok (Inline content) |}.

Definition text_len (s : string) : Z := Z.of_nat (String.length s).
(** [is_char_boundary]. *)
Definition byte_at (n : nat) (s : string) : option ascii := String.get n s.
Definition is_char_boundary (n : nat) (s : string) : bool :=
  match n with
  | O => true
  | _ => match byte_at n s with Some c => negb (continuation c) | None => (n =? String.length s)%nat end
  end.
(** What [signed_request] makes of an answer; none where it panics, since a text is only
    shortened between two characters. *)
Definition s3_outcome (status : Z) (bytes : string) : option (result BlobError string) :=
  if (200 <=? status) && (status <? 300) then Some (Ok bytes) else
  let snippet := from_utf8_lossy bytes in
  if 1024 <? text_len snippet then
    if is_char_boundary 1024 snippet then Some (Err (BadStatus status (str_take 1024 snippet +:+ "..."))) else None
  else Some (Err (BadStatus status snippet)).
(** [trim_end_matches('/')]. *)
Fixpoint trim_slashes (s : string) : string :=
  match s with
  | EmptyString => EmptyString
  | String c s =>
      match trim_slashes s with
      | EmptyString => if decide (c = "/"%char) then EmptyString else String c EmptyString
      | s => String c s
      end
  end.

Record S3Config := { s3_endpoint : string; s3_bucket : string; s3_path_style : bool }.
Section S3.
Context (cfg : S3Config).
(** [url::Url::parse]: the scheme, the host and the port of a URL. *)
Context (parse_url : string -> result string (string * option string * option Z)).
(** [signed_request] of a method, a URL and a body. *)
Context (signed_request : string -> string -> string -> result BlobError string).

Definition object_url (key : string) : result BlobError string :=
  let endpoint := trim_slashes (s3_endpoint cfg) in
  if s3_path_style cfg then Ok (endpoint +:+ "/" +:+ s3_bucket cfg +:+ "/" +:+ key)
  else match parse_url endpoint with
       | Err e => Err (BadUrl ("S3 endpoint: " +:+ e))
       | Ok (_, None, _) => Err (BadUrl "S3 endpoint missing host for virtual-host style")
       | Ok (scheme, Some host, port) =>
           Ok (scheme +:+ "://" +:+ s3_bucket cfg +:+ "." +:+ host +:+ match port with Some p => ":" +:+ pretty p | None => "" end +:+ "/" +:+ key)
       end.
Definition stored_url (key : string) : string := "s3://" +:+ s3_bucket cfg +:+ "/" +:+ key.
(** [{:?}] on text without quotes, backslashes or control characters. *)
Definition quoted (s : string) : string := String "034" (s +:+ String "034" "").
Definition parse_s3_url (url : string) : result BlobError string :=
  match strip_prefix "s3://" url with
  | None => Err (BadUrl ("not an s3:// URL: " +:+ url))
  | Some key =>
      match split_once "/" key with
      | None => Err (BadUrl ("missing key path: " +:+ url))
      | Some (bucket, key_part) =>
          if negb (bool_decide (bucket = s3_bucket cfg)) then
            Err (BadUrl ("refusing cross-bucket fetch — stored URL bucket " +:+ quoted bucket +:+ " != configured " +:+ quoted (s3_bucket cfg)))
          else Ok key_part
      end
  end.
(** Two digits, a zero before the first where there is one. *)
Definition two_digits (n : Z) : string := if n <? 10 then "0" +:+ pretty n else pretty n.
(** [date] is the day: its year as text, month and day of the month. *)
Definition blob_key (hint : BlobKeyHint) (date : string * Z * Z) : string :=
  let '(year, month, day) := date in
  "bodies/" +:+ bh_table hint +:+ "/" +:+ year +:+ "/" +:+ two_digits month +:+ "/" +:+ two_digits day +:+ "/"
  +:+ bh_log_id hint +:+ "-" +:+ bh_field hint +:+ ".json".
Definition S3Store (date : string * Z * Z) : BlobStore :=
  {| can_offload := true;
     store_if_oversize := fun hint content inline_threshold =>
       if text_len content <=? inline_threshold then Ok (Inline content) else
       let key := blob_key hint date in
       match object_url key with
       | Err e => Err e
       | Ok url =>
           match signed_request "PUT" url content with
           | Err e => Err e
           | Ok _ => Ok (BlobOffloaded (stored_url key) (text_len content))
           end
       end |}.
Definition blob_fetch (url : string) : result BlobError string :=
  match parse_s3_url url with
  | Err e => Err e
  | Ok key => match object_url key with Err e => Err e | Ok url => signed_request "GET" url "" end
  end.

(** *** The rule by which the bucket drops old bodies *)

Definition lifecycle_xml (days : Z) : string :=
  "<LifecycleConfiguration><Rule><ID>expire-audit-bodies</ID><Status>Enabled</Status><Filter><Prefix>bodies/</Prefix></Filter><Expiration><Days>"
  +:+ pretty days +:+ "</Days></Expiration></Rule></LifecycleConfiguration>".
Definition days_max : Z := 4294967295.
(** What is between the tags [<t>] and [</t>]. *)
Definition tagged (t text : string) : option string :=
  '(_, rest) ← split_str ("<" +:+ t +:+ ">") text;
  '(inner, _) ← split_str ("</" +:+ t +:+ ">") rest;
  Some inner.
(** A filter that is not closed reads as an empty one. *)
Definition rule_covers (rule : string) : bool :=
  match split_str "<Filter>" rule with
  | None => true
  | Some (_, rest) => contains_str "<Prefix>bodies" (default "" (fst <$> split_str "</Filter>" rest))
  end.
Definition rule_days (rule : string) : option Z :=
  if negb (contains_str "<Status>Enabled</Status>" rule) then None
  else if negb (rule_covers rule) then None
  else days ← (tagged "Expiration" rule ≫= tagged "Days"); parse_uint days_max (trim days).
Definition least (a : option Z) (b : Z) : option Z := Some match a with Some a => Z.min a b | None => b end.
(** Every turn leaves less text, so its length is fuel enough. *)
Fixpoint lifecycle_loop (fuel : nat) (remaining : string) (min_days : option Z) : option Z :=
  match fuel, split_str "<Rule>" remaining with
  | S fuel, Some (_, rest) =>
      match split_str "</Rule>" rest with
      | None => min_days
      | Some (rule, remaining) => lifecycle_loop fuel remaining (match rule_days rule with Some d => least min_days d | None => min_days end)
      end
  | _, _ => min_days
  end.
Definition parse_lifecycle_days (xml : string) : option Z := lifecycle_loop (String.length xml) xml None.

(** A query on the bucket itself. *)
Definition bucket_url (suffix : string) : result BlobError string :=
  let endpoint := trim_slashes (s3_endpoint cfg) in
  if s3_path_style cfg then Ok (endpoint +:+ "/" +:+ s3_bucket cfg +:+ suffix)
  else match parse_url endpoint with
       | Err e => Err (BadUrl ("S3 endpoint: " +:+ e))
       | Ok (_, None, _) => Err (BadUrl "S3 endpoint missing host for virtual-host style")
       | Ok (scheme, Some host, port) =>
           Ok (scheme +:+ "://" +:+ s3_bucket cfg +:+ "." +:+ host +:+ match port with Some p => ":" +:+ pretty p | None => "" end +:+ "/" +:+ suffix)
       end.
(** [valid_utf8]: the answer as text, empty where it is not UTF-8. *)
Definition lifecycle_days (valid_utf8 : string -> bool) : result BlobError (option Z) :=
  match bucket_url "?lifecycle" with
  | Err e => Err e
  | Ok url =>
      match signed_request "GET" url "" with
      | Ok xml => Ok (parse_lifecycle_days (if valid_utf8 xml then xml else ""))
      | Err (BadStatus status body as e) =>
          if (status =? 404) || contains_str "NoSuchLifecycleConfiguration" body then Ok None else Err e
      | Err e => Err e
      end
  end.
Definition set_lifecycle_days (days : Z) : result BlobError unit :=
  if days =? 0 then Err (Signing "lifecycle days must be > 0") else
  match bucket_url "?lifecycle" with
  | Err e => Err e
  | Ok url => match signed_request "PUT" url (lifecycle_xml days) with Err e => Err e | Ok _ => Ok tt end
  end.
End S3.

(** ** Capture *)

Module BodyCaptureStatus.
Inductive t := Captured | Truncated | Disabled | FromCache | Offloaded | Error.
Definition as_str (s : t) : string :=
  match s with
  | Captured => "captured" | Truncated => "truncated" | Disabled => "disabled"
  | FromCache => "from_cache" | Offloaded => "offloaded" | Error => "error"
  end.
End BodyCaptureStatus.

(** The walk back to a character. *)
Fixpoint back_to_boundary (end_ : nat) (s : string) : nat :=
  match end_ with
  | O => O
  | S n => if is_char_boundary end_ s then end_ else back_to_boundary n s
  end.
Definition truncated (max_bytes : Z) (s : string) : string :=
  let budget := Z.to_nat (Z.max 0 (max_bytes - 3)) in
  str_take (back_to_boundary (Nat.min budget (String.length s)) s) s +:+ "...".

(** Whether a field was cut, and whether it was offloaded. *)
Record capture_flags := { cf_truncated : bool; cf_offloaded : bool }.

(** What both gateways do with a text once it is redacted. *)
Definition fit_body (max_bytes : Z) (store : BlobStore) (hint : BlobKeyHint) (s : string) (f : capture_flags)
    : string * capture_flags :=
  if text_len s <=? max_bytes then (s, f) else
  let cut s := (truncated max_bytes s, {| cf_truncated := true; cf_offloaded := cf_offloaded f |}) in
  if can_offload store then
    match store_if_oversize store hint s max_bytes with
    | Ok (BlobOffloaded url _) => (url, {| cf_truncated := cf_truncated f; cf_offloaded := true |})
    | Ok (Inline returned) => cut returned
    | Err e => cut ("[blob offload failed: " +:+ blob_error_text e +:+ "]")
    end
  else cut s.

(** The redaction rules: none at all, or what they make of a text. *)
Record Redactor := { rd_is_empty : bool; redact_blob : string -> string }.

Definition apply_mcp_body_capture (s : string) (max_bytes : Z) (redact_pii : bool) (blob_redactor : Redactor)
    (blob_store : BlobStore) (trace_id field : string) (f : capture_flags) : string * capture_flags :=
  let s := if redact_pii && negb (rd_is_empty blob_redactor) then redact_blob blob_redactor s else s in
  fit_body max_bytes blob_store {| bh_table := "mcp_logs"; bh_log_id := trace_id; bh_field := field |} s f.
Definition process_body (s : string) (max_bytes : Z) (redact_pii : bool) (redaction : Redactor)
    (blob_store : BlobStore) (trace_id field : string) (f : capture_flags) : string * capture_flags :=
  let s := if redact_pii then redact_blob redaction s else s in
  fit_body max_bytes blob_store {| bh_table := "gateway_logs"; bh_log_id := trace_id; bh_field := field |} s f.

Record BodyCapture := {
  bc_request : option string; bc_response : option string;
  bc_request_bytes : option Z; bc_response_bytes : option Z; bc_status : option BodyCaptureStatus.t;
}.
Definition BodyCapture_disabled : BodyCapture :=
  {| bc_request := None; bc_response := None; bc_request_bytes := None; bc_response_bytes := None;
     bc_status := Some BodyCaptureStatus.Disabled |}.
(** [as u32]. *)
Definition as_u32 (n : Z) : Z := n mod 2 ^ 32.
Definition capture_status (request response : option string) (f : capture_flags) : BodyCaptureStatus.t :=
  match request, response with
  | None, None => BodyCaptureStatus.Disabled
  | _, _ =>
      if cf_offloaded f then BodyCaptureStatus.Offloaded
      else if cf_truncated f then BodyCaptureStatus.Truncated
      else BodyCaptureStatus.Captured
  end.

(** The settings of the capture. *)
Record capture_config := { cc_request : bool; cc_response : bool; cc_max_bytes : Z; cc_redact_pii : bool }.
Definition captured (process : string -> capture_flags -> string * capture_flags) (raw : option string) (f : capture_flags)
    : option string * option Z * capture_flags :=
  match raw with
  | None => (None, None, f)
  | Some raw => let '(s, f) := process raw f in (Some s, Some (as_u32 (text_len raw)), f)
  end.
Definition captured_pair (process : string -> string -> capture_flags -> string * capture_flags) (fields : string * string)
    (request response : option string) : BodyCapture :=
  let '(request, request_bytes, f) := captured (process fields.1) request {| cf_truncated := false; cf_offloaded := false |} in
  let '(response, response_bytes, f) := captured (process fields.2) response f in
  {| bc_request := request; bc_response := response; bc_request_bytes := request_bytes; bc_response_bytes := response_bytes;
     bc_status := Some (capture_status request response f) |}.
Definition prepare_body_capture (cfg : capture_config) (redaction : Redactor) (blob_store : BlobStore) (trace_id : string)
    (request : string) (response : option string) : BodyCapture :=
  if negb (cc_request cfg) && negb (cc_response cfg) then BodyCapture_disabled else
  captured_pair (fun field s => process_body s (cc_max_bytes cfg) (cc_redact_pii cfg) redaction blob_store trace_id field)
    ("request", "response")
    (if cc_request cfg then Some (from_utf8_lossy request) else None)
    (if cc_response cfg then from_utf8_lossy <$> response else None).
(** The capture of [emit_tools_call_audit]: the arguments, and the event timeline or the result. *)
Definition prepare_tool_capture (cfg : capture_config) (blob_redactor : Redactor) (blob_store : BlobStore) (call_trace_id : string)
    (logged_arguments : option string) (stream_audit_body result_text : option string) : BodyCapture :=
  if negb (cc_request cfg) && negb (cc_response cfg) then BodyCapture_disabled else
  captured_pair (fun field s => apply_mcp_body_capture s (cc_max_bytes cfg) (cc_redact_pii cfg) blob_redactor blob_store call_trace_id field)
    ("arguments", "result")
    (if cc_request cfg then logged_arguments else None)
    (if cc_response cfg then match stream_audit_body with Some stream => Some stream | None => result_text end else None).

(** [BodyCapture::apply]. *)
Definition with_body_capture (c : BodyCapture) (e : AuditEntry) : AuditEntry :=
  let or {A} (new old : option A) : option A := match new with Some x => Some x | None => old end in
  {| ae_log_type := ae_log_type e; ae_user_id := ae_user_id e; ae_user_email := ae_user_email e;
     ae_api_key_id := ae_api_key_id e; ae_api_key_lineage_id := ae_api_key_lineage_id e;
     ae_action := ae_action e; ae_resource := ae_resource e; ae_resource_id := ae_resource_id e;
     ae_detail := ae_detail e; ae_ip_address := ae_ip_address e; ae_user_agent := ae_user_agent e;
     ae_trace_id := ae_trace_id e; ae_session_id := ae_session_id e;
     ae_request_body := or (bc_request c) (ae_request_body e);
     ae_response_body := or (bc_response c) (ae_response_body e);
     ae_body_capture_status := or (BodyCaptureStatus.as_str <$> bc_status c) (ae_body_capture_status e);
     ae_request_body_bytes := or (bc_request_bytes c) (ae_request_body_bytes e);
     ae_response_body_bytes := or (bc_response_bytes c) (ae_response_body_bytes e) |}.
