(* ===== verification/AuditBodiesSpec.v ===== *)
(** * What the audit log keeps of a body

    A sanitised value has no secret left under its name and is otherwise as it was; the cells of
    a row hold what their status says; an offloaded body is fetched from where it was put. *)
From Stdlib Require Import Ascii.
From S2P Require Import Prelude Interfaces GatewayDeps Text AuditRow McpRegistry Glob McpSse McpSseSpec AuditBodies.

(** ** Secrets *)

(** Where a value is in a JSON tree. *)
Inductive json_step := AtKey (k : string) | AtIndex (i : nat).
Definition json_child (s : json_step) (v : json) : option json :=
  match s, v with
  | AtKey k, Interfaces.JObj _ => json_get k v
  | AtIndex i, Interfaces.JArr items => items !! i
  | _, _ => None
  end.
Fixpoint json_at (path : list json_step) (v : json) : option json :=
  match path with [] => Some v | s :: path => json_child s v ≫= json_at path end.

Lemma json_ind_all (P : json -> Prop) :
  (forall v, match v with Interfaces.JObj _ | Interfaces.JArr _ => False | _ => True end -> P v) ->
  (forall items, Forall P items -> P (Interfaces.JArr items)) ->
  (forall map, Forall (fun p => P p.2) map -> P (Interfaces.JObj map)) -> forall v, P v.
Proof.
  intros Hleaf Harr Hobj. fix IH 1. intros v. destruct v as [|b|z|t|items|map]; [by apply Hleaf..| |].
  - apply Harr. induction items as [|x items IHi]; constructor; [exact (IH x)|exact IHi].
  - apply Hobj. induction map as [|[k x] map IHm]; constructor; [exact (IH x)|exact IHm].
Qed.

Section Secrets.
Context (to_lowercase : string -> string) (parse_json : string -> option json) (json_text : json -> string).
Abbreviation secret := (is_secret_key_name to_lowercase).
Abbreviation clean := (sanitize_value to_lowercase).
Definition secret_step (s : json_step) : bool := match s with AtKey k => secret k | AtIndex _ => false end.

Lemma get_clean k l : json_get k (clean (Interfaces.JObj l)) =
  (fun v => if secret k then REDACTED else clean v) <$> json_get k (Interfaces.JObj l).
Proof.
  cbn [sanitize_value]. simpl. rewrite list_find_fmap. unfold compose. simpl.
  destruct (list_find (fun p : string * json => p.1 = k) l) as [[i [k' v]]|] eqn:E; [|done].
  apply list_find_Some in E as (_ & <- & _). done.
Qed.
Lemma child_clean s v : json_child s (clean v) = (fun v => if secret_step s then REDACTED else clean v) <$> json_child s v.
Proof.
  destruct s as [k|i], v; try done; cbn [json_child secret_step].
  - apply get_clean.
  - simpl. by rewrite list_lookup_fmap.
Qed.
Lemma at_clean path v : forallb (fun s => negb (secret_step s)) path = true -> json_at path (clean v) = clean <$> json_at path v.
Proof.
  revert v. induction path as [|s path IH]; intros v; [done|]. simpl. intros [Hs Hp]%andb_true_iff. rewrite child_clean.
  destruct (json_child s v) as [u|]; [|done]. simpl. apply negb_true_iff in Hs. rewrite Hs. by apply IH.
Qed.
Lemma at_app p q v : json_at (p ++ q) v = json_at p v ≫= json_at q.
Proof. revert v. induction p as [|s p IH]; intros v; [done|]. simpl. destruct (json_child s v); [apply IH|done]. Qed.

(** [x] is [v] with its secrets struck out: at any depth, what was under a key that reads as a
    secret is the mark and has nothing below it; what no such key leads to is where it was, and
    a text, number or other leaf among it as it was. *)
Definition struck_out (v x : json) : Prop := forall path,
  (forall p k q, path = p ++ AtKey k :: q -> forallb (fun s => negb (secret_step s)) p = true -> secret k = true ->
     json_at path x = if decide (q = []) then (fun _ => REDACTED) <$> json_at path v else None) /\
  (forallb (fun s => negb (secret_step s)) path = true ->
     (is_Some (json_at path x) <-> is_Some (json_at path v)) /\
     forall leaf, json_at path v = Some leaf -> match leaf with Interfaces.JObj _ | Interfaces.JArr _ => True | _ => json_at path x = Some leaf end).
Lemma clean_strikes_out v : struck_out v (clean v).
Proof.
  intros path. split.
  - intros p k q -> Hp Hk. rewrite !at_app, (at_clean p v Hp). destruct (json_at p v) as [u|]; [|by case_decide].
    cbn [fmap option_fmap option_map mbind option_bind json_at]. rewrite (child_clean (AtKey k) u). cbn [secret_step]. rewrite Hk.
    destruct (json_child (AtKey k) u) as [x|]; cbn [fmap option_fmap option_map mbind option_bind]; [|by case_decide]. destruct q as [|s q]; [done|]. simpl. by destruct s.
  - intros Hp. rewrite (at_clean path v Hp). split; [by rewrite fmap_is_Some|]. intros leaf ->. by destruct leaf.
Qed.
Lemma clean_twice v : clean (clean v) = clean v.
Proof.
  induction v as [v Hv|items IH|map IH] using json_ind_all; cbn [sanitize_value].
  - by destruct v.
  - f_equal. rewrite <- list_fmap_compose. by apply Forall_fmap_ext_1.
  - f_equal. rewrite <- list_fmap_compose. apply Forall_fmap_ext_1. eapply Forall_impl; [exact IH|]. intros [k x] Hx. unfold compose. simpl in *.
    f_equal. destruct (secret k); [done|exact Hx].
Qed.

(** C26: What the audit, gateway and MCP tables keep of a detail, and of a captured body that
    parses as JSON, is the text of the value with its secrets struck out, at any depth, and
    nothing else of it changed; writing such a value again changes nothing.  A body that does
    not parse is kept as it is, and so is the detail of an application log row. *)
Theorem secrets_struck_out v :
  (forall t, t ∈ [LogAudit; LogGateway; LogMcp] ->
     exists x, detail_column to_lowercase json_text t (Some v) = Some (json_text x) /\ struck_out v x /\
       detail_column to_lowercase json_text t (Some x) = Some (json_text x)) /\
  (forall body, parse_json body = Some v ->
     exists x, sanitize_body_if_json to_lowercase parse_json json_text (Some body) = Some (json_text x) /\ struck_out v x) /\
  (forall body, parse_json body = None -> sanitize_body_if_json to_lowercase parse_json json_text (Some body) = Some body) /\
  detail_column to_lowercase json_text LogApp (Some v) = Some (json_text v).
Proof.
  split_and!; [| | |done].
  - intros t Ht. exists (clean v). split_and!; [|apply clean_strikes_out|].
    + set_unfold in Ht. by destruct Ht as [->|[->|[->|[]]]].
    + unfold detail_column, detail_str, sanitize_detail. cbn [fmap option_fmap option_map]. rewrite clean_twice. set_unfold in Ht. by destruct Ht as [->|[->|[->|[]]]].
  - intros body Hb. exists (clean v). split; [|apply clean_strikes_out]. unfold sanitize_body_if_json. simpl. by rewrite Hb.
  - intros body Hb. unfold sanitize_body_if_json. simpl. by rewrite Hb.
Qed.
End Secrets.

(** ** Cells *)

Lemma back_le n s : (back_to_boundary n s <= n)%nat.
Proof. induction n as [|n IH]; [done|]. cbn [back_to_boundary]. destruct (is_char_boundary (S n) s); lia. Qed.
Lemma back_is n s : is_char_boundary (back_to_boundary n s) s = true.
Proof. induction n as [|n IH]; [done|]. cbn [back_to_boundary]. by destruct (is_char_boundary (S n) s) eqn:E. Qed.
Lemma str_take_len n s : (String.length (str_take n s) <= n)%nat.
Proof. revert s. induction n as [|n IH]; intros [|c s]; simpl; try lia. specialize (IH s). lia. Qed.
Lemma truncated_fits max s : 3 <= max -> text_len (truncated max s) <= max.
Proof.
  intros Hm. unfold truncated, text_len. rewrite str_length_app.
  pose proof (str_take_len (back_to_boundary (Nat.min (Z.to_nat (Z.max 0 (max - 3))) (String.length s)) s) s).
  pose proof (back_le (Nat.min (Z.to_nat (Z.max 0 (max - 3))) (String.length s)) s). simpl. lia.
Qed.

(** What a cell holds of a text. *)
Inductive cell_of (max : Z) (store : BlobStore) (hint : BlobKeyHint) (s : string) : string -> bool -> bool -> Prop :=
  | CellWhole : cell_of max store hint s s false false
  | CellUrl url n : max < text_len s -> can_offload store = true -> store_if_oversize store hint s max = Ok (BlobOffloaded url n) ->
      cell_of max store hint s url false true
  | CellCut s' n : max < text_len s -> (can_offload store = false -> s' = s) -> is_char_boundary n s' = true ->
      (3 <= max -> text_len (str_take n s' +:+ "...") <= max) -> cell_of max store hint s (str_take n s' +:+ "...") true false.
Lemma fit_cell max store hint s f cell f' : fit_body max store hint s f = (cell, f') ->
  exists cut off, cell_of max store hint s cell cut off /\ cf_truncated f' = cf_truncated f || cut /\ cf_offloaded f' = cf_offloaded f || off /\
    (text_len s <= max -> cut = false /\ off = false) /\ (max < text_len s -> cut || off = true).
Proof.
  unfold fit_body. destruct (text_len s <=? max) eqn:El; zbool.
  { intros [= <- <-]. exists false, false. rewrite !orb_false_r. split_and!; [constructor|done|done|done|intros; exfalso; lia]. }
  assert (Hcut : forall s', (can_offload store = false -> s' = s) ->
    (truncated max s', {| cf_truncated := true; cf_offloaded := cf_offloaded f |}) = (cell, f') ->
    exists cut off, cell_of max store hint s cell cut off /\ cf_truncated f' = cf_truncated f || cut /\ cf_offloaded f' = cf_offloaded f || off /\
      (text_len s <= max -> cut = false /\ off = false) /\ (max < text_len s -> cut || off = true)).
  { intros s' Hs' [= <- <-]. exists true, false. rewrite orb_true_r, orb_false_r. split_and!; [|done|done|intros; exfalso; lia|done].
    apply CellCut; [lia|done|apply back_is|]. by intros ?%(truncated_fits _ s'). }
  destruct (can_offload store) eqn:Eo; [|by apply Hcut].
  destruct (store_if_oversize store hint s max) as [[returned|url n]|e] eqn:Es; [by apply Hcut| |by apply Hcut].
  intros [= <- <-]. exists false, true. rewrite orb_true_r, orb_false_r. split_and!; [|done|done|intros; exfalso; lia|done]. by eapply CellUrl.
Qed.

Section Rows.
Context (cfg : capture_config) (redaction : Redactor) (store : BlobStore) (trace_id : string).
Definition redacted (s : string) : string := if cc_redact_pii cfg then redact_blob redaction s else s.
Definition hint_of (field : string) : BlobKeyHint := {| bh_table := "gateway_logs"; bh_log_id := trace_id; bh_field := field |}.

(** One field: the text it had, and its cell. *)
Definition field_cell (field : string) (raw cell : option string) (bytes : option Z) (cut off : bool) : Prop :=
  match raw with
  | None => cell = None /\ bytes = None /\ cut = false /\ off = false
  | Some raw => exists c, cell = Some c /\ bytes = Some (as_u32 (text_len raw)) /\ cell_of (cc_max_bytes cfg) store (hint_of field) (redacted raw) c cut off /\
      (text_len (redacted raw) <= cc_max_bytes cfg -> cut = false /\ off = false) /\ (cc_max_bytes cfg < text_len (redacted raw) -> cut || off = true)
  end.
Lemma captured_field field raw f cell bytes f' :
  captured (fun s => process_body s (cc_max_bytes cfg) (cc_redact_pii cfg) redaction store trace_id field) raw f = (cell, bytes, f') ->
  exists cut off, field_cell field raw cell bytes cut off /\ cf_truncated f' = cf_truncated f || cut /\ cf_offloaded f' = cf_offloaded f || off.
Proof.
  unfold captured. destruct raw as [raw|].
  - unfold process_body. destruct (fit_body _ _ _ _ f) as [s f1] eqn:Ef. intros [= <- <- <-].
    destruct (fit_cell _ _ _ _ _ _ _ Ef) as (cut & off & Hc & Ht & Ho & Hw & Hl). exists cut, off. split; [|done]. exists s. split_and!; done.
  - intros [= <- <- <-]. exists false, false. rewrite !orb_false_r. done.
Qed.

(** A row holds of a request and its answer what its status says.  A field that is captured has
    a cell, with the size it had; the cell is the whole text as it is redacted, or, where that
    is longer than the setting allows, the address it was offloaded to, or a beginning of it
    that ends between two characters and fits.  The status is [Captured] only when every cell
    is whole, [Offloaded] when one is an address, [Truncated] otherwise. *)
Theorem row_holds_what_status_says request response :
  let raw_request := if cc_request cfg then Some (from_utf8_lossy request) else None in
  let raw_response := if cc_response cfg then from_utf8_lossy <$> response else None in
  let c := prepare_body_capture cfg redaction store trace_id request response in
  exists cut off cut' off', field_cell "request" raw_request (bc_request c) (bc_request_bytes c) cut off /\
    field_cell "response" raw_response (bc_response c) (bc_response_bytes c) cut' off' /\
    bc_status c = Some (if bool_decide (raw_request = None /\ raw_response = None) then BodyCaptureStatus.Disabled
                        else if off || off' then BodyCaptureStatus.Offloaded
                        else if cut || cut' then BodyCaptureStatus.Truncated else BodyCaptureStatus.Captured).
Proof.
  intros raw_request raw_response c. subst c. unfold prepare_body_capture. destruct (negb (cc_request cfg) && negb (cc_response cfg)) eqn:En.
  { apply andb_true_iff in En as [E1%negb_true_iff E2%negb_true_iff]. subst raw_request raw_response. rewrite E1, E2. by exists false, false, false, false. }
  unfold captured_pair. cbn [fst snd]. fold raw_request raw_response.
  destruct (captured (fun s => process_body s _ _ _ _ _ "request") raw_request _) as [[cell bytes] f1] eqn:E1.
  destruct (captured (fun s => process_body s _ _ _ _ _ "response") raw_response f1) as [[cell' bytes'] f2] eqn:E2.
  apply captured_field in E1 as (cut & off & Hc & Ht & Ho). apply captured_field in E2 as (cut' & off' & Hc' & Ht' & Ho').
  cbn [cf_truncated cf_offloaded] in *. exists cut, off, cut', off'. cbn [bc_request bc_request_bytes bc_response bc_response_bytes bc_status]. split_and!; [done..|].
  f_equal. unfold capture_status. rewrite Ht', Ho', Ht, Ho. simpl.
  destruct raw_request as [r|], raw_response as [r'|]; simpl in Hc, Hc'; destruct_and?; try destruct Hc as (? & -> & _); try destruct Hc' as (? & -> & _);
    subst; try rewrite bool_decide_eq_false_2 by naive_solver; try rewrite bool_decide_eq_true_2 by naive_solver; try done.
Qed.
End Rows.

(** ** The store *)

Lemma split_once_no c a b : has_char c a = false -> split_once c (a +:+ String c b) = Some (a, b).
Proof. apply split_once_app. Qed.
(** An address the store gave leads back to where the body was put. *)
Lemma offloaded_is_fetched cfg parse_url signed_request date hint content threshold url n :
  has_char "/"%char (s3_bucket cfg) = false ->
  store_if_oversize (S3Store cfg parse_url signed_request date) hint content threshold = Ok (BlobOffloaded url n) ->
  n = text_len content /\ threshold < text_len content /\
  exists object answer, signed_request "PUT" object content = Ok answer /\ blob_fetch cfg parse_url signed_request url = signed_request "GET" object "".
Proof.
  intros Hb. simpl. destruct (text_len content <=? threshold) eqn:El; zbool; [done|]. destruct (object_url cfg parse_url (blob_key hint date)) as [object|e] eqn:Eu; [|done].
  destruct (signed_request "PUT" object content) as [answer|e] eqn:Ep; [|done]. intros [= <- <-]. split_and!; [done|done|].
  exists object, answer. split; [done|]. unfold blob_fetch, parse_s3_url, stored_url.
  assert (strip_prefix "s3://" ("s3://" +:+ s3_bucket cfg +:+ "/" +:+ blob_key hint date) = Some (s3_bucket cfg +:+ "/" +:+ blob_key hint date)) as ->
    by (by apply strip_prefix_Some).
  change ("/" +:+ blob_key hint date) with (String "/" (blob_key hint date)). rewrite split_once_app by done.
  rewrite bool_decide_eq_true_2 by done. cbn [negb]. by rewrite Eu.
Qed.

(** * Bodies in the audit log, on concrete values *)

Abbreviation S x := (Interfaces.JStr x).
Definition login_args : json :=
  Interfaces.JObj [("user", S "alice"); ("nested", Interfaces.JObj [("API_Key", S "sk-live"); ("prompt_tokens", Interfaces.JNum 12)]); ("list", Interfaces.JArr [Interfaces.JObj [("refresh_token", S "rt")]])].
Definition show_login (v : json) : string :=
  match json_at [AtKey "nested"; AtKey "API_Key"] v with Some (Interfaces.JStr t) => t | _ => "" end.
Lemma secrets_struck_out_witness :
  detail_column to_ascii_lowercase show_login LogMcp (Some login_args) = Some "[REDACTED]" /\
  detail_column to_ascii_lowercase show_login LogApp (Some login_args) = Some "sk-live".
Proof.
  destruct (secrets_struck_out to_ascii_lowercase (fun _ => None) show_login login_args) as (Hd & _ & _ & Ha). split; [|exact Ha].
  destruct (Hd LogMcp) as (x & -> & Hx & _); [by right; right; left|].
  destruct (Hx [AtKey "nested"; AtKey "API_Key"]) as [Hs _]. unfold show_login. by rewrite (Hs [AtKey "nested"] "API_Key" []).
Defined.
Example login_args_cleaned :
  json_at [AtKey "nested"; AtKey "prompt_tokens"] (sanitize_value to_ascii_lowercase login_args) = Some (Interfaces.JNum 12) /\
  json_at [AtKey "list"; AtIndex 0; AtKey "refresh_token"] (sanitize_value to_ascii_lowercase login_args) = Some REDACTED.
Proof. vm_compute. done. Qed.
(** A list of tokens is spared like a count of them. *)
Example token_list_is_spared : sanitize_value to_ascii_lowercase (Interfaces.JObj [("refresh_tokens", S "rt")]) = Interfaces.JObj [("refresh_tokens", S "rt")].
Proof. vm_compute. done. Qed.

(** A body cut to size is no JSON any more, so the secrets in what is left of it stay. *)
Definition dq : string := String "034" "".
Definition secret_body : string := "{" +:+ dq +:+ "api_key" +:+ dq +:+ ":" +:+ dq +:+ "sk-live-1234" +:+ dq +:+ "," +:+ dq +:+ "text" +:+ dq +:+ ":" +:+ dq +:+ "a long text" +:+ dq +:+ "}".
Definition parse_body (s : string) : option json :=
  if decide (s = secret_body) then Some (Interfaces.JObj [("api_key", S "sk-live-1234"); ("text", S "a long text")]) else None.
Definition plain_rules : Redactor := {| rd_is_empty := true; redact_blob := fun s => s |}.
Definition keep (max : Z) : capture_config := {| cc_request := true; cc_response := false; cc_max_bytes := max; cc_redact_pii := false |}.
Definition cell (max : Z) : option string :=
  sanitize_body_if_json to_ascii_lowercase parse_body (fun _ => "(struck out)") (bc_request (prepare_body_capture (keep max) plain_rules InlineStore "t" secret_body None)).
Example cut_body_keeps_secret : cell 100 = Some "(struck out)" /\ contains_str "sk-live-1234" (default "" (cell 40)) = true.
Proof. vm_compute. done. Qed.
(** Below three bytes the mark alone is longer than the setting. *)
Example mark_exceeds_limit : bc_request (prepare_body_capture (keep 1) plain_rules InlineStore "t" "hello" None) = Some "...".
Proof. vm_compute. done. Qed.
(** The cut ends before a character that does not fit. *)
Example cut_between_characters :
  bc_request (prepare_body_capture (keep 6) plain_rules InlineStore "t" ("ab" +:+ bytes_string [195; 169]%nat +:+ "cdef") None) = Some "ab...".
Proof. vm_compute. done. Qed.

(** The rule that is written reads back; among several the least counts, not the first. *)
Example lifecycle_reads_back : parse_lifecycle_days (lifecycle_xml 60) = Some 60 /\ parse_lifecycle_days (lifecycle_xml 4294967295) = Some 4294967295.
Proof. vm_compute. done. Qed.
Definition one_rule (days : string) : string :=
  "<Rule><Status>Enabled</Status><Expiration><Days>" +:+ days +:+ "</Days></Expiration></Rule>".
Example least_rule_counts : parse_lifecycle_days (one_rule "90" +:+ one_rule "30") = Some 30.
Proof. vm_compute. done. Qed.

Definition s3 : S3Config := {| s3_endpoint := "http://rustfs:9000/"; s3_bucket := "audit"; s3_path_style := true |}.
Definition net (method url body : string) : result BlobError string :=
  if decide (url = "http://rustfs:9000/audit/bodies/gateway_logs/2026/03/09/t-request.json") then Ok body else Err NotConfigured.
Lemma offloaded_is_fetched_witness :
  store_if_oversize (S3Store s3 (fun _ => Err "unused") net ("2026", 3, 9)) (hint_of "t" "request") "hello" 2 =
    Ok (BlobOffloaded "s3://audit/bodies/gateway_logs/2026/03/09/t-request.json" 5) /\
  exists object answer, net "PUT" object "hello" = Ok answer /\
    blob_fetch s3 (fun _ => Err "unused") net "s3://audit/bodies/gateway_logs/2026/03/09/t-request.json" = net "GET" object "".
Proof.
  assert (Hs : store_if_oversize (S3Store s3 (fun _ => Err "unused") net ("2026", 3, 9)) (hint_of "t" "request") "hello" 2 =
    Ok (BlobOffloaded "s3://audit/bodies/gateway_logs/2026/03/09/t-request.json" 5)) by (vm_compute; reflexivity).
  split; [exact Hs|]. exact (proj2 (proj2 (offloaded_is_fetched s3 (fun _ => Err "unused") net ("2026", 3, 9) (hint_of "t" "request") "hello" 2 _ _ eq_refl Hs))).
Defined.

(** An S3 error whose character straddles the 1024th byte. *)
Example long_refusal_panics :
  s3_outcome 403 (String.concat "" (repeat (bytes_string [195; 169]%nat) 600)) <> None /\
  s3_outcome 403 ("x" +:+ String.concat "" (repeat (bytes_string [195; 169]%nat) 600)) = None.
Proof. split; vm_compute; congruence. Qed.
