(* ===== verification/AuditWorker.v ===== *)
(** * The audit queue and its worker

    [crates/common/src/audit/logger.rs] and [clickhouse.rs]: what [log] puts into the bounded
    queue, the worker's batch per table, and what a failed insert keeps.  Whether there is room
    in memory, the draw of the sampling and whether an insert succeeds are inputs. *)
From Stdlib Require Import Ascii.
From S2P Require Import Prelude Interfaces Effects GatewayDeps Text AuditRow McpSse AuditBodies.

#[export] Instance LogType_eq_dec : EqDecision LogType.
Proof. solve_decision. Defined.
Definition index_id (t : LogType) : string :=
  match t with
  | LogAccess => "access_logs" | LogApp => "app_logs" | LogAudit => "audit_logs"
  | LogGateway => "gateway_logs" | LogMcp => "mcp_logs"
  end.

(** An entry with the columns it is given when it is made. *)
Record LogEntry := { le_id : string; le_created_at : string; le_entry : AuditEntry }.
Definition le_type (e : LogEntry) : LogType := ae_log_type (le_entry e).

(** ** The queue *)

Definition AUDIT_CHANNEL_CAPACITY : nat := Z.to_nat 100000.
(** The rate in ten-thousandths, the entries the worker has not taken yet, and whether it is
    there to take them; the counters of what was sampled out and dropped. *)
Record AuditLogger := {
  al_sample_rate_bps : Z; al_queue : list LogEntry; al_open : bool;
  al_sampled_out : nat; al_dropped : nat;
}.
Definition with_queue (q : list LogEntry) (l : AuditLogger) : AuditLogger :=
  {| al_sample_rate_bps := al_sample_rate_bps l; al_queue := q; al_open := al_open l;
     al_sampled_out := al_sampled_out l; al_dropped := al_dropped l |}.
Definition drop_entry (l : AuditLogger) : AuditLogger :=
  {| al_sample_rate_bps := al_sample_rate_bps l; al_queue := al_queue l; al_open := al_open l;
     al_sampled_out := al_sampled_out l; al_dropped := S (al_dropped l) |}.
(** [draw] is uniform on [0..10_000); [room] whether the budget takes the entry. *)
Definition AuditLogger_log (draw : Z) (room : bool) (entry : LogEntry) (l : AuditLogger) : AuditLogger :=
  if (al_sample_rate_bps l <? 10000) && (al_sample_rate_bps l <=? draw) then
    {| al_sample_rate_bps := al_sample_rate_bps l; al_queue := al_queue l; al_open := al_open l;
       al_sampled_out := S (al_sampled_out l); al_dropped := al_dropped l |}
  else if negb room then drop_entry l
  else if al_open l && (length (al_queue l) <? AUDIT_CHANNEL_CAPACITY)%nat then with_queue (al_queue l ++ [entry]) l
  else drop_entry l.

(** ** Batches *)

Definition CH_RETAIN_CAP : nat := 1000.
(** What an attempt did with entries: stored them, or lost them; in the order it happened. *)
Inductive fate := Stored (entries : list LogEntry) | Lost (entries : list LogEntry).
Definition fate_entries (f : fate) : list LogEntry := match f with Stored l | Lost l => l end.

(** [ch]: no client, or whether the insert succeeds. *)
Definition flush_to_clickhouse (ch : option bool) (batch : list LogEntry) : list LogEntry * list fate :=
  match ch with
  | None => ([], [Lost batch])
  | Some ok =>
      match batch with
      | [] => ([], [])
      | _ =>
          if ok then ([], [Stored batch])
          else if (CH_RETAIN_CAP <? length batch)%nat then
            let drop_ := (length batch - CH_RETAIN_CAP)%nat in (drop drop_ batch, [Lost (take drop_ batch)])
          else (batch, [])
      end
  end.

(** The worker: the batch of every table, and what has become of the entries of each so far. *)
Record audit_worker := { aw_batches : LogType -> list LogEntry; aw_fates : LogType -> list fate }.
Definition worker_new : audit_worker := {| aw_batches := fun _ => []; aw_fates := fun _ => [] |}.
Definition set_batch (t : LogType) (r : list LogEntry * list fate) (w : audit_worker) : audit_worker :=
  {| aw_batches := fun t' => if decide (t' = t) then r.1 else aw_batches w t';
     aw_fates := fun t' => if decide (t' = t) then aw_fates w t ++ r.2 else aw_fates w t' |}.
(** An entry is received, or the two seconds are over; how the inserts of it go. *)
Inductive worker_event := Received (entry : LogEntry) (ch : option bool) | Ticked (ch : LogType -> option bool).
Definition all_types : list LogType := [LogAccess; LogApp; LogAudit; LogGateway; LogMcp].
Definition worker_step (e : worker_event) (w : audit_worker) : audit_worker :=
  match e with
  | Received entry ch =>
      let t := le_type entry in
      let batch := aw_batches w t ++ [entry] in
      if (50 <=? length batch)%nat then set_batch t (flush_to_clickhouse ch batch) w
      else set_batch t (batch, []) w
  | Ticked ch =>
      foldl (fun w t => match aw_batches w t with [] => w | batch => set_batch t (flush_to_clickhouse (ch t) batch) w end) w all_types
  end.
Definition run_worker (events : list worker_event) : audit_worker := foldl (fun w e => worker_step e w) worker_new events.

(** ** A body's cell and its size, as [flush_gateway] and [flush_mcp] write them *)

Section Rows.
Context (to_lowercase : string -> string) (parse_json : string -> option json) (json_text : json -> string).
Definition body_columns (body : option string) (bytes : option Z) : option string * option Z :=
  let sanitized := sanitize_body_if_json to_lowercase parse_json json_text body in
  (sanitized, match bytes with Some n => Some n | None => (fun s => as_u32 (text_len s)) <$> sanitized end).
End Rows.

(** ** Nothing is lost that is not counted *)

Definition received (t : LogType) (events : list worker_event) : list LogEntry :=
  events ≫= fun e => match e with Received entry _ => if decide (le_type entry = t) then [entry] else [] | Ticked _ => [] end.
Definition settled (t : LogType) (w : audit_worker) : list LogEntry := aw_fates w t ≫= fate_entries.

Lemma flush_keeps ch batch : ((flush_to_clickhouse ch batch).2 ≫= fate_entries) ++ (flush_to_clickhouse ch batch).1 = batch.
Proof.
  unfold flush_to_clickhouse. destruct ch as [ok|]; [|simpl; by rewrite !app_nil_r]. destruct batch as [|e batch]; [done|].
  destruct ok; [simpl; by rewrite !app_nil_r|]. case_match; [|done]. cbn [fst snd]. cbn. rewrite app_nil_r. apply take_drop.
Qed.
Lemma flush_bound ch batch : (length batch <= S CH_RETAIN_CAP)%nat -> (length (flush_to_clickhouse ch batch).1 <= CH_RETAIN_CAP)%nat.
Proof.
  unfold flush_to_clickhouse. intros Hl. destruct ch as [ok|]; [|simpl; lia]. destruct batch as [|e batch]; [simpl; lia|].
  destruct ok; [simpl; lia|]. destruct (CH_RETAIN_CAP <? length (e :: batch))%nat eqn:El; cbn [fst].
  - rewrite length_drop. apply Nat.ltb_lt in El. lia.
  - by apply Nat.ltb_ge in El.
Qed.

Definition worker_ok (events : list worker_event) (w : audit_worker) : Prop := forall t,
  received t events = settled t w ++ aw_batches w t /\ (length (aw_batches w t) <= CH_RETAIN_CAP)%nat.
Lemma set_batch_ok t r w t' :
  settled t' (set_batch t r w) ++ aw_batches (set_batch t r w) t' =
    if decide (t' = t) then settled t w ++ (r.2 ≫= fate_entries) ++ r.1 else settled t' w ++ aw_batches w t'.
Proof.
  unfold settled, set_batch. cbn [aw_batches aw_fates]. case_decide; [|done]. by rewrite bind_app, <- app_assoc.
Qed.
Lemma set_batch_len t r w t' : length (aw_batches (set_batch t r w) t') = if decide (t' = t) then length r.1 else length (aw_batches w t').
Proof. unfold set_batch. simpl. by case_decide. Qed.
Lemma tick_ok ch ts events w : worker_ok events w ->
  worker_ok events (foldl (fun w t => match aw_batches w t with [] => w | batch => set_batch t (flush_to_clickhouse (ch t) batch) w end) w ts).
Proof.
  revert w. induction ts as [|t ts IH]; intros w Hw; [done|]. cbn [foldl]. apply IH. destruct (aw_batches w t) as [|e b] eqn:Eb; [done|]. rewrite <- Eb.
  intros t'. rewrite set_batch_ok, set_batch_len. destruct (decide (t' = t)) as [->|]; [|apply Hw]. rewrite flush_keeps. split; [apply Hw|].
  apply flush_bound. destruct (Hw t) as [_ ?]. lia.
Qed.
Lemma step_ok e events w : worker_ok events w -> worker_ok (events ++ [e]) (worker_step e w).
Proof.
  intros Hw. destruct e as [entry ch|ch].
  - assert (Hr : forall t', received t' (events ++ [Received entry ch]) = received t' events ++ if decide (le_type entry = t') then [entry] else []).
    { intros t'. unfold received. rewrite bind_app. cbn. by rewrite app_nil_r. }
    cbn [worker_step]. destruct (Hw (le_type entry)) as [Ht Hlen].
    destruct (50 <=? length (aw_batches w (le_type entry) ++ [entry]))%nat eqn:E50; intros t'; rewrite Hr, set_batch_ok, set_batch_len.
    + destruct (decide (t' = le_type entry)) as [->|Hd].
      * rewrite ?decide_True by done. rewrite flush_keeps, Ht, app_assoc. split; [done|]. apply flush_bound. rewrite length_app. simpl. lia.
      * rewrite decide_False by congruence. rewrite app_nil_r. apply Hw.
    + destruct (decide (t' = le_type entry)) as [->|Hd].
      * rewrite ?decide_True by done. cbn. rewrite Ht, app_assoc. split; [done|]. apply Nat.leb_gt in E50. unfold CH_RETAIN_CAP. lia.
      * rewrite decide_False by congruence. rewrite app_nil_r. apply Hw.
  - assert (Hr : forall t', received t' (events ++ [Ticked ch]) = received t' events) by (intros t'; unfold received; rewrite bind_app; cbn; by rewrite app_nil_r).
    pose proof (tick_ok ch all_types events w Hw) as H. intros t'. rewrite Hr. apply H.
Qed.
Lemma run_ok events : worker_ok events (run_worker events).
Proof.
  induction events as [|e events IH] using rev_ind; [intros t; split; [done|simpl; lia]|].
  unfold run_worker. rewrite foldl_app. cbn [foldl]. by apply step_ok.
Qed.

(** C29: Every entry the worker receives is stored, counted as lost or still in its table's batch,
    once and in the order of arrival, however the inserts go; a batch never keeps more than a
    thousand.  An entry is lost only without a ClickHouse client or as the oldest of a batch
    over that bound. *)
Theorem entries_kept_in_order events t :
  received t events = settled t (run_worker events) ++ aw_batches (run_worker events) t /\
  (length (aw_batches (run_worker events) t) <= CH_RETAIN_CAP)%nat /\
  (forall ch batch lost, Lost lost ∈ (flush_to_clickhouse ch batch).2 ->
     ch = None \/ ch = Some false /\ (CH_RETAIN_CAP < length batch)%nat /\ lost = take (length batch - CH_RETAIN_CAP) batch).
Proof.
  destruct (run_ok events t) as [Hr Hl]. split_and!; [done|done|]. intros ch batch lost. unfold flush_to_clickhouse.
  destruct ch as [ok|]; [|by left]. destruct batch as [|e b]; [by intros ?%elem_of_nil|]. destruct ok; [by intros ?%list_elem_of_singleton|].
  destruct (CH_RETAIN_CAP <? length (e :: b))%nat eqn:El; [|by intros ?%elem_of_nil]. intros [= ->]%list_elem_of_singleton. right. apply Nat.ltb_lt in El. done.
Qed.

(** * Forwarding audit entries, and the outbox of those that failed

    [crates/common/src/audit/forwarders.rs], [forward_to_all] of [logger.rs], and [outbox.rs].
    Every entry goes to each enabled forwarder that wants its type; what cannot be delivered is
    parked in a table, from which every server's drain claims due rows for five minutes,
    retries them with growing pauses and gives up after 24 attempts.  The network, JSON and
    HMAC are arguments; others may act between any two rows. *)

(** ** Transports *)

Section Transports.
Context {V : Type} `{JsonValue V}.
Context (json_as_u64 : V -> option Z).

(** A priority is a byte, which wraps around in a release build. *)
Definition dquote : string := String "034" "".
Definition build_syslog_message (facility : Z) (entry : LogEntry) (newline : bool) : string :=
  let e := le_entry entry in
  let priority := (facility * 8 + 6) mod 256 in
  let structured_data :=
    "[audit@0 user_id=" +:+ dquote +:+ default "-" (ae_user_id e) +:+ dquote +:+ " action=" +:+ dquote +:+ ae_action e +:+ dquote
    +:+ " resource=" +:+ dquote +:+ default "-" (ae_resource e) +:+ dquote +:+ " ip=" +:+ dquote +:+ default "-" (ae_ip_address e) +:+ dquote +:+ "]" in
  "<" +:+ pretty priority +:+ ">1 " +:+ le_created_at entry +:+ " think-watch audit - " +:+ ae_action e +:+ " " +:+ structured_data
  +:+ " " +:+ ae_action e +:+ " on " +:+ default "-" (ae_resource e) +:+ (if newline then String LF "" else "").
Definition parse_syslog_facility (config : V) : Z :=
  match json_get "facility" config ≫= json_as_u64 with
  | Some v => if v <=? 255 then v else 16
  | None => 16
  end.

Definition field (key : string) (config : V) : option string := json_get key config ≫= json_as_str.
(** [udp]: the address and the message to the socket, if one could be bound. *)
Definition send_udp_syslog (udp : option (string -> string -> result string unit)) (config : V) (entry : LogEntry) : result string unit :=
  match field "address" config with
  | None => Err "Missing 'address' in udp_syslog config"
  | Some addr =>
      match udp with
      | None => Err "UDP socket not initialized"
      | Some send_to =>
          match send_to addr (build_syslog_message (parse_syslog_facility config) entry false) with
          | Ok _ => Ok tt
          | Err e => Err ("Syslog UDP send failed: " +:+ e)
          end
      end
  end.
(** The stream kept open, if any; [tcp_write] says what a write leaves of a stream. *)
Definition send_tcp_syslog {St : Type} (tcp_connect : string -> result string St) (tcp_write : St -> string -> result string St)
    (config : V) (entry : LogEntry) (guard : option St) : option St * result string unit :=
  match field "address" config with
  | None => (guard, Err "Missing 'address' in tcp_syslog config")
  | Some addr =>
      let message := build_syslog_message (parse_syslog_facility config) entry true in
      let connect :=
        match tcp_connect addr with
        | Err e => (None, Err ("TCP syslog connect failed: " +:+ e))
        | Ok stream =>
            match tcp_write stream message with
            | Ok stream => (Some stream, Ok tt)
            | Err e => (None, Err ("TCP syslog write failed: " +:+ e))
            end
        end in
      match guard with
      | Some stream => match tcp_write stream message with Ok stream => (Some stream, Ok tt) | Err _ => connect end
      | None => connect
      end
  end.

(** A POST: its URL, headers and body; its answer, or none. *)
Record http_post := { po_url : string; po_headers : list (string * string); po_body : string }.
Record http_answer := { an_status : Z; an_body : result string string }.
Definition answered_ok (a : http_answer) : bool := (200 <=? an_status a) && (an_status a <? 300).
(** The URL check; an entry as JSON; the text [json!] makes of an entry for Kafka; a status
    with its reason; HMAC-SHA256 in hexadecimal; the entries of a JSON object given as text. *)
Context (check_url : string -> result string unit) (entry_json : LogEntry -> result string string) (kafka_json : LogEntry -> string).
Context (status_text : Z -> string) (hmac_sha256_hex : string -> string -> string) (parse_headers : string -> option (list (string * V))).
Context (post : http_post -> result string http_answer).

Definition send_kafka (config : V) (entry : LogEntry) : result string unit :=
  match field "broker_url" config with
  | None => Err "Missing 'broker_url' in kafka config"
  | Some broker_url =>
      match field "topic" config with
      | None => Err "Missing 'topic' in kafka config"
      | Some topic =>
          match check_url broker_url with
          | Err e => Err ("URL validation: " +:+ e)
          | Ok _ =>
              match post {| po_url := trim_slashes broker_url +:+ "/topics/" +:+ topic; po_headers := [("Content-Type", "application/vnd.kafka.json.v2+json")];
                            po_body := kafka_json entry |} with
              | Err e => Err ("Kafka REST proxy request failed: " +:+ e)
              | Ok a => if answered_ok a then Ok tt else match an_body a with Err e => Err e | Ok bytes => Err ("Kafka REST proxy returned error: " +:+ from_utf8_lossy bytes) end
              end
          end
      end
  end.

Definition signing_secret (config : V) : option string :=
  match field "signing_secret" config with Some "" => None | s => s end.
Definition custom_headers (config : V) : list (string * string) :=
  match json_get "custom_headers" config with
  | Some headers_val => omap (fun h => (fun v => (h.1, v)) <$> json_as_str h.2) (default [] (parse_headers (default "" (json_as_str headers_val))))
  | None => []
  end.
(** [timestamp] in seconds. *)
Definition webhook_post (timestamp : Z) (config : V) (url body : string) : http_post :=
  {| po_url := url;
     po_headers := [("Content-Type", "application/json")] ++ custom_headers config ++
       match signing_secret config with
       | Some secret => [("x-signature", "sha256=" +:+ hmac_sha256_hex secret (pretty timestamp +:+ "." +:+ body)); ("x-signature-timestamp", pretty timestamp)]
       | None => []
       end;
     po_body := body |}.
Definition send_webhook (timestamp : Z) (config : V) (entry : LogEntry) : result string unit :=
  match field "url" config with
  | None => Err "Missing 'url' in webhook config"
  | Some url =>
      match check_url url with
      | Err e => Err ("URL validation: " +:+ e)
      | Ok _ =>
          match entry_json entry with
          | Err e => Err ("JSON serialise: " +:+ e)
          | Ok body =>
              match post (webhook_post timestamp config url body) with
              | Err e => Err ("Webhook request failed: " +:+ e)
              | Ok a => if answered_ok a then Ok tt
                        else match an_body a with Err e => Err e | Ok bytes => Err ("Webhook returned " +:+ status_text (an_status a) +:+ ": " +:+ from_utf8_lossy bytes) end
              end
          end
      end
  end.
End Transports.

(** ** The tables *)

Definition OUTBOX_ALERT_THRESHOLD : Z := 100.
Definition OUTBOX_ALERT_AFTER : Z := 300.
Definition OUTBOX_ALERT_REPEAT : Z := 900.
Definition MAX_OUTBOX_ATTEMPTS : Z := 24.

Record LogForwarder {U V : Type} := {
  lf_id : U; lf_forwarder_type : string; lf_config : V; lf_enabled : bool; lf_log_types : list string;
  lf_sent_count : Z; lf_error_count : Z; lf_last_sent_at : option Z; lf_last_error : option string;
}.
Record OutboxRow {U V : Type} := {
  ox_id : nat; ox_forwarder_id : U; ox_payload : V; ox_attempts : Z; ox_next_attempt_at : Z; ox_last_error : option string;
}.
#[global] Arguments LogForwarder : clear implicits.
#[global] Arguments OutboxRow : clear implicits.
(** The tables, the id of the next parked row, and what was delivered to whom. *)
Record outbox_world {U V : Type} := {
  ow_forwarders : list (LogForwarder U V); ow_outbox : list (OutboxRow U V); ow_next : nat; ow_delivered : list (U * LogEntry);
}.
#[global] Arguments outbox_world : clear implicits.

Definition outbox_backoff_secs (attempt_number : Z) : Z :=
  let n := Z.max attempt_number 1 in
  let exp := Z.min (n - 1) 7 in
  Z.min (30 * 2 ^ exp) 3600.

Section Outbox.
Context {U : Type} `{Uuid U} {V : Type}.
(** [serde_json] on entries. *)
Context (to_value : LogEntry -> option V) (from_value : V -> option LogEntry).
Abbreviation W := (outbox_world U V).
Implicit Types (w : W) (f : LogForwarder U V) (r : OutboxRow U V).

Definition set_forwarders (fs : list (LogForwarder U V)) w : W :=
  {| ow_forwarders := fs; ow_outbox := ow_outbox w; ow_next := ow_next w; ow_delivered := ow_delivered w |}.
Definition set_outbox (rs : list (OutboxRow U V)) w : W :=
  {| ow_forwarders := ow_forwarders w; ow_outbox := rs; ow_next := ow_next w; ow_delivered := ow_delivered w |}.
Definition deliver (id : U) (e : LogEntry) w : W :=
  {| ow_forwarders := ow_forwarders w; ow_outbox := ow_outbox w; ow_next := ow_next w; ow_delivered := ow_delivered w ++ [(id, e)] |}.
Definition update_forwarder (id : U) (f : LogForwarder U V -> LogForwarder U V) w : W :=
  set_forwarders ((fun x => if decide (lf_id x = id) then f x else x) <$> ow_forwarders w) w.
Definition count_sent (now : Z) f : LogForwarder U V :=
  {| lf_id := lf_id f; lf_forwarder_type := lf_forwarder_type f; lf_config := lf_config f; lf_enabled := lf_enabled f; lf_log_types := lf_log_types f;
     lf_sent_count := lf_sent_count f + 1; lf_error_count := lf_error_count f; lf_last_sent_at := Some now; lf_last_error := lf_last_error f |}.
Definition note_error (err : option string) (by_ : Z) f : LogForwarder U V :=
  {| lf_id := lf_id f; lf_forwarder_type := lf_forwarder_type f; lf_config := lf_config f; lf_enabled := lf_enabled f; lf_log_types := lf_log_types f;
     lf_sent_count := lf_sent_count f; lf_error_count := lf_error_count f + by_; lf_last_sent_at := lf_last_sent_at f;
     lf_last_error := match err with Some e => Some e | None => lf_last_error f end |}.
(** A parked row's forwarder is one of the table. *)
Definition park (now : Z) (id : U) (payload : V) (err : string) w : W :=
  {| ow_forwarders := ow_forwarders w;
     ow_outbox := ow_outbox w ++ [{| ox_id := ow_next w; ox_forwarder_id := id; ox_payload := payload; ox_attempts := 0; ox_next_attempt_at := now; ox_last_error := Some err |}];
     ow_next := S (ow_next w); ow_delivered := ow_delivered w |}.
Definition delete_row (id : nat) w : W := set_outbox (filter (fun r => ox_id r <> id) (ow_outbox w)) w.
Definition update_row (id : nat) (f : OutboxRow U V -> OutboxRow U V) w : W :=
  set_outbox ((fun r => if decide (ox_id r = id) then f r else r) <$> ow_outbox w) w.

(** *** Inline *)

(** Whether a database is there; the time; how a delivery to a forwarder goes; which statements
    succeed; what others do before each forwarder. *)
Record forward_env := {
  fe_db : bool; fe_now : Z; fe_send : LogForwarder U V -> LogEntry -> result string unit;
  fe_stmt : U -> nat -> bool; fe_others : U -> W -> W;
}.
Definition wanted (entry : LogEntry) f : bool :=
  lf_enabled f && bool_decide (LogType_as_str (le_type entry) ∈ lf_log_types f).
Definition known_type (t : string) : bool := bool_decide (t ∈ ["udp_syslog"; "tcp_syslog"; "kafka"; "webhook"]).
Definition forward_one (E : forward_env) (entry : LogEntry) (f : LogForwarder U V) (w : W) : W :=
  if negb (wanted entry f) then w else
  let id := lf_id f in
  let w := fe_others E id w in
  let result_ := if known_type (lf_forwarder_type f) then fe_send E f entry else Err ("Unknown forwarder type: " +:+ lf_forwarder_type f) in
  let w := match result_ with Ok _ => deliver id entry w | Err _ => w end in
  if negb (fe_db E) then w else
  match result_ with
  | Ok _ => if fe_stmt E id 0 then update_forwarder id (count_sent (fe_now E)) w else w
  | Err err_msg =>
      let w := if fe_stmt E id 0 then update_forwarder id (note_error (Some err_msg) 0) w else w in
      match to_value entry with
      | None => w
      | Some payload_json =>
          if fe_stmt E id 1 && bool_decide (Exists (fun f => lf_id f = id) (ow_forwarders w)) then park (fe_now E) id payload_json err_msg w
          else if fe_stmt E id 2 then update_forwarder id (note_error None 1) w else w
      end
  end.
(** [registry] is the process's snapshot of the forwarders. *)
Definition forward_to_all (E : forward_env) (registry : list (LogForwarder U V)) (entry : LogEntry) (w : W) : W :=
  foldl (fun w f => forward_one E entry f w) w registry.
Definition reload_forwarders (loaded : bool) (registry : list (LogForwarder U V)) (w : W) : list (LogForwarder U V) :=
  if loaded then ow_forwarders w else registry.

(** *** The drain *)

(** The depth as it is read; whether the claim succeeds, its time and the rows other claims hold
    at that moment; the time of every row's turn; deliveries, statements and others as above. *)
Record drain_env := {
  de_depth : option Z; de_claim : bool; de_claim_at : Z; de_locked : nat -> bool;
  de_now : nat -> Z; de_send : nat -> LogForwarder U V -> LogEntry -> result string unit;
  de_stmt : nat -> nat -> bool; de_others : nat -> W -> W;
}.
Fixpoint insert_by (r : OutboxRow U V) (l : list (OutboxRow U V)) : list (OutboxRow U V) :=
  match l with
  | [] => [r]
  | x :: l' => if ox_next_attempt_at r <? ox_next_attempt_at x then r :: l else x :: insert_by r l'
  end.
(** [ORDER BY next_attempt_at]. *)
Definition by_next_attempt (l : list (OutboxRow U V)) : list (OutboxRow U V) := foldl (fun acc r => insert_by r acc) [] l.
Definition claimable (E : drain_env) (rs : list (OutboxRow U V)) : list (OutboxRow U V) :=
  take 100 (by_next_attempt (filter (fun r => ox_next_attempt_at r <= de_claim_at E /\ de_locked E (ox_id r) = false) rs)).
Definition with_next (t : Z) r : OutboxRow U V :=
  {| ox_id := ox_id r; ox_forwarder_id := ox_forwarder_id r; ox_payload := ox_payload r; ox_attempts := ox_attempts r;
     ox_next_attempt_at := t; ox_last_error := ox_last_error r |}.
Definition lease_due (E : drain_env) (w : W) : W * list (OutboxRow U V) :=
  let due := claimable E (ow_outbox w) in
  (set_outbox ((fun r => if decide (ox_id r ∈ ox_id <$> due) then with_next (de_claim_at E + 300) r else r) <$> ow_outbox w) w, due).
Definition retry_later (now attempts : Z) (err : string) r : OutboxRow U V :=
  {| ox_id := ox_id r; ox_forwarder_id := ox_forwarder_id r; ox_payload := ox_payload r; ox_attempts := attempts;
     ox_next_attempt_at := now + outbox_backoff_secs attempts; ox_last_error := Some err |}.

(** The turn of the [i]-th row claimed. *)
Definition drain_row (E : drain_env) (registry : list (LogForwarder U V)) (i : nat) (row : OutboxRow U V) (w : W) : W :=
  let w := de_others E i w in
  match list_find (fun f => lf_id f = ox_forwarder_id row) registry with
  | Some (_, runtime) =>
      if negb (lf_enabled runtime) then w else
      match from_value (ox_payload row) with
      | None => if de_stmt E i 0 then delete_row (ox_id row) w else w
      | Some entry =>
          let dispatch_result :=
            if known_type (lf_forwarder_type runtime) then de_send E i runtime entry
            else Err ("Unknown forwarder type for outbox replay: " +:+ lf_forwarder_type runtime) in
          match dispatch_result with
          | Ok _ =>
              let w := deliver (ox_forwarder_id row) entry w in
              let w := if de_stmt E i 0 then delete_row (ox_id row) w else w in
              if de_stmt E i 1 then update_forwarder (ox_forwarder_id row) (count_sent (de_now E i)) w else w
          | Err err_msg =>
              let next_attempts := ox_attempts row + 1 in
              if MAX_OUTBOX_ATTEMPTS <=? next_attempts then
                let w := if de_stmt E i 0 then delete_row (ox_id row) w else w in
                if de_stmt E i 1 then update_forwarder (ox_forwarder_id row) (note_error (Some err_msg) 1) w else w
              else if de_stmt E i 0 then update_row (ox_id row) (retry_later (de_now E i) next_attempts err_msg) w else w
          end
      end
  | None => w
  end.
Fixpoint drain_rows (E : drain_env) (registry : list (LogForwarder U V)) (i : nat) (rows : list (OutboxRow U V)) (w : W) : W :=
  match rows with
  | [] => w
  | row :: rows => drain_rows E registry (S i) rows (drain_row E registry i row w)
  end.

(** Since when the backlog is over the threshold, and when it was last said, in seconds. *)
Record alert_state := { as_over_since : option Z; as_last_alert : option Z }.
(** Whether the alert is due, and since how long. *)
Definition alert_due (depth now : Z) (a : alert_state) : alert_state * option Z :=
  if OUTBOX_ALERT_THRESHOLD <=? depth then
    let crossed_at := default now (as_over_since a) in
    let dwell := now - crossed_at in
    let due_for_first_alert := bool_decide (as_last_alert a = None) && (OUTBOX_ALERT_AFTER <=? dwell) in
    let due_for_repeat := match as_last_alert a with Some t => OUTBOX_ALERT_REPEAT <=? now - t | None => false end in
    if due_for_first_alert || due_for_repeat then ({| as_over_since := Some crossed_at; as_last_alert := Some now |}, Some dwell)
    else ({| as_over_since := Some crossed_at; as_last_alert := as_last_alert a |}, None)
  else ({| as_over_since := None; as_last_alert := None |}, None).
Definition alert_entry (depth dwell : Z) (id created_at : string) : LogEntry :=
  {| le_id := id; le_created_at := created_at;
     le_entry := with_detail (AuditRow.JObj [("depth", AuditRow.JNum depth); ("threshold", AuditRow.JNum OUTBOX_ALERT_THRESHOLD); ("sustained_secs", AuditRow.JNum dwell)])
                   (with_resource "webhook_outbox" LogAudit (SystemActor_audit "alert.outbox_depth_high")) |}.

(** [now] is the process's own clock; an alert goes to the forwarders without a database. *)
Definition drain_once (E : drain_env) (F : forward_env) (registry : list (LogForwarder U V)) (now : Z) (id created_at : string)
    (a : alert_state) (w : W) : W * alert_state * result unit unit :=
  let depth := default 0 (de_depth E) in
  let '(a, alert) := alert_due depth now a in
  let w := match alert with
           | Some dwell => forward_to_all {| fe_db := false; fe_now := fe_now F; fe_send := fe_send F; fe_stmt := fe_stmt F; fe_others := fe_others F |}
                             registry (alert_entry depth dwell id created_at) w
           | None => w
           end in
  if negb (de_claim E) then (w, a, Err tt) else
  let '(w, due) := lease_due E w in
  (drain_rows E registry 0 due w, a, Ok tt).
End Outbox.
#[global] Arguments forward_env : clear implicits.
#[global] Arguments drain_env : clear implicits.
