(* ===== verification/AuditOutboxSpec.v ===== *)
(** * Where every forwarded entry ends

    For each forwarder the entries meant for it are the ones counted as sent, the ones counted
    as errors and the ones still parked; and retries end, since every failed turn uses up one
    of its row's 24 attempts.  Both for one server's runs in which only receivers and the parking
    of an entry fail. *)
From Stdlib Require Import Ascii.
From S2P Require Import Prelude Interfaces Effects GatewayDeps Text AuditRow McpRegistry McpSse AuditBodies AuditWorker.

(** ** Sums over the rows of a table *)

Fixpoint zsum {A} (g : A -> Z) (l : list A) : Z := match l with [] => 0 | x :: l => g x + zsum g l end.
Lemma Forall_filter {A} (P Q : A -> Prop) `{forall x, Decision (Q x)} (l : list A) : Forall P l -> Forall P (filter Q l).
Proof. rewrite !Forall_forall. intros Hl x [_ Hx]%list_elem_of_filter. by apply Hl. Qed.

Section Sums.
Context {A K : Type} `{EqDecision K} (key : A -> K) (g : A -> Z).
Implicit Types (l : list A).
Lemma zsum_app l l' : zsum g (l ++ l') = zsum g l + zsum g l'.
Proof. induction l as [|x l IH]; simpl; [done|]. lia. Qed.
Lemma zsum_ext (h : A -> Z) l : (forall x, x ∈ l -> g x = h x) -> zsum g l = zsum h l.
Proof. induction l as [|x l IH]; intros Hx; [done|]. simpl. rewrite IH, (Hx x) by set_solver. done. Qed.
Lemma zsum_absent k (h : A -> A) l : k ∉ key <$> l -> zsum g ((fun x => if decide (key x = k) then h x else x) <$> l) = zsum g l /\ filter (fun x => key x <> k) l = l.
Proof.
  induction l as [|x l IH]; intros Hk; [done|]. rewrite fmap_cons in Hk. apply not_elem_of_cons in Hk as [Hx Hl]. destruct (IH Hl) as [IH1 IH2].
  rewrite fmap_cons. cbn [zsum]. rewrite IH1, decide_False, filter_cons_True, IH2 by congruence. done.
Qed.
Lemma zsum_change r (h : A -> A) l : NoDup (key <$> l) -> r ∈ l ->
  zsum g ((fun x => if decide (key x = key r) then h x else x) <$> l) = zsum g l - g r + g (h r) /\
  zsum g (filter (fun x => key x <> key r) l) = zsum g l - g r.
Proof.
  induction l as [|x l IH]; intros Hn Hr; [by apply elem_of_nil in Hr|]. rewrite fmap_cons; cbn in Hn; apply NoDup_cons in Hn as [Hx Hn].
  cbn [zsum]. apply elem_of_cons in Hr as [->|Hr].
  - rewrite decide_True by done. destruct (zsum_absent (key x) h l Hx) as [-> Hf]. rewrite filter_cons_False, Hf by (by intros []). lia.
  - assert (key x <> key r) by (intros He; apply Hx; rewrite He; apply list_elem_of_fmap; eauto). destruct (IH Hn Hr) as [-> IH2].
    rewrite decide_False, filter_cons_True by done. cbn [zsum]. rewrite IH2. lia.
Qed.
End Sums.

Section Ledger.
Context {U : Type} `{Uuid U} {V : Type}.
Context (to_value : LogEntry -> option V) (from_value : V -> option LogEntry).
Hypothesis round_trip : forall e, exists p, to_value e = Some p /\ from_value p = Some e.
Abbreviation W := (outbox_world U V).
Implicit Types (w : W) (f : LogForwarder U V) (r row : OutboxRow U V).

Definition counted (id : U) f : Z := if decide (lf_id f = id) then lf_sent_count f + lf_error_count f else 0.
Definition parked (id : U) r : Z := if decide (ox_forwarder_id r = id) then 1 else 0.
Definition ledger (id : U) w : Z := zsum (counted id) (ow_forwarders w) + zsum (parked id) (ow_outbox w).
(** The attempts left to the row with the id [k], while it is parked. *)
Definition left_of (k : nat) r : Z := if decide (ox_id r = k) then MAX_OUTBOX_ATTEMPTS - ox_attempts r else 0.
Definition attempts_left (k : nat) w : Z := zsum (left_of k) (ow_outbox w).
Record tables_ok w : Prop := {
  to_forwarders : NoDup (lf_id <$> ow_forwarders w);
  to_rows : NoDup (ox_id <$> ow_outbox w);
  to_fresh : Forall (fun r => (ox_id r < ow_next w)%nat) (ow_outbox w);
  to_known : Forall (fun r => ox_forwarder_id r ∈ lf_id <$> ow_forwarders w) (ow_outbox w);
  to_parses : Forall (fun r => is_Some (from_value (ox_payload r)) /\ 0 <= ox_attempts r < MAX_OUTBOX_ATTEMPTS) (ow_outbox w);
}.

(** ** Statements *)

Lemma update_forwarder_ids id h w : (forall f, lf_id (h f) = lf_id f) -> lf_id <$> ow_forwarders (update_forwarder id h w) = lf_id <$> ow_forwarders w.
Proof. intros Hh. unfold update_forwarder, set_forwarders. cbn [ow_forwarders]. rewrite <- list_fmap_compose. apply list_fmap_ext. intros i f _. unfold compose. case_decide; [apply Hh|done]. Qed.
Lemma update_forwarder_ok id h w : (forall f, lf_id (h f) = lf_id f) -> tables_ok w -> tables_ok (update_forwarder id h w).
Proof. intros Hh [Hf Hr Hn Hk Hp]. constructor; rewrite ?update_forwarder_ids by done; done. Qed.
Lemma update_forwarder_ledger id h w n id' : (forall f, lf_id (h f) = lf_id f) -> (forall f, lf_sent_count (h f) + lf_error_count (h f) = lf_sent_count f + lf_error_count f + n) ->
  tables_ok w -> id ∈ lf_id <$> ow_forwarders w -> ledger id' (update_forwarder id h w) = ledger id' w + if decide (id = id') then n else 0.
Proof.
  intros Hh Hn Hw Hin. apply list_elem_of_fmap in Hin as (f & -> & Hf). unfold ledger, update_forwarder, set_forwarders. cbn [ow_forwarders ow_outbox].
  destruct (zsum_change lf_id (counted id') f h _ (to_forwarders w Hw) Hf) as [-> _]. unfold counted. rewrite (Hh f). case_decide; [rewrite (Hn f)|]; lia.
Qed.
Lemma delete_row_ok id w : tables_ok w -> tables_ok (delete_row id w).
Proof.
  intros [Hf Hr Hn Hk Hp]. unfold delete_row, set_outbox. constructor; cbn [ow_forwarders ow_outbox ow_next]; [done| |by apply Forall_filter..].
  induction (ow_outbox w) as [|x l IH]; [done|]. simpl in *. apply NoDup_cons in Hr as [Hx Hr]. inversion Hn. inversion Hk. inversion Hp. subst. rewrite filter_cons. case_decide; [|by apply IH].
  simpl. apply NoDup_cons. split; [|by apply IH]. intros Hin. apply Hx. apply list_elem_of_fmap in Hin as (y & -> & [_ Hy]%list_elem_of_filter).
  apply list_elem_of_fmap. eauto.
Qed.
Lemma delete_row_ledger row w id k : tables_ok w -> row ∈ ow_outbox w -> ledger id (delete_row (ox_id row) w) = ledger id w - parked id row /\
  attempts_left k (delete_row (ox_id row) w) = attempts_left k w - left_of k row.
Proof.
  intros Hw Hr. unfold ledger, attempts_left, delete_row, set_outbox. cbn [ow_forwarders ow_outbox].
  destruct (zsum_change ox_id (parked id) row (fun x => x) _ (to_rows w Hw) Hr) as [_ ->].
  destruct (zsum_change ox_id (left_of k) row (fun x => x) _ (to_rows w Hw) Hr) as [_ ->]. lia.
Qed.
Lemma update_row_ids id h w : (forall r, ox_id (h r) = ox_id r) -> ox_id <$> ow_outbox (update_row id h w) = ox_id <$> ow_outbox w.
Proof. intros Hh. unfold update_row, set_outbox. cbn [ow_outbox]. rewrite <- list_fmap_compose. apply list_fmap_ext. intros i r _. unfold compose. case_decide; [apply Hh|done]. Qed.
Lemma update_row_ok id h w : (forall r, ox_id (h r) = ox_id r) -> (forall r, ox_forwarder_id (h r) = ox_forwarder_id r) -> (forall r, ox_payload (h r) = ox_payload r) ->
  (forall r, 0 <= ox_attempts r < MAX_OUTBOX_ATTEMPTS -> 0 <= ox_attempts (h r) < MAX_OUTBOX_ATTEMPTS) -> tables_ok w -> tables_ok (update_row id h w).
Proof.
  intros Hi Hf Hp Ha [Wf Wr Wn Wk Wp]. constructor; rewrite ?update_row_ids by done; [done|done|..]; unfold update_row, set_outbox; cbn [ow_forwarders ow_outbox ow_next];
    apply Forall_fmap.
  - eapply Forall_impl; [exact Wn|]. intros r Hr. unfold compose. case_decide; [by rewrite Hi|done].
  - eapply Forall_impl; [exact Wk|]. intros r Hr. unfold compose. case_decide; [by rewrite Hf|done].
  - eapply Forall_impl; [exact Wp|]. intros r [Hr1 Hr2]. unfold compose. case_decide; [|done]. rewrite Hp. split; [done|by apply Ha].
Qed.
Lemma update_row_ledger row h w id k : (forall r, ox_forwarder_id (h r) = ox_forwarder_id r) -> tables_ok w -> row ∈ ow_outbox w ->
  ledger id (update_row (ox_id row) h w) = ledger id w /\ attempts_left k (update_row (ox_id row) h w) = attempts_left k w - left_of k row + left_of k (h row).
Proof.
  intros Hh Hw Hr. unfold ledger, attempts_left, update_row, set_outbox. cbn [ow_forwarders ow_outbox].
  destruct (zsum_change ox_id (parked id) row h _ (to_rows w Hw) Hr) as [-> _].
  destruct (zsum_change ox_id (left_of k) row h _ (to_rows w Hw) Hr) as [-> _].
  unfold parked. rewrite Hh. lia.
Qed.
Lemma deliver_ok id e w : tables_ok w -> tables_ok (deliver id e w).
Proof. intros [? ? ? ? ?]. by constructor. Qed.

(** ** Inline *)

Lemma forward_one_ledger (E : forward_env U V) entry f w id : fe_db E = true -> (forall u i, i <> 1%nat -> fe_stmt E u i = true) -> (forall u w, fe_others E u w = w) ->
  tables_ok w -> (wanted entry f = true -> lf_id f ∈ lf_id <$> ow_forwarders w) ->
  tables_ok (forward_one to_value E entry f w) /\ lf_id <$> ow_forwarders (forward_one to_value E entry f w) = lf_id <$> ow_forwarders w /\
  ledger id (forward_one to_value E entry f w) = ledger id w + (if wanted entry f then if decide (lf_id f = id) then 1 else 0 else 0).
Proof.
  intros Hdb Hs Ho Hw Hin. unfold forward_one. destruct (wanted entry f) eqn:Ew; cbn [negb]; [|split_and!; [done|done|lia]]. specialize (Hin eq_refl).
  rewrite Ho, Hdb. cbn [negb]. destruct (if known_type _ then _ else _) as [[]|err].
  - rewrite Hs by done. split_and!.
    + by apply update_forwarder_ok, deliver_ok.
    + by rewrite update_forwarder_ids.
    + rewrite (update_forwarder_ledger _ _ _ 1); [done|done|intros; simpl; lia|by apply deliver_ok|done].
  - rewrite (Hs _ 0%nat) by done. set (w1 := update_forwarder (lf_id f) (note_error (Some err) 0) w).
    assert (Hw1 : tables_ok w1) by (by apply update_forwarder_ok).
    assert (Hids : lf_id <$> ow_forwarders w1 = lf_id <$> ow_forwarders w) by (by apply update_forwarder_ids).
    assert (Hl1 : ledger id w1 = ledger id w).
    { unfold w1. rewrite (update_forwarder_ledger _ _ _ 0); [case_decide; lia|done|intros; simpl; lia|done|done]. }
    destruct (round_trip entry) as (p & -> & Hp). destruct (fe_stmt E (lf_id f) 1 && bool_decide _).
    + split_and!.
      * destruct Hw1 as [Wf Wr Wn Wk Wp]. constructor; cbn [park ow_forwarders ow_outbox ow_next]; [done|..].
        -- rewrite fmap_app. apply NoDup_app. split_and!; [done| |apply NoDup_singleton]. simpl. intros i Hi ->%list_elem_of_singleton.
           apply list_elem_of_fmap in Hi as (r & Hri & Hr). apply (proj1 (Forall_forall _ _) Wn) in Hr. change (ow_next w1) with (ow_next w) in Hr. lia.
        -- apply Forall_app. split; [|constructor; [simpl; lia|constructor]]. eapply Forall_impl; [exact Wn|]. cbn beta. intros r Hr. lia.
        -- apply Forall_app. split; [done|]. constructor; [|constructor]. cbn [ox_forwarder_id]. by rewrite Hids.
        -- apply Forall_app. split; [done|]. constructor; [|constructor]. simpl. rewrite Hp. split; [done|unfold MAX_OUTBOX_ATTEMPTS; lia].
      * done.
      * rewrite <- Hl1. unfold ledger, park. cbn [ow_forwarders ow_outbox]. rewrite zsum_app. cbn [zsum]. unfold parked at 2. simpl. case_decide; lia.
    + rewrite (Hs _ 2%nat) by done. split_and!; [by apply update_forwarder_ok|by rewrite update_forwarder_ids|].
      rewrite (update_forwarder_ledger _ _ _ 1); [by rewrite Hl1|done|intros; simpl; lia|done|by rewrite Hids].
Qed.
Definition wanted_by (id : U) (registry : list (LogForwarder U V)) (entry : LogEntry) : Z :=
  zsum (fun f => if wanted entry f then if decide (lf_id f = id) then 1 else 0 else 0) registry.
Lemma forward_ledger (E : forward_env U V) registry entry w id : fe_db E = true -> (forall u i, i <> 1%nat -> fe_stmt E u i = true) -> (forall u w, fe_others E u w = w) ->
  tables_ok w -> Forall (fun f => wanted entry f = true -> lf_id f ∈ lf_id <$> ow_forwarders w) registry ->
  tables_ok (forward_to_all to_value E registry entry w) /\ lf_id <$> ow_forwarders (forward_to_all to_value E registry entry w) = lf_id <$> ow_forwarders w /\
  ledger id (forward_to_all to_value E registry entry w) = ledger id w + wanted_by id registry entry.
Proof.
  intros Hdb Hs Ho. unfold forward_to_all, wanted_by. revert w. induction registry as [|f reg IH]; intros w Hw Hreg; [split_and!; [done|done|simpl; lia]|].
  inversion Hreg as [|? ? Hf Hreg']. subst. cbn [foldl zsum]. destruct (forward_one_ledger E entry f w id Hdb Hs Ho Hw Hf) as (Hw1 & Hi1 & Hl1).
  destruct (IH _ Hw1) as (Hw2 & Hi2 & Hl2); [by rewrite Hi1|]. split_and!; [done|by rewrite Hi2|]. rewrite Hl2, Hl1. lia.
Qed.

(** ** The drain *)

(** The table still has a row that was claimed. *)
Definition present w row : Prop := exists r, r ∈ ow_outbox w /\ ox_id r = ox_id row /\ ox_forwarder_id r = ox_forwarder_id row /\
  ox_payload r = ox_payload row /\ ox_attempts r = ox_attempts row.
Lemma present_delete w row id : present w row -> ox_id row <> id -> present (delete_row id w) row.
Proof. intros (r & Hr & Hi & ?) Hn. exists r. split; [|done]. apply list_elem_of_filter. split; [by rewrite Hi|done]. Qed.
Lemma present_update w row id h : present w row -> ox_id row <> id -> present (update_row id h w) row.
Proof.
  intros (r & Hr & Hi & ?) Hn. exists r. split; [|done]. unfold update_row, set_outbox. cbn [ow_outbox]. apply list_elem_of_fmap. exists r.
  rewrite decide_False by congruence. done.
Qed.

(** Whether a row's turn is an attempt: its forwarder is there and enabled. *)
Definition attempted (registry : list (LogForwarder U V)) row : bool :=
  match list_find (fun f => lf_id f = ox_forwarder_id row) registry with Some (_, f) => lf_enabled f | None => false end.
Definition attempts_of (k : nat) (registry : list (LogForwarder U V)) row : Z :=
  if decide (ox_id row = k) then if attempted registry row then 1 else 0 else 0.
Lemma drain_row_ledger (E : drain_env U V) registry i row w id k : (forall i j, de_stmt E i j = true) -> (forall i w, de_others E i w = w) ->
  tables_ok w -> present w row ->
  tables_ok (drain_row from_value E registry i row w) /\ lf_id <$> ow_forwarders (drain_row from_value E registry i row w) = lf_id <$> ow_forwarders w /\
  ledger id (drain_row from_value E registry i row w) = ledger id w /\
  attempts_left k (drain_row from_value E registry i row w) + attempts_of k registry row <= attempts_left k w /\
  (forall row', present w row' -> ox_id row' <> ox_id row -> present (drain_row from_value E registry i row w) row').
Proof.
  intros Hs Ho Hw (r & Hr & Hi & Hf & Hp & Ha). unfold drain_row, attempts_of, attempted. rewrite Ho. destruct (list_find _ registry) as [[j rt]|]; [|split_and!; auto; case_decide; lia].
  destruct (lf_enabled rt); cbn [negb]; [|split_and!; auto; case_decide; lia].
  destruct (proj1 (Forall_forall _ _) (to_parses w Hw) r Hr) as [[entry He] Hatt]. pose proof (proj1 (Forall_forall _ _) (to_known w Hw) r Hr) as Hknown.
  cbn beta in Hatt, Hknown. rewrite <- Hp, He, <- Ha, <- Hf, <- Hi, !Hs. destruct (delete_row_ledger r w id k Hw Hr) as [Hd Hd'].
  destruct (if known_type _ then _ else _) as [[]|err].
  - split_and!.
    + by apply update_forwarder_ok, delete_row_ok, deliver_ok.
    + by rewrite update_forwarder_ids.
    + rewrite (update_forwarder_ledger _ _ _ 1); [|done|intros; simpl; lia|by apply delete_row_ok, deliver_ok|done].
      change (ledger id (delete_row (ox_id r) (deliver (ox_forwarder_id r) entry w))) with (ledger id (delete_row (ox_id r) w)). rewrite Hd. unfold parked. case_decide; lia.
    + change (attempts_left k (update_forwarder _ _ _)) with (attempts_left k (delete_row (ox_id r) w)). rewrite Hd'. unfold left_of. case_decide; lia.
    + intros row' H' Hn. by apply (present_delete (deliver (ox_forwarder_id r) entry w)).
  - destruct (MAX_OUTBOX_ATTEMPTS <=? ox_attempts r + 1) eqn:Em; zbool.
    + split_and!.
      * by apply update_forwarder_ok, delete_row_ok.
      * by rewrite update_forwarder_ids.
      * rewrite (update_forwarder_ledger _ _ _ 1); [|done|intros; simpl; lia|by apply delete_row_ok|done]. rewrite Hd. unfold parked. case_decide; lia.
      * change (attempts_left k (update_forwarder _ _ _)) with (attempts_left k (delete_row (ox_id r) w)). rewrite Hd'. unfold left_of. case_decide; lia.
      * intros row' H' Hn. by apply (present_delete w).
    + destruct (update_row_ledger r (retry_later (de_now E i) (ox_attempts r + 1) err) w id k) as [Hu Hu']; [done..|]. split_and!; [|done|done| |].
      * destruct Hw as [Wf Wr Wn Wk Wp]. constructor; rewrite ?update_row_ids by done; [done|done|..]; unfold update_row, set_outbox; cbn [ow_forwarders ow_outbox ow_next]; apply Forall_fmap.
        -- eapply Forall_impl; [exact Wn|]. intros x Hx. unfold compose. by case_decide.
        -- eapply Forall_impl; [exact Wk|]. intros x Hx. unfold compose. by case_decide.
        -- eapply Forall_impl; [exact Wp|]. intros x [Hx1 Hx2]. unfold compose. case_decide; [|done]. split; [done|]. simpl. lia.
      * rewrite Hu'. unfold left_of. simpl. case_decide; lia.
      * intros row' H' Hn. by apply present_update.
Qed.

Lemma drain_rows_ledger (E : drain_env U V) registry i rows w id k : (forall i j, de_stmt E i j = true) -> (forall i w, de_others E i w = w) ->
  tables_ok w -> Forall (present w) rows -> NoDup (ox_id <$> rows) ->
  tables_ok (drain_rows from_value E registry i rows w) /\ lf_id <$> ow_forwarders (drain_rows from_value E registry i rows w) = lf_id <$> ow_forwarders w /\
  ledger id (drain_rows from_value E registry i rows w) = ledger id w /\
  attempts_left k (drain_rows from_value E registry i rows w) + zsum (attempts_of k registry) rows <= attempts_left k w.
Proof.
  intros Hs Ho. revert i w. induction rows as [|row rows IH]; intros i w Hw Hp Hn; [split_and!; auto; simpl; lia|]. inversion Hp as [|? ? Hrow Hrows]. subst.
  rewrite fmap_cons in Hn. apply NoDup_cons in Hn as [Hnew Hn]. cbn [drain_rows zsum].
  destruct (drain_row_ledger E registry i row w id k Hs Ho Hw Hrow) as (Hw1 & Hi1 & Hl1 & Ha1 & Hp1).
  destruct (IH (S i) _ Hw1) as (Hw2 & Hi2 & Hl2 & Ha2); [|done|].
  { apply Forall_forall. intros row' Hin. apply Hp1; [by apply (proj1 (Forall_forall _ _) Hrows)|]. intros He. apply Hnew. rewrite <- He. apply list_elem_of_fmap. eauto. }
  split_and!; [done|by rewrite Hi2|by rewrite Hl2|lia].
Qed.

Lemma insert_by_perm r (l : list (OutboxRow U V)) : insert_by r l ≡ₚ r :: l.
Proof.
  induction l as [|x l IH]; [done|]. simpl. destruct (ox_next_attempt_at r <? ox_next_attempt_at x); [done|]. rewrite IH. apply Permutation_swap.
Qed.
Lemma by_next_perm (l : list (OutboxRow U V)) : by_next_attempt l ≡ₚ l.
Proof.
  unfold by_next_attempt. assert (H' : forall acc, foldl (fun acc r => insert_by r acc) acc l ≡ₚ acc ++ l).
  { induction l as [|r l IH]; intros acc; [simpl; by rewrite app_nil_r|]. cbn [foldl]. rewrite IH, insert_by_perm. apply (Permutation_middle acc l r). }
  apply H'.
Qed.
Lemma due_sub (E : drain_env U V) rs r : r ∈ claimable E rs -> r ∈ rs.
Proof. unfold claimable. intros Hr%elem_of_take. destruct Hr as (i & Hr%list_elem_of_lookup_2 & _). rewrite by_next_perm in Hr. by apply list_elem_of_filter in Hr as [_ Hr]. Qed.
Lemma due_nodup (E : drain_env U V) rs : NoDup (ox_id <$> rs) -> NoDup (ox_id <$> claimable E rs).
Proof.
  intros Hn. unfold claimable. rewrite fmap_take. eapply sublist_NoDup; [|apply sublist_take].
  rewrite by_next_perm. eapply sublist_NoDup; [exact Hn|apply fmap_sublist, sublist_filter].
Qed.
Lemma claim_ledger (E : drain_env U V) w : tables_ok w ->
  tables_ok (lease_due E w).1 /\ lf_id <$> ow_forwarders (lease_due E w).1 = lf_id <$> ow_forwarders w /\ (forall id, ledger id (lease_due E w).1 = ledger id w) /\
  (forall k, attempts_left k (lease_due E w).1 = attempts_left k w) /\ Forall (present (lease_due E w).1) (lease_due E w).2 /\ NoDup (ox_id <$> (lease_due E w).2).
Proof.
  intros [Wf Wr Wn Wk Wp]. unfold lease_due. cbn [fst snd].
  assert (Hz : forall g : OutboxRow U V -> Z, (forall t r, g (with_next t r) = g r) -> forall P (l : list (OutboxRow U V)) t,
    zsum g ((fun r => if decide (ox_id r ∈ (P : list nat)) then with_next t r else r) <$> l) = zsum g l).
  { intros g Hg P l t. induction l as [|r l IH]; [done|]. rewrite fmap_cons. cbn [zsum]. rewrite IH. case_decide; [by rewrite Hg|done]. }
  split_and!.
  - constructor; unfold set_outbox; cbn [ow_forwarders ow_outbox ow_next]; [done| |..]; try apply Forall_fmap.
    + rewrite <- list_fmap_compose. rewrite (list_fmap_ext (_ ∘ _) ox_id); [done|]. intros i r _. unfold compose. by case_decide.
    + eapply Forall_impl; [exact Wn|]. intros x Hx. unfold compose. by case_decide.
    + eapply Forall_impl; [exact Wk|]. intros x Hx. unfold compose. by case_decide.
    + eapply Forall_impl; [exact Wp|]. intros x Hx. unfold compose. by case_decide.
  - done.
  - intros id. unfold ledger, set_outbox. cbn [ow_forwarders ow_outbox]. by rewrite Hz.
  - intros k. unfold attempts_left, set_outbox. cbn [ow_outbox]. by rewrite Hz.
  - apply Forall_forall. intros row Hrow. exists (with_next (de_claim_at E + 300) row). split; [|done]. unfold set_outbox. cbn [ow_outbox]. apply list_elem_of_fmap.
    exists row. split; [|by apply (due_sub E)]. rewrite decide_True; [done|]. apply list_elem_of_fmap. eauto.
  - by apply due_nodup.
Qed.

(** An alert goes out without the database and counts for no one. *)
Lemma alert_ledger (E : forward_env U V) registry entry w id : fe_db E = false -> (forall u w, fe_others E u w = w) -> tables_ok w ->
  let w' := forward_to_all to_value E registry entry w in
  tables_ok w' /\ ow_forwarders w' = ow_forwarders w /\ ow_outbox w' = ow_outbox w /\ ow_next w' = ow_next w /\ ledger id w' = ledger id w.
Proof.
  intros Hdb Ho. unfold forward_to_all. revert w. induction registry as [|f reg IH]; intros w Hw; [done|]. cbn [foldl].
  assert (H1 : exists d, forward_one to_value E entry f w = {| ow_forwarders := ow_forwarders w; ow_outbox := ow_outbox w; ow_next := ow_next w; ow_delivered := d |}).
  { unfold forward_one. rewrite Ho, Hdb. destruct (wanted entry f); cbn [negb]; [|exists (ow_delivered w); by destruct w].
    destruct (if known_type _ then _ else _); [by eexists|exists (ow_delivered w); by destruct w]. }
  destruct H1 as [d ->]. destruct (IH {| ow_forwarders := ow_forwarders w; ow_outbox := ow_outbox w; ow_next := ow_next w; ow_delivered := d |}) as (? & ? & ? & ? & ?); [by destruct Hw|].
  done.
Qed.

(** ** Runs of one server *)

Inductive outbox_op :=
  | OpForward (E : forward_env U V) (registry : list (LogForwarder U V)) (entry : LogEntry)
  | OpDrain (E : drain_env U V) (F : forward_env U V) (registry : list (LogForwarder U V)) (now : Z) (id created_at : string) (a : alert_state).
Definition run_op (op : outbox_op) w : W :=
  match op with
  | OpForward E registry entry => forward_to_all to_value E registry entry w
  | OpDrain E F registry now id created_at a => (drain_once to_value from_value E F registry now id created_at a w).1.1
  end.
(** The statements succeed, the insert of a parked row apart, and nobody else writes; the
    snapshot names forwarders of the table. *)
Definition op_ok (ids : list U) (op : outbox_op) : Prop :=
  match op with
  | OpForward E registry entry => fe_db E = true /\ (forall u i, i <> 1%nat -> fe_stmt E u i = true) /\ (forall u w, fe_others E u w = w) /\
      Forall (fun f => wanted entry f = true -> lf_id f ∈ ids) registry
  | OpDrain E F _ _ _ _ _ => (forall i j, de_stmt E i j = true) /\ (forall i w, de_others E i w = w) /\ (forall u w, fe_others F u w = w)
  end.
Definition op_wanted (id : U) (op : outbox_op) : Z :=
  match op with OpForward _ registry entry => wanted_by id registry entry | OpDrain _ _ _ _ _ _ _ => 0 end.
(** The attempts of a drain on the row [k]. *)
Definition op_attempts (k : nat) (op : outbox_op) w : Z :=
  match op with
  | OpForward _ _ _ => 0
  | OpDrain E _ registry _ _ _ _ => if de_claim E then zsum (attempts_of k registry) (claimable E (ow_outbox w)) else 0
  end.
Lemma drain_once_ledger E F registry now aid created_at a w id k : op_ok (lf_id <$> ow_forwarders w) (OpDrain E F registry now aid created_at a) -> tables_ok w ->
  let op := OpDrain E F registry now aid created_at a in
  tables_ok (run_op op w) /\ lf_id <$> ow_forwarders (run_op op w) = lf_id <$> ow_forwarders w /\ ledger id (run_op op w) = ledger id w /\
  attempts_left k (run_op op w) + op_attempts k op w <= attempts_left k w.
Proof.
  intros (Hs & Ho & Hf) Hw. cbn [run_op op_attempts]. unfold drain_once. destruct (alert_due _ now a) as [a' alert].
  set (w1 := match alert with Some dwell => _ | None => w end).
  assert (H1 : tables_ok w1 /\ ow_forwarders w1 = ow_forwarders w /\ ow_outbox w1 = ow_outbox w /\ ow_next w1 = ow_next w /\ ledger id w1 = ledger id w).
  { subst w1. destruct alert as [dwell|]; [|done]. by apply alert_ledger. }
  destruct H1 as (Hw1 & Hfw & Hob & _ & Hl1). destruct (de_claim E); cbn [negb]; [|cbn [fst]; rewrite Hfw, Hl1; split_and!; [done..|]; unfold attempts_left; rewrite Hob; lia].
  destruct (claim_ledger E w1 Hw1) as (Hw2 & Hi2 & Hl2 & Ha2 & Hp2 & Hn2).
  assert (Hdue : (lease_due E w1).2 = claimable E (ow_outbox w)) by (unfold lease_due; cbn [snd]; by rewrite Hob).
  destruct (lease_due E w1) as [w2 due]. cbn [fst snd] in *. subst due. destruct (drain_rows_ledger E registry 0 _ w2 id k Hs Ho Hw2 Hp2 Hn2) as (Hw3 & Hi3 & Hl3 & Ha3).
  split_and!; [done|by rewrite Hi3, Hi2, Hfw|by rewrite Hl3, Hl2, Hl1|]. specialize (Ha2 k). unfold attempts_left in *. rewrite Hob in Ha2. lia.
Qed.
Lemma run_op_ledger op w id : op_ok (lf_id <$> ow_forwarders w) op -> tables_ok w ->
  tables_ok (run_op op w) /\ lf_id <$> ow_forwarders (run_op op w) = lf_id <$> ow_forwarders w /\ ledger id (run_op op w) = ledger id w + op_wanted id op.
Proof.
  intros Hop Hw. destruct op as [E registry entry|E F registry now aid created_at a].
  - destruct Hop as (Hdb & Hs & Ho & Hreg). by apply forward_ledger.
  - destruct (drain_once_ledger E F registry now aid created_at a w id 0%nat Hop Hw) as (? & ? & -> & _). split_and!; [done|done|simpl; lia].
Qed.

(** C25: Over any run of one server's forwarding and drains, whatever the receivers answer and
    whether or not a failed entry can be parked, while the other statements succeed, nobody else
    writes the tables, and the registry names rows of the table: every entry a forwarder was to
    get is counted as sent, counted as an error, or still parked.  The sum of the three grows by
    one per entry and forwarder that wants it, and a drain leaves it as it is.  The ids stay
    unique and every parked row has attempts left. *)
Theorem entries_accounted ops w id : tables_ok w -> Forall (op_ok (lf_id <$> ow_forwarders w)) ops ->
  let w' := foldl (fun w op => run_op op w) w ops in
  tables_ok w' /\ ledger id w' = ledger id w + zsum (op_wanted id) ops.
Proof.
  intros Hw Hops. cbn zeta. revert w Hw Hops. induction ops as [|op ops IH]; intros w Hw Hops; [split; [done|simpl; lia]|].
  inversion Hops as [|? ? Hop Hops']. subst. cbn [foldl zsum]. destruct (run_op_ledger op w id Hop Hw) as (Hw1 & Hi1 & Hl1).
  destruct (IH _ Hw1) as [Hw2 Hl2]; [by rewrite Hi1|]. split; [done|]. rewrite Hl2, Hl1. lia.
Qed.

(** *** Attempts *)

(** What the row [k] may still take: what it has left, or 24 if it is yet to be parked. *)
Definition allowance (k : nat) w : Z := attempts_left k w + if decide (ow_next w <= k)%nat then MAX_OUTBOX_ATTEMPTS else 0.
Lemma allowance_same k w w' : ow_outbox w' = ow_outbox w -> ow_next w' = ow_next w -> allowance k w' = allowance k w.
Proof. unfold allowance, attempts_left. by intros -> ->. Qed.
Lemma forward_allowance (E : forward_env U V) registry entry w k : (forall u w, fe_others E u w = w) ->
  allowance k (forward_to_all to_value E registry entry w) = allowance k w.
Proof.
  intros Ho. unfold forward_to_all. revert w. induction registry as [|f reg IH]; intros w; [done|]. cbn [foldl]. rewrite IH. clear IH.
  unfold forward_one. rewrite Ho. destruct (wanted entry f); cbn [negb]; [|done].
  set (res := if known_type _ then _ else _). clearbody res. destruct res as [[]|err], (fe_db E); cbn [negb]; try done; [by apply allowance_same; destruct (fe_stmt E (lf_id f) 0)|].
  set (w1 := if fe_stmt E (lf_id f) 0 then _ else w). assert (H1 : allowance k w1 = allowance k w) by (subst w1; apply allowance_same; by destruct (fe_stmt E (lf_id f) 0)).
  rewrite <- H1. generalize w1. intros w2. destruct (round_trip entry) as (p & -> & _).
  destruct (fe_stmt E (lf_id f) 1 && bool_decide _); [|by apply allowance_same; destruct (fe_stmt E (lf_id f) 2)].
  unfold allowance, attempts_left, park. cbn [ow_outbox ow_next]. rewrite zsum_app. cbn [zsum]. unfold left_of at 2. cbn [ox_id ox_attempts].
  unfold MAX_OUTBOX_ATTEMPTS. repeat case_decide; lia.
Qed.
Lemma drain_rows_next (E : drain_env U V) registry i rows w : (forall i w, de_others E i w = w) -> ow_next (drain_rows from_value E registry i rows w) = ow_next w.
Proof.
  intros Ho. revert i w. induction rows as [|row rows IH]; intros i w; [done|]. cbn [drain_rows]. rewrite IH. unfold drain_row. rewrite Ho.
  destruct (list_find _ registry) as [[j rt]|]; [|done]. destruct (lf_enabled rt); cbn [negb]; [|done].
  destruct (from_value (ox_payload row)); [|by destruct (de_stmt E i 0)]. destruct (if known_type _ then _ else _) as [[]|err].
  - by destruct (de_stmt E i 0), (de_stmt E i 1).
  - destruct (_ <=? _); [by destruct (de_stmt E i 0), (de_stmt E i 1)|by destruct (de_stmt E i 0)].
Qed.
Lemma op_allowance op w k : op_ok (lf_id <$> ow_forwarders w) op -> tables_ok w -> allowance k (run_op op w) + op_attempts k op w <= allowance k w.
Proof.
  intros Hop Hw. destruct op as [E registry entry|E F registry now aid created_at a].
  - destruct Hop as (_ & _ & Ho & _). cbn [run_op op_attempts]. rewrite forward_allowance by done. lia.
  - destruct (drain_once_ledger E F registry now aid created_at a w uuid_nil k Hop Hw) as (_ & _ & _ & Ha). destruct Hop as (_ & Ho & Hf).
    assert (Hnext : ow_next (run_op (OpDrain E F registry now aid created_at a) w) = ow_next w); [|unfold allowance; rewrite Hnext; lia].
    cbn [run_op]. unfold drain_once. destruct (alert_due _ now a) as [a' alert]. set (w1 := match alert with Some dwell => _ | None => w end).
    assert (Hn1 : ow_next w1 = ow_next w) by (subst w1; destruct alert as [dwell|]; [|done]; match goal with |- ow_next (forward_to_all _ ?E' _ ?e _) = _ => by apply (alert_ledger E' registry e w uuid_nil) end).
    destruct (de_claim E); cbn [negb]; [|done]. unfold lease_due. cbn [fst]. by rewrite drain_rows_next.
Qed.

(** The attempts a run makes on the row [k]. *)
Fixpoint row_attempts (k : nat) (ops : list outbox_op) w : Z :=
  match ops with [] => 0 | op :: ops => op_attempts k op w + row_attempts k ops (run_op op w) end.
Lemma row_attempts_allowed k ops w : tables_ok w -> Forall (op_ok (lf_id <$> ow_forwarders w)) ops -> row_attempts k ops w <= allowance k w.
Proof.
  revert w. induction ops as [|op ops IH]; intros w Hw Hops; cbn [row_attempts].
  - unfold allowance, attempts_left. assert (0 <= zsum (left_of k) (ow_outbox w)); [|unfold MAX_OUTBOX_ATTEMPTS; case_decide; lia].
    destruct Hw as [_ _ _ _ Hp]. induction Hp as [|r l [_ Hr] _ IH]; [done|]. cbn [zsum]. unfold left_of at 1. case_decide; lia.
  - inversion Hops as [|? ? Hop Hops']. subst. pose proof (op_allowance op w k Hop Hw) as Ha. destruct (run_op_ledger op w uuid_nil Hop Hw) as (Hw1 & Hi1 & _).
    specialize (IH _ Hw1). rewrite Hi1 in IH. specialize (IH Hops'). lia.
Qed.
Lemma left_of_absent k (l : list (OutboxRow U V)) : k ∉ ox_id <$> l -> zsum (left_of k) l = 0.
Proof.
  induction l as [|r l IH]; [done|]. rewrite fmap_cons. intros [Hr Hl]%not_elem_of_cons. cbn [zsum]. rewrite IH by done. unfold left_of. by rewrite decide_False.
Qed.
Lemma left_of_row (l : list (OutboxRow U V)) row : NoDup (ox_id <$> l) -> row ∈ l -> zsum (left_of (ox_id row)) l = MAX_OUTBOX_ATTEMPTS - ox_attempts row.
Proof.
  intros Hn Hr. pose proof (proj2 (zsum_change ox_id (left_of (ox_id row)) row (fun x => x) l Hn Hr)) as Hz. rewrite left_of_absent in Hz.
  - unfold left_of at 2 in Hz. rewrite decide_True in Hz by done. lia.
  - intros (x & He & [Hx _]%list_elem_of_filter)%list_elem_of_fmap. done.
Qed.
Lemma allowance_bounds k w : tables_ok w -> allowance k w <= MAX_OUTBOX_ATTEMPTS /\ forall row, row ∈ ow_outbox w -> ox_id row = k -> allowance k w = MAX_OUTBOX_ATTEMPTS - ox_attempts row.
Proof.
  intros [_ Wr Wn _ Wp]. unfold allowance, attempts_left. rewrite Forall_forall in Wn, Wp.
  assert (Hrow : forall row, row ∈ ow_outbox w -> ox_id row = k ->
    zsum (left_of k) (ow_outbox w) + (if decide (ow_next w <= k)%nat then MAX_OUTBOX_ATTEMPTS else 0) = MAX_OUTBOX_ATTEMPTS - ox_attempts row).
  { intros row Hr <-. rewrite left_of_row by done. specialize (Wn _ Hr). rewrite decide_False by lia. lia. }
  split; [|done]. destruct (decide (k ∈ ox_id <$> ow_outbox w)) as [(row & -> & Hr)%list_elem_of_fmap|Hk].
  - rewrite (Hrow row Hr eq_refl). destruct (Wp _ Hr) as [_ ?]. lia.
  - rewrite left_of_absent by done. unfold MAX_OUTBOX_ATTEMPTS. case_decide; lia.
Qed.

(** C30: Retries end.  However long one server forwards and drains, whatever the receivers answer,
    while every statement but the parking insert succeeds, nobody else writes the tables and the
    registry names rows of the table: no row is attempted more often than 24 times, one that has
    been attempted before no more often than it has left; and the pause after a failed attempt
    is half a minute at first, doubles, and is never over an hour. *)
Theorem retries_end ops w k : tables_ok w -> Forall (op_ok (lf_id <$> ow_forwarders w)) ops ->
  row_attempts k ops w <= 24 /\
  (forall row, row ∈ ow_outbox w -> ox_id row = k -> row_attempts k ops w <= 24 - ox_attempts row) /\
  forall n, 1 <= n -> 30 <= outbox_backoff_secs n <= 3600 /\ (outbox_backoff_secs n < 3600 -> outbox_backoff_secs (n + 1) = Z.min (2 * outbox_backoff_secs n) 3600).
Proof.
  intros Hw Hops. pose proof (row_attempts_allowed k ops w Hw Hops) as Ha. destruct (allowance_bounds k w Hw) as [Hmax Hrow]. unfold MAX_OUTBOX_ATTEMPTS in *. split_and!.
  - lia.
  - intros row Hr Hk. rewrite <- (Hrow row Hr Hk). done.
  - intros n Hn. unfold outbox_backoff_secs. rewrite (Z.max_l n 1), (Z.max_l (n + 1) 1) by lia. replace (n + 1 - 1) with n by lia.
    destruct (decide (n <= 7)) as [Hle|Hgt].
    + assert (n = 1 \/ n = 2 \/ n = 3 \/ n = 4 \/ n = 5 \/ n = 6 \/ n = 7) as Hc by lia. repeat destruct Hc as [->|Hc]; [by vm_compute..|]. subst n. by vm_compute.
    + rewrite (Z.min_r (n - 1) 7), (Z.min_r n 7) by lia. change (30 * 2 ^ 7) with 3840. lia.
Qed.
End Ledger.

(** * The audit worker and the outbox, on concrete values *)

Definition entry (id action : string) : LogEntry :=
  {| le_id := id; le_created_at := "2026-03-09T10:00:00Z"; le_entry := SystemActor_audit action |}.

(** ** The worker *)

(** An entry a failed tick keeps is stored by the next, ahead of what came later. *)
Lemma entries_kept_in_order_witness :
  let w := run_worker [Received (entry "1" "a") None; Ticked (fun _ => Some false); Received (entry "2" "b") None; Ticked (fun _ => Some true)] in
  settled LogAudit w = [entry "1" "a"; entry "2" "b"] /\
  received LogAudit [Received (entry "1" "a") None; Ticked (fun _ => Some false); Received (entry "2" "b") None; Ticked (fun _ => Some true)] = settled LogAudit w.
Proof.
  cbn zeta. split; [vm_compute; reflexivity|].
  destruct (entries_kept_in_order [Received (entry "1" "a") None; Ticked (fun _ => Some false); Received (entry "2" "b") None; Ticked (fun _ => Some true)] LogAudit) as (Hr & _).
  rewrite Hr at 1. vm_compute. reflexivity.
Defined.
(** A failed flush at fifty entries is followed by an attempt for every entry that arrives. *)
Fixpoint inserts (events : list worker_event) (w : audit_worker) : nat :=
  match events with
  | [] => 0
  | (Received e ch as ev) :: events => (if (50 <=? length (aw_batches w (le_type e) ++ [e]))%nat then 1 else 0) + inserts events (worker_step ev w)
  | ev :: events => inserts events (worker_step ev w)
  end%nat.
Example full_batch_tried_per_entry : inserts (repeat (Received (entry "1" "a") (Some false)) 80) worker_new = 31%nat.
Proof. vm_compute. done. Qed.

(** ** The outbox *)

Definition hook : LogForwarder demo_uuid LogEntry :=
  {| lf_id := UKey1; lf_forwarder_type := "webhook"; lf_config := entry "" ""; lf_enabled := true; lf_log_types := ["audit"];
     lf_sent_count := 0; lf_error_count := 0; lf_last_sent_at := None; lf_last_error := None |}.
Definition empty_tables : outbox_world demo_uuid LogEntry := {| ow_forwarders := [hook]; ow_outbox := []; ow_next := 0; ow_delivered := [] |}.
Lemma copies_back : forall e : LogEntry, exists p, Some e = Some p /\ Some p = Some e.
Proof. eauto. Qed.
Definition inline (ok : bool) : forward_env demo_uuid LogEntry :=
  {| fe_db := true; fe_now := 0; fe_send := fun _ _ => if ok then Ok tt else Err "down"; fe_stmt := fun _ _ => true; fe_others := fun _ w => w |}.
Definition drain_at (t : Z) (ok : bool) : drain_env demo_uuid LogEntry :=
  {| de_depth := Some 0; de_claim := true; de_claim_at := t; de_locked := fun _ => false; de_now := fun _ => t;
     de_send := fun _ _ _ => if ok then Ok tt else Err "down"; de_stmt := fun _ _ => true; de_others := fun _ w => w |}.
Definition no_alert : alert_state := {| as_over_since := None; as_last_alert := None |}.
Definition drain_op (t : Z) (ok : bool) : outbox_op := OpDrain (drain_at t ok) (inline true) [hook] t "x" "y" no_alert.
Definition run (ops : list outbox_op) (w : outbox_world demo_uuid LogEntry) := foldl (fun w op => run_op Some Some op w) w ops.

Lemma forward_fits ok e : op_ok (lf_id <$> ow_forwarders empty_tables) (OpForward (inline ok) [hook] e).
Proof. split_and!; [done|done|done|]. constructor; [|constructor]. intros _. set_solver. Qed.
Lemma drain_fits t ok ids : op_ok ids (drain_op t ok).
Proof. done. Qed.
Lemma empty_ok : tables_ok Some empty_tables.
Proof. constructor; cbn; [apply NoDup_singleton|constructor..]. Qed.

(** One entry that arrives, one that is parked, fails again and arrives half a minute later. *)
Definition a_day : list (outbox_op (U := demo_uuid)) :=
  [OpForward (inline true) [hook] (entry "1" "a"); OpForward (inline false) [hook] (entry "2" "b"); drain_op 10 false; drain_op 20 true; drain_op 40 true].
Lemma entries_accounted_witness :
  ledger UKey1 (run a_day empty_tables) = 2 /\ ow_outbox (run a_day empty_tables) = [] /\
  (le_id ∘ snd) <$> ow_delivered (run a_day empty_tables) = ["1"; "2"].
Proof.
  split_and!; [|vm_compute; reflexivity|vm_compute; reflexivity].
  destruct (entries_accounted Some Some copies_back a_day empty_tables UKey1 empty_ok) as [_ Hl].
  - repeat constructor; first [apply forward_fits|apply drain_fits|done|set_solver].
  - unfold run. rewrite Hl. vm_compute. reflexivity.
Defined.

(** A row of a receiver that stays down: each of its 24 attempts ends a failure. *)
Definition stuck_row : OutboxRow demo_uuid LogEntry :=
  {| ox_id := 0; ox_forwarder_id := UKey1; ox_payload := entry "2" "b"; ox_attempts := 0; ox_next_attempt_at := 0; ox_last_error := Some "down" |}.
Definition one_parked : outbox_world demo_uuid LogEntry := {| ow_forwarders := [hook]; ow_outbox := [stuck_row]; ow_next := 1; ow_delivered := [] |}.
Definition two_days : list (outbox_op (U := demo_uuid)) := (fun h => drain_op (Z.of_nat h * 3600) false) <$> seq 0 48.
Lemma retries_end_witness :
  row_attempts Some Some 0 two_days one_parked = 24 /\ row_attempts Some Some 0 two_days one_parked <= 24 /\
  ow_outbox (run two_days one_parked) = [].
Proof.
  split_and!; [vm_compute; reflexivity| |vm_compute; reflexivity].
  destruct (retries_end Some Some copies_back two_days one_parked 0%nat) as [Hl _]; [| |exact Hl].
  - constructor; [by apply NoDup_singleton|by apply NoDup_singleton|apply Forall_singleton; cbn; lia|apply Forall_singleton; cbn; set_solver|apply Forall_singleton].
    cbn. split; [by eexists|unfold MAX_OUTBOX_ATTEMPTS; lia].
  - apply Forall_fmap, Forall_true. intros h. apply drain_fits.
Defined.

(** Twelve rows whose receiver takes thirty seconds each: by the turn of the last its lease is
    over, another server has delivered it, and this one delivers it again. *)
Definition twelve_parked : outbox_world demo_uuid LogEntry :=
  {| ow_forwarders := [hook]; ow_next := 12; ow_delivered := [];
     ow_outbox := (fun i => {| ox_id := i; ox_forwarder_id := UKey1; ox_payload := entry (pretty i) "b"; ox_attempts := 0; ox_next_attempt_at := 0; ox_last_error := None |}) <$> seq 0 12 |}.
Definition slow_drain : drain_env demo_uuid LogEntry :=
  {| de_depth := Some 12; de_claim := true; de_claim_at := 0; de_locked := fun _ => false; de_now := fun i => 30 * Z.of_nat i;
     de_send := fun _ _ _ => Ok tt; de_stmt := fun _ _ => true;
     de_others := fun i w => if decide (i = 11%nat) then run [drain_op 330 true] w else w |}.
Example expired_lease_delivers_twice :
  drop 10 ((le_id ∘ snd) <$> ow_delivered (run [OpDrain slow_drain (inline true) [hook] 0 "x" "y" no_alert] twelve_parked)) = ["10"; "11"; "11"].
Proof. vm_compute. done. Qed.

(** A facility over 31 does not fit the priority's byte: 32 reads as the kernel's. *)
Example facility_wraps : str_take 4 (build_syslog_message 32 (entry "1" "a") false) = "<6>1".
Proof. vm_compute. done. Qed.
