(* ===== verification/McpProxy.v ===== *)
(** * A request to the MCP gateway

    [crates/mcp-gateway/src/proxy.rs], [lifecycle/] and [transport/streamable_http.rs]: one
    [tools/call] through the gates, the cache, the breaker, the caller's session and credential,
    to the upstream and back, on everything the pods share.  Others may act on it wherever the
    handler waits. *)

From Stdlib Require Import Ascii.
From S2P Require Import ApiKeyAuth Prelude Interfaces GatewayDeps Text LimitTypes Constraints Sliding Effects ExpiringKeys AuditRow Lifecycle.
From S2P Require Import McpRegistry McpCache McpBreaker McpSse McpSessions McpUpstream McpPool McpCredentials AuditBodies Memory.

(** What a registered tool carries besides its name. *)
Record tool_info := { ti_description : option string; ti_input_schema : option json }.
Record user_tool {U : Type} := { ut_server : U; ut_user : U; ut_name : string; ut_info : tool_info }.
#[global] Arguments user_tool : clear implicits.
Abbreviation tool_server U := (RegisteredServer U tool_info server_config).
Abbreviation rpc_response := (McpUpstream.JsonRpcResponse json).
Abbreviation rpc_request := (RpcRequest json).

(** What the requests of all pods share: the limiter's hashes and the counters in Redis, the
    sessions, the response cache, this pod's breakers, pools and registry, and the tables. *)
Record mcp_shared {U Hs Ks St Bs P : Type} := {
  sh_limits : Hs; sh_counters : Ks; sh_sessions : session_world U St; sh_cache : cache_redis;
  sh_breakers : breaker_world U Bs; sh_pools : pools U; sh_creds : cred_world U P;
  sh_registry : Registry U tool_info server_config; sh_user_tools : list (user_tool U);
}.
#[global] Arguments mcp_shared : clear implicits.
(** With the rows this request has handed to the audit log and the requests it has sent. *)
Record mcp_world {U Hs Ks St Bs P : Type} := {
  mw_shared : mcp_shared U Hs Ks St Bs P; mw_rows : list AuditEntry; mw_sent : list (U * http_request json);
}.
#[global] Arguments mcp_world : clear implicits.

(** The libraries the gateway calls: AES-GCM, [serde_json], the token endpoints, Redis's own
    slots and scans, the size limit of a cached body, the crate's version, and the database's order
    of rows by server and name. *)
Record mcp_libs {U P : Type} := {
  lb_decrypt : string -> result string string; lb_encrypt : string -> result string string;
  lb_parse_token : string -> result string TokenResponse; lb_oauth_error : string -> option string;
  lb_token_endpoint : OAuthClientCfg -> list (string * string) -> P -> P * token_reply; lb_max_datetime : Z;
  lb_session_json : McpSession U -> option string; lb_json_session : string -> option (McpSession U);
  lb_parse_json : string -> option json; lb_json_text : json -> string; lb_response_text : rpc_response -> string;
  lb_decode : json -> result string rpc_response; lb_decode_text : string -> result string rpc_response;
  lb_to_lowercase : string -> string;
  lb_slot : string -> Z; lb_clustered : bool; lb_scan : string -> gmap string string -> list (result unit string);
  lb_body_fits : string -> bool;
  lb_version : string; lb_by_server_and_name : list (user_tool U) -> list (user_tool U);
}.
#[global] Arguments mcp_libs : clear implicits.

(** What differs from call to call: the pool the proxy was built with, the settings, the clocks,
    how Redis and the database answer, the network, the room for what is buffered, and whether
    the client leaves a stream, after how many chunks and events. *)
Record call_env {U Hs Ks St Bs P : Type} := {
  pe_pool : nat; pe_cache_ttl : Z; pe_fail_closed : bool; pe_link : link; pe_limit_at : Z;
  pe_cache_up : bool; pe_store_up : bool; pe_check_at : Z; pe_record_at : Z;
  pe_get_session : session_env U St; pe_set_session : session_env U St;
  pe_creds : cred_env U P; pe_wipe_net : nat -> bool;
  pe_net : http_request json -> result string http_reply; pe_read : Z -> http_reply -> result ReadError string; pe_max_body : Z;
  pe_admitted : nat -> bool; pe_cancelled : option (nat * nat);
  pe_capture : capture_config; pe_redactor : Redactor; pe_store : BlobStore; pe_started_at : Z; pe_elapsed : Z;
  pe_others : nat -> mcp_shared U Hs Ks St Bs P -> mcp_shared U Hs Ks St Bs P;
}.
#[global] Arguments call_env : clear implicits.

Record McpIdentity {U : Type} := {
  mn_user_id : U; mn_user_email : string; mn_ip_address : option string;
  mn_surface_constraints : SurfaceConstraints; mn_allowed_mcp_tools : option (list string);
}.
#[global] Arguments McpIdentity : clear implicits.
Record RequestContext {U : Type} := {
  rc_user_id : U; rc_user_email : string; rc_client_session_id : string; rc_surface_constraints : SurfaceConstraints;
  rc_api_key_lineage_id : option U; rc_key_constraints : SurfaceConstraints; rc_allowed_mcp_tools : option (list string);
  rc_trace_id : string; rc_mcp_account_overrides : json; rc_ip_address : option string; rc_wants_streaming : bool;
}.
#[global] Arguments RequestContext : clear implicits.

(** A buffered answer, or the events of a stream. *)
Inductive HandleOutcome := HBuffered (response : rpc_response) | HStreaming (events : list string).
(** How a handler ends early: with its answer, or in a panic. *)
Inductive halt := Answered (o : HandleOutcome) | Crashed (where_ : string).

(** [Value::as_object_mut] and [Map::insert]. *)
Definition obj_insert (k : string) (x v : json) : json :=
  match v with Interfaces.JObj fields => Interfaces.JObj (assoc_insert k x fields) | _ => v end.
(** A value within the detail of an audit row. *)
Fixpoint to_jval (v : json) : jval :=
  match v with
  | Interfaces.JNull => AuditRow.JNull | Interfaces.JBool b => AuditRow.JBool b | Interfaces.JNum n => AuditRow.JNum n
  | Interfaces.JStr s => AuditRow.JStr s
  | Interfaces.JArr l => AuditRow.JArr (to_jval <$> l)
  | Interfaces.JObj l => AuditRow.JObj ((fun p => (p.1, to_jval p.2)) <$> l)
  end.
Definition opt_jval {A} (f : A -> jval) (o : option A) : jval := match o with Some x => f x | None => AuditRow.JNull end.
Definition opt_json {A} (f : A -> json) (o : option A) : json := match o with Some x => f x | None => Interfaces.JNull end.

Section Proxy.
Context {U : Type} `{UuidParse U} `{!CacheText U} {Hs Ks St Bs P : Type} `{Redis Hs} `{ExpiringKeys St} `{KeyedBreakers U Bs}.
Context (L : mcp_libs U P).
Abbreviation shared := (mcp_shared U Hs Ks St Bs P).
Abbreviation world := (mcp_world U Hs Ks St Bs P).
Abbreviation M := (io world halt).
Implicit Types (E : call_env U Hs Ks St Bs P) (w : world) (s : shared).

(** ** Parts of the world *)

Definition with_shared (f : shared -> shared) w : world := {| mw_shared := f (mw_shared w); mw_rows := mw_rows w; mw_sent := mw_sent w |}.
Definition set_gates (g : gates Hs Ks) w : world :=
  let s := mw_shared w in
  {| mw_shared := {| sh_limits := g_hashes g; sh_counters := g_counters g; sh_sessions := sh_sessions s; sh_cache := sh_cache s;
                     sh_breakers := sh_breakers s; sh_pools := sh_pools s; sh_creds := sh_creds s;
                     sh_registry := sh_registry s; sh_user_tools := sh_user_tools s |};
     mw_rows := g_audit g; mw_sent := mw_sent w |}.
Definition set_sessions (x : session_world U St) s : shared :=
  {| sh_limits := sh_limits s; sh_counters := sh_counters s; sh_sessions := x; sh_cache := sh_cache s; sh_breakers := sh_breakers s;
     sh_pools := sh_pools s; sh_creds := sh_creds s; sh_registry := sh_registry s; sh_user_tools := sh_user_tools s |}.
Definition set_cache (x : cache_redis) s : shared :=
  {| sh_limits := sh_limits s; sh_counters := sh_counters s; sh_sessions := sh_sessions s; sh_cache := x; sh_breakers := sh_breakers s;
     sh_pools := sh_pools s; sh_creds := sh_creds s; sh_registry := sh_registry s; sh_user_tools := sh_user_tools s |}.
Definition set_breakers (x : breaker_world U Bs) s : shared :=
  {| sh_limits := sh_limits s; sh_counters := sh_counters s; sh_sessions := sh_sessions s; sh_cache := sh_cache s; sh_breakers := x;
     sh_pools := sh_pools s; sh_creds := sh_creds s; sh_registry := sh_registry s; sh_user_tools := sh_user_tools s |}.
Definition set_pools (x : pools U) s : shared :=
  {| sh_limits := sh_limits s; sh_counters := sh_counters s; sh_sessions := sh_sessions s; sh_cache := sh_cache s; sh_breakers := sh_breakers s;
     sh_pools := x; sh_creds := sh_creds s; sh_registry := sh_registry s; sh_user_tools := sh_user_tools s |}.
Definition set_creds (x : cred_world U P) s : shared :=
  {| sh_limits := sh_limits s; sh_counters := sh_counters s; sh_sessions := sh_sessions s; sh_cache := sh_cache s; sh_breakers := sh_breakers s;
     sh_pools := sh_pools s; sh_creds := x; sh_registry := sh_registry s; sh_user_tools := sh_user_tools s |}.
Definition set_user_tools (x : list (user_tool U)) s : shared :=
  {| sh_limits := sh_limits s; sh_counters := sh_counters s; sh_sessions := sh_sessions s; sh_cache := sh_cache s; sh_breakers := sh_breakers s;
     sh_pools := sh_pools s; sh_creds := sh_creds s; sh_registry := sh_registry s; sh_user_tools := x |}.
Definition push_row (e : AuditEntry) w : world := {| mw_shared := mw_shared w; mw_rows := mw_rows w ++ [e]; mw_sent := mw_sent w |}.
Definition push_sent (server_id : U) (r : http_request json) w : world :=
  {| mw_shared := mw_shared w; mw_rows := mw_rows w; mw_sent := mw_sent w ++ [(server_id, r)] |}.

(** Steps on one part. *)
Definition on_gates {A} (p : prog (gates Hs Ks) A) : prog world A := fun w =>
  let '(g, a) := p {| g_hashes := sh_limits (mw_shared w); g_counters := sh_counters (mw_shared w); g_audit := mw_rows w |} in
  (set_gates g w, a).
Definition on_sessions {A} (p : prog (session_world U St) A) : prog world A := fun w =>
  let '(x, a) := p (sh_sessions (mw_shared w)) in (with_shared (set_sessions x) w, a).
Definition on_pools {A} (p : prog (pools U) A) : prog world A := fun w =>
  let '(x, a) := p (sh_pools (mw_shared w)) in (with_shared (set_pools x) w, a).
Definition wait E (i : nat) : prog world unit := fun w => (with_shared (pe_others E i) w, tt).
Definition step {A} (p : prog world A) : M A := fun w => let '(w, a) := p w in (w, Ok a).
Definition answer {A} (r : rpc_response) : M A := throw (Answered (HBuffered r)).
(** A gate, its refusal bound to the request's id. *)
Definition gate {A} (id : option json) (p : prog world (result rpc_response A)) : M A :=
  r ← step p; match r with Ok a => mret a | Err resp => answer (with_id id resp) end.

(** ** The surface *)

Definition rate_limits (user_id : U) (user : SurfaceConstraints) (key : option (U * SurfaceConstraints)) : RequestLimits U :=
  let limits := for_request Surface.McpGateway user_id user key in
  {| rq_owner := rq_owner limits; rq_key_lineage := rq_key_lineage limits;
     rq_rules := filter (fun r => rr_metric r = RateMetric.Requests) (rq_rules limits); rq_caps := [] |}.
Definition row (identity : McpIdentity U) (action : string) : AuditEntry :=
  McpActor_audit {| ma_user_id := mn_user_id identity; ma_user_email := mn_user_email identity; ma_ip := mn_ip_address identity |} action.
Abbreviation mcp_invoked := (Invoked (McpIdentity U) rpc_response (list json)).
Definition McpSurface (outcome_hook cache_hook usage_hook audit_hook : mcp_invoked -> prog world unit) :
    Surface (McpIdentity U) rpc_response (list json) world := {|
  audit_entry := row;
  rate_limited_response label _ := err_response None INVALID_REQUEST ("Rate limited: " +:+ label);
  rate_limiter_unavailable_response := err_response None INVALID_REQUEST "Rate limited: rate_limiter_unavailable";
  is_access_allowed identity candidate := is_tool_allowed (mn_allowed_mcp_tools identity) candidate;
  access_denied_response _ := err_response None INVALID_REQUEST "Access denied for this tool";
  budget_exceeded_response label _ := err_response None INVALID_REQUEST ("Budget exceeded: " +:+ label);
  budget_unavailable_response := err_response None INVALID_REQUEST "Budget cap backend unavailable";
  hook_record_outcome := outcome_hook; hook_write_cache := cache_hook;
  hook_record_usage := usage_hook; hook_emit_audit := audit_hook;
|}.
(** [record_usage]: a tool call has no tokens. *)
Definition no_usage_hook (_ : mcp_invoked) : prog world unit := mret tt.

(** ** After the call *)

Record McpPostInvokeDeps := {
  pd_server_id : U; pd_server_name : string; pd_tool_name : string; pd_upstream_request : rpc_request;
  pd_logged_arguments : option json; pd_cache_scope_kind : ServerCacheScope; pd_cache_account_label : option string;
  pd_effective_cache_ttl : Z; pd_stream_audit_body : option string; pd_original_request_id : option json;
}.
Implicit Types (D : McpPostInvokeDeps) (inv : mcp_invoked).

Definition response_for_hooks inv D : rpc_response :=
  match inv_view inv with
  | Buffered r => r
  | Streaming outcome captured =>
      let envelope :=
        match pick_response_envelope (lb_decode L) captured (pd_original_request_id D) with
        | Some r => r
        | None =>
            err_response (pd_original_request_id D) INTERNAL_ERROR
              match outcome with
              | Natural => "Upstream stream ended without a response envelope"
              | UpstreamError _ message _ => "Upstream stream error: " +:+ message
              | ClientCancelled => "Client cancelled before upstream replied"
              end
        end in
      match outcome with
      | UpstreamError error_type message _ =>
          if bool_decide (error_type = "gateway_memory") then err_response (pd_original_request_id D) RESOURCE_BUSY message else envelope
      | _ => envelope
      end
  end.
Definition is_busy (r : rpc_response) : bool := match rp_error r with Some e => je_code e =? RESOURCE_BUSY | None => false end.
Definition is_server_failure (r : rpc_response) : bool :=
  match rp_error r with
  | Some e => (je_code e =? INTERNAL_ERROR) || ((-32099 <=? je_code e) && (je_code e <=? -32000))
  | None => false
  end.
Definition record_breaker_for_response E (server_id : U) (server_name : string) (r : rpc_response) s : shared :=
  if is_busy r then s
  else if is_server_failure r then set_breakers (record_failure server_id server_name (pe_record_at E) (sh_breakers s)) s
  else set_breakers (record_success server_id server_name (pe_record_at E) (sh_breakers s)) s.
Definition mcp_record_outcome E D inv : prog world unit := fun w =>
  (match inv_view inv with
   | Streaming (UpstreamError error_type _ _) _ =>
       if bool_decide (error_type = "gateway_memory") then w
       else with_shared (fun s => set_breakers (record_failure (pd_server_id D) (pd_server_name D) (pe_record_at E) (sh_breakers s)) s) w
   | _ => with_shared (record_breaker_for_response E (pd_server_id D) (pd_server_name D) (response_for_hooks inv D)) w
   end, tt).

Definition has_error (r : rpc_response) : bool := bool_decide (is_Some (rp_error r)).
Definition cache_scope (kind : ServerCacheScope) (user_id : U) (account_label : option string) : option (CallerScope U) :=
  match kind with McpRegistry.Global => None | PerCaller => Some {| cs_user_id := user_id; cs_account_label := account_label |} end.
Definition cache_request (r : rpc_request) : JsonRpcRequest json := {| jr_method := rq_method r; jr_params := rq_params r |}.
Definition mcp_write_cache E D inv : prog world unit := fun w =>
  if pd_effective_cache_ttl D =? 0 then (w, tt) else
  let response := response_for_hooks inv D in
  if has_error response then (w, tt) else
  let scope := cache_scope (pd_cache_scope_kind D) (mn_user_id (inv_identity inv)) (pd_cache_account_label D) in
  let put (c : cache_redis) :=
    {| cr_entries := cache_set (lb_json_text L) (fun r => Some (lb_response_text L r)) has_error (pe_store_up E) (pd_server_id D) scope
                       (cache_request (pd_upstream_request D)) response (cr_entries c);
       cr_sent := cr_sent c |} in
  (with_shared (fun s => set_cache (put (sh_cache s)) s) w, tt).

(** [emit_tools_call_audit]. *)
Definition call_row E D inv (response : rpc_response) (stream_audit_body : option string) : AuditEntry :=
  let '(status, error_message) := match rp_error response with Some e => ("error", Some (je_message e)) | None => ("ok", None) end in
  let capture := prepare_tool_capture (pe_capture E) (pe_redactor E) (pe_store E) (inv_trace_id inv)
                   (lb_json_text L <$> pd_logged_arguments D) stream_audit_body (lb_json_text L <$> rp_result response) in
  with_body_capture capture
    (with_detail (AuditRow.JObj
        [("server_id", AuditRow.JStr (uuid_str (pd_server_id D))); ("server_name", AuditRow.JStr (pd_server_name D));
         ("tool_name", AuditRow.JStr (pd_tool_name D)); ("arguments", opt_jval to_jval (pd_logged_arguments D));
         ("duration_ms", AuditRow.JNum (pe_elapsed E)); ("status", AuditRow.JStr status);
         ("error_message", opt_jval AuditRow.JStr error_message)])
      (with_trace_id (inv_trace_id inv) (row (inv_identity inv) "tools.call"))).
Definition mcp_emit_audit E D inv : prog world unit := fun w =>
  let stream_audit_body :=
    match inv_view inv with
    | Streaming _ captured => Some (lb_json_text L (Interfaces.JArr captured))
    | Buffered _ => pd_stream_audit_body D
    end in
  (push_row (call_row E D inv (response_for_hooks inv D) stream_audit_body) w, tt).
Definition after_call E D inv : prog world (Emitted rpc_response) :=
  run_post_invoke (H := McpSurface (mcp_record_outcome E D) (mcp_write_cache E D) no_usage_hook (mcp_emit_audit E D)) inv.

(** ** Stages *)

Definition account_label_for_server (overrides : json) (server_id : U) : option string := json_get (uuid_str server_id) overrides ≫= json_as_str.
Abbreviation authorized := (Authorized (McpIdentity U)).
Definition check_cache E (state : authorized) (server_id : U) (scope : option (CallerScope U)) (cache_ttl_secs : Z) (upstream_request : rpc_request)
    : prog world (result rpc_response authorized) := fun w =>
  if cache_ttl_secs =? 0 then (w, Ok state) else
  let of_json j := match lb_decode_text L j with Ok r => Some r | Err _ => None end in
  match cache_get (lb_json_text L) of_json (lb_body_fits L) (pe_cache_up E) server_id scope (cache_request upstream_request) (cr_entries (sh_cache (mw_shared w))) with
  | Some cached =>
      (push_row (with_detail (AuditRow.JObj [("server_id", AuditRow.JStr (uuid_str server_id)); ("tool", AuditRow.JStr (auth_access_candidate state))])
         (with_trace_id (auth_trace_id state) (row (auth_identity state) "tools.call.cache_hit"))) w, Err cached)
  | None => (w, Ok state)
  end.
Definition check_breaker E (state : authorized) (server_id : U) (server_name : string) : prog world (result rpc_response authorized) := fun w =>
  let '(b, admitted) := McpBreaker.check server_id server_name (pe_check_at E) (sh_breakers (mw_shared w)) in
  let w := with_shared (set_breakers b) w in
  if admitted then (w, Ok state)
  else
    (push_row (with_detail (AuditRow.JObj [("server_name", AuditRow.JStr server_name); ("tool", AuditRow.JStr (auth_access_candidate state))])
       (with_trace_id (auth_trace_id state) (row (auth_identity state) "tools.call.breaker_open"))) w,
     Err (err_response None INTERNAL_ERROR ("Upstream MCP server '" +:+ server_name +:+ "' is temporarily unavailable"))).

(** The lanes of the cache that the resolver has wiped. *)
Definition wipe_lane E (lane : U * option U) (c : cache_redis) : cache_redis :=
  match lane.2 with
  | Some u => (invalidate_user_lane (lb_slot L) (pe_wipe_net E) (lb_clustered L) (lb_scan L) lane.1 u c).1
  | None => (invalidate_server_lane (lb_slot L) (pe_wipe_net E) (lb_clustered L) (lb_scan L) lane.1 c).1
  end.
Definition with_wiped (lanes : list (U * option U)) (c : cred_world U P) : cred_world U P :=
  {| cw_users := cw_users c; cw_shared := cw_shared c; cw_provider := cw_provider c; cw_wiped := lanes |}.
Definition resolve_header E (server_id : U) (cfg : ServerAuthCfg) (user_id : U) (overrides : json) : prog world (result (stop U) (option AuthInjection)) := fun w =>
  let c := sh_creds (mw_shared w) in
  let '(c', r) := resolve (lb_decrypt L) (lb_encrypt L) (lb_parse_token L) (lb_oauth_error L) (lb_token_endpoint L) (lb_max_datetime L)
                    (pe_creds E) server_id cfg user_id overrides (with_wiped [] c) in
  (with_shared (fun s => set_cache (foldl (fun cache lane => wipe_lane E lane cache) (sh_cache s) (cw_wiped c'))
                           (set_creds (with_wiped (cw_wiped c ++ cw_wiped c') c') s)) w, r).
Definition needs_credentials_response (id : option json) (message : string) (fields : list (string * json)) : rpc_response :=
  {| rp_jsonrpc := "2.0"; rp_id := id; rp_result := None;
     rp_error := Some {| je_code := NEEDS_USER_CREDENTIALS; je_message := message;
                         je_data := Some (Interfaces.JObj (("kind", Interfaces.JStr "needs_user_credentials") :: fields)) |} |}.
Definition authorize_endpoint (server : tool_server U) : option string := sc_oauth_cfg (rs_upstream server) ≫= oc_authorization_endpoint.
(** How a failed resolution ends the call. *)
Definition credential_refusal (id : option json) (server : tool_server U) (e : stop U) : halt :=
  let name := rs_name server in
  let data (server_id : U) (url : option string) (console_url : string) (owner : CredentialOwner) : list (string * json) :=
    [("server_id", Interfaces.JStr (uuid_str server_id)); ("server_name", Interfaces.JStr name); ("authorize_url", opt_json Interfaces.JStr url);
     ("console_url", Interfaces.JStr console_url); ("owner", Interfaces.JStr (CredentialOwner_as_str owner))] in
  let console_url (owner : CredentialOwner) := match owner with PerUser => "/connections" | AdminShared => "/admin/mcp/servers" end in
  match e with
  | Panicked where_ => Crashed where_
  | Failed (NeedsUserCredentials server_id url owner) =>
      let url := match url with Some u => Some u | None => authorize_endpoint server end in
      let msg := match owner with
                 | PerUser => "User has not connected an account for MCP server '" +:+ name +:+ "'. Open /connections in the ThinkWatch console to authorize."
                 | AdminShared => "MCP server '" +:+ name +:+ "' is configured to use a shared credential, but no admin has provisioned one yet. Ask an administrator to configure it in the server settings."
                 end in
      Answered (HBuffered (needs_credentials_response id msg (data server_id url (console_url owner) owner)))
  | Failed (RefreshFailed server_id Permanent _) =>
      let owner := sc_credential_owner (rs_upstream server) in
      Answered (HBuffered (needs_credentials_response id
        ("Authorization for MCP server '" +:+ name +:+ "' was rejected by the upstream and has been cleared. Re-authorize at " +:+ console_url owner +:+ ".")
        (("reason", Interfaces.JStr "refresh_rejected") :: data server_id (authorize_endpoint server) (console_url owner) owner)))
  | Failed (RefreshFailed _ Transient message) =>
      Answered (HBuffered (err_response id INTERNAL_ERROR
        ("Upstream OAuth provider for MCP server '" +:+ name +:+ "' is temporarily unavailable (" +:+ message +:+ "). Retry in a few seconds.")))
  | Failed (DatabaseError m) => Answered (HBuffered (err_response id INTERNAL_ERROR ("Credential resolver failed: database error: " +:+ m)))
  | Failed (CryptoError m) => Answered (HBuffered (err_response id INTERNAL_ERROR ("Credential resolver failed: crypto error: " +:+ m)))
  | Failed (BadTokenResponse m) => Answered (HBuffered (err_response id INTERNAL_ERROR ("Credential resolver failed: invalid token-endpoint response: " +:+ m)))
  end.

(** ** The upstream *)

(** What the request turned into, before the hooks: an answer with the timeline the pool kept, or
    what a stream was read as, with what went to the client. *)
Inductive invocation :=
  | InvBuffered (response : rpc_response) (stream_audit_body : option string)
  | InvStreaming (outcome : StreamOutcome) (captured : list json) (sent : list string).
Definition truncated_events (n : nat) : json := Interfaces.JObj [("_truncated_events", Interfaces.JNum (Z.of_nat n))].
Definition events_text (events : list json) : string := lb_json_text L (Interfaces.JArr events).
Definition busy_event (id : option json) : string :=
  lb_response_text L (err_response id RESOURCE_BUSY "Gateway buffering capacity is occupied; retry shortly").
(** [build_mcp_pump]: read to its end, or as far as the client stayed. *)
Definition build_mcp_pump E (id : option json) (reply : http_reply) : invocation :=
  match pe_cancelled E with
  | None =>
      let st := build_passthrough_body (lb_parse_json L) Interfaces.JStr (busy_event id) (pe_admitted E) (hp_body reply) in
      InvStreaming (default Natural (pu_done st)) (pu_events st) (pu_sent st)
  | Some (chunks, events) =>
      let st := read_chunks (lb_parse_json L) Interfaces.JStr (busy_event id) (pe_admitted E) (take chunks (hp_body reply))
                  {| pu_buf := ""; pu_events := []; pu_sent := []; pu_done := None |} in
      match pu_done st with
      | Some outcome => InvStreaming outcome (pu_events st) (pu_sent st)
      | None => InvStreaming ClientCancelled (take events (pu_events st)) (take events (pu_sent st))
      end
  end.
Definition keep_session E (session_id : string) (server_id : U) (sid : option string) : prog world unit :=
  match sid with
  | Some sid => on_sessions (set_upstream_session (lb_session_json L) (pe_set_session E) session_id server_id sid)
  | None => mret tt
  end.
Definition invoke E (ctx : RequestContext U) (server_id : U) (request : rpc_request) (http : http_request json) : prog world invocation := fun w =>
  let w := push_sent server_id http w in
  if rc_wants_streaming ctx then
    match send_request_streaming (pe_read E) (pe_net E http) with
    | Err e => (w, InvBuffered (error_response (rq_id request) e) None)
    | Ok (reply, sid) =>
        let w := (keep_session E (rc_client_session_id ctx) server_id sid w).1 in
        if is_sse (lb_to_lowercase L) reply then (w, build_mcp_pump E (rq_id request) reply)
        else (w, InvBuffered match read_json_response (lb_decode_text L) (pe_read E) (pe_max_body E) reply with
                             | Ok r => r | Err e => error_response (rq_id request) e end None)
    end
  else
    match send_request (lb_parse_json L) Interfaces.JStr truncated_events events_text (lb_decode L) (lb_decode_text L) (pe_read E) (pe_max_body E)
            (lb_to_lowercase L) request (pe_net E http) with
    | Err e => (w, InvBuffered (error_response (rq_id request) e) None)
    | Ok (r, sid, stream_body) => ((keep_session E (rc_client_session_id ctx) server_id sid w).1, InvBuffered r stream_body)
    end.

(** [build_replay_payload]: the events a timeline holds, else the answer as one event. *)
Definition build_replay_payload (response : rpc_response) (stream_audit_body : option string) : list string :=
  let events := match (stream_audit_body ≫= lb_parse_json L) ≫= json_as_array with Some l => lb_json_text L <$> l | None => [] end in
  if bool_decide (events = []) then [lb_response_text L response] else events.

Definition mcp_identity (ctx : RequestContext U) : McpIdentity U :=
  {| mn_user_id := rc_user_id ctx; mn_user_email := rc_user_email ctx; mn_ip_address := rc_ip_address ctx;
     mn_surface_constraints := rc_surface_constraints ctx; mn_allowed_mcp_tools := rc_allowed_mcp_tools ctx |}.
Definition upstream_call (id : option json) (params : json) (tool : string) : rpc_request :=
  {| rq_jsonrpc := "2.0"; rq_id := id; rq_method := "tools/call"; rq_params := Some (obj_insert "name" (Interfaces.JStr tool) params) |}.
Definition invoked_of (auth : authorized) (view : CapturedView rpc_response (list json)) : mcp_invoked :=
  {| inv_identity := auth_identity auth; inv_trace_id := auth_trace_id auth; inv_started_at := auth_started_at auth;
     inv_client_ip := auth_client_ip auth; inv_limit_check := auth_limit_check auth;
     inv_access_candidate := auth_access_candidate auth; inv_view := view |}.
(** The hooks after the call, and what goes to the client; a stream's hooks run when it is over. *)
Definition finish E (ctx : RequestContext U) (D : option string -> McpPostInvokeDeps) (auth : authorized) (inv : invocation) : prog world HandleOutcome := fun w =>
  match inv with
  | InvBuffered response stream_body =>
      let w := (after_call E (D stream_body) (invoked_of auth (Buffered response)) w).1 in
      (w, if rc_wants_streaming ctx && negb (is_busy response) then HStreaming (build_replay_payload response stream_body) else HBuffered response)
  | InvStreaming outcome captured sent =>
      ((after_call E (D None) (invoked_of auth (Streaming outcome captured)) w).1, HStreaming sent)
  end.

Definition no_surface : Surface (McpIdentity U) rpc_response (list json) world := McpSurface no_usage_hook no_usage_hook no_usage_hook no_usage_hook.
(** The gates of a call, once its server is known. *)
Definition authorize_call E (ctx : RequestContext U) (id : option json) (namespaced_name : string) : M authorized :=
  let limits := rate_limits (rc_user_id ctx) (rc_surface_constraints ctx) ((fun lineage => (lineage, rc_key_constraints ctx)) <$> rc_api_key_lineage_id ctx) in
  let raw := {| raw_identity := mcp_identity ctx; raw_trace_id := rc_trace_id ctx; raw_started_at := pe_started_at E; raw_client_ip := rc_ip_address ctx |} in
  checked ← gate id (on_gates (check_access (H := no_surface) raw namespaced_name));
  step (wait E 1) ;;
  gate id (on_gates (check_limits (H := no_surface) checked (rq_rules limits) (rq_owner limits) (pe_link E) (pe_limit_at E) (pe_fail_closed E))).
(** What is called, once the gates are passed. *)
Record call_target := {
  ct_server : tool_server U; ct_tool : string; ct_params : json;
  ct_upstream_request : rpc_request; ct_ttl : Z; ct_scope : option (CallerScope U);
}.
Definition target_of E (ctx : RequestContext U) (id : option json) (params : json) (server : tool_server U) (tool : string) : call_target :=
  {| ct_server := server; ct_tool := tool; ct_params := params; ct_upstream_request := upstream_call id params tool;
     ct_ttl := default (pe_cache_ttl E) (rs_cache_ttl_secs server);
     ct_scope := cache_scope (rs_cache_scope server) (rc_user_id ctx) (account_label_for_server (rc_mcp_account_overrides ctx) (rs_id server)) |}.
Definition deps_of (ctx : RequestContext U) (id : option json) (t : call_target) (stream_body : option string) : McpPostInvokeDeps :=
  {| pd_server_id := rs_id (ct_server t); pd_server_name := rs_name (ct_server t); pd_tool_name := ct_tool t; pd_upstream_request := ct_upstream_request t;
     pd_logged_arguments := json_get "arguments" (ct_params t); pd_cache_scope_kind := rs_cache_scope (ct_server t);
     pd_cache_account_label := account_label_for_server (rc_mcp_account_overrides ctx) (rs_id (ct_server t));
     pd_effective_cache_ttl := ct_ttl t; pd_stream_audit_body := stream_body; pd_original_request_id := id |}.
(** The cache, the breaker, the connection, the session and the header. *)
Definition prepare_call E (ctx : RequestContext U) (id : option json) (t : call_target) (auth : authorized) : M (authorized * http_request json) :=
  let server := ct_server t in
  step (wait E 2) ;;
  auth ← gate id (check_cache E auth (rs_id server) (ct_scope t) (ct_ttl t) (ct_upstream_request t));
  auth ← gate id (check_breaker E auth (rs_id server) (rs_name server));
  step (wait E 3) ;;
  conn ← step (on_pools (get_or_create (pe_pool E) server));
  sid ← step (on_sessions (get_upstream_session (lb_json_session L) (pe_get_session E) (rc_client_session_id ctx) (rs_id server)));
  step (wait E 4) ;;
  r ← step (resolve_header E (rs_id server) (auth_cfg (rs_upstream server)) (rc_user_id ctx) (rc_mcp_account_overrides ctx));
  match r with
  | Err e => throw (credential_refusal id server e)
  | Ok auth_header =>
      let caller := {| ci_user_id := uuid_str (rc_user_id ctx); ci_user_email := rc_user_email ctx |} in
      mret (auth, build_upstream_request conn (ct_upstream_request t) auth_header (Some caller) sid (Some (rc_trace_id ctx)))
  end.
Definition handle_tools_call E (ctx : RequestContext U) (request : rpc_request) : M HandleOutcome :=
  let id := rq_id request in
  match rq_params request with
  | None => answer (err_response id INVALID_PARAMS "Missing params for tools/call")
  | Some params =>
      match json_get "name" params ≫= json_as_str with
      | None => answer (err_response id INVALID_PARAMS "Missing or invalid 'name' in params")
      | Some namespaced_name =>
          step (wait E 0) ;;
          found ← (fun w => (w, Ok (find_server_for_tool namespaced_name (sh_registry (mw_shared w)))) : world * result halt _);
          match found with
          | None => answer (err_response id INVALID_PARAMS ("Unknown tool: " +:+ namespaced_name))
          | Some (server, tool) =>
              auth ← authorize_call E ctx id namespaced_name;
              let t := target_of E ctx id params server tool in
              '(auth, http) ← prepare_call E ctx id t auth;
              inv ← step (invoke E ctx (rs_id server) (ct_upstream_request t) http);
              step (wait E 5) ;;
              step (finish E ctx (deps_of ctx id t) auth inv)
          end
      end
  end.

(** ** The other methods *)

Definition handle_initialize (id : option json) : rpc_response :=
  ok_response id (Interfaces.JObj
    [("protocolVersion", Interfaces.JStr "2025-03-26");
     ("capabilities", Interfaces.JObj [("tools", Interfaces.JObj [("listChanged", Interfaces.JBool true)]); ("resources", Interfaces.JObj []); ("prompts", Interfaces.JObj [])]);
     ("serverInfo", Interfaces.JObj [("name", Interfaces.JStr "ThinkWatch MCP Gateway"); ("version", Interfaces.JStr (lb_version L))])]).

Definition MAX_USER_TOOL_ROWS : nat := 5000.
(** [db i]: whether the [i]-th query answers. *)
Definition connected_servers (db : nat -> bool) (user_id : U) s : list U :=
  if db 0%nat then uc_server <$> filter (fun c => uc_user c = user_id) (cw_users (sh_creds s)) else [].
Definition user_tool_rows (db : nat -> bool) (user_id : U) s : list (user_tool U) :=
  if db 1%nat then take MAX_USER_TOOL_ROWS (lb_by_server_and_name L (filter (fun t => ut_user t = user_id) (sh_user_tools s))) else [].
(** The tools of one server as the caller sees them, and whether they are to be discovered. *)
Definition tool_source (connected : bool) (user_rows : list (string * tool_info)) (server : tool_server U) : list (string * tool_info) * bool :=
  let system := (fun t => (mt_name t, mt_info t)) <$> rs_tools server in
  let admin_shared := bool_decide (sc_credential_owner (rs_upstream server) = AdminShared) in
  let needs_auth := negb (bool_decide (sc_auth_shape (rs_upstream server) = Anonymous)) in
  if admin_shared then (system, false)
  else if needs_auth && connected then
    match user_rows with [] => (system, true) | _ => (user_rows, false) end
  else (system, false).
Definition tool_entry (server : tool_server U) (requires_user_auth : bool) (namespaced : string) (info : tool_info) : json :=
  Interfaces.JObj
    ([("name", Interfaces.JStr namespaced); ("description", Interfaces.JStr (default "" (ti_description info)));
      ("inputSchema", default (Interfaces.JObj [("type", Interfaces.JStr "object")]) (ti_input_schema info))] ++
     if requires_user_auth then
       [("_meta", Interfaces.JObj [("requires_user_auth", Interfaces.JBool true); ("server_id", Interfaces.JStr (uuid_str (rs_id server)));
                                   ("server_name", Interfaces.JStr (rs_name server))])]
     else []).
Definition server_tools (ctx : RequestContext U) (connected : list U) (rows : list (user_tool U)) (server : tool_server U) : list json * bool :=
  let admin_shared := bool_decide (sc_credential_owner (rs_upstream server) = AdminShared) in
  let needs_auth := negb (bool_decide (sc_auth_shape (rs_upstream server) = Anonymous)) in
  let user_connected := bool_decide (rs_id server ∈ connected) in
  let mine := (fun t => (ut_name t, ut_info t)) <$> filter (fun t => ut_server t = rs_id server) rows in
  let '(tools, discover) := tool_source user_connected mine server in
  (omap (fun t =>
     let namespaced := rs_namespace_prefix server +:+ NAMESPACE_SEPARATOR +:+ t.1 in
     if negb (is_tool_allowed (rc_allowed_mcp_tools ctx) namespaced) then None
     else Some (tool_entry server (negb admin_shared && needs_auth && negb user_connected) namespaced t.2)) tools, discover).
(** The answer, and the servers whose tools are discovered in the background. *)
Definition handle_tools_list (db : nat -> bool) (ctx : RequestContext U) (id : option json) s : rpc_response * list (tool_server U) :=
  let connected := connected_servers db (rc_user_id ctx) s in
  let rows := user_tool_rows db (rc_user_id ctx) s in
  let servers := snd <$> sh_registry s in
  let tools := server_tools ctx connected rows <$> servers in
  (ok_response id (Interfaces.JObj [("tools", Interfaces.JArr (tools ≫= fst))]),
   (fun p => p.1) <$> filter (fun p => p.2.2 = true) (zip servers tools)).

(** What an upstream's list of tools says of each. *)
Definition listed_tool (server_id user_id : U) (t : json) : option (user_tool U) :=
  name ← json_get "name" t ≫= json_as_str;
  Some {| ut_server := server_id; ut_user := user_id; ut_name := name;
          ut_info := {| ti_description := json_get "description" t ≫= json_as_str;
                        ti_input_schema := Some (default Interfaces.JNull (json_get "inputSchema" t)) |} |}.
(** The transaction: the user's rows go, the new ones come.  An upsert that names a row twice is
    refused, and with it the whole transaction. *)
Definition replace_user_tools (server_id user_id : U) (rows : list (user_tool U)) s : shared :=
  if bool_decide (NoDup (ut_name <$> rows)) then
    set_user_tools (filter (fun t => ~ (ut_server t = server_id /\ ut_user t = user_id)) (sh_user_tools s) ++ rows) s
  else s.
(** The task of [spawn_lazy_user_tool_discovery]; [db] is whether the transaction goes through. *)
Definition discover_user_tools E (db : bool) (ctx : RequestContext U) (server : tool_server U) : prog world unit := fun w =>
  let '(w, r) := resolve_header E (rs_id server) (auth_cfg (rs_upstream server)) (rc_user_id ctx) (rc_mcp_account_overrides ctx) w in
  match r with
  | Ok (Some header) =>
      let '(w, conn) := on_pools (get_or_create (pe_pool E) server) w in
      let request := {| rq_jsonrpc := "2.0"; rq_id := Some (Interfaces.JStr "user-tools-lazy-discover"); rq_method := "tools/list"; rq_params := None |} in
      let http := build_upstream_request conn request (Some header) None None None in
      let w := push_sent (rs_id server) http w in
      match send_request (lb_parse_json L) Interfaces.JStr truncated_events events_text (lb_decode L) (lb_decode_text L) (pe_read E) (pe_max_body E)
              (lb_to_lowercase L) request (pe_net E http) with
      | Ok (r, _, _) =>
          match (rp_result r ≫= json_get "tools") ≫= json_as_array with
          | Some tools => if db then (with_shared (replace_user_tools (rs_id server) (rc_user_id ctx) (omap (listed_tool (rs_id server) (rc_user_id ctx)) tools)) w, tt) else (w, tt)
          | None => (w, tt)
          end
      | Err _ => (w, tt)
      end
  | _ => (w, tt)
  end.

Definition handle_request E (db : nat -> bool) (ctx : RequestContext U) (request : rpc_request) : M HandleOutcome :=
  let id := rq_id request in
  if bool_decide (rq_method request = "initialize") then answer (handle_initialize id)
  else if bool_decide (rq_method request = "tools/list") then fun w => (w, Err (Answered (HBuffered (handle_tools_list db ctx id (mw_shared w)).1)))
  else if bool_decide (rq_method request = "tools/call") then handle_tools_call E ctx request
  else answer (err_response id METHOD_NOT_FOUND ("Method not found: " +:+ rq_method request)).

(** ** The transport *)

Definition is_control (c : ascii) : bool := let n := nat_of_ascii c in (n <? 32)%nat || (n =? 127)%nat.
(** Headers are given where they are text; [fresh] is a new UUID's text. *)
Definition resolve_trace_id (header : option string) (fresh : string) : string :=
  match trim <$> header with
  | Some s => if negb (bool_decide (s = "")) && (String.length s <=? 128)%nat && str_all (fun c => negb (is_control c)) s then s else fresh
  | None => fresh
  end.
Definition wants_sse (accept : option string) : bool :=
  match accept with Some s => contains_str "text/event-stream" (lb_to_lowercase L s) | None => false end.
Record mcp_headers := { mh_session : option string; mh_trace_id : option string; mh_accept : option string }.
(** The status, the session's header, whether the client is to wait a second, the body. *)
Inductive mcp_body := JsonBody (r : rpc_response) | SseBody (events : list string) | NoBody.
Record mcp_response := { mr_status : Z; mr_session_id : option string; mr_trace_id : option string; mr_retry_after : option Z; mr_body : mcp_body }.
Definition render (sse_capable : bool) (session_id trace_id : string) (o : HandleOutcome) : mcp_response :=
  let reply status retry body := {| mr_status := status; mr_session_id := Some session_id; mr_trace_id := Some trace_id; mr_retry_after := retry; mr_body := body |} in
  match o with
  | HBuffered r =>
      if is_busy r then reply 429 (Some 1) (JsonBody r)
      else if sse_capable then reply 200 None (SseBody [lb_response_text L r]) else reply 200 None (JsonBody r)
  | HStreaming events => reply 200 None (SseBody events)
  end.
(** The sessions a request opens or touches, in the environment of its two calls. *)
Definition open_session (S1 S2 : session_env U St) (fresh_session : string) (user_id : U) (header : option string) : prog (session_world U St) (option string) :=
  match header with
  | Some sid =>
      found ← get_session (lb_json_session L) S1 sid;
      match found with
      | None => mret None
      | Some _ => _ ← update_activity (lb_session_json L) S2 sid; mret (Some sid)
      end
  | None => sid ← create_session (lb_session_json L) S1 fresh_session user_id; mret (Some sid)
  end.
Definition context_of (identity : McpRequestIdentity U json) (session_id trace_id : string) (sse_capable : bool) : RequestContext U :=
  {| rc_user_id := mi_user_id identity; rc_user_email := mi_user_email identity; rc_client_session_id := session_id;
     rc_surface_constraints := mi_surface_constraints identity; rc_api_key_lineage_id := Some (mi_api_key_lineage_id identity);
     rc_key_constraints := mi_key_constraints identity; rc_allowed_mcp_tools := mi_allowed_mcp_tools identity; rc_trace_id := trace_id;
     rc_mcp_account_overrides := mi_mcp_account_overrides identity; rc_ip_address := mi_ip_address identity; rc_wants_streaming := sse_capable |}.
(** None where the handler panics. *)
Definition handle_post E (db : nat -> bool) (S1 S2 : session_env U St) (fresh_session fresh_trace : string) (headers : mcp_headers)
    (identity : McpRequestIdentity U json) (request : rpc_request) : prog world (option mcp_response) := fun w =>
  let '(w, sid) := on_sessions (open_session S1 S2 fresh_session (mi_user_id identity) (mh_session headers)) w in
  match sid with
  | None =>
      (w, Some {| mr_status := 400; mr_session_id := None; mr_trace_id := None; mr_retry_after := None;
                  mr_body := JsonBody (err_response (rq_id request) INVALID_REQUEST "Unknown session") |})
  | Some session_id =>
      let trace_id := resolve_trace_id (mh_trace_id headers) fresh_trace in
      let sse_capable := wants_sse (mh_accept headers) in
      let '(w, r) := handle_request E db (context_of identity session_id trace_id sse_capable) request w in
      match r with
      | Ok o | Err (Answered o) => (w, Some (render sse_capable session_id trace_id o))
      | Err (Crashed _) => (w, None)
      end
  end.
Definition handle_delete (S : session_env U St) (header : option string) : prog world Z := fun w =>
  match header with
  | Some sid => ((on_sessions (remove_session S sid) w).1, 204)
  | None => (w, 400)
  end.
End Proxy.
