(* ===== verification/McpProxySpec.v ===== *)
(** * What a [tools/call] does

    Where it goes, what it passes before, and what the audit log says of it, whatever others do
    to the shared state while it waits. *)
From Stdlib Require Import Ascii.
From S2P Require Import Prelude Interfaces LimitTypes Constraints Sliding Effects GatewayDeps Text AuditRow Lifecycle McpRegistry McpCache McpBreaker ExpiringKeys Memory McpSse McpSessions McpUpstream McpPool McpCredentials AuditBodies McpProxy.

Section Spec.
Context {U : Type} `{UuidParse U} `{!CacheText U} {Hs Ks St Bs P : Type} `{Redis Hs} `{ExpiringKeys St} `{KeyedBreakers U Bs}.
Context (L : mcp_libs U P).
Abbreviation shared := (mcp_shared U Hs Ks St Bs P).
Abbreviation world := (mcp_world U Hs Ks St Bs P).
Implicit Types (E : call_env U Hs Ks St Bs P) (w : world) (ctx : RequestContext U).

(** A stage that refuses answers under the request's id and leaves one row. *)
Definition refused_with (actions : list string) (id : option json) w w' (h : halt) : Prop :=
  exists resp row, h = Answered (HBuffered resp) /\ rp_id resp = id /\ mw_rows w' = mw_rows w ++ [row] /\ ae_action row ∈ actions.

Definition gate_actions : list string := ["access_denied"; "rate_limiter_unavailable"; "rate_limited"].
Lemma authorize_call_spec E ctx id name w :
  let '(w', r) := authorize_call E ctx id name w in
  mw_sent w' = mw_sent w /\
  match r with
  | Ok auth => mw_rows w' = mw_rows w /\ is_tool_allowed (rc_allowed_mcp_tools ctx) name = true /\
      auth_identity auth = mcp_identity ctx /\ auth_trace_id auth = rc_trace_id ctx
  | Err h => refused_with gate_actions id w w' h
  end.
Proof.
  unfold authorize_call, gate, step, on_gates. cbn. unfold mbind, io_bind. unfold check_access. cbn [is_access_allowed no_surface McpSurface raw_identity mcp_identity mn_allowed_mcp_tools].
  destruct (is_tool_allowed (rc_allowed_mcp_tools ctx) name) eqn:Ea; cbn.
  2: { split; [done|]. eexists _, _. split_and!; [done|done|done|set_solver]. }
  unfold check_limits. case_bool_decide; cbn; [by split_and!|].
  destruct (admit_at _ _ _ _ _ _) as [s [outcome|e]]; cbn.
  2: { split; [done|]. eexists _, _. split_and!; [done|done|done|set_solver]. }
  destruct (co_allowed outcome); cbn; [by split_and!|]. split; [done|]. eexists _, _. split_and!; [done|done|done|set_solver].
Qed.

(** The shared state as the call finds it at each stage: what the stages before left of it, and
    then what others did while the call waited.  [w] is the world the gates leave. *)
Definition at_breaker E w : shared := pe_others E 2 (mw_shared w).
Definition at_pool E (server : tool_server U) w : shared :=
  let s := at_breaker E w in
  pe_others E 3 (set_breakers (McpBreaker.check (rs_id server) (rs_name server) (pe_check_at E) (sh_breakers s)).1 s).
Definition at_session E (server : tool_server U) w : shared :=
  let s := at_pool E server w in set_pools (get_or_create (pe_pool E) server (sh_pools s)).1 s.
Definition at_credentials E ctx (server : tool_server U) w : shared :=
  let s := at_session E server w in
  pe_others E 4 (set_sessions (get_upstream_session (lb_json_session L) (pe_get_session E) (rc_client_session_id ctx) (rs_id server) (sh_sessions s)).1 s).

(** What the request is made of: at that moment of the run, the connection the pool holds for the
    server or makes of it, the upstream session recorded there under the client's session, and
    the header resolved for the caller on the server. *)
Definition connection_used E (server : tool_server U) w : McpConnection U := (get_or_create (pe_pool E) server (sh_pools (at_pool E server w))).2.
Definition session_used E ctx (server : tool_server U) w : option string :=
  (get_upstream_session (lb_json_session L) (pe_get_session E) (rc_client_session_id ctx) (rs_id server) (sh_sessions (at_session E server w))).2.
Definition header_used E ctx (server : tool_server U) w : result (stop U) (option AuthInjection) :=
  (resolve (lb_decrypt L) (lb_encrypt L) (lb_parse_token L) (lb_oauth_error L) (lb_token_endpoint L) (lb_max_datetime L) (pe_creds E)
     (rs_id server) (auth_cfg (rs_upstream server)) (rc_user_id ctx) (rc_mcp_account_overrides ctx) (with_wiped [] (sh_creds (at_credentials E ctx server w)))).2.

(** A request sent after the gates left [w]: no answer was cached and the breaker let it through. *)
Record sent_by E ctx (auth : Authorized (McpIdentity U)) (t : call_target) w (http : http_request json) : Prop := {
  sb_uncached : (check_cache L E auth (rs_id (ct_server t)) (ct_scope t) (ct_ttl t) (ct_upstream_request t) (with_shared (pe_others E 2) w)).2 = Ok auth;
  sb_admitted : (McpBreaker.check (rs_id (ct_server t)) (rs_name (ct_server t)) (pe_check_at E) (sh_breakers (at_breaker E w))).2 = true;
  sb_request : exists header, header_used E ctx (ct_server t) w = Ok header /\
    http = build_upstream_request (connection_used E (ct_server t) w) (ct_upstream_request t) header
             (Some {| ci_user_id := uuid_str (rc_user_id ctx); ci_user_email := rc_user_email ctx |}) (session_used E ctx (ct_server t) w) (Some (rc_trace_id ctx));
}.
Lemma credential_refusal_id id server e resp : credential_refusal id server e = Answered (HBuffered resp) -> rp_id resp = id.
Proof. destruct e as [[| ? [] ?| | |]|]; cbn; intros [= <-]; done. Qed.
Lemma credential_refusal_buffered id server e : (exists resp, credential_refusal id server e = Answered (HBuffered resp)) \/ exists where_, credential_refusal id server e = Crashed where_.
Proof. destruct e as [[| ? [] ?| | |]|]; cbn; eauto. Qed.
Lemma prepare_call_spec E ctx id t auth w :
  let '(w', r) := prepare_call L E ctx id t auth w in
  mw_sent w' = mw_sent w /\
  match r with
  | Ok (auth', http) => mw_rows w' = mw_rows w /\ auth' = auth /\ sent_by E ctx auth t w http
  | Err h => refused_with ["tools.call.cache_hit"; "tools.call.breaker_open"] id w w' h \/
      mw_rows w' = mw_rows w /\ ((exists resp, h = Answered (HBuffered resp) /\ rp_id resp = id) \/ exists where_, h = Crashed where_)
  end.
Proof.
  unfold prepare_call, gate, step, wait. cbn. unfold mbind, io_bind. cbn.
  set (w1 := with_shared (pe_others E 2) w).
  assert (Hc : forall wc (r : result rpc_response (Authorized (McpIdentity U))), check_cache L E auth (rs_id (ct_server t)) (ct_scope t) (ct_ttl t) (ct_upstream_request t) w1 = (wc, r) ->
    mw_sent wc = mw_sent w /\ match r with Ok a => wc = w1 /\ a = auth | Err resp => exists row, mw_rows wc = mw_rows w ++ [row] /\ ae_action row = "tools.call.cache_hit" end).
  { intros wc r. unfold check_cache. destruct (ct_ttl t =? 0); [by intros [= <- <-]|]. destruct (cache_get _ _ _ _ _ _ _ _); intros [= <- <-]; [|done].
    split; [done|]. eexists. split; [reflexivity|done]. }
  destruct (check_cache L E auth _ _ _ _ w1) as [w2 r2] eqn:Ecache. destruct (Hc w2 r2 eq_refl) as [Hs2 Hr2]. destruct r2 as [a2|resp]; cbn.
  2: { destruct Hr2 as (row & Hrow & Ha). split; [done|]. left. eexists _, row. split_and!; [done|done|done|rewrite Ha; set_solver]. }
  destruct Hr2 as [-> ->]. unfold check_breaker. cbn. destruct (McpBreaker.check _ _ _ _) as [b admitted] eqn:Eb. destruct admitted; cbn.
  2: { split; [done|]. left. eexists _, _. split_and!; [done|done|done|set_solver]. }
  unfold on_pools, on_sessions. cbn. destruct (get_or_create _ _ _) as [pools' conn] eqn:Ep. cbn. destruct (get_upstream_session _ _ _ _ _) as [sw sid] eqn:Es. cbn.
  unfold resolve_header. cbn. destruct (resolve _ _ _ _ _ _ _ _ _ _ _ _) as [c r] eqn:Er. cbn. destruct r as [header|e]; cbn.
  - split_and!; [done|done|done|]. constructor; [exact (f_equal snd Ecache)|unfold at_breaker; by rewrite Eb|].
    exists header. unfold header_used, session_used, connection_used, at_credentials, at_session, at_pool, at_breaker.
    rewrite Eb. cbn [fst]. rewrite Ep. cbn [fst snd].
    set (s := set_pools pools' _). change (sh_sessions (pe_others E 3 _)) with (sh_sessions s) in Es. rewrite Es. cbn [fst snd].
    split; [exact (f_equal snd Er)|done].
  - split; [done|]. right. split; [done|]. destruct (credential_refusal_buffered id (ct_server t) e) as [[resp Hr]|[x Hx]]; [left|right; eauto].
    exists resp. split; [done|by eapply credential_refusal_id].
Qed.

Lemma keep_session_own E session_id server_id sid w : mw_sent (keep_session L E session_id server_id sid w).1 = mw_sent w /\ mw_rows (keep_session L E session_id server_id sid w).1 = mw_rows w.
Proof. unfold keep_session, on_sessions. destruct sid; cbn; [|done]. by destruct (set_upstream_session _ _ _ _ _ _). Qed.
Lemma invoke_spec E ctx server_id request http w :
  mw_sent (invoke L E ctx server_id request http w).1 = mw_sent w ++ [(server_id, http)] /\ mw_rows (invoke L E ctx server_id request http w).1 = mw_rows w.
Proof.
  unfold invoke. destruct (rc_wants_streaming ctx).
  - destruct (send_request_streaming _ _) as [[reply sid]|e]; cbn; [|done].
    destruct (keep_session_own E (rc_client_session_id ctx) server_id sid (push_sent server_id http w)) as [Hk Hr]. destruct (is_sse _ _); cbn; by rewrite Hk, Hr.
  - destruct (send_request _ _ _ _ _ _ _ _ _ _ _) as [[[r sid] body]|e]; cbn; [|done].
    destruct (keep_session_own E (rc_client_session_id ctx) server_id sid (push_sent server_id http w)) as [Hk Hr]. by rewrite Hk, Hr.
Qed.

(** The hooks leave one row, of a call. *)
Lemma after_call_spec E D inv w :
  mw_sent (after_call L E D inv w).1 = mw_sent w /\
  exists stream_body, mw_rows (after_call L E D inv w).1 = mw_rows w ++ [call_row L E D inv (response_for_hooks L inv D) stream_body].
Proof.
  unfold after_call, run_post_invoke, record_outcome, write_cache, record_usage, emit_audit. cbn -[call_row response_for_hooks]. unfold mbind, prog_bind. cbn -[call_row response_for_hooks].
  set (w1 := match inv_view inv with Buffered _ => _ | Streaming _ _ => _ end).
  assert (Hw1 : mw_sent w1 = mw_sent w /\ mw_rows w1 = mw_rows w) by (subst w1; destruct (inv_view inv) as [r|[|ty ? ?|] c]; [done|done| |done]; by case_bool_decide).
  destruct (is_success (inv_view inv)); cbn -[call_row response_for_hooks].
  - unfold mcp_write_cache. destruct (_ =? 0); [|destruct (has_error _)]; cbn -[call_row response_for_hooks]; (split; [apply Hw1|]; eexists; rewrite (proj2 Hw1); reflexivity).
  - split; [apply Hw1|]. eexists. rewrite (proj2 Hw1). reflexivity.
Qed.

(** The row of a call says how it ended, and whose it was. *)
Record row_of_call ctx (server : tool_server U) (tool : string) (row : AuditEntry) : Prop := {
  rw_action : ae_action row = "tools.call";
  rw_user : ae_user_id row = Some (uuid_str (rc_user_id ctx));
  rw_trace : ae_trace_id row = Some (rc_trace_id ctx);
  rw_target : exists fields status, ae_detail row = Some (AuditRow.JObj fields) /\ ("server_id", AuditRow.JStr (uuid_str (rs_id server))) ∈ fields /\
    ("tool_name", AuditRow.JStr tool) ∈ fields /\ ("status", AuditRow.JStr status) ∈ fields /\ status ∈ ["ok"; "error"];
}.
Lemma call_row_of E D inv response stream_body ctx server tool : inv_identity inv = mcp_identity ctx -> inv_trace_id inv = rc_trace_id ctx ->
  pd_server_id D = rs_id server -> pd_tool_name D = tool -> row_of_call ctx server tool (call_row L E D inv response stream_body).
Proof.
  intros Hi Ht Hid Htool. unfold call_row. destruct (rp_error response) as [e|]; constructor; cbn -[prepare_tool_capture].
  all: rewrite ?Hi, ?Ht, ?Hid, ?Htool; try done.
  - eexists _, "error". split_and!; [reflexivity|set_solver..].
  - eexists _, "ok". split_and!; [reflexivity|set_solver..].
Qed.


(** What becomes of a call: refused or answered before anything is sent, or sent once. *)
Inductive call_fate E ctx (request : rpc_request) w : world * result halt HandleOutcome -> Prop :=
  | FateRefused w' resp row :
      mw_sent w' = mw_sent w -> mw_rows w' = mw_rows w ++ [row] -> rp_id resp = rq_id request ->
      ae_action row ∈ gate_actions ++ ["tools.call.cache_hit"; "tools.call.breaker_open"] ->
      call_fate E ctx request w (w', Err (Answered (HBuffered resp)))
  | FateUnlogged w' resp :
      mw_sent w' = mw_sent w -> mw_rows w' = mw_rows w -> rp_id resp = rq_id request ->
      call_fate E ctx request w (w', Err (Answered (HBuffered resp)))
  | FatePanic w' where_ : mw_sent w' = mw_sent w -> mw_rows w' = mw_rows w -> call_fate E ctx request w (w', Err (Crashed where_))
  | FateSent w' params name server tool gated auth http row o :
      rq_params request = Some params -> json_get "name" params ≫= json_as_str = Some name ->
      find_server_for_tool name (sh_registry (pe_others E 0 (mw_shared w))) = Some (server, tool) ->
      is_tool_allowed (rc_allowed_mcp_tools ctx) name = true ->
      authorize_call E ctx (rq_id request) name (with_shared (pe_others E 0) w) = (gated, Ok auth) ->
      sent_by E ctx auth (target_of E ctx (rq_id request) params server tool) gated http ->
      mw_sent w' = mw_sent w ++ [(rs_id server, http)] -> mw_rows w' = mw_rows w ++ [row] -> row_of_call ctx server tool row ->
      call_fate E ctx request w (w', Ok o).
Lemma tools_call_fate E ctx request w : call_fate E ctx request w (handle_tools_call L E ctx request w).
Proof.
  unfold handle_tools_call. destruct (rq_params request) as [params|] eqn:Ep; [|by apply FateUnlogged].
  destruct (json_get "name" params ≫= json_as_str) as [name|] eqn:En; [|by apply FateUnlogged].
  unfold step at 1, wait at 1. cbn. unfold mbind at 1, io_bind at 1. cbn. unfold mbind at 1, io_bind at 1.
  set (w0 := with_shared (pe_others E 0) w). destruct (find_server_for_tool name (sh_registry (mw_shared w0))) as [[server tool]|] eqn:Ef; [|by apply FateUnlogged].
  unfold mbind at 1, io_bind at 1. pose proof (authorize_call_spec E ctx (rq_id request) name w0) as Ha. destruct (authorize_call E ctx (rq_id request) name w0) as [w1 [auth|h]] eqn:Eauth.
  2: { destruct Ha as (Hs1 & resp & row & -> & Hid & Hr1 & Hact). eapply FateRefused; [done|done|done|set_solver]. }
  destruct Ha as (Hs1 & Hr1 & Hallow & Hident & Htrace). set (t := target_of E ctx (rq_id request) params server tool).
  unfold mbind at 1, io_bind at 1. pose proof (prepare_call_spec E ctx (rq_id request) t auth w1) as Hp. destruct (prepare_call L E ctx (rq_id request) t auth w1) as [w2 [[auth' http]|h]].
  2: { destruct Hp as (Hs2 & [(resp & row & -> & Hid & Hr2 & Hact)|(Hr2 & [(resp & -> & Hid)|[x ->]])]).
       - eapply FateRefused; [by rewrite Hs2|by rewrite Hr2, Hr1|done|set_solver].
       - apply FateUnlogged; [by rewrite Hs2|by rewrite Hr2, Hr1|done].
       - apply FatePanic; [by rewrite Hs2|by rewrite Hr2, Hr1]. }
  destruct Hp as (Hs2 & Hr2 & -> & Hsent). unfold step, mbind, io_bind, wait. change (upstream_call (rq_id request) params tool) with (ct_upstream_request t).
  destruct (invoke_spec E ctx (rs_id server) (ct_upstream_request t) http w2) as [Hs3 Hr3].
  destruct (invoke L E ctx (rs_id server) (ct_upstream_request t) http w2) as [w3 inv]. cbn [fst] in Hs3, Hr3.
  assert (Hf : exists row, mw_sent (finish L E ctx (deps_of ctx (rq_id request) t) auth inv (with_shared (pe_others E 5) w3)).1 = mw_sent w3 /\
    mw_rows (finish L E ctx (deps_of ctx (rq_id request) t) auth inv (with_shared (pe_others E 5) w3)).1 = mw_rows w3 ++ [row] /\ row_of_call ctx server tool row).
  { unfold finish. destruct inv as [response stream_body|outcome captured sent]; cbn [fst].
    all: match goal with |- context [after_call L ?e ?D ?i ?x] => destruct (after_call_spec e D i x) as [Ha1 [sb Ha2]]; rewrite Ha1, Ha2 end.
    all: eexists; split_and!; [done|reflexivity|]; by apply call_row_of. }
  destruct Hf as (row & Hs4 & Hr4 & Hrow). cbv beta iota. destruct (finish _ _ _ _ _ _ _) as [w4 o]. cbn [fst] in Hs4, Hr4.
  eapply (FateSent _ _ _ _ _ params name server tool w1 auth http row); [done|done|done|done|done|done|..|done].
  - rewrite Hs4, Hs3, Hs2, Hs1. done.
  - rewrite Hr4, Hr3, Hr2, Hr1. done.
Qed.

(** C6: A tool call is sent to one upstream at most, once: the server whose prefix the tool's name
    has when the call arrives, under the name without it, and only if the caller's patterns allow
    the name, the gates pass, no answer is cached and the server's breaker, as the call finds it,
    lets it through.  The request is made of what this run finds, after whatever others changed
    while it waited: the connection the pool holds for that server or makes of it, the header the
    caller's credential on that server resolves to then, and the upstream session recorded for
    that server under the session the client names. *)
Theorem call_goes_to_named_server E ctx request w :
  mw_sent (handle_tools_call L E ctx request w).1 = mw_sent w \/
  exists params name server tool gated auth header,
    rq_params request = Some params /\ json_get "name" params ≫= json_as_str = Some name /\
    find_server_for_tool name (sh_registry (pe_others E 0 (mw_shared w))) = Some (server, tool) /\
    is_tool_allowed (rc_allowed_mcp_tools ctx) name = true /\
    authorize_call E ctx (rq_id request) name (with_shared (pe_others E 0) w) = (gated, Ok auth) /\
    (let t := target_of E ctx (rq_id request) params server tool in
     (check_cache L E auth (rs_id server) (ct_scope t) (ct_ttl t) (ct_upstream_request t) (with_shared (pe_others E 2) gated)).2 = Ok auth) /\
    (McpBreaker.check (rs_id server) (rs_name server) (pe_check_at E) (sh_breakers (at_breaker E gated))).2 = true /\
    header_used E ctx server gated = Ok header /\
    mw_sent (handle_tools_call L E ctx request w).1 = mw_sent w ++
      [(rs_id server,
        build_upstream_request (connection_used E server gated) (upstream_call (rq_id request) params tool) header
          (Some {| ci_user_id := uuid_str (rc_user_id ctx); ci_user_email := rc_user_email ctx |})
          (session_used E ctx server gated) (Some (rc_trace_id ctx)))].
Proof.
  destruct (tools_call_fate E ctx request w) as [| | |w' params name server tool gated auth http row o Hp Hn Hf Ha Hauth Hsent Hs' Hr Hrow]; [by left..|].
  right. destruct Hsent as [Hcache Hadm (header & Hh & Hhttp)].
  subst http. by exists params, name, server, tool, gated, auth, header.
Qed.

(** C20: The audit log and the network agree.  A call that is sent leaves exactly one row, a
    [tools.call] with the caller, the trace and the server and tool it went to; one that is not
    sent leaves at most one, of the gate, the cache or the breaker that ended it, and its
    answer has the request's id. *)
Theorem sent_calls_are_logged E ctx request w :
  let '(w', r) := handle_tools_call L E ctx request w in
  exists rows sent, mw_rows w' = mw_rows w ++ rows /\ mw_sent w' = mw_sent w ++ sent /\
  match r with
  | Ok _ => exists row server tool http, rows = [row] /\ sent = [(rs_id server, http)] /\ row_of_call ctx server tool row
  | Err (Answered (HBuffered resp)) => sent = [] /\ rp_id resp = rq_id request /\
      (rows = [] \/ exists row, rows = [row] /\ ae_action row ∈ gate_actions ++ ["tools.call.cache_hit"; "tools.call.breaker_open"])
  | Err (Answered (HStreaming _)) => False
  | Err (Crashed _) => sent = [] /\ rows = []
  end.
Proof.
  destruct (tools_call_fate E ctx request w) as [w' resp row Hs' Hr Hid Ha|w' resp Hs' Hr Hid|w' x Hs' Hr|w' params name server tool gated auth http row o Hp Hn Hf Ha Hauth Hsent Hs' Hr Hrow].
  - exists [row], []. rewrite app_nil_r. eauto 10.
  - exists [], []. rewrite !app_nil_r. eauto 10.
  - exists [], []. rewrite !app_nil_r. eauto 10.
  - exists [row], [(rs_id server, http)]. eauto 12.
Qed.

(** A tool the caller may not call changes nothing and is answered at once. *)
Lemma refused_tool_changes_nothing E ctx id params name server tool w :
  json_get "name" params ≫= json_as_str = Some name -> find_server_for_tool name (sh_registry (pe_others E 0 (mw_shared w))) = Some (server, tool) ->
  is_tool_allowed (rc_allowed_mcp_tools ctx) name = false ->
  let '(w', r) := handle_tools_call L E ctx {| rq_jsonrpc := "2.0"; rq_id := id; rq_method := "tools/call"; rq_params := Some params |} w in
  mw_shared w' = pe_others E 0 (mw_shared w) /\ r = Err (Answered (HBuffered (err_response id INVALID_REQUEST "Access denied for this tool"))).
Proof.
  intros Hn Hf Ha. unfold handle_tools_call. cbn [rq_params rq_id]. rewrite Hn. unfold step at 1, wait at 1. cbn. unfold mbind, io_bind. cbn. rewrite Hf.
  unfold authorize_call, gate, step, on_gates. cbn. unfold mbind, io_bind. unfold check_access. cbn [is_access_allowed no_surface McpSurface raw_identity mcp_identity mn_allowed_mcp_tools].
  rewrite Ha. cbn. split; [|done]. unfold set_gates. cbn. by destruct (pe_others E 0 (mw_shared w)).
Qed.
End Spec.

(** * Sessions, connections and credentials at concrete inputs

    Instances of the theorems of [McpSessions], [McpPool] and [McpCredentials], and
    the calls on which the code does not do what it means to. *)

(** ** Sessions *)

Abbreviation SW := (session_world demo_uuid (gmap string entry)).
Abbreviation SE := (session_env demo_uuid (gmap string entry)).
#[export] Instance McpSession_eq_dec : EqDecision (McpSession demo_uuid).
Proof. solve_decision. Defined.

Definition made : McpSession demo_uuid := {| ms_id := "s"; ms_user_id := UAlice; ms_created_at := 5; ms_last_active := 5; ms_upstream_sessions := [] |}.
Definition opened : McpSession demo_uuid := {| ms_id := "s"; ms_user_id := UAlice; ms_created_at := 5; ms_last_active := 5; ms_upstream_sessions := [(UKey1, "up-1")] |}.
Definition to_json_demo (s : McpSession demo_uuid) : option string :=
  if decide (s = made) then Some "made" else if decide (s = opened) then Some "opened" else None.
Definition of_json_demo (j : string) : option (McpSession demo_uuid) :=
  if decide (j = "made") then Some made else if decide (j = "opened") then Some opened else None.
Lemma json_demo_round_trip s j : to_json_demo s = Some j -> of_json_demo j = Some s.
Proof. unfold to_json_demo, of_json_demo. repeat case_decide; intros; by simplify_eq. Qed.

Definition no_sessions : SW := {| sw_local := fun _ => ∅; sw_issued := ∅; sw_redis := ∅; sw_clock := 0 |}.
Definition pod (n : nat) : SE := {| se_pod := n; se_now := 5; se_up := true; se_ttl := None; se_others := fun _ w => w |}.
Lemma pod_fair n : others_fair of_json_demo (pod n).
Proof. intros i w Hw. split; [exact Hw|apply later_refl]. Qed.
Lemma no_sessions_wf : sessions_wf of_json_demo no_sessions.
Proof. constructor; [by intros p id s|]. intros t id json d s _ Hp. by vm_compute in Hp. Qed.
Definition calls_demo : list (SE * session_call) := [(pod 0, CallCreate "s" UAlice); (pod 0, CallUpstream "s" UKey1 "up-1")].

(** Made on one pod and found on another, through Redis, with its upstream session. *)
Lemma session_found_is_owners_witness :
  (get_session of_json_demo (pod 1) "s" (run_session_calls to_json_demo of_json_demo calls_demo no_sessions)).2 = Some opened /\
  ms_user_id opened = UAlice /\ sane_upstream_session "up-1" = true.
Proof.
  assert (Hf : (get_session of_json_demo (pod 1) "s" (run_session_calls to_json_demo of_json_demo calls_demo no_sessions)).2 = Some opened) by (vm_compute; reflexivity).
  pose proof (session_found_is_owners to_json_demo of_json_demo json_demo_round_trip (pod 1) calls_demo "s" no_sessions no_sessions_wf) as H.
  destruct (get_session _ _ _ _) as [w' found]. simpl in Hf. subst found.
  destruct H as [_ Hs]; [split; [apply pod_fair|]; split; [done|]; split; [apply pod_fair|done]|apply pod_fair|].
  destruct (Hs opened eq_refl) as (_ & _ & Hup). split_and!; [done|done|]. by apply (Hup UKey1).
Defined.

(** A session ended on one pod is alive on another that had it, whose next call writes it back
    for all pods. *)
Example ended_session_returns :
  let w := run_session_calls to_json_demo of_json_demo [(pod 0, CallCreate "s" UAlice); (pod 1, CallGet "s"); (pod 0, CallRemove "s")] no_sessions in
  (get_session of_json_demo (pod 0) "s" w).2 = None /\ (get_session of_json_demo (pod 1) "s" w).2 = Some made /\
  (get_session of_json_demo (pod 2) "s" (run_session_call to_json_demo of_json_demo (pod 1) (CallTouch "s") w)).2 = Some made.
Proof. vm_compute. done. Qed.

(** ** Connections *)

Definition config (url : string) (headers : list (string * string)) : server_config :=
  {| sc_endpoint_url := url; sc_oauth_cfg := None; sc_auth_shape := Static; sc_credential_owner := AdminShared;
     sc_auth_header_name := "Authorization"; sc_auth_value_template := "Bearer {{token}}"; sc_custom_headers := headers |}.
Definition server_of (c : server_config) : RegisteredServer demo_uuid unit server_config :=
  {| rs_id := UKey1; rs_name := "Wiki"; rs_namespace_prefix := "wiki"; rs_tools := [{| mt_name := "search"; mt_info := tt |}];
     rs_status := Connected; rs_last_health_check := None; rs_cache_ttl_secs := None;
     rs_cache_scope := determine_cache_scope (sc_auth_shape c) (sc_custom_headers c) (sc_credential_owner c); rs_upstream := c |}.
Definition alice := {| ci_user_id := "alice"; ci_user_email := "a@example.org" |}.
Definition bob := {| ci_user_id := "bob"; ci_user_email := "b@example.org" |}.

(** With the caller in a header the answers are the caller's own. *)
Example named_caller_own_answers :
  let s := server_of (config "https://wiki" [("X-User", "u={{user_id}}")]) in
  rs_cache_scope s = PerCaller /\ fill_header (Some alice) "u={{user_id}}" = "u=alice".
Proof. vm_compute. done. Qed.

(** After any reload of the settings the console clears a pool the gateway does not hold: the
    gateway goes on dialling the old address. *)
Definition pools_start : pools demo_uuid := {| pl_pools := fun _ => []; pl_state := 0; pl_next := 1 |}.
Example reloaded_gateway_dials_old :
  let old := server_of (config "https://old" []) in let new := server_of (config "https://new" []) in
  let proxy := pl_state pools_start in
  let w := (get_or_create proxy old pools_start).1 in
  let dialled w := mc_endpoint_url (get_or_create proxy new (sync_edited UKey1 (Some new) (w, McpRegistry.register old [])).1).2 in
  dialled w = "https://new" /\ dialled (reload_pool w).1 = "https://old".
Proof. vm_compute. done. Qed.
(** The daily refresh puts back the server as it read it before it asked the upstream. *)
Example refresh_undoes_edit :
  let old := server_of (config "https://old" []) in let new := server_of (config "https://new" []) in
  let read := Some old in
  (fun p => sc_endpoint_url (rs_upstream p.2)) <$> refresh_catalog true read (sync_edited UKey1 (Some new) (pools_start, McpRegistry.register old [])).2 = ["https://old"].
Proof. vm_compute. done. Qed.
(** The template the validation accepts with blanks is sent as it is. *)
Example blank_template_never_filled :
  let cfg := {| ac_credential_owner := PerUser; ac_auth_shape := Static; ac_oauth_cfg := None; ac_auth_header_name := "Authorization"; ac_auth_value_template := "Bearer {{ token }}" |} in
  validate_auth_value_template (ac_auth_value_template cfg) = Ok tt /\ build_injection cfg "secret" = ("Authorization", "Bearer {{ token }}").
Proof. vm_compute. done. Qed.
Example credentials_code_is_reserved : -32768 <= NEEDS_USER_CREDENTIALS <= -32000.
Proof. done. Qed.

(** ** Credentials *)

(** A token endpoint that turns the refresh token [alice-1] into [alice-2] once, with an answer
    that may name how long the new access token lives. *)
Definition endpoint_demo (expires : string) (_ : OAuthClientCfg) (form : list (string * string)) (current : string) : string * token_reply :=
  if decide (("refresh_token", current) ∈ form) then
    if decide (current = "alice-1") then ("alice-2", Reply 200 expires) else ("", Reply 200 expires)
  else (current, Reply 400 "invalid_grant").
Definition parse_token_demo (text : string) : result string TokenResponse :=
  Ok {| tr_access_token := "new"; tr_refresh_token := Some "alice-2";
        tr_expires_in := if decide (text = "hour") then Some 3600 else if decide (text = "ages") then Some 9223372036854775807 else None |}.
Definition oauth_client : OAuthClientCfg :=
  {| oc_token_endpoint := "https://login"; oc_authorization_endpoint := None; oc_client_id := "tw"; oc_client_secret := None; oc_scopes := [] |}.
Definition oauth_auth : ServerAuthCfg :=
  {| ac_credential_owner := PerUser; ac_auth_shape := OAuth; ac_oauth_cfg := Some oauth_client; ac_auth_header_name := "Authorization"; ac_auth_value_template := "Bearer {{token}}" |}.
Definition row_demo (access refresh : string) (expires : option Z) : CredentialRow :=
  {| cr_credential_type := "oauth_authcode"; cr_access_token_encrypted := access; cr_refresh_token_encrypted := Some refresh; cr_expires_at := expires |}.
Definition tables (r : CredentialRow) (provider : string) : cred_world demo_uuid string :=
  {| cw_users := [{| uc_server := UKey1; uc_user := UAlice; uc_label := "work"; uc_default := true; uc_row := r |}]; cw_shared := []; cw_provider := provider; cw_wiped := [] |}.
Definition quiet : cred_env demo_uuid string := {| ce_now := fun _ => 1000000; ce_db := fun _ => None; ce_others := fun _ w => w |}.
Abbreviation resolve_demo expires := (resolve (P := string) (@Ok string string) Ok parse_token_demo (fun t => Some t) (endpoint_demo expires) (8210266876799999)).

(** Alice's credential is one whose refresh token is hers. *)
Definition own_demo (s : demo_uuid) (o : option demo_uuid) (r : CredentialRow) : Prop :=
  o = Some UAlice /\ (cr_refresh_token_encrypted r = Some "alice-1" \/ cr_refresh_token_encrypted r = Some "alice-2").
Lemma own_demo_refreshed s o new bytes access refresh expires_at row :
  granted (P := string) (@Ok string string) parse_token_demo (fun t => Some t) (endpoint_demo "hour") own_demo s o new bytes ->
  own_demo s o row -> @Ok string string (tr_access_token new) = Ok access ->
  match tr_refresh_token new with Some r => @Ok string string r = Ok refresh | None => refresh = bytes end ->
  own_demo s o (refreshed access refresh expires_at row).
Proof.
  intros (r & rt & cfg & p & _ & _ & _ & Hc) [Ho _] _ Hr. split; [done|]. right. simpl. unfold classify, endpoint_demo in Hc.
  repeat case_decide; simpl in Hc; simplify_eq; simpl in Hr; by simplify_eq.
Qed.
Lemma header_is_callers_witness :
  let w := tables (row_demo "old" "alice-1" (Some 1000000)) "alice-1" in
  (resolve_demo "hour" quiet UKey1 oauth_auth UAlice (Interfaces.JObj []) w).2 = Ok (Some ("Authorization", "Bearer new")) /\
  all_owned own_demo (resolve_demo "hour" quiet UKey1 oauth_auth UAlice (Interfaces.JObj []) w).1.
Proof.
  set (w := tables _ _). assert (Hr : (resolve_demo "hour" quiet UKey1 oauth_auth UAlice (Interfaces.JObj []) w).2 = Ok (Some ("Authorization", "Bearer new"))) by (vm_compute; reflexivity).
  pose proof (header_is_callers (@Ok string string) Ok parse_token_demo (fun t => Some t) (endpoint_demo "hour") 8210266876799999 own_demo own_demo_refreshed
    quiet UKey1 oauth_auth UAlice (Interfaces.JObj []) w) as H.
  cbn zeta. destruct (resolve _ _ _ _ _ _ _ _ _ _ _ _) as [w' r]. simpl in Hr. subst r. split; [done|]. apply H.
  - by intros i w0 Hw0.
  - split; [|constructor]. constructor; [|constructor]. split; [done|by left].
Defined.

(** Two calls find the same expired token.  The first refreshes it, with a provider that names
    no lifetime and takes a refresh token once; the second, let in after it, sends the refresh token
    it read before the lock, is refused, and deletes the credential the first has just stored. *)
Example second_refresh_deletes :
  let w := tables (row_demo "old" "alice-1" (Some 1000000)) "alice-1" in
  let first := (resolve_demo "none" quiet UKey1 oauth_auth UAlice (Interfaces.JObj []) w).1 in
  let behind := {| ce_now := fun _ => 1000000; ce_db := fun _ => None; ce_others := fun i w => if decide (i = 1%nat) then first else w |} in
  cw_users first = cw_users (tables (row_demo "new" "alice-2" None) "alice-2") /\
  let '(w', r) := resolve_demo "none" behind UKey1 oauth_auth UAlice (Interfaces.JObj []) w in
  cw_users w' = [] /\ match r with Err (Failed (RefreshFailed _ Permanent _)) => True | _ => False end.
Proof. vm_compute. done. Qed.
(** A provider that names too long a lifetime: its refresh token is spent, the call dies, and
    the row keeps the spent one. *)
Example long_lifetime_panics :
  let '(w', r) := resolve_demo "ages" quiet UKey1 oauth_auth UAlice (Interfaces.JObj []) (tables (row_demo "old" "alice-1" (Some 1000000)) "alice-1") in
  cw_provider w' = "alice-2" /\ cw_users w' = cw_users (tables (row_demo "old" "alice-1" (Some 1000000)) "alice-1") /\
  match r with Err (Panicked _) => True | _ => False end.
Proof. vm_compute. done. Qed.

(** * Tool calls on concrete state

    A call from end to end, and the calls on which the gateway does not do what it means to. *)

Abbreviation DW := (mcp_world demo_uuid hstore (gmap string Z) (gmap string entry) demo_breakers string).
Abbreviation DE := (call_env demo_uuid hstore (gmap string Z) (gmap string entry) demo_breakers string).

(** An upstream's answers, and what they read as. *)
Definition done_7 : rpc_response := {| rp_jsonrpc := "2.0"; rp_id := Some (Interfaces.JNum 7); rp_result := Some (Interfaces.JStr "done"); rp_error := None |}.
Definition busy_7 : rpc_response := err_response (Some (Interfaces.JNum 7)) RESOURCE_BUSY "upstream queue full".
Definition libs_demo : mcp_libs demo_uuid string :=
  {| lb_decrypt := Ok; lb_encrypt := Ok; lb_parse_token := parse_token_demo; lb_oauth_error := fun t => Some t;
     lb_token_endpoint := endpoint_demo "hour"; lb_max_datetime := 8210266876799999;
     lb_session_json := to_json_demo; lb_json_session := of_json_demo;
     lb_parse_json := fun t => if decide (t = "progress") then Some (Interfaces.JObj [("method", Interfaces.JStr "notifications/progress")]) else None;
     lb_json_text := fun _ => "json"; lb_response_text := fun _ => "answer";
     lb_decode := fun _ => Err "no"; lb_decode_text := fun t => if decide (t = "done") then Ok done_7 else if decide (t = "busy") then Ok busy_7 else Err "no";
     lb_to_lowercase := fun s => s; lb_slot := fun _ => 0; lb_clustered := false; lb_scan := demo_scan; lb_body_fits := fun _ => true;
     lb_version := "0"; lb_by_server_and_name := fun l => l |}.

Definition wiki_config : server_config :=
  {| sc_endpoint_url := "https://wiki"; sc_oauth_cfg := None; sc_auth_shape := Anonymous; sc_credential_owner := PerUser;
     sc_auth_header_name := "Authorization"; sc_auth_value_template := "Bearer {{token}}"; sc_custom_headers := [] |}.
Definition wiki : tool_server demo_uuid :=
  {| rs_id := UKey1; rs_name := "Wiki"; rs_namespace_prefix := "wiki"; rs_tools := [{| mt_name := "search"; mt_info := {| ti_description := None; ti_input_schema := None |} |}];
     rs_status := Connected; rs_last_health_check := None; rs_cache_ttl_secs := Some 0; rs_cache_scope := McpRegistry.Global; rs_upstream := wiki_config |}.
(** Alice has a session, with an upstream session on the wiki. *)
Definition world_demo : DW :=
  {| mw_shared := {| sh_limits := hs_empty; sh_counters := ∅;
       sh_sessions := {| sw_local := fun _ => {["s" := opened]}; sw_issued := {["s" := UAlice]}; sw_redis := ∅; sw_clock := 0 |};
       sh_cache := {| cr_entries := ∅; cr_sent := 0 |}; sh_breakers := demo_start; sh_pools := pools_start;
       sh_creds := {| cw_users := []; cw_shared := []; cw_provider := ""; cw_wiped := [] |};
       sh_registry := [(UKey1, wiki)]; sh_user_tools := [] |};
     mw_rows := []; mw_sent := [] |}.

Definition env_demo (reply : result string http_reply) (cancelled : option (nat * nat)) : DE :=
  {| pe_pool := 0; pe_cache_ttl := 60; pe_fail_closed := true; pe_link := LinkOk; pe_limit_at := 0; pe_cache_up := true; pe_store_up := true;
     pe_check_at := 0; pe_record_at := 0; pe_get_session := pod 0; pe_set_session := pod 0; pe_creds := quiet; pe_wipe_net := fun _ => true;
     pe_net := fun _ => reply; pe_read := fun _ r => match hp_body r with [Ok t] => Ok t | _ => Err (Transport "broken") end; pe_max_body := 1024;
     pe_admitted := fun _ => true; pe_cancelled := cancelled;
     pe_capture := {| cc_request := true; cc_response := true; cc_max_bytes := 100; cc_redact_pii := false |};
     pe_redactor := {| rd_is_empty := true; redact_blob := fun s => s |}; pe_store := InlineStore; pe_started_at := 0; pe_elapsed := 5;
     pe_others := fun _ s => s |}.
Definition replies_with (status : Z) (content_type text : string) : result string http_reply :=
  Ok {| hp_status := status; hp_content_type := Some content_type; hp_session_id := None; hp_body := [Ok text] |}.
Definition ctx_demo (user : demo_uuid) (streaming : bool) : RequestContext demo_uuid :=
  {| rc_user_id := user; rc_user_email := "x@example.org"; rc_client_session_id := "s"; rc_surface_constraints := SurfaceConstraints_default;
     rc_api_key_lineage_id := None; rc_key_constraints := SurfaceConstraints_default; rc_allowed_mcp_tools := Some ["wiki__*"];
     rc_trace_id := "t"; rc_mcp_account_overrides := Interfaces.JObj []; rc_ip_address := None; rc_wants_streaming := streaming |}.
Definition call_demo : rpc_request :=
  {| rq_jsonrpc := "2.0"; rq_id := Some (Interfaces.JNum 7); rq_method := "tools/call"; rq_params := Some (Interfaces.JObj [("name", Interfaces.JStr "wiki__search")]) |}.
Definition run_demo (E : DE) (user : demo_uuid) (streaming : bool) (w : DW) : DW * result halt HandleOutcome :=
  handle_tools_call libs_demo E (ctx_demo user streaming) call_demo w.

(** The call of Alice: sent once, under her upstream session, and logged once. *)
Example call_end_to_end :
  let '(w, r) := run_demo (env_demo (replies_with 200 "application/json" "done") None) UAlice false world_demo in
  r = Ok (HBuffered done_7) /\ (fun p => (hq_url p.2, hq_body p.2)) <$> mw_sent w = [("https://wiki", upstream_call (Some (Interfaces.JNum 7)) (Interfaces.JObj [("name", Interfaces.JStr "wiki__search")]) "search")] /\
  ae_action <$> mw_rows w = ["tools.call"] /\ ("Mcp-Session-Id", "up-1") ∈ mw_sent w ≫= (fun p => hq_headers p.2).
Proof. vm_compute. split_and!; [done|done|done|]. repeat constructor. Qed.

(** Another user who names Alice's session speaks to the upstream in hers. *)
Example borrowed_session :
  let '(w, r) := run_demo (env_demo (replies_with 200 "application/json" "done") None) UNil false world_demo in
  r = Ok (HBuffered done_7) /\ ("Mcp-Session-Id", "up-1") ∈ mw_sent w ≫= (fun p => hq_headers p.2) /\ ae_user_id <$> mw_rows w = [Some (demo_uuid_str UNil)].
Proof. vm_compute. split_and!; [done| |done]. repeat constructor. Qed.

(** Two clients that leave a stream before its answer open the breaker for everyone: the next
    call of another user is refused, though the upstream answers. *)
Definition stream_demo : result string http_reply := replies_with 200 "text/event-stream" ("data: progress" +:+ String LF (String LF "")).
Definition leave (w : DW) : DW := (run_demo (env_demo stream_demo (Some (1, 1)%nat)) UAlice true w).1.
Example disconnects_open_breaker :
  let '(w, r) := run_demo (env_demo (replies_with 200 "application/json" "done") None) UNil false (leave (leave world_demo)) in
  r = Err (Answered (HBuffered (err_response (Some (Interfaces.JNum 7)) INTERNAL_ERROR "Upstream MCP server 'Wiki' is temporarily unavailable"))) /\
  ae_action <$> mw_rows w = ["tools.call"; "tools.call"; "tools.call.breaker_open"].
Proof. vm_compute. done. Qed.
(** So do two calls whose credential the upstream refuses. *)
Definition forbidden (w : DW) : DW := (run_demo (env_demo (replies_with 403 "text/plain" "no") None) UAlice false w).1.
Example refusals_open_breaker :
  ae_action <$> mw_rows (run_demo (env_demo (replies_with 200 "application/json" "done") None) UNil false (forbidden (forbidden world_demo))).1
    = ["tools.call"; "tools.call"; "tools.call.breaker_open"].
Proof. vm_compute. done. Qed.
(** An upstream's own -32005 reads as the gateway's: 429, and nothing for the breaker. *)
Example upstream_busy_reads_as_gateways :
  let '(w, r) := run_demo (env_demo (replies_with 200 "application/json" "busy") None) UAlice true world_demo in
  r = Ok (HBuffered busy_7) /\ mr_status (render libs_demo true "s" "t" (HBuffered busy_7)) = 429 /\
  (mb_breakers (sh_breakers (mw_shared w)).1) UKey1 = (BState.Closed, 0).
Proof. vm_compute. done. Qed.
