(* ===== verification/SpeedWatch.v ===== *)
(** * Streams an upstream generates too slowly

    [crates/gateway/src/proxy/min_speed.rs]: the slowest generation a provider may keep a stream
    at, the watch fed a stream's bytes as they arrive, and its judgement over the last window.
    Instants and durations are whole nanoseconds.  What reads the upstream's formats
    ([tw_dialect]) is a record of operations.  The judgement is proved to be that of a
    reference which forgets nothing and counts the nanoseconds of the window one by one. *)

From Stdlib Require Import SpecFloat.
From stdpp Require Import sorting.
From S2P Require Import Prelude Interfaces Float64 GatewayDeps Text GatewayError McpRegistry.

Definition ns_per_sec : Z := 1000000000.
Definition LONG_PAUSE_MAX : Z := 5 * ns_per_sec.
Definition CATCH_UP : Z := ns_per_sec.
Definition TOKENS_PER_SEC : Z * Z := (1, 1000).
Definition WINDOW_SECS : Z * Z := (5, 120).
Definition in_bounds (r : Z * Z) (z : Z) : bool := (r.1 <=? z) && (z <=? r.2).

Definition long_pause (window : Z) : Z := Z.min (window / 4) LONG_PAUSE_MAX.

Record MinSpeed := { ms_tokens_per_sec : Z; ms_window_secs : Z }.
#[export] Instance MinSpeed_eq_dec : EqDecision MinSpeed.
Proof. solve_decision. Defined.

(** [u32::try_from] of an [i32]. *)
Definition u32_of_i32 (z : Z) : option Z := if 0 <=? z then Some z else None.

Definition MinSpeed_from_row (tokens_per_sec : option Z) (window_secs : Z) : option MinSpeed :=
  tokens_per_sec ← tokens_per_sec;
  tokens_per_sec ← u32_of_i32 tokens_per_sec;
  window_secs ← u32_of_i32 window_secs;
  if in_bounds TOKENS_PER_SEC tokens_per_sec && in_bounds WINDOW_SECS window_secs
  then Some {| ms_tokens_per_sec := tokens_per_sec; ms_window_secs := window_secs |} else None.

Definition ms_window (m : MinSpeed) : Z := ms_window_secs m * ns_per_sec.

(** ** Counting text *)

Record Text := { tx_ascii : Z; tx_other : Z }.
Definition no_text : Text := {| tx_ascii := 0; tx_other := 0 |}.

Definition byte_of (c : Ascii.ascii) : Z := Z.of_N (Ascii.N_of_ascii c).
Definition Text_add_byte (t : Text) (b : Z) : Text :=
  if b <? 128 then {| tx_ascii := tx_ascii t + 1; tx_other := tx_other t |}
  else if negb (Z.land b 0xC0 =? 0x80) then {| tx_ascii := tx_ascii t; tx_other := tx_other t + 1 |}
  else t.
Fixpoint Text_add (t : Text) (s : string) : Text :=
  match s with
  | EmptyString => t
  | String c s => Text_add (Text_add_byte t (byte_of c)) s
  end.
Definition Text_tokens (t : Text) : Z := div_ceil (tx_ascii t) 4 + tx_other t.

(** ** What [tw_dialect] reads *)

Inductive BlockKind := Thinking | OtherBlock.
Inductive Delta := DeltaThinking (t : string) | DeltaText (t : string) | DeltaToolInput (t : string) | OtherDelta.
Inductive Event :=
  | BlockStart (index : nat) (kind : BlockKind)
  | BlockStop (index : nat)
  | EvDelta (d : Delta)
  | Stop
  | EvStart
  | EvUsage
  | EvError
  | OtherEvent.
Record Frame := { fr_event : option string; fr_data : string }.

(** The dialects, the decoder of frames, the reader of events, and [serde_json::from_str]. *)
Record dialects (D R F : Type) := {
  dl_Chat : D;
  dl_Responses : D;
  dl_reader_new : D -> R;
  dl_reader_feed : R -> string -> R * list Event;
  dl_frames_new : F;
  dl_frames_feed : F -> string -> F * list Frame;
  dl_ends_answer : D -> Frame -> bool;
  dl_from_str : string -> option json;
}.
Arguments dl_Chat {_ _ _}. Arguments dl_Responses {_ _ _}. Arguments dl_reader_new {_ _ _}.
Arguments dl_reader_feed {_ _ _}. Arguments dl_frames_new {_ _ _}. Arguments dl_frames_feed {_ _ _}.
Arguments dl_ends_answer {_ _ _}. Arguments dl_from_str {_ _ _}.

(** ** The watch *)

Record Phase := { ph_index : option nat; ph_since : Z; ph_raw : bool }.

(** What the watch keeps besides its readers. *)
Record Speed := {
  sp_text : Text;
  sp_counted : Z;
  sp_first : option Z;
  sp_done : bool;
  sp_arrivals : list (Z * Z);
  sp_phase : option Phase;
  sp_summarised : list (Z * Z);
}.
Record SpeedWatch (D R F : Type) := {
  sw_min : MinSpeed;
  sw_upstream : D;
  sw_reader : R;
  sw_frames : F;
  sw_speed : Speed;
}.
Arguments Build_SpeedWatch {_ _ _}. Arguments sw_min {_ _ _}. Arguments sw_upstream {_ _ _}.
Arguments sw_reader {_ _ _}. Arguments sw_frames {_ _ _}. Arguments sw_speed {_ _ _}.

Definition no_speed : Speed := {|
  sp_text := no_text; sp_counted := 0; sp_first := None; sp_done := false; sp_arrivals := [];
  sp_phase := None; sp_summarised := [] |}.

Definition set_phase (p : option Phase) (s : Speed) : Speed :=
  {| sp_text := sp_text s; sp_counted := sp_counted s; sp_first := sp_first s; sp_done := sp_done s;
     sp_arrivals := sp_arrivals s; sp_phase := p; sp_summarised := sp_summarised s |}.
Definition end_summary (span : Z * Z) (s : Speed) : Speed :=
  {| sp_text := sp_text s; sp_counted := sp_counted s; sp_first := sp_first s; sp_done := sp_done s;
     sp_arrivals := sp_arrivals s; sp_phase := sp_phase s; sp_summarised := sp_summarised s ++ [span] |}.
Definition add_text (t : string) (s : Speed) : Speed :=
  {| sp_text := Text_add (sp_text s) t; sp_counted := sp_counted s; sp_first := sp_first s; sp_done := sp_done s;
     sp_arrivals := sp_arrivals s; sp_phase := sp_phase s; sp_summarised := sp_summarised s |}.
Definition set_done (s : Speed) : Speed :=
  {| sp_text := sp_text s; sp_counted := sp_counted s; sp_first := sp_first s; sp_done := true;
     sp_arrivals := sp_arrivals s; sp_phase := sp_phase s; sp_summarised := sp_summarised s |}.
(** [Option::get_or_insert]. *)
Definition mark_first (now : Z) (s : Speed) : Speed :=
  {| sp_text := sp_text s; sp_counted := sp_counted s; sp_first := Some (default now (sp_first s)); sp_done := sp_done s;
     sp_arrivals := sp_arrivals s; sp_phase := sp_phase s; sp_summarised := sp_summarised s |}.
Definition set_window (arrivals summarised : list (Z * Z)) (s : Speed) : Speed :=
  {| sp_text := sp_text s; sp_counted := sp_counted s; sp_first := sp_first s; sp_done := sp_done s;
     sp_arrivals := arrivals; sp_phase := sp_phase s; sp_summarised := summarised |}.

Definition close_phase (now : Z) (s : Speed) : Speed :=
  match sp_phase s with
  | None => s
  | Some p =>
      let s := set_phase None s in
      if ph_raw p then s else end_summary (ph_since p, now) s
  end.

Definition open_phase (raw_by_default : bool) (index : option nat) (now : Z) (s : Speed) : Speed :=
  let s := if sp_phase s then close_phase now s else s in
  set_phase (Some {| ph_index := index; ph_since := now; ph_raw := raw_by_default |}) s.

Definition summarising (s : Speed) : bool :=
  match sp_phase s with Some p => negb (ph_raw p) | None => false end.

Definition arrived (now : Z) (s : Speed) : Speed :=
  let total := Text_tokens (sp_text s) in
  let tokens := sat_sub_u64 total (sp_counted s) in
  {| sp_text := sp_text s; sp_counted := Z.max (sp_counted s) total; sp_first := Some (default now (sp_first s));
     sp_done := sp_done s; sp_arrivals := sp_arrivals s ++ [(now, tokens)]; sp_phase := sp_phase s;
     sp_summarised := sp_summarised s |}.

(** One event of the fed bytes; the flag is [visible]. *)
Definition on_event (raw_by_default raw_reasoning : bool) (now : Z) (sv : Speed * bool) (e : Event) : Speed * bool :=
  let '(s, visible) := sv in
  match e with
  | BlockStart index Thinking => (open_phase raw_by_default (Some index) now s, visible)
  | BlockStop index =>
      (match sp_phase s with
       | Some p => if decide (ph_index p = Some index) then close_phase now s else s
       | None => s
       end, visible)
  | EvDelta (DeltaThinking t) =>
      if decide (t = "") then sv
      else
        let s := mark_first now s in
        let s := if sp_phase s then s else open_phase raw_by_default None now s in
        match sp_phase s with
        | Some p =>
            let p := {| ph_index := ph_index p; ph_since := ph_since p; ph_raw := ph_raw p || raw_reasoning |} in
            let s := set_phase (Some p) s in
            if ph_raw p then (add_text t s, true) else (s, visible)
        | None => (s, visible)
        end
  | EvDelta (DeltaText t) | EvDelta (DeltaToolInput t) =>
      if decide (t = "") then sv
      else (add_text t (if sp_phase s then close_phase now s else s), true)
  | Stop => (set_done s, visible)
  | _ => sv
  end.

(** The fed bytes, read: whether a frame ends the answer, whether one is raw reasoning, and the
    events. *)
Definition on_chunk (raw_by_default ends raw_reasoning : bool) (events : list Event) (now : Z) (s : Speed) : Speed :=
  let s := if ends then set_done s else s in
  let '(s, visible) := foldl (on_event raw_by_default raw_reasoning now) (s, false) events in
  if (visible : bool) then arrived now s else s.

Section Watch.
Context {D R F : Type} `{EqDecision D} (L : dialects D R F).
Abbreviation watch := (SpeedWatch D R F).

Definition SpeedWatch_new (min : MinSpeed) (upstream : D) : watch :=
  {| sw_min := min; sw_upstream := upstream; sw_reader := dl_reader_new L upstream;
     sw_frames := dl_frames_new L; sw_speed := no_speed |}.

Definition started (w : watch) : bool := (if sp_first (sw_speed w) then true else false) && negb (sp_done (sw_speed w)).

Definition raw_by_default (w : watch) : bool := bool_decide (sw_upstream w = dl_Chat L).

Definition RAW : string := "response.reasoning_text.delta".
Definition is_raw_reasoning (f : Frame) : bool :=
  match fr_event f with
  | Some e => bool_decide (e = RAW)
  | None =>
      contains_str RAW (fr_data f) &&
      match dl_from_str L (fr_data f) with
      | Some v => bool_decide ((t ← json_get "type" v; json_as_str t) = Some RAW)
      | None => false
      end
  end.

Definition feed (chunk : string) (now : Z) (w : watch) : watch :=
  let '(frames, fs) := dl_frames_feed L (sw_frames w) chunk in
  let ends := existsb (dl_ends_answer L (sw_upstream w)) fs in
  let raw_reasoning := existsb (fun f => bool_decide (sw_upstream w = dl_Responses L) && is_raw_reasoning f) fs in
  let '(reader, events) := dl_reader_feed L (sw_reader w) chunk in
  {| sw_min := sw_min w; sw_upstream := sw_upstream w; sw_reader := reader; sw_frames := frames;
     sw_speed := on_chunk (raw_by_default w) ends raw_reasoning events now (sw_speed w) |}.
End Watch.

(** ** The judgement *)

(** The [while] loops of [rate]: one arrival at or before the window's start is kept. *)
Fixpoint keep_one_before (start : Z) (l : list (Z * Z)) : list (Z * Z) :=
  match l with
  | _ :: ((b :: _) as l') => if b.1 <=? start then keep_one_before start l' else l
  | _ => l
  end.
Fixpoint drop_ended (start : Z) (l : list (Z * Z)) : list (Z * Z) :=
  match l with
  | span :: l' => if span.2 <=? start then drop_ended start l' else l
  | [] => []
  end.

(** The order of pairs that [Vec::sort] puts them in. *)
Definition span_le (a b : Z * Z) : Prop := a.1 < b.1 \/ a.1 = b.1 /\ a.2 <= b.2.
#[export] Instance span_le_dec a b : Decision (span_le a b).
Proof. unfold span_le. apply _. Defined.

Definition arrival_spans (arrivals : list (Z * Z)) (now : Z) : list (Z * Z) :=
  zip arrivals.*1 (drop 1 arrivals.*1 ++ [now]).
Definition open_summary (s : Speed) (now : Z) : list (Z * Z) :=
  match sp_phase s with Some p => if ph_raw p then [] else [(ph_since p, now)] | None => [] end.
(** The spans to leave out, before they are clipped to the window. *)
Definition quiet_spans (pause : Z) (s : Speed) (now : Z) : list (Z * Z) :=
  List.filter (fun span => pause <=? Z.max 0 (span.2 - span.1)) (arrival_spans (sp_arrivals s) now) ++
  sp_summarised s ++ open_summary s now.
Definition clip (start now : Z) (spans : list (Z * Z)) : list (Z * Z) :=
  List.filter (fun span => span.1 <? span.2) ((fun span => (Z.max span.1 start, Z.min span.2 now)) <$> spans).
Fixpoint sweep (reach : Z) (out : list (Z * Z)) : Z :=
  match out with
  | [] => 0
  | (from, to) :: out =>
      let from := Z.max from reach in
      if from <? to then (to - from) + sweep to out else sweep reach out
  end.
Fixpoint sum_tokens (l : list (Z * Z)) : Z :=
  match l with [] => 0 | a :: l => a.2 + sum_tokens l end.

(** [Duration::as_secs_f64]. *)
Definition as_secs_f64 (ns : Z) : f64 :=
  f64_add (f64_of_Z (ns / ns_per_sec)) (f64_div (f64_of_Z (ns mod ns_per_sec)) (f64_of_Z ns_per_sec)).
Definition speed_of (tokens measured : Z) : f64 := f64_div (f64_of_Z tokens) (as_secs_f64 measured).

Definition rate (min : MinSpeed) (now : Z) (s : Speed) : Speed * option f64 :=
  match sp_first s with
  | None => (s, None)
  | Some first =>
      let window := ms_window min in
      if Z.max 0 (now - first) <? window then (s, None)
      else
        let start := now - window in
        let s := set_window (keep_one_before start (sp_arrivals s)) (drop_ended start (sp_summarised s)) s in
        let tokens := sum_tokens (List.filter (fun a => start <? a.1) (sp_arrivals s)) in
        let out := merge_sort span_le (clip start now (quiet_spans (long_pause window) s now)) in
        let measured := Z.max 0 (window - sweep start out) in
        (s, if measured <? window / 2 then None else Some (speed_of tokens measured))
  end.

Definition cut_rate (min : MinSpeed) (r : f64) : option Z :=
  if f64_ltb r (f64_of_Z (ms_tokens_per_sec min)) then Some (Z.min (f64_floor_nonneg r) u32_max) else None.

Definition too_slow_speed (min : MinSpeed) (now : Z) (s : Speed) : Speed * option Z :=
  if sp_done s || summarising s then (s, None)
  else match last (sp_arrivals s) with
       | None => (s, None)
       | Some a =>
           if CATCH_UP <? Z.max 0 (now - a.1) then (s, None)
           else let '(s, r) := rate min now s in (s, r ≫= cut_rate min)
       end.
Definition too_slow {D R F} (now : Z) (w : SpeedWatch D R F) : SpeedWatch D R F * option Z :=
  let '(s, r) := too_slow_speed (sw_min w) now (sw_speed w) in
  ({| sw_min := sw_min w; sw_upstream := sw_upstream w; sw_reader := sw_reader w; sw_frames := sw_frames w; sw_speed := s |}, r).

(** ** Intervals *)

Definition in_span (x : Z) (span : Z * Z) : Prop := span.1 <= x < span.2.
#[export] Instance in_span_dec x span : Decision (in_span x span).
Proof. unfold in_span. apply _. Defined.
Definition covered (spans : list (Z * Z)) (x : Z) : Prop := Exists (in_span x) spans.
#[export] Instance covered_dec spans x : Decision (covered spans x).
Proof. unfold covered. apply _. Defined.

(** How many of the [n] nanoseconds from [lo] on the spans cover. *)
Fixpoint covered_ns (spans : list (Z * Z)) (lo : Z) (n : nat) : Z :=
  match n with
  | O => 0
  | S n => (if decide (covered spans lo) then 1 else 0) + covered_ns spans (lo + 1) n
  end.

#[export] Instance span_le_trans : Transitive span_le.
Proof. intros [a b] [c d] [e f]. unfold span_le. simpl. lia. Qed.
#[export] Instance span_le_total : Total span_le.
Proof. intros [a b] [c d]. unfold span_le. simpl. lia. Qed.

Lemma covered_ns_ext l l' lo n :
  (forall x, lo <= x < lo + Z.of_nat n -> covered l x <-> covered l' x) -> covered_ns l lo n = covered_ns l' lo n.
Proof.
  revert lo. induction n as [|n IH]; intros lo Hx; simpl; [done|].
  rewrite (IH (lo + 1)) by (intros; apply Hx; lia).
  f_equal. apply decide_ext, Hx. lia.
Qed.
Lemma covered_ns_app l lo n m : covered_ns l lo (n + m) = covered_ns l lo n + covered_ns l (lo + Z.of_nat n) m.
Proof.
  revert lo. induction n as [|n IH]; intros lo; simpl; [by rewrite Z.add_0_r|].
  rewrite IH. replace (lo + 1 + Z.of_nat n) with (lo + Z.of_nat (S n)) by lia. lia.
Qed.
Lemma covered_ns_all l lo n : (forall x, lo <= x < lo + Z.of_nat n -> covered l x) -> covered_ns l lo n = Z.of_nat n.
Proof.
  revert lo. induction n as [|n IH]; intros lo Hx; simpl; [done|].
  rewrite decide_True by (apply Hx; lia). rewrite IH; [lia|]. intros. apply Hx. lia.
Qed.
Lemma covered_ns_none l lo n : (forall x, lo <= x < lo + Z.of_nat n -> ~ covered l x) -> covered_ns l lo n = 0.
Proof.
  revert lo. induction n as [|n IH]; intros lo Hx; simpl; [done|].
  rewrite decide_False by (apply Hx; lia). rewrite IH; [done|]. intros. apply Hx. lia.
Qed.
Lemma covered_ns_bounds l lo n : 0 <= covered_ns l lo n <= Z.of_nat n.
Proof. revert lo. induction n as [|n IH]; intros lo; simpl; [lia|]. specialize (IH (lo + 1)). case_decide; lia. Qed.

(** The sweep over the sorted spans counts each nanosecond once. *)
Lemma sweep_counts hi l reach :
  StronglySorted span_le l -> Forall (fun p => p.1 < p.2 <= hi) l -> reach <= hi ->
  sweep reach l = covered_ns l reach (Z.to_nat (hi - reach)).
Proof.
  revert reach. induction l as [|[f t] l IH]; intros reach Hs Hb Hr.
  { simpl. symmetry. apply covered_ns_none. unfold covered. intros x _ Hc. by apply Exists_nil in Hc. }
  apply StronglySorted_inv in Hs as [Hs Hf]. apply Forall_cons in Hb as [Hft Hb]. cbn [fst snd] in Hft.
  assert (Hskip : forall x, t <= x -> covered ((f, t) :: l) x <-> covered l x).
  { intros x Hx. unfold covered. rewrite Exists_cons. unfold in_span at 1. simpl. split; [|auto]. intros [?|?]; [lia|done]. }
  simpl. destruct (Z.max f reach <? t) eqn:Hlt; zbool.
  - rewrite IH by (done || lia).
    replace (Z.to_nat (hi - reach)) with (Z.to_nat (Z.max f reach - reach) + (Z.to_nat (t - Z.max f reach) + Z.to_nat (hi - t)))%nat by lia.
    rewrite !covered_ns_app.
    rewrite (covered_ns_none (_ :: l) _ (Z.to_nat (Z.max f reach - reach))); cycle 1.
    { unfold covered. intros x Hx [Hin|Hin]%Exists_cons; unfold in_span in *; simpl in *; [lia|].
      apply Exists_exists in Hin as (q & Hq & Hin). unfold in_span in Hin.
      rewrite Forall_forall in Hf. specialize (Hf q Hq). unfold span_le in Hf. simpl in Hf. lia. }
    rewrite (covered_ns_all (_ :: l) _ (Z.to_nat (t - Z.max f reach))); cycle 1.
    { unfold covered. intros x Hx. apply Exists_cons_hd. unfold in_span. simpl. lia. }
    rewrite !Z2Nat.id by lia. replace (reach + (Z.max f reach - reach) + (t - Z.max f reach)) with t by lia.
    rewrite (covered_ns_ext ((f, t) :: l) l t) by (intros; apply Hskip; lia). lia.
  - rewrite IH by (done || lia). apply covered_ns_ext. intros x Hx. symmetry. apply Hskip. lia.
Qed.

Lemma covered_clip start now spans x : start <= x < now -> covered (clip start now spans) x <-> covered spans x.
Proof.
  intros Hx. unfold covered, clip. rewrite !Exists_exists. split.
  - intros (p & Hp & Hin). apply list_elem_of_In, filter_In in Hp as [Hp _].
    apply list_elem_of_In, list_elem_of_fmap in Hp as (q & -> & Hq). exists q. split; [done|]. unfold in_span in *. simpl in *. lia.
  - intros (q & Hq & Hin). exists (Z.max q.1 start, Z.min q.2 now). split; [|unfold in_span in *; simpl; lia].
    apply list_elem_of_In, filter_In. split; [|unfold in_span in *; simpl; apply Z.ltb_lt; lia].
    apply list_elem_of_In, list_elem_of_fmap. by exists q.
Qed.

Lemma covered_perm l l' x : l ≡ₚ l' -> covered l x <-> covered l' x.
Proof.
  intros Hp. unfold covered. rewrite !Exists_exists. split; intros (p & Hin & Hx); exists p; (split; [|done]);
    [by rewrite <- Hp|by rewrite Hp].
Qed.

(** What is left out of a window: the nanoseconds of it that some span covers. *)
Lemma left_out_counts start now spans : start <= now ->
  sweep start (merge_sort span_le (clip start now spans)) = covered_ns spans start (Z.to_nat (now - start)).
Proof.
  intros Hle. rewrite (sweep_counts now).
  - apply covered_ns_ext. intros x Hx. etrans; [|apply (covered_clip start now); lia].
    apply covered_perm, merge_sort_Permutation.
  - apply Sorted_StronglySorted; [exact span_le_trans|]. apply Sorted_merge_sort, _.
  - rewrite merge_sort_Permutation. apply Forall_forall. intros p Hp.
    apply list_elem_of_In, filter_In in Hp as [Hp Hlt]. zbool. apply list_elem_of_In, list_elem_of_fmap in Hp as (q & -> & _). simpl in *. lia.
  - lia.
Qed.

(** ** Forgetting what is before the window

    [pruned start l l']: [l'] is [l] without arrivals each of which has another after it at or
    before [start]. *)

Inductive pruned (start : Z) : list (Z * Z) -> list (Z * Z) -> Prop :=
  | pruned_refl l : pruned start l l
  | pruned_pop a b l l' : a.1 <= b.1 <= start -> pruned start (b :: l) l' -> pruned start (a :: b :: l) l'.

Lemma pruned_app start l l' x : pruned start l l' -> pruned start (l ++ x) (l' ++ x).
Proof. induction 1; simpl in *; by constructor. Qed.
Lemma pruned_later start start' l l' : start <= start' -> pruned start l l' -> pruned start' l l'.
Proof. intros Hs. induction 1; constructor; [lia|done]. Qed.
Lemma pruned_trans start l l' l'' : pruned start l l' -> pruned start l' l'' -> pruned start l l''.
Proof. induction 1; [done|]. intros Hp. constructor; auto. Qed.
Lemma pruned_last start l l' : pruned start l l' -> last l = last l'.
Proof. by induction 1. Qed.
Lemma pruned_tokens start l l' : pruned start l l' ->
  sum_tokens (List.filter (fun a => start <? a.1) l) = sum_tokens (List.filter (fun a => start <? a.1) l').
Proof.
  induction 1 as [|a b l l' Hab _ IH]; [done|]. rewrite <- IH. simpl.
  by replace (start <? a.1) with false by (symmetry; apply Z.ltb_ge; lia).
Qed.

Definition long_gaps (pause now : Z) (l : list (Z * Z)) : list (Z * Z) :=
  List.filter (fun span => pause <=? Z.max 0 (span.2 - span.1)) (arrival_spans l now).
Lemma arrival_spans_cons a b l now : arrival_spans (a :: b :: l) now = (a.1, b.1) :: arrival_spans (b :: l) now.
Proof. reflexivity. Qed.

Lemma pruned_gaps pause now start l l' x : pruned start l l' -> start <= x ->
  covered (long_gaps pause now l) x <-> covered (long_gaps pause now l') x.
Proof.
  intros Hp Hx. induction Hp as [|a b l l' Hab _ IH]; [done|]. rewrite <- IH.
  unfold long_gaps. rewrite arrival_spans_cons. simpl. destruct (pause <=? _); [|done].
  unfold covered. rewrite Exists_cons. unfold in_span at 1. simpl. split; [|auto]. intros [?|?]; [lia|done].
Qed.

Definition by_time (l : list (Z * Z)) : Prop := StronglySorted (fun a b => a.1 <= b.1) l.
Lemma keep_one_pruned start l : by_time l -> pruned start l (keep_one_before start l).
Proof.
  unfold by_time. induction l as [|a [|b l] IH]; intros Hs; [constructor|constructor|].
  apply StronglySorted_inv in Hs as [Hs Ha]. simpl. destruct (b.1 <=? start) eqn:Hb; [|constructor]. zbool.
  apply Forall_cons in Ha as [Hab _]. constructor; [lia|]. by apply IH.
Qed.
Lemma keep_one_suffix start l : exists pre, l = pre ++ keep_one_before start l.
Proof.
  induction l as [|a [|b l] IH]; [by exists []|by exists []|]. simpl. destruct (b.1 <=? start); [|by exists []].
  destruct IH as [pre Hp]. exists (a :: pre). simpl. f_equal. exact Hp.
Qed.
Lemma drop_ended_spec start l : exists pre, l = pre ++ drop_ended start l /\ Forall (fun p => p.2 <= start) pre.
Proof.
  induction l as [|p l (pre & Hl & Hp)]; [by exists []|]. simpl. destruct (p.2 <=? start) eqn:E; [|by exists []]. zbool.
  exists (p :: pre). split; [by rewrite Hl at 1|by constructor].
Qed.
Lemma ended_uncovered start pre l x : Forall (fun p => p.2 <= start) pre -> start <= x -> covered (pre ++ l) x <-> covered l x.
Proof.
  intros Hp Hx. unfold covered. rewrite Exists_app. split; [|auto]. intros [Hc|Hc]; [|done].
  apply Exists_exists in Hc as (p & Hin & Hc). rewrite Forall_forall in Hp. specialize (Hp p Hin). unfold in_span in Hc. lia.
Qed.

(** ** The reference

    The watch with its whole history: what the window holds, nanosecond by nanosecond. *)

Definition measured_ns (min : MinSpeed) (now : Z) (h : Speed) : Z :=
  let window := ms_window min in
  window - covered_ns (quiet_spans (long_pause window) h now) (now - window) (Z.to_nat window).

Definition judged_rate (min : MinSpeed) (now : Z) (h : Speed) : option f64 :=
  match sp_first h with
  | None => None
  | Some first =>
      if now - first <? ms_window min then None
      else if measured_ns min now h <? ms_window min / 2 then None
      else Some (speed_of (sum_tokens (List.filter (fun a => now - ms_window min <? a.1) (sp_arrivals h))) (measured_ns min now h))
  end.

(** Judged at all: the answer runs on, no summary is open, and the last content is fresh. *)
Definition judgeable (now : Z) (h : Speed) : bool :=
  negb (sp_done h) && negb (summarising h) &&
  match last (sp_arrivals h) with Some a => Z.max 0 (now - a.1) <=? CATCH_UP | None => false end.

Definition judge (min : MinSpeed) (now : Z) (h : Speed) : option Z :=
  if judgeable now h then judged_rate min now h ≫= cut_rate min else None.

(** [h] is [s] with what [s] has forgotten by a judgement at [start] or before. *)
Record remembers (start : Z) (h s : Speed) : Prop := {
  rm_arrivals : pruned start (sp_arrivals h) (sp_arrivals s);
  rm_summarised : exists pre, sp_summarised h = pre ++ sp_summarised s /\ Forall (fun p => p.2 <= start) pre;
  rm_rest : h = set_window (sp_arrivals h) (sp_summarised h) s;
}.

Lemma remembers_quiet start h s pause now x : remembers start h s -> start <= x ->
  covered (quiet_spans pause h now) x <-> covered (quiet_spans pause s now) x.
Proof.
  intros [Ha (pre & Hpre & Hp) Hr] Hx. unfold quiet_spans.
  assert (Ho : open_summary h now = open_summary s now) by (rewrite Hr; reflexivity). rewrite Ho, Hpre.
  fold (long_gaps pause now (sp_arrivals h)) (long_gaps pause now (sp_arrivals s)).
  rewrite <- app_assoc. unfold covered. rewrite !Exists_app.
  pose proof (pruned_gaps pause now start _ _ x Ha Hx) as Hg.
  pose proof (ended_uncovered start pre [] x Hp Hx) as He. rewrite app_nil_r in He. unfold covered in *. rewrite Exists_nil in He.
  tauto.
Qed.
Lemma remembers_rate min now h s : remembers (now - ms_window min) h s -> 0 <= ms_window min -> judged_rate min now h = judged_rate min now s.
Proof.
  intros Hm Hw. unfold judged_rate.
  assert (Hf : sp_first h = sp_first s) by (rewrite (rm_rest _ _ _ Hm); reflexivity). rewrite Hf.
  assert (Hc : measured_ns min now h = measured_ns min now s).
  { unfold measured_ns. f_equal. apply covered_ns_ext. intros x Hx. apply (remembers_quiet (now - ms_window min)); [done|lia]. }
  rewrite Hc. by rewrite (pruned_tokens _ _ _ (rm_arrivals _ _ _ Hm)).
Qed.

Definition prune (start : Z) (s : Speed) : Speed :=
  set_window (keep_one_before start (sp_arrivals s)) (drop_ended start (sp_summarised s)) s.
Lemma prune_remembers start s : by_time (sp_arrivals s) -> remembers start s (prune start s).
Proof.
  intros Hs. split; [by apply keep_one_pruned| |by destruct s].
  destruct (drop_ended_spec start (sp_summarised s)) as (pre & Hl & Hp). by exists pre.
Qed.

(** The rate the code computes on what it kept is the reference's on all of it. *)
Lemma rate_is_judged min now s : 0 < ms_window min -> by_time (sp_arrivals s) -> (rate min now s).2 = judged_rate min now s.
Proof.
  intros Hw Hs. pose proof (prune_remembers (now - ms_window min) s Hs) as Hf.
  rewrite (remembers_rate min now s _ Hf) by lia. unfold rate, judged_rate.
  change (sp_first (prune (now - ms_window min) s)) with (sp_first s).
  destruct (sp_first s) as [first|]; [|done].
  replace (Z.max 0 (now - first) <? ms_window min) with (now - first <? ms_window min)
    by (destruct (now - first <? _) eqn:E1, (Z.max 0 (now - first) <? _) eqn:E2; zbool; lia).
  destruct (now - first <? ms_window min); [done|]. cbv zeta. fold (prune (now - ms_window min) s). cbn [snd].
  assert (Hm : Z.max 0 (ms_window min - sweep (now - ms_window min) (merge_sort span_le (clip (now - ms_window min) now
    (quiet_spans (long_pause (ms_window min)) (prune (now - ms_window min) s) now)))) = measured_ns min now (prune (now - ms_window min) s)).
  { rewrite left_out_counts by lia. unfold measured_ns. replace (now - (now - ms_window min)) with (ms_window min) by lia.
    match goal with |- context [covered_ns ?l ?a ?n] => pose proof (covered_ns_bounds l a n) end. lia. }
  by rewrite Hm.
Qed.

(** ** Feeding what remembers and what forgot *)

Lemma remembers_lift start h s : remembers start h s ->
  exists pre, h = set_window (sp_arrivals h) (pre ++ sp_summarised s) s /\ Forall (fun p => p.2 <= start) pre.
Proof. intros [Ha (pre & Hpre & Hp) Hr]. exists pre. rewrite <- Hpre. by split. Qed.

(** An event adds to what is remembered and never looks at it. *)
Lemma on_event_lift rd rr now A pre s v e :
  on_event rd rr now (set_window A (pre ++ sp_summarised s) s, v) e =
  let '(s', v') := on_event rd rr now (s, v) e in (set_window A (pre ++ sp_summarised s') s', v').
Proof.
  destruct s as [text counted start ended arr phase summ], e as [index [|]|index|[t|t|t|]| | | | |]; try reflexivity; simpl.
  - destruct phase as [[ix since []]|]; try reflexivity. unfold open_phase, close_phase, end_summary, set_phase, set_window. simpl. by rewrite app_assoc.
  - destruct phase as [[ix since []]|]; try reflexivity; simpl; case_decide; try reflexivity.
    unfold close_phase, end_summary, set_phase, set_window. simpl. by rewrite app_assoc.
  - case_decide; [reflexivity|]. destruct phase as [[ix since []]|], rd, rr; reflexivity.
  - case_decide; [reflexivity|]. destruct phase as [[ix since []]|]; try reflexivity.
    unfold close_phase, end_summary, set_phase, set_window, add_text. simpl. by rewrite app_assoc.
  - case_decide; [reflexivity|]. destruct phase as [[ix since []]|]; try reflexivity.
    unfold close_phase, end_summary, set_phase, set_window, add_text. simpl. by rewrite app_assoc.
Qed.
Lemma on_events_lift rd rr now A pre es s v :
  foldl (on_event rd rr now) (set_window A (pre ++ sp_summarised s) s, v) es =
  let '(s', v') := foldl (on_event rd rr now) (s, v) es in (set_window A (pre ++ sp_summarised s') s', v').
Proof.
  revert s v. induction es as [|e es IH]; intros s v; [reflexivity|]. cbn [foldl]. rewrite on_event_lift.
  destruct (on_event rd rr now (s, v) e) as [s' v']. apply IH.
Qed.

Lemma on_event_arrivals rd rr now s v e : sp_arrivals (on_event rd rr now (s, v) e).1 = sp_arrivals s.
Proof.
  destruct s as [text counted start ended arr phase summ], e as [index [|]|index|[t|t|t|]| | | | |]; try reflexivity; simpl;
    try case_decide; destruct phase as [[ix since []]|]; try reflexivity; simpl; try case_decide; destruct rd, rr; reflexivity.
Qed.
Lemma on_events_arrivals rd rr now es s v : sp_arrivals (foldl (on_event rd rr now) (s, v) es).1 = sp_arrivals s.
Proof.
  revert s v. induction es as [|e es IH]; intros s v; [done|]. cbn [foldl].
  pose proof (on_event_arrivals rd rr now s v e) as He. destruct (on_event rd rr now (s, v) e) as [s' v']. cbn [fst] in He. by rewrite IH.
Qed.

Lemma on_chunk_arrivals rd ends rr es now s :
  exists new, sp_arrivals (on_chunk rd ends rr es now s) = sp_arrivals s ++ new /\ Forall (fun a => a.1 = now) new.
Proof.
  unfold on_chunk. set (s0 := if ends then set_done s else s).
  assert (H0 : sp_arrivals s0 = sp_arrivals s) by (by subst s0; destruct ends).
  pose proof (on_events_arrivals rd rr now es s0 false) as H1. destruct (foldl _ (s0, false) es) as [s1 v]. cbn [fst] in H1.
  destruct v; simpl; [|exists []; split; [by rewrite app_nil_r, H1|done]].
  eexists. rewrite H1, H0. split; [done|by constructor].
Qed.
Lemma on_chunk_remembers rd ends rr es now start h s :
  remembers start h s -> remembers start (on_chunk rd ends rr es now h) (on_chunk rd ends rr es now s).
Proof.
  intros Hm. pose proof (rm_arrivals _ _ _ Hm) as Ha. destruct (remembers_lift _ _ _ Hm) as (pre & Hh & Hp).
  set (A := sp_arrivals h) in *. clearbody A. subst h. unfold on_chunk.
  replace (if ends then set_done (set_window A (pre ++ sp_summarised s) s) else set_window A (pre ++ sp_summarised s) s)
    with (set_window A (pre ++ sp_summarised (if ends then set_done s else s)) (if ends then set_done s else s)) by (by destruct ends).
  rewrite on_events_lift.
  assert (H0 : sp_arrivals (if ends then set_done s else s) = sp_arrivals s) by (by destruct ends).
  pose proof (on_events_arrivals rd rr now es (if ends then set_done s else s) false) as H1.
  destruct (foldl _ _ es) as [s1 v]. cbn [fst] in H1. rewrite H0 in H1. rewrite <- H1 in Ha.
  destruct v; split; simpl; try done; try (by exists pre). by apply pruned_app.
Qed.
Lemma prune_keeps start0 start h s : start0 <= start -> by_time (sp_arrivals s) -> remembers start0 h s -> remembers start h (prune start s).
Proof.
  intros Hle Hs [Ha (pre & Hpre & Hp) Hr]. destruct (prune_remembers start s Hs) as [Ha' (pre' & Hpre' & Hp') Hr']. split.
  - eapply pruned_trans; [by eapply pruned_later|done].
  - exists (pre ++ pre'). rewrite <- app_assoc, <- Hpre'. split; [done|]. apply Forall_app. split; [|done].
    eapply Forall_impl; [done|]. simpl. lia.
  - by rewrite Hr at 1.
Qed.
Lemma remembers_later start start' h s : start <= start' -> remembers start h s -> remembers start' h s.
Proof.
  intros Hle [Ha (pre & Hpre & Hp) Hr]. split; [by eapply pruned_later| |done]. exists pre. split; [done|].
  eapply Forall_impl; [done|]. simpl. lia.
Qed.
Lemma by_time_app l new T now : by_time l -> Forall (fun a => a.1 <= T) l -> T <= now -> Forall (fun a => a.1 = now) new -> by_time (l ++ new).
Proof.
  unfold by_time. intros Hs Hl Hn Hnew. induction Hs as [|a l Hs IH Ha]; simpl.
  - induction Hnew as [|b new Hb Hnew IH]; constructor; [done|]. eapply Forall_impl; [done|]. simpl. lia.
  - apply Forall_cons in Hl as [Hal Hl]. constructor; [auto|]. apply Forall_app. split; [done|].
    eapply Forall_impl; [done|]. simpl. lia.
Qed.

(** ** Runs *)

Inductive watch_call := CallFeed (chunk : string) | CallJudge.

Section Runs.
Context {D R F : Type} `{EqDecision D} (L : dialects D R F).
Abbreviation watch := (SpeedWatch D R F).
Implicit Types (w h : watch).

Definition watch_step w (c : Z * watch_call) : watch :=
  match c.2 with CallFeed chunk => feed L chunk c.1 w | CallJudge => (too_slow c.1 w).1 end.
Definition watch_run (calls : list (Z * watch_call)) w : watch := foldl watch_step w calls.
(** The same bytes, never judged: nothing is forgotten. *)
Definition only_fed (calls : list (Z * watch_call)) : list (Z * watch_call) :=
  List.filter (fun c => match c.2 with CallFeed _ => true | CallJudge => false end) calls.
Definition in_order (calls : list (Z * watch_call)) : Prop := StronglySorted (fun a b => a.1 <= b.1) calls.

Record agree (T : Z) h w : Prop := {
  ag_min : sw_min h = sw_min w;
  ag_upstream : sw_upstream h = sw_upstream w;
  ag_reader : sw_reader h = sw_reader w;
  ag_frames : sw_frames h = sw_frames w;
  ag_speed : remembers (T - ms_window (sw_min w)) (sw_speed h) (sw_speed w);
  ag_by_time : by_time (sp_arrivals (sw_speed w)) /\ by_time (sp_arrivals (sw_speed h));
  ag_past : Forall (fun a => a.1 <= T) (sp_arrivals (sw_speed w)) /\ Forall (fun a => a.1 <= T) (sp_arrivals (sw_speed h));
}.

Lemma feed_agrees T h w chunk now : T <= now -> agree T h w -> agree now (feed L chunk now h) (feed L chunk now w).
Proof.
  intros HT [Hmin Hup Hrd Hfr Hsp [Ht Ht'] [Hp Hp']]. unfold feed, raw_by_default. rewrite Hup, Hrd, Hfr.
  destruct (dl_frames_feed L _ chunk) as [frames fs], (dl_reader_feed L _ chunk) as [reader events].
  split; simpl; try done.
  - apply on_chunk_remembers. eapply remembers_later; [|done]. lia.
  - split; match goal with |- context [on_chunk ?a ?b ?c ?d ?e ?f] => destruct (on_chunk_arrivals a b c d e f) as (new & -> & Hn) end; by eapply by_time_app.
  - split; match goal with |- context [on_chunk ?a ?b ?c ?d ?e ?f] => destruct (on_chunk_arrivals a b c d e f) as (new & -> & Hn) end;
      (apply Forall_app; split; (eapply Forall_impl; [done|]; simpl; lia)).
Qed.

Lemma too_slow_speed_forgets min now s : (too_slow_speed min now s).1 = s \/ (too_slow_speed min now s).1 = prune (now - ms_window min) s.
Proof.
  unfold too_slow_speed, rate. destruct (sp_done s || summarising s); [by left|]. destruct (last _) as [a|]; [|by left].
  destruct (CATCH_UP <? _); [by left|]. destruct (sp_first s) as [first|]; [|by left]. destruct (_ <? ms_window min); [by left|by right].
Qed.
Lemma judge_agrees T h w now : T <= now -> agree T h w -> agree now h (too_slow now w).1.
Proof.
  intros HT [Hmin Hup Hrd Hfr Hsp [Ht Ht'] [Hp Hp']]. unfold too_slow.
  pose proof (too_slow_speed_forgets (sw_min w) now (sw_speed w)) as Hf.
  destruct (too_slow_speed (sw_min w) now (sw_speed w)) as [s r]. cbn [fst] in Hf.
  assert (Hpast : Forall (fun a => a.1 <= now) (sp_arrivals (sw_speed h))) by (eapply Forall_impl; [exact Hp'|]; simpl; lia).
  destruct Hf as [-> | ->]; split; simpl; try done.
  - eapply remembers_later; [|done]. lia.
  - split; [|done]. eapply Forall_impl; [exact Hp|]. simpl. lia.
  - eapply prune_keeps; [|done..]. lia.
  - split; [|done]. destruct (keep_one_suffix (now - ms_window (sw_min w)) (sp_arrivals (sw_speed w))) as [pre Hpre].
    unfold by_time in *. rewrite Hpre in Ht. by apply StronglySorted_app_1_r in Ht.
  - split; [|done]. destruct (keep_one_suffix (now - ms_window (sw_min w)) (sp_arrivals (sw_speed w))) as [pre Hpre].
    rewrite Hpre in Hp. apply Forall_app in Hp as [_ Hp]. eapply Forall_impl; [exact Hp|]. simpl. lia.
Qed.

Lemma run_agrees calls T h w : in_order calls -> Forall (fun c => T <= c.1) calls -> agree T h w ->
  exists T', T <= T' /\ (forall now, T <= now -> Forall (fun c => c.1 <= now) calls -> T' <= now) /\
    agree T' (watch_run (only_fed calls) h) (watch_run calls w).
Proof.
  revert T h w. induction calls as [|[t c] calls IH]; intros T h w Ho Hf Ha; [exists T; by split_and!|].
  apply StronglySorted_inv in Ho as [Ho Hle]. apply Forall_cons in Hf as [HT Hf]. simpl in HT.
  assert (Hnext : agree t (if c then watch_step h (t, c) else h) (watch_step w (t, c))).
  { destruct c; [by apply (feed_agrees T)|by apply (judge_agrees T)]. }
  destruct (IH t _ _ Ho Hle Hnext) as (T' & HT' & Hend & Hag). exists T'. split; [lia|]. split.
  - intros now Hn Hall. apply Forall_cons in Hall as [Ht Hall]. by apply Hend.
  - by destruct c.
Qed.

Lemma agree_judges T h w now : 0 < ms_window (sw_min w) -> T <= now -> agree T h w -> (too_slow now w).2 = judge (sw_min w) now (sw_speed h).
Proof.
  intros Hw HT [Hmin Hup Hrd Hfr Hsp [Ht Ht'] _]. unfold too_slow, judge, judgeable, too_slow_speed.
  assert (Hd : sp_done (sw_speed h) = sp_done (sw_speed w)) by (rewrite (rm_rest _ _ _ Hsp); reflexivity).
  assert (Hs : summarising (sw_speed h) = summarising (sw_speed w)) by (rewrite (rm_rest _ _ _ Hsp); reflexivity).
  rewrite Hd, Hs, (pruned_last _ _ _ (rm_arrivals _ _ _ Hsp)).
  destruct (sp_done (sw_speed w)); [done|]. destruct (summarising (sw_speed w)); [done|]. cbn [orb negb andb].
  destruct (last _) as [a|]; [|done]. rewrite Z.leb_antisym. destruct (CATCH_UP <? _); [done|]. cbn [negb].
  pose proof (rate_is_judged (sw_min w) now (sw_speed w) Hw Ht) as Hr.
  destruct (rate (sw_min w) now (sw_speed w)) as [s r]. cbn [snd] in *. rewrite Hr.
  f_equal. symmetry. apply remembers_rate; [|lia]. eapply remembers_later; [|done]. lia.
Qed.

(** C23: the watch cuts a stream exactly when the reference does: the reference remembers every
    piece of content and every summary since the start, counts the nanoseconds of the last
    window that no long pause and no summarised reasoning covers, and divides the tokens that
    arrived in the window by them; it judges nothing while the answer is over, a summary is
    open, the last content is more than a second old, or less than half the window is left. *)
Theorem stream_judged_by_its_window min upstream calls now :
  in_bounds WINDOW_SECS (ms_window_secs min) = true -> in_order calls -> Forall (fun c => c.1 <= now) calls ->
  (too_slow now (watch_run calls (SpeedWatch_new L min upstream))).2 =
  judge min now (sw_speed (watch_run (only_fed calls) (SpeedWatch_new L min upstream))).
Proof.
  intros Hr Ho Hnow. unfold in_bounds in Hr. simpl in Hr. zbool.
  assert (Hmin : sw_min (watch_run calls (SpeedWatch_new L min upstream)) = min).
  { assert (Hk : forall w, sw_min (watch_run calls w) = sw_min w); [|apply Hk]. clear. induction calls as [|[t c] calls IH]; intros w; [done|].
    unfold watch_run in *. cbn [foldl]. rewrite IH. unfold watch_step. destruct c; cbn [fst snd].
    - unfold feed. by destruct (dl_frames_feed L _ chunk), (dl_reader_feed L _ chunk).
    - unfold too_slow. by destruct (too_slow_speed _ _ _). }
  destruct calls as [|[t c] calls'].
  - apply (agree_judges now); [unfold ms_window, ns_per_sec; simpl; lia|done|]. split; try done; simpl; try (by split; constructor).
    split; [constructor|by exists []|done].
  - set (calls := (t, c) :: calls') in *.
    destruct (run_agrees calls t (SpeedWatch_new L min upstream) (SpeedWatch_new L min upstream)) as (T' & HT & Hend & Hag).
    + done.
    + constructor; [done|]. by apply StronglySorted_inv in Ho as [_ Ho].
    + split; try done; simpl; try (by split; constructor). split; [constructor|by exists []|done].
    + rewrite <- Hmin at 2. apply (agree_judges T'); [rewrite Hmin; unfold ms_window, ns_per_sec; lia| |done].
      apply Hend; [|done]. by apply Forall_cons in Hnow as [Ht _].
Qed.
End Runs.

(** ** Counting every token once *)

Definition text_wf (t : Text) : Prop := 0 <= tx_ascii t /\ 0 <= tx_other t.
Definition text_le (t t' : Text) : Prop := tx_ascii t <= tx_ascii t' /\ tx_other t <= tx_other t'.
#[export] Instance text_le_preorder : PreOrder text_le.
Proof. split; [intros t|intros t u v]; unfold text_le; lia. Qed.
Lemma Text_add_le t s : text_le t (Text_add t s).
Proof.
  revert t. induction s as [|c s IH]; intros t; simpl; [done|]. etrans; [|apply IH].
  unfold Text_add_byte, text_le. destruct (_ <? _); [simpl; lia|]. destruct (negb _); simpl; lia.
Qed.
Lemma tokens_le t t' : text_le t t' -> Text_tokens t <= Text_tokens t'.
Proof.
  intros [Ha Ho]. unfold Text_tokens. pose proof (div_ceil_spec (tx_ascii t) 4). pose proof (div_ceil_spec (tx_ascii t') 4). lia.
Qed.
Lemma tokens_nonneg t : text_wf t -> 0 <= Text_tokens t.
Proof. unfold text_wf, Text_tokens. pose proof (div_ceil_spec (tx_ascii t) 4). lia. Qed.
Lemma sum_tokens_app l l' : sum_tokens (l ++ l') = sum_tokens l + sum_tokens l'.
Proof. induction l as [|a l IH]; simpl; [done|]. rewrite IH. lia. Qed.

(** What the arrivals hold is the visible text so far. *)
Record counts_text (s : Speed) : Prop := {
  ct_wf : text_wf (sp_text s);
  ct_counted : sp_counted s = Text_tokens (sp_text s);
  ct_sum : sum_tokens (sp_arrivals s) = sp_counted s;
}.

Lemma on_events_text rd rr now es s v :
  let '(s', v') := foldl (on_event rd rr now) (s, v) es in
  sp_counted s' = sp_counted s /\ text_le (sp_text s) (sp_text s') /\ (v' = false -> v = false /\ sp_text s' = sp_text s).
Proof.
  revert s v. induction es as [|e es IH]; intros s v; [done|]. cbn [foldl].
  assert (He : let '(s', v') := on_event rd rr now (s, v) e in
    sp_counted s' = sp_counted s /\ text_le (sp_text s) (sp_text s') /\ (v' = false -> v = false /\ sp_text s' = sp_text s)).
  { clear IH. destruct s as [text counted start ended arr phase summ], e as [index [|]|index|[t|t|t|]| | | | |]; simpl; try done;
      try case_decide; destruct phase as [[ix since []]|]; simpl; try done; try case_decide; try done; destruct rd, rr; simpl;
      (split; [done|split; [first [reflexivity | apply Text_add_le]|done]]). }
  destruct (on_event rd rr now (s, v) e) as [s1 v1]. destruct He as (Hc1 & Hl1 & Hv1).
  specialize (IH s1 v1). destruct (foldl _ (s1, v1) es) as [s2 v2]. destruct IH as (Hc2 & Hl2 & Hv2).
  split_and!; [congruence|by etrans|]. intros Hf. destruct (Hv2 Hf) as [Hf1 Ht2]. destruct (Hv1 Hf1) as [Hf0 Ht1]. split; congruence.
Qed.

Lemma on_chunk_counts rd ends rr es now s :
  counts_text s -> Text_tokens (sp_text (on_chunk rd ends rr es now s)) <= u64_max -> counts_text (on_chunk rd ends rr es now s).
Proof.
  intros [Hwf Hc Hs]. unfold on_chunk. set (s0 := if ends then set_done s else s).
  assert (H0 : sp_arrivals s0 = sp_arrivals s /\ sp_text s0 = sp_text s /\ sp_counted s0 = sp_counted s) by (subst s0; by destruct ends).
  destruct H0 as (Ha0 & Ht0 & Hc0). pose proof (on_events_arrivals rd rr now es s0 false) as Ha.
  pose proof (on_events_text rd rr now es s0 false) as Ht. destruct (foldl _ (s0, false) es) as [s1 v]. cbn [fst] in Ha.
  destruct Ht as (Hc1 & Hle & Hv). rewrite Ha0 in Ha. rewrite Hc0 in Hc1. rewrite Ht0 in Hle, Hv.
  pose proof (tokens_le _ _ Hle) as Htok. pose proof (tokens_nonneg _ Hwf) as Hpos. destruct v; simpl; intros Hmax; split; simpl.
  - unfold text_wf, text_le in *. lia.
  - lia.
  - rewrite sum_tokens_app, Ha. simpl. unfold sat_sub_u64, clamp_u64. lia.
  - unfold text_wf, text_le in *. lia.
  - destruct (Hv eq_refl) as [_ ->]. lia.
  - by rewrite Ha, Hc1.
Qed.

(** The tokens put down for a stream's arrivals add up to the tokens of its visible text,
    however it came in pieces: no token of it is counted twice and none is left out. *)
Theorem visible_text_counted_once {D R F} `{EqDecision D} (L : dialects D R F) min upstream calls :
  let s := sw_speed (watch_run L (only_fed calls) (SpeedWatch_new L min upstream)) in
  Text_tokens (sp_text s) <= u64_max -> sum_tokens (sp_arrivals s) = Text_tokens (sp_text s).
Proof.
  cbv zeta. set (w := SpeedWatch_new L min upstream). assert (Hw : counts_text (sw_speed w)) by done. clearbody w.
  enough (Hk : Text_tokens (sp_text (sw_speed (watch_run L (only_fed calls) w))) <= u64_max -> counts_text (sw_speed (watch_run L (only_fed calls) w))).
  { intros Hmax. destruct (Hk Hmax) as [_ Hc Hs]. lia. }
  revert w Hw. induction calls as [|[t c] calls IH] using rev_ind; intros w Hw; [done|].
  unfold only_fed, watch_run in *. rewrite List.filter_app, foldl_app. destruct c as [chunk|]; simpl; [|by apply IH].
  unfold watch_step at 1 3. cbn [fst snd]. set (w' := foldl _ w _). specialize (IH w Hw). fold w' in IH. unfold feed.
  destruct (dl_frames_feed L _ chunk) as [frames fs], (dl_reader_feed L _ chunk) as [reader events]. simpl. intros Hmax.
  apply on_chunk_counts; [|done]. apply IH. etrans; [|exact Hmax].
  unfold on_chunk. match goal with |- context [foldl (on_event ?a ?b ?c) (?s, false) ?es] => pose proof (on_events_text a b c es s false) as Ht; destruct (foldl (on_event a b c) (s, false) es) as [s1 v] end.
  destruct Ht as (_ & Hle & _). apply tokens_le in Hle. etrans; [|etrans; [exact Hle|]]; [by destruct (existsb _ fs)|by destruct v].
Qed.

(** A provider's row turns the watch on only within the ranges of its columns. *)
Lemma from_row_in_range tps secs m : MinSpeed_from_row tps secs = Some m ->
  tps = Some (ms_tokens_per_sec m) /\ secs = ms_window_secs m /\ 1 <= ms_tokens_per_sec m <= 1000 /\ in_bounds WINDOW_SECS (ms_window_secs m) = true.
Proof.
  unfold MinSpeed_from_row. destruct tps as [tps|]; [|done]. simpl. unfold u32_of_i32.
  destruct (0 <=? tps) eqn:E1; [|done]. simpl. destruct (0 <=? secs) eqn:E2; [|done]. simpl.
  destruct (in_bounds TOKENS_PER_SEC tps) eqn:Et; [|done]. destruct (in_bounds WINDOW_SECS secs) eqn:Ew; [|done]. simpl. intros [= <-]. simpl.
  unfold in_bounds in Et. simpl in Et. zbool. by split_and!.
Qed.

(** ** At concrete inputs *)

(** A Chat stream whose every chunk is a piece of the answer. *)
Definition chat_demo : dialects bool unit unit := {|
  dl_Chat := true; dl_Responses := false; dl_reader_new := fun _ => tt; dl_reader_feed := fun _ chunk => (tt, [EvDelta (DeltaText chunk)]);
  dl_frames_new := tt; dl_frames_feed := fun _ _ => (tt, []); dl_ends_answer := fun _ _ => false; dl_from_str := fun _ => None |}.
Definition half_second : Z := 500000000.
Definition ten_a_second : MinSpeed := {| ms_tokens_per_sec := 10; ms_window_secs := 10 |}.
(** Two tokens every half second, and a judgement of each. *)
Definition slow_stream : list (Z * watch_call) :=
  seqZ 0 24 ≫= fun i => [(i * half_second, CallFeed "abcdefgh"); (i * half_second, CallJudge)].
Lemma slow_stream_in_order : in_order slow_stream.
Proof. unfold in_order, slow_stream. vm_compute. repeat (apply SSorted_cons || apply SSorted_nil || apply List.Forall_cons || apply List.Forall_nil || discriminate). Qed.

Lemma stream_judged_by_its_window_witness :
  (too_slow 11500000000 (watch_run chat_demo slow_stream (SpeedWatch_new chat_demo ten_a_second true))).2 = Some 4 /\
  judge ten_a_second 11500000000 (sw_speed (watch_run chat_demo (only_fed slow_stream) (SpeedWatch_new chat_demo ten_a_second true))) = Some 4.
Proof.
  assert (Hc : (too_slow 11500000000 (watch_run chat_demo slow_stream (SpeedWatch_new chat_demo ten_a_second true))).2 = Some 4) by (vm_compute; reflexivity).
  split; [exact Hc|]. rewrite <- Hc. symmetry. apply (stream_judged_by_its_window chat_demo ten_a_second true slow_stream 11500000000); [reflexivity|apply slow_stream_in_order|].
  apply (bool_decide_eq_true (Forall (fun c => c.1 <= 11500000000) slow_stream)). vm_compute. reflexivity.
Defined.

(** A pause of five seconds is not slow generation: twenty tokens a second around six quiet
    seconds pass a minimum of fifteen. *)
Definition paused_stream : list (Z * watch_call) :=
  ((fun i => (i * half_second, CallFeed "abcdefghabcdefghabcdefghabcdefghabcdefgh")) <$> seqZ 0 25) ++
  ((fun i => (i * half_second, CallFeed "abcdefghabcdefghabcdefghabcdefghabcdefgh")) <$> seqZ 36 5).
Example pause_is_left_out :
  (too_slow 20000000000 (watch_run chat_demo paused_stream (SpeedWatch_new chat_demo {| ms_tokens_per_sec := 15; ms_window_secs := 20 |} true))).2 = None.
Proof. vm_compute. reflexivity. Qed.
Lemma visible_text_counted_once_witness :
  let s := sw_speed (watch_run chat_demo (only_fed slow_stream) (SpeedWatch_new chat_demo ten_a_second true)) in
  Text_tokens (sp_text s) = 48 /\ sum_tokens (sp_arrivals s) = Text_tokens (sp_text s).
Proof. split; [vm_compute; reflexivity|]. apply (visible_text_counted_once chat_demo ten_a_second true slow_stream). vm_compute. discriminate. Defined.
