(* ===== verification/Metering.v ===== *)
(** * What a request is charged

    [crates/common/src/limits/weight.rs], [cost_decimal.rs] and [crates/gateway/src/usage_estimate.rs]
    and [cost_tracker.rs]: the tokens a request is billed when the upstream does not say, the
    weighted tokens its limits count, its price, and the caches of weights and prices.
    [Decimal] is [rust_decimal]'s, of another crate: its operations are a class, with the laws
    the column encoding relies on.  A cache is a map; the clock is an argument. *)

From Stdlib Require Import Ascii SpecFloat QArith.
From S2P Require Import Prelude Interfaces Float64.
#[local] Open Scope Z_scope.

(** ** Weights *)

Definition WEIGHT_TTL : Z := 300.
Definition MAX_ENTRIES : nat := 1024.
(** The doubles nearest to 0.1, 1.25 and 2. *)
Definition CACHE_READ_RATIO : f64 := f64_div f64_one (f64_of_Z 10).
Definition CACHE_WRITE_RATIO : f64 := f64_div (f64_of_Z 5) (f64_of_Z 4).
Definition CACHE_WRITE_1H_RATIO : f64 := f64_of_Z 2.

Record Weights := { wt_input : f64; wt_output : f64; wt_cache_read : f64; wt_cache_write : f64; wt_cache_write_1h : f64 }.

Definition Weights_resolve (input output : f64) (cache_read cache_write cache_write_1h : option f64) : Weights :=
  {| wt_input := input; wt_output := output;
     wt_cache_read := default (f64_mul input CACHE_READ_RATIO) cache_read;
     wt_cache_write := default (f64_mul input CACHE_WRITE_RATIO) cache_write;
     wt_cache_write_1h := default (f64_mul input CACHE_WRITE_1H_RATIO) cache_write_1h |}.
Definition Weights_default : Weights := Weights_resolve f64_one f64_one None None None.

Record TokenCounts := { tc_input : Z; tc_cache_read : Z; tc_cache_write : Z; tc_cache_write_1h : bool; tc_output : Z }.

(** [f64::round] (halves away from zero), [max(0.0)] and [as i64]: zero for NaN, the ends of
    the range beyond them. *)
Definition round_up_i64 (x : f64) : Z :=
  match x with
  | S754_finite false m e =>
      Z.min i64_max (if 0 <=? e then Z.shiftl (Zpos m) e else (Zpos m + 2 ^ (- e - 1)) / 2 ^ (- e))
  | S754_infinity false => i64_max
  | _ => 0
  end.

Definition count_f64 (n : Z) : f64 := f64_of_Z (Z.max n 0).
Definition write_weight (t : TokenCounts) (w : Weights) : f64 := if tc_cache_write_1h t then wt_cache_write_1h w else wt_cache_write w.
Definition weighted_tokens (t : TokenCounts) (w : Weights) : Z :=
  let write := write_weight t w in
  round_up_i64
    (f64_add (f64_add (f64_add (f64_mul (count_f64 (tc_input t)) (wt_input w))
                                (f64_mul (count_f64 (tc_cache_read t)) (wt_cache_read w)))
                      (f64_mul (count_f64 (tc_cache_write t)) write))
             (f64_mul (count_f64 (tc_output t)) (wt_output w))).

(** ** [rust_decimal::Decimal] *)

Class Decimals (Dec : Type) := {
  (** [Decimal::new(num, scale)]. *)
  dec_new : Z -> Z -> Dec;
  dec_of_int : Z -> Dec;
  dec_add : Dec -> Dec -> Dec;
  dec_mul : Dec -> Dec -> Dec;
  dec_round : Dec -> Dec;
  dec_to_i64 : Dec -> option Z;
  dec_to_f64 : Dec -> option f64;
  dec_try_from : f64 -> option Dec;
  dec_is_negative : Dec -> bool;
  (** [str::parse], and [Decimal::MAX]. *)
  dec_parse : string -> option Dec;
  dec_max : Dec;
}.

(** What the encoding of a column relies on: the number a [Decimal] is. *)
Class DecimalLaws (Dec : Type) `{Decimals Dec} := {
  dec_value : Dec -> Q;
  dec_value_new n s : in_i64 n -> 0 <= s <= 28 -> (dec_value (dec_new n s) * inject_Z (10 ^ s) == inject_Z n)%Q;
  dec_value_of_int n : Z.abs n < 2 ^ 96 -> (dec_value (dec_of_int n) == inject_Z n)%Q;
  (** A product that is a whole number of 96 bits is exact. *)
  dec_value_mul a b z : (dec_value a * dec_value b == inject_Z z)%Q -> Z.abs z < 2 ^ 96 -> (dec_value (dec_mul a b) == inject_Z z)%Q;
  dec_round_whole d z : (dec_value d == inject_Z z)%Q -> (dec_value (dec_round d) == inject_Z z)%Q;
  dec_to_i64_whole d z : (dec_value d == inject_Z z)%Q -> dec_to_i64 d = if decide (in_i64 z) then Some z else None;
}.

Section Decimal.
Context {Dec : Type} `{Decimals Dec}.

(** *** The cost column *)

Definition COST_SCALE : Z := 10.
Definition COST_SCALE_FACTOR : Z := 10000000000.

Definition encode_i64 (value : Dec) : Z :=
  let scaled := dec_mul value (dec_of_int COST_SCALE_FACTOR) in
  match dec_to_i64 (dec_round scaled) with
  | Some n => n
  | None => if dec_is_negative value then i64_min else i64_max
  end.
Definition decode_i64 (raw : Z) : Dec := dec_new raw COST_SCALE.

(** [{:0width$}] of a natural number. *)
Fixpoint zeros (n : nat) : string := match n with O => "" | S n => String "0"%char (zeros n) end.
Definition padded (width : nat) (n : Z) : string :=
  let s := dec_of_Z n in zeros (width - String.length s) +:+ s.
Definition decode_i128 (raw : Z) : Dec :=
  if decide (in_i64 raw) then dec_new raw COST_SCALE
  else
    let sign := if raw <? 0 then "-" else "" in
    let mag := Z.abs raw in
    default dec_max (dec_parse (sign +:+ dec_of_Z (mag / COST_SCALE_FACTOR) +:+ "." +:+
                                padded (Z.to_nat COST_SCALE) (mag mod COST_SCALE_FACTOR))).

(** *** The price of a request *)

Definition fallback_input : Dec := dec_new 20 7.
Definition fallback_output : Dec := dec_new 80 7.

Definition dec_of_weight (x : f64) : Dec := default (dec_of_int 1) (dec_try_from x).
Definition dec_of_count (n : Z) : Dec := dec_of_int (Z.max n 0).
Definition compute_cost (t : TokenCounts) (input_per_token output_per_token : Dec) (w : Weights) : Dec :=
  let input_units :=
    dec_add (dec_add (dec_mul (dec_of_count (tc_input t)) (dec_of_weight (wt_input w)))
                     (dec_mul (dec_of_count (tc_cache_read t)) (dec_of_weight (wt_cache_read w))))
            (dec_mul (dec_of_count (tc_cache_write t)) (dec_of_weight (write_weight t w))) in
  dec_add (dec_mul input_units input_per_token)
          (dec_mul (dec_mul (dec_of_count (tc_output t)) (dec_of_weight (wt_output w))) output_per_token).

(** *** The cache of weights

    [row]: the model's row as the query finds it, if it goes through.  [iter] is the order a
    hash map is walked in. *)

Definition weight_row : Type := Dec * Dec * option Dec * option Dec * option Dec.
Definition weights_of_answer (row : result unit (option weight_row)) : Weights :=
  let f d := default f64_one (dec_to_f64 d) in
  match row with
  | Ok (Some (i, o, cr, cw, cw1h)) => Weights_resolve (f i) (f o) (f <$> cr) (f <$> cw) (f <$> cw1h)
  | Ok None | Err _ => Weights_default
  end.
End Decimal.

Record CacheEntry := { ce_weights : Weights; ce_expires : Z }.
Abbreviation weight_cache := (gmap string CacheEntry).

(** [min_by_key]: the first entry of the least key. *)
Fixpoint min_by_expiry (l : list (string * CacheEntry)) : option (string * CacheEntry) :=
  match l with
  | [] => None
  | p :: l =>
      match min_by_expiry l with
      | Some q => if ce_expires p.2 <=? ce_expires q.2 then Some p else Some q
      | None => Some p
      end
  end.

Section WeightCache.
Context {Dec : Type} `{Decimals Dec} (iter : weight_cache -> list (string * CacheEntry)).

Definition weight_hit (now : Z) (model_id : string) (c : weight_cache) : option Weights :=
  e ← c !! model_id; if now <? ce_expires e then Some (ce_weights e) else None.
Definition weight_put (now : Z) (model_id : string) (w : Weights) (c : weight_cache) : weight_cache :=
  let c :=
    if (MAX_ENTRIES <=? size c)%nat then
      match min_by_expiry (iter c) with Some oldest => delete oldest.1 c | None => c end
    else c in
  <[model_id := {| ce_weights := w; ce_expires := now + WEIGHT_TTL |}]> c.
Definition invalidate_all (c : weight_cache) : weight_cache := ∅.

(** What a lookup meets: the clock when it looks and when it writes, the row, and what others
    do to the cache while the query runs. *)
Record weight_env := { we_now : Z; we_written : Z; we_row : result unit (option (weight_row (Dec := Dec))); we_others : weight_cache -> weight_cache }.
Definition weight_get (E : weight_env) (model_id : string) (c : weight_cache) : weight_cache * Weights :=
  match weight_hit (we_now E) model_id c with
  | Some w => (c, w)
  | None =>
      let w := weights_of_answer (we_row E) in
      (weight_put (we_written E) model_id w (we_others E c), w)
  end.
End WeightCache.
Arguments weight_env : clear implicits.

(** *** The cache of prices *)

Section Baseline.
Context {Dec : Type} `{Decimals Dec}.

Definition BASELINE_TTL : Z := 60.
Record Baseline := { bl_input_per_token : Dec; bl_output_per_token : Dec; bl_expires : Z }.
Definition Baseline_fresh (input output : Dec) (now : Z) : Baseline :=
  {| bl_input_per_token := input; bl_output_per_token := output; bl_expires := now + BASELINE_TTL |}.

(** [be_row]: the row of [platform_pricing]; [be_others] as above. *)
Record price_env := { be_now : Z; be_written : Z; be_row : result unit (option (Dec * Dec)); be_others : option Baseline -> option Baseline }.
Definition load_baseline (E : price_env) : Baseline :=
  match be_row E with
  | Ok (Some (i, o)) => Baseline_fresh i o (be_written E)
  | _ => Baseline_fresh fallback_input fallback_output (be_written E)
  end.
Definition baseline_value (E : price_env) (cached : option Baseline) : option Baseline * Baseline :=
  match cached with
  | Some b => if be_now E <? bl_expires b then (cached, b) else (Some (load_baseline E), load_baseline E)
  | None => (Some (load_baseline E), load_baseline E)
  end.
Definition invalidate_baseline (cached : option Baseline) : option Baseline := None.

Definition calculate_cost (iter : weight_cache -> list (string * CacheEntry)) (P : price_env) (E : weight_env Dec) (model : string) (tokens : TokenCounts)
    (s : option Baseline * weight_cache) : option Baseline * weight_cache * Dec :=
  let '(cached, baseline) := baseline_value P s.1 in
  let '(c, w) := weight_get iter E model s.2 in
  (cached, c, compute_cost tokens (bl_input_per_token baseline) (bl_output_per_token baseline) w).
End Baseline.
Arguments Baseline : clear implicits.
Arguments price_env : clear implicits.

(** ** Estimates *)

Definition BYTES_PER_TOKEN : Z := 4.
Definition to_tokens (bytes : Z) : Z := div_ceil bytes BYTES_PER_TOKEN.
Definition str_len (s : string) : Z := Z.of_nat (String.length s).

Definition NOT_TEXT : list string :=
  ["id"; "model"; "object"; "type"; "role"; "status"; "finish_reason"; "stop_reason"; "system_fingerprint"; "service_tier";
   "call_id"; "tool_call_id"; "signature"; "thoughtSignature"; "thought_signature"; "encrypted_content"].
Definition MEDIA : list string := ["image_url"; "data"; "file_data"].

Definition is_text_key (skip : list string) (k : string) : bool := bool_decide (k ∉ NOT_TEXT) && bool_decide (k ∉ skip).
Fixpoint json_text_len (skip : list string) (v : json) : Z :=
  match v with
  | JStr s => str_len s
  | JArr a => (fix sum l := match l with [] => 0 | v :: l => json_text_len skip v + sum l end) a
  | JObj o => (fix sum l := match l with [] => 0 | (k, v) :: l => (if is_text_key skip k then json_text_len skip v else 0) + sum l end) o
  | _ => 0
  end.

(** [from_slice]: [serde_json::from_slice]. *)
Definition answer_tokens (from_slice : string -> option json) (body : string) : Z :=
  match from_slice body with
  | Some v => to_tokens (json_text_len [] v)
  | None => to_tokens (str_len body)
  end.
Definition raw_request_tokens (v : json) : Z := to_tokens (json_text_len MEDIA v).

(** [tw_dialect::usage::Usage]: the counts the code reads, and the rest. *)
Record Usage (R : Type) := { us_input : Z; us_output : Z; us_cache_read : Z; us_cache_write : Z; us_rest : R }.
Arguments Build_Usage {_}. Arguments us_input {_}. Arguments us_output {_}. Arguments us_cache_read {_}.
Arguments us_cache_write {_}. Arguments us_rest {_}.

Section Complete.
Context {R : Type} (rest_default : R) (from_slice : string -> option json).

(** [u64] addition wraps. *)
Definition reported_input (u : Usage R) : Z := wrap_u64 (us_input u + us_cache_read u + us_cache_write u).
Definition set_us_input (n : Z) (u : Usage R) : Usage R :=
  {| us_input := n; us_output := us_output u; us_cache_read := us_cache_read u; us_cache_write := us_cache_write u; us_rest := us_rest u |}.
Definition set_us_output (n : Z) (u : Usage R) : Usage R :=
  {| us_input := us_input u; us_output := n; us_cache_read := us_cache_read u; us_cache_write := us_cache_write u; us_rest := us_rest u |}.

Definition complete (reported : option (Usage R)) (finished : bool) (input_estimate : Z) (answer : option string) : Usage R * bool :=
  let output_estimate := default 0 (answer_tokens from_slice <$> answer) in
  match reported with
  | Some u =>
      let '(u, estimated) := if (reported_input u =? 0) && (0 <? input_estimate) then (set_us_input input_estimate u, true) else (u, false) in
      if finished then (u, estimated)
      else if us_output u <? output_estimate then (set_us_output output_estimate u, true) else (u, estimated)
  | None =>
      ({| us_input := input_estimate; us_output := output_estimate; us_cache_read := 0; us_cache_write := 0; us_rest := rest_default |}, true)
  end.
End Complete.

(** ** Charges *)

(** The weighted count is an [i64] and never negative, whatever the weights. *)
Lemma weighted_tokens_bounds t w : 0 <= weighted_tokens t w <= i64_max.
Proof.
  unfold weighted_tokens, round_up_i64. assert (0 <= i64_max) by done.
  destruct (f64_add _ _) as [[]|[]| |[] m e]; try lia.
  split; [|lia]. apply Z.min_glb; [lia|]. case_match; [apply Z.shiftl_nonneg; lia|].
  apply Z.div_pos; [|zbool; lia]. zbool. assert (0 <= 2 ^ (- e - 1)) by (apply Z.pow_nonneg; lia). lia.
Qed.

(** A count below zero counts as none. *)
Lemma weighted_tokens_negative t w :
  weighted_tokens t w = weighted_tokens {| tc_input := Z.max (tc_input t) 0; tc_cache_read := Z.max (tc_cache_read t) 0;
    tc_cache_write := Z.max (tc_cache_write t) 0; tc_cache_write_1h := tc_cache_write_1h t; tc_output := Z.max (tc_output t) 0 |} w.
Proof. unfold weighted_tokens, count_f64, write_weight. simpl. by rewrite !(Z.max_l (Z.max _ 0) 0) by lia. Qed.

Definition plain (input output : Z) : TokenCounts := {| tc_input := input; tc_cache_read := 0; tc_cache_write := 0; tc_cache_write_1h := false; tc_output := output |}.
Definition cached_request : TokenCounts := {| tc_input := 100; tc_cache_read := 1000; tc_cache_write := 400; tc_cache_write_1h := false; tc_output := 10 |}.
Definition one_and_half : f64 := f64_div (f64_of_Z 3) (f64_of_Z 2).
Definition one_half : f64 := f64_div f64_one (f64_of_Z 2).
Example default_is_raw_sum : weighted_tokens (plain 100 50) Weights_default = 150.
Proof. vm_compute. reflexivity. Qed.
Example each_direction_scales : weighted_tokens (plain 100 50) (Weights_resolve f64_one (f64_of_Z 3) None None None) = 250.
Proof. vm_compute. reflexivity. Qed.
Example halves_round : weighted_tokens (plain 3 1) (Weights_resolve one_and_half one_half None None None) = 5.
Proof. vm_compute. reflexivity. Qed.
Example cache_weighted_apart : weighted_tokens cached_request Weights_default = 710.
Proof. vm_compute. reflexivity. Qed.

(** ** What the upstream does not report *)

Lemma div_ceil_nonneg a : 0 <= a -> 0 <= to_tokens a.
Proof. intros Ha. unfold to_tokens, BYTES_PER_TOKEN. pose proof (div_ceil_spec a 4). lia. Qed.
Lemma json_text_len_nonneg skip v : 0 <= json_text_len skip v.
Proof.
  revert v. fix IH 1. intros [| | |s|a|o]; simpl; try lia; [unfold str_len; lia| |].
  - induction a as [|v a IHa]; [lia|]. specialize (IH v). lia.
  - induction o as [|[k v] o IHo]; [lia|]. specialize (IH v). destruct (is_text_key skip k); lia.
Qed.

(** C24: what a request is billed when the upstream is silent: a count that is not marked as
    estimated is the upstream's own, unchanged; an input that has text is never billed as none;
    the output reported is never lowered, and of an answer that was cut short at least the text
    that arrived is billed. *)
Theorem silent_upstream_is_billed {R} (rest_default : R) from_slice reported finished input_estimate answer :
  0 <= input_estimate <= u64_max ->
  (forall u, reported = Some u -> 0 <= us_input u /\ 0 <= us_output u /\ 0 <= us_cache_read u /\ 0 <= us_cache_write u /\
                                  us_input u + us_cache_read u + us_cache_write u <= u64_max) ->
  let '(u, estimated) := complete rest_default from_slice reported finished input_estimate answer in
  (estimated = false -> reported = Some u) /\
  (0 < input_estimate -> 0 < reported_input u) /\
  (forall r, reported = Some r -> us_output r <= us_output u /\ us_rest u = us_rest r /\ (finished = true -> us_output u = us_output r) /\
                             (0 < reported_input r -> us_input u = us_input r)) /\
  (finished = false \/ reported = None -> forall body, answer = Some body -> answer_tokens from_slice body <= us_output u).
Proof.
  intros Hest Hrep. unfold complete. destruct reported as [u|].
  - destruct (Hrep u eq_refl) as (Hi & Ho & Hr & Hw & Hsum).
    assert (Hin : reported_input u = us_input u + us_cache_read u + us_cache_write u).
    { unfold reported_input, wrap_u64. apply Z.mod_small. unfold u64_max in *. lia. }
    rewrite Hin. destruct (us_input u + us_cache_read u + us_cache_write u =? 0) eqn:E0, (0 <? input_estimate) eqn:E1; zbool; cbn [andb];
      (destruct finished; [|destruct (_ <? _) eqn:Eo; zbool]); simpl in *;
      (split; [done|]); (split; [intros; unfold reported_input, wrap_u64; simpl; rewrite Z.mod_small by (unfold u64_max in *; lia); lia|]);
      (split; [intros r [= <-]; rewrite ?Hin; simpl; split_and!; intros; (done || lia)|]); (intros [?|?] body Hb; simplify_eq/=; lia).
  - simpl. split; [done|]. split; [intros; unfold reported_input, wrap_u64; simpl; rewrite Z.mod_small by (unfold u64_max in *; lia); lia|].
    split; [done|]. intros _ body ->. simpl. lia.
Qed.

Definition slice_demo (body : string) : option json := if decide (body = "whole") then Some (JObj [("text", JStr "12345678"); ("id", JStr "chatcmpl-123")]) else None.
Lemma silent_upstream_is_billed_witness :
  complete tt slice_demo None true 100 (Some "whole") = ({| us_input := 100; us_output := 2; us_cache_read := 0; us_cache_write := 0; us_rest := tt |}, true) /\
  0 < reported_input (complete tt slice_demo None true 100 (Some "whole")).1.
Proof.
  split; [vm_compute; reflexivity|].
  pose proof (silent_upstream_is_billed tt slice_demo None true 100 (Some "whole") ltac:(unfold u64_max; lia) ltac:(done)) as H.
  destruct (complete _ _ _ _ _ _) as [u e]. destruct H as (_ & H & _). apply H. lia.
Defined.

(** ** The column of costs *)

Section Column.
Context {Dec : Type} `{DecimalLaws Dec}.

(** A cost read from its column and written back is the same integer, and reads as that
    many ten-billionths of a dollar. *)
Theorem cost_column_round_trip raw : in_i64 raw ->
  encode_i64 (decode_i64 raw) = raw /\ (dec_value (decode_i64 raw) * inject_Z COST_SCALE_FACTOR == inject_Z raw)%Q.
Proof.
  intros Hr. assert (Hv : (dec_value (decode_i64 raw) * inject_Z COST_SCALE_FACTOR == inject_Z raw)%Q).
  { unfold decode_i64. change COST_SCALE_FACTOR with (10 ^ COST_SCALE). apply dec_value_new; [done|by unfold COST_SCALE]. }
  split; [|exact Hv]. unfold encode_i64.
  rewrite (dec_to_i64_whole _ raw); [by rewrite decide_True|].
  apply dec_round_whole, dec_value_mul; [|unfold in_i64, i64_min, i64_max in Hr; lia].
  rewrite (dec_value_of_int COST_SCALE_FACTOR) by done. exact Hv.
Qed.
End Column.

(** [Decimal]s as rationals. *)
Definition q_floor (q : Q) : Z := Qnum q / Zpos (Qden q).
#[export] Instance Q_Decimals : Decimals Q := {|
  dec_new n s := (inject_Z n / inject_Z (10 ^ s))%Q; dec_of_int n := inject_Z n; dec_add := Qplus; dec_mul := Qmult;
  dec_round q := inject_Z (q_floor (q + (1 # 2))); dec_to_i64 q := if decide (in_i64 (q_floor q)) then Some (q_floor q) else None;
  dec_to_f64 q := Some (f64_div (f64_of_Z (Qnum q)) (f64_of_Z (Zpos (Qden q)))); dec_try_from _ := None;
  dec_is_negative q := Qnum q <? 0; dec_parse _ := None; dec_max := inject_Z (2 ^ 96 - 1) |}.
Lemma q_floor_whole q z r : (q == inject_Z z)%Q -> (0 <= r < 1)%Q -> q_floor (q + r) = z.
Proof.
  intros Hq Hr. assert (Hz : (inject_Z z <= q + r < inject_Z (z + 1))%Q).
  { rewrite inject_Z_plus, Hq. destruct Hr as [Hr0 Hr1]. split.
    - rewrite <- (Qplus_0_r (inject_Z z)) at 1. by apply Qplus_le_compat; [apply Qle_refl|].
    - by apply Qplus_lt_r. }
  unfold q_floor. destruct (q + r)%Q as [n d]. destruct Hz as [Hlo Hhi]. unfold Qle, Qlt in *. simpl in *.
  symmetry. apply (Z.div_unique_pos n (Zpos d) z (n - Zpos d * z)); lia.
Qed.
#[export] Instance Q_DecimalLaws : DecimalLaws Q.
Proof.
  refine {| dec_value q := q |}; simpl.
  - intros n s _ Hs. rewrite Qmult_comm. apply Qmult_div_r. intros Hz. unfold Qeq in Hz. simpl in Hz.
    pose proof (Z.pow_pos_nonneg 10 s). lia.
  - done.
  - done.
  - intros d z Hd. by rewrite (q_floor_whole d z (1 # 2)).
  - intros d z Hd. assert (Hf : q_floor d = z).
    { rewrite <- (q_floor_whole d z 0 Hd) by done. unfold q_floor. destruct d as [n d]. simpl. by rewrite Z.mul_1_r, Z.add_0_r, Pos.mul_1_r. }
    by rewrite Hf.
Defined.

Lemma cost_column_round_trip_witness :
  encode_i64 (decode_i64 12345 : Q) = 12345 /\ in_i64 12345.
Proof.
  assert (Hr : in_i64 12345) by (unfold in_i64, i64_min, i64_max; lia). split; [|exact Hr].
  exact (proj1 (cost_column_round_trip (Dec := Q) 12345 Hr)).
Defined.

(** The price of the platform's fallback: two and eight ten-millionths of a dollar per token. *)
Example fallback_price : (fallback_input (Dec := Q) == 2 # 1000000)%Q /\ (fallback_output (Dec := Q) == 8 # 1000000)%Q.
Proof. split; reflexivity. Qed.

(** ** The caches *)

Inductive weight_op := OpPut (now : Z) (model_id : string) (w : Weights) | OpInvalidate.

Section Caches.
Context {Dec : Type} `{Decimals Dec} (iter : weight_cache -> list (string * CacheEntry)).
(** A hash map is walked entry by entry, in some order. *)
Context (iter_all : forall c, iter c ≡ₚ map_to_list c).
Implicit Types (c : weight_cache).

Definition weight_step c (op : weight_op) : weight_cache :=
  match op with OpPut now model_id w => weight_put iter now model_id w c | OpInvalidate => invalidate_all c end.
Definition weight_run (ops : list weight_op) : weight_cache := foldl weight_step ∅ ops.

Lemma min_by_expiry_Some l p : min_by_expiry l = Some p -> p ∈ l /\ forall q, q ∈ l -> ce_expires p.2 <= ce_expires q.2.
Proof.
  revert p. induction l as [|a l IH]; intros p; [done|]. simpl. destruct (min_by_expiry l) as [q|] eqn:E.
  - destruct (IH q eq_refl) as [Hq Hmin]. case_match eqn:El; zbool; intros [= <-].
    + split; [by left|]. intros r [-> |Hr]%elem_of_cons; [lia|]. specialize (Hmin r Hr). lia.
    + split; [by right|]. intros r [-> |Hr]%elem_of_cons; [lia|auto].
  - intros [= <-]. split; [by left|]. intros r [-> |Hr]%elem_of_cons; [lia|]. destruct l as [|b l]; [by apply elem_of_nil in Hr|].
    simpl in E. destruct (min_by_expiry l) as [q|]; [destruct (_ <=? _)|]; done.
Qed.
Lemma min_by_expiry_None l : min_by_expiry l = None -> l = [].
Proof. destruct l as [|a l]; [done|]. simpl. destruct (min_by_expiry l); [destruct (_ <=? _)|]; done. Qed.

(** What makes room is an entry that ends first. *)
Definition with_room c : weight_cache :=
  if (MAX_ENTRIES <=? size c)%nat then match min_by_expiry (iter c) with Some oldest => delete oldest.1 c | None => c end else c.
Lemma with_room_sub c : with_room c ⊆ c.
Proof. unfold with_room. destruct (_ <=? _)%nat; [|done]. destruct (min_by_expiry _); [apply delete_subseteq|done]. Qed.
Lemma with_room_size c : (size c <= MAX_ENTRIES)%nat -> (size (with_room c) < MAX_ENTRIES)%nat.
Proof.
  intros Hs. unfold with_room. destruct (MAX_ENTRIES <=? size c)%nat eqn:E; [|by apply Nat.leb_gt in E].
  apply Nat.leb_le in E. destruct (min_by_expiry (iter c)) as [p|] eqn:Em.
  - apply min_by_expiry_Some in Em as [Hp _]. rewrite iter_all in Hp. destruct p as [k e]. apply elem_of_map_to_list in Hp.
    simpl. rewrite map_size_delete_Some by done. unfold MAX_ENTRIES in *. lia.
  - apply min_by_expiry_None in Em. pose proof (iter_all c) as Hi. rewrite Em in Hi. apply Permutation_nil in Hi.
    apply map_to_list_empty_iff in Hi. subst c. rewrite map_size_empty in E. unfold MAX_ENTRIES in E. lia.
Qed.

(** An entry comes from a write of its own, the last of its model, after the last wipe. *)
Definition written (ops : list weight_op) (id : string) (e : CacheEntry) : Prop :=
  exists before after t, ops = before ++ OpPut t id (ce_weights e) :: after /\ ce_expires e = t + WEIGHT_TTL /\
    Forall (fun op => match op with OpPut _ id' _ => id' <> id | OpInvalidate => False end) after.
Lemma weight_run_wf ops : (size (weight_run ops) <= MAX_ENTRIES)%nat /\ forall id e, weight_run ops !! id = Some e -> written ops id e.
Proof.
  induction ops as [|op ops [Hs Hw]] using rev_ind; [split; [unfold MAX_ENTRIES; vm_compute; lia|]; intros id e He; done|].
  unfold weight_run in *. rewrite foldl_app. cbn [foldl]. set (c := foldl weight_step ∅ ops) in *. destruct op as [t id w|].
  - simpl. unfold weight_put. fold (with_room c). split.
    + pose proof (with_room_size c Hs). destruct (with_room c !! id) eqn:E.
      * rewrite map_size_insert_Some by eauto. lia.
      * rewrite map_size_insert_None by done. lia.
    + intros id' e He. destruct (decide (id' = id)) as [-> |Hne].
      * rewrite lookup_insert_eq in He. injection He as <-. exists ops, [], t. by split_and!.
      * rewrite lookup_insert_ne in He by done. pose proof (lookup_weaken _ _ _ _ He (with_room_sub c)) as Hc.
        destruct (Hw _ _ Hc) as (before & after & t' & -> & Ht & Ha). exists before, (after ++ [OpPut t id w]), t'. rewrite <- app_assoc. split_and!; [done|done|].
        apply Forall_app. split; [done|]. repeat constructor. done.
  - simpl. unfold invalidate_all. split; [rewrite map_size_empty; lia|]. intros id e He. by rewrite lookup_empty in He.
Qed.

(** C31: the weights a request is charged by are those of its model's row: read now, or read by a
    lookup that wrote them less than five minutes ago, after the last time the cache was
    emptied; and the cache never holds more than 1024 models, whoever looks up what
    meanwhile. *)
Theorem weights_served_fresh ops others (E : weight_env Dec) id :
  we_others E (weight_run ops) = weight_run (ops ++ others) ->
  let '(c, w) := weight_get iter E id (weight_run ops) in
  (size c <= MAX_ENTRIES)%nat /\
  (w = weights_of_answer (we_row E) /\ c = weight_run ((ops ++ others) ++ [OpPut (we_written E) id w]) \/
   c = weight_run ops /\ exists before after t, ops = before ++ OpPut t id w :: after /\ we_now E < t + WEIGHT_TTL /\
     Forall (fun op => match op with OpPut _ id' _ => id' <> id | OpInvalidate => False end) after).
Proof.
  intros Ho. unfold weight_get, weight_hit. destruct (weight_run_wf ops) as [Hs Hw].
  assert (Hput : forall w, let c := weight_put iter (we_written E) id w (we_others E (weight_run ops)) in
    c = weight_run ((ops ++ others) ++ [OpPut (we_written E) id w])).
  { intros w. cbv zeta. rewrite Ho. unfold weight_run. by rewrite (foldl_app _ (ops ++ others)). }
  destruct (weight_run ops !! id) as [e|] eqn:He; [simpl; destruct (we_now E <? ce_expires e) eqn:El|simpl].
  - zbool. split; [done|]. right. split; [done|]. destruct (Hw id e He) as (before & after & t & -> & Ht & Ha).
    exists before, after, t. rewrite <- Ht. by split_and!.
  - split; [rewrite Hput; apply weight_run_wf|]. left. split; [done|apply Hput].
  - split; [rewrite Hput; apply weight_run_wf|]. left. split; [done|apply Hput].
Qed.

(** The prices of the platform are at most a minute old. *)
Lemma baseline_is_fresh (E : price_env Dec) cached :
  let '(cached', b) := baseline_value E cached in
  cached' = Some b /\ (cached = Some b /\ be_now E < bl_expires b \/ b = load_baseline E /\ bl_expires b = be_written E + BASELINE_TTL).
Proof.
  assert (Hl : bl_expires (load_baseline E) = be_written E + BASELINE_TTL) by (unfold load_baseline; by destruct (be_row E) as [[[]|]|]).
  unfold baseline_value. destruct cached as [b|]; [|auto]. destruct (_ <? _) eqn:El; zbool; auto.
Qed.
End Caches.

Lemma weights_served_fresh_witness :
  let E := {| we_now := 100; we_written := 101; we_row := Ok None; we_others := fun c => c |} : weight_env Q in
  let ops := [OpPut 0 "gpt" Weights_default] in
  weight_get map_to_list E "gpt" (weight_run map_to_list ops) = (weight_run map_to_list ops, Weights_default) /\
  (size (weight_run map_to_list ops) <= MAX_ENTRIES)%nat.
Proof.
  cbv zeta. set (E := {| we_now := 100; we_written := 101; we_row := Ok None; we_others := fun c => c |} : weight_env Q).
  assert (Hg : weight_get map_to_list E "gpt" (weight_run map_to_list [OpPut 0 "gpt" Weights_default]) =
    (weight_run map_to_list [OpPut 0 "gpt" Weights_default], Weights_default)) by (vm_compute; reflexivity).
  split; [exact Hg|]. pose proof (weights_served_fresh map_to_list (fun _ => reflexivity _) [OpPut 0 "gpt" Weights_default] [] E "gpt" eq_refl) as H.
  rewrite Hg in H. exact (proj1 H).
Defined.
