(* ===== verification/Names.v ===== *)
(** * Names of models, templates of headers and cached answers

    [crates/gateway/src/model_mapping.rs], [call_ctx.rs], [metrics_labels.rs], [cache.rs] and
    [proxy/models.rs]: the aliases a model's name goes through, the models a key is told of, the
    placeholders of a header, the providers a metric names, and the answers kept in Redis under
    the whole of a request.  JSON and hashing are other crates' and arguments. *)

From Stdlib Require Import Ascii SpecFloat.
From S2P Require Import Prelude Interfaces Float64 Effects GatewayDeps Text RedisKeys LimitTypes Constraints McpRegistry McpCache Router Pipeline.

(** ** Aliases *)

Record ModelMapper := { mm_exact : gmap string string; mm_prefix : list (string * string) }.
Definition ModelMapper_new : ModelMapper := {| mm_exact := ∅; mm_prefix := [] |}.

(** [sort_by_key(|b| Reverse(b.0.len()))], which is stable. *)
Fixpoint insert_by_length (p : string * string) (l : list (string * string)) : list (string * string) :=
  match l with
  | [] => [p]
  | q :: l' => if (String.length q.1 <? String.length p.1)%nat then p :: l else q :: insert_by_length p l'
  end.
Definition sort_by_length (l : list (string * string)) : list (string * string) :=
  foldl (fun acc p => insert_by_length p acc) [] l.

Definition add_exact (alias target : string) (m : ModelMapper) : ModelMapper :=
  {| mm_exact := <[alias := target]> (mm_exact m); mm_prefix := mm_prefix m |}.
Definition add_prefix (from_prefix to_prefix : string) (m : ModelMapper) : ModelMapper :=
  {| mm_exact := mm_exact m; mm_prefix := sort_by_length (mm_prefix m ++ [(from_prefix, to_prefix)]) |}.

(** [config]: the entries of the map in the order it is walked. *)
Definition sort_config (m : ModelMapper) (kv : string * string) : ModelMapper :=
  match strip_suffix "*" kv.1 with
  | Some stripped => {| mm_exact := mm_exact m; mm_prefix := mm_prefix m ++ [(stripped, kv.2)] |}
  | None => add_exact kv.1 kv.2 m
  end.
Definition from_config (config : list (string * string)) : ModelMapper :=
  let m := foldl sort_config ModelMapper_new config in
  {| mm_exact := mm_exact m; mm_prefix := sort_by_length (mm_prefix m) |}.

Fixpoint map_prefix (l : list (string * string)) (model : string) : string :=
  match l with
  | [] => model
  | (from, to) :: l =>
      match strip_prefix from model with
      | Some suffix => to +:+ suffix
      | None => map_prefix l model
      end
  end.
Definition map_model (m : ModelMapper) (model : string) : string :=
  match mm_exact m !! model with
  | Some target => target
  | None => map_prefix (mm_prefix m) model
  end.

(** ** The models a key is told of *)

Section Listing.
Context {U Up Rs Strat : Type} (order : forall A, gmap string A -> list (string * A)).

Definition callable (router : ModelRouter U Up Rs Strat) (mapper : ModelMapper) (identity : GatewayRequestIdentity) (name : string) : bool :=
  let mapped := map_model mapper name in
  may_call identity mapped && match route order mapped router with Some _ => true | None => false end.
Definition callable_models_in (router : ModelRouter U Up Rs Strat) (mapper : ModelMapper) (identity : GatewayRequestIdentity) : list string :=
  let models := btree_extend [] (List.filter (callable router mapper identity) (list_models order router)) in
  match gi_allowed_models identity with
  | Some allowed => btree_extend models (List.filter (callable router mapper identity) allowed)
  | None => models
  end.

Definition model_object (id : string) : json :=
  JObj [("id", JStr id); ("object", JStr "model"); ("created", JNum 0); ("owned_by", JStr "think-watch")].
Definition list_models_handler (router : ModelRouter U Up Rs Strat) (mapper : ModelMapper) (identity : GatewayRequestIdentity) : json :=
  JObj [("object", JStr "list"); ("data", JArr (model_object <$> callable_models_in router mapper identity))].
Definition gemini_model (id : string) : json :=
  JObj [("name", JStr ("models/" +:+ id)); ("supportedGenerationMethods", JArr [JStr "generateContent"; JStr "streamGenerateContent"])].
Definition list_gemini_models_handler (router : ModelRouter U Up Rs Strat) (mapper : ModelMapper) (identity : GatewayRequestIdentity) : json :=
  JObj [("models", JArr (gemini_model <$> callable_models_in router mapper identity))].
End Listing.

(** ** Templates of headers *)

Record CallCtx := { cx_trace_id : option string; cx_attrs : gmap string string }.
Definition put_attr (k : string) (v : option string) (attrs : gmap string string) : gmap string string :=
  match v with Some v => <[k := v]> attrs | None => attrs end.
Definition CallCtx_new (trace_id user_id user_email : option string) : CallCtx :=
  {| cx_trace_id := trace_id; cx_attrs := put_attr "user_email" user_email (put_attr "user_id" user_id ∅) |}.

(** The loop; a round leaves a shorter rest, so the length of the template is fuel enough. *)
Fixpoint substitute_fuel (fuel : nat) (rest : string) (attrs : gmap string string) : string :=
  match fuel with
  | O => rest
  | S fuel =>
      match split_str "{{" rest with
      | None => rest
      | Some (before, after) =>
          match split_str "}}" after with
          | Some (key, rest) => before +:+ default "" (attrs !! trim key) +:+ substitute_fuel fuel rest attrs
          | None => rest
          end
      end
  end.
Definition substitute_template (template : string) (attrs : gmap string string) : string :=
  if contains_str "{{" template then substitute_fuel (String.length template) template attrs else template.

(** ** Providers in metrics *)

Definition KNOWN_PROVIDERS : list string :=
  ["openai"; "anthropic"; "gemini"; "azure"; "bedrock"; "mistral"; "together"; "groq"; "openrouter"; "deepseek"].
Definition normalize_provider_label (name : string) : string :=
  let lower := to_ascii_lowercase name in
  default "other" (snd <$> list_find (fun known => lower = known) KNOWN_PROVIDERS).

(** ** Cached answers *)

Record Cached := { ca_body : string; ca_prompt_tokens : Z; ca_completion_tokens : Z }.
Record Stored (V : Type) := { st_body : V; st_prompt_tokens : Z; st_completion_tokens : Z }.
Arguments Build_Stored {_}. Arguments st_body {_}. Arguments st_prompt_tokens {_}. Arguments st_completion_tokens {_}.

(** [serde_json] on a request and on what is stored, and [xxh3_128] in hexadecimal. *)
Record answer_json (V : Type) := {
  aj_as_f64 : V -> option f64;
  (** [as_object_mut] and [remove]. *)
  aj_remove : string -> V -> V;
  aj_to_vec : V -> string;
  aj_from_slice : string -> option V;
  aj_store : Stored V -> option string;
  aj_load : string -> option (Stored V);
  aj_hash : string -> string;
}.
Arguments aj_as_f64 {_}. Arguments aj_remove {_}. Arguments aj_to_vec {_}. Arguments aj_from_slice {_}.
Arguments aj_store {_}. Arguments aj_load {_}. Arguments aj_hash {_}.

Section Answers.
Context {V : Type} `{JsonValue V} (J : answer_json V).

Definition is_cacheable (request : V) : bool :=
  match json_get "temperature" request ≫= aj_as_f64 J with
  | Some t => SFeqb t f64_zero
  | None => true
  end.
Definition cache_key_for (fingerprint : string) : string := "llm_cache:" +:+ aj_hash J fingerprint.
Definition fingerprint (request : V) : option string :=
  if is_cacheable request then Some (aj_to_vec J (aj_remove J "stream_options" (aj_remove J "stream" request))) else None.

(** The entries; [fits] is whether the gateway takes a stored body into memory, [up] whether
    Redis answers.  An entry whose time to live runs out is removed. *)
Context (fits : string -> bool).

Definition answer_get (up : bool) (fp : string) (s : gmap string string) : option Cached :=
  if up then
    text ← s !! cache_key_for fp;
    if fits text then
      stored ← aj_load J text;
      Some {| ca_body := aj_to_vec J (st_body stored); ca_prompt_tokens := st_prompt_tokens stored; ca_completion_tokens := st_completion_tokens stored |}
    else None
  else None.
Definition answer_set (up : bool) (fp : string) (cached : Cached) (s : gmap string string) : gmap string string :=
  match aj_from_slice J (ca_body cached) with
  | None => s
  | Some body =>
      match aj_store J {| st_body := body; st_prompt_tokens := ca_prompt_tokens cached; st_completion_tokens := ca_completion_tokens cached |} with
      | None => s
      | Some text => if up then <[cache_key_for fp := text]> s else s
      end
  end.
End Answers.

(** The time to live of an entry: the caller's, or the setting's, read now. *)
Inductive TtlSource := TtlDynamic (setting : Z) | TtlFixed (secs : Z).
Definition default_ttl (t : TtlSource) : Z := match t with TtlDynamic v | TtlFixed v => v end.
Definition answer_ttl (ttl : option Z) (t : TtlSource) : Z := default (default_ttl t) ttl.

(** [invalidate_all]: every key of the prefix, as for the MCP cache. *)
Definition invalidate_answers (slot : string -> Z) (net : nat -> bool) (clustered : bool)
    (scan : string -> gmap string string -> list (result unit string)) : prog cache_redis Z :=
  scan_and_delete slot net clustered scan "llm_cache:*".

(** ** A name is what its alias says *)

Definition longer_first (l : list (string * string)) : Prop := StronglySorted (fun p q => (String.length q.1 <= String.length p.1)%nat) l.
Lemma insert_by_length_perm p l : insert_by_length p l ≡ₚ p :: l.
Proof. induction l as [|q l IH]; simpl; [done|]. destruct (_ <? _)%nat; [done|]. rewrite IH. apply Permutation_swap. Qed.
Lemma insert_by_length_sorted p l : longer_first l -> longer_first (insert_by_length p l).
Proof.
  unfold longer_first. induction l as [|q l IH]; intros Hs; simpl; [repeat constructor|].
  pose proof Hs as [Hl Hq]%StronglySorted_inv. destruct (_ <? _)%nat eqn:E.
  - apply Nat.ltb_lt in E. constructor; [done|]. constructor; [lia|]. eapply Forall_impl; [done|]. simpl. lia.
  - apply Nat.ltb_ge in E. constructor; [auto|]. rewrite insert_by_length_perm. by constructor.
Qed.
Lemma sort_by_length_spec l : longer_first (sort_by_length l) /\ sort_by_length l ≡ₚ l.
Proof.
  unfold sort_by_length. enough (H : forall acc, longer_first acc -> longer_first (foldl (fun acc p => insert_by_length p acc) acc l) /\
    foldl (fun acc p => insert_by_length p acc) acc l ≡ₚ acc ++ l) by (apply (H []); constructor).
  induction l as [|p l IH]; intros acc Ha; simpl; [by rewrite app_nil_r|].
  destruct (IH (insert_by_length p acc)) as [Hs Hp]; [by apply insert_by_length_sorted|]. split; [done|].
  rewrite Hp, insert_by_length_perm. by rewrite <- Permutation_middle.
Qed.

(** The aliases of a configuration, exact and by prefix. *)
Definition exact_alias (config : list (string * string)) (model target : string) : Prop := (model, target) ∈ config /\ strip_suffix "*" model = None.
Definition prefix_alias (config : list (string * string)) (from to : string) : Prop := (from +:+ "*", to) ∈ config.

Lemma sort_config_fold config m :
  NoDup config.*1 -> (forall k, k ∈ config.*1 -> mm_exact m !! k = None) ->
  let m' := foldl sort_config m config in
  (forall k t, mm_exact m' !! k = Some t <-> mm_exact m !! k = Some t \/ exact_alias config k t) /\
  mm_prefix m' = mm_prefix m ++ omap (fun kv => (fun s => (s, kv.2)) <$> strip_suffix "*" kv.1) config.
Proof.
  revert m. induction config as [|[k v] config IH]; intros m Hn Hf; simpl.
  - rewrite app_nil_r. split; [|done]. intros k t. unfold exact_alias. split; [auto|]. intros [?|[Hin _]]; [done|by apply elem_of_nil in Hin].
  - apply NoDup_cons in Hn as [Hk Hn]. destruct (strip_suffix "*" k) as [s|] eqn:Es.
    + assert (sort_config m (k, v) = {| mm_exact := mm_exact m; mm_prefix := mm_prefix m ++ [(s, v)] |}) as -> by (unfold sort_config; simpl; by rewrite Es).
      destruct (IH {| mm_exact := mm_exact m; mm_prefix := mm_prefix m ++ [(s, v)] |}) as [He Hp]; [done|intros; apply Hf; by right|].
      split; [|rewrite Hp; simpl; by rewrite <- app_assoc]. intros k' t. rewrite He. simpl. unfold exact_alias. rewrite elem_of_cons.
      split; [naive_solver|]. intros [?|[[Heq|?] Hno]]; [auto|by simplify_eq|auto].
    + assert (sort_config m (k, v) = add_exact k v m) as -> by (unfold sort_config; simpl; by rewrite Es).
      destruct (IH (add_exact k v m)) as [He Hp]; [done| |].
      { intros k' Hk'. simpl. rewrite lookup_insert_ne by (intros <-; done). apply Hf. by right. }
      split; [|rewrite Hp; done]. intros k' t. rewrite He. simpl. unfold exact_alias. rewrite elem_of_cons.
      destruct (decide (k' = k)) as [-> |Hne].
      * rewrite lookup_insert_eq. rewrite (Hf k) by (by left). split; [naive_solver|]. intros [?|[[Heq|Hin] _]]; [done|simplify_eq; auto|].
        exfalso. apply Hk. by apply (list_elem_of_fmap_2 fst) in Hin.
      * rewrite lookup_insert_ne by done. split; [naive_solver|]. intros [?|[[Heq|Hin] Hno]]; [auto|by simplify_eq|auto].
Qed.

Lemma from_config_spec config : NoDup config.*1 ->
  (forall k t, mm_exact (from_config config) !! k = Some t <-> exact_alias config k t) /\
  longer_first (mm_prefix (from_config config)) /\ NoDup (mm_prefix (from_config config)).*1 /\
  (forall from to, (from, to) ∈ mm_prefix (from_config config) <-> prefix_alias config from to).
Proof.
  intros Hn. destruct (sort_config_fold config ModelMapper_new Hn) as [He Hp]; [done|].
  unfold from_config. simpl. destruct (sort_by_length_spec (mm_prefix (foldl sort_config ModelMapper_new config))) as [Hs Hperm].
  split_and!.
  - intros k t. rewrite He. simpl. rewrite lookup_empty. naive_solver.
  - done.
  - rewrite Hperm, Hp. simpl. apply (NoDup_fmap_omap _ fst); [by apply NoDup_fmap_1 in Hn|].
    intros [k v] [k' v'] [s t] [s' t'] Hin Hin' Ha Hb Heq. simpl in *. apply fmap_Some in Ha as (s1 & Hs1 & [= <- <-]). apply fmap_Some in Hb as (s2 & Hs2 & [= <- <-]).
    apply strip_suffix_Some in Hs1, Hs2. subst; by apply (NoDup_fmap_elem fst config).
  - intros from to. rewrite Hperm, Hp. simpl. rewrite list_elem_of_omap. unfold prefix_alias. split.
    + intros ([k v] & Hin & Hs'). simpl in *. apply fmap_Some in Hs' as (s & Hs1 & [= <- <-]). apply strip_suffix_Some in Hs1. by subst.
    + intros Hin. exists (from +:+ "*", to). split; [done|]. simpl. by replace (strip_suffix "*" (from +:+ "*")) with (Some from) by (symmetry; by apply strip_suffix_Some).
Qed.

Lemma map_prefix_longest l model from to suffix :
  longer_first l -> NoDup l.*1 -> (from, to) ∈ l -> model = from +:+ suffix ->
  (forall q t, (q, t) ∈ l -> starts_with q model = true -> (String.length q <= String.length from)%nat) ->
  map_prefix l model = to +:+ suffix.
Proof.
  unfold longer_first. induction l as [|[f0 t0] l IH]; intros Hs Hn Hin Hm Hmax; [by apply elem_of_nil in Hin|].
  apply StronglySorted_inv in Hs as [Hs Hl]. pose proof Hn as [Hf Hn']%NoDup_cons. simpl.
  destruct (strip_prefix f0 model) as [s0|] eqn:E.
  - apply strip_prefix_Some in E. assert (Hlen : String.length f0 = String.length from).
    { apply Nat.le_antisymm; [apply (Hmax f0 t0); [by left|apply starts_with_spec; by exists s0]|].
      apply elem_of_cons in Hin as [Heq|Hin]; [by simplify_eq|]. rewrite Forall_forall in Hl. by apply (Hl _ Hin). }
    rewrite Hm in E. destruct (str_app_inj_len from f0 suffix s0 (eq_sym Hlen) E) as [<- <-].
    apply elem_of_cons in Hin as [Heq|Hin]; [by simplify_eq|]. exfalso. apply Hf. by apply (list_elem_of_fmap_2 fst) in Hin.
  - apply elem_of_cons in Hin as [Heq|Hin].
    + simplify_eq. assert (strip_prefix f0 (f0 +:+ suffix) = Some suffix) by (by apply strip_prefix_Some). congruence.
    + apply IH; try done. intros q t Hq. apply (Hmax q t). by right.
Qed.
Lemma map_prefix_none l model : (forall q t, (q, t) ∈ l -> starts_with q model = false) -> map_prefix l model = model.
Proof.
  induction l as [|[f t] l IH]; intros Hl; [done|]. simpl. specialize (Hl f t ltac:(by left)) as Hf. unfold starts_with in Hf.
  destruct (strip_prefix f model); [done|]. apply IH. intros q t' Hq. apply (Hl q t'). by right.
Qed.

(** What a model's name becomes depends on the aliases and not on the order the map of
    them is walked in: its own exact alias; without one, the replacement of the longest prefix
    alias that starts it, with the rest of the name kept; and without either, itself. *)
Theorem model_name_is_mapped config model (Hkeys : NoDup config.*1) :
  (forall target, exact_alias config model target -> map_model (from_config config) model = target) /\
  ((forall target, ~ exact_alias config model target) ->
     (forall from to suffix, prefix_alias config from to -> model = from +:+ suffix ->
        (forall q t, prefix_alias config q t -> starts_with q model = true -> (String.length q <= String.length from)%nat) ->
        map_model (from_config config) model = to +:+ suffix) /\
     ((forall q t, prefix_alias config q t -> starts_with q model = false) -> map_model (from_config config) model = model)).
Proof.
  destruct (from_config_spec config Hkeys) as (He & Hs & Hn & Hp). unfold map_model. split.
  - intros target Ht. apply He in Ht. by rewrite Ht.
  - intros Hno. destruct (mm_exact (from_config config) !! model) as [t|] eqn:E; [by apply He, Hno in E|]. split.
    + intros from to suffix Ha Hm Hmax. eapply map_prefix_longest; try done; [by apply Hp|]. intros q t Hq. apply (Hmax q t). by apply Hp.
    + intros Hnone. apply map_prefix_none. intros q t Hq. apply (Hnone q t). by apply Hp.
Qed.

Definition aliases_demo : list (string * string) := [("in*", "x-"); ("fast", "gpt-4o-mini"); ("internal/*", "")].
Lemma model_name_is_mapped_witness :
  map_model (from_config aliases_demo) "internal/gpt-4o" = "gpt-4o" /\ map_model (from_config aliases_demo) "fast" = "gpt-4o-mini" /\ NoDup aliases_demo.*1.
Proof.
  assert (Hn : NoDup aliases_demo.*1) by (apply (bool_decide_unpack _); vm_compute; exact I).
  destruct (model_name_is_mapped aliases_demo "internal/gpt-4o" Hn) as [_ H].
  destruct (model_name_is_mapped aliases_demo "fast" Hn) as [He _]. split_and!; [|apply He; split; [set_solver|reflexivity]|exact Hn].
  destruct H as [H _]; [intros target [Hin _]; set_solver|]. apply (H "internal/" "" "gpt-4o"); [unfold prefix_alias; set_solver|reflexivity|].
  unfold prefix_alias. intros q t Hq _. unfold aliases_demo in Hq. rewrite !elem_of_cons, elem_of_nil in Hq.
  destruct Hq as [[= Hq _]|[[= Hq _]|[[= Hq _]|[]]]]; [apply (str_app_cancel_r q "in" "*") in Hq as ->; simpl; lia| |apply (str_app_cancel_r q "internal/" "*") in Hq as ->; simpl; lia].
  apply (f_equal (strip_suffix "*")) in Hq. by replace (strip_suffix "*" (q +:+ "*")) with (Some q) in Hq by (symmetry; by apply strip_suffix_Some).
Defined.

(** ** A key is told of what it may call *)

Section Told.
Context {U Up Rs Strat : Type} (order : forall A, gmap string A -> list (string * A)).
Implicit Types (router : ModelRouter U Up Rs Strat).

Lemma elem_of_bfilter {A} (f : A -> bool) (l : list A) x : x ∈ List.filter f l <-> x ∈ l /\ f x = true.
Proof. by rewrite !list_elem_of_In, filter_In. Qed.

(** The models a key is told of are, in name order and each once, those names of the router
    and of the key's own list that a request naming them would be let through for and routed
    by: after the aliases, past the key's list, with a route. *)
Theorem told_models_are_callable router mapper identity :
  Sorted str_lt (callable_models_in order router mapper identity) /\
  forall name, name ∈ callable_models_in order router mapper identity <->
    (name ∈ (order _ (mr_routes router)).*1 \/ exists allowed, gi_allowed_models identity = Some allowed /\ name ∈ allowed) /\
    may_call identity (map_model mapper name) = true /\ exists es, route order (map_model mapper name) router = Some es.
Proof.
  assert (Hc : forall name, callable order router mapper identity name = true <->
    may_call identity (map_model mapper name) = true /\ exists es, route order (map_model mapper name) router = Some es).
  { intros name. unfold callable. rewrite andb_true_iff. destruct (route _ _ _) as [es|]; naive_solver. }
  unfold callable_models_in, list_models. set (base := btree_extend [] (List.filter _ _)).
  assert (Hb : Sorted str_lt base) by (apply btree_extend_sorted; constructor).
  assert (Hin : forall name, name ∈ base <-> name ∈ (order _ (mr_routes router)).*1 /\ callable order router mapper identity name = true).
  { intros name. subst base. rewrite elem_of_btree_extend, elem_of_nil, elem_of_bfilter, elem_of_btree_extend, elem_of_nil. tauto. }
  split.
  - destruct (gi_allowed_models identity); [by apply btree_extend_sorted|done].
  - intros name. rewrite <- Hc. destruct (gi_allowed_models identity) as [allowed|].
    + rewrite elem_of_btree_extend, Hin, elem_of_bfilter. naive_solver.
    + rewrite Hin. naive_solver.
Qed.
End Told.

(** ** A placeholder is filled *)

Lemma split_str_len sep s a b : split_str sep s = Some (a, b) -> (String.length b + String.length sep <= String.length s)%nat.
Proof. intros Hs. apply split_str_app in Hs. subst s. rewrite !str_length_app. lia. Qed.
Lemma substitute_enough n rest attrs : (String.length rest <= n)%nat -> substitute_fuel n rest attrs = substitute_fuel (String.length rest) rest attrs.
Proof.
  revert rest. induction n as [n IH] using lt_wf_ind. intros rest Hn. destruct n as [|n]; [by replace (String.length rest) with 0%nat by lia|].
  destruct (String.length rest) as [|m] eqn:Em.
  - destruct rest; [|done]. reflexivity.
  - simpl. destruct (split_str "{{" rest) as [[before after]|] eqn:E1; [|done]. destruct (split_str "}}" after) as [[key rest']|] eqn:E2; [|done].
    apply split_str_len in E1, E2. simpl in E1, E2. rewrite (IH n) by lia. by rewrite (IH m) by lia.
Qed.
Lemma substitute_unfold template attrs : substitute_template template attrs = substitute_fuel (String.length template) template attrs.
Proof.
  unfold substitute_template, contains_str. destruct (split_str "{{" template) eqn:E; [done|]. destruct template; [done|]. cbn [String.length substitute_fuel]. by rewrite E.
Qed.

(** A template is kept up to its first placeholder, the placeholder gives way to its value or to
    nothing, and the rest goes on the same way; an opening without an end stays as it is. *)
Lemma template_filled template attrs :
  match split_str "{{" template with
  | None => substitute_template template attrs = template
  | Some (before, after) =>
      match split_str "}}" after with
      | Some (key, rest) => substitute_template template attrs = before +:+ default "" (attrs !! trim key) +:+ substitute_template rest attrs
      | None => substitute_template template attrs = template
      end
  end.
Proof.
  rewrite substitute_unfold. destruct template as [|c template]; [done|]. cbn [String.length substitute_fuel].
  destruct (split_str "{{" (String c template)) as [[before after]|] eqn:E1; [|done]. destruct (split_str "}}" after) as [[key rest]|] eqn:E2; [|done].
  rewrite substitute_unfold. apply split_str_len in E1, E2. simpl in E1, E2. by rewrite substitute_enough by lia.
Qed.

(** A metric names one of eleven providers, whatever the provider is called. *)
Lemma provider_labels_bounded name : normalize_provider_label name ∈ "other" :: KNOWN_PROVIDERS.
Proof.
  unfold normalize_provider_label. destruct (list_find _ _) as [[i known]|] eqn:E; [|by left].
  apply list_find_Some in E as (Hi & _). simpl. right. by apply list_elem_of_lookup_2 in Hi.
Qed.

(** ** An answer is given to who asked the same *)

Section Shared.
Context {V : Type} `{JsonValue V} (J : answer_json V) (fits : string -> bool).
(** What [serde_json] writes it reads back. *)
Context (store_load : forall s text, aj_store J s = Some text -> aj_load J text = Some s).
Implicit Types (s : gmap string string).

Definition answer_sets (sets : list (bool * string * Cached)) s : gmap string string :=
  foldl (fun s x => answer_set J x.1.1 x.1.2 x.2 s) s sets.

Lemma answer_set_lookup up fp c s key text : answer_set J up fp c s !! key = Some text ->
  s !! key = Some text \/
  key = cache_key_for J fp /\ exists body, aj_from_slice J (ca_body c) = Some body /\
    aj_store J {| st_body := body; st_prompt_tokens := ca_prompt_tokens c; st_completion_tokens := ca_completion_tokens c |} = Some text.
Proof.
  unfold answer_set. destruct (aj_from_slice J (ca_body c)) as [body|] eqn:Eb; [|auto].
  destruct (aj_store J _) as [t|] eqn:Et; [|auto]. destruct up; [|auto].
  destruct (decide (key = cache_key_for J fp)) as [-> |Hne]; [rewrite lookup_insert_eq; intros [= ->]; eauto 10|rewrite lookup_insert_ne by done; auto].
Qed.

(** A cached answer is given to a request only if one with the same fingerprint was answered
    so, with the same token counts: requests that differ in more than how they are streamed
    share nothing, and one that is sampled is neither looked up nor stored. *)
Theorem answers_shared_by_fingerprint sets up request c
  (Hhash : forall a b, a ∈ (fun x => x.1.2) <$> sets -> fingerprint J request = Some b -> aj_hash J a = aj_hash J b -> a = b) :
  (fp ← fingerprint J request; answer_get J fits up fp (answer_sets sets ∅)) = Some c ->
  is_cacheable J request = true /\
  exists up' fp c', (up', fp, c') ∈ sets /\ fingerprint J request = Some fp /\
    exists body, aj_from_slice J (ca_body c') = Some body /\
    c = {| ca_body := aj_to_vec J body; ca_prompt_tokens := ca_prompt_tokens c'; ca_completion_tokens := ca_completion_tokens c' |}.
Proof.
  destruct (fingerprint J request) as [b|] eqn:Eb; [|done]. simpl. intros Hg.
  split; [unfold fingerprint in Eb; by destruct (is_cacheable J request)|].
  unfold answer_get in Hg. destruct up; [|done]. destruct (answer_sets sets ∅ !! cache_key_for J b) as [text|] eqn:El; [|done]. simpl in Hg.
  destruct (fits text); [|done]. destruct (aj_load J text) as [stored|] eqn:Es; [|done]. simpl in Hg. injection Hg as <-.
  assert (Hin : exists up' fp c', (up', fp, c') ∈ sets /\ cache_key_for J b = cache_key_for J fp /\ exists body, aj_from_slice J (ca_body c') = Some body /\
    aj_store J {| st_body := body; st_prompt_tokens := ca_prompt_tokens c'; st_completion_tokens := ca_completion_tokens c' |} = Some text).
  { clear Hhash Es. unfold answer_sets in El. induction sets as [|[[up' fp'] c'] sets IH] using rev_ind; [done|].
    rewrite foldl_app in El. simpl in El. apply answer_set_lookup in El as [El|[Hk Hb]].
    - destruct (IH El) as (up1 & fp1 & c1 & Hin & Hrest). exists up1, fp1, c1. split; [|done]. apply elem_of_app. by left.
    - exists up', fp', c'. split; [|by split]. apply elem_of_app. right. by left. }
  destruct Hin as (up' & fp & c' & Hin & Hk & body & Hbody & Hst). exists up', fp, c'. split; [done|].
  assert (Hh : aj_hash J fp = aj_hash J b) by (unfold cache_key_for in Hk; by apply str_app_cancel_l in Hk).
  split; [f_equal; symmetry; apply (Hhash fp b); [|done|done]|].
  - by apply (list_elem_of_fmap_2 (fun x => x.1.2)) in Hin.
  - exists body. split; [done|]. apply store_load in Hst. rewrite Es in Hst. injection Hst as ->. done.
Qed.
End Shared.

Definition ask (extra : list (string * json)) : json := JObj (("model", JStr "m") :: extra).
Definition json_demo : answer_json json := {|
  aj_as_f64 v := match v with JNum z => Some (f64_of_Z z) | _ => None end;
  aj_remove k v := match v with JObj l => JObj (List.filter (fun p => negb (String.eqb p.1 k)) l) | _ => v end;
  aj_to_vec v := if decide (v = ask []) then "ask" else if decide (v = JStr "a") then "a" else "other";
  aj_from_slice t := if decide (t = "a") then Some (JStr "a") else None;
  aj_store s := if decide (st_body s = JStr "a" /\ st_prompt_tokens s = 1 /\ st_completion_tokens s = 2) then Some "stored" else None;
  aj_load t := if decide (t = "stored") then Some {| st_body := JStr "a"; st_prompt_tokens := 1; st_completion_tokens := 2 |} else None;
  aj_hash t := t |}.
Definition answered : Cached := {| ca_body := "a"; ca_prompt_tokens := 1; ca_completion_tokens := 2 |}.
Lemma json_demo_store_load s text : aj_store json_demo s = Some text -> aj_load json_demo text = Some s.
Proof. simpl. case_decide as E; [|done]. intros [= <-]. destruct s. simpl in E. by destruct E as (-> & -> & ->). Qed.

(** A streamed request finds what a whole one stored. *)
Lemma answers_shared_by_fingerprint_witness :
  (fp ← fingerprint json_demo (ask [("stream", JBool true)]); answer_get json_demo (fun _ => true) true fp (answer_sets json_demo [(true, "ask", answered)] ∅)) = Some answered /\
  is_cacheable json_demo (ask [("stream", JBool true)]) = true.
Proof.
  assert (Hg : (fp ← fingerprint json_demo (ask [("stream", JBool true)]); answer_get json_demo (fun _ => true) true fp (answer_sets json_demo [(true, "ask", answered)] ∅)) = Some answered) by (vm_compute; reflexivity).
  split; [exact Hg|]. by eapply (answers_shared_by_fingerprint json_demo (fun _ => true) json_demo_store_load [(true, "ask", answered)] true).
Defined.
Example sampled_request_not_cached : fingerprint json_demo (ask [("temperature", JNum 1)]) = None.
Proof. vm_compute. reflexivity. Qed.
Example template_demo :
  substitute_template "id={{user_id}};mail={{ user_email }};{{nope}}a{{user" (cx_attrs (CallCtx_new None (Some "u1") (Some "a@b.c"))) = "id=u1;mail=a@b.c;a{{user".
Proof. vm_compute. reflexivity. Qed.
