(* ===== verification/RequestLog.v ===== *)
(** * The row a request of the AI gateway leaves

    [crates/gateway/src/proxy/log_ctx.rs] and [early_cancel.rs]: the rows of a request that
    succeeded, failed, or was cut short, and the guard that leaves one when the client goes
    before there is an answer.  A cost is its text; the text of an error is an argument. *)

From S2P Require Import Prelude Interfaces LimitTypes Constraints GatewayDeps Text GatewayError AuditRow Pipeline McpRegistry McpSse Glob AuditBodies.

Section RequestLog.
Context {U : Type} `{UuidParse U}.

(** ** Rows *)

Definition text_or_null (o : option string) : jval := match o with Some s => AuditRow.JStr s | None => AuditRow.JNull end.

(** [Map::insert] on the fields of an object. *)
Fixpoint put_field (k : string) (v : jval) (fields : list (string * jval)) : list (string * jval) :=
  match fields with
  | [] => [(k, v)]
  | f :: fields => if String.eqb f.1 k then (k, v) :: fields else f :: put_field k v fields
  end.
Definition put_fields (extra fields : list (string * jval)) : list (string * jval) :=
  foldl (fun fields f => put_field f.1 f.2 fields) fields extra.

Definition BodyCapture_default : BodyCapture :=
  {| bc_request := None; bc_response := None; bc_request_bytes := None; bc_response_bytes := None; bc_status := None |}.

(** Who asked, and the ids of the row. *)
Record log_ids := { li_trace_id : string; li_session_id : option string; li_user_id : option string; li_user_email : option string;
                    li_api_key_id : option string; li_api_key_lineage_id : option string; li_ip_address : option string }.
Definition request_row (ids : log_ids) (detail : jval) (bodies : BodyCapture) : AuditEntry :=
  let actor := {| ga_user_id := li_user_id ids; ga_user_email := li_user_email ids; ga_api_key_id := li_api_key_id ids;
                  ga_api_key_lineage_id := li_api_key_lineage_id ids; ga_ip := li_ip_address ids; ga_session_id := li_session_id ids |} in
  with_body_capture bodies (with_detail detail (with_trace_id (li_trace_id ids) (GatewayActor_audit (U := U) actor "chat.completion"))).

Record log_outcome := { lo_model_id : string; lo_provider : option string; lo_upstream_model : option string;
                        lo_prompt_tokens : Z; lo_completion_tokens : Z; lo_cost_usd : string; lo_latency_ms : Z; lo_status_code : Z }.
Definition log_detail (o : log_outcome) : list (string * jval) :=
  [("model_id", AuditRow.JStr (lo_model_id o)); ("provider", text_or_null (lo_provider o)); ("upstream_model", text_or_null (lo_upstream_model o));
   ("input_tokens", AuditRow.JNum (lo_prompt_tokens o)); ("output_tokens", AuditRow.JNum (lo_completion_tokens o));
   ("cost_usd", AuditRow.JStr (lo_cost_usd o)); ("latency_ms", AuditRow.JNum (lo_latency_ms o)); ("status_code", AuditRow.JNum (lo_status_code o))].

Definition emit_gateway_log (ids : log_ids) (o : log_outcome) (bodies : BodyCapture) : AuditEntry :=
  request_row ids (AuditRow.JObj (log_detail o)) bodies.
Definition emit_gateway_log_with_extra (ids : log_ids) (o : log_outcome) (extra : option jval) (bodies : BodyCapture) : AuditEntry :=
  let detail := match extra with Some (AuditRow.JObj extra) => put_fields extra (log_detail o) | _ => log_detail o end in
  request_row ids (AuditRow.JObj detail) bodies.

(** [err_text]: [err.to_string()]. *)
Context (err_text : GatewayError -> string).
Definition error_detail (model_id : string) (provider : option string) (latency_ms : Z) (err : GatewayError) : list (string * jval) :=
  [("model_id", AuditRow.JStr model_id); ("provider", text_or_null provider); ("input_tokens", AuditRow.JNum 0); ("output_tokens", AuditRow.JNum 0);
   ("cost_usd", AuditRow.JStr "0"); ("latency_ms", AuditRow.JNum latency_ms); ("status_code", AuditRow.JNum (status_code err));
   ("error_type", AuditRow.JStr (error_tag err)); ("error_message", AuditRow.JStr (err_text err))].
Definition emit_gateway_error_log (ids : log_ids) (model_id : string) (provider : option string) (latency_ms : Z) (err : GatewayError)
    (retries : Z) (bodies : BodyCapture) : AuditEntry :=
  let detail := error_detail model_id provider latency_ms err in
  let detail := if 0 <? retries then put_field "retries" (AuditRow.JNum retries) detail else detail in
  request_row ids (AuditRow.JObj detail) bodies.

(** *** [LogCtx] *)

Record LogCtx := { lc_ids : log_ids; lc_model : string; lc_started : Z }.
Definition ids_of (identity : GatewayRequestIdentity) (trace_id : string) (session_id : option string) : log_ids :=
  {| li_trace_id := trace_id; li_session_id := session_id; li_user_id := gi_user_id identity; li_user_email := gi_user_email identity;
     li_api_key_id := gi_api_key_id identity; li_api_key_lineage_id := gi_api_key_lineage_id identity; li_ip_address := gi_ip_address identity |}.
Definition LogCtx_new (identity : GatewayRequestIdentity) (trace_id : string) (session_id : option string) (model : string) (started : Z) : LogCtx :=
  {| lc_ids := ids_of identity trace_id session_id; lc_model := model; lc_started := started |}.
(** The row, and the error back. *)
Definition emit (ctx : LogCtx) (now : Z) (err : GatewayError) : AuditEntry * GatewayError :=
  (emit_gateway_error_log (lc_ids ctx) (lc_model ctx) None (now - lc_started ctx) err 0 BodyCapture_default, err).

(** ** A client that leaves early *)

Record Known := { kn_identity : GatewayRequestIdentity; kn_trace_id : option string; kn_session_id : option string; kn_model : option string }.
Record EarlyCancel := { ec_known : Known; ec_started : Z; ec_armed : bool }.

Definition arm (identity : GatewayRequestIdentity) (started : Z) : EarlyCancel :=
  {| ec_known := {| kn_identity := identity; kn_trace_id := None; kn_session_id := None; kn_model := None |}; ec_started := started; ec_armed := true |}.
Definition on_known (f : Known -> Known) (g : EarlyCancel) : EarlyCancel :=
  {| ec_known := f (ec_known g); ec_started := ec_started g; ec_armed := ec_armed g |}.
Definition slot_request (trace_id : string) (session_id : option string) : EarlyCancel -> EarlyCancel :=
  on_known (fun k => {| kn_identity := kn_identity k; kn_trace_id := Some trace_id; kn_session_id := session_id; kn_model := kn_model k |}).
Definition slot_model (model : string) : EarlyCancel -> EarlyCancel :=
  on_known (fun k => {| kn_identity := kn_identity k; kn_trace_id := kn_trace_id k; kn_session_id := kn_session_id k; kn_model := Some model |}).
Definition set_identity (identity : GatewayRequestIdentity) : EarlyCancel -> EarlyCancel :=
  on_known (fun k => {| kn_identity := identity; kn_trace_id := kn_trace_id k; kn_session_id := kn_session_id k; kn_model := kn_model k |}).
Definition disarm (g : EarlyCancel) : EarlyCancel := {| ec_known := ec_known g; ec_started := ec_started g; ec_armed := false |}.

Definition cancelled_extra : jval :=
  AuditRow.JObj [("stream_outcome", AuditRow.JStr "client_cancelled"); ("cancelled_before", AuditRow.JStr "response")].
(** [Drop]: [fresh] is the id made when the handler got to none; a poisoned lock leaves no row. *)
Definition drop_guard (poisoned : bool) (fresh : string) (now : Z) (g : EarlyCancel) : option AuditEntry :=
  if negb (ec_armed g) then None
  else if poisoned then None
  else
    let k := ec_known g in
    Some (emit_gateway_log_with_extra (ids_of (kn_identity k) (default fresh (kn_trace_id k)) (kn_session_id k))
      {| lo_model_id := default "(unknown)" (kn_model k); lo_provider := None; lo_upstream_model := None; lo_prompt_tokens := 0;
         lo_completion_tokens := 0; lo_cost_usd := "0"; lo_latency_ms := now - ec_started g; lo_status_code := 499 |}
      (Some cancelled_extra) BodyCapture_default).

(** The life of a guard: what the handler says on the way, and how it ends. *)
Inductive guard_call := SlotRequest (trace_id : string) (session_id : option string) | SlotModel (model : string) | SetIdentity (identity : GatewayRequestIdentity).
Definition guard_step (g : EarlyCancel) (c : guard_call) : EarlyCancel :=
  match c with SlotRequest t s => slot_request t s g | SlotModel m => slot_model m g | SetIdentity i => set_identity i g end.
Definition guard_run (calls : list guard_call) (g : EarlyCancel) : EarlyCancel := foldl guard_step g calls.
(** The future is answered, and the guard disarmed, or it is dropped. *)
Definition request_ends (answered poisoned : bool) (fresh : string) (now : Z) (g : EarlyCancel) : option AuditEntry :=
  drop_guard poisoned fresh now (if answered then disarm g else g).

(** ** What the rows say *)

Lemma put_field_same k v fields : (k, v) ∈ put_field k v fields.
Proof.
  induction fields as [|f fields IH]; simpl; [by left|]. destruct (String.eqb f.1 k) eqn:E; [|by right].
  by left.
Qed.

(** The last thing said on the way. *)
Definition last_model (calls : list guard_call) : option string := last (omap (fun c => match c with SlotModel m => Some m | _ => None end) calls).
Definition last_request (calls : list guard_call) : option (string * option string) :=
  last (omap (fun c => match c with SlotRequest t s => Some (t, s) | _ => None end) calls).
Definition last_identity (identity : GatewayRequestIdentity) (calls : list guard_call) : GatewayRequestIdentity :=
  default identity (last (omap (fun c => match c with SetIdentity i => Some i | _ => None end) calls)).

Lemma guard_run_known identity started calls :
  let g := guard_run calls (arm identity started) in
  ec_armed g = true /\ ec_started g = started /\ kn_model (ec_known g) = last_model calls /\
  kn_trace_id (ec_known g) = fst <$> last_request calls /\ kn_session_id (ec_known g) = (last_request calls ≫= snd) /\
  kn_identity (ec_known g) = last_identity identity calls.
Proof.
  cbv zeta. unfold last_model, last_request, last_identity. induction calls as [|c calls IH] using rev_ind; [done|].
  unfold guard_run in *. rewrite foldl_app, !omap_app, !last_app. simpl. set (g := foldl guard_step (arm identity started) calls) in *.
  destruct IH as (Ha & Hs & Hm & Ht & Hse & Hi). destruct c; simpl; by split_and!.
Qed.

(** A request whose client leaves before the answer leaves exactly one row: 499, no tokens, no
    cost, the last ids and model the handler said; one that is answered leaves none here. *)
Lemma early_cancel_row identity started calls answered fresh now :
  let end_ := request_ends answered false fresh now (guard_run calls (arm identity started)) in
  (answered = true -> end_ = None) /\
  (answered = false -> exists row, end_ = Some row /\ ae_action row = "chat.completion" /\ ae_log_type row = LogGateway /\
     ae_trace_id row = Some (default fresh (fst <$> last_request calls)) /\ ae_session_id row = (last_request calls ≫= snd) /\
     ae_user_id row = id_column (U := U) (gi_user_id (last_identity identity calls)) /\
     exists fields, ae_detail row = Some (AuditRow.JObj fields) /\
       ("model_id", AuditRow.JStr (default "(unknown)" (last_model calls))) ∈ fields /\
       ("status_code", AuditRow.JNum 499) ∈ fields /\ ("input_tokens", AuditRow.JNum 0) ∈ fields /\ ("output_tokens", AuditRow.JNum 0) ∈ fields /\
       ("cost_usd", AuditRow.JStr "0") ∈ fields /\ ("stream_outcome", AuditRow.JStr "client_cancelled") ∈ fields /\
       ("cancelled_before", AuditRow.JStr "response") ∈ fields).
Proof.
  cbv zeta. destruct (guard_run_known identity started calls) as (Ha & Hs & Hm & Ht & Hse & Hi). unfold request_ends, drop_guard.
  split; intros ->; [done|]. rewrite Ha. simpl. eexists. split; [done|].
  unfold emit_gateway_log_with_extra, request_row, ids_of, log_detail. simpl. rewrite Hm, Ht, Hse, Hi. split_and!; [done..|].
  eexists. split; [done|]. split_and!; repeat first [by left | right].
Qed.

(** A failed request's row names the error by its tag and its status, whatever its text says. *)
Lemma error_row_names_tag ids model provider latency err retries bodies :
  exists fields, ae_detail (emit_gateway_error_log ids model provider latency err retries bodies) = Some (AuditRow.JObj fields) /\
    ("error_type", AuditRow.JStr (error_tag err)) ∈ fields /\ ("status_code", AuditRow.JNum (status_code err)) ∈ fields /\
    (0 < retries <-> exists n, ("retries", AuditRow.JNum n) ∈ fields).
Proof.
  unfold emit_gateway_error_log, request_row, error_detail. simpl. destruct (0 <? retries) eqn:E; zbool; eexists; (split; [done|]); simpl.
  - do 2 (split; [repeat first [by left | right]|]). split; [|done]. intros _. exists retries. do 9 right. by left.
  - do 2 (split; [repeat first [by left | right]|]). split; [lia|]. intros [n Hn]. exfalso.
    repeat (apply elem_of_cons in Hn as [Hn|Hn]; [discriminate|]). by apply elem_of_nil in Hn.
Qed.
End RequestLog.
