(* ===== verification/StreamPump.v ===== *)
(** * Streams to the client

    [crates/gateway/src/lifecycle/mod.rs]: the pump that forwards an upstream's stream, as a
    machine that an event resumes at each [await] and [yield] and that hands the client at most
    one piece before the next; the errors an upstream reports in its stream; the opening held
    back while a failure could still be sent again; and what the tail makes of the stream's end,
    the client's leaving among it.  The formats are [tw_dialect]'s, the restoring of values and
    the inspection of tool calls belong to other parts of the gateway: they are operations on
    states of their own.  The clock, the jitter of a wait, whether the route takes the request
    again ([Routing.resend_admit]) and whether the memory admits a chunk come with the events. *)

From Stdlib Require Import Ascii.
From S2P Require Import Prelude Interfaces Float64 GatewayDeps Text GatewayError Retry Lifecycle Sealed McpRegistry SpeedWatch.

Inductive Dialect := Chat | Responses | Anthropic | Gemini | Bedrock.
#[export] Instance Dialect_eq_dec : EqDecision Dialect.
Proof. solve_decision. Defined.

(** [chars().take(n)] of UTF-8 text. *)
Definition utf8_continues (c : ascii) : bool := Z.land (byte_of c) 0xC0 =? 0x80.
Fixpoint take_chars (n : nat) (s : string) : string :=
  match s with
  | EmptyString => EmptyString
  | String c s =>
      if utf8_continues c then String c (take_chars n s)
      else match n with O => EmptyString | S n => String c (take_chars n s) end
  end.

(** ** What an upstream says in its stream *)

Record Said := { sd_message : string; sd_status : option Z; sd_sealed : bool }.
Definition NO_MESSAGE : string := "The error carried no message.".

Definition status_named (name : string) : option Z :=
  let one_of l := bool_decide (name ∈ l) in
  if one_of ["invalid_request_error"; "context_length_exceeded"; "invalid_prompt"; "INVALID_ARGUMENT"; "FAILED_PRECONDITION"] then Some 400
  else if one_of ["authentication_error"; "invalid_api_key"; "UNAUTHENTICATED"] then Some 401
  else if one_of ["billing_error"] then Some 402
  else if one_of ["permission_error"; "PERMISSION_DENIED"] then Some 403
  else if one_of ["not_found_error"; "model_not_found"; "NOT_FOUND"] then Some 404
  else if one_of ["request_too_large"] then Some 413
  else if one_of ["rate_limit_error"; "rate_limit_exceeded"; "insufficient_quota"; "usage_limit_reached"; "RESOURCE_EXHAUSTED"] then Some 429
  else if one_of ["api_error"; "server_error"] then Some 500
  else if one_of ["server_is_overloaded"; "slow_down"; "UNAVAILABLE"] then Some 503
  else if one_of ["timeout_error"; "DEADLINE_EXCEEDED"] then Some 504
  else if one_of ["overloaded_error"] then Some 529
  else None.

Definition u16_max : Z := 65535.
Definition status_of (e : json) : option Z :=
  let numeric :=
    match json_get "code" e with
    | Some (JNum n) => if (0 <=? n) && (n <=? u16_max) then Some n else None
    | Some (JStr s) => parse_uint u16_max (trim s)
    | _ => None
    end in
  let named key := v ← json_get key e; s ← json_as_str v; status_named s in
  match numeric with
  | Some c => if (400 <=? c) && (c <? 600) then Some c
              else head (omap named ["code"; "type"; "status"])
  | None => head (omap named ["code"; "type"; "status"])
  end.

Definition present_value (e : option json) : option json := v ← e; if json_is_null v then None else Some v.
(** Where each format keeps its error: none (not an error frame), or the error if there is one. *)
Definition error_in (upstream : Dialect) (event : option string) (v : json) : option (option json) :=
  match upstream with
  | Chat | Gemini => Some <$> present_value (json_get "error" v)
  | Responses =>
      let kind := match json_get "type" v ≫= json_as_str with Some t => Some t | None => event end in
      if decide (kind = Some "response.failed") then Some (present_value (r ← json_get "response" v; json_get "error" r))
      else Some (Some (default v (present_value (json_get "error" v))))
  | Anthropic => Some (Some (default v (present_value (json_get "error" v))))
  | Bedrock => Some (Some v)
  end.
Definition message_of (error : option json) : string :=
  let said := match error with
              | Some (JStr s) => Some s
              | Some e => m ← json_get "message" e; json_as_str m
              | None => None
              end in
  match trim <$> said with
  | Some "" | None => NO_MESSAGE
  | Some m => m
  end.

(** ** The other crates and the gateway's parts the pump drives *)

Record stream_libs := {
  Rd : Type; rd_new : Dialect -> Rd; rd_feed : Rd -> string -> Rd * list Event;
  Fr : Type; fr_new : Fr; fr_feed : Fr -> string -> Fr * list Frame; fr_flush : Fr -> Fr * list Frame;
  ends_answer : Dialect -> Frame -> bool;
  stream_error : Dialect -> Frame -> bool;
  error_frame_text : Dialect -> Z -> string -> string;
  from_str : string -> option json;
  (** [tw_dialect::sealed::refused] on a frame's text. *)
  sealed_words : Dialect -> string -> bool;
  err_text : GatewayError -> string;
  (** The usage sniffer, the collector of the whole answer, the ledger of the answering hop. *)
  Use : Type; Sn : Type; sn_new : Sn; sn_feed : Sn -> string -> Sn; sn_finish : Sn -> option Use;
  Co : Type; co_process : Co -> string -> Co; co_finish : Co -> option string;
  Le : Type;
  (** The converter to the client's format. *)
  Cv : Type; cv_process : Cv -> string -> Cv * string; cv_finish : Cv -> Cv * string; cv_fail : Cv -> string -> Cv * string;
  (** [StreamShaper]. *)
  Sh : Type; sh_process : Sh -> string -> Sh * string; sh_finish : Sh -> Sh * string; sh_rename : Sh -> string -> string;
  sh_restore_with : Sh -> Le -> Sh;
  (** [StreamInspector]: what it stops at, and how much before it may go out. *)
  In : Type; in_check : In -> string -> In * option (GatewayError * nat); in_finish : In -> In * option GatewayError;
  (** Bedrock's frames to SSE: damaged frames, and exceptions it reports. *)
  Un : Type; un_new : Un; un_feed : Un -> string -> Un * result (string * option (string * string)) string;
  Effort : Type;
}.

Section Pump.
Context (L : stream_libs).

Definition said_in (upstream : Dialect) (f : Frame) : option Said :=
  if negb (stream_error L upstream f) then None
  else
    let v := match from_str L (trim (fr_data f)) with
             | Some (JArr [v]) => v
             | Some v => v
             | None => JNull
             end in
    error ← error_in upstream (fr_event f) v;
    Some {| sd_message := message_of error; sd_status := error ≫= status_of; sd_sealed := refused (fun d => bool_decide (d = Responses)) (sealed_words L) upstream (fr_data f) |}.

Definition first_said (upstream : Dialect) (frames : list Frame) : option Said := head (omap (said_in upstream) frames).

(** *** [ErrorWatch] and [Readers] *)

Record ErrorWatch := { ew_upstream : Dialect; ew_frames : Fr L }.
Definition ErrorWatch_new (upstream : Dialect) : ErrorWatch := {| ew_upstream := upstream; ew_frames := fr_new L |}.
Definition ew_feed (w : ErrorWatch) (chunk : string) : ErrorWatch * option Said :=
  let '(fr, frames) := fr_feed L (ew_frames w) chunk in
  ({| ew_upstream := ew_upstream w; ew_frames := fr |}, first_said (ew_upstream w) frames).
Definition ew_flush (w : ErrorWatch) : ErrorWatch * option Said :=
  let '(fr, frames) := fr_flush L (ew_frames w) in
  ({| ew_upstream := ew_upstream w; ew_frames := fr |}, first_said (ew_upstream w) frames).

Record Readers := {
  rr_sniffer : option (Sn L);
  rr_collector : option (Co L);
  rr_errors : option ErrorWatch;
  rr_ledger : option (Le L);
  rr_said : option Said;
}.
Definition no_readers : Readers := {| rr_sniffer := None; rr_collector := None; rr_errors := None; rr_ledger := None; rr_said := None |}.
Definition readers_feed (chunk : string) (r : Readers) : Readers :=
  let '(errors, said) :=
    match rr_errors r with
    | None => (None, rr_said r)
    | Some w => let '(w, s) := ew_feed w chunk in match s with Some s => (None, Some s) | None => (Some w, rr_said r) end
    end in
  {| rr_sniffer := (fun s => sn_feed L s chunk) <$> rr_sniffer r; rr_collector := (fun c => co_process L c chunk) <$> rr_collector r;
     rr_errors := errors; rr_ledger := rr_ledger r; rr_said := said |}.
Definition sealed_refusal (r : Readers) : option Said := s ← rr_said r; if sd_sealed s then Some s else None.
Definition set_errors (errors : option ErrorWatch) (said : option Said) (r : Readers) : Readers :=
  {| rr_sniffer := rr_sniffer r; rr_collector := rr_collector r; rr_errors := errors; rr_ledger := rr_ledger r; rr_said := said |}.
Definition reported (ended : bool) (r : Readers) : Readers * option Said :=
  let r :=
    match ended, rr_said r, rr_errors r with
    | true, None, Some w =>
        let '(w, s) := ew_flush w in match s with Some s => set_errors None (Some s) r | None => set_errors (Some w) None r end
    | _, _, _ => r
    end in
  (r, rr_said r).
Definition upstream_error (r : Readers) : Readers * option Said :=
  let said := match rr_errors r with
              | Some w => match rr_said r with Some s => Some s | None => (ew_flush w).2 end
              | None => rr_said r
              end in
  (set_errors None None r, said).

(** *** The outcome of an error *)

Definition status_error (status : Z) (retry_after : option Z) (message : string) : GatewayError :=
  if status =? 429 then UpstreamRateLimited ((fun d => Z.min (d / sec) u32_max) <$> retry_after)
  else if (status =? 401) || (status =? 403) then UpstreamAuthError status message
  else ProviderHttpError status message retry_after.

Definition error_outcome (e : GatewayError) : StreamOutcome := UpstreamError (error_tag e) (err_text L e) (status_code e).
Definition sealed_refused (provider : string) (said : Said) : GatewayError :=
  SealedHistoryRefused (default 400 (sd_status said)) provider (take_chars 500 (sd_message said)).
Definition outcome_of (provider : string) (said : Said) : StreamOutcome :=
  let words := take_chars 500 (sd_message said) in
  if sd_sealed said then error_outcome (sealed_refused provider said)
  else
    let what := provider +:+ " reported an error partway through the answer: " +:+ words in
    let e := match sd_status said with Some status => status_error status None what | None => ProviderError what end in
    let message :=
      match e with
      | UpstreamRateLimited _ => err_text L e +:+ ": " +:+ what
      | UpstreamAuthError _ _ => err_text L e +:+ ": " +:+ provider +:+ " reported it partway through the answer"
      | _ => err_text L e
      end in
    UpstreamError (error_tag e) message (status_code e).

Definition broke_off (message : string) : string * StreamOutcome := (message, UpstreamError "transport" message 502).
Definition bedrock_status (kind : string) : Z :=
  default 500 ((fun p => p.2.2) <$> list_find (fun p => to_ascii_lowercase p.1 = to_ascii_lowercase kind)
    [("throttlingException", 429); ("serviceUnavailableException", 503); ("validationException", 400);
     ("accessDeniedException", 403); ("modelTimeoutException", 504)]).
(** The text of the error, and the exception when Bedrock reported one. *)
Definition bedrock_ended (provider : string) (e : string * option (string * string)) : string * StreamOutcome :=
  let told := "Bedrock ended the stream: " +:+ e.1 in
  match e.2 with
  | None => broke_off told
  | Some (kind, message) =>
      (told, outcome_of provider {| sd_message := kind +:+ ": " +:+ message; sd_status := Some (bedrock_status kind); sd_sealed := false |})
  end.

(** *** The opening held back, and the answer's last frame *)

Definition OPENING_MAX : Z := 1024 * 1024.
Record Opening := { op_reader : Rd L; op_held : string }.
Definition Opening_new (upstream : Dialect) : Opening := {| op_reader := rd_new L upstream; op_held := "" |}.
Fixpoint content_before_error (events : list Event) : bool :=
  match events with
  | [] | EvError :: _ => false
  | EvStart :: events | EvUsage :: events => content_before_error events
  | _ :: _ => true
  end.
Definition opening_feed (chunk : string) (o : Opening) : Opening * bool :=
  let held := op_held o +:+ chunk in
  let '(rd, events) := rd_feed L (op_reader o) chunk in
  ({| op_reader := rd; op_held := held |}, content_before_error events || (OPENING_MAX <? Z.of_nat (String.length held))).

Record LastFrame := { lf_client : Dialect; lf_frames : option (Fr L) }.
Definition LastFrame_new (client : Dialect) (client_sse : bool) : LastFrame :=
  {| lf_client := client;
     lf_frames := if client_sse && negb (bool_decide (client = Gemini \/ client = Bedrock)) then Some (fr_new L) else None |}.
Definition is_in (out : string) (f : LastFrame) : LastFrame * bool :=
  match lf_frames f with
  | None => (f, false)
  | Some fr =>
      let '(fr, frames) := fr_feed L fr out in
      let found := existsb (ends_answer L (lf_client f)) frames in
      ({| lf_client := lf_client f; lf_frames := if found then None else Some fr |}, found)
  end.

Definition error_frame (client : Dialect) (status : Z) (message : string) : string :=
  error_frame_text L client (if (0 <=? status) && (status <=? u16_max) then status else 502) message.
Definition keeps_alive (client : Dialect) : bool := bool_decide (client <> Gemini).

(** *** The pump *)

Record wire := { wi_dialect : Dialect; wi_convert : option (Cv L); wi_collector : Co L; wi_ledger : Le L; wi_effort : option (Effort L) }.
Record Sent := { se_retries : Z; se_last_sent : Z; se_waiting : bool; se_effort : option (Effort L); se_too_slow : option Z }.

Record stream_attempt := {
  at_dialect : Dialect;
  at_convert : option (Cv L);
  at_unframe : option (Un L);
  at_hold : option Opening;
  at_speed : option (SpeedWatch Dialect (Rd L) (Fr L));
}.
(** Where the pump waits: before the next attempt, for the upstream to answer, for its next
    bytes; after the opening that ends a broken stream; after the opening of a stream that ended. *)
Inductive pump_phase :=
  | PBackoff | POpening | PStreaming (a : stream_attempt) | PBreaking (a : stream_attempt) (message : string) (o : StreamOutcome)
  | PFinishing (a : stream_attempt) | PDone.

Record chat_pump := {
  pm_shaper : Sh L;
  pm_inspector : option (In L);
  pm_budget : Budget;
  pm_readers : Readers;
  pm_sent : Sent;
  pm_last_frame : LastFrame;
  pm_delivered : bool;
  pm_told : option StreamOutcome;
  pm_phase : pump_phase;
}.

(** What the client is sent: a keep-alive comment, or bytes. *)
Inductive piece := KeepAlive | Out (bytes : string).

Definition set_pump_phase (p : pump_phase) (s : chat_pump) : chat_pump :=
  {| pm_shaper := pm_shaper s; pm_inspector := pm_inspector s; pm_budget := pm_budget s; pm_readers := pm_readers s; pm_sent := pm_sent s;
     pm_last_frame := pm_last_frame s; pm_delivered := pm_delivered s; pm_told := pm_told s; pm_phase := p |}.
Definition set_readers (r : Readers) (s : chat_pump) : chat_pump :=
  {| pm_shaper := pm_shaper s; pm_inspector := pm_inspector s; pm_budget := pm_budget s; pm_readers := r; pm_sent := pm_sent s;
     pm_last_frame := pm_last_frame s; pm_delivered := pm_delivered s; pm_told := pm_told s; pm_phase := pm_phase s |}.
Definition set_sent (x : Sent) (s : chat_pump) : chat_pump :=
  {| pm_shaper := pm_shaper s; pm_inspector := pm_inspector s; pm_budget := pm_budget s; pm_readers := pm_readers s; pm_sent := x;
     pm_last_frame := pm_last_frame s; pm_delivered := pm_delivered s; pm_told := pm_told s; pm_phase := pm_phase s |}.
Definition set_shaper (x : Sh L) (s : chat_pump) : chat_pump :=
  {| pm_shaper := x; pm_inspector := pm_inspector s; pm_budget := pm_budget s; pm_readers := pm_readers s; pm_sent := pm_sent s;
     pm_last_frame := pm_last_frame s; pm_delivered := pm_delivered s; pm_told := pm_told s; pm_phase := pm_phase s |}.
Definition set_inspector (x : option (In L)) (s : chat_pump) : chat_pump :=
  {| pm_shaper := pm_shaper s; pm_inspector := x; pm_budget := pm_budget s; pm_readers := pm_readers s; pm_sent := pm_sent s;
     pm_last_frame := pm_last_frame s; pm_delivered := pm_delivered s; pm_told := pm_told s; pm_phase := pm_phase s |}.
Definition set_budget (b : Budget) (s : chat_pump) : chat_pump :=
  {| pm_shaper := pm_shaper s; pm_inspector := pm_inspector s; pm_budget := b; pm_readers := pm_readers s; pm_sent := pm_sent s;
     pm_last_frame := pm_last_frame s; pm_delivered := pm_delivered s; pm_told := pm_told s; pm_phase := pm_phase s |}.
Definition set_last_frame (f : LastFrame) (delivered : bool) (s : chat_pump) : chat_pump :=
  {| pm_shaper := pm_shaper s; pm_inspector := pm_inspector s; pm_budget := pm_budget s; pm_readers := pm_readers s; pm_sent := pm_sent s;
     pm_last_frame := f; pm_delivered := delivered; pm_told := pm_told s; pm_phase := pm_phase s |}.
(** [tell]: only the first outcome counts. *)
Definition tell (o : StreamOutcome) (s : chat_pump) : chat_pump :=
  {| pm_shaper := pm_shaper s; pm_inspector := pm_inspector s; pm_budget := pm_budget s; pm_readers := pm_readers s; pm_sent := pm_sent s;
     pm_last_frame := pm_last_frame s; pm_delivered := pm_delivered s;
     pm_told := match pm_told s with Some t => Some t | None => Some o end; pm_phase := pm_phase s |}.

(** What an event brings with it: the clock, the jitter of a wait, whether the route takes the
    request again, and whether the memory admits the chunk. *)
Record moment := { mo_now : Z; mo_jitter : f64; mo_admitted : bool; mo_memory : bool }.

Context (client : Dialect) (provider : string) (min_speed : option MinSpeed).

(** [resending], after [Resend::admit] took the request again. *)
Definition resending (m : moment) (s : chat_pump) : chat_pump :=
  let b := Retry.sent (pm_budget s) in
  set_pump_phase PBackoff
    (set_readers no_readers
      (set_sent {| se_retries := retries b; se_last_sent := mo_now m; se_waiting := true; se_effort := None; se_too_slow := None |}
        (set_budget b s))).

(** The end: the outcome is told, and these are the last bytes. *)
Definition end_stream (o : StreamOutcome) (out : string) (s : chat_pump) : chat_pump * list piece := (set_pump_phase PDone (tell o s), [Out out]).

(** The converter's [fail], or a frame of its own. *)
Definition refusal_of (convert : option (Cv L)) (status : Z) (message : string) : string :=
  match convert with Some c => (cv_fail L c message).2 | None => error_frame client status message end.
(** [cut]: what may go out, then the refusal. *)
Definition cut (sh : Sh L) (convert : option (Cv L)) (safe : string) (err : GatewayError) : string :=
  safe +:+ sh_rename L sh (refusal_of convert (status_code err) (err_text L err)).
Definition refuse_stream (convert : option (Cv L)) (err : GatewayError) (s : chat_pump) : chat_pump * list piece :=
  end_stream (error_outcome err) (cut (pm_shaper s) convert "" err) s.

(** [deliver]: what the client gets for [chunk], or where the inspection stops it. *)
Definition deliver (chunk : string) (convert : option (Cv L)) (s : chat_pump) : option (Cv L) * chat_pump * (string + GatewayError * string) :=
  let '(convert, bytes) := match convert with Some c => let '(c, b) := cv_process L c chunk in (Some c, b) | None => (None, chunk) end in
  let '(sh, out) := sh_process L (pm_shaper s) bytes in
  let s := set_shaper sh s in
  match pm_inspector s with
  | None => (convert, s, inl out)
  | Some i =>
      let '(i, stop) := in_check L i out in
      let s := set_inspector (Some i) s in
      match stop with
      | Some (err, safe) => (convert, s, inr (err, cut sh convert (String.substring 0 safe out) err))
      | None => (convert, s, inl out)
      end
  end.

(** The last frame is looked for in bytes that go out. *)
Definition note_delivered (out : string) (s : chat_pump) : chat_pump :=
  if decide (out = "") then s
  else let '(f, found) := is_in out (pm_last_frame s) in set_last_frame f (pm_delivered s || found) s.
Definition pieces_of (out : string) : list piece := if decide (out = "") then [] else [Out out].

Definition with_convert (c : option (Cv L)) (a : stream_attempt) : stream_attempt :=
  {| at_dialect := at_dialect a; at_convert := c; at_unframe := at_unframe a; at_hold := at_hold a; at_speed := at_speed a |}.
Definition with_hold (h : option Opening) (a : stream_attempt) : stream_attempt :=
  {| at_dialect := at_dialect a; at_convert := at_convert a; at_unframe := at_unframe a; at_hold := h; at_speed := at_speed a |}.
Definition with_unframe (u : option (Un L)) (a : stream_attempt) : stream_attempt :=
  {| at_dialect := at_dialect a; at_convert := at_convert a; at_unframe := u; at_hold := at_hold a; at_speed := at_speed a |}.

Definition speed_dialects : dialects Dialect (Rd L) (Fr L) := {|
  dl_Chat := Chat; dl_Responses := Responses; dl_reader_new := rd_new L; dl_reader_feed := rd_feed L; dl_frames_new := fr_new L;
  dl_frames_feed := fr_feed L; dl_ends_answer := ends_answer L; dl_from_str := from_str L |}.
Definition with_speed (w : option (SpeedWatch Dialect (Rd L) (Fr L))) (a : stream_attempt) : stream_attempt :=
  {| at_dialect := at_dialect a; at_convert := at_convert a; at_unframe := at_unframe a; at_hold := at_hold a; at_speed := w |}.

(** The wait before sending again, if the error is one for the moment and the route takes the
    request again. *)
Definition again (w : option Z) (m : moment) : bool := match w with Some _ => mo_admitted m | None => false end.
Definition retry_after_said (m : moment) (said : Said) (s : chat_pump) : option Z :=
  match outcome_of provider said with
  | UpstreamError error_type _ status_code => wait_after_outcome (mo_now m) (mo_jitter m) error_type status_code (pm_budget s)
  | _ => None
  end.

(** An attempt goes out: what an attempt that failed had read is forgotten. *)
Definition go_out (now : Z) (s : chat_pump) : chat_pump :=
  set_pump_phase POpening (set_readers no_readers
    (set_sent {| se_retries := retries (pm_budget s); se_last_sent := now; se_waiting := false; se_effort := None; se_too_slow := None |} s)).

(** The upstream answered, or refused. *)
Definition on_opened (m : moment) (r : result GatewayError wire) (s : chat_pump) : chat_pump * list piece :=
  match r with
  | Err e =>
      if again (wait_after (mo_now m) (mo_jitter m) e (pm_budget s)) m then (resending m s, [])
      else
        let '(sh, out) := sh_process L (pm_shaper s) (error_frame client (status_code e) (err_text L e)) in
        let '(sh, rest) := sh_finish L sh in
        end_stream (error_outcome e) (out +:+ rest) (set_shaper sh s)
  | Ok w =>
      let x := pm_sent s in
      let s := set_sent {| se_retries := se_retries x; se_last_sent := se_last_sent x; se_waiting := se_waiting x;
                           se_effort := wi_effort w; se_too_slow := se_too_slow x |} s in
      let s := set_readers {| rr_sniffer := Some (sn_new L); rr_collector := Some (wi_collector w);
                              rr_errors := Some (ErrorWatch_new (wi_dialect w)); rr_ledger := Some (wi_ledger w); rr_said := None |} s in
      let s := set_shaper (sh_restore_with L (pm_shaper s) (wi_ledger w)) s in
      let a := {| at_dialect := wi_dialect w; at_convert := wi_convert w;
                  at_unframe := if decide (wi_dialect w = Bedrock) then Some (un_new L) else None;
                  at_hold := if budget_open (mo_now m) (pm_budget s) then Some (Opening_new (wi_dialect w)) else None;
                  at_speed := (fun m => SpeedWatch_new speed_dialects m (wi_dialect w)) <$> min_speed |} in
      (set_pump_phase (PStreaming a) s, [])
  end.

(** The last bytes of a stream that ended, inspected as the others. *)
Definition finish_stream (a : stream_attempt) (s : chat_pump) : chat_pump * list piece :=
  let tail := match at_convert a with Some c => (cv_finish L c).2 | None => "" end in
  let '(sh, out) := sh_process L (pm_shaper s) tail in
  let '(sh, rest) := sh_finish L sh in
  let out := out +:+ rest in
  let s := set_shaper sh s in
  let '(i, stop) :=
    match pm_inspector s with
    | None => (None, None)
    | Some i =>
        let '(i, stop) := in_check L i out in
        match stop with
        | Some stop => (Some i, Some stop)
        | None => let '(i, err) := in_finish L i in (Some i, (fun err => (err, 0%nat)) <$> err)
        end
    end in
  let s := set_inspector i s in
  match stop with
  | Some (err, safe) => end_stream (error_outcome err) (cut (pm_shaper s) None (String.substring 0 safe out) err) s
  | None =>
      let '(r, said) := upstream_error (pm_readers s) in
      let o := match said with Some said => outcome_of provider said | None => Natural end in
      (set_pump_phase PDone (tell o (set_readers r s)), pieces_of out)
  end.

(** The upstream's stream ended. *)
Definition on_end (m : moment) (a : stream_attempt) (s : chat_pump) : chat_pump * list piece :=
  match at_hold a with
  | None => finish_stream a s
  | Some h =>
      let '(r, said) := reported true (pm_readers s) in
      let s := set_readers r s in
      if match said with Some said => again (retry_after_said m said s) m | None => false end then (resending m s, [])
      else
        let '(c, s, delivered) := deliver (op_held h) (at_convert a) s in
        let a := with_hold None (with_convert c a) in
        match delivered with
        | inr (err, out) => end_stream (error_outcome err) out s
        | inl out =>
            if decide (out = "") then finish_stream a s
            else (set_pump_phase (PFinishing a) (note_delivered out s), [Out out])
        end
  end.

(** The stream is said to have failed, in the caller's own format. *)
Definition fail_stream (a : stream_attempt) (message : string) (o : StreamOutcome) (s : chat_pump) : chat_pump * list piece :=
  let '(sh, out) := sh_process L (pm_shaper s) (refusal_of (at_convert a) 502 message) in
  let '(sh, rest) := sh_finish L sh in
  end_stream o (out +:+ rest) (set_shaper sh s).

(** The stream broke off. *)
Definition on_broken (m : moment) (a : stream_attempt) (message : string) (o : StreamOutcome) (s : chat_pump) : chat_pump * list piece :=
  match at_hold a with
  | None => fail_stream a message o s
  | Some h =>
      let wait := match o with
                  | UpstreamError error_type _ status_code => wait_after_outcome (mo_now m) (mo_jitter m) error_type status_code (pm_budget s)
                  | _ => None
                  end in
      if again wait m then (resending m s, [])
      else
        let '(c, s, delivered) := deliver (op_held h) (at_convert a) s in
        let a := with_hold None (with_convert c a) in
        match delivered with
        | inr (err, out) => end_stream (error_outcome err) out s
        | inl out => if decide (out = "") then fail_stream a message o s else (set_pump_phase (PBreaking a message o) s, [Out out])
        end
  end.

(** A piece of the upstream's bytes, unframed. *)
Definition pump_chunk (m : moment) (chunk : string) (a : stream_attempt) (s : chat_pump) : chat_pump * list piece :=
  if negb (mo_memory m) then refuse_stream (at_convert a) (rate_limited "gateway_memory" 1) s
  else
    let a := with_speed (SpeedWatch.feed speed_dialects chunk (mo_now m) <$> at_speed a) a in
    let '(r, said) := reported false (readers_feed chunk (pm_readers s)) in
    let s := set_readers r s in
    match sealed_refusal r with
    | Some said => refuse_stream (at_convert a) (sealed_refused provider said) s
    | None =>
        let send bytes a :=
          let '(c, s, delivered) := deliver bytes (at_convert a) s in
          match delivered with
          | inr (err, out) => end_stream (error_outcome err) out s
          | inl out => (set_pump_phase (PStreaming (with_convert c a)) (note_delivered out s), pieces_of out)
          end in
        match at_hold a with
        | None => send chunk a
        | Some h =>
            let '(h, content) := opening_feed chunk h in
            if content then send (op_held h) (with_hold None a)
            else match said with
                 | None => (set_pump_phase (PStreaming (with_hold (Some h) a)) s, [])
                 | Some said =>
                     if again (retry_after_said m said s) m then (resending m s, [])
                     else send (op_held h) (with_hold None a)
                 end
        end
    end.

(** A piece as the connection gives it. *)
Definition on_item (m : moment) (item : result string string) (a : stream_attempt) (s : chat_pump) : chat_pump * list piece :=
  match item with
  | Err e => let '(message, o) := broke_off ("The upstream stream broke off: " +:+ e) in on_broken m a message o s
  | Ok raw =>
      match at_unframe a with
      | None => pump_chunk m raw a s
      | Some u =>
          let '(u, r) := un_feed L u raw in
          let a := with_unframe (Some u) a in
          match r with
          | Ok chunk => pump_chunk m chunk a s
          | Err e => let '(message, o) := bedrock_ended provider e in on_broken m a message o s
          end
      end
  end.

(** A second to judge the stream's speed. *)
Definition on_judge (now : Z) (a : stream_attempt) (s : chat_pump) : chat_pump * list piece :=
  match at_speed a with
  | None => (s, [])
  | Some w =>
      if negb (started w) then (s, [])
      else
        let '(w, slow) := too_slow now w in
        let a := with_speed (Some w) a in
        match slow with
        | None => (set_pump_phase (PStreaming a) s, [])
        | Some rate =>
            let err := UpstreamTooSlow provider rate (ms_tokens_per_sec (sw_min w)) (ms_window_secs (sw_min w)) in
            let '(sh, out) := sh_process L (pm_shaper s) (error_frame client (status_code err) (err_text L err)) in
            let '(sh, rest) := sh_finish L sh in
            let x := pm_sent s in
            let s := set_sent {| se_retries := se_retries x; se_last_sent := se_last_sent x; se_waiting := se_waiting x;
                                 se_effort := se_effort x; se_too_slow := Some rate |} (set_shaper sh s) in
            end_stream (error_outcome err) (out +:+ rest) s
        end
  end.

(** What resumes the pump.  [PollNext]: the client takes what comes after a piece. *)
Inductive pump_event :=
  | Waited (now : Z)
  | Quiet
  | Opened (m : moment) (r : result GatewayError wire)
  | Item (m : moment) (item : result string string)
  | Ended (m : moment)
  | Judge (now : Z)
  | PollNext.

Definition pump_step (s : chat_pump) (e : pump_event) : chat_pump * list piece :=
  match pm_phase s, e with
  | PBackoff, Waited now => (go_out now s, [])
  | PBackoff, Quiet => (s, if keeps_alive client then [KeepAlive] else [])
  | POpening, Opened m r => on_opened m r s
  | POpening, Quiet => (s, if (0 <? retries (pm_budget s)) && keeps_alive client then [KeepAlive] else [])
  | PStreaming a, Item m item => on_item m item a s
  | PStreaming a, Ended m => on_end m a s
  | PStreaming a, Judge now => on_judge now a s
  | PStreaming a, Quiet => (s, match at_hold a with Some _ => if keeps_alive client then [KeepAlive] else [] | None => [] end)
  | PBreaking a message o, PollNext => fail_stream a message o s
  | PFinishing a, PollNext => finish_stream a s
  | _, _ => (s, [])
  end.
Fixpoint pump_run (s : chat_pump) (events : list pump_event) : chat_pump * list piece :=
  match events with
  | [] => (s, [])
  | e :: events => let '(s, out) := pump_step s e in let '(s, rest) := pump_run s events in (s, out ++ rest)
  end.

(** The first poll sends the first attempt at once. *)
Definition build_chat_pump (sh : Sh L) (inspector : option (In L)) (budget : Budget) (client_sse : bool) (now : Z) : chat_pump :=
  go_out now
    {| pm_shaper := sh; pm_inspector := inspector; pm_budget := budget; pm_readers := no_readers;
       pm_sent := {| se_retries := 0; se_last_sent := now; se_waiting := false; se_effort := None; se_too_slow := None |};
       pm_last_frame := LastFrame_new client client_sse; pm_delivered := false; pm_told := None; pm_phase := POpening |}.

(** What the tail makes of the end: the outcome told, or the client's leaving. *)
Definition tail_outcome (s : chat_pump) : StreamOutcome :=
  match pm_told s with
  | Some o => o
  | None =>
      match (upstream_error (pm_readers s)).2 with
      | Some said => outcome_of provider said
      | None => if pm_delivered s then Natural else ClientCancelled
      end
  end.
End Pump.
#[global] Arguments ew_upstream {_}.
#[global] Arguments ew_frames {_}.
#[global] Arguments rr_sniffer {_}.
#[global] Arguments rr_collector {_}.
#[global] Arguments rr_errors {_}.
#[global] Arguments rr_ledger {_}.
#[global] Arguments rr_said {_}.
#[global] Arguments op_reader {_}.
#[global] Arguments op_held {_}.
#[global] Arguments lf_client {_}.
#[global] Arguments lf_frames {_}.
#[global] Arguments wi_dialect {_}.
#[global] Arguments wi_convert {_}.
#[global] Arguments wi_collector {_}.
#[global] Arguments wi_ledger {_}.
#[global] Arguments wi_effort {_}.
#[global] Arguments se_retries {_}.
#[global] Arguments se_last_sent {_}.
#[global] Arguments se_waiting {_}.
#[global] Arguments se_effort {_}.
#[global] Arguments se_too_slow {_}.
#[global] Arguments at_dialect {_}.
#[global] Arguments at_convert {_}.
#[global] Arguments at_unframe {_}.
#[global] Arguments at_hold {_}.
#[global] Arguments at_speed {_}.
#[global] Arguments pm_shaper {_}.
#[global] Arguments pm_inspector {_}.
#[global] Arguments pm_budget {_}.
#[global] Arguments pm_readers {_}.
#[global] Arguments pm_sent {_}.
#[global] Arguments pm_last_frame {_}.
#[global] Arguments pm_delivered {_}.
#[global] Arguments pm_told {_}.
#[global] Arguments pm_phase {_}.
#[global] Arguments Build_wire {_}.
#[global] Arguments PBackoff {_}.
#[global] Arguments POpening {_}.
#[global] Arguments PStreaming {_}.
#[global] Arguments PBreaking {_}.
#[global] Arguments PFinishing {_}.
#[global] Arguments PDone {_}.
#[global] Arguments set_pump_phase {_}.
#[global] Arguments set_readers {_}.
#[global] Arguments set_sent {_}.
#[global] Arguments set_shaper {_}.
#[global] Arguments set_inspector {_}.
#[global] Arguments set_budget {_}.
#[global] Arguments set_last_frame {_}.
#[global] Arguments tell {_}.
#[global] Arguments resending {_}.
#[global] Arguments end_stream {_}.
#[global] Arguments with_hold {_}.
#[global] Arguments with_convert {_}.
#[global] Arguments with_speed {_}.
#[global] Arguments with_unframe {_}.
#[global] Arguments Waited {_}.
#[global] Arguments Quiet {_}.
#[global] Arguments Opened {_}.
#[global] Arguments Item {_}.
#[global] Arguments Ended {_}.
#[global] Arguments Judge {_}.
#[global] Arguments PollNext {_}.
