(* ===== verification/StreamPumpSpec.v ===== *)
(** * What a client sees of a stream

    A retry is invisible: nothing of an attempt that is sent again reached the client, and what
    is held back meanwhile is bounded.  An error the upstream reports fails the request however
    the stream ends.  And a stream ended as natural gave the client what the converter and the
    shaper make of its last attempt's bytes, all of them, in order and once. *)

From S2P Require Import Prelude Interfaces Float64 GatewayDeps Text GatewayError Retry Lifecycle Sealed McpRegistry SpeedWatch StreamPump.

Section Steps.
Context (L : stream_libs) (client : Dialect) (provider : string) (min_speed : option MinSpeed).
Abbreviation chat_pump := (chat_pump L).
Abbreviation step := (pump_step L client provider min_speed).
Abbreviation run := (pump_run L client provider min_speed).
Implicit Types (s : chat_pump) (a : stream_attempt L) (out : list piece).

Definition is_error (o : StreamOutcome) : Prop := exists t m c, o = UpstreamError t m c.
Lemma error_outcome_error e : is_error (error_outcome L e).
Proof. unfold error_outcome. by do 3 eexists. Qed.
Lemma outcome_of_error said : is_error (outcome_of L provider said).
Proof. unfold outcome_of. destruct (sd_sealed said); [apply error_outcome_error|]. by do 3 eexists. Qed.
Lemma broke_off_error msg : is_error (broke_off msg).2.
Proof. by do 3 eexists. Qed.
Lemma bedrock_ended_error e : is_error (bedrock_ended L provider e).2.
Proof. unfold bedrock_ended. destruct e.2 as [[kind msg]|]; [apply outcome_of_error|apply broke_off_error]. Qed.

(** What a step may change besides the phase: what is told, the budget and what the upstream
    said stay. *)
Record core s s0 : Prop := {
  co_told : pm_told s0 = pm_told s;
  co_budget : pm_budget s0 = pm_budget s;
  co_said : is_Some (rr_said (pm_readers s)) -> is_Some (rr_said (pm_readers s0));
}.
#[local] Instance core_refl : Reflexive core.
Proof. by split. Qed.
Lemma core_trans s s1 s2 : core s s1 -> core s1 s2 -> core s s2.
Proof. intros [??H1] [??H2]. split; [congruence..|]. auto. Qed.

(** How a step from a stream under way ends; [hold] is whether the opening was still held. *)
Inductive stepped s (hold : bool) : chat_pump * list piece -> Prop :=
  | st_again m s0 : hold = true -> core s s0 -> stepped s hold (resending m s0, [])
  | st_end o bytes s0 : is_error o -> core s s0 -> stepped s hold (end_stream o bytes s0)
  | st_stream a s0 out : core s s0 ->
      (forall h, at_hold a = Some h -> hold = true /\ out = [] /\ Z.of_nat (String.length (op_held h)) <= OPENING_MAX) ->
      stepped s hold (set_pump_phase (PStreaming a) s0, out)
  | st_breaking a msg o s0 out : core s s0 -> is_error o -> stepped s hold (set_pump_phase (PBreaking a msg o) s0, out)
  | st_finishing a s0 out : core s s0 -> stepped s hold (set_pump_phase (PFinishing a) s0, out)
  | st_finished o s0 r out : core s s0 -> (is_error o \/ o = Natural /\ rr_said (pm_readers s0) = None) ->
      stepped s hold (set_pump_phase (PDone) (tell o (set_readers r s0)), out).

Lemma stepped_core s s0 hold r : core s s0 -> stepped s0 hold r -> stepped s hold r.
Proof. intros Hc Hs. destruct Hs; constructor; eauto using core_trans. Qed.

Lemma deliver_core chunk c s : let '(_, s', _) := deliver L client chunk c s in core s s'.
Proof.
  unfold deliver. destruct c as [c|]; [destruct (cv_process L c chunk) as [c' b]|]; destruct (sh_process _ _ _) as [sh o];
    simpl; (destruct (pm_inspector _) as [i|]; [destruct (in_check _ _ _) as [i' [[err safe]|]]|]); by split.
Qed.
Lemma note_delivered_core o s : core s (note_delivered L o s).
Proof. unfold note_delivered. case_decide; [done|]. destruct (is_in _ _ _). by split. Qed.

Lemma finish_stream_stepped a s hold : stepped s hold (finish_stream L client provider a s).
Proof.
  unfold finish_stream. destruct (sh_process _ _ _) as [sh o1]. destruct (sh_finish _ _) as [sh2 o2].
  match goal with |- context [let '(i, stop) := ?x in _] => destruct x as [i [[err safe]|]] end; [apply st_end; [apply error_outcome_error|by split]|].
  destruct (upstream_error _ _) as [r said] eqn:Hu. apply st_finished; [by split|]. destruct said as [said|]; [left; apply outcome_of_error|right].
  split; [done|]. unfold upstream_error in Hu. simpl in *. destruct (rr_errors _) as [w|]; [destruct (rr_said _); [done|by destruct (ew_flush _ w)]|].
  by injection Hu.
Qed.
Lemma fail_stream_stepped a msg o s hold : is_error o -> stepped s hold (fail_stream L client a msg o s).
Proof. intros Ho. unfold fail_stream. destruct (sh_process _ _ _), (sh_finish _ _). by apply st_end. Qed.

Lemma reported_core ended s : let '(r, said) := reported L ended (pm_readers s) in core s (set_readers r s).
Proof.
  unfold reported. destruct ended; simpl; [|by destruct s]. destruct (rr_said _) as [x|] eqn:E; [split; try done; simpl; by rewrite E|].
  destruct (rr_errors _) as [w|]; [destruct (ew_flush _ w) as [w' [s'|]]|]; split; try done; simpl; congruence.
Qed.
Lemma on_end_stepped m a s : stepped s (bool_decide (is_Some (at_hold a))) (on_end L client provider m a s).
Proof.
  unfold on_end. destruct (at_hold a) as [h|]; [|apply finish_stream_stepped].
  pose proof (reported_core true s) as Hr. destruct (reported L true _) as [r said]. apply (stepped_core _ _ _ _ Hr).
  match goal with |- context [if ?b then _ else _] => destruct b end; [by apply st_again|].
  pose proof (deliver_core (op_held h) (at_convert a) (set_readers r s)) as Hd. destruct (deliver _ _ _ _ _) as [[c s'] d].
  apply (stepped_core _ _ _ _ Hd). destruct d as [o|[err o]]; [|apply st_end; [apply error_outcome_error|done]].
  case_decide; [apply finish_stream_stepped|apply st_finishing, note_delivered_core].
Qed.
Lemma on_broken_stepped m a msg o s : is_error o -> stepped s (bool_decide (is_Some (at_hold a))) (on_broken L client m a msg o s).
Proof.
  intros Ho. unfold on_broken. destruct (at_hold a) as [h|]; [|by apply fail_stream_stepped].
  match goal with |- context [if ?b then _ else _] => destruct b end; [by apply st_again|].
  pose proof (deliver_core (op_held h) (at_convert a) s) as Hd. destruct (deliver _ _ _ _ _) as [[c s'] d].
  apply (stepped_core _ _ _ _ Hd). destruct d as [o'|[err o']]; [|apply st_end; [apply error_outcome_error|done]].
  case_decide; [by apply fail_stream_stepped|by apply st_breaking].
Qed.
Lemma refuse_stepped c err s hold : stepped s hold (refuse_stream L client c err s).
Proof. unfold refuse_stream. apply st_end; [apply error_outcome_error|done]. Qed.
Lemma feed_core chunk s : core s (set_readers (readers_feed L chunk (pm_readers s)) s).
Proof.
  split; try done. simpl. intros [x Hx]. unfold readers_feed. rewrite Hx. destruct (rr_errors _) as [w|]; simpl; [|done].
  by destruct (ew_feed _ w chunk) as [w' [y|]].
Qed.
Lemma opening_feed_held chunk h : let '(h', content) := opening_feed L chunk h in
  op_held h' = op_held h +:+ chunk /\ (content = false -> Z.of_nat (String.length (op_held h')) <= OPENING_MAX).
Proof.
  unfold opening_feed. destruct (rd_feed _ _ _) as [rd events]. simpl. split; [done|]. intros Hc%orb_false_iff. destruct Hc as [_ Hc]. by zbool.
Qed.

Lemma on_chunk_stepped m chunk a s : stepped s (bool_decide (is_Some (at_hold a))) (pump_chunk L client provider m chunk a s).
Proof.
  unfold pump_chunk. destruct (negb (mo_memory m)); [apply refuse_stepped|].
  set (a' := with_speed _ a). assert (Hh : at_hold a' = at_hold a) by done. rewrite <- Hh. clearbody a'.
  pose proof (feed_core chunk s) as Hc. set (r := readers_feed L chunk (pm_readers s)) in *.
  change (reported L false r) with (r, rr_said r). cbv beta iota. generalize (rr_said r) as said. intros said.
  apply (stepped_core _ _ _ _ Hc). destruct (sealed_refusal L r) as [x|]; [apply refuse_stepped|].
  assert (Hsend : forall bytes a1 hold, at_hold a1 = None -> stepped (set_readers r s) hold
    (let '(c, s1, delivered) := deliver L client bytes (at_convert a1) (set_readers r s) in
     match delivered with
     | inl out => (set_pump_phase (PStreaming (with_convert c a1)) (note_delivered L out s1), pieces_of out)
     | inr (err, out) => end_stream (error_outcome L err) out s1
     end)).
  { intros bytes a1 hold Hn. pose proof (deliver_core bytes (at_convert a1) (set_readers r s)) as Hd. destruct (deliver _ _ _ _ _) as [[c s1] d].
    apply (stepped_core _ _ _ _ Hd). destruct d as [o|[err o]]; [|apply st_end; [apply error_outcome_error|done]].
    apply st_stream; [apply note_delivered_core|]. simpl. congruence. }
  destruct (at_hold a') as [h|] eqn:Eh; [|by apply Hsend].
  pose proof (opening_feed_held chunk h) as Ho. destruct (opening_feed L chunk h) as [h' content]. destruct Ho as [_ Hlen].
  destruct content; [by apply Hsend|]. destruct said as [said|].
  - match goal with |- context [if ?b then _ else _] => destruct b end; [by apply st_again|by apply Hsend].
  - apply st_stream; [done|]. simpl. intros h0 [= <-]. split_and!; [done|done|auto].
Qed.
Lemma on_item_stepped m item a s : stepped s (bool_decide (is_Some (at_hold a))) (on_item L client provider m item a s).
Proof.
  unfold on_item. destruct item as [raw|e]; [|simpl; apply on_broken_stepped; by do 3 eexists].
  destruct (at_unframe a) as [u|]; [|apply on_chunk_stepped]. destruct (un_feed _ u raw) as [u' [chunk|e]].
  - apply (on_chunk_stepped m chunk (with_unframe (Some u') a)).
  - pose proof (bedrock_ended_error e) as He. destruct (bedrock_ended L provider e) as [msg o]. by apply (on_broken_stepped m (with_unframe (Some u') a)).
Qed.
Lemma on_judge_stepped now a s :
  pm_phase s = PStreaming a -> (forall h, at_hold a = Some h -> Z.of_nat (String.length (op_held h)) <= OPENING_MAX) ->
  stepped s (bool_decide (is_Some (at_hold a))) (on_judge L client provider now a s).
Proof.
  intros Hp Hlen.
  assert (Hstay : forall a1 s1, core s s1 -> at_hold a1 = at_hold a -> stepped s (bool_decide (is_Some (at_hold a))) (set_pump_phase (PStreaming a1) s1, [])).
  { intros a1 s1 Hc Hh. apply st_stream; [done|]. rewrite Hh. intros h Hh1. rewrite Hh1. split_and!; [done|done|auto]. }
  assert (Hs : (s, []) = (set_pump_phase (PStreaming a) s, @nil piece)) by (f_equal; destruct s; simpl in *; by subst).
  unfold on_judge. destruct (at_speed a) as [w|]; [|rewrite Hs; by apply Hstay]. destruct (negb (started w)); [rewrite Hs; by apply Hstay|].
  destruct (too_slow now w) as [w' [rate|]]; [|by apply Hstay].
  destruct (sh_process _ _ _), (sh_finish _ _). apply st_end; [apply error_outcome_error|by split].
Qed.

(** *** What holds wherever the pump waits *)

Definition quiet out : Prop := Forall (fun p => p = KeepAlive) out.
Record pump_ok s out : Prop := {
  ok_told : is_Some (pm_told s) <-> pm_phase s = PDone;
  ok_quiet : match pm_phase s with
             | PBackoff | POpening => quiet out
             | PStreaming a => forall h, at_hold a = Some h -> quiet out /\ Z.of_nat (String.length (op_held h)) <= OPENING_MAX
             | PBreaking _ _ o => is_error o
             | _ => True
             end;
}.

Lemma quiet_app out out' : quiet out -> quiet out' -> quiet (out ++ out').
Proof. intros. by apply Forall_app. Qed.

Lemma stepped_ok s out hold r : pm_told s = None -> (hold = true -> quiet out) -> stepped s hold r -> pump_ok r.1 (out ++ r.2).
Proof.
  intros Ht Hq Hs. destruct Hs as [m s0 Hh [Ht0 Hb _]|o bytes s0 Ho [Ht0 Hb _]|a s0 o [Ht0 Hb _] Hh|a msg o s0 o' [Ht0 Hb _] Ho|a s0 o [Ht0 Hb _]|o s0 rd o' [Ht0 Hb _] Ho]; split; simpl.
  - rewrite Ht0, Ht. split; [by intros []|done].
  - rewrite app_nil_r. auto.
  - by rewrite Ht0, Ht.
  - done.
  - rewrite Ht0, Ht. split; [by intros []|done].
  - intros h Hah. destruct (Hh h Hah) as (Hhold & -> & Hlen). rewrite app_nil_r. auto.
  - rewrite Ht0, Ht. split; [by intros []|done].
  - done.
  - rewrite Ht0, Ht. split; [by intros []|done].
  - done.
  - by rewrite Ht0, Ht.
  - done.
Qed.

Lemma on_opened_ok m r s out : pm_told s = None -> quiet out -> let '(s', o) := on_opened L client min_speed m r s in pump_ok s' (out ++ o).
Proof.
  intros Ht Hq. unfold on_opened. destruct r as [w|e].
  - split; simpl; [rewrite Ht; split; [by intros []|done]|]. intros h. rewrite app_nil_r. destruct (budget_open _ _); [|done]. intros [= <-].
    split; [done|]. simpl. unfold OPENING_MAX. lia.
  - match goal with |- context [if ?b then _ else _] => destruct b end.
    + apply (stepped_ok s out true (resending m s, [])); [done|auto|by apply st_again].
    + destruct (sh_process _ _ _), (sh_finish _ _).
      apply (stepped_ok s out true (end_stream (error_outcome L e) _ _)); [done|auto|]. apply st_end; [apply error_outcome_error|by split].
Qed.

Lemma told_none s out : pump_ok s out -> pm_phase s <> PDone -> pm_told s = None.
Proof. intros [Ht _] Hp. destruct (pm_told s) as [o|] eqn:E; [|done]. exfalso. apply Hp, Ht. by eexists. Qed.
Lemma keep_alive_ok s out o : pump_ok s out -> quiet o -> pump_ok s (out ++ o).
Proof.
  intros [Ht Hq] Ho. split; [done|]. destruct (pm_phase s); try done; [by apply quiet_app..|].
  intros h Hh. destruct (Hq h Hh). split; [by apply quiet_app|done].
Qed.
Lemma pump_step_ok s out e : pump_ok s out -> let '(s', o) := step s e in pump_ok s' (out ++ o).
Proof.
  intros Hok. assert (Hnop : pump_ok s (out ++ [])) by (by rewrite app_nil_r). unfold pump_step.
  assert (Hka : forall b : bool, quiet (if b then [KeepAlive] else [])) by (intros []; repeat constructor).
  pose proof (ok_quiet _ _ Hok) as Hq.
  destruct (pm_phase s) as [| |a|a msg o|a|] eqn:Ep, e; try exact Hnop;
    try (assert (Hn : pm_told s = None) by (apply (told_none s out); [done|by rewrite Ep])).
  - unfold go_out. split; simpl; [rewrite Hn; split; [by intros []|done]|]. by rewrite app_nil_r.
  - apply keep_alive_ok; [done|apply Hka].
  - apply keep_alive_ok; [done|apply Hka].
  - by apply on_opened_ok.
  - apply keep_alive_ok; [done|]. destruct (at_hold a); [apply Hka|constructor].
  - pose proof (on_item_stepped m item a s) as Hs. destruct (on_item _ _ _ _ _ _ _) as [s' o]. apply (stepped_ok s out _ (s', o) Hn) in Hs; [done|].
    intros Hh. apply bool_decide_eq_true in Hh as [h Hh]. by destruct (Hq h Hh).
  - pose proof (on_end_stepped m a s) as Hs. destruct (on_end _ _ _ _ _ _) as [s' o]. apply (stepped_ok s out _ (s', o) Hn) in Hs; [done|].
    intros Hh. apply bool_decide_eq_true in Hh as [h Hh]. by destruct (Hq h Hh).
  - pose proof (on_judge_stepped now a s Ep (fun h Hh => proj2 (Hq h Hh))) as Hs. destruct (on_judge _ _ _ _ _ _) as [s' o]. apply (stepped_ok s out _ (s', o) Hn) in Hs; [done|].
    intros Hh. apply bool_decide_eq_true in Hh as [h Hh]. by destruct (Hq h Hh).
  - pose proof (fail_stream_stepped a msg o s false Hq) as Hs. destruct (fail_stream _ _ _ _ _ _) as [s' o']. by apply (stepped_ok s out _ (s', o') Hn) in Hs.
  - pose proof (finish_stream_stepped a s false) as Hs. destruct (finish_stream _ _ _ _ _) as [s' o']. by apply (stepped_ok s out _ (s', o') Hn) in Hs.
Qed.
Lemma pump_run_ok events s out : pump_ok s out -> let '(s', o) := run s events in pump_ok s' (out ++ o).
Proof.
  revert s out. induction events as [|e events IH]; intros s out Hok; simpl; [by rewrite app_nil_r|].
  pose proof (pump_step_ok s out e Hok) as Hs. destruct (step s e) as [s1 o1]. specialize (IH s1 (out ++ o1) Hs).
  destruct (run s1 events) as [s2 o2]. by rewrite app_assoc.
Qed.
Lemma built_ok sh inspector budget client_sse now : pump_ok (build_chat_pump L client sh inspector budget client_sse now) [].
Proof. split; simpl; [split; [by intros []|done]|constructor]. Qed.

(** The client has heard keep-alives and nothing else. *)
Definition silent (out : list piece) : Prop := Forall (fun p => p = KeepAlive) out.
(** C11: a retry is invisible: while an attempt waits to be sent, waits for its answer, or may
    still be sent again, the client has been sent keep-alive comments and nothing else, and no
    more than a megabyte is held back; and a stream has told its outcome exactly when it is
    over. *)
Theorem retries_are_silent events sh inspector budget client_sse now :
  let '(s, out) := run (build_chat_pump L client sh inspector budget client_sse now) events in
  (is_Some (pm_told s) <-> pm_phase s = PDone) /\
  (pm_phase s = PBackoff \/ pm_phase s = POpening -> silent out) /\
  (forall a h, pm_phase s = PStreaming a -> at_hold a = Some h ->
     silent out /\ Z.of_nat (String.length (op_held h)) <= OPENING_MAX).
Proof.
  pose proof (pump_run_ok events _ [] (built_ok sh inspector budget client_sse now)) as H. destruct (run _ events) as [s out].
  destruct H as [Ht Hq]. simpl in Hq. split_and!; [done| |].
  - intros [Hp|Hp]; by rewrite Hp in Hq.
  - intros a h Hp. rewrite Hp in Hq. apply Hq.
Qed.

(** *** An error the upstream reports *)

Lemma retries_resending m s : retries (pm_budget (resending m s)) = retries (pm_budget s) + 1.
Proof. done. Qed.
(** The error is there to be told, has been told, or its attempt was sent again. *)
Definition error_stands (n : Z) s : Prop :=
  match pm_phase s with
  | PStreaming _ | PFinishing _ => is_Some (rr_said (pm_readers s))
  | PBreaking _ _ o => is_Some (rr_said (pm_readers s)) /\ is_error o
  | PDone => exists o, pm_told s = Some o /\ is_error o
  | _ => False
  end \/ n < retries (pm_budget s).

Lemma stepped_stands n s hold r : pm_told s = None -> is_Some (rr_said (pm_readers s)) -> retries (pm_budget s) = n -> stepped s hold r -> error_stands n r.1.
Proof.
  intros Ht Hs Hn Hst. unfold error_stands.
  destruct Hst as [m s0 Hh [Ht0 Hb Hc]|o bytes s0 Ho [Ht0 Hb Hc]|a s0 o [Ht0 Hb Hc] Hh|a msg o s0 o' [Ht0 Hb Hc] Ho|a s0 o [Ht0 Hb Hc]|o s0 rd o' [Ht0 Hb Hc] Ho]; simpl.
  - right. unfold retries in *. simpl. rewrite Hb. lia.
  - left. exists o. by rewrite Ht0, Ht.
  - left. auto.
  - left. auto.
  - left. auto.
  - left. exists o. rewrite Ht0, Ht. split; [done|]. destruct Ho as [Ho|[-> Hnone]]; [done|]. destruct (Hc Hs) as [x Hx]. congruence.
Qed.
Lemma pump_step_budget s e : retries (pm_budget s) <= retries (pm_budget (step s e).1).
Proof.
  assert (Hst : forall hold r, stepped s hold r -> retries (pm_budget s) <= retries (pm_budget r.1)).
  { intros hold r Hr. unfold retries. destruct Hr as [m s0 Hh [Ht0 Hb Hc]|o bytes s0 Ho [Ht0 Hb Hc]|a s0 o [Ht0 Hb Hc] Hh|a msg o s0 o' [Ht0 Hb Hc] Ho|a s0 o [Ht0 Hb Hc]|o s0 rd o' [Ht0 Hb Hc] Ho]; simpl; rewrite Hb; lia. }
  unfold pump_step. destruct (pm_phase s) as [| |a|a msg o|a|] eqn:Ep, e; simpl; try lia.
  - unfold on_opened. destruct r as [w|err]; [simpl; lia|]. match goal with |- context [if ?b then _ else _] => destruct b end; [unfold retries; simpl; lia|].
    destruct (sh_process _ _ _), (sh_finish _ _). simpl. lia.
  - apply (Hst _ _ (on_item_stepped m item a s)).
  - apply (Hst _ _ (on_end_stepped m a s)).
  - unfold on_judge. destruct (at_speed a) as [w|]; [|simpl; lia]. destruct (negb (started w)); [simpl; lia|]. destruct (too_slow now w) as [w' [rate|]]; [|simpl; lia].
    destruct (sh_process _ _ _), (sh_finish _ _). simpl. lia.
  - unfold fail_stream. destruct (sh_process _ _ _), (sh_finish _ _). simpl. lia.
  - apply (Hst false _ (finish_stream_stepped a s false)).
Qed.
Lemma step_stands n s out e : pump_ok s out -> retries (pm_budget s) = n \/ n < retries (pm_budget s) -> error_stands n s -> error_stands n (step s e).1.
Proof.
  intros Hok Hn He. destruct Hn as [Hn|Hn]; [|right; pose proof (pump_step_budget s e); lia].
  destruct He as [He|He]; [|right; pose proof (pump_step_budget s e); lia].
  assert (Hsame : error_stands n s) by (by left). unfold pump_step. pose proof (ok_quiet _ _ Hok) as Hq.
  destruct (pm_phase s) as [| |a|a msg o|a|] eqn:Ep, e; try exact Hsame; try done;
    try (assert (Hnt : pm_told s = None) by (apply (told_none s out); [done|by rewrite Ep])).
  - apply (stepped_stands n s _ _ Hnt He Hn (on_item_stepped m item a s)).
  - apply (stepped_stands n s _ _ Hnt He Hn (on_end_stepped m a s)).
  - apply (stepped_stands n s _ _ Hnt He Hn (on_judge_stepped now a s Ep (fun h Hh => proj2 (Hq h Hh)))).
  - destruct He as [He Ho]. apply (stepped_stands n s _ _ Hnt He Hn (fail_stream_stepped a msg o s false Ho)).
  - apply (stepped_stands n s _ _ Hnt He Hn (finish_stream_stepped a s false)).
Qed.
Lemma run_stands n events s out : pump_ok s out -> retries (pm_budget s) = n \/ n < retries (pm_budget s) -> error_stands n s -> error_stands n (run s events).1.
Proof.
  revert s out. induction events as [|e events IH]; intros s out Hok Hn He; simpl; [done|].
  pose proof (pump_step_ok s out e Hok) as Hs. pose proof (step_stands n s out e Hok Hn He) as He'. pose proof (pump_step_budget s e) as Hb.
  destruct (step s e) as [s1 o1]. simpl in *. specialize (IH s1 (out ++ o1) Hs ltac:(lia) He'). by destruct (run s1 events).
Qed.
Lemma stands_fails n s : retries (pm_budget s) = n -> (is_Some (pm_told s) <-> pm_phase s = PDone) -> error_stands n s -> is_error (tail_outcome L provider s).
Proof.
  intros Hn Ht [He|He]; [|lia]. unfold tail_outcome.
  assert (Hr : pm_told s = None -> is_Some (rr_said (pm_readers s)) ->
    is_error (match (upstream_error L (pm_readers s)).2 with Some said => outcome_of L provider said | None => if pm_delivered s then Natural else ClientCancelled end)).
  { intros _ [x Hx]. unfold upstream_error. rewrite Hx. destruct (rr_errors _); simpl; apply outcome_of_error. }
  destruct (pm_told s) as [o|] eqn:E.
  - assert (Hd : pm_phase s = PDone) by (apply Ht; by eexists). rewrite Hd in He. by destruct He as (o' & [= ->] & Ho).
  - destruct (pm_phase s); try done; [by apply Hr|by destruct He; apply Hr|by apply Hr|]. by destruct He as (o' & ? & _).
Qed.

(** *** A stream that breaks *)

(** The connection breaks, or Bedrock reports an exception: what is said of it and how the
    request fails. *)
Definition broken_by (a : stream_attempt L) (item : result string string) : option (string * StreamOutcome) :=
  match item with
  | Err e => Some (broke_off ("The upstream stream broke off: " +:+ e))
  | Ok raw =>
      u ← at_unframe a;
      match (un_feed L u raw).2 with Ok _ => None | Err e => Some (bedrock_ended L provider e) end
  end.
Lemma broken_by_error a item msg o : broken_by a item = Some (msg, o) -> is_error o.
Proof.
  unfold broken_by. destruct item as [raw|e]; [|intros [= <- <-]; by do 3 eexists].
  destruct (at_unframe a) as [u|]; [|done]. simpl. destruct (un_feed L u raw).2 as [chunk|e]; [done|]. intros [= He].
  pose proof (bedrock_ended_error e) as Ho. by rewrite He in Ho.
Qed.

Lemma run_done s events : pm_phase s = PDone -> run s events = (s, []).
Proof.
  intros Hp. induction events as [|e events IH]; simpl; [done|]. unfold pump_step. rewrite Hp. by rewrite IH.
Qed.
Lemma run_breaking s a msg o events :
  pm_phase s = PBreaking a msg o -> pm_told s = None -> PollNext ∈ events -> pm_told (run s events).1 = Some o.
Proof.
  intros Hp Ht. induction events as [|e events IH]; [by intros ?%elem_of_nil|]. intros Hin. simpl.
  assert (e = PollNext \/ e <> PollNext) as [-> |He] by (destruct e; auto; by right).
  - unfold pump_step. rewrite Hp. unfold fail_stream, end_stream. destruct (sh_process _ _ _), (sh_finish _ _).
    rewrite run_done by done. simpl. by rewrite Ht.
  - apply elem_of_cons in Hin as [<-|Hin]; [done|].
    assert (step s e = (s, [])) as -> by (unfold pump_step; rewrite Hp; by destruct e). specialize (IH Hin).
    by destruct (run s events).
Qed.

(** A stream that broke is sent again, has told its error, or has the opening to hand over
    first. *)
Definition broken_ends (a : stream_attempt L) msg o s s1 : Prop :=
  retries (pm_budget s) < retries (pm_budget s1) \/
  (exists o', pm_told s1 = Some o' /\ is_error o') \/
  (is_Some (at_hold a) /\ pm_told s1 = None /\ exists a', pm_phase s1 = PBreaking a' msg o).
Lemma fail_stream_told a msg o s : pm_told s = None -> pm_told (fail_stream L client a msg o s).1 = Some o.
Proof. intros Ht. unfold fail_stream. destruct (sh_process _ _ _), (sh_finish _ _). simpl. by rewrite Ht. Qed.
Lemma on_broken_ends m a msg o s : is_error o -> pm_told s = None -> broken_ends a msg o s (on_broken L client m a msg o s).1.
Proof.
  intros Ho Ht. unfold on_broken, broken_ends. destruct (at_hold a) as [h|].
  2: { right. left. exists o. split; [by apply fail_stream_told|done]. }
  match goal with |- context [if ?b then _ else _] => destruct b end; [left; unfold retries; simpl; lia|right].
  pose proof (deliver_core (op_held h) (at_convert a) s) as Hd. destruct (deliver _ _ _ _ _) as [[c s'] d]. destruct Hd as [Ht' _ _].
  destruct d as [o'|[err o']].
  - case_decide; [left; exists o; split; [apply fail_stream_told; congruence|done]|]. right. split_and!; [by eexists|simpl; congruence|]. by eexists.
  - left. exists (error_outcome L err). split; [simpl; by rewrite Ht', Ht|apply error_outcome_error].
Qed.

(** C12: an error fails the request.  Once the error watch has read an error the upstream
    reported in the attempt under way, the request is recorded as failed however the stream
    ends: at its own end, broken off, cut by the gateway, or left by the client; only an attempt
    that is sent again takes its error with it.  A connection that breaks, or an exception of
    Bedrock's, is sent again or fails the request too: at once, or, when a held opening goes out
    before it, as soon as the client asks for more. *)
Theorem reported_error_fails_request events sh inspector budget client_sse now a :
  let s := (run (build_chat_pump L client sh inspector budget client_sse now) events).1 in
  pm_phase s = PStreaming a ->
  (is_Some (rr_said (pm_readers s)) -> forall events', let s' := (run s events').1 in
     retries (pm_budget s') = retries (pm_budget s) -> is_error (tail_outcome L provider s')) /\
  (forall m item msg o, broken_by a item = Some (msg, o) -> let s1 := (step s (Item m item)).1 in
     is_error o /\
     (retries (pm_budget s) < retries (pm_budget s1) \/
      (exists o', pm_told s1 = Some o' /\ is_error o') \/
      (is_Some (at_hold a) /\ forall events', PollNext ∈ events' -> pm_told (run s1 events').1 = Some o))).
Proof.
  cbv zeta. pose proof (pump_run_ok events _ [] (built_ok sh inspector budget client_sse now)) as H.
  destruct (run _ events) as [s out]. simpl in *. intros Hp. split.
  - intros Hs events' Hr. pose proof (pump_run_ok events' s out H) as H'.
    assert (He : error_stands (retries (pm_budget s)) s) by (left; by rewrite Hp).
    pose proof (run_stands (retries (pm_budget s)) events' s out H (or_introl eq_refl) He) as He'.
    destruct (run s events') as [s' out']. simpl in *. exact (stands_fails _ s' Hr (ok_told _ _ H') He').
  - intros m item msg o Hb. split; [by eapply broken_by_error|]. pose proof (broken_by_error _ _ _ _ Hb) as Ho.
    assert (Ht : pm_told s = None) by (apply (told_none s out H); by rewrite Hp).
    assert (Hst : exists a', at_hold a' = at_hold a /\ step s (Item m item) = on_broken L client m a' msg o s).
    { unfold pump_step. rewrite Hp. unfold on_item, broken_by in *. destruct item as [raw|e]; [|injection Hb as <- <-; by exists a].
      destruct (at_unframe a) as [u|]; [|done]. simpl in Hb. destruct (un_feed L u raw) as [u' [chunk|e]]; [done|].
      injection Hb as Hb. simpl. rewrite Hb. by exists (with_unframe (Some u') a). }
    destruct Hst as (a' & Hh & ->). destruct (on_broken_ends m a' msg o s Ho Ht) as [Hr|[Hd|(Hhold & Hnone & a1 & Hph)]];
      [by left|by right; left|right; right].
    rewrite <- Hh. split; [done|]. intros events' Hin. by eapply run_breaking.
Qed.

(** *** What a stream gives the client *)

Definition piece_bytes (p : piece) : string := match p with KeepAlive => "" | Out b => b end.
Fixpoint bytes_of (out : list piece) : string := match out with [] => "" | p :: out => piece_bytes p +:+ bytes_of out end.
Lemma bytes_of_app out out' : bytes_of (out ++ out') = bytes_of out +:+ bytes_of out'.
Proof. induction out as [|p out IH]; simpl; [done|]. by rewrite IH, str_app_assoc. Qed.
Lemma quiet_bytes out : quiet out -> bytes_of out = "".
Proof. induction 1 as [|p out -> _ IH]; [done|]. exact IH. Qed.
Lemma pieces_bytes b : bytes_of (pieces_of b) = b.
Proof. unfold pieces_of. case_decide as E; [by subst|]. simpl. apply str_app_nil_r. Qed.

(** What the converter and the shaper make of a list of pieces, one after the other, and of the
    end; they know nothing of openings, retries or the client. *)
Record making := { mk_convert : option (Cv L); mk_shaper : Sh L; mk_bytes : string }.
Definition make_piece (x : making) (chunk : string) : making :=
  let '(c, b) := match mk_convert x with Some c => let '(c, b) := cv_process L c chunk in (Some c, b) | None => (None, chunk) end in
  let '(sh, o) := sh_process L (mk_shaper x) b in
  {| mk_convert := c; mk_shaper := sh; mk_bytes := mk_bytes x +:+ o |}.
Definition make_end (x : making) : string :=
  let '(sh, o) := sh_process L (mk_shaper x) match mk_convert x with Some c => (cv_finish L c).2 | None => "" end in
  mk_bytes x +:+ o +:+ (sh_finish L sh).2.

(** The attempt under way: its converter, the shaper as its opening left it, and the bytes the
    upstream has sent in it, out of their Bedrock frames if they were in any. *)
Record attempt_bytes := { ab_convert : option (Cv L); ab_shaper : Sh L; ab_bytes : string }.
Definition taken s (x : attempt_bytes) (e : pump_event L) : attempt_bytes :=
  match pm_phase s, e with
  | POpening, Opened _ (Ok w) =>
      {| ab_convert := wi_convert w; ab_shaper := sh_restore_with L (ab_shaper x) (wi_ledger w); ab_bytes := "" |}
  | PStreaming a, Item _ (Ok raw) =>
      let chunk := match at_unframe a with
                   | None => raw
                   | Some u => match (un_feed L u raw).2 with Ok chunk => chunk | Err _ => "" end
                   end in
      {| ab_convert := ab_convert x; ab_shaper := ab_shaper x; ab_bytes := ab_bytes x +:+ chunk |}
  | _, _ => x
  end.
Fixpoint attempt_of s (x : attempt_bytes) (events : list (pump_event L)) : attempt_bytes :=
  match events with [] => x | e :: events => attempt_of (step s e).1 (taken s x e) events end.

Definition made_of (x : attempt_bytes) (pieces : list string) : making :=
  foldl make_piece {| mk_convert := ab_convert x; mk_shaper := ab_shaper x; mk_bytes := "" |} pieces.
Lemma made_snoc x pieces chunk : made_of x (pieces ++ [chunk]) = make_piece (made_of x pieces) chunk.
Proof. unfold made_of. by rewrite foldl_app. Qed.
Lemma concat_snoc (pieces : list string) chunk : String.concat "" (pieces ++ [chunk]) = String.concat "" pieces +:+ chunk.
Proof.
  induction pieces as [|p [|q pieces] IH]; [done|done|].
  change (p +:+ String.concat "" ((q :: pieces) ++ [chunk]) = (p +:+ String.concat "" (q :: pieces)) +:+ chunk).
  by rewrite IH, str_app_assoc.
Qed.

Definition held_of (a : stream_attempt L) : string := match at_hold a with Some h => op_held h | None => "" end.
(** The client has what these pieces make, the pump is in the state they lead to, and with what
    is held they are the attempt's bytes; while something is held, there are none. *)
Definition carries s out (x : attempt_bytes) (a : stream_attempt L) pieces : Prop :=
  at_convert a = mk_convert (made_of x pieces) /\ pm_shaper s = mk_shaper (made_of x pieces) /\
  bytes_of out = mk_bytes (made_of x pieces) /\ String.concat "" pieces +:+ held_of a = ab_bytes x /\
  (is_Some (at_hold a) -> pieces = []).
Definition whole s out (x : attempt_bytes) : Prop :=
  match pm_phase s with
  | PBackoff | POpening => pm_shaper s = ab_shaper x
  | PStreaming a => exists pieces, carries s out x a pieces
  | PFinishing a => at_hold a = None /\ exists pieces, carries s out x a pieces
  | PBreaking _ _ _ => True
  | PDone => pm_told s = Some Natural ->
      exists pieces, bytes_of out = make_end (made_of x pieces) /\ String.concat "" pieces = ab_bytes x
  end.

(** What is delivered is what the next piece makes. *)
Lemma deliver_makes chunk s out x a pieces :
  carries s out x a pieces -> at_hold a = None ->
  let '(c, s', d) := deliver L client chunk (at_convert a) s in
  match d with
  | inl o => pm_told s' = pm_told s /\ pm_phase s' = pm_phase s /\
      mk_convert (made_of x (pieces ++ [chunk])) = c /\ mk_shaper (made_of x (pieces ++ [chunk])) = pm_shaper s' /\
      mk_bytes (made_of x (pieces ++ [chunk])) = bytes_of out +:+ o
  | inr _ => True
  end.
Proof.
  intros (Hc & Hsh & Hb & _ & _) _. rewrite made_snoc. unfold deliver, make_piece. rewrite Hc, Hsh, Hb.
  destruct (mk_convert (made_of x pieces)) as [c|].
  - destruct (cv_process L c chunk) as [c' b]. destruct (sh_process L _ b) as [sh o]. simpl.
    destruct (pm_inspector s) as [i|]; [destruct (in_check L i o) as [i' [[err safe]|]]|]; by simpl.
  - destruct (sh_process L _ chunk) as [sh o]. simpl.
    destruct (pm_inspector s) as [i|]; [destruct (in_check L i o) as [i' [[err safe]|]]|]; by simpl.
Qed.
Lemma note_delivered_keeps o s : pm_shaper (note_delivered L o s) = pm_shaper s /\ pm_told (note_delivered L o s) = pm_told s.
Proof. unfold note_delivered. case_decide; [done|]. by destruct (is_in _ _ _). Qed.

Lemma error_whole o bytes s out x : is_error o -> pm_told s = None -> whole (set_pump_phase PDone (tell o s)) (out ++ [Out bytes]) x.
Proof. intros (t & m & c & ->) Ht. unfold whole. simpl. by rewrite Ht. Qed.
Lemma fail_whole a msg o s out x : is_error o -> pm_told s = None ->
  let '(s', o') := fail_stream L client a msg o s in whole s' (out ++ o') x.
Proof. intros Ho Ht. unfold fail_stream. destruct (sh_process _ _ _), (sh_finish _ _). by apply error_whole. Qed.
Lemma again_whole m s out x a pieces : carries s out x a pieces -> is_Some (at_hold a) -> whole (resending m s) (out ++ []) x.
Proof. intros (_ & Hsh & _ & _ & Hn) Hh. unfold whole. simpl. rewrite Hsh. by rewrite (Hn Hh). Qed.
Lemma finish_whole a s out x pieces : pm_told s = None -> at_hold a = None -> carries s out x a pieces ->
  let '(s', o) := finish_stream L client provider a s in whole s' (out ++ o) x.
Proof.
  intros Ht Hn (Hc & Hsh & Hb & Hcat & _). unfold finish_stream. rewrite Hc, Hsh.
  destruct (sh_process L _ _) as [sh o1] eqn:E1. destruct (sh_finish L sh) as [sh2 o2] eqn:E2.
  match goal with |- context [let '(i, stop) := ?x in _] => destruct x as [i [[err safe]|]] end; [apply error_whole; [apply error_outcome_error|done]|].
  destruct (upstream_error _ _) as [r said]. unfold whole. simpl. intros _. exists pieces. split.
  - rewrite bytes_of_app, pieces_bytes, Hb. unfold make_end. by rewrite E1, E2.
  - unfold held_of in Hcat. rewrite Hn in Hcat. by rewrite str_app_nil_r in Hcat.
Qed.

(** The opening goes out: one piece, the first. *)
Lemma deliver_held s out x a h : carries s out x a [] -> at_hold a = Some h ->
  let '(c, s', d) := deliver L client (op_held h) (at_convert a) s in
  match d with
  | inl o => pm_told s' = pm_told s /\ forall o', bytes_of o' = o -> carries s' (out ++ o') x (with_hold None (with_convert c a)) [op_held h]
  | inr _ => True
  end.
Proof.
  intros (Hc & Hsh & Hb & Hcat & _) Hh.
  assert (Hn : carries s out {| ab_convert := ab_convert x; ab_shaper := ab_shaper x; ab_bytes := "" |} (with_hold None a) []) by (by split_and!).
  pose proof (deliver_makes (op_held h) s out _ (with_hold None a) [] Hn eq_refl) as Hd. simpl in Hd.
  destruct (deliver _ _ _ _ _) as [[c s'] [o|]]; [|done]. destruct Hd as (Ht & _ & Hc' & Hsh' & Hb'). split; [done|]. intros o' Ho.
  unfold held_of in Hcat. rewrite Hh in Hcat. split_and!; [done..| | |by intros []].
  - by rewrite bytes_of_app, Ho.
  - unfold held_of. simpl in *. by rewrite str_app_nil_r.
Qed.
Lemma carries_hold s out x a pieces h : carries s out x a pieces -> at_hold a = Some h -> carries s out x a [].
Proof. intros Hc Hh. assert (pieces = []) as -> by (apply Hc; by eexists). done. Qed.
Lemma carries_same s s' out x a pieces : pm_shaper s' = pm_shaper s -> carries s out x a pieces -> carries s' out x a pieces.
Proof. unfold carries. by intros ->. Qed.

Lemma on_broken_whole m a msg o s out x pieces : is_error o -> pm_told s = None -> carries s out x a pieces ->
  let '(s', o') := on_broken L client m a msg o s in whole s' (out ++ o') x.
Proof.
  intros Ho Ht Hc. unfold on_broken. destruct (at_hold a) as [h|] eqn:Hh; [|by apply fail_whole].
  match goal with |- context [if ?b then _ else _] => destruct b end; [by eapply again_whole|].
  pose proof (deliver_held s out x a h (carries_hold _ _ _ _ _ _ Hc Hh) Hh) as Hd. destruct (deliver _ _ _ _ _) as [[c s'] [o'|[err o']]] eqn:E.
  - case_decide; [|done]. apply fail_whole; [done|]. destruct Hd as [Hd _]. congruence.
  - apply error_whole; [apply error_outcome_error|]. pose proof (deliver_core (op_held h) (at_convert a) s) as Hk. rewrite E in Hk. destruct Hk. congruence.
Qed.
Lemma on_end_whole m a s out x pieces : pm_told s = None -> carries s out x a pieces ->
  let '(s', o') := on_end L client provider m a s in whole s' (out ++ o') x.
Proof.
  intros Ht Hc. unfold on_end. destruct (at_hold a) as [h|] eqn:Hh; [|by eapply finish_whole].
  destruct (reported L true _) as [r said]. set (s1 := set_readers r s). assert (Hc1 : carries s1 out x a pieces) by done.
  match goal with |- context [if ?b then _ else _] => destruct b end; [by eapply again_whole|].
  pose proof (deliver_held s1 out x a h (carries_hold _ _ _ _ _ _ Hc1 Hh) Hh) as Hd. destruct (deliver _ _ _ _ _) as [[c s'] [o'|[err o']]] eqn:E.
  - destruct Hd as [Ht' Hd]. case_decide as Eo.
    + eapply (finish_whole _ s'); [simpl in Ht'; congruence|done|]. specialize (Hd []). rewrite app_nil_r in Hd. apply Hd. by rewrite Eo.
    + unfold whole. simpl. split; [done|]. eexists. eapply carries_same; [apply note_delivered_keeps|]. apply Hd. simpl. apply str_app_nil_r.
  - apply error_whole; [apply error_outcome_error|]. pose proof (deliver_core (op_held h) (at_convert a) s1) as Hk. rewrite E in Hk. destruct Hk. simpl in *. congruence.
Qed.
Lemma on_chunk_whole m chunk a s out x pieces : pm_told s = None -> carries s out x a pieces ->
  let '(s', o') := pump_chunk L client provider m chunk a s in
  whole s' (out ++ o') {| ab_convert := ab_convert x; ab_shaper := ab_shaper x; ab_bytes := ab_bytes x +:+ chunk |}.
Proof.
  intros Ht Hc. unfold pump_chunk. destruct (negb (mo_memory m)); [apply error_whole; [apply error_outcome_error|done]|].
  set (a' := with_speed _ a). assert (Hc' : carries s out x a' pieces) by done. clearbody a'. clear Hc a. rename a' into a, Hc' into Hc.
  set (r := readers_feed L chunk (pm_readers s)) in *. change (reported L false r) with (r, rr_said r). cbv beta iota. generalize (rr_said r) as said. intros said.
  destruct (sealed_refusal L r) as [y|]; [apply error_whole; [apply error_outcome_error|done]|].
  set (s1 := set_readers r s). assert (Hc1 : carries s1 out x a pieces) by done. assert (Ht1 : pm_told s1 = None) by done. clearbody s1. clear Hc.
  set (x' := {| ab_convert := _ |}).
  assert (Hsend : forall bytes a1 ps, at_hold a1 = None -> carries s1 out {| ab_convert := ab_convert x; ab_shaper := ab_shaper x; ab_bytes := String.concat "" ps |} a1 ps ->
    String.concat "" ps +:+ bytes = ab_bytes x +:+ chunk ->
    let '(s', o') :=
      let '(c, s2, delivered) := deliver L client bytes (at_convert a1) s1 in
      match delivered with
      | inl o => (set_pump_phase (PStreaming (with_convert c a1)) (note_delivered L o s2), pieces_of o)
      | inr (err, o) => end_stream (error_outcome L err) o s2
      end in whole s' (out ++ o') x').
  { intros bytes a1 ps Hn Hp Hb. pose proof (deliver_makes bytes s1 out _ a1 ps Hp Hn) as Hd. pose proof (deliver_core bytes (at_convert a1) s1) as Hk.
    destruct (deliver _ _ _ _ _) as [[c s2] [o|[err o]]]; [|apply error_whole; [apply error_outcome_error|destruct Hk; congruence]].
    destruct Hd as (_ & _ & Hmc & Hms & Hmb). unfold whole. simpl. exists (ps ++ [bytes]). split_and!.
    - exact (eq_sym Hmc).
    - simpl. rewrite (proj1 (note_delivered_keeps o s2)). exact (eq_sym Hms).
    - rewrite bytes_of_app, pieces_bytes. exact (eq_sym Hmb).
    - unfold held_of. simpl. rewrite Hn, str_app_nil_r, concat_snoc. exact Hb.
    - simpl. rewrite Hn. by intros []. }
  destruct Hc1 as (Hcv & Hsh & Hby & Hcat & Hnil). unfold held_of in Hcat.
  destruct (at_hold a) as [h|] eqn:Eh.
  2: { rewrite str_app_nil_r in Hcat. apply (Hsend chunk a pieces Eh); [|by rewrite Hcat].
       split_and!; [done..| |by rewrite Eh; intros []]. unfold held_of. by rewrite Eh, str_app_nil_r. }
  assert (pieces = []) as -> by (apply Hnil; by eexists). change (op_held h = ab_bytes x) in Hcat.
  pose proof (opening_feed_held chunk h) as Ho. destruct (opening_feed L chunk h) as [h' content]. destruct Ho as [Hheld _].
  assert (Hopen : forall bytes, bytes = op_held h' -> let '(s', o') :=
      let '(c, s2, delivered) := deliver L client bytes (at_convert (with_hold None a)) s1 in
      match delivered with
      | inl o => (set_pump_phase (PStreaming (with_convert c (with_hold None a))) (note_delivered L o s2), pieces_of o)
      | inr (err, o) => end_stream (error_outcome L err) o s2
      end in whole s' (out ++ o') x').
  { intros bytes ->. apply (Hsend (op_held h') (with_hold None a) []); [done|by split_and!; try done; intros []|]. simpl. by rewrite Hheld, Hcat. }
  destruct content; [by apply Hopen|]. destruct said as [said|].
  - match goal with |- context [if ?b then _ else _] => destruct b end; [|by apply Hopen].
    unfold whole. simpl. exact Hsh.
  - unfold whole. simpl. exists []. split_and!; [done..|by rewrite app_nil_r| |done]. unfold held_of. simpl. by rewrite Hheld, Hcat.
Qed.

Lemma step_whole s out x e : pump_ok s out -> whole s out x -> let '(s', o) := step s e in whole s' (out ++ o) (taken s x e).
Proof.
  intros Hok Hw. assert (Hka : forall b : bool, bytes_of (out ++ if b then [KeepAlive] else []) = bytes_of out) by (intros []; rewrite bytes_of_app; simpl; apply str_app_nil_r).
  assert (Hnop : whole s (out ++ []) x) by (by rewrite app_nil_r).
  pose proof (ok_quiet _ _ Hok) as Hq. unfold pump_step, taken. unfold whole in Hw.
  destruct (pm_phase s) as [| |a|a msg o|a|] eqn:Ep, e; try exact Hnop; try (by (destruct r || destruct item); exact Hnop);
    try (assert (Hnt : pm_told s = None) by (apply (told_none s out); [done|by rewrite Ep])).
  - exact Hw.
  - unfold whole. by rewrite Ep.
  - unfold whole. by rewrite Ep.
  - unfold on_opened. destruct r as [w|err].
    + unfold whole. simpl. exists []. split_and!; [done|by rewrite Hw| | |done].
      * rewrite app_nil_r. by apply quiet_bytes.
      * unfold held_of. simpl. by destruct (budget_open _ _).
    + match goal with |- context [if ?b then _ else _] => destruct b end; [exact Hw|]. destruct (sh_process _ _ _), (sh_finish _ _).
      apply error_whole; [apply error_outcome_error|done].
  - destruct Hw as [pieces Hc]. unfold whole. rewrite Ep. exists pieces. destruct (at_hold a) eqn:E; [|by rewrite app_nil_r].
    destruct Hc as (? & ? & ? & ? & ?). split_and!; [done..|by rewrite Hka|done|done].
  - destruct Hw as [pieces Hc]. unfold on_item. destruct item as [raw|err]; [|eapply on_broken_whole; [by do 3 eexists|done..]].
    destruct (at_unframe a) as [u|]; [|by eapply on_chunk_whole]. destruct (un_feed L u raw) as [u' [chunk|err]].
    + by apply (on_chunk_whole m chunk (with_unframe (Some u') a) s out x pieces).
    + pose proof (bedrock_ended_error err) as He. destruct (bedrock_ended L provider err) as [msg o]. simpl.
      assert (Hx : x = {| ab_convert := ab_convert x; ab_shaper := ab_shaper x; ab_bytes := ab_bytes x |}) by (by destruct x).
      rewrite str_app_nil_r, <- Hx. by apply (on_broken_whole m (with_unframe (Some u') a) msg o s out x pieces).
  - destruct Hw as [pieces Hc]. by eapply on_end_whole.
  - destruct Hw as [pieces Hc]. assert (Hstay : forall a1, at_hold a1 = at_hold a -> at_convert a1 = at_convert a -> whole (set_pump_phase (PStreaming a1) s) (out ++ []) x).
    { intros a1 Hh1 Hc1. unfold whole. simpl. rewrite app_nil_r. exists pieces. destruct Hc as (? & ? & ? & ? & ?).
      split_and!; [congruence|done|done|unfold held_of; by rewrite Hh1|by rewrite Hh1]. }
    unfold on_judge. destruct (at_speed a) as [w|]; [|exact Hnop]. destruct (negb (started w)); [exact Hnop|]. destruct (too_slow now w) as [w' [rate|]].
    + destruct (sh_process _ _ _), (sh_finish _ _). apply error_whole; [apply error_outcome_error|done].
    + by apply Hstay.
  - by apply fail_whole.
  - destruct Hw as [Hn [pieces Hc]]. by eapply finish_whole.
Qed.
Lemma run_whole events s out x : pump_ok s out -> whole s out x -> let '(s', o) := run s events in whole s' (out ++ o) (attempt_of s x events).
Proof.
  revert s out x. induction events as [|e events IH]; intros s out x Hok Hv; simpl; [by rewrite app_nil_r|].
  pose proof (pump_step_ok s out e Hok) as Hok'. pose proof (step_whole s out x e Hok Hv) as Hv'.
  destruct (step s e) as [s1 o1]. simpl. specialize (IH s1 (out ++ o1) (taken s x e) Hok' Hv'). destruct (run s1 events) as [s2 o2]. by rewrite app_assoc.
Qed.

(** C13: a stream the pump ends as natural gave the client the whole answer and nothing else but
    keep-alive comments: what the converter, the shaper (as the openings left it) and their last
    bytes make of the bytes the upstream sent in its last attempt, taken in pieces that are those
    bytes in order, each once; whatever was held back, whichever inspector reads along, however often the request
    was sent again, and with nothing of an earlier attempt. *)
Theorem natural_stream_is_whole events sh inspector budget client_sse now :
  let s0 := build_chat_pump L client sh inspector budget client_sse now in
  let last := attempt_of s0 {| ab_convert := None; ab_shaper := sh; ab_bytes := "" |} events in
  let '(s, out) := run s0 events in
  pm_told s = Some Natural ->
  exists pieces, String.concat "" pieces = ab_bytes last /\ bytes_of out = make_end (made_of last pieces).
Proof.
  intros s0 last. pose proof (run_whole events s0 [] {| ab_convert := None; ab_shaper := sh; ab_bytes := "" |} (built_ok sh inspector budget client_sse now) eq_refl) as H.
  pose proof (pump_run_ok events s0 [] (built_ok sh inspector budget client_sse now)) as Hok. destruct (run s0 events) as [s out]. intros Ht.
  unfold whole in H. assert (Hd : pm_phase s = PDone) by (apply (ok_told _ _ Hok); by eexists). rewrite Hd in H. destruct (H Ht) as (pieces & Hb & Hc). by exists pieces.
Qed.
End Steps.

(** ** At concrete inputs

    Pieces are frames: [start] opens, [err] is an overload, [done] ends the answer; [boom] is a
    Bedrock exception.  The shaper ends every piece with a semicolon and the answer with how many
    it has shaped. *)

Definition demo_libs : stream_libs := {|
  Rd := unit; rd_new := fun _ => tt;
  rd_feed := fun _ c => (tt, [if decide (c = "start") then EvStart else if decide (c = "err") then EvError else OtherEvent]);
  Fr := unit; fr_new := tt; fr_feed := fun _ c => (tt, [{| fr_event := None; fr_data := c |}]); fr_flush := fun _ => (tt, []);
  ends_answer := fun _ f => bool_decide (fr_data f ∈ ["done"; "done;"]); stream_error := fun _ f => bool_decide (fr_data f = "err");
  error_frame_text := fun _ _ m => m;
  from_str := fun t => if decide (t = "err") then Some (JObj [("error", JObj [("type", JStr "overloaded_error"); ("message", JStr " busy ")])]) else None;
  sealed_words := fun _ _ => false; err_text := fun e => error_tag e;
  Use := unit; Sn := unit; sn_new := tt; sn_feed := fun s _ => s; sn_finish := fun _ => None;
  Co := unit; co_process := fun c _ => c; co_finish := fun _ => None; Le := unit;
  Cv := unit; cv_process := fun c b => (c, b); cv_finish := fun c => (c, ""); cv_fail := fun c m => (c, m);
  Sh := Z; sh_process := fun s b => if decide (b = "") then (s, "") else (s + 1, b +:+ ";"); sh_finish := fun s => (s, pretty (Z.to_N s));
  sh_rename := fun _ b => b; sh_restore_with := fun s _ => s;
  In := unit; in_check := fun i _ => (i, None); in_finish := fun i => (i, None);
  Un := unit; un_new := tt; un_feed := fun u b => (u, if decide (b = "boom") then Err ("refused", Some ("validationException", "no")) else Ok b); Effort := unit |}.

Definition at_second (n : Z) : moment := {| mo_now := n * sec; mo_jitter := f64_one; mo_admitted := true; mo_memory := true |}.
Definition chat_wire : wire demo_libs := @Build_wire demo_libs Chat None (tt : Co demo_libs) (tt : Le demo_libs) None.
#[local] Abbreviation demo_start := (build_chat_pump demo_libs Chat 0 None (Budget_new 0 (100 * sec)) true 0).
(** Unreachable, then overloaded before any content, then answered. *)
Definition thrice : list (pump_event demo_libs) :=
  [Opened (at_second 1) (Err (NetworkError "no route")); Quiet; Waited (3 * sec);
   Opened (at_second 4) (Ok chat_wire); Item (at_second 4) (Ok "start"); Item (at_second 5) (Ok "err"); Quiet; Waited (10 * sec);
   Opened (at_second 11) (Ok chat_wire); Item (at_second 11) (Ok "start"); Quiet; Item (at_second 12) (Ok "hello"); Item (at_second 13) (Ok "done"); Ended (at_second 14)].

Lemma natural_stream_is_whole_witness :
  let last := attempt_of demo_libs Chat "p" None demo_start (Build_attempt_bytes demo_libs None 0 "") thrice in
  (pump_run demo_libs Chat "p" None demo_start thrice).2 = [KeepAlive; KeepAlive; KeepAlive; Out "starthello;"; Out "done;"; Out "2"] /\
  exists pieces, String.concat "" pieces = ab_bytes demo_libs last /\
    bytes_of (pump_run demo_libs Chat "p" None demo_start thrice).2 = make_end demo_libs (made_of demo_libs last pieces).
Proof.
  assert (Ht : pm_told (pump_run demo_libs Chat "p" None demo_start thrice).1 = Some Natural) by (vm_compute; reflexivity).
  split; [vm_compute; reflexivity|].
  pose proof (natural_stream_is_whole demo_libs Chat "p" None thrice 0 None (Budget_new 0 (100 * sec)) true 0) as H. cbv zeta in H.
  destruct (pump_run demo_libs Chat "p" None demo_start thrice) as [s out]. exact (H Ht).
Defined.

(** The client leaves after the upstream has said it is overloaded, content having gone out. *)
Definition left_after_error : list (pump_event demo_libs) :=
  [Opened (at_second 1) (Ok chat_wire); Item (at_second 1) (Ok "hello"); Item (at_second 2) (Ok "err")].
(** Bedrock opens its answer and then refuses it. *)
Definition bedrock_wire : wire demo_libs := @Build_wire demo_libs Bedrock None (tt : Co demo_libs) (tt : Le demo_libs) None.
Definition bedrock_opens : list (pump_event demo_libs) := [Opened (at_second 1) (Ok bedrock_wire); Item (at_second 1) (Ok "start")].
Definition boom : pump_event demo_libs := Item (at_second 2) (Ok "boom").

(** The first half of the theorem at a state, and what it says of a client that leaves there. *)
Definition fails_from (s : chat_pump demo_libs) : Prop :=
  is_Some (rr_said (pm_readers s)) -> forall events', let s' := (pump_run demo_libs Chat "p" None s events').1 in
    retries (pm_budget s') = retries (pm_budget s) -> is_error (tail_outcome demo_libs "p" s').
Lemma fails_from_here s : fails_from s -> bool_decide (is_Some (rr_said (pm_readers s))) = true -> is_error (tail_outcome demo_libs "p" s).
Proof. intros H Hs%bool_decide_eq_true. exact (H Hs [] eq_refl). Qed.

Lemma reported_error_fails_request_witness :
  is_error (tail_outcome demo_libs "p" (pump_run demo_libs Chat "p" None demo_start left_after_error).1) /\
  let s1 := (pump_step demo_libs Chat "p" None (pump_run demo_libs Chat "p" None demo_start bedrock_opens).1 boom).1 in
  exists o, is_error o /\ pm_told s1 = None /\ pm_told (pump_run demo_libs Chat "p" None s1 [PollNext]).1 = Some o.
Proof.
  split.
  - assert (exists a, pm_phase (pump_run demo_libs Chat "p" None demo_start left_after_error).1 = PStreaming a) as [a Ha] by (eexists; vm_compute; reflexivity).
    apply fails_from_here; [|vm_compute; reflexivity].
    exact (proj1 (reported_error_fails_request demo_libs Chat "p" None left_after_error 0 None (Budget_new 0 (100 * sec)) true 0 a Ha)).
  - assert (exists a msg o, pm_phase (pump_run demo_libs Chat "p" None demo_start bedrock_opens).1 = PStreaming a /\
      broken_by demo_libs "p" a (Ok "boom") = Some (msg, o)) as (a & msg & o & Ha & Hb).
    { eexists _, _, _. split; vm_compute; reflexivity. }
    destruct (proj2 (reported_error_fails_request demo_libs Chat "p" None bedrock_opens 0 None (Budget_new 0 (100 * sec)) true 0 a Ha)
      (at_second 2) (Ok "boom") msg o Hb) as [Ho [Hr|[(o' & Hd & _)|[_ Hp]]]].
    + vm_compute in Hr. discriminate Hr.
    + vm_compute in Hd. discriminate Hd.
    + exists o. split; [exact Ho|]. split; [vm_compute; reflexivity|]. apply Hp. by left.
Defined.

(** The opening of an answer Bedrock refused goes out before the error.  A client that leaves
    with it is recorded as having left, though the upstream had failed. *)
Example leaves_at_held_opening :
  let opened := (pump_run demo_libs Chat "p" None demo_start (bedrock_opens ++ [boom])) in
  opened.2 = [Out "start;"] /\ tail_outcome demo_libs "p" opened.1 = ClientCancelled /\
  is_natural (tail_outcome demo_libs "p" (pump_run demo_libs Chat "p" None opened.1 [PollNext]).1) = false /\
  tail_outcome demo_libs "p" (pump_run demo_libs Chat "p" None opened.1 [PollNext]).1 <> ClientCancelled.
Proof. vm_compute. split_and!; [done|done|done|discriminate]. Qed.

(** A client that leaves with the last frame has the whole answer; one that leaves before has not. *)
Example leaves_after_last_frame :
  let run events := tail_outcome demo_libs "p" (pump_run demo_libs Chat "p" None demo_start events).1 in
  run [Opened (at_second 1) (Ok chat_wire); Item (at_second 1) (Ok "hello"); Item (at_second 2) (Ok "done")] = Natural /\
  run [Opened (at_second 1) (Ok chat_wire); Item (at_second 1) (Ok "hello")] = ClientCancelled.
Proof. vm_compute. done. Qed.
